(* ===== verification/_CoqProject ===== *)
-Q . S2P
Prelude.v
MapSpec.v
SortedArray.v
Avl.v
Heap.v
StrBuf.v
CommonStr.v
Time.v
LabelSet.v
Double.v
Distribution.v
MetaData.v
Metric.v
Cache.v
LList.v
WriteQueue.v
Plugin.v
Dispatch.v
ReadLoop.v
Wire.v
LccBuffer.v
LccParse.v
LccRoundtrip.v
Values.v
Cmds.v
Commands.v
OConfig.v
FilterChain.v
ConfigRead.v
ConfigFile.v
Process.v
Rounding.v
Latency.v
Subst.v
Complain.v
IgnoreList.v
TypesDb.v
Notification.v
Threshold.v
Formats.v
Json.v
Prometheus.v
Cpu.v
LccClient.v
FileIo.v
Lifecycle.v
ValueLists.v
Daemon.v
