(* ===== verification/Prelude.v ===== *)
(** * A verification of the core of ncollectd

    ncollectd is a daemon that collects metrics.  Read plugins register
    callbacks, which a scheduler calls at their intervals; they dispatch metric
    families into a write queue; write threads take the families from the
    queue, look every metric up in a value cache, compute rates, and hand the
    families to the write plugins.  This library models the data structures
    and the components on that path and proves what makes them correct.

    ** Parts of the program and the files that model them

    Paths are relative to src/; the C functions have definitions of the same
    names.

    - [Prelude] (this file): errno values, machine integers, C strings with
      [strcmp], [strspn], ..., comparators, the effect monad, automation.
    - [MapSpec]: sorted association lists as the specification of an ordered
      map, the interface class [KeyedMap] with its laws [KeyedMapLaws].
    - [SortedArray]: [bsearch] and [qsort] of the C library on arrays that are
      sorted by a key.
    - [Avl] (src/utils/avltree/avltree.c): the search tree.  A node with its
      chain of parent pointers is a zipper.  [avl_laws] discharges
      [KeyedMapLaws].
    - [Heap] (src/utils/heap/heap.c): the array heap, with size_t indices that
      wrap.
    - [StrBuf] (src/utils/strbuf/strbuf.c): growing and fixed-size string
      buffers, down to the byte array.
    - [LabelSet] (src/daemon/label_set.c): sorted arrays of labels, their text
      form and its parser; all printing goes through [StrBuf].
    - [Double]: the double arithmetic the code uses, on the Standard
      Library's IEEE binary64.
    - [Distribution] (src/daemon/distribution.c): histograms kept as a binary
      tree in an array, with their mutexes.
    - [MetaData] (src/utils/metadata/meta_data.c): typed key-value lists.
    - [Metric] (src/daemon/metric.c): metrics, families, the identity of a
      metric and its parser.  Calls [LabelSet], [StrBuf], [MetaData] and
      [Distribution].
    - [Cache] (src/daemon/utils_cache.c): the value cache and its mutex,
      written against [KeyedMap].  Calls [Metric], [Distribution], [MetaData].
    - [LList] (src/daemon/utils_llist.c): linked lists in an explicit memory.
    - [WriteQueue] (src/daemon/plugin.c): the write queue under interleaved
      threads: [write_queue_enqueue], [plugin_write_dequeue],
      [plugin_write_thread], [stop_write_threads].
    - [Plugin] (src/daemon/plugin.c): the registry of callbacks on [LList] and
      the loops that call them.
    - [Dispatch] (src/daemon/plugin.c): plugin_dispatch_metric_family with the
      queue limits, and the cache event callbacks.
    - [ReadLoop] (src/daemon/plugin.c): the read scheduler on [Heap]:
      plugin_read_thread, registration, removal and shutdown.
    - [CommonStr] (src/utils/common/common.c): the string helpers on byte
      arrays and the parsing of integers.
    - [Time] (src/daemon/utils_time.h, utils_time.c): the conversions of
      cdtime_t and its RFC 3339 text, with a model of [gmtime_r].
    - [Wire]: byte order.  [LccBuffer]
      (src/libcollectdclient/network_buffer.c), [LccParse]
      (src/libcollectdclient/network_parse.c): the writer and the parser of the
      client library's binary packets; libgcrypt is the class [Gcrypt] with its
      laws [GcryptLaws].  [LccRoundtrip] composes the two.
    - [Values] (src/utils/common/common.c, src/daemon/plugin.c): the old
      identifiers "host/plugin-instance/type-instance", rates of a data source,
      the values of a PUTVAL line, and the old value lists as families.
    - [Cmds], [Commands] (src/utils/cmds): the line protocol: splitting a line
      into fields, options, then the parsers and handlers of FLUSH, GETVAL,
      LISTVAL, PUTVAL and PUTMETRIC (GETTHRESHOLD and PUTNOTIF are in
      [LccClient]) and the printer of PUTMETRIC.  They call
      [CommonStr], [Values], [Metric] and [Cache].
    - [OConfig] (src/liboconfig/oconfig.c, src/daemon/configfile.c):
      configuration items, the typed accessors cf_util_get_*, global options.
    - [FilterChain] (src/daemon/filter_chain.c): chains of rules, matches and
      targets in an explicit memory; configuration and processing.
    - [ConfigRead] (src/daemon/configfile.c): reading files and directories
      and replacing Include statements by what they include.
    - [ConfigFile] (src/daemon/configfile.c, src/daemon/plugin.c): registration
      of configuration callbacks, [plugin_load], dispatch of options and
      blocks, [cf_read].  Calls [OConfig], [FilterChain] and [ConfigRead].
    - [Process] (src/daemon/plugin.c): plugin_dispatch_metric_internal, which
      takes a family through [FilterChain], [Cache] and [Plugin].
    - [Rounding]: bounds on rounded doubles and exact results.  [Latency]
      (src/utils/latency): latency counters with bins of growing width, and
      their configuration.
    - [Subst] (src/daemon/utils_subst.c), [Complain]
      (src/daemon/utils_complain.c), [IgnoreList]
      (src/utils/ignorelist/ignorelist.c): helpers of the plugins.
    - [TypesDb] (src/daemon/types_list.c, src/daemon/plugin.c): the registry of
      data sets and the reading of types.db.
    - [Notification] (src/daemon/notification.c, src/daemon/plugin.c):
      notifications, their text, copies and dispatch.
    - [Threshold] (src/plugins/threshold/threshold.c,
      src/daemon/utils_threshold.c): the threshold plugin, from its
      configuration to the notifications; it calls [OConfig], [Plugin],
      [Metric], [Cache] and [Notification].
    - [Formats] (src/utils/format_graphite, src/utils/format_openmetrics) and
      [Json] (src/utils/format_json, src/utils/format_kairosdb): the texts that
      write plugins send; the JSON generator is the class [Yajl] with its laws
      [YajlLaws], for values within the limits that yajl documents.
    - [Prometheus] (src/plugins/write_prometheus/write_prometheus.c): the
      exporter's store of samples, on [KeyedMap] and [SortedArray], and its page.
    - [Cpu] (src/plugins/cpu/cpu.c): the CPU plugin on Linux, from the text of
      /proc/stat to the families it dispatches.
    - [LccClient] (src/libcollectdclient/client.c, src/unixsock.c): the commands
      of the client library, composed with the server's loop over [Commands].
    - [FileIo] (src/utils/common/common.c): the loops of sread and swrite, the
      creation of directories, numbers in files, values as text.
    - [Lifecycle] (src/daemon/plugin.c): all lists of callbacks, the start, the
      single run, the shutdown and the log; on [Plugin], [Dispatch], [ReadLoop].
    - [ValueLists] (src/daemon/plugin.c, src/daemon/utils_cache.c): the old
      value lists on their way to the write queue.
    - [Daemon] (src/daemon/collectd.c, cmd.c, globals.c): the command line, the
      global variables, the main loop, supervisor and PID file; composes
      [ConfigFile] and [Lifecycle].

    ** How code becomes definitions

    Structs are records, with the source's field names where they do not
    clash.  A pointer that may be NULL is an option; an array is a list whose
    accesses fail out of range; where pointers are shared or freed (linked
    lists, the write queue, read functions) they are addresses of a finite
    map.  A [size_t] or [uint64_t] is a [Z] in range whose wrap-around is
    written out where the code can reach it ([u64]); [double] is
    [Double.double].  Functions that change a structure in place take it and
    return it; a status code is the [int] of the code.  A mutex of sequential
    code is a boolean of the state, and taking it twice or releasing it when
    it is free is undefined.

    Code that allocates lives in the monad [M]: it reads the outcome of each
    allocation from a list, and it may run into undefined behaviour (an array
    access out of range, a NULL dereference, a failing [assert], a lock error),
    which is [None].  [wp m Q] says that [m] returns a value that satisfies [Q]
    and is free of undefined behaviour, whatever the allocator answers;
    [m ⇓ a] says that [m] returns [a] when memory is available.

    Threads are program counters; a step function runs one thread to its next
    access to shared state and answers [Blocked], [Undefined] or the next
    state.  [reachable] and [rreachable] are the states of all interleavings,
    and the invariants are proved by induction on them.

    Loops whose recursion is not structural carry fuel, chosen where they are
    called from data at hand: the binary search and the text parsers use the
    length of the array or text plus one, the packet parser the length of the
    packet plus one, the splitting of a command the length of the line plus
    one, the heap's sift loops and the loop
    that destroys it the number of elements plus one, the tree of a
    distribution the number of its buckets plus one, list traversals the number
    of allocated nodes plus one, the jumps between filter chains the number of
    chains plus one.  Only the reading of configuration files takes its fuel as
    an argument, because the files are parameters; [settles] says that some
    fuel is enough and more of it changes nothing.  The theorems are stated on these entry
    points and prove a result, so the fuel is enough in every case they cover;
    running out of it is undefined behaviour and never an answer.

    ** What the theorems show

    - Containers: the search tree answers every sequence of operations as a
      sorted list does ([avl_simulates_spec]), with the behaviour of insertion
      and removal, complete iteration and a logarithmic height; the heap sorts
      ([heap_sorts]); the linked lists refine lists (lemmas of [LList]).
    - Text: appends to a buffer stay inside it on every path
      ([strbuf_print_spec], [strbuf_print_escaped_spec]); label sets survive a
      round trip through their text unless they are empty
      ([label_set_roundtrip]), and an identity
      determines the metric ([metric_identity_injective]).
    - Label sets, meta data, families: every operation refines an update of
      the abstract map, errors included.
    - Distributions: the array tree refines the vector of buckets
      ([distribution_update_refines]), percentiles, subtraction.
    - The cache: an update refines an update of the map from identities to
      entries ([uc_update_metric_spec]), counter rates survive wrap-around
      ([uc_counter_rate]), a timeout pass removes exactly the stale entries
      ([uc_check_timeout_spec]).
    - Threads: the write queue is first in, first out, loses nothing and does
      not deadlock ([write_queue_fifo], [write_queue_progress],
      [stop_write_threads_spec]); the read scheduler keeps every callback in
      one place ([read_scheduler_safe]), backs off ([read_backoff_spec]) and
      frees everything at shutdown ([read_shutdown_spec]).
    - Registry: every user data is freed exactly once ([registry_frees_once]);
      dispatch calls what it should ([plugin_write_spec],
      [plugin_dispatch_metric_family_spec]).
    - Packets: what the client library writes its parser reads back
      ([network_roundtrip], [network_roundtrip_signed]); a parser that requires
      signatures or encryption writes only what a right signature covers or
      what it decrypted ([network_parse_authentic]), on any bytes.  A value list
      sent with the text protocol arrives as its printed values
      ([lcc_putval_arrives]).
    - Times: the integer conversions are exact roundings
      ([cdtime_conversions_exact], [cdtime_roundtrip]) and the text of a time
      determines it ([rfc3339_spec]).
    - String helpers: bounds and outcome of [escape_string]
      ([escape_string_spec]); lemmas for splitting, joining, unescaping and
      the parsing of integers.
    - Identifiers and values: an identifier survives a round trip
      ([identifier_roundtrip]), a list of values is read entirely or rejected
      ([parse_values_spec]), and the rate of a value is the cache's rate
      ([value_to_rate_agrees]).
    - Commands: splitting a line is free of undefined behaviour
      ([cmd_split_safe]) and gives back the fields of a quoted line
      ([cmd_split_fields], [escape_parse_roundtrip]); a printed PUTMETRIC is
      parsed to the metric ([putmetric_roundtrip]); a parsed command has the
      type of its verb ([cmd_parse_typed]).
    - Configuration: an option reads as the last setting of highest precedence
      ([global_option_precedence]); replacing an include is a splice
      ([cf_ci_replace_child_spec]) and reading terminates however files include
      each other ([cf_read_generic_terminates]); a plugin is loaded at most
      once ([plugin_load_spec]).
    - Filter chains: processing a chain computes what the big-step rules
      [chain_runs] say ([fc_process_chain_spec]), in which a matching rule
      without targets stops the chain; configuring keeps the chains
      well-typed ([fc_configure_spec]).
    - Helpers: the histogram of a latency counter counts every latency in its
      bin through every change of the width, but for values just above a power
      of two ([latency_counter_spec]), and reading a rate is
      safe ([latency_rate_safe]); substitution stays in its buffer and finishes
      ([subst_spec], [subst_string_spec]); complaints back off exponentially
      ([complain_backoff]); an ignore list answers as its rules
      ([ignorelist_spec]).
    - Data sets: reading a types.db makes known exactly what it defines
      ([types_db_roundtrip]).
    - Thresholds: the notifications for a sequence of values are those of an
      abstract machine ([threshold_notifications_spec]), in the simplest case
      one for each change of state ([threshold_notifies_changes]); the
      configuration keeps every threshold in order ([ut_config_spec]); missing
      metrics ([ut_missing_spec]).  Notifications:
      [plugin_dispatch_notification_spec].
    - Output: a Graphite path cannot break its line ([format_graphite_spec]), an
      OpenMetrics family has one line per metric ([format_openmetrics_spec]),
      and the buffer of a JSON formatter holds one array of all families
      ([format_json_spec], [format_kairosdb_spec]).
    - Plugins: the Prometheus exporter holds the last sample of every live
      series ([prom_exporter_spec]); the CPU plugin dispatches the totals of an
      abstract machine ([cpu_totals_spec]) and reads the masks of the nodes
      ([cpu_node_mask_spec]).
    - The life of the daemon: the start calls every init callback and creates
      the write threads ([plugin_init_all_spec]), the single run calls every
      read callback ([plugin_read_all_once_spec]), the shutdown calls and frees
      everything in order ([plugin_shutdown_all_spec]); a run from start to end
      composes them ([run_loop_spec]); the main loop keeps its schedule
      ([do_loop_schedule]); messages go to every log callback
      ([daemon_log_spec]).
    - Files: the directories a file needs are made ([check_create_dir_spec]).
    - The path of a value list: [plugin_dispatch_values_spec].
    - The path of a family: [plugin_dispatch_metric_internal_spec] and
      [plugin_dispatch_filtered_spec] compose chains, cache and write plugins.
    - Some theorems also state, precisely, where the code departs from what it
      means to do: [label_set_delete_spec], [metric_parse_identity_spec],
      [uc_check_timeout_spec], [distribution_sub_spec], [uc_history_slot],
      [uc_get_rate_by_name_spec], [meta_data_clone_merge_spec],
      [metric_family_clone_spec], [check_drop_value_spec],
      [plugin_dispatch_cache_event_spec], [read_stop_lost_wakeup],
      [network_encryption_clear], [network_stale_state],
      [timeval_not_normalised], [escape_string_spec], [fc_configure_spec],
      [fc_failed_configuration_dangles], [fc_jump_cycle_diverges],
      [complain_once_spec], [long_line_skips_next],
      [notification_clone_spec], [notification_text_rejected],
      [threshold_hits_delay], [invert_without_failure_range],
      [graphite_rate_not_printed], [format_kairosdb_spec],
      [format_json_notification_spec], [label_set_roundtrip] (the empty set),
      [persist_ok_alone], [putmetric_roundtrip], [putmetric_line_break_lost],
      [putnotif_no_answer], [getval_answer_refused], [cpu_node_mask_spec],
      [prom_missing_unknown_blocks], [deep_directory_missing],
      [format_values_untyped], [value_list_no_memory],
      [negative_write_threads], [single_run_calls_removed],
      [parse_notif_severity_case], [test_config_reads_nothing],
      [basedir_root_refused], [short_interval_asserts], [main_pidfile].

    ** What is not modelled

    The text [printf] makes of its arguments, [pow] and [log] of libm and the
    page size are parameters, and so are libgcrypt, [localtime_r], [strtod],
    regular expressions, the table of data sets, [getaddrinfo], the file system
    with [wordexp] and [fnmatch], the generated parser of configuration files,
    [dlopen] and yajl.  What callbacks return is an argument of the functions
    that call them, and the calls are returned as lists; callbacks that change
    the lists of callbacks are covered for the start and the shutdown only
    ([Lifecycle]).  Replies of command handlers are lists of lines, and writing
    them succeeds.  The operations of the heap are sequential: its mutex only
    wraps whole operations.  NULL handles, which the functions reject with
    EINVAL on their first line, are outside the types.  The counters of
    [Complain] only decide what is logged and are left out of the functions that
    use them.  Sockets, libmicrohttpd and the terminal are not part of the
    library, nor are the plugins other than threshold, cpu, write_prometheus
    and the loop of unixsock, the matches and targets of the filter chain
    plugins, the lookup of identifiers, and code for other systems than
    Linux. *)

From Stdlib Require Import ZArith Lia Ascii String.
From stdpp Require Import base gmap list numbers strings sorting.

#[global] Open Scope Z_scope.

(** ** Error numbers (errno.h, Linux values) *)

Definition ENOENT : Z := 2.
Definition EAGAIN : Z := 11.
Definition ENOMEM : Z := 12.
Definition EEXIST : Z := 17.
Definition EINVAL : Z := 22.
Definition ENOSPC : Z := 28.
Definition ERANGE : Z := 34.
Definition ENOTSUP : Z := 95.
Definition ENOBUFS : Z := 105.
Definition EOF : Z := -1.

(** ** Machine integers

    A [w]-bit integer is a [Z]; the wrap-around of the unsigned types is
    written where the code relies on it. *)

Definition wrap (w z : Z) : Z := z mod 2 ^ w.
Definition u64 : Z → Z := wrap 64.
Definition u32 : Z → Z := wrap 32.
Definition i64 (z : Z) : Z := (z + 2 ^ 63) mod 2 ^ 64 - 2 ^ 63.

Definition in_u64 (z : Z) : Prop := 0 ≤ z < 2 ^ 64.

Lemma u64_small z : in_u64 z → u64 z = z.
Proof. intros H. apply Z.mod_small, H. Qed.

Lemma u64_range z : in_u64 (u64 z).
Proof. apply Z.mod_pos_bound. lia. Qed.

Lemma i64_small z : - 2 ^ 63 ≤ z < 2 ^ 63 → i64 z = z.
Proof. intros H. unfold i64. rewrite Z.mod_small; lia. Qed.

(** ** C characters and strings

    A C string is the list of the bytes before its terminating NUL. *)

Abbreviation cstr := (list ascii).

Declare Scope cstr_scope.
Delimit Scope cstr_scope with cstr.
Notation "$ s" := (list_ascii_of_string s%string) (at level 5, s at level 0) : cstr_scope.
#[global] Open Scope cstr_scope.

Definition NUL : ascii := "000".
Definition chr_code (c : ascii) : Z := Z.of_N (N_of_ascii c).
Definition chr_in (lo hi : Z) (c : ascii) : bool := (lo <=? chr_code c) && (chr_code c <=? hi).
Definition isdigit : ascii → bool := chr_in 48 57.
Definition isupper : ascii → bool := chr_in 65 90.
Definition islower : ascii → bool := chr_in 97 122.
Definition isalnum (c : ascii) : bool := isdigit c || isupper c || islower c.
Definition isspace (c : ascii) : bool := chr_in 9 13 c || (chr_code c =? 32).
Definition tolower (c : ascii) : ascii :=
  if isupper c then ascii_of_N (N_of_ascii c + 32) else c.

(** A string that C can hold: no embedded NUL. *)
Definition no_nul (s : cstr) : Prop := Forall (λ c, c ≠ NUL) s.

#[export] Instance no_nul_dec s : Decision (no_nul s).
Proof. unfold no_nul. apply _. Defined.

(** [strcmp]: the sign of the first difference, bytes as unsigned. *)
Fixpoint strcmp (a b : cstr) : Z :=
  match a, b with
  | [], [] => 0
  | [], _ :: _ => -1
  | _ :: _, [] => 1
  | x :: a', y :: b' =>
      if chr_code x =? chr_code y then strcmp a' b'
      else if chr_code x <? chr_code y then -1 else 1
  end.

Definition strcasecmp (a b : cstr) : Z := strcmp (map tolower a) (map tolower b).

(** [strspn]/[strcspn]: length of the longest prefix whose characters are
    (are not) in the set. *)
Fixpoint span_len (p : ascii → bool) (s : cstr) : nat :=
  match s with
  | [] => 0
  | c :: s' => if p c then S (span_len p s') else 0
  end.
Definition chr_mem (set : cstr) (c : ascii) : bool := bool_decide (c ∈ set).
Definition strspn (s set : cstr) : nat := span_len (chr_mem set) s.
Definition strcspn (s set : cstr) : nat := span_len (λ c, negb (chr_mem set c)) s.

Lemma chr_code_inj a b : chr_code a = chr_code b → a = b.
Proof.
  unfold chr_code. intros H%N2Z.inj.
  by rewrite <-(ascii_N_embedding a), H, ascii_N_embedding.
Qed.

Lemma span_len_le p s : (span_len p s ≤ length s)%nat.
Proof. induction s as [|c s IH]; simpl; [lia|]. destruct (p c); lia. Qed.

Lemma span_len_all p s : Forall (λ c, p c = true) s → span_len p s = length s.
Proof. induction 1 as [|c s Hc _ IH]; simpl; [done|]. by rewrite Hc, IH. Qed.

Lemma span_len_app_stop p s c rest :
  Forall (λ c, p c = true) s → p c = false → span_len p (s ++ c :: rest) = length s.
Proof. induction 1 as [|x s Hx _ IH]; intros Hc; simpl; [by rewrite Hc|]. by rewrite Hx, IH. Qed.

Lemma span_len_take p s : Forall (λ c, p c = true) (take (span_len p s) s).
Proof.
  induction s as [|c s IH]; simpl; [done|].
  destruct (p c) eqn:E; simpl; constructor; auto.
Qed.

Lemma span_len_stop p s c : s !! span_len p s = Some c → p c = false.
Proof.
  induction s as [|x s IH]; simpl; [done|].
  destruct (p x) eqn:E; simpl; [auto|]. by intros [= <-].
Qed.

Lemma app_mid {A} (l1 l2 l3 l4 : list A) x :
  l1 ++ (l2 ++ x :: l3) ++ l4 = (l1 ++ l2) ++ x :: l3 ++ l4.
Proof. by rewrite <-!app_assoc. Qed.

(** ** Comparators

    The containers take a [compare] function pointer. What they rely on is
    stated once, as a class of the comparison. *)

Class Comparator (K : Type) : Type := compare : K → K → Z.

(** Enough for the heap: a total preorder. *)
Class TotalPreorder (K : Type) `{Comparator K} : Prop := {
  compare_flip : ∀ a b : K, compare a b < 0 ↔ 0 < compare b a;
  compare_le_trans : ∀ a b c : K, compare a b ≤ 0 → compare b c ≤ 0 → compare a c ≤ 0;
}.

(** The search tree also identifies keys that compare equal. *)
Class StrictCompare (K : Type) `{Comparator K} : Prop := {
  compare_preorder :: TotalPreorder K;
  compare_eq : ∀ a b : K, compare a b = 0 ↔ a = b;
}.

Section compare_lemmas.
Context `{StrictCompare K}.
Implicit Types a b c : K.

Lemma compare_refl a : compare a a = 0.
Proof. by apply compare_eq. Qed.

Lemma compare_lt_trans a b c : compare a b < 0 → compare b c < 0 → compare a c < 0.
Proof.
  intros Hab Hbc.
  assert (compare a c ≤ 0) by (apply (compare_le_trans a b c); lia).
  assert (compare a c ≠ 0); [|lia]. intros ->%compare_eq.
  apply compare_flip in Hbc. lia.
Qed.

Lemma compare_lt_ne a b : compare a b < 0 → a ≠ b.
Proof. intros Hlt ->. rewrite compare_refl in Hlt. lia. Qed.

Lemma compare_gt a b : 0 < compare a b ↔ compare b a < 0.
Proof. symmetry. apply compare_flip. Qed.

Lemma compare_cases a b : compare a b < 0 ∨ a = b ∨ compare b a < 0.
Proof.
  destruct (Z.lt_trichotomy (compare a b) 0) as [?|[?|?]];
    [by left|right; left; by apply compare_eq|right; right; by apply compare_flip].
Qed.
End compare_lemmas.

#[export] Instance Z_comparator : Comparator Z := λ a b, a - b.
#[export] Instance Z_strict : StrictCompare Z.
Proof. split; [split|]; unfold compare, Z_comparator; lia. Qed.

#[export] Instance cstr_comparator : Comparator cstr := strcmp.

Lemma strcmp_eq a b : strcmp a b = 0 ↔ a = b.
Proof.
  revert b; induction a as [|x a IH]; intros [|y b]; simpl; try naive_solver lia.
  destruct (Z.eqb_spec (chr_code x) (chr_code y)) as [E|E].
  - apply chr_code_inj in E as ->. rewrite IH. naive_solver.
  - destruct (Z.ltb_spec (chr_code x) (chr_code y)); naive_solver lia.
Qed.

Lemma strcmp_flip a b : strcmp a b < 0 ↔ 0 < strcmp b a.
Proof.
  revert b; induction a as [|x a IH]; intros [|y b]; simpl; try lia.
  rewrite (Z.eqb_sym (chr_code y)).
  destruct (Z.eqb_spec (chr_code x) (chr_code y)); [apply IH|].
  destruct (Z.ltb_spec (chr_code x) (chr_code y)),
    (Z.ltb_spec (chr_code y) (chr_code x)); lia.
Qed.

Lemma strcmp_lt_trans a b c : strcmp a b < 0 → strcmp b c < 0 → strcmp a c < 0.
Proof.
  revert b c; induction a as [|x a IH]; intros [|y b] [|z c]; simpl; try lia.
  destruct (Z.eqb_spec (chr_code x) (chr_code y)),
    (Z.eqb_spec (chr_code y) (chr_code z)), (Z.eqb_spec (chr_code x) (chr_code z));
  destruct (Z.ltb_spec (chr_code x) (chr_code y)),
    (Z.ltb_spec (chr_code y) (chr_code z)), (Z.ltb_spec (chr_code x) (chr_code z));
  try lia; eauto.
Qed.

#[export] Instance cstr_strict : StrictCompare cstr.
Proof.
  split; [split|]; unfold compare, cstr_comparator;
    [apply strcmp_flip| |apply strcmp_eq].
  intros a b c Hab Hbc.
  destruct (decide (strcmp a b = 0)) as [->%strcmp_eq|]; [done|].
  destruct (decide (strcmp b c = 0)) as [<-%strcmp_eq|]; [done|].
  apply Z.lt_le_incl, (strcmp_lt_trans a b c); lia.
Qed.

(** ** The effect monad

    A computation consumes the outcomes of the allocations it asks for
    ([true]: the allocator returned memory; an exhausted list goes on
    succeeding) and returns a value, or [None] when it runs into undefined
    behaviour or a failing [assert]. *)

Definition M (A : Type) : Type := list bool → option (A * list bool).

Definition ret {A} (a : A) : M A := λ o, Some (a, o).
Definition bind {A B} (m : M A) (k : A → M B) : M B := λ o,
  match m o with Some (a, o') => k a o' | None => None end.

Notation "'let*' x := m 'in' k" := (bind m (λ x, k))
  (at level 10, x name, m at level 100, k at level 200) : cstr_scope.
Notation "'let*' ' x := m 'in' k" := (bind m (λ y, match y with x => k end))
  (at level 10, x strict pattern, m at level 100, k at level 200) : cstr_scope.

Definition alloc : M bool := λ o,
  match o with [] => Some (true, []) | b :: o' => Some (b, o') end.
Definition crash {A} : M A := λ _, None.
Definition massert (b : bool) : M unit := if b then ret tt else crash.
Definition mopt {A} (x : option A) : M A := match x with Some a => ret a | None => crash end.

Lemma bind_ret {A B} (a : A) (k : A → M B) : bind (ret a) k = k a.
Proof. done. Qed.

Lemma bind_run {A B} (m : M A) (k : A → M B) o a o' : m o = Some (a, o') → bind m k o = k a o'.
Proof. unfold bind. by intros ->. Qed.

Lemma bind_ext {A B} (m1 m2 : M A) (k1 k2 : A → M B) o :
  m1 o = m2 o → (∀ a o, k1 a o = k2 a o) → bind m1 k1 o = bind m2 k2 o.
Proof. intros Hm Hk. unfold bind. rewrite Hm. destruct (m2 o) as [[a o']|]; auto. Qed.

(** [wp m Q]: whatever the allocator answers, [m] does not crash and its
    result satisfies [Q]. *)
Definition wp {A} (m : M A) (Q : A → Prop) : Prop :=
  ∀ o, ∃ a o', m o = Some (a, o') ∧ Q a.

(** [m ⇓ a]: when every allocation succeeds, [m] returns [a]. *)
Definition yields {A} (m : M A) (a : A) : Prop := m [] = Some (a, []).
Notation "m ⇓ a" := (yields m a) (at level 70, no associativity).

Lemma wp_ret {A} (a : A) (Q : A → Prop) : Q a → wp (ret a) Q.
Proof. intros H o. by exists a, o. Qed.

Lemma wp_bind {A B} (m : M A) (k : A → M B) Q : wp m (λ a, wp (k a) Q) → wp (bind m k) Q.
Proof.
  intros H o. destruct (H o) as (a & o' & E & Hk). destruct (Hk o') as (b & o'' & E' & HQ).
  exists b, o''. split; [|done]. unfold bind. by rewrite E.
Qed.

Lemma wp_mono {A} (m : M A) (P Q : A → Prop) : wp m P → (∀ a, P a → Q a) → wp m Q.
Proof. intros H HPQ o. destruct (H o) as (a & o' & E & HP). exists a, o'. eauto. Qed.

Lemma wp_alloc (Q : bool → Prop) : (∀ b, Q b) → wp alloc Q.
Proof. intros H [|b o]; eexists _, _; split; try reflexivity; apply H. Qed.

Lemma wp_massert b (Q : unit → Prop) : b = true → Q tt → wp (massert b) Q.
Proof. intros ->. apply wp_ret. Qed.

Lemma wp_mopt {A} (x : option A) a Q : x = Some a → Q a → wp (mopt x) Q.
Proof. intros ->. apply wp_ret. Qed.

Lemma wp_yields {A} (m : M A) Q : wp m Q → ∃ a o, m [] = Some (a, o) ∧ Q a.
Proof. intros H. apply (H []). Qed.

Lemma wp_at {A} (m : M A) Q a : wp m Q → m ⇓ a → Q a.
Proof. intros H E. destruct (H []) as (a' & o & E' & HQ). unfold yields in E. congruence. Qed.

Lemma yields_ret {A} (a : A) : ret a ⇓ a.
Proof. done. Qed.

Lemma yields_alloc : alloc ⇓ true.
Proof. done. Qed.

Lemma yields_bind {A B} (m : M A) (k : A → M B) a b : m ⇓ a → k a ⇓ b → bind m k ⇓ b.
Proof. unfold yields, bind. by intros -> ->. Qed.

Lemma yields_bind_eq {A B} (m : M A) (k : A → M B) a : m ⇓ a → bind m k [] = k a [].
Proof. unfold yields, bind. by intros ->. Qed.

Lemma yields_det {A} (m : M A) a b : m ⇓ a → m ⇓ b → a = b.
Proof. unfold yields. congruence. Qed.

(** A computation with fuel that returns, when memory is available, from some
    amount of fuel on, and always the same value. *)
Definition settles {A} (f : nat → M A) (Q : A → Prop) : Prop :=
  ∃ n a, Q a ∧ ∀ k, (n ≤ k)%nat → f k ⇓ a.

Lemma settles_yields {A} (m : M A) a (Q : A → Prop) : m ⇓ a → Q a → settles (λ _, m) Q.
Proof. intros H HQ. by exists 0%nat, a. Qed.

Lemma settles_bind {A B} (f : nat → M A) (g : nat → A → M B) (P : A → Prop) (Q : B → Prop) :
  settles f P → (∀ a, P a → settles (λ k, g k a) Q) → settles (λ k, bind (f k) (g k)) Q.
Proof.
  intros (n & a & Ha & Hf) Hg. destruct (Hg a Ha) as (n' & b & Hb & Hg').
  exists (n + n')%nat, b. split; [done|]. intros k Hk.
  eapply yields_bind; [apply Hf; lia|apply Hg'; lia].
Qed.

Lemma settles_S {A} (f g : nat → M A) (Q : A → Prop) :
  (∀ k, g (S k) = f k) → settles f Q → settles g Q.
Proof.
  intros E (n & a & Ha & Hf). exists (S n), a. split; [done|]. intros [|k] Hk; [lia|]. rewrite E. apply Hf. lia.
Qed.

Lemma settles_shift {A} (f : nat → M A) (Q : A → Prop) : settles f Q → settles (λ k, f (S k)) Q.
Proof. intros (n & a & Ha & Hf). exists n, a. split; [done|]. intros k Hk. apply Hf. lia. Qed.

Lemma settles_mono {A} (f : nat → M A) (P Q : A → Prop) : settles f P → (∀ a, P a → Q a) → settles f Q.
Proof. intros (n & a & Ha & Hf) H. exists n, a. auto. Qed.

Create HintDb ncd.
#[export] Hint Resolve wp_ret yields_ret yields_alloc : ncd.
#[export] Hint Resolve u64_range : ncd.

(** Step through a computation: [wp_go] for every allocation outcome,
    [run_go] on the path where allocations succeed. *)
Ltac wp_go :=
  repeat first
    [ apply wp_bind | apply wp_ret | apply wp_alloc; intros []
    | apply wp_massert; [solve [auto with ncd|lia|by case_bool_decide]|]
    | case_match ].

(** Case analysis on a three-way [compare] in the style of the C code. *)
Ltac zcase e := destruct (Z.lt_trichotomy e 0) as [?|[?|?]].

(** Turn boolean tests on [Z] and [nat] into the propositions they decide. *)
Ltac breflect :=
  repeat match goal with
  | H : (_ <? _) = true |- _ => apply Z.ltb_lt in H
  | H : (_ <? _) = false |- _ => apply Z.ltb_ge in H
  | H : (_ <=? _) = true |- _ => apply Z.leb_le in H
  | H : (_ <=? _) = false |- _ => apply Z.leb_gt in H
  | H : (_ =? _) = true |- _ => apply Z.eqb_eq in H
  | H : (_ =? _) = false |- _ => apply Z.eqb_neq in H
  | H : (_ && _) = true |- _ => apply andb_true_iff in H as [? ?]
  | H : (_ || _) = false |- _ => apply orb_false_iff in H as [? ?]
  | H : negb _ = true |- _ => apply negb_true_iff in H
  | H : negb _ = false |- _ => apply negb_false_iff in H
  | H : bool_decide _ = true |- _ => apply bool_decide_eq_true in H
  | H : bool_decide _ = false |- _ => apply bool_decide_eq_false in H
  end.
