(* ===== verification/MapSpec.v ===== *)
(** * What an ordered map promises its clients

    [Spec]: strictly sorted association lists, the abstract state of the
    search tree of src/utils/avltree.  [KeyedMap]: the operations the other
    components call, as a class; [KeyedMapLaws]: what they may rely on. *)

From Stdlib Require Import ZArith Lia.
From stdpp Require Import base list sets sorting numbers.
From S2P Require Import Prelude.

(** ** Sorted association lists *)

Module Spec.
Section spec.
Context {K V : Type} `{Comparator K}.

Fixpoint get (k : K) (l : list (K * V)) : option V :=
  match l with
  | [] => None
  | (k', v) :: l' => if compare k k' =? 0 then Some v else get k l'
  end.

Fixpoint insert (k : K) (v : V) (l : list (K * V)) : list (K * V) :=
  match l with
  | [] => [(k, v)]
  | (k', v') :: l' => if compare k k' <? 0 then (k, v) :: l else (k', v') :: insert k v l'
  end.

Fixpoint remove (k : K) (l : list (K * V)) : list (K * V) :=
  match l with
  | [] => []
  | (k', v') :: l' => if compare k k' =? 0 then l' else (k', v') :: remove k l'
  end.

Fixpoint update (k : K) (f : V → V) (l : list (K * V)) : list (K * V) :=
  match l with
  | [] => []
  | (k', v') :: l' => if compare k k' =? 0 then (k', f v') :: l' else (k', v') :: update k f l'
  end.

Definition lt (a b : K * V) : Prop := compare a.1 b.1 < 0.
Definition sorted : list (K * V) → Prop := StronglySorted lt.
End spec.
End Spec.

Section spec_lemmas.
Context {K V : Type} `{StrictCompare K}.
Implicit Types (l : list (K * V)) (k : K) (v : V).

Definition below k l : Prop := Forall (λ x, compare x.1 k < 0) l.
Definition above k l : Prop := Forall (λ x, compare k x.1 < 0) l.

Lemma spec_get_skip k l1 l2 : below k l1 → Spec.get k (l1 ++ l2) = Spec.get k l2.
Proof.
  induction 1 as [|[k' v'] l1 Hlt _ IH]; simpl in *; [done|].
  apply compare_flip in Hlt. destruct (Z.eqb_spec (compare k k') 0); [lia|done].
Qed.

Lemma spec_get_above k l : above k l → Spec.get k l = None.
Proof.
  induction 1 as [|[k' v'] l Hlt _ IH]; simpl in *; [done|].
  destruct (Z.eqb_spec (compare k k') 0); [lia|done].
Qed.

Lemma spec_get_here k v l : Spec.get k ((k, v) :: l) = Some v.
Proof. simpl. by rewrite compare_refl. Qed.

Lemma spec_insert_split k v l1 l2 :
  below k l1 → above k l2 → Spec.insert k v (l1 ++ l2) = l1 ++ (k, v) :: l2.
Proof.
  intros H1 H2. induction H1 as [|[k' v'] l1 Hlt _ IH]; simpl in *.
  - destruct l2 as [|[k' v'] l2]; simpl; [done|].
    apply (Forall_cons_1 _ (k', v')) in H2 as [Hlt _]. simpl in Hlt.
    by destruct (Z.ltb_spec (compare k k') 0); [|lia].
  - apply compare_flip in Hlt.
    destruct (Z.ltb_spec (compare k k') 0); [lia|]. by rewrite IH.
Qed.

Lemma spec_remove_split k v l1 l2 :
  below k l1 → Spec.remove k (l1 ++ (k, v) :: l2) = l1 ++ l2.
Proof.
  induction 1 as [|[k' v'] l1 Hlt _ IH]; simpl in *; [by rewrite compare_refl|].
  apply compare_flip in Hlt. destruct (Z.eqb_spec (compare k k') 0); [lia|]. by rewrite IH.
Qed.

Lemma sorted_split l1 k v l2 :
  Spec.sorted (l1 ++ (k, v) :: l2) ↔
  Spec.sorted l1 ∧ Spec.sorted l2 ∧ below k l1 ∧ above k l2.
Proof.
  unfold Spec.sorted, below, above.
  rewrite StronglySorted_app, StronglySorted_cons, !list.Forall_forall. unfold Spec.lt. simpl.
  setoid_rewrite elem_of_cons. split.
  { intros (Hx & ? & Hf & ?). repeat split; auto. intros x Hin. apply (Hx x (k, v)); auto. }
  intros (? & ? & Hb & Ha). repeat split; auto.
  intros x1 x2 Hx1 [->|Hx2]; simpl; auto.
  apply (compare_lt_trans _ k); auto.
Qed.

Lemma sorted_join l1 l2 k v : Spec.sorted (l1 ++ (k, v) :: l2) → Spec.sorted (l1 ++ l2).
Proof.
  unfold Spec.sorted. rewrite !StronglySorted_app, StronglySorted_cons.
  setoid_rewrite elem_of_cons. intros (? & ? & ? & ?). auto.
Qed.

Lemma spec_insert_elem k v l x : x ∈ Spec.insert k v l ↔ x = (k, v) ∨ x ∈ l.
Proof.
  induction l as [|[k' v'] l IH]; simpl; [set_solver|].
  destruct (Z.ltb_spec (compare k k') 0); set_solver.
Qed.

Lemma spec_insert_sorted k v l :
  Spec.get k l = None → Spec.sorted l → Spec.sorted (Spec.insert k v l).
Proof.
  unfold Spec.sorted. induction l as [|[k' v'] l IH]; simpl.
  - intros _ _. repeat constructor.
  - destruct (Z.eqb_spec (compare k k') 0) as [|Hne]; [done|]. intros Hg [Hf Hs]%StronglySorted_cons.
    destruct (Z.ltb_spec (compare k k') 0); rewrite !StronglySorted_cons.
    + repeat split; auto. constructor; [done|]. revert Hf. apply Forall_impl. unfold Spec.lt. simpl.
      intros x Hx. by apply (compare_lt_trans _ k').
    + split; [|auto]. apply list.Forall_forall. intros x [->|Hx]%spec_insert_elem.
      * apply compare_flip. simpl. lia.
      * by eapply list.Forall_forall in Hf.
Qed.

Lemma spec_insert_length k v l : length (Spec.insert k v l) = S (length l).
Proof.
  induction l as [|[k' v'] l IH]; simpl; [done|].
  destruct (Z.ltb_spec (compare k k') 0); simpl; lia.
Qed.

Lemma spec_get_split k v l :
  Spec.sorted l → Spec.get k l = Some v ↔ ∃ l1 l2, l = l1 ++ (k, v) :: l2 ∧ below k l1.
Proof.
  unfold Spec.sorted. split.
  - induction l as [|[k' v'] l IH]; simpl; [done|]. apply StronglySorted_cons in H1 as [Hf Hs].
    destruct (Z.eqb_spec (compare k k') 0) as [->%compare_eq|Hne].
    + intros [= ->]. exists [], l. split; [done|constructor].
    + intros Hg. destruct (IH Hs Hg) as (l1 & l2 & -> & Hb).
      exists ((k', v') :: l1), l2. split; [done|]. constructor; [|done]. simpl.
      apply list.Forall_forall with (x := (k, v)) in Hf; [done|]. set_solver.
  - intros (l1 & l2 & -> & Hb). by rewrite spec_get_skip, spec_get_here.
Qed.

Lemma spec_update_split k f v l1 l2 :
  below k l1 → Spec.update k f (l1 ++ (k, v) :: l2) = l1 ++ (k, f v) :: l2.
Proof.
  induction 1 as [|[k' v'] l1 Hlt _ IH]; simpl in *; [by rewrite compare_refl|].
  apply compare_flip in Hlt. destruct (Z.eqb_spec (compare k k') 0); [lia|]. by rewrite IH.
Qed.

Lemma spec_update_none k f l1 l2 :
  below k l1 → above k l2 → Spec.update k f (l1 ++ l2) = l1 ++ l2.
Proof.
  intros H1 H2. assert (Forall (λ x, compare k x.1 ≠ 0) (l1 ++ l2)) as Hall.
  { apply Forall_app. split; [revert H1|revert H2]; apply Forall_impl; intros x Hx; [|lia].
    apply compare_flip in Hx. lia. }
  induction Hall as [|[k' v'] l Hne _ IH]; simpl in *; [done|].
  destruct (Z.eqb_spec (compare k k') 0); [done|]. by rewrite IH.
Qed.

Lemma spec_update_keys k f l : map fst (Spec.update k f l) = map fst l.
Proof.
  induction l as [|[k' v'] l IH]; simpl; [done|].
  destruct (compare k k' =? 0); simpl; by rewrite ?IH.
Qed.

Lemma spec_sorted_keys l l' :
  map fst l = map fst l' → Spec.sorted l → Spec.sorted l'.
Proof.
  unfold Spec.sorted. revert l'; induction l as [|x l IH]; intros [|y l']; simpl; try done.
  intros [= Hxy Hl] [Hf Hs]%StronglySorted_cons. apply StronglySorted_cons. split; [|auto].
  apply list.Forall_forall. intros z Hz.
  assert (z.1 ∈ map fst l) as (z' & Hz1 & Hz2)%list_elem_of_fmap by (rewrite Hl; by apply list_elem_of_fmap_2).
  apply list.Forall_forall with (x := z') in Hf; [|done]. unfold Spec.lt in *. by rewrite <-Hxy, Hz1.
Qed.

(** How the three writers change a lookup. *)
Lemma spec_get_insert k v l k' :
  Spec.get k l = None → Spec.sorted l →
  Spec.get k' (Spec.insert k v l) = if compare k' k =? 0 then Some v else Spec.get k' l.
Proof.
  intros Hg Hs. induction l as [|[k0 v0] l IH]; simpl in *; [done|].
  apply StronglySorted_cons in Hs as [Hf Hs].
  destruct (Z.eqb_spec (compare k k0) 0) as [|Hne]; [done|].
  destruct (Z.ltb_spec (compare k k0) 0); simpl.
  - destruct (Z.eqb_spec (compare k' k) 0); done.
  - rewrite IH by done. destruct (Z.eqb_spec (compare k' k0) 0) as [->%compare_eq|]; [|done].
    destruct (Z.eqb_spec (compare k0 k) 0) as [->%compare_eq|]; [|done].
    by rewrite compare_refl in Hne.
Qed.

Lemma spec_get_remove k l k' :
  Spec.sorted l →
  Spec.get k' (Spec.remove k l) = if compare k' k =? 0 then None else Spec.get k' l.
Proof.
  intros Hs. induction l as [|[k0 v0] l IH]; simpl in *; [by destruct (_ =? _)|].
  apply StronglySorted_cons in Hs as [Hf Hs].
  destruct (Z.eqb_spec (compare k k0) 0) as [->%compare_eq|Hne]; simpl.
  - destruct (Z.eqb_spec (compare k' k0) 0) as [->%compare_eq|]; [|done].
    apply spec_get_above. revert Hf. by apply Forall_impl.
  - rewrite IH by done. destruct (Z.eqb_spec (compare k' k0) 0) as [->%compare_eq|]; [|done].
    destruct (Z.eqb_spec (compare k0 k) 0) as [->%compare_eq|]; [|done].
    by rewrite compare_refl in Hne.
Qed.

Lemma spec_get_update k f l k' :
  Spec.get k' (Spec.update k f l) = if compare k' k =? 0 then f <$> Spec.get k' l else Spec.get k' l.
Proof.
  induction l as [|[k0 v0] l IH]; simpl; [by destruct (_ =? _)|].
  destruct (Z.eqb_spec (compare k k0) 0) as [->%compare_eq|Hne]; simpl.
  - by destruct (Z.eqb_spec (compare k' k0) 0).
  - rewrite IH. destruct (Z.eqb_spec (compare k' k0) 0) as [->%compare_eq|]; [|done].
    destruct (Z.eqb_spec (compare k0 k) 0) as [->%compare_eq|]; [|done].
    by rewrite compare_refl in Hne.
Qed.

Lemma spec_remove_length k v l :
  Spec.get k l = Some v → Z.of_nat (length (Spec.remove k l)) = Z.of_nat (length l) - 1.
Proof.
  induction l as [|[k' v'] l IH]; simpl; [done|].
  destruct (compare k k' =? 0); simpl; [lia|]. intros ?%IH. lia.
Qed.

Lemma spec_elem_of k v l : Spec.sorted l → (k, v) ∈ l ↔ Spec.get k l = Some v.
Proof.
  intros Hs. rewrite spec_get_split by done. split.
  - intros (l1 & l2 & ->)%list_elem_of_split. apply sorted_split in Hs as (_ & _ & ? & _). eauto.
  - intros (l1 & l2 & -> & _). set_solver.
Qed.

Lemma below_trans k k' l : compare k k' < 0 → below k l → below k' l.
Proof. intros Hlt. apply Forall_impl. intros x Hx. by apply (compare_lt_trans _ k). Qed.

Lemma above_trans k k' l : compare k' k < 0 → above k l → above k' l.
Proof. intros Hlt. apply Forall_impl. intros x Hx. by apply (compare_lt_trans _ k). Qed.

Lemma below_snoc k l k' v : below k (l ++ [(k', v)]) ↔ below k l ∧ compare k' k < 0.
Proof. unfold below. rewrite Forall_app, Forall_singleton. done. Qed.
End spec_lemmas.


(** ** The interface *)

Class KeyedMap (K : Type) (T : Type → Type) : Type := {
  km_create : ∀ {V}, T V;
  (** status and new map; the boolean is the outcome of the allocation *)
  km_insert : ∀ {V}, bool → T V → K → V → option (Z * T V);
  km_remove : ∀ {V}, T V → K → option (Z * option (K * V) * T V);
  km_pick : ∀ {V}, T V → option (Z * option (K * V) * T V);
  km_get : ∀ {V}, T V → K → Z * option V;
  (** a write through the value pointer that [km_get] returned *)
  km_update : ∀ {V}, T V → K → (V → V) → T V;
  (** the entries an iterator visits, in its order *)
  km_iterate : ∀ {V}, T V → list (K * V);
  km_size : ∀ {V}, T V → Z;
  km_ok : ∀ {V}, T V → Prop;
}.

Class KeyedMapLaws (K : Type) (T : Type → Type) `{Comparator K, !KeyedMap K T} : Prop := {
  km_create_ok {V} : km_ok (km_create (V:=V)) ∧ km_iterate (km_create (V:=V)) = [];
  km_sorted {V} (t : T V) : km_ok t → Spec.sorted (km_iterate t);
  km_size_ok {V} (t : T V) : km_ok t → km_size t = Z.of_nat (length (km_iterate t));
  km_get_ok {V} (t : T V) k : km_ok t →
    km_get t k = match Spec.get k (km_iterate t) with
                 | Some v => (0, Some v)
                 | None => (ENOENT, None)
                 end;
  km_insert_nomem {V} (t : T V) k v : km_insert false t k v = Some (ENOMEM, t);
  km_insert_exists {V} (t : T V) k v v0 : km_ok t → Spec.get k (km_iterate t) = Some v0 →
    km_insert true t k v = Some (EEXIST, t);
  km_insert_new {V} (t : T V) k v : km_ok t → Spec.get k (km_iterate t) = None →
    ∃ t', km_insert true t k v = Some (0, t') ∧ km_ok t' ∧
          km_iterate t' = Spec.insert k v (km_iterate t);
  km_remove_missing {V} (t : T V) k : km_ok t → Spec.get k (km_iterate t) = None →
    km_remove t k = Some (ENOENT, None, t);
  km_remove_found {V} (t : T V) k v : km_ok t → Spec.get k (km_iterate t) = Some v →
    ∃ t', km_remove t k = Some (0, Some (k, v), t') ∧ km_ok t' ∧
          km_iterate t' = Spec.remove k (km_iterate t);
  km_pick_empty {V} (t : T V) : km_ok t → km_iterate t = [] → km_pick t = Some (EOF, None, t);
  km_pick_some {V} (t : T V) : km_ok t → km_iterate t ≠ [] →
    ∃ k v t', km_pick t = Some (0, Some (k, v), t') ∧ km_ok t' ∧
      Spec.get k (km_iterate t) = Some v ∧ km_iterate t' = Spec.remove k (km_iterate t);
  km_update_ok {V} (t : T V) k f : km_ok t →
    km_ok (km_update t k f) ∧ km_iterate (km_update t k f) = Spec.update k f (km_iterate t);
}.
