(* ===== verification/SortedArray.v ===== *)
(** * Sorted arrays: [bsearch] and [qsort] of the C library

    The comparison function may fail (it follows pointers), so both run in
    the monad of the prelude.  The lemmas are about arrays whose elements have
    a key: when the comparison is the order of the keys, [bsearch] finds the
    element with a key and [qsort] inserts as [MapSpec.Spec] does. *)

From Stdlib Require Import ZArith Lia Sorted.
From stdpp Require Import base list sets numbers sorting.
From S2P Require Import Prelude MapSpec.

(** [bsearch]: the index of a slot for which [cmp] answers 0. *)
Fixpoint bsearch_loop {A} (fuel : nat) (cmp : A → M Z) (base : list A) (l u : nat) : M (option nat) :=
  match fuel with
  | O => crash
  | S fuel =>
      if (l <? u)%nat then
        let idx := ((l + u) / 2)%nat in
        let* p := mopt (base !! idx) in
        let* c := cmp p in
        if c <? 0 then bsearch_loop fuel cmp base l idx
        else if 0 <? c then bsearch_loop fuel cmp base (idx + 1) u
        else ret (Some idx)
      else ret None
  end.
Definition bsearch {A} (cmp : A → M Z) (base : list A) : M (option nat) :=
  bsearch_loop (S (length base)) cmp base 0 (length base).

(** [qsort], as an insertion sort. *)
Fixpoint qsort_insert {A} (cmp : A → A → M Z) (x : A) (l : list A) : M (list A) :=
  match l with
  | [] => ret [x]
  | y :: l' =>
      let* c := cmp x y in
      if c <? 0 then ret (x :: l) else let* l'' := qsort_insert cmp x l' in ret (y :: l'')
  end.
Fixpoint qsort_loop {A} (cmp : A → A → M Z) (acc l : list A) : M (list A) :=
  match l with
  | [] => ret acc
  | x :: l' => let* acc := qsort_insert cmp x acc in qsort_loop cmp acc l'
  end.
Definition qsort {A} (cmp : A → A → M Z) (l : list A) : M (list A) := qsort_loop cmp [] l.

(** ** Arrays of elements with a key *)

Section keyed.
Context {A K : Type} `{StrictCompare K} (key : A → K).
Implicit Types (l : list A) (x y : A) (k : K).

Definition keyed l : list (K * A) := map (λ x, (key x, x)) l.
Definition arr_sorted l : Prop := Spec.sorted (keyed l).
(** The element with that key. *)
Definition arr_get k l : option A := Spec.get k (keyed l).
(** Where a new element belongs. *)
Fixpoint arr_insert x l : list A :=
  match l with
  | [] => [x]
  | y :: l' => if compare (key x) (key y) <? 0 then x :: l else y :: arr_insert x l'
  end.

Lemma keyed_app l1 l2 : keyed (l1 ++ l2) = keyed l1 ++ keyed l2.
Proof. apply map_app. Qed.

Lemma keyed_insert x l : keyed (arr_insert x l) = Spec.insert (key x) x (keyed l).
Proof. induction l as [|y l IH]; simpl; [done|]. destruct (compare (key x) (key y) <? 0); simpl; by rewrite ?IH. Qed.

Lemma arr_insert_elem x y l : y ∈ arr_insert x l ↔ y = x ∨ y ∈ l.
Proof. induction l as [|z l IH]; simpl; [set_solver|]. destruct (compare (key x) (key z) <? 0); set_solver. Qed.

Lemma keyed_elem k x l : (k, x) ∈ keyed l ↔ x ∈ l ∧ key x = k.
Proof.
  unfold keyed. rewrite list_elem_of_fmap. split; [intros (y & [= -> ->] & Hy); done|intros [Hx <-]; eauto].
Qed.

Lemma arr_get_some k x l : arr_sorted l → arr_get k l = Some x ↔ x ∈ l ∧ key x = k.
Proof. intros Hs. unfold arr_get. by rewrite <-spec_elem_of, keyed_elem. Qed.

Lemma arr_get_none k l : arr_sorted l → arr_get k l = None ↔ ∀ x, x ∈ l → key x ≠ k.
Proof.
  intros Hs. split.
  - intros Hg x Hx Hk. assert (arr_get k l = Some x) by (by apply arr_get_some). congruence.
  - intros Hn. destruct (arr_get k l) as [x|] eqn:E; [|done]. apply arr_get_some in E as [Hx Hk]; [|done].
    by destruct (Hn x Hx).
Qed.

Lemma arr_sorted_lt l i j x y : arr_sorted l → l !! i = Some x → l !! j = Some y → (i < j)%nat → compare (key x) (key y) < 0.
Proof.
  intros Hs Hi Hj Hlt. apply list_elem_of_split_length in Hi as (l1 & l2 & -> & ->).
  unfold arr_sorted in Hs. rewrite keyed_app in Hs. apply sorted_split in Hs as (_ & _ & _ & Ha).
  rewrite lookup_app_r in Hj by lia. destruct (j - length l1)%nat eqn:E; [lia|]. simpl in Hj.
  eapply (list.Forall_forall _ (keyed l2)) with (x := (key y, y)) in Ha; [exact Ha|].
  apply keyed_elem. split; [by eapply list_elem_of_lookup_2|done].
Qed.

(** What [bsearch] answers. *)
Definition arr_found l k (r : option nat) : Prop :=
  match r with
  | Some i => ∃ x, l !! i = Some x ∧ key x = k
  | None => arr_get k l = None
  end.

Lemma bsearch_loop_ok fuel cmp l k i u :
  arr_sorted l → (∀ x, x ∈ l → cmp x = ret (compare k (key x))) →
  (u ≤ length l)%nat → (u - i < fuel)%nat →
  (∀ j x, l !! j = Some x → (j < i)%nat → compare (key x) k < 0) →
  (∀ j x, l !! j = Some x → (u ≤ j)%nat → compare k (key x) < 0) →
  ∃ r, bsearch_loop fuel cmp l i u = ret r ∧ arr_found l k r.
Proof.
  intros Hs Hc. revert i u. induction fuel as [|fuel IH]; intros i u Hu Hf Hlo Hhi; [lia|]. cbn [bsearch_loop].
  destruct (Nat.ltb_spec i u) as [Hiu|Hiu].
  - set (idx := ((i + u) / 2)%nat).
    assert (i ≤ idx < u)%nat as Hidx.
    { pose proof (Nat.div_mod_eq (i + u) 2). pose proof (Nat.mod_upper_bound (i + u) 2). lia. }
    destruct (lookup_lt_is_Some_2 l idx) as [x Hx]; [lia|]. rewrite Hx. cbn [mopt].
    rewrite bind_ret, (Hc x) by (by eapply list_elem_of_lookup_2). rewrite bind_ret.
    destruct (Z.ltb_spec (compare k (key x)) 0) as [Hlt|Hge].
    { apply IH; [lia|lia|done|]. intros j y Hy Hj. destruct (decide (j = idx)) as [->|]; [congruence|].
      apply (compare_lt_trans _ (key x)); [done|]. apply (arr_sorted_lt l idx j); done || lia. }
    destruct (Z.ltb_spec 0 (compare k (key x))) as [Hgt|Hle].
    { apply IH; [lia|lia| |done]. intros j y Hy Hj. apply compare_gt in Hgt.
      destruct (decide (j = idx)) as [->|]; [congruence|].
      apply (compare_lt_trans _ (key x)); [|done]. apply (arr_sorted_lt l j idx); done || lia. }
    exists (Some idx). split; [done|]. exists x. split; [done|]. symmetry. apply compare_eq. lia.
  - exists None. split; [done|]. simpl. apply arr_get_none; [done|]. intros x [j Hj]%list_elem_of_lookup Hk.
    pose proof (compare_refl (key x)). destruct (decide (j < i)%nat) as [Hji|Hji].
    + specialize (Hlo _ _ Hj Hji). subst k. lia.
    + specialize (Hhi _ _ Hj ltac:(lia)). subst k. lia.
Qed.

Lemma bsearch_ok cmp l k :
  arr_sorted l → (∀ x, x ∈ l → cmp x = ret (compare k (key x))) →
  ∃ r, bsearch cmp l = ret r ∧ arr_found l k r.
Proof.
  intros Hs Hc. apply bsearch_loop_ok; [done|done|lia|lia|lia|]. intros j x Hj%lookup_lt_Some. lia.
Qed.

Lemma qsort_insert_ok cmp x l :
  (∀ y, y ∈ l → cmp x y = ret (compare (key x) (key y))) → qsort_insert cmp x l = ret (arr_insert x l).
Proof.
  induction l as [|y l IH]; intros Hc; cbn [qsort_insert arr_insert]; [done|].
  rewrite (Hc y), bind_ret by set_solver. destruct (compare (key x) (key y) <? 0); [done|].
  rewrite IH; [done|]. intros z Hz. apply Hc. set_solver.
Qed.

Lemma arr_insert_last x l : below (key x) (keyed l) → arr_insert x l = l ++ [x].
Proof.
  intros Hb. induction l as [|y l IH]; [done|]. apply (Forall_cons_1 _ (key y, y)) in Hb as [Hy Hb]. simpl in Hy. cbn [arr_insert].
  apply compare_flip in Hy. destruct (Z.ltb_spec (compare (key x) (key y)) 0); [lia|]. by rewrite IH.
Qed.

(** Sorting an array that is sorted but for its last element. *)
Lemma qsort_snoc cmp l x :
  arr_sorted l → (∀ y z, y ∈ l ++ [x] → z ∈ l ++ [x] → cmp y z = ret (compare (key y) (key z))) →
  qsort cmp (l ++ [x]) = ret (arr_insert x l).
Proof.
  intros Hs Hc. unfold qsort.
  assert (∀ acc rest, l = acc ++ rest → qsort_loop cmp acc (rest ++ [x]) = ret (arr_insert x l)) as Hgo; [|by apply Hgo].
  intros acc rest. revert acc. induction rest as [|y rest IH]; intros acc ->; cbn [app qsort_loop].
  - rewrite (qsort_insert_ok cmp x acc), bind_ret by (intros z Hz; apply Hc; set_solver). by rewrite app_nil_r.
  - rewrite (qsort_insert_ok cmp y acc), bind_ret by (intros z Hz; apply Hc; set_solver).
    unfold arr_sorted in Hs. rewrite keyed_app in Hs. pose proof Hs as (_ & _ & Hb & _)%sorted_split.
    rewrite arr_insert_last by done. rewrite (IH (acc ++ [y])); [done|by rewrite <-(assoc_L (++))].
Qed.

(** Sorting any array without two equal keys. *)
Lemma qsort_ok cmp l :
  NoDup (map key l) → (∀ y z, y ∈ l → z ∈ l → cmp y z = ret (compare (key y) (key z))) →
  ∃ l', qsort cmp l = ret l' ∧ arr_sorted l' ∧ l' ≡ₚ l.
Proof.
  intros Hd Hc. unfold qsort.
  assert (∀ acc, arr_sorted acc → (∀ y, y ∈ acc → ∀ z, z ∈ l → key y ≠ key z) →
    (∀ y z, y ∈ acc ++ l → z ∈ acc ++ l → cmp y z = ret (compare (key y) (key z))) →
    ∃ l', qsort_loop cmp acc l = ret l' ∧ arr_sorted l' ∧ l' ≡ₚ acc ++ l) as Hgo.
  { clear Hc. induction l as [|x l IH]; intros acc Hs Hne Hc; cbn [qsort_loop].
    { exists acc. by rewrite app_nil_r. }
    apply NoDup_cons in Hd as [Hx Hd]. rewrite (qsort_insert_ok cmp x acc), bind_ret by (intros z Hz; apply Hc; set_solver).
    assert (arr_get (key x) acc = None) as Hg by (apply arr_get_none; [done|]; intros y Hy; apply Hne; set_solver).
    assert (arr_insert x acc ≡ₚ acc ++ [x]) as Hp.
    { clear. induction acc as [|y acc IH]; [done|]. cbn [arr_insert]. destruct (_ <? 0).
      - by rewrite Permutation_app_comm.
      - by rewrite IH. }
    destruct (IH Hd (arr_insert x acc)) as (l' & E & Hs' & Hp').
    - unfold arr_sorted. rewrite keyed_insert. by apply spec_insert_sorted.
    - intros y [->|Hy]%arr_insert_elem z Hz; [|apply Hne; [done|set_solver]].
      intros E. apply Hx. rewrite E. by apply list_elem_of_fmap_2.
    - intros y z Hy Hz. apply Hc; [revert Hy|revert Hz]; rewrite !elem_of_app, arr_insert_elem; set_solver.
    - exists l'. split_and!; [done|done|]. etrans; [exact Hp'|]. etrans; [apply Permutation_app_tail, Hp|]. by rewrite <-(assoc_L (++)). }
  destruct (Hgo []) as (l' & E & Hs & Hp); [by constructor|set_solver|done|eauto].
Qed.

Lemma arr_get_insert x l k : arr_sorted l → arr_get (key x) l = None →
  arr_get k (arr_insert x l) = if compare k (key x) =? 0 then Some x else arr_get k l.
Proof. intros Hs Hg. unfold arr_get. rewrite keyed_insert. by apply spec_get_insert. Qed.

Lemma arr_sorted_insert x l : arr_sorted l → arr_get (key x) l = None → arr_sorted (arr_insert x l).
Proof. intros Hs Hg. unfold arr_sorted. rewrite keyed_insert. by apply spec_insert_sorted. Qed.

(** Replacing an element by one with the same key. *)
Lemma arr_replace l i x y k : arr_sorted l → l !! i = Some x → key y = key x →
  arr_sorted (<[i := y]> l) ∧ arr_get k (<[i := y]> l) = if compare k (key x) =? 0 then Some y else arr_get k l.
Proof.
  intros Hs Hi Hk. apply list_elem_of_split_length in Hi as (l1 & l2 & -> & ->). rewrite insert_app_r_alt, Nat.sub_diag by lia.
  change (<[0%nat := y]> (x :: l2)) with (y :: l2). unfold arr_sorted, arr_get in *. rewrite !keyed_app in *. cbn [keyed map] in *. fold (keyed l2) in *.
  pose proof Hs as (H1s & H2s & Hb & Ha)%sorted_split. rewrite Hk. split; [by apply sorted_split|].
  assert (Spec.update (key x) (λ _, y) (keyed l1 ++ (key x, x) :: keyed l2) = keyed l1 ++ (key x, y) :: keyed l2) as <-
    by by apply spec_update_split.
  rewrite spec_get_update. destruct (Z.eqb_spec (compare k (key x)) 0) as [->%compare_eq|]; [|done].
  by rewrite spec_get_skip, spec_get_here.
Qed.

(** Removing an element. *)
Lemma arr_delete l i x k : arr_sorted l → l !! i = Some x →
  arr_sorted (delete i l) ∧ arr_get k (delete i l) = if compare k (key x) =? 0 then None else arr_get k l.
Proof.
  intros Hs Hi. apply list_elem_of_split_length in Hi as (l1 & l2 & -> & ->). rewrite delete_middle.
  unfold arr_sorted, arr_get in *. rewrite !keyed_app in *. cbn [keyed map] in Hs |- *. fold (keyed l2) in *.
  split; [by eapply sorted_join|].
  pose proof Hs as (_ & _ & Hb & _)%sorted_split.
  rewrite <-(spec_remove_split (key x) x (keyed l1) (keyed l2)) by done. by apply spec_get_remove.
Qed.
End keyed.
