(* ===== verification/Avl.v ===== *)
(** * The AVL tree (src/utils/avltree/avltree.c)

    A node pointer together with its chain of [parent] pointers is a
    zipper: the subtree it points to and the list of ancestors, innermost
    first.  [NULL] is [Null].  A failing [assert] is [None].  Allocation
    failure is the boolean argument of [c_avl_insert].

    The contract is [KeyedMap] of MapSpec; [avl_laws] discharges it. *)

From Stdlib Require Import ZArith Lia.
From stdpp Require Import base list sets sorting numbers.
From S2P Require Import Prelude MapSpec.

(** ** Data *)

Inductive c_avl_node (K V : Type) : Type :=
| Null
| Node (key : K) (value : V) (height : Z) (left right : c_avl_node K V).
Arguments Null {K V}.
Arguments Node {K V} key value height left right.

(** One ancestor: which child of it the chain leaves out. *)
Inductive frame (K V : Type) : Type :=
| FLeft (key : K) (value : V) (height : Z) (right : c_avl_node K V)
| FRight (key : K) (value : V) (height : Z) (left : c_avl_node K V).
Arguments FLeft {K V} key value height right.
Arguments FRight {K V} key value height left.

Record c_avl_tree (K V : Type) : Type := mk_avl {
  root : c_avl_node K V;
  size : Z;
}.
Arguments mk_avl {K V} root size.
Arguments root {K V} _.
Arguments size {K V} _.

Section avl.
Context {K V : Type} `{Comparator K}.
Abbreviation node := (c_avl_node K V).
Abbreviation path := (list (frame K V)).
Abbreviation focus := (node * list (frame K V))%type.

(** ** Private functions *)

Definition node_height (n : node) : Z :=
  match n with Null => 0 | Node _ _ h _ _ => h end.

Definition node_left (n : node) : node := match n with Null => Null | Node _ _ _ l _ => l end.
Definition node_right (n : node) : node := match n with Null => Null | Node _ _ _ _ r => r end.

Definition BALANCE (n : node) : Z := node_height (node_left n) - node_height (node_right n).

Definition fill (f : frame K V) (n : node) : node :=
  match f with
  | FLeft k v h r => Node k v h n r
  | FRight k v h l => Node k v h l n
  end.

Fixpoint plug (n : node) (p : path) : node :=
  match p with [] => n | f :: p' => plug (fill f n) p' end.

Definition calc_height (n : node) : Z :=
  match n with
  | Null => 0
  | Node _ _ _ l r =>
      (if node_height l >? node_height r then node_height l else node_height r) + 1
  end.

Definition set_height (n : node) (h : Z) : node :=
  match n with Null => Null | Node k v _ l r => Node k v h l r end.

Fixpoint search_from (n : node) (p : path) (key : K) : option focus :=
  match n with
  | Null => None
  | Node k v h l r =>
      let cmp := compare key k in
      if cmp =? 0 then Some (n, p)
      else if cmp <? 0 then search_from l (FLeft k v h r :: p) key
      else search_from r (FRight k v h l :: p) key
  end.

Definition search (t : c_avl_tree K V) (key : K) : option focus := search_from (root t) [] key.

Definition rotate_right (x : node) : option node :=
  match x with
  | Node xk xv xh (Node yk yv yh a b) c =>
      let x0 := Node xk xv xh b c in
      let x' := set_height x0 (calc_height x0) in
      let y0 := Node yk yv yh a x' in
      Some (set_height y0 (calc_height y0))
  | _ => None
  end.

Definition rotate_left (x : node) : option node :=
  match x with
  | Node xk xv xh a (Node yk yv yh b c) =>
      let x0 := Node xk xv xh a b in
      let x' := set_height x0 (calc_height x0) in
      let y0 := Node yk yv yh x' c in
      Some (set_height y0 (calc_height y0))
  | _ => None
  end.

Definition rotate_left_right (x : node) : option node :=
  match x with
  | Node k v h l r => l' ← rotate_left l; rotate_right (Node k v h l' r)
  | Null => None
  end.

Definition rotate_right_left (x : node) : option node :=
  match x with
  | Node k v h l r => r' ← rotate_right r; rotate_left (Node k v h l r')
  | Null => None
  end.

Definition is_null (n : node) : bool := match n with Null => true | _ => false end.

(** One turn of the loop of [rebalance]: [inl n]: continue with the parent
    of [n]; [inr n]: break. *)
Definition rebalance_step (n : node) : option (node + node) :=
  let b_top := BALANCE n in
  guard (-2 ≤ b_top ≤ 2);;
  n' ← (if b_top =? -2 then
          guard (is_null (node_right n) = false);;
          let b_bottom := BALANCE (node_right n) in
          guard (-1 ≤ b_bottom ≤ 1);;
          inl <$> (if b_bottom =? 1 then rotate_right_left n else rotate_left n)
        else if b_top =? 2 then
          guard (is_null (node_left n) = false);;
          let b_bottom := BALANCE (node_left n) in
          guard (-1 ≤ b_bottom ≤ 1);;
          inl <$> (if b_bottom =? -1 then rotate_left_right n else rotate_right n)
        else
          let height := calc_height n in
          if height =? node_height n then Some (inr n)
          else Some (inl (set_height n height)));
  match n' with
  | inr n => Some (inr n)
  | inl n => guard (node_height n = calc_height n);; Some (inl n)
  end.

(** [rebalance t n] with [n] not NULL; the result is the new root. *)
Fixpoint rebalance (n : node) (p : path) : option node :=
  n' ← rebalance_step n;
  match n' with
  | inr n => Some (plug n p)
  | inl n =>
      match p with
      | [] => Some n
      | f :: p' => rebalance (fill f n) p'
      end
  end.

(** [rebalance t p] for a possibly NULL parent: [child] has replaced the
    subtree below [p]. *)
Definition rebalance_parent (child : node) (p : path) : option node :=
  match p with
  | [] => Some child
  | f :: p' => rebalance (fill f child) p'
  end.

(** The loops "[while (r->left != NULL) r = r->left]" and its mirror. *)
Fixpoint leftmost (n : node) (p : path) : option focus :=
  match n with
  | Null => None
  | Node k v h l r => if is_null l then Some (n, p) else leftmost l (FLeft k v h r :: p)
  end.

Fixpoint rightmost (n : node) (p : path) : option focus :=
  match n with
  | Null => None
  | Node k v h l r => if is_null r then Some (n, p) else rightmost r (FRight k v h l :: p)
  end.

Definition is_left_child (f : frame K V) : bool := match f with FLeft _ _ _ _ => true | _ => false end.

(** Backtracking to the first ancestor whose left (right) child we are. *)
Fixpoint next_up (n : node) (p : path) : option focus :=
  match p with
  | [] => None
  | f :: p' => if is_left_child f then Some (fill f n, p') else next_up (fill f n) p'
  end.

Fixpoint prev_up (n : node) (p : path) : option focus :=
  match p with
  | [] => None
  | f :: p' => if is_left_child f then prev_up (fill f n) p' else Some (fill f n, p')
  end.

Definition c_avl_node_next (f : focus) : option focus :=
  match f with
  | (Null, _) => None
  | (Node k v h l r as n, p) =>
      if is_null r then next_up n p else leftmost r (FRight k v h l :: p)
  end.

Definition c_avl_node_prev (f : focus) : option focus :=
  match f with
  | (Null, _) => None
  | (Node k v h l r as n, p) =>
      if is_null l then prev_up n p else rightmost l (FLeft k v h r :: p)
  end.

Definition set_content (n : node) (k : K) (v : V) : node :=
  match n with Null => Null | Node _ _ h l r => Node k v h l r end.

(** Unlinking a node with at most one child. *)
Definition remove_simple (n : node) (p : path) : option node :=
  match n with
  | Null => None
  | Node _ _ _ Null Null => rebalance_parent Null p
  | Node _ _ _ Null r => guard (BALANCE n = -1);; rebalance_parent r p
  | Node _ _ _ l Null => guard (BALANCE n = 1);; rebalance_parent l p
  | Node _ _ _ _ _ => None
  end.

Definition _remove (f : focus) : option node :=
  let '(n, p) := f in
  if negb (is_null (node_left n)) && negb (is_null (node_right n)) then
    let neighbour := if BALANCE n >? 0 then c_avl_node_prev else c_avl_node_next in
    r ← neighbour (n, p);
    match r with
    | (Null, _) => None
    | (Node rk rv _ rl rr, _) =>
        guard (is_null rl = true ∨ is_null rr = true);;
        (* copy content, then go on with [n = r] *)
        '(n', p') ← neighbour (set_content n rk rv, p);
        remove_simple n' p'
    end
  else remove_simple n p.

(** ** Public functions *)

Definition c_avl_create : c_avl_tree K V := mk_avl Null 0.

Fixpoint insert_loop (nptr : node) (p : path) (key : K) (value : V) : option (Z * node) :=
  match nptr with
  | Null => None
  | Node k v h l r =>
      let new := Node key value 1 Null Null in
      let cmp := compare k key in
      if cmp =? 0 then Some (EEXIST, plug nptr p)
      else if cmp <? 0 then
        if is_null r then (λ t, (0, t)) <$> rebalance (Node k v h l new) p
        else insert_loop r (FRight k v h l :: p) key value
      else
        if is_null l then (λ t, (0, t)) <$> rebalance (Node k v h new r) p
        else insert_loop l (FLeft k v h r :: p) key value
  end.

Definition c_avl_insert (malloc_ok : bool) (t : c_avl_tree K V) (key : K) (value : V)
    : option (Z * c_avl_tree K V) :=
  if negb malloc_ok then Some (ENOMEM, t)
  else if is_null (root t) then Some (0, mk_avl (Node key value 1 Null Null) 1)
  else
    '(status, r) ← insert_loop (root t) [] key value;
    Some (status, mk_avl r (if status =? 0 then size t + 1 else size t)).

Definition c_avl_remove (t : c_avl_tree K V) (key : K)
    : option (Z * option (K * V) * c_avl_tree K V) :=
  match search t key with
  | None => Some (ENOENT, None, t)
  | Some (Null, _) => None
  | Some ((Node k v _ _ _, _) as n) =>
      r ← _remove n;
      Some (0, Some (k, v), mk_avl r (size t - 1))
  end.

Definition c_avl_get (t : c_avl_tree K V) (key : K) : Z * option V :=
  match search t key with
  | Some (Node _ v _ _ _, _) => (0, Some v)
  | _ => (ENOENT, None)
  end.

(** Descent of [c_avl_pick] to a leaf. *)
Fixpoint pick_leaf (n : node) (p : path) : option focus :=
  match n with
  | Null => None
  | Node k v h l r =>
      if is_null l && is_null r then Some (n, p)
      else if is_null l then pick_leaf r (FRight k v h l :: p)
      else if is_null r then pick_leaf l (FLeft k v h r :: p)
      else if node_height l >? node_height r then pick_leaf l (FLeft k v h r :: p)
      else pick_leaf r (FRight k v h l :: p)
  end.

Definition c_avl_pick (t : c_avl_tree K V) : option (Z * option (K * V) * c_avl_tree K V) :=
  if is_null (root t) then Some (EOF, None, t)
  else
    match pick_leaf (root t) [] with
    | Some (Node k v _ _ _, p) =>
        r ← rebalance_parent Null p;
        Some (0, Some (k, v), mk_avl r (size t - 1))
    | _ => None
    end.

Definition c_avl_size (t : c_avl_tree K V) : Z := size t.

(** The iterator: the tree is not modified between two calls. *)
Record c_avl_iterator : Type := mk_iter {
  iter_tree : c_avl_tree K V;
  iter_node : option focus;
}.

Definition c_avl_get_iterator (t : c_avl_tree K V) : c_avl_iterator := mk_iter t None.

Definition c_avl_iterator_next (iter : c_avl_iterator) : Z * option (K * V) * c_avl_iterator :=
  let n := match iter_node iter with
           | None => leftmost (root (iter_tree iter)) []
           | Some f => c_avl_node_next f
           end in
  match n with
  | Some (Node k v _ _ _, _) => (0, Some (k, v), mk_iter (iter_tree iter) n)
  | _ => (EOF, None, iter)
  end.

Definition c_avl_iterator_prev (iter : c_avl_iterator) : Z * option (K * V) * c_avl_iterator :=
  let n := match iter_node iter with
           | None => rightmost (root (iter_tree iter)) []
           | Some f => c_avl_node_prev f
           end in
  match n with
  | Some (Node k v _ _ _, _) => (0, Some (k, v), mk_iter (iter_tree iter) n)
  | _ => (EOF, None, iter)
  end.

(** [while (c_avl_iterator_next (iter, &key, &value) == 0) ...] *)
Fixpoint iterate (fuel : nat) (iter : c_avl_iterator) : list (K * V) :=
  match fuel with
  | O => []
  | S fuel =>
      match c_avl_iterator_next iter with
      | (_, Some kv, iter') => kv :: iterate fuel iter'
      | (_, None, _) => []
      end
  end.

(** Writing through the value pointer a lookup returned. *)
Fixpoint node_update (n : node) (key : K) (f : V → V) : node :=
  match n with
  | Null => Null
  | Node k v h l r =>
      let cmp := compare key k in
      if cmp =? 0 then Node k (f v) h l r
      else if cmp <? 0 then Node k v h (node_update l key f) r
      else Node k v h l (node_update r key f)
  end.

Definition avl_update (t : c_avl_tree K V) (key : K) (f : V → V) : c_avl_tree K V :=
  mk_avl (node_update (root t) key f) (size t).
End avl.
Arguments c_avl_iterator : clear implicits.

(** ** Invariants and representation *)

Section repr.
Context {K V : Type} `{Comparator K}.
Abbreviation node := (c_avl_node K V).
Abbreviation path := (list (frame K V)).

Fixpoint inorder (n : node) : list (K * V) :=
  match n with Null => [] | Node k v _ l r => inorder l ++ (k, v) :: inorder r end.

(** Entries left and right of the hole of a path. *)
Fixpoint path_pre (p : path) : list (K * V) :=
  match p with
  | [] => []
  | FLeft _ _ _ _ :: p' => path_pre p'
  | FRight k v _ l :: p' => path_pre p' ++ inorder l ++ [(k, v)]
  end.

Fixpoint path_post (p : path) : list (K * V) :=
  match p with
  | [] => []
  | FLeft k v _ r :: p' => (k, v) :: inorder r ++ path_post p'
  | FRight _ _ _ _ :: p' => path_post p'
  end.

(** Two heights that one insertion or removal can separate. *)
Definition near (a b : Z) : Prop := -1 ≤ a - b ≤ 1.

(** Stored heights are right and every node is balanced. *)
Fixpoint avl (n : node) : Prop :=
  match n with
  | Null => True
  | Node _ _ h l r =>
      avl l ∧ avl r ∧ near (node_height l) (node_height r) ∧
      h = Z.max (node_height l) (node_height r) + 1
  end.

(** The ancestors are balanced when the hole holds a tree of height [h0]. *)
Fixpoint path_avl (p : path) (h0 : Z) : Prop :=
  match p with
  | [] => True
  | FLeft _ _ h s :: p' | FRight _ _ h s :: p' =>
      avl s ∧ near h0 (node_height s) ∧ h = Z.max h0 (node_height s) + 1 ∧ path_avl p' h
  end.

(** A node one of whose subtrees has just changed height by at most one;
    its own height is still the old one. *)
Definition stale (n : node) : Prop :=
  match n with
  | Null => False
  | Node _ _ h l r =>
      avl l ∧ avl r ∧
      ∃ hl hr, near hl hr ∧ h = Z.max hl hr + 1 ∧ near hl (node_height l) ∧
               near hr (node_height r) ∧ (hl = node_height l ∨ hr = node_height r)
  end.

Lemma calc_height_max k v h (l r : node) :
  calc_height (Node k v h l r) = Z.max (node_height l) (node_height r) + 1.
Proof. simpl. destruct (Z.gtb_spec (node_height l) (node_height r)); lia. Qed.

#[local] Arguments calc_height : simpl never.

Lemma avl_height_nonneg n : avl n → 0 ≤ node_height n.
Proof.
  induction n as [|k v h l IHl r IHr]; simpl; [lia|].
  intros (?%IHl & ?%IHr & _ & ->). lia.
Qed.

Lemma inorder_fill f n :
  inorder (fill f n) =
    match f with
    | FLeft k v _ r => inorder n ++ (k, v) :: inorder r
    | FRight k v _ l => inorder l ++ (k, v) :: inorder n
    end.
Proof. by destruct f. Qed.

Lemma inorder_plug n p : inorder (plug n p) = path_pre p ++ inorder n ++ path_post p.
Proof.
  revert n; induction p as [|[k v h r|k v h l] p IH]; intros n; simpl;
    rewrite ?app_nil_r, ?IH; simpl; rewrite <-?app_assoc; done.
Qed.

(** *** One turn of the loop *)

Definition step_good (n : node) (s : node + node) : Prop :=
  match s with
  | inr n' => n' = n ∧ avl n
  | inl n' => avl n' ∧ near (node_height n') (node_height n) ∧ inorder n' = inorder n
  end.

Ltac avl_arith :=
  simpl in *; rewrite ?calc_height_max in *; unfold near in *; simpl in *; destruct_and?;
  repeat match goal with
  | H : avl ?n |- _ => lazymatch goal with
                       | _ : 0 ≤ node_height n |- _ => fail
                       | _ => pose proof (avl_height_nonneg n H) end
  end; subst; repeat split; auto; try lia;
  repeat (progress (rewrite <-?app_assoc; simpl)); auto.

(** What a rotation of a node with subtrees [l] and [r] delivers; [top] is
    the height of the taller subtree. *)
Definition rotation_good (n : node) (top : Z) (exact : Prop) (o : option node) : Prop :=
  ∃ n', o = Some n' ∧ avl n' ∧ top ≤ node_height n' ≤ top + 1 ∧
        (exact → node_height n' = top) ∧ node_height n' = calc_height n' ∧
        inorder n' = inorder n.

Lemma rotate_left_ok k v h (l r : node) :
  avl l → avl r → node_height l - node_height r = -2 → BALANCE r ≠ 1 →
  rotation_good (Node k v h l r) (node_height r) (BALANCE r = -1) (rotate_left (Node k v h l r)).
Proof.
  intros Hl Hr Hb Hbot. destruct r as [|yk yv yh b c];
    [pose proof (avl_height_nonneg l Hl); simpl in *; lia|].
  eexists; split; [reflexivity|]. unfold BALANCE in *. avl_arith.
Qed.

Lemma rotate_right_ok k v h (l r : node) :
  avl l → avl r → node_height l - node_height r = 2 → BALANCE l ≠ -1 →
  rotation_good (Node k v h l r) (node_height l) (BALANCE l = 1) (rotate_right (Node k v h l r)).
Proof.
  intros Hl Hr Hb Hbot. destruct l as [|yk yv yh a b];
    [pose proof (avl_height_nonneg r Hr); simpl in *; lia|].
  eexists; split; [reflexivity|]. unfold BALANCE in *. avl_arith.
Qed.

Lemma rotate_right_left_ok k v h (l r : node) :
  avl l → avl r → node_height l - node_height r = -2 → BALANCE r = 1 →
  rotation_good (Node k v h l r) (node_height r) True (rotate_right_left (Node k v h l r)).
Proof.
  intros Hl Hr Hb Hbot. unfold BALANCE in *.
  destruct r as [|yk yv yh [|zk zv zh b c] d]; simpl in *;
    [pose proof (avl_height_nonneg l Hl); lia
    |pose proof (avl_height_nonneg d ltac:(tauto)); lia|].
  eexists; split; [reflexivity|]. avl_arith.
Qed.

Lemma rotate_left_right_ok k v h (l r : node) :
  avl l → avl r → node_height l - node_height r = 2 → BALANCE l = -1 →
  rotation_good (Node k v h l r) (node_height l) True (rotate_left_right (Node k v h l r)).
Proof.
  intros Hl Hr Hb Hbot. unfold BALANCE in *.
  destruct l as [|yk yv yh a [|zk zv zh b c]]; simpl in *;
    [pose proof (avl_height_nonneg r Hr); lia
    |pose proof (avl_height_nonneg a ltac:(tauto)); lia|].
  eexists; split; [reflexivity|]. avl_arith.
Qed.

Lemma guard_true (P : Prop) `{Decision P} {A} (o : option A) : P → (guard P;; o) = o.
Proof. intros HP. by rewrite (option_guard_True P). Qed.

Lemma avl_balance n : avl n → -1 ≤ BALANCE n ≤ 1.
Proof. destruct n; unfold BALANCE; simpl; unfold near; lia. Qed.


(** The two heavy cases of the loop, with the choice of the rotation. *)
Lemma right_heavy_ok k v h (l r : node) :
  avl l → avl r → node_height l - node_height r = -2 →
  rotation_good (Node k v h l r) (node_height r) (BALANCE r ≠ 0)
    (if BALANCE r =? 1 then rotate_right_left (Node k v h l r) else rotate_left (Node k v h l r)).
Proof.
  intros Hl Hr Hb. pose proof (avl_balance r Hr). destruct (Z.eqb_spec (BALANCE r) 1).
  - destruct (rotate_right_left_ok k v h l r) as (n' & ?); [done..|]. exists n'. naive_solver.
  - destruct (rotate_left_ok k v h l r) as (n' & ? & ? & ? & Hx & ?); [done..|].
    exists n'. repeat split; try naive_solver. intros ?; apply Hx; lia.
Qed.

Lemma left_heavy_ok k v h (l r : node) :
  avl l → avl r → node_height l - node_height r = 2 →
  rotation_good (Node k v h l r) (node_height l) (BALANCE l ≠ 0)
    (if BALANCE l =? -1 then rotate_left_right (Node k v h l r) else rotate_right (Node k v h l r)).
Proof.
  intros Hl Hr Hb. pose proof (avl_balance l Hl). destruct (Z.eqb_spec (BALANCE l) (-1)).
  - destruct (rotate_left_right_ok k v h l r) as (n' & ?); [done..|]. exists n'. naive_solver.
  - destruct (rotate_right_ok k v h l r) as (n' & ? & ? & ? & Hx & ?); [done..|].
    exists n'. repeat split; try naive_solver. intros ?; apply Hx; lia.
Qed.

(** After the turn the subtree is balanced and its height is near the old
    one; when the loop breaks nothing changed. *)
Lemma rebalance_step_ok n : stale n → ∃ s, rebalance_step n = Some s ∧ step_good n s.
Proof.
  destruct n as [|k v h l r]; [done|].
  intros (Hl & Hr & hl & hr & Hnear & -> & Hnl & Hnr & Hone).
  unfold rebalance_step.
  set (b := BALANCE _). assert (b = node_height l - node_height r) as Hb by done. clearbody b.
  pose proof (avl_balance l Hl) as Bl. pose proof (avl_balance r Hr) as Br.
  pose proof (avl_height_nonneg l Hl). pose proof (avl_height_nonneg r Hr).
  unfold near in *. rewrite guard_true by lia.
  destruct (Z.eqb_spec b (-2)); [|destruct (Z.eqb_spec b 2)].
  - rewrite guard_true by (destruct r; simpl in *; [lia|done]).
    rewrite guard_true by done. cbn [node_right node_left].
    destruct (right_heavy_ok k v (Z.max hl hr + 1) l r) as (n' & -> & Ha & Hh & Hx & Hc & Hi);
      [done..|lia|].
    exists (inl n'). simpl. rewrite guard_true by done. split; [done|].
    split; [done|]. split; [|done]. unfold near. simpl. lia.
  - rewrite guard_true by (destruct l; simpl in *; [lia|done]).
    rewrite guard_true by done. cbn [node_right node_left].
    destruct (left_heavy_ok k v (Z.max hl hr + 1) l r) as (n' & -> & Ha & Hh & Hx & Hc & Hi);
      [done..|lia|].
    exists (inl n'). simpl. rewrite guard_true by done. split; [done|].
    split; [done|]. split; [|done]. unfold near. simpl. lia.
  - rewrite calc_height_max. cbn [node_height].
    destruct (Z.eqb_spec (Z.max (node_height l) (node_height r) + 1) (Z.max hl hr + 1)) as [E|E].
    + exists (inr (Node k v (Z.max hl hr + 1) l r)). split; [done|].
      split; [done|]. simpl. unfold near. rewrite <-E. repeat split; auto; lia.
    + eexists. simpl. rewrite calc_height_max. rewrite guard_true by done. split; [done|].
      simpl. unfold near. repeat split; auto; lia.
Qed.

(** *** The whole loop *)

(** Filling the hole of a balanced path with a tree of near height leaves
    a stale node. *)
Lemma fill_stale f p h0 n :
  path_avl (f :: p) h0 → avl n → near (node_height n) h0 →
  stale (fill f n) ∧ path_avl p (node_height (fill f n)).
Proof.
  destruct f as [k v h s|k v h s]; simpl; intros (Hs & Hn & -> & Hp) Ha Hh; split; auto.
  - split; [done|]. split; [done|]. exists h0, (node_height s). unfold near in *. lia.
  - split; [done|]. split; [done|]. exists (node_height s), h0. unfold near in *. lia.
Qed.

Lemma plug_avl n p : avl n → path_avl p (node_height n) → avl (plug n p).
Proof.
  revert n. induction p as [|[k v h s|k v h s] p IH]; intros n Hn; simpl; [done| |];
    intros (Hs & Hnear & -> & Hp); apply IH; simpl; unfold near in *;
    rewrite 1?Z.max_comm in *; repeat split; auto; lia.
Qed.

(** No [assert] of [rebalance] fails; the result is balanced and holds the
    same entries in the same order. *)
Lemma rebalance_ok n p :
  stale n → path_avl p (node_height n) →
  ∃ t, rebalance n p = Some t ∧ avl t ∧ inorder t = inorder (plug n p).
Proof.
  revert n; induction p as [|f p IH]; intros n Hs Hp;
    destruct (rebalance_step_ok n Hs) as ([n'|n'] & E & Hg); simpl; rewrite E; simpl.
  - exists n'. naive_solver.
  - destruct Hg as [-> ?]. by exists n.
  - destruct Hg as (Ha & Hh & Hi). destruct (fill_stale f p _ n' Hp Ha Hh) as [Hs' Hp'].
    destruct (IH _ Hs' Hp') as (t & -> & Hat & Hit). exists t. split; [done|]. split; [done|].
    rewrite Hit, !inorder_plug. destruct f; simpl; by rewrite Hi.
  - destruct Hg as [-> Ha]. exists (plug (fill f n) p). split; [done|]. split; [|done].
    apply (plug_avl n (f :: p)); auto.
Qed.

Lemma rebalance_parent_ok n p h0 :
  avl n → path_avl p h0 → near (node_height n) h0 →
  ∃ t, rebalance_parent n p = Some t ∧ avl t ∧ inorder t = path_pre p ++ inorder n ++ path_post p.
Proof.
  intros Ha Hp Hh. destruct p as [|f p]; simpl.
  - exists n. by rewrite app_nil_r.
  - destruct (fill_stale f p h0 n Hp Ha Hh) as [Hs Hp'].
    destruct (rebalance_ok _ _ Hs Hp') as (t & -> & Hat & Hit). exists t.
    split; [done|]. split; [done|]. rewrite Hit. apply (inorder_plug n (f :: p)).
Qed.

(** Splitting a balanced tree at a node. *)
Lemma avl_unplug n p : avl (plug n p) → avl n ∧ path_avl p (node_height n).
Proof.
  revert n; induction p as [|[k v h s|k v h s] p IH]; intros n; simpl; [done| |];
    intros [Hn Hp]%IH; simpl in *; destruct_and?; unfold near in *; subst;
    repeat split; auto; try lia; rewrite Z.max_comm; auto; lia.
Qed.

(** *** Positions: a node seen with its neighbourhood *)

Abbreviation focus := (c_avl_node K V * list (frame K V))%type.

Definition content (f : focus) : option (K * V) :=
  match f.1 with Null => None | Node k v _ _ _ => Some (k, v) end.
Definition before (f : focus) : list (K * V) := path_pre f.2 ++ inorder (node_left f.1).
Definition after (f : focus) : list (K * V) := inorder (node_right f.1) ++ path_post f.2.
Definition whole (f : focus) : node := plug f.1 f.2.

Lemma inorder_whole f kv : content f = Some kv → inorder (whole f) = before f ++ kv :: after f.
Proof.
  destruct f as [[|k v h l r] p]; [done|]. intros [= <-]. unfold whole, before, after. simpl.
  rewrite inorder_plug. simpl. by rewrite <-!app_assoc.
Qed.

Lemma leftmost_ok n p :
  n ≠ Null → ∃ f kv, leftmost n p = Some f ∧ content f = Some kv ∧ node_left f.1 = Null ∧
  whole f = plug n p ∧ before f = path_pre p ∧ kv :: after f = inorder n ++ path_post p.
Proof.
  revert p; induction n as [|k v h l IHl r _]; intros p Hn; [done|]. simpl.
  destruct l as [|lk lv lh ll lr]; simpl is_null; cbv iota.
  - exists (Node k v h Null r, p), (k, v). unfold whole, before, after. simpl.
    rewrite app_nil_r. by auto.
  - destruct (IHl (FLeft k v h r :: p)) as (f & kv & ? & ? & ? & ? & ? & Haf); [done|].
    exists f, kv. repeat split; auto. rewrite Haf. simpl. by rewrite <-!app_assoc.
Qed.

Lemma rightmost_ok n p :
  n ≠ Null → ∃ f kv, rightmost n p = Some f ∧ content f = Some kv ∧ node_right f.1 = Null ∧
  whole f = plug n p ∧ after f = path_post p ∧ before f ++ [kv] = path_pre p ++ inorder n.
Proof.
  revert p; induction n as [|k v h l _ r IHr]; intros p Hn; [done|]. simpl.
  destruct r as [|rk rv rh rl rr]; simpl is_null; cbv iota.
  - exists (Node k v h l Null, p), (k, v). unfold whole, before, after. simpl.
    rewrite <-app_assoc. by auto.
  - destruct (IHr (FRight k v h l :: p)) as (f & kv & ? & ? & ? & ? & ? & Hbe); [done|].
    exists f, kv. repeat split; auto. rewrite Hbe. simpl. by rewrite <-!app_assoc.
Qed.

Lemma next_up_ok n p :
  match path_post p with
  | [] => next_up n p = None
  | kv :: rest => ∃ f, next_up n p = Some f ∧ content f = Some kv ∧ whole f = plug n p ∧
      after f = rest ∧ before f = path_pre p ++ inorder n
  end.
Proof.
  revert n; induction p as [|[k v h s|k v h s] p IH]; intros n; simpl; [done|by eexists|].
  specialize (IH (Node k v h s n)). case_match; [done|].
  destruct IH as (f & -> & ? & ? & ? & Hb). exists f. repeat split; auto.
  rewrite Hb. simpl. by rewrite <-!app_assoc.
Qed.

Lemma prev_up_ok n p :
  match reverse (path_pre p) with
  | [] => prev_up n p = None
  | kv :: rest => ∃ f, prev_up n p = Some f ∧ content f = Some kv ∧ whole f = plug n p ∧
      before f = reverse rest ∧ after f = inorder n ++ path_post p
  end.
Proof.
  revert n; induction p as [|[k v h s|k v h s] p IH]; intros n; simpl; [done| |].
  - specialize (IH (Node k v h n s)). case_match; [done|].
    destruct IH as (f & -> & ? & ? & ? & Ha). exists f. repeat split; auto.
    rewrite Ha. simpl. by rewrite <-!app_assoc.
  - rewrite !reverse_app. simpl. eexists; split; [done|]. unfold before, after, whole. simpl.
    repeat split; auto. by rewrite reverse_app, !reverse_involutive.
Qed.

(** [c_avl_node_next] moves to the in-order successor, if there is one. *)
Lemma node_next_ok f kv0 :
  content f = Some kv0 →
  match after f with
  | [] => c_avl_node_next f = None
  | kv :: rest => ∃ f', c_avl_node_next f = Some f' ∧ content f' = Some kv ∧
      whole f' = whole f ∧ after f' = rest ∧ before f' = before f ++ [kv0] ∧
      (node_right f.1 ≠ Null → node_left f'.1 = Null)
  end.
Proof.
  destruct f as [[|k v h l r] p]; [done|]. intros [= <-]. unfold after. simpl.
  destruct r as [|rk rv rh rl rr]; simpl is_null; cbv iota; simpl inorder.
  - pose proof (next_up_ok (Node k v h l Null) p) as Hup. simpl. case_match; [done|].
    destruct Hup as (f & ? & ? & ? & ? & Hb). exists f. unfold before in *. simpl in *.
    repeat split; auto; try done. rewrite Hb. by rewrite <-!app_assoc.
  - destruct (leftmost_ok (Node rk rv rh rl rr) (FRight k v h l :: p))
      as (f & kv & E & Hc & Hl & Hw & Hb & Ha); [done|].
    simpl in Ha. rewrite <-Ha. exists f. rewrite <-E. unfold before in *. simpl in *.
    repeat split; auto. rewrite Hb. by rewrite <-!app_assoc.
Qed.

(** [c_avl_node_prev] moves to the in-order predecessor, if there is one. *)
Lemma node_prev_ok f kv0 :
  content f = Some kv0 →
  match reverse (before f) with
  | [] => c_avl_node_prev f = None
  | kv :: rest => ∃ f', c_avl_node_prev f = Some f' ∧ content f' = Some kv ∧
      whole f' = whole f ∧ before f' = reverse rest ∧ after f' = kv0 :: after f ∧
      (node_left f.1 ≠ Null → node_right f'.1 = Null)
  end.
Proof.
  destruct f as [[|k v h l r] p]; [done|]. intros [= <-]. unfold before. simpl.
  destruct l as [|lk lv lh ll lr]; simpl is_null; cbv iota; simpl inorder.
  - pose proof (prev_up_ok (Node k v h Null r) p) as Hup. rewrite app_nil_r.
    simpl. case_match; [done|].
    destruct Hup as (f & ? & ? & ? & ? & Ha). exists f. unfold after in *. simpl in *.
    by repeat split; auto.
  - destruct (rightmost_ok (Node lk lv lh ll lr) (FLeft k v h r :: p))
      as (f & kv & E & Hc & Hl & Hw & Ha & Hb); [done|].
    simpl in Hb. rewrite <-Hb, reverse_app. simpl. exists f. rewrite <-E.
    unfold after in *. simpl in *.
    repeat split; auto; by rewrite ?reverse_involutive.
Qed.
End repr.

(** ** Correctness of the operations *)

(** Arithmetic of the height bound. *)
Lemma min_bound a b m :
  0 < a → 0 < b → 0 ≤ m → (2 ^ m ≤ a ^ 2 ∨ 2 ^ m ≤ b ^ 2) →
  2 ^ (m - 1) ≤ a ^ 2 → 2 ^ (m - 1) ≤ b ^ 2 → 2 ^ (m + 1) ≤ (a + b) ^ 2.
Proof.
  intros Ha Hb Hm Hor Ha2 Hb2. rewrite Z.pow_add_r by lia. change (2 ^ 1) with 2.
  destruct (decide (m = 0)) as [->|]; [simpl in *; nia|].
  assert (2 ^ m = 2 * 2 ^ (m - 1)) as E by (rewrite <-Z.pow_succ_r by lia; f_equal; lia).
  set (q := 2 ^ (m - 1)) in *. rewrite E in *.
  assert (q ≤ a * b) by nia. nia.
Qed.

Section correct.
Context {K V : Type} `{StrictCompare K}.
Abbreviation node := (c_avl_node K V).
Abbreviation path := (list (frame K V)).
Abbreviation focus := (c_avl_node K V * list (frame K V))%type.
Implicit Types (t : c_avl_tree K V) (n : node) (p : path) (f : focus) (k : K) (v : V).

Definition elems t : list (K * V) := inorder (root t).

(** The invariant every public operation maintains. *)
Record tree_ok t : Prop := {
  ok_avl : avl (root t);
  ok_sorted : Spec.sorted (elems t);
  ok_size : size t = Z.of_nat (length (elems t));
}.

(** The hole of the path is where [k] belongs. *)
Definition brackets k p : Prop := below k (path_pre p) ∧ above k (path_post p).

Lemma brackets_left k p k' v' h (l r : node) :
  brackets k p → Spec.sorted (inorder (plug (Node k' v' h l r) p)) → compare k k' < 0 →
  brackets k (FLeft k' v' h r :: p).
Proof.
  intros [Hb Ha] Hs Hlt. rewrite inorder_plug in Hs. simpl in Hs.
  rewrite app_mid in Hs. apply sorted_split in Hs as (_ & _ & _ & Hr).
  split; [done|]. simpl. constructor; [done|]. by apply (above_trans k').
Qed.

Lemma brackets_right k p k' v' h (l r : node) :
  brackets k p → Spec.sorted (inorder (plug (Node k' v' h l r) p)) → compare k' k < 0 →
  brackets k (FRight k' v' h l :: p).
Proof.
  intros [Hb Ha] Hs Hlt. rewrite inorder_plug in Hs. simpl in Hs.
  rewrite app_mid in Hs. apply sorted_split in Hs as (_ & _ & Hl & _).
  split; [|done]. simpl. rewrite app_assoc. apply below_snoc. split; [|done].
  by apply (below_trans k').
Qed.

(** *** Lookup *)

Lemma search_from_ok n p k :
  brackets k p → Spec.sorted (inorder (plug n p)) →
  match search_from n p k with
  | Some f => ∃ v, content f = Some (k, v) ∧ whole f = plug n p ∧ below k (before f)
  | None => Spec.get k (inorder (plug n p)) = None
  end.
Proof.
  revert p; induction n as [|k' v' h l IHl r IHr]; intros p Hbr Hs; simpl.
  - rewrite inorder_plug. simpl. destruct Hbr as [Hb Ha].
    by rewrite spec_get_skip, spec_get_above.
  - destruct (Z.eqb_spec (compare k k') 0) as [->%compare_eq|Hne].
    + exists v'. split; [done|]. split; [done|].
      change (plug _ p) with (whole (Node k' v' h l r, p)) in Hs.
      rewrite (inorder_whole (Node k' v' h l r, p) (k', v') eq_refl) in Hs.
      by apply sorted_split in Hs as (_ & _ & ? & _).
    + destruct (Z.ltb_spec (compare k k') 0).
      * by apply IHl; [eapply brackets_left|].
      * apply IHr; [eapply brackets_right; eauto|done]. apply compare_flip. lia.
Qed.

Lemma search_ok t k :
  Spec.sorted (elems t) →
  match search t k with
  | Some f => ∃ v, content f = Some (k, v) ∧ whole f = root t ∧ below k (before f)
  | None => Spec.get k (elems t) = None
  end.
Proof. apply (search_from_ok (root t) [] k). by split; constructor. Qed.

Lemma c_avl_get_ok t k :
  tree_ok t →
  c_avl_get t k = match Spec.get k (elems t) with
                  | Some v => (0, Some v)
                  | None => (ENOENT, None)
                  end.
Proof.
  intros [_ Hs _]. pose proof (search_ok t k Hs) as Hf. unfold c_avl_get.
  destruct (search t k) as [f|]; [|by rewrite Hf].
  destruct Hf as (v & Hc & Hw & Hb). unfold elems. rewrite <-Hw.
  rewrite (inorder_whole f _ Hc), spec_get_skip, spec_get_here by done.
  destruct f as [[|k' v' h l r] p]; [done|]. by injection Hc as -> ->.
Qed.

(** *** Insertion *)

Lemma insert_loop_ok n p k v :
  n ≠ Null → avl (plug n p) → brackets k p → Spec.sorted (inorder (plug n p)) →
  let old := inorder (plug n p) in
  match Spec.get k old with
  | Some _ => insert_loop n p k v = Some (EEXIST, plug n p)
  | None => ∃ n', insert_loop n p k v = Some (0, n') ∧ avl n' ∧ inorder n' = Spec.insert k v old
  end.
Proof.
  revert p; induction n as [|k' v' h l IHl r IHr]; intros p Hn Ha Hbr Hs; [done|].
  assert (inorder (plug (Node k' v' h l r) p) =
    (path_pre p ++ inorder l) ++ (k', v') :: inorder r ++ path_post p) as E.
  { rewrite inorder_plug. simpl. by rewrite <-!app_assoc. }
  destruct (avl_unplug _ _ Ha) as [(Hl & Hr & Hnear & Hh) Hp]. simpl in Hp.
  simpl. destruct (Z.eqb_spec (compare k' k) 0) as [->%compare_eq|Hne].
  { rewrite E in *. apply sorted_split in Hs as (_ & _ & Hb & _).
    by rewrite spec_get_skip, spec_get_here. }
  destruct (Z.ltb_spec (compare k' k) 0) as [Hlt|Hge].
  - destruct (brackets_right k p k' v' h l r) as [Hb' Ha']; auto.
    destruct r as [|rk rv rh rl rr]; simpl is_null; cbv iota.
    + destruct (rebalance_ok (Node k' v' h l (Node k v 1 Null Null)) p) as (t & -> & Hat & Hit).
      { split; [done|]. split; [by repeat split|]. exists (node_height l), 0.
        unfold near in *. simpl in *. lia. }
      { done. }
      simpl in *. rewrite E, app_assoc in *. simpl.
      change ((k', v') :: path_post p) with ([(k', v')] ++ path_post p).
      rewrite app_assoc. rewrite spec_get_skip, spec_get_above by done.
      exists t. split; [done|]. split; [done|]. rewrite Hit, inorder_plug. simpl.
      rewrite spec_insert_split by done. by rewrite <-!app_assoc.
    + apply (IHr (FRight k' v' h l :: p)); by try split.
  - assert (compare k k' < 0) as Hlt by (apply compare_flip; lia).
    destruct (brackets_left k p k' v' h l r) as [Hb' Ha']; auto.
    destruct l as [|lk lv lh ll lr]; simpl is_null; cbv iota.
    + destruct (rebalance_ok (Node k' v' h (Node k v 1 Null Null) r) p) as (t & -> & Hat & Hit).
      { split; [by repeat split|]. split; [done|]. exists 0, (node_height r).
        unfold near in *. simpl in *. lia. }
      { done. }
      simpl in *. rewrite E, app_nil_r in *. rewrite spec_get_skip, spec_get_above by done.
      exists t. split; [done|]. split; [done|]. rewrite Hit, inorder_plug. simpl.
      by rewrite spec_insert_split by done.
    + apply (IHl (FLeft k' v' h r :: p)); by try split.
Qed.

(** C: [c_avl_insert] on a well-formed tree. *)
Lemma c_avl_insert_ok t k v :
  tree_ok t →
  match Spec.get k (elems t) with
  | Some _ => c_avl_insert true t k v = Some (EEXIST, t)
  | None => ∃ t', c_avl_insert true t k v = Some (0, t') ∧ tree_ok t' ∧
                  elems t' = Spec.insert k v (elems t)
  end.
Proof.
  intros [Ha Hs Hz]. unfold c_avl_insert. simpl.
  destruct t as [[|k' v' h l r] sz]; simpl is_null; cbv iota; simpl root.
  - eexists. split; [done|]. unfold elems. simpl. split; [|done].
    split; simpl; [by repeat split|repeat constructor|done].
  - pose proof (insert_loop_ok (Node k' v' h l r) [] k v) as Hi. simpl plug in Hi.
    unfold elems in *. simpl root in *. cbv zeta in Hi.
    destruct (Spec.get k _) eqn:E.
    + rewrite Hi; [done|done|done|by split; constructor|done].
    + destruct Hi as (n & -> & Han & Hin); [done|done|by split; constructor|done|].
      eexists. split; [done|]. simpl root. split; [|done].
      split; simpl; [done|unfold elems; simpl..].
      * rewrite Hin. by apply spec_insert_sorted.
      * simpl in Hz. rewrite Hin, spec_insert_length. simpl. lia.
Qed.

(** *** Removal *)

Lemma is_null_true n : is_null n = true ↔ n = Null.
Proof. by destruct n. Qed.

Lemma remove_simple_ok f kv :
  content f = Some kv → avl (whole f) → node_left f.1 = Null ∨ node_right f.1 = Null →
  ∃ n, remove_simple f.1 f.2 = Some n ∧ avl n ∧ inorder n = before f ++ after f.
Proof.
  destruct f as [[|k v h l r] p]; [done|]. intros [= <-] Ha Hone. unfold whole in Ha. simpl in *.
  destruct (avl_unplug _ _ Ha) as [(Hl & Hr & Hnear & Hh) Hp]. simpl in Hp.
  unfold before, after. simpl. rewrite <-app_assoc.
  destruct l as [|lk lv lh ll lr], r as [|rk rv rh rl rr]; [| | |naive_solver].
  - destruct (rebalance_parent_ok Null p h) as (n & ? & ? & ?); [done..| |by exists n].
    unfold near. simpl in *. lia.
  - pose proof (avl_height_nonneg _ Hr). unfold near in *.
    assert (1 ≤ rh) by (destruct Hr as (?%avl_height_nonneg & ?%avl_height_nonneg & _ & ->); lia).
    rewrite guard_true by (unfold BALANCE; simpl in *; lia).
    destruct (rebalance_parent_ok (Node rk rv rh rl rr) p h) as (n & ? & ? & ?);
      [done..| |by exists n]. unfold near. simpl in *. lia.
  - unfold near in *.
    assert (1 ≤ lh) by (destruct Hl as (?%avl_height_nonneg & ?%avl_height_nonneg & _ & ->); lia).
    rewrite guard_true by (unfold BALANCE; simpl in *; lia).
    destruct (rebalance_parent_ok (Node lk lv lh ll lr) p h) as (n & ? & ? & ?);
      [done..| |by exists n]. unfold near. simpl in *. lia.
Qed.

Lemma set_content_avl n p k v : avl (plug n p) → avl (plug (set_content n k v) p).
Proof. intros [Hn Hp]%avl_unplug. apply plug_avl; by destruct n. Qed.

(** Both choices of the replacement node, as one statement. *)
Lemma neighbour_ok (up : bool) (f : focus) kv0 :
  content f = Some kv0 → node_left f.1 ≠ Null → node_right f.1 ≠ Null →
  ∃ f' kv, (if up then c_avl_node_prev f else c_avl_node_next f) = Some f' ∧
    content f' = Some kv ∧ whole f' = whole f ∧
    (node_left f'.1 = Null ∨ node_right f'.1 = Null) ∧
    (if up then before f = before f' ++ [kv] ∧ after f' = kv0 :: after f
     else after f = kv :: after f' ∧ before f' = before f ++ [kv0]).
Proof.
  intros Hc Hl Hr. destruct up.
  - pose proof (node_prev_ok f kv0 Hc) as Hp. destruct (reverse (before f)) as [|kv rest] eqn:E.
    + apply (f_equal reverse) in E. rewrite reverse_involutive in E. unfold before in E.
      destruct (app_eq_nil _ _ E) as [_ E']. destruct f as [[|k v h [|] r] p]; [done..|].
      by destruct (app_eq_nil _ _ E').
    + destruct Hp as (f' & ? & ? & ? & Hb & ? & ?). exists f', kv. repeat split; auto.
      rewrite Hb, <-reverse_cons, <-E. by rewrite reverse_involutive.
  - pose proof (node_next_ok f kv0 Hc) as Hp. destruct (after f) as [|kv rest] eqn:E.
    + unfold after in E. destruct (app_eq_nil _ _ E) as [E' _].
      destruct f as [[|k v h l [|]] p]; [done..|]. by destruct (app_eq_nil _ _ E').
    + destruct Hp as (f' & ? & ? & ? & Ha & ? & ?). exists f', kv. repeat split; auto. by rewrite Ha.
Qed.

Lemma remove_ok f kv :
  content f = Some kv → avl (whole f) →
  ∃ n, _remove f = Some n ∧ avl n ∧ inorder n = before f ++ after f.
Proof.
  intros Hc Ha. destruct f as [n p]. unfold _remove. simpl.
  destruct (is_null (node_left n)) eqn:El; simpl;
    [apply is_null_true in El; apply (remove_simple_ok (n, p) kv); auto|].
  destruct (is_null (node_right n)) eqn:Er; simpl;
    [apply is_null_true in Er; apply (remove_simple_ok (n, p) kv); auto|].
  assert (node_left n ≠ Null) by (intros E; by rewrite E in El).
  assert (node_right n ≠ Null) by (intros E; by rewrite E in Er).
  set (up := BALANCE n >? 0).
  destruct (neighbour_ok up (n, p) kv) as (f1 & [rk rv] & E1 & C1 & W1 & N1 & R1); [done..|].
  assert (content (set_content n rk rv, p) = Some (rk, rv)) as Hc' by (by destruct n).
  destruct (neighbour_ok up (set_content n rk rv, p) (rk, rv))
    as (f2 & kv2 & E2 & C2 & W2 & N2 & R2); [done|by destruct n..|].
  assert ((if up then c_avl_node_prev else c_avl_node_next) (n, p) = Some f1) as ->
    by (rewrite <-E1; by destruct up).
  destruct f1 as [[|rk' rv' rh rl rr] p1]; [done|]. injection C1 as -> ->. simpl.
  rewrite guard_true by (rewrite !is_null_true; apply N1).
  assert ((if up then c_avl_node_prev else c_avl_node_next) (set_content n rk rv, p) = Some f2) as ->
    by (rewrite <-E2; by destruct up).
  destruct (remove_simple_ok f2 kv2) as (t & Et & Hat & Hit); [done| |done|].
  { rewrite W2. by apply set_content_avl. }
  destruct f2 as [n2 p2]. simpl in *. rewrite Et. exists t. split; [done|]. split; [done|].
  rewrite Hit. assert (before (set_content n rk rv, p) = before (n, p)) as Eb by by destruct n.
  assert (after (set_content n rk rv, p) = after (n, p)) as Ea by by destruct n.
  rewrite Eb, Ea in R2. destruct up; destruct R1 as [R1 _], R2 as [R2 R2'].
  - rewrite R1 in R2. apply app_inj_2 in R2 as [Hb _]; [|done].
    by rewrite R2', R1, <-Hb, <-app_assoc.
  - rewrite R1 in R2. injection R2 as _ Ha'. by rewrite R1, R2', Ha', <-app_assoc.
Qed.

Lemma c_avl_remove_missing t k :
  tree_ok t → Spec.get k (elems t) = None → c_avl_remove t k = Some (ENOENT, None, t).
Proof.
  intros [_ Hs _] Hg. pose proof (search_ok t k Hs) as Hf. unfold c_avl_remove.
  destruct (search t k) as [f|]; [|done]. destruct Hf as (v & Hc & Hw & Hb).
  unfold elems in Hg. by rewrite <-Hw, (inorder_whole f _ Hc), spec_get_skip, spec_get_here in Hg.
Qed.

(** Taking out the entry at a position found in [t]. *)
Lemma take_out_ok t f k v n :
  tree_ok t → content f = Some (k, v) → whole f = root t → below k (before f) →
  avl n → inorder n = before f ++ after f →
  tree_ok (mk_avl n (size t - 1)) ∧ inorder n = Spec.remove k (elems t).
Proof.
  intros [_ Hs Hz] Hc Hw Hb Ha Hi. unfold elems in *. rewrite <-Hw in *.
  rewrite (inorder_whole f _ Hc) in *.
  split; [|by rewrite spec_remove_split].
  split; unfold elems; simpl; [done|rewrite Hi; by eapply sorted_join|].
  rewrite Hi. rewrite length_app in *. simpl in *. rewrite Hz. lia.
Qed.

Lemma c_avl_remove_found t k v :
  tree_ok t → Spec.get k (elems t) = Some v →
  ∃ t', c_avl_remove t k = Some (0, Some (k, v), t') ∧ tree_ok t' ∧
        elems t' = Spec.remove k (elems t).
Proof.
  intros Hok Hg. pose proof (search_ok t k (ok_sorted _ Hok)) as Hf. unfold c_avl_remove.
  destruct (search t k) as [f|]; [|congruence]. destruct Hf as (v' & Hc & Hw & Hb).
  assert (v' = v) as ->.
  { unfold elems in Hg. rewrite <-Hw, (inorder_whole f _ Hc), spec_get_skip, spec_get_here in Hg; congruence. }
  destruct (remove_ok f _ Hc) as (n & Hr & Ha & Hi); [rewrite Hw; apply Hok|].
  destruct (take_out_ok t f k v n) as [Hok' He]; [done..|].
  exists (mk_avl n (size t - 1)). split; [|done].
  destruct f as [[|k' v' h l r] p]; [done|]. injection Hc as -> ->. by rewrite Hr.
Qed.

Lemma pick_leaf_ok n p :
  n ≠ Null → ∃ f kv, pick_leaf n p = Some f ∧ content f = Some kv ∧ whole f = plug n p ∧
                     node_left f.1 = Null ∧ node_right f.1 = Null.
Proof.
  revert p; induction n as [|k v h l IHl r IHr]; intros p Hn; [done|]. simpl.
  destruct l as [|lk lv lh ll lr], r as [|rk rv rh rl rr]; simpl is_null; cbv iota.
  - by exists (Node k v h Null Null, p), (k, v).
  - destruct (IHr (FRight k v h Null :: p)) as (f & kv & ?); [done|]. by exists f, kv.
  - destruct (IHl (FLeft k v h Null :: p)) as (f & kv & ?); [done|]. by exists f, kv.
  - simpl andb. cbv iota. set (gt := node_height _ >? _). destruct gt.
    + destruct (IHl (FLeft k v h (Node rk rv rh rl rr) :: p)) as (f & kv & ?); [done|]. by exists f, kv.
    + destruct (IHr (FRight k v h (Node lk lv lh ll lr) :: p)) as (f & kv & ?); [done|]. by exists f, kv.
Qed.

Lemma elems_nil t : elems t = [] → root t = Null.
Proof. unfold elems. destruct (root t); [done|]. intros [_ ?]%app_eq_nil. done. Qed.

Lemma c_avl_pick_ok t :
  tree_ok t → elems t ≠ [] →
  ∃ k v t', c_avl_pick t = Some (0, Some (k, v), t') ∧ tree_ok t' ∧
            Spec.get k (elems t) = Some v ∧ elems t' = Spec.remove k (elems t).
Proof.
  intros Hok Hne. unfold c_avl_pick.
  assert (root t ≠ Null) as Hr by (intros E; apply Hne; unfold elems; by rewrite E).
  destruct (is_null (root t)) eqn:E; [by apply is_null_true in E|].
  destruct (pick_leaf_ok (root t) [] Hr) as (f & [k v] & Ep & Hc & Hw & Hl & Hrr). simpl plug in Hw.
  rewrite Ep. destruct (remove_simple_ok f _ Hc) as (n & Hn & Ha & Hi); [rewrite Hw; apply Hok|by left|].
  pose proof (ok_sorted _ Hok) as Hs. unfold elems in Hs. rewrite <-Hw, (inorder_whole f _ Hc) in Hs.
  apply sorted_split in Hs as (_ & _ & Hb & _).
  destruct (take_out_ok t f k v n) as [Hok' He]; [done..|].
  exists k, v, (mk_avl n (size t - 1)).
  destruct f as [[|k' v' h l r] p]; [done|]. injection Hc as -> ->. simpl in Hl, Hrr. subst l r.
  simpl in Hn. rewrite Hn. repeat split; auto; try apply Hok'.
  unfold elems. rewrite <-Hw, (inorder_whole (Node k v h Null Null, p) (k, v) eq_refl).
  by rewrite spec_get_skip, spec_get_here.
Qed.

(** *** Iteration and writes through value pointers *)

Lemma iterate_from fuel t f kv :
  content f = Some kv → iterate fuel (mk_iter t (Some f)) = take fuel (after f).
Proof.
  revert f kv; induction fuel as [|fuel IH]; intros f kv Hc; [done|]. simpl.
  pose proof (node_next_ok f kv Hc) as Hn. unfold c_avl_iterator_next. simpl.
  destruct (after f) as [|[k v] rest]; [by rewrite Hn|].
  destruct Hn as (f' & -> & Hc' & _ & Ha & _). destruct f' as [[|k' v' h l r] p]; [done|].
  injection Hc' as -> ->. simpl. rewrite (IH _ (k, v)) by done. by rewrite Ha.
Qed.

Lemma iterate_all t fuel :
  (length (elems t) ≤ fuel)%nat → iterate fuel (c_avl_get_iterator t) = elems t.
Proof.
  intros Hf. destruct (root t) as [|k0 v0 h0 l0 r0] eqn:E.
  { unfold elems. rewrite E. destruct fuel; [done|]. simpl. unfold c_avl_iterator_next. simpl.
    by rewrite E. }
  destruct (leftmost_ok (root t) []) as (f & [k v] & El & Hc & _ & Hw & _ & Ha); [by rewrite E|].
  simpl in Ha. rewrite app_nil_r in Ha. unfold elems in *. rewrite <-Ha in *.
  destruct fuel as [|fuel]; [simpl in Hf; lia|]. simpl. unfold c_avl_iterator_next. simpl.
  rewrite El. destruct f as [[|k' v' h l r] p]; [done|]. injection Hc as -> ->.
  simpl. rewrite (iterate_from fuel t _ (k, v)) by done. f_equal. apply take_ge. simpl in Hf. lia.
Qed.

Lemma node_update_ok n p k (g : V → V) :
  brackets k p → Spec.sorted (inorder (plug n p)) →
  node_height (node_update n k g) = node_height n ∧ (avl n → avl (node_update n k g)) ∧
  path_pre p ++ inorder (node_update n k g) ++ path_post p =
    Spec.update k g (inorder (plug n p)).
Proof.
  revert p; induction n as [|k' v' h l IHl r IHr]; intros p Hbr Hs.
  - split; [done|]. split; [done|]. rewrite inorder_plug. simpl. destruct Hbr as [Hb Ha].
    symmetry. by apply spec_update_none.
  - simpl node_update. destruct (Z.eqb_spec (compare k k') 0) as [->%compare_eq|Hne].
    + split; [done|]. split; [done|]. rewrite inorder_plug in *. simpl in *.
      rewrite !app_mid in *. apply sorted_split in Hs as (_ & _ & Hb & _). by rewrite spec_update_split.
    + destruct (Z.ltb_spec (compare k k') 0).
      * destruct (IHl (FLeft k' v' h r :: p)) as (Eh & Ha & Ei); [by eapply brackets_left|done|].
        split; [done|]. split; [simpl; rewrite Eh; naive_solver|]. simpl in Ei. simpl plug in Ei.
        rewrite <-Ei. simpl. by rewrite <-!app_assoc.
      * destruct (IHr (FRight k' v' h l :: p)) as (Eh & Ha & Ei);
          [eapply brackets_right; eauto; apply compare_flip; lia|done|].
        split; [done|]. split; [simpl; rewrite Eh; naive_solver|]. simpl in Ei.
        rewrite <-Ei. simpl. by rewrite <-!app_assoc.
Qed.

Lemma avl_update_ok t k (g : V → V) :
  tree_ok t → tree_ok (avl_update t k g) ∧ elems (avl_update t k g) = Spec.update k g (elems t).
Proof.
  intros [Ha Hs Hz]. destruct (node_update_ok (root t) [] k g) as (Eh & Ha' & Ei);
    [by split; constructor|done|].
  simpl in Ei. rewrite app_nil_r in Ei.
  assert (elems (avl_update t k g) = Spec.update k g (elems t)) as E by done.
  split; [|done]. split; [by apply Ha'| |].
  - rewrite E. eapply spec_sorted_keys; [symmetry; apply spec_update_keys|done].
  - rewrite E. simpl. rewrite Hz. f_equal.
    by rewrite <-(length_map fst), <-(spec_update_keys k g), length_map.
Qed.

(** *** The height stays logarithmic *)

Lemma avl_height_log n : avl n → 2 ^ node_height n ≤ (Z.of_nat (length (inorder n)) + 1) ^ 2.
Proof.
  induction n as [|k v h l IHl r IHr]; simpl; [done|].
  intros (Hl & Hr & Hnear & ->). specialize (IHl Hl). specialize (IHr Hr).
  pose proof (avl_height_nonneg _ Hl). pose proof (avl_height_nonneg _ Hr).
  rewrite length_app. simpl. rewrite Nat2Z.inj_add, Nat2Z.inj_succ.
  set (a := Z.of_nat (length (inorder l)) + 1) in *.
  set (b := Z.of_nat (length (inorder r)) + 1) in *.
  replace (Z.of_nat _ + Z.succ _ + 1) with (a + b) by lia.
  assert (0 < a ∧ 0 < b) as [] by lia. clearbody a b.
  set (m := Z.max (node_height l) (node_height r)) in *.
  apply (min_bound a b m); unfold near in *; try lia.
  - destruct (Z.max_spec (node_height l) (node_height r)) as [[? E]|[? E]]; subst m; rewrite E; auto.
  - assert (2 ^ (m - 1) ≤ 2 ^ node_height l) by (apply Z.pow_le_mono_r; lia). lia.
  - assert (2 ^ (m - 1) ≤ 2 ^ node_height r) by (apply Z.pow_le_mono_r; lia). lia.
Qed.
End correct.

(** ** The interface is implemented *)

#[export] Instance avl_map {K : Type} `{Comparator K} : KeyedMap K (c_avl_tree K) := {|
  km_create _ := c_avl_create;
  km_insert _ := c_avl_insert;
  km_remove _ := c_avl_remove;
  km_pick _ := c_avl_pick;
  km_get _ := c_avl_get;
  km_update _ := avl_update;
  km_iterate V t := iterate (Z.to_nat (c_avl_size t)) (c_avl_get_iterator t);
  km_size _ := c_avl_size;
  km_ok _ := tree_ok;
|}.

Lemma iterate_elems `{StrictCompare K} {V} (t : c_avl_tree K V) :
  tree_ok t → iterate (Z.to_nat (c_avl_size t)) (c_avl_get_iterator t) = elems t.
Proof. intros Hok. apply iterate_all. unfold c_avl_size. rewrite (ok_size _ Hok). lia. Qed.

#[export] Instance avl_laws `{StrictCompare K} : KeyedMapLaws K (c_avl_tree K).
Proof.
  split; cbn [km_create km_insert km_remove km_pick km_get km_update km_iterate km_size km_ok avl_map];
    intros V.
  - split; [|done]. split; [done|constructor|done].
  - intros t Hok. rewrite iterate_elems by done. apply Hok.
  - intros t Hok. rewrite iterate_elems by done. apply Hok.
  - intros t k Hok. rewrite iterate_elems by done. by apply c_avl_get_ok.
  - done.
  - intros t k v v0 Hok. rewrite iterate_elems by done. intros Hg.
    pose proof (c_avl_insert_ok t k v Hok) as Hi. by rewrite Hg in Hi.
  - intros t k v Hok. rewrite iterate_elems by done. intros Hg.
    pose proof (c_avl_insert_ok t k v Hok) as Hi. rewrite Hg in Hi.
    destruct Hi as (t' & ? & ? & ?). exists t'. by rewrite iterate_elems.
  - intros t k Hok. rewrite iterate_elems by done. by apply c_avl_remove_missing.
  - intros t k v Hok. rewrite iterate_elems by done. intros Hg.
    destruct (c_avl_remove_found t k v Hok Hg) as (t' & ? & ? & ?). exists t'. by rewrite iterate_elems.
  - intros t Hok. rewrite iterate_elems by done. intros He. unfold c_avl_pick.
    by rewrite (elems_nil _ He).
  - intros t Hok. rewrite iterate_elems by done. intros Hne.
    destruct (c_avl_pick_ok t Hok Hne) as (k & v & t' & ? & ? & ? & ?).
    exists k, v, t'. by rewrite iterate_elems.
  - intros t k f Hok. destruct (avl_update_ok t k f Hok) as [Hok' E]. split; [done|].
    rewrite !iterate_elems by done. done.
Qed.

(** ** Histories of calls against the contract *)

Inductive op (K V : Type) : Type :=
| OInsert (memory : bool) (k : K) (v : V)
| ORemove (k : K)
| OPick
| OGet (k : K).
Arguments OInsert {K V}.
Arguments ORemove {K V}.
Arguments OPick {K V}.
Arguments OGet {K V}.

(** What a caller sees: the status, the key and value handed back. *)
Definition answer (K V : Type) : Type := Z * option K * option V.

Section history.
Context {K V : Type} `{Comparator K}.

Definition run_op (t : c_avl_tree K V) (o : op K V) : option (answer K V * c_avl_tree K V) :=
  match o with
  | OInsert memory k v =>
      match c_avl_insert memory t k v with
      | Some (st, t) => Some ((st, None, None), t)
      | None => None
      end
  | ORemove k =>
      match c_avl_remove t k with
      | Some (st, kv, t) => Some ((st, option_map fst kv, option_map snd kv), t)
      | None => None
      end
  | OPick =>
      match c_avl_pick t with
      | Some (st, kv, t) => Some ((st, option_map fst kv, option_map snd kv), t)
      | None => None
      end
  | OGet k => Some (((c_avl_get t k).1, None, (c_avl_get t k).2), t)
  end.

(** The contract: each call with its answer on the sorted list.  An insertion
    keeps an existing entry; picking removes some entry. *)
Inductive spec_op : list (K * V) → op K V → answer K V → list (K * V) → Prop :=
| spec_insert_nomem l k v : spec_op l (OInsert false k v) (ENOMEM, None, None) l
| spec_insert_new l k v : Spec.get k l = None →
    spec_op l (OInsert true k v) (0, None, None) (Spec.insert k v l)
| spec_insert_old l k v v0 : Spec.get k l = Some v0 → spec_op l (OInsert true k v) (EEXIST, None, None) l
| spec_remove_old l k v : Spec.get k l = Some v → spec_op l (ORemove k) (0, Some k, Some v) (Spec.remove k l)
| spec_remove_none l k : Spec.get k l = None → spec_op l (ORemove k) (ENOENT, None, None) l
| spec_pick_some l k v : Spec.get k l = Some v → spec_op l OPick (0, Some k, Some v) (Spec.remove k l)
| spec_pick_none : spec_op [] OPick (EOF, None, None) []
| spec_get_old l k v : Spec.get k l = Some v → spec_op l (OGet k) (0, None, Some v) l
| spec_get_none l k : Spec.get k l = None → spec_op l (OGet k) (ENOENT, None, None) l.

Inductive spec_run : list (K * V) → list (op K V) → list (answer K V) → list (K * V) → Prop :=
| spec_run_nil l : spec_run l [] [] l
| spec_run_cons l o a l' os rs l'' :
    spec_op l o a l' → spec_run l' os rs l'' → spec_run l (o :: os) (a :: rs) l''.

Fixpoint run_ops (t : c_avl_tree K V) (os : list (op K V)) : option (list (answer K V) * c_avl_tree K V) :=
  match os with
  | [] => Some ([], t)
  | o :: os' =>
      match run_op t o with
      | Some (a, t) =>
          match run_ops t os' with Some (rs, t) => Some (a :: rs, t) | None => None end
      | None => None
      end
  end.
End history.

Lemma run_op_ok `{StrictCompare K} {V} (t : c_avl_tree K V) o :
  tree_ok t → ∃ a t', run_op t o = Some (a, t') ∧ tree_ok t' ∧ spec_op (elems t) o a (elems t').
Proof.
  intros Hok. destruct o as [[] k v|k| |k]; cbn [run_op].
  - pose proof (c_avl_insert_ok t k v Hok) as Hi. destruct (Spec.get k (elems t)) eqn:E.
    + rewrite Hi. eexists _, t. split; [done|]. split; [done|]. by econstructor.
    + destruct Hi as (t' & -> & ? & E'). eexists _, t'. rewrite E'.
      split; [done|]. split; [done|]. by constructor.
  - eexists _, t. split; [done|]. split; [done|]. constructor.
  - destruct (Spec.get k (elems t)) as [v|] eqn:E.
    + destruct (c_avl_remove_found t k v Hok E) as (t' & -> & ? & E'). eexists _, t'. rewrite E'.
      split; [done|]. split; [done|]. by econstructor.
    + rewrite (c_avl_remove_missing t k Hok E). eexists _, t.
      split; [done|]. split; [done|]. by constructor.
  - destruct (elems t) as [|x l] eqn:E.
    + unfold c_avl_pick. rewrite (elems_nil _ E). eexists _, t. simpl. rewrite E.
      split; [done|]. split; [done|]. constructor.
    + destruct (c_avl_pick_ok t Hok) as (k & v & t' & -> & ? & Hg & E'); [by rewrite E|].
      eexists _, t'. rewrite E', E. split; [done|]. split; [done|]. rewrite E in Hg. by econstructor.
  - eexists _, t. split; [done|]. split; [done|]. rewrite c_avl_get_ok by done.
    destruct (Spec.get k (elems t)) eqn:E; by constructor.
Qed.

Lemma run_ops_ok `{StrictCompare K} {V} os (t : c_avl_tree K V) :
  tree_ok t → ∃ rs t', run_ops t os = Some (rs, t') ∧ tree_ok t' ∧ spec_run (elems t) os rs (elems t').
Proof.
  revert t; induction os as [|o os IH]; intros t Hok; cbn [run_ops].
  { exists [], t. split; [done|]. split; [done|]. constructor. }
  destruct (run_op_ok t o Hok) as (a & t1 & -> & Hok1 & Hs1).
  destruct (IH t1 Hok1) as (rs & t2 & E & ? & ?). exists (a :: rs), t2. simpl. rewrite E.
  split; [done|]. split; [done|]. by econstructor.
Qed.

(** ** Properties *)

(** C2 (refinement): every history of insertions (with or without memory),
    removals, picks and lookups on a freshly created tree runs without a
    failing [assert], keeps the tree balanced, sorted and correctly sized,
    and both its contents and every answer the callers see follow the
    transitions of the sorted-association-list contract. *)
Theorem avl_simulates_spec (K V : Type) `{StrictCompare K} (os : list (op K V)) :
  ∃ rs t, run_ops c_avl_create os = Some (rs, t) ∧ tree_ok t ∧ spec_run [] os rs (elems t).
Proof. apply (run_ops_ok os c_avl_create). split; [done|constructor|done]. Qed.

Lemma avl_simulates_spec_witness :
  ∃ rs t, run_ops c_avl_create [OInsert true 2 20; OInsert true 1 10; OInsert true 3 30; ORemove 2; OGet 1] =
            Some (rs, t) ∧ tree_ok t ∧
          spec_run [] [OInsert true 2 20; OInsert true 1 10; OInsert true 3 30; ORemove 2; OGet 1] rs (elems t).
Proof. apply (avl_simulates_spec Z Z). Defined.

(** on a well-formed tree [c_avl_insert] reports ENOMEM
    without a change when the node cannot be allocated, EEXIST without a
    change when the key is bound, and otherwise stores exactly the new
    binding: a later [c_avl_get] finds it and every other key as before. *)
Theorem avl_insert_get (K V : Type) `{StrictCompare K} (t : c_avl_tree K V) k v :
  tree_ok t →
  c_avl_insert false t k v = Some (ENOMEM, t) ∧
  (∀ v0, (c_avl_get t k).2 = Some v0 → c_avl_insert true t k v = Some (EEXIST, t)) ∧
  ((c_avl_get t k).2 = None →
   ∃ t', c_avl_insert true t k v = Some (0, t') ∧ tree_ok t' ∧ c_avl_size t' = c_avl_size t + 1 ∧
     c_avl_get t' k = (0, Some v) ∧ ∀ k', k' ≠ k → c_avl_get t' k' = c_avl_get t k').
Proof.
  intros Hok. split; [done|]. pose proof (c_avl_insert_ok t k v Hok) as Hi.
  rewrite c_avl_get_ok by done. destruct (Spec.get k (elems t)) as [v0|] eqn:E; simpl;
    (split; [intros v1 Hv1; try done|intros Hn; try done]).
  destruct Hi as (t' & -> & Hok' & Et). exists t'.
  assert (∀ k', Spec.get k' (elems t') = if compare k' k =? 0 then Some v else Spec.get k' (elems t))
    as Hget by (intros k'; rewrite Et; apply spec_get_insert; [done|apply Hok]).
  repeat split; try done; try apply Hok'.
  - unfold c_avl_size. rewrite (ok_size _ Hok'), (ok_size _ Hok), Et, spec_insert_length. lia.
  - by rewrite c_avl_get_ok, Hget, compare_refl.
  - intros k' Hne. rewrite !c_avl_get_ok, Hget by done.
    destruct (Z.eqb_spec (compare k' k) 0) as [Heq|]; [|done].
    by apply (compare_eq k' k) in Heq.
Qed.

Definition t3 : c_avl_tree Z Z := mk_avl (Node 2 20 2 (Node 1 10 1 Null Null) (Node 3 30 1 Null Null)) 3.

Lemma t3_ok : tree_ok t3.
Proof. split; [vm_compute; intuition congruence| |done]. repeat constructor. Qed.

Lemma avl_insert_get_witness :
  tree_ok t3 ∧ ∃ t', c_avl_insert true t3 4 40 = Some (0, t') ∧ c_avl_get t' 4 = (0, Some 40).
Proof.
  split; [apply t3_ok|].
  destruct (avl_insert_get Z Z t3 4 40 t3_ok) as (_ & _ & Hnew).
  destruct (Hnew eq_refl) as (t' & E & _ & _ & Hg & _). exists t'. by split.
Defined.

(** [c_avl_remove] of a bound key returns the stored key
    and value, and afterwards exactly that binding is gone; an unbound key
    is reported as ENOENT and changes nothing. *)
Theorem avl_remove_get (K V : Type) `{StrictCompare K} (t : c_avl_tree K V) k :
  tree_ok t →
  match (c_avl_get t k).2 with
  | Some v =>
      ∃ t', c_avl_remove t k = Some (0, Some (k, v), t') ∧ tree_ok t' ∧
        c_avl_size t' = c_avl_size t - 1 ∧ c_avl_get t' k = (ENOENT, None) ∧
        ∀ k', k' ≠ k → c_avl_get t' k' = c_avl_get t k'
  | None => c_avl_remove t k = Some (ENOENT, None, t)
  end.
Proof.
  intros Hok. rewrite c_avl_get_ok by done.
  destruct (Spec.get k (elems t)) as [v|] eqn:E; simpl; [|by apply c_avl_remove_missing].
  destruct (c_avl_remove_found t k v Hok E) as (t' & -> & Hok' & Et). exists t'.
  assert (∀ k', Spec.get k' (elems t') = if compare k' k =? 0 then None else Spec.get k' (elems t))
    as Hget by (intros k'; rewrite Et; apply spec_get_remove, Hok).
  repeat split; try done; try apply Hok'.
  - unfold c_avl_size. rewrite (ok_size _ Hok'), (ok_size _ Hok), Et.
    by rewrite (spec_remove_length _ v).
  - by rewrite c_avl_get_ok, Hget, compare_refl.
  - intros k' Hne. rewrite !c_avl_get_ok, Hget by done.
    destruct (Z.eqb_spec (compare k' k) 0) as [Heq|]; [|done].
    by apply (compare_eq k' k) in Heq.
Qed.

Lemma avl_remove_get_witness :
  tree_ok t3 ∧ ∃ t', c_avl_remove t3 2 = Some (0, Some (2, 20), t') ∧ c_avl_get t' 2 = (ENOENT, None).
Proof.
  split; [apply t3_ok|].
  destruct (avl_remove_get Z Z t3 2 t3_ok) as (t' & E & _ & _ & Hg & _). exists t'. by split.
Defined.

(** iterating with [c_avl_iterator_next] from a fresh
    iterator visits every binding exactly once, in increasing key order,
    then stops; [c_avl_size] calls are enough. *)
Theorem avl_iterator_complete (K V : Type) `{StrictCompare K} (t : c_avl_tree K V) :
  tree_ok t →
  let visited := iterate (Z.to_nat (c_avl_size t)) (c_avl_get_iterator t) in
  Spec.sorted visited ∧ iterate (S (Z.to_nat (c_avl_size t))) (c_avl_get_iterator t) = visited ∧
  ∀ k v, (k, v) ∈ visited ↔ c_avl_get t k = (0, Some v).
Proof.
  intros Hok visited. subst visited. rewrite iterate_elems by done.
  split; [apply Hok|]. split.
  - apply iterate_all. unfold c_avl_size. rewrite (ok_size _ Hok). lia.
  - intros k v. rewrite c_avl_get_ok, (spec_elem_of _ _ _ (ok_sorted _ Hok)) by done.
    destruct (Spec.get k (elems t)); naive_solver.
Qed.

Lemma avl_iterator_complete_witness :
  tree_ok t3 ∧ iterate 4 (c_avl_get_iterator t3) = [(1, 10); (2, 20); (3, 30)].
Proof.
  split; [apply t3_ok|].
  destruct (avl_iterator_complete Z Z t3 t3_ok) as (_ & E & _). exact E.
Defined.

(** a tree whose [int] size does not overflow has height at
    most 62, so neither the [int] heights nor the recursion of [free_node]
    grow beyond that. *)
Theorem avl_height_bound (K V : Type) `{StrictCompare K} (t : c_avl_tree K V) :
  tree_ok t → c_avl_size t < 2 ^ 31 → 0 ≤ node_height (root t) ≤ 62.
Proof.
  intros [Ha _ Hz] Hs. pose proof (avl_height_log _ Ha) as Hlog. unfold c_avl_size in Hs.
  pose proof (avl_height_nonneg _ Ha). unfold elems in Hz. rewrite <-Hz in Hlog.
  split; [done|]. apply Z.lt_succ_r. apply (Z.pow_lt_mono_r_iff 2); [lia..|].
  eapply Z.le_lt_trans; [exact Hlog|]. change (2 ^ Z.succ 62) with (2 ^ 63).
  assert (0 ≤ size t) by lia. nia.
Qed.

Lemma avl_height_bound_witness : tree_ok t3 ∧ c_avl_size t3 < 2 ^ 31 ∧ node_height (root t3) ≤ 62.
Proof.
  split; [apply t3_ok|]. split; [vm_compute; reflexivity|].
  apply (avl_height_bound Z Z t3 t3_ok). vm_compute; reflexivity.
Defined.
