(* ===== verification/Heap.v ===== *)
(** * The binary heap (src/utils/heap/heap.c)

    The array [list] has [list_size] slots of which the first [list_len]
    are in use; a slot that is NULL or was never written is [None], and
    handing such a slot to [compare] is undefined behaviour ([None] of the
    result).  Indices are [size_t]: they wrap at 2^64, which [c_heap_insert]
    relies on for the first element.  The result of [realloc] is a boolean
    argument. *)

From Stdlib Require Import ZArith Lia.
From stdpp Require Import base list sorting numbers.
From S2P Require Import Prelude.

Record c_heap (A : Type) : Type := mk_heap {
  list_ : list (option A);
  list_len : Z;
  list_size : Z;
}.
Arguments mk_heap {A} _ _ _.
Arguments list_ {A} _.
Arguments list_len {A} _.
Arguments list_size {A} _.

Inductive reheap_direction : Type := DIR_UP | DIR_DOWN.

Section heap.
Context {A : Type} `{Comparator A}.

(** [h->list[i]], an entry that must be initialised. *)
Definition entry (h : c_heap A) (i : Z) : option A :=
  if (0 <=? i) && (i <? Z.of_nat (length (list_ h)))
  then match list_ h !! Z.to_nat i with Some (Some a) => Some a | _ => None end
  else None.

Definition set_slot (l : list (option A)) (i : Z) (x : option A) : list (option A) :=
  <[Z.to_nat i := x]> l.

Definition set_list (h : c_heap A) (l : list (option A)) : c_heap A :=
  mk_heap l (list_len h) (list_size h).

(** The second half of [reheap]: swap with the smaller child [min] if
    needed and go on ([rec] is the recursive call). *)
Definition reheap_swap (rec : c_heap A → Z → option (c_heap A)) (h : c_heap A) (root min : Z)
    (dir : reheap_direction) : option (c_heap A) :=
  a ← entry h root; b ← entry h min;
  if compare a b <=? 0 then Some h
  else
    let h' := set_list h (set_slot (set_slot (list_ h) root (Some b)) min (Some a)) in
    match dir with
    | DIR_UP => if root =? 0 then Some h' else rec h' (u64 (root - 1) / 2)
    | DIR_DOWN => rec h' min
    end.

(** The recursion of [reheap]; [fuel] bounds its depth. *)
Fixpoint reheap (fuel : nat) (h : c_heap A) (root : Z) (dir : reheap_direction)
    : option (c_heap A) :=
  match fuel with
  | O => None
  | S fuel =>
      let left := u64 (2 * root + 1) in
      let left := if left >=? list_len h then 0 else left in
      let right := u64 (2 * root + 2) in
      let right := if right >=? list_len h then 0 else right in
      if (left =? 0) && (right =? 0) then Some h
      else
        min ← (if left =? 0 then Some right
               else if right =? 0 then Some left
               else
                 a ← entry h left; b ← entry h right;
                 Some (if compare a b >? 0 then right else left));
        reheap_swap (λ h' root', reheap fuel h' root' dir) h root min dir
  end.

Definition heap_fuel (h : c_heap A) : nat := S (Z.to_nat (list_len h)).

Definition c_heap_create : c_heap A := mk_heap [] 0 0.

(** [realloc] to [n] slots: the old ones are kept, new ones are not
    initialised. *)
Definition realloc_slots (l : list (option A)) (n : Z) : list (option A) :=
  take (Z.to_nat n) l ++ replicate (Z.to_nat n - length l) None.

Definition ensure_space (realloc_ok : bool) (h : c_heap A) : c_heap A + Z :=
  if list_len h =? list_size h then
    if realloc_ok
    then inl (mk_heap (realloc_slots (list_ h) (list_size h + 16)) (list_len h) (list_size h + 16))
    else inr (- ENOMEM)
  else inl h.

Definition c_heap_insert (realloc_ok : bool) (h : c_heap A) (ptr : A) : option (Z * c_heap A) :=
  guard (list_len h ≤ list_size h);;
  match ensure_space realloc_ok h with
  | inr status => Some (status, h)
  | inl h1 =>
      let index := list_len h1 in
      let h2 := mk_heap (set_slot (list_ h1) index (Some ptr)) (list_len h1 + 1) (list_size h1) in
      h3 ← reheap (heap_fuel h2) h2 (u64 (index - 1) / 2) DIR_UP;
      Some (0, h3)
  end.

(** The tail of [c_heap_get_root] that frees some memory. *)
Definition shrink (realloc_ok : bool) (h : c_heap A) : c_heap A :=
  if (list_len h + 32 <? list_size h) && realloc_ok
  then mk_heap (realloc_slots (list_ h) (list_len h + 16)) (list_len h) (list_len h + 16)
  else h.

Definition c_heap_get_root (realloc_ok : bool) (h : c_heap A) : option (option A * c_heap A) :=
  if list_len h =? 0 then Some (None, h)
  else if list_len h =? 1 then
    ret ← entry h 0;
    Some (Some ret, shrink realloc_ok (mk_heap (set_slot (list_ h) 0 None) 0 (list_size h)))
  else
    ret ← entry h 0;
    last ← entry h (list_len h - 1);
    let l := set_slot (set_slot (list_ h) 0 (Some last)) (list_len h - 1) None in
    let h1 := mk_heap l (list_len h - 1) (list_size h) in
    h2 ← reheap (heap_fuel h1) h1 0 DIR_DOWN;
    Some (Some ret, shrink realloc_ok h2).
End heap.

(** ** The heap order on the used part of the array *)

Section order.
Context {A : Type} `{TotalPreorder A}.
Implicit Types (xs : list A) (i j : nat).
Local Open Scope nat_scope.

Definition parent i : nat := (i - 1) / 2.

(** The entry at [i] is not smaller than its parent's. *)
Definition edge xs i : Prop :=
  ∀ x y, xs !! parent i = Some x → xs !! i = Some y → (compare x y ≤ 0)%Z.

Definition heap_ordered xs : Prop := ∀ i, 0 < i → edge xs i.

(** Only the edge above [c] may be wrong, and what is below [c] fits below
    its parent too. *)
Definition almost_up xs c : Prop :=
  (∀ i, 0 < i → i ≠ c → edge xs i) ∧
  (∀ i x y, 0 < i → parent i = c → xs !! parent c = Some x → xs !! i = Some y → (compare x y ≤ 0)%Z).

(** Only edges below [r] may be wrong, and they fit below its parent. *)
Definition almost_down xs r : Prop :=
  (∀ i, 0 < i → parent i ≠ r → edge xs i) ∧
  (∀ i x y, 0 < i → 0 < r → parent i = r → xs !! parent r = Some x → xs !! i = Some y →
            (compare x y ≤ 0)%Z).

Definition swap xs i j : list A :=
  match xs !! i, xs !! j with
  | Some a, Some b => <[j := a]> (<[i := b]> xs)
  | _, _ => xs
  end.

Definition min_child xs root : nat :=
  match xs !! (2 * root + 1), xs !! (2 * root + 2) with
  | Some a, Some b => if (compare a b >? 0)%Z then 2 * root + 2 else 2 * root + 1
  | _, _ => 2 * root + 1
  end.

Definition reheap_swap_l (rec : list A → nat → option (list A)) xs (root m : nat)
    (dir : reheap_direction) : option (list A) :=
  a ← xs !! root; b ← xs !! m;
  if (compare a b <=? 0)%Z then Some xs
  else
    let xs' := swap xs root m in
    match dir with
    | DIR_UP => if root =? 0 then Some xs' else rec xs' (parent root)
    | DIR_DOWN => rec xs' m
    end.

(** [reheap] on the used entries. *)
Fixpoint reheap_l (fuel : nat) xs (root : nat) (dir : reheap_direction) : option (list A) :=
  match fuel with
  | O => None
  | S fuel =>
      if length xs <=? 2 * root + 1 then Some xs
      else
        reheap_swap_l (λ xs' root', reheap_l fuel xs' root' dir) xs root (min_child xs root) dir
  end.

Lemma swap_length xs i j : length (swap xs i j) = length xs.
Proof. unfold swap. repeat case_match; rewrite ?length_insert; done. Qed.

Lemma swap_perm xs i j : swap xs i j ≡ₚ xs.
Proof.
  unfold swap. destruct (xs !! i) as [a|] eqn:Ei, (xs !! j) as [b|] eqn:Ej; try done.
  by apply Permutation_insert_swap.
Qed.

Lemma swap_lookup xs i j a b k :
  xs !! i = Some a → xs !! j = Some b → i ≠ j →
  swap xs i j !! k = if decide (k = j) then Some a else if decide (k = i) then Some b else xs !! k.
Proof.
  intros Ei Ej Hne. unfold swap. rewrite Ei, Ej.
  pose proof (lookup_lt_Some _ _ _ Ei). pose proof (lookup_lt_Some _ _ _ Ej).
  destruct (decide (k = j)) as [->|]; [by rewrite list_lookup_insert_eq by (rewrite length_insert; lia)|].
  rewrite list_lookup_insert_ne by done.
  destruct (decide (k = i)) as [->|]; [by rewrite list_lookup_insert_eq by lia|].
  by rewrite list_lookup_insert_ne.
Qed.

Lemma compare_le_total (a b : A) : ¬ (compare a b ≤ 0)%Z → (compare b a ≤ 0)%Z.
Proof. intros Hn. apply Z.lt_le_incl, compare_flip. lia. Qed.

Lemma compare_le_refl (a : A) : (compare a a ≤ 0)%Z.
Proof.
  destruct (Z.le_gt_cases (compare a a) 0) as [?|Hgt]; [done|].
  pose proof (proj2 (compare_flip a a) Hgt). lia.
Qed.

Lemma parent_spec i : i = 0 ∧ parent i = 0 ∨ i = 2 * parent i + 1 ∨ i = 2 * parent i + 2.
Proof.
  unfold parent. destruct i as [|i]; [by left|].
  pose proof (Nat.div_mod_eq (S i - 1) 2). pose proof (Nat.mod_upper_bound (S i - 1) 2). lia.
Qed.

(** [lia] that knows the parents mentioned. *)
Ltac plia :=
  repeat match goal with
  | |- context [parent ?i] => lazymatch goal with _ : i = 0 ∧ _ ∨ _ |- _ => fail | _ => pose proof (parent_spec i) end
  | _ : context [parent ?i] |- _ =>
      lazymatch goal with _ : i = 0 ∧ parent i = 0 ∨ _ |- _ => fail | _ => pose proof (parent_spec i) end
  end; lia.

Lemma children i root : 0 < i → parent i = root ↔ i = 2 * root + 1 ∨ i = 2 * root + 2.
Proof. intros. plia. Qed.

Lemma min_child_ok xs root :
  2 * root + 1 < length xs →
  ∃ b, xs !! min_child xs root = Some b ∧ 0 < min_child xs root ∧ parent (min_child xs root) = root ∧
    ∀ i y, 0 < i → parent i = root → xs !! i = Some y → (compare b y ≤ 0)%Z.
Proof.
  intros Hlt. destruct (lookup_lt_is_Some_2 xs (2 * root + 1) Hlt) as [a Ea].
  unfold min_child. rewrite Ea. destruct (xs !! (2 * root + 2)) as [b|] eqn:Eb.
  - destruct (Z.gtb_spec (compare a b) 0) as [Hgt|Hle].
    + exists b. split; [done|]. split; [lia|]. split; [apply children; lia|].
      intros i y Hi [->| ->]%children Hy; [|by rewrite Eb in Hy; injection Hy as <-; apply compare_le_refl|done].
      rewrite Ea in Hy; injection Hy as <-. by apply Z.lt_le_incl, compare_flip.
    + exists a. split; [done|]. split; [lia|]. split; [apply children; lia|].
      intros i y Hi [->| ->]%children Hy; [by rewrite Ea in Hy; injection Hy as <-; apply compare_le_refl| |done].
      by rewrite Eb in Hy; injection Hy as <-.
  - exists a. split; [done|]. split; [lia|]. split; [apply children; lia|].
    intros i y Hi [->| ->]%children Hy; [|congruence|done].
    rewrite Ea in Hy; injection Hy as <-; apply compare_le_refl.
Qed.

(** One swap on the way up: afterwards only the edge above the parent of
    [c] can be wrong. *)
Lemma swap_up_edges xs c a b :
  0 < c → almost_up xs c → xs !! parent c = Some a → xs !! c = Some b →
  (∀ i y, 0 < i → parent i = parent c → xs !! i = Some y → (compare b y ≤ 0)%Z) →
  (0 < compare a b)%Z →
  ∀ i, 0 < i → i ≠ parent c → edge (swap xs (parent c) c) i.
Proof.
  intros Hc [Hedge Hbelow] Ea Eb Hmin Hgt i Hi Hip x y.
  assert (parent c < c) by plia.
  rewrite !(swap_lookup xs (parent c) c a b) by (done || lia). intros Hx Hy.
  destruct (decide (i = c)) as [->|Hic].
  { injection Hy as <-. rewrite decide_False, decide_True in Hx by lia.
    injection Hx as <-. apply compare_le_total. lia. }
  rewrite decide_False in Hy by done.
  destruct (decide (parent i = c)) as [Hpc|Hpc]; [injection Hx as <-; by apply (Hbelow i)|].
  destruct (decide (parent i = parent c)) as [Hpp|Hpp]; [injection Hx as <-; by apply (Hmin i)|].
  by apply (Hedge i).
Qed.

Lemma swap_up_almost xs c a b :
  0 < c → 0 < parent c → almost_up xs c → xs !! parent c = Some a → xs !! c = Some b →
  (∀ i y, 0 < i → parent i = parent c → xs !! i = Some y → (compare b y ≤ 0)%Z) →
  (0 < compare a b)%Z → almost_up (swap xs (parent c) c) (parent c).
Proof.
  intros Hc Hp Hup Ea Eb Hmin Hgt. split; [by eapply swap_up_edges|].
  destruct Hup as [Hedge Hbelow]. intros i x y Hi Hip.
  assert (parent c < c) by plia.
  assert (parent (parent c) < parent c) by plia.
  rewrite !(swap_lookup xs (parent c) c a b) by (done || lia).
  rewrite (decide_False (P := parent (parent c) = c)), (decide_False (P := parent (parent c) = parent c)) by lia.
  intros Hx Hy. assert (compare x a ≤ 0)%Z as Hxa by (by apply (Hedge (parent c)); [|lia|..]).
  destruct (decide (i = c)) as [->|Hic]; [by injection Hy as <-|].
  rewrite decide_False in Hy by plia.
  eapply compare_le_trans; [exact Hxa|]. apply (Hedge i); [done|done|by rewrite Hip|done].
Qed.

(** Sifting up restores the order. *)
Lemma reheap_up_ok fuel xs c :
  0 < c < length xs → c < fuel → almost_up xs c →
  ∃ xs', reheap_l fuel xs (parent c) DIR_UP = Some xs' ∧ heap_ordered xs' ∧ xs' ≡ₚ xs.
Proof.
  revert xs c; induction fuel as [|fuel IH]; intros xs c Hc Hf Hup; [lia|]. cbn [reheap_l].
  assert (parent c < c) by plia.
  assert (c = 2 * parent c + 1 ∨ c = 2 * parent c + 2) as Hcp by (apply children; [lia|done]).
  destruct (Nat.leb_spec (length xs) (2 * parent c + 1)); [lia|].
  destruct (min_child_ok xs (parent c)) as (b & Eb & Hm0 & Hmp & Hmin); [lia|].
  destruct (lookup_lt_is_Some_2 xs (parent c)) as [a Ea]; [lia|]. unfold reheap_swap_l. rewrite Ea, Eb. cbn [mbind option_bind].
  destruct (Z.leb_spec (compare a b) 0) as [Hle|Hgt].
  - exists xs. split; [done|]. split; [|done]. intros i Hi.
    destruct (decide (i = c)) as [->|]; [|by apply Hup].
    intros x y Hx Hy. rewrite Ea in Hx. injection Hx as <-.
    eapply compare_le_trans; [exact Hle|]. by apply (Hmin c).
  - assert (min_child xs (parent c) = c) as Emc.
    { destruct (decide (min_child xs (parent c) = c)) as [|Hne]; [done|]. exfalso.
      pose proof (proj1 Hup _ Hm0 Hne a b) as He. rewrite Hmp in He. specialize (He Ea Eb). lia. }
    rewrite Emc in *. destruct (Nat.eqb_spec (parent c) 0) as [Hp0|Hp0].
    + eexists. split; [done|]. split; [|apply swap_perm].
      intros i Hi. eapply swap_up_edges; eauto; lia.
    + destruct (IH (swap xs (parent c) c) (parent c)) as (xs' & -> & Ho & Hp);
        [rewrite swap_length; lia|lia|by eapply swap_up_almost; eauto; lia|].
      exists xs'. split; [done|]. split; [done|]. by rewrite Hp, swap_perm.
Qed.

(** One swap on the way down. *)
Lemma swap_down_almost xs r a b :
  let m := min_child xs r in
  almost_down xs r → xs !! r = Some a → xs !! m = Some b → 0 < m → parent m = r →
  (∀ i y, 0 < i → parent i = r → xs !! i = Some y → (compare b y ≤ 0)%Z) →
  (0 < compare a b)%Z → almost_down (swap xs r m) m.
Proof.
  intros m [Hedge Habove] Ea Eb Hm0 Hmp Hmin Hgt.
  assert (r < m) by plia. clearbody m.
  split.
  - intros i Hi Him x y. rewrite !(swap_lookup xs r m a b) by (done || lia).
    rewrite (decide_False (P := parent i = m)) by done. intros Hx Hy.
    destruct (decide (i = m)) as [->|].
    { injection Hy as <-. rewrite decide_True in Hx by done. injection Hx as <-.
      apply compare_le_total. lia. }
    destruct (decide (i = r)) as [->|].
    { injection Hy as <-. rewrite decide_False in Hx by plia.
      by apply (Habove m). }
    destruct (decide (parent i = r)) as [Hpr|]; [injection Hx as <-; by apply (Hmin i)|].
    by apply (Hedge i).
  - intros i x y Hi _ Hip. rewrite Hmp, !(swap_lookup xs r m a b) by (done || lia).
    rewrite (decide_False (P := r = m)), (decide_True (P := r = r)) by (done || lia).
    rewrite (decide_False (P := i = m)), (decide_False (P := i = r)) by plia.
    intros [= <-] Hy. apply (Hedge i); [done|lia|by rewrite Hip|done].
Qed.

(** Sifting down restores the order. *)
Lemma reheap_down_ok fuel xs r :
  0 < fuel → length xs < fuel + r → almost_down xs r →
  ∃ xs', reheap_l fuel xs r DIR_DOWN = Some xs' ∧ heap_ordered xs' ∧ xs' ≡ₚ xs.
Proof.
  revert xs r; induction fuel as [|fuel IH]; intros xs r H0f Hf Hd; [lia|]. cbn [reheap_l].
  destruct (Nat.leb_spec (length xs) (2 * r + 1)).
  { exists xs. split; [done|]. split; [|done]. intros i Hi.
    destruct (decide (parent i = r)) as [Hp|]; [|by apply Hd].
    intros x y _ Hy%lookup_lt_Some. apply children in Hp; lia. }
  destruct (min_child_ok xs r) as (b & Eb & Hm0 & Hmp & Hmin); [lia|].
  destruct (lookup_lt_is_Some_2 xs r) as [a Ea]; [lia|]. unfold reheap_swap_l. rewrite Ea, Eb. cbn [mbind option_bind].
  destruct (Z.leb_spec (compare a b) 0) as [Hle|Hgt].
  - exists xs. split; [done|]. split; [|done]. intros i Hi.
    destruct (decide (parent i = r)) as [Hp|]; [|by apply Hd].
    intros x y Hx Hy. rewrite Hp, Ea in Hx. injection Hx as <-.
    eapply compare_le_trans; [exact Hle|]. by apply (Hmin i).
  - destruct (IH (swap xs r (min_child xs r)) (min_child xs r)) as (xs' & -> & Ho & Hp);
      [apply lookup_lt_Some in Eb; plia|rewrite swap_length; plia|by eapply swap_down_almost|].
    exists xs'. split; [done|]. split; [done|]. by rewrite Hp, swap_perm.
Qed.
End order.

(** ** The array represents the entries *)

Section refine.
Context {A : Type} `{TotalPreorder A}.
Implicit Types (xs : list A) (h : c_heap A).

Record heap_repr h xs : Prop := {
  repr_list : ∃ rest, list_ h = (Some <$> xs) ++ rest;
  repr_len : list_len h = Z.of_nat (length xs);
  repr_size : list_size h = Z.of_nat (length (list_ h));
  repr_bound : list_size h < 2 ^ 62;
}.

Lemma entry_repr h xs rest i :
  list_ h = (Some <$> xs) ++ rest → (i < length xs)%nat → entry h (Z.of_nat i) = xs !! i.
Proof.
  intros El Hi. unfold entry. rewrite El, length_app, length_fmap.
  rewrite (proj2 (Z.leb_le 0 (Z.of_nat i))), (proj2 (Z.ltb_lt _ _)) by lia. simpl.
  rewrite Nat2Z.id, lookup_app_l, list_lookup_fmap by (by rewrite length_fmap).
  destruct (lookup_lt_is_Some_2 xs i Hi) as [x ->]. done.
Qed.

Lemma set_slot_repr xs rest i x :
  (i < length xs)%nat →
  set_slot ((Some <$> xs) ++ rest) (Z.of_nat i) (Some x) = (Some <$> <[i := x]> xs) ++ rest.
Proof.
  intros Hi. unfold set_slot. rewrite Nat2Z.id, insert_app_l by (by rewrite length_fmap).
  by rewrite list_fmap_insert.
Qed.

Lemma u64_index i : 0 ≤ i < 2 ^ 64 → u64 i = i.
Proof. apply u64_small. Qed.

Lemma parent_index (root : nat) :
  (0 < root)%nat → Z.of_nat root < 2 ^ 62 → u64 (Z.of_nat root - 1) / 2 = Z.of_nat (parent root).
Proof.
  intros. rewrite u64_index by lia. unfold parent. rewrite Nat2Z.inj_div. f_equal. lia.
Qed.

Lemma geb_leb (a b : nat) : (Z.of_nat a >=? Z.of_nat b) = (b <=? a)%nat.
Proof. rewrite Z.geb_leb. destruct (Nat.leb_spec b a), (Z.leb_spec (Z.of_nat b) (Z.of_nat a)); lia. Qed.

Lemma reheap_swap_repr rec rec_l h xs rest (root m : nat) dir :
  list_ h = (Some <$> xs) ++ rest → (root < m < length xs)%nat → Z.of_nat (length xs) < 2 ^ 62 →
  (∀ xs' i, length xs' = length xs → Z.of_nat i < 2 ^ 62 →
    rec (set_list h ((Some <$> xs') ++ rest)) (Z.of_nat i) =
      (λ xs'', set_list h ((Some <$> xs'') ++ rest)) <$> rec_l xs' i) →
  reheap_swap rec h (Z.of_nat root) (Z.of_nat m) dir =
    (λ xs', set_list h ((Some <$> xs') ++ rest)) <$> reheap_swap_l rec_l xs root m dir.
Proof.
  intros El [Hrm Hm] Hb Hrec. unfold reheap_swap, reheap_swap_l.
  rewrite !(entry_repr h xs rest) by (done || lia).
  destruct (lookup_lt_is_Some_2 xs root) as [a Ea]; [lia|].
  destruct (lookup_lt_is_Some_2 xs m) as [b Eb]; [lia|]. rewrite Ea, Eb. cbn [mbind option_bind].
  destruct (compare a b <=? 0); [simpl; rewrite <-El; by destruct h|].
  rewrite El, !set_slot_repr by (rewrite ?length_insert; lia).
  replace (<[m := a]> (<[root := b]> xs)) with (swap xs root m)
    by (unfold swap; by rewrite Ea, Eb).
  destruct dir; cbv zeta.
  - destruct (Nat.eqb_spec root 0) as [->|Hr]; [done|].
    rewrite (proj2 (Z.eqb_neq (Z.of_nat root) 0)), parent_index by lia.
    apply Hrec; [apply swap_length|]. unfold parent.
    pose proof (Nat.Div0.div_le_upper_bound (root - 1) 2 root). lia.
  - apply Hrec; [apply swap_length|lia].
Qed.

(** [reheap] on the array is [reheap_l] on the entries it holds. *)
Lemma reheap_repr fuel h xs rest (root : nat) dir :
  list_ h = (Some <$> xs) ++ rest → list_len h = Z.of_nat (length xs) →
  Z.of_nat (length xs) < 2 ^ 62 → Z.of_nat root < 2 ^ 62 →
  reheap fuel h (Z.of_nat root) dir =
    (λ xs', set_list h ((Some <$> xs') ++ rest)) <$> reheap_l fuel xs root dir.
Proof.
  revert h xs root; induction fuel as [|fuel IH]; intros h xs root El Elen Hb Hr; [done|].
  cbn [reheap reheap_l]. rewrite !u64_index by lia.
  replace (2 * Z.of_nat root + 1) with (Z.of_nat (2 * root + 1)) by lia.
  replace (2 * Z.of_nat root + 2) with (Z.of_nat (2 * root + 2)) by lia.
  rewrite Elen, !geb_leb.
  destruct (Nat.leb_spec (length xs) (2 * root + 1)) as [Hn|Hl].
  { rewrite (proj2 (Nat.leb_le (length xs) (2 * root + 2))) by lia. simpl.
    rewrite <-El. by destruct h. }
  assert (∀ m, (root < m < length xs)%nat → 
    reheap_swap (λ h' root', reheap fuel h' root' dir) h (Z.of_nat root) (Z.of_nat m) dir =
    (λ xs', set_list h ((Some <$> xs') ++ rest)) <$>
      reheap_swap_l (λ xs' root', reheap_l fuel xs' root' dir) xs root m dir) as Hmain.
  { intros m Hm. apply reheap_swap_repr; [done..|]. intros xs' i Hlen Hi.
    rewrite (IH _ xs' i); [done|done|by rewrite Hlen|by rewrite Hlen|done]. }
  assert ((Z.of_nat (2 * root + 1) =? 0) = false) as E1 by (apply Z.eqb_neq; lia). rewrite E1.
  unfold min_child. destruct (lookup_lt_is_Some_2 xs (2 * root + 1)) as [a Ea]; [lia|].
  destruct (Nat.leb_spec (length xs) (2 * root + 2)) as [Hn|Hl2].
  - rewrite Ea, (lookup_ge_None_2 xs (2 * root + 2)) by lia. simpl. apply Hmain. lia.
  - assert ((Z.of_nat (2 * root + 2) =? 0) = false) as E2 by (apply Z.eqb_neq; lia). rewrite E2.
    destruct (lookup_lt_is_Some_2 xs (2 * root + 2)) as [b Eb]; [lia|].
    rewrite !(entry_repr h xs rest), Ea, Eb by (done || lia). cbn [andb mbind option_bind].
    destruct (compare a b >? 0); apply Hmain; lia.
Qed.

Lemma realloc_grow xs rest n :
  (length xs ≤ n)%nat →
  ∃ rest', realloc_slots ((Some <$> xs) ++ rest) (Z.of_nat n) = (Some <$> xs) ++ rest' ∧
           (length xs + length rest' = n)%nat.
Proof.
  intros Hn. unfold realloc_slots. rewrite Nat2Z.id, take_app_ge by (by rewrite length_fmap).
  eexists (_ ++ _). rewrite <-app_assoc. split; [done|].
  rewrite !length_app, length_take, length_replicate, !length_fmap. lia.
Qed.

Lemma heap_repr_intro xs rest len sz :
  len = Z.of_nat (length xs) → sz = Z.of_nat (length xs + length rest) → sz < 2 ^ 62 →
  heap_repr (mk_heap ((Some <$> xs) ++ rest) len sz) xs.
Proof.
  intros -> -> Hb. split; simpl; [by eexists|done|by rewrite length_app, length_fmap|done].
Qed.

Lemma ensure_space_ok h xs :
  heap_repr h xs → list_size h + 16 < 2 ^ 62 →
  ∃ slot rest, ensure_space true h =
    inl (mk_heap ((Some <$> xs) ++ slot :: rest) (Z.of_nat (length xs))
                 (Z.of_nat (length xs + S (length rest)))) ∧
    Z.of_nat (length xs + S (length rest)) < 2 ^ 62.
Proof.
  intros [[rest El] Elen Esz Hb] Hb'. unfold ensure_space.
  rewrite El, length_app, length_fmap in Esz.
  destruct (Z.eqb_spec (list_len h) (list_size h)) as [E|E].
  - rewrite El. replace (list_size h + 16) with (Z.of_nat (length xs + 16)) in * by lia.
    destruct (realloc_grow xs rest (length xs + 16)) as (rest' & -> & Hl); [lia|].
    destruct rest' as [|slot rest']; simpl in Hl; [lia|]. exists slot, rest'.
    rewrite Elen. split; [do 2 f_equal; lia|lia].
  - destruct rest as [|slot rest]; simpl in *; [lia|]. exists slot, rest.
    split; [|lia]. destruct h; simpl in *. by subst.
Qed.

Lemma almost_up_snoc xs x : heap_ordered xs → almost_up (xs ++ [x]) (length xs).
Proof.
  intros Ho. split.
  - intros i Hi Hne a b Ha Hb.
    assert (i < length xs)%nat.
    { apply lookup_lt_Some in Hb. rewrite length_app in Hb. simpl in Hb. lia. }
    pose proof (parent_spec i). rewrite lookup_app_l in Ha, Hb by lia. by apply (Ho i).
  - intros i a b Hi Hp _ Hb%lookup_lt_Some. exfalso. rewrite length_app in Hb. simpl in Hb.
    pose proof (parent_spec i). lia.
Qed.

Lemma heap_insert_ok h xs x :
  heap_repr h xs → heap_ordered xs → list_size h + 16 < 2 ^ 62 →
  ∃ h' xs', c_heap_insert true h x = Some (0, h') ∧ heap_repr h' xs' ∧ heap_ordered xs' ∧
            xs' ≡ₚ x :: xs ∧
            list_size h' = (if list_len h =? list_size h then list_size h + 16 else list_size h).
Proof.
  intros Hr Ho Hb. destruct (ensure_space_ok h xs Hr Hb) as (slot & rest & Es & Hsz).
  assert (Z.of_nat (length xs + S (length rest)) =
    (if list_len h =? list_size h then list_size h + 16 else list_size h)) as Hle.
  { unfold ensure_space in Es. repeat case_match; simplify_eq; simpl; lia. }
  unfold c_heap_insert. destruct Hr as [[rest0 El] Elen Esz _].
  rewrite (option_guard_True (list_len h ≤ list_size h))
    by (rewrite Elen, Esz, El, length_app, length_fmap; lia).
  rewrite Es. simpl list_len. simpl list_. simpl list_size. cbv zeta.
  assert (set_slot ((Some <$> xs) ++ slot :: rest) (Z.of_nat (length xs)) (Some x) =
    (Some <$> (xs ++ [x])) ++ rest) as E2.
  { unfold set_slot. rewrite Nat2Z.id, insert_app_r_alt by (by rewrite length_fmap).
    rewrite length_fmap, Nat.sub_diag, fmap_app, <-app_assoc. done. }
  rewrite E2. clear E2. set (h2 := mk_heap _ _ _).
  assert (list_ h2 = (Some <$> (xs ++ [x])) ++ rest) as El2 by done.
  assert (length (xs ++ [x]) = S (length xs)) as El3 by (rewrite length_app; simpl; lia).
  assert (∃ xs', reheap (heap_fuel h2) h2 (u64 (Z.of_nat (length xs) - 1) / 2) DIR_UP =
     Some (set_list h2 ((Some <$> xs') ++ rest)) ∧ heap_ordered xs' ∧ xs' ≡ₚ xs ++ [x])
    as (xs' & -> & Ho' & Hp).
  { destruct (decide (length xs = 0%nat)) as [E0|E0].
    - apply nil_length_inv in E0. subst xs. exists [x]. split; [|split; [|done]].
      + reflexivity.
      + intros i Hi a b _ Hy%lookup_lt_Some. simpl in Hy. lia.
    - rewrite parent_index by lia.
      pose proof (parent_spec (length xs)).
      rewrite (reheap_repr _ h2 (xs ++ [x]) rest); [|done|simpl; lia|lia|lia].
      destruct (reheap_up_ok (heap_fuel h2) (xs ++ [x]) (length xs)) as (xs' & -> & ? & ?);
        [lia|unfold heap_fuel; simpl; lia|by apply almost_up_snoc|]. by exists xs'. }
  eexists _, xs'. split; [done|]. simpl. pose proof (Permutation_length Hp).
  split; [apply heap_repr_intro; unfold h2; simpl; lia|].
  split; [done|]. split; [by rewrite Hp, Permutation_app_comm|done].
Qed.

Lemma heap_root_min xs x i y :
  heap_ordered xs → xs !! 0%nat = Some x → xs !! i = Some y → compare x y ≤ 0.
Proof.
  intros Ho Hx. revert y. induction i as [i IH] using lt_wf_ind. intros y Hy.
  destruct (decide (i = 0)%nat) as [->|Hi]; [rewrite Hx in Hy; injection Hy as <-; apply compare_le_refl|].
  pose proof (parent_spec i). pose proof (lookup_lt_Some _ _ _ Hy).
  destruct (lookup_lt_is_Some_2 xs (parent i)) as [z Hz]; [lia|].
  eapply compare_le_trans; [by apply (IH (parent i)); [lia|]|]. by apply (Ho i); [lia|..].
Qed.

Lemma shrink_repr ok h xs : heap_repr h xs → heap_repr (shrink ok h) xs ∧ list_size (shrink ok h) ≤ list_size h.
Proof.
  intros Hr. unfold shrink. destruct (_ && _) eqn:E; [|split; [done|lia]]. breflect.
  destruct Hr as [[rest El] Elen Esz Hb]. rewrite El.
  replace (list_len h + 16) with (Z.of_nat (length xs + 16)) in * by lia.
  destruct (realloc_grow xs rest (length xs + 16)) as (rest' & -> & Hl); [lia|].
  split; [apply heap_repr_intro; lia|simpl; lia].
Qed.

Lemma almost_down_replace (x y : A) xs :
  heap_ordered (x :: xs ++ [y]) → almost_down (y :: xs) 0.
Proof.
  intros Ho. split; [|lia]. intros i Hi Hp a b Ha Hb.
  destruct (parent i) as [|q] eqn:Ep; [done|]. simpl in Ha.
  destruct i as [|i]; [lia|]. simpl in Hb.
  pose proof (lookup_lt_Some _ _ _ Ha). pose proof (lookup_lt_Some _ _ _ Hb).
  apply (Ho (S i)); [lia|rewrite Ep|]; simpl; by rewrite lookup_app_l.
Qed.

Lemma get_root_ok ok h x xs :
  heap_repr h (x :: xs) → heap_ordered (x :: xs) →
  ∃ h' xs', c_heap_get_root ok h = Some (Some x, h') ∧ heap_repr h' xs' ∧ heap_ordered xs' ∧
            xs' ≡ₚ xs ∧ list_size h' ≤ list_size h.
Proof.
  intros Hr Ho. destruct (Hr) as [[rest El] Elen Esz Hb].
  assert (entry h 0 = Some x) as E0 by (apply (entry_repr h (x :: xs) rest 0 El); simpl; lia).
  rewrite El, length_app, length_fmap in Esz. simpl in Elen, Esz.
  unfold c_heap_get_root. rewrite (proj2 (Z.eqb_neq _ _)), E0 by lia. cbn [mbind option_bind].
  destruct xs as [|y xs _] using rev_ind.
  - rewrite (proj2 (Z.eqb_eq _ _)) by (simpl in Elen; lia). rewrite El. simpl.
    destruct (shrink_repr ok (mk_heap (None :: rest) 0 (list_size h)) []) as [Hr' Hle].
    { apply (heap_repr_intro [] (None :: rest)); simpl in *; lia. }
    eexists _, []. split; [reflexivity|]. split; [exact Hr'|]. split; [intros i Hi a b _ Hy; done|].
    split; [done|exact Hle].
  - rewrite length_app in Elen, Esz. simpl in Elen, Esz.
    rewrite (proj2 (Z.eqb_neq _ _)) by lia.
    replace (list_len h - 1) with (Z.of_nat (S (length xs))) by lia.
    assert (entry h (Z.of_nat (S (length xs))) = Some y) as ->.
    { rewrite (entry_repr h _ rest _ El) by (simpl; rewrite length_app; simpl; lia).
      simpl. by rewrite lookup_app_r, Nat.sub_diag. }
    cbn [mbind option_bind]. cbv zeta.
    assert (set_slot (set_slot (list_ h) 0 (Some y)) (Z.of_nat (S (length xs))) None =
      (Some <$> (y :: xs)) ++ None :: rest) as ->.
    { rewrite El. unfold set_slot. rewrite Nat2Z.id. simpl. f_equal.
      rewrite fmap_app, <-app_assoc, insert_app_r_alt by (by rewrite length_fmap).
      by rewrite length_fmap, Nat.sub_diag. }
    set (h1 := mk_heap _ _ _).
    destruct (reheap_down_ok (heap_fuel h1) (y :: xs) 0) as (xs' & Ed & Ho' & Hp);
      [unfold heap_fuel; lia|unfold heap_fuel; simpl; lia|by eapply almost_down_replace|].
    rewrite (reheap_repr _ h1 (y :: xs) (None :: rest) 0%nat), Ed by (done || (simpl; lia)).
    cbn [mbind option_bind fmap option_fmap option_map].
    pose proof (Permutation_length Hp) as Hlen. simpl in Hlen.
    destruct (shrink_repr ok (set_list h1 ((Some <$> xs') ++ None :: rest)) xs') as [Hr' Hle].
    { apply heap_repr_intro; unfold h1; simpl; lia. }
    eexists _, xs'. split; [reflexivity|]. split; [exact Hr'|]. split; [done|].
    split; [|exact Hle]. by rewrite Hp, Permutation_app_comm.
Qed.
End refine.

(** ** Filling and draining *)

Section queue.
Context {A : Type} `{Comparator A}.

Fixpoint insert_all (h : c_heap A) (xs : list A) : option (c_heap A) :=
  match xs with
  | [] => Some h
  | x :: xs' => '(_, h') ← c_heap_insert true h x; insert_all h' xs'
  end.

(** [while ((p = c_heap_get_root (h)) != NULL)] *)
Fixpoint drain (fuel : nat) (h : c_heap A) : option (list A) :=
  match fuel with
  | O => None
  | S fuel =>
      '(r, h') ← c_heap_get_root true h;
      match r with
      | None => Some []
      | Some x => cons x <$> drain fuel h'
      end
  end.
End queue.

Lemma insert_all_ok `{TotalPreorder A} (ys : list A) h xs :
  heap_repr h xs → heap_ordered xs → list_size h + 16 * Z.of_nat (length ys) < 2 ^ 62 →
  ∃ h' xs', insert_all h ys = Some h' ∧ heap_repr h' xs' ∧ heap_ordered xs' ∧ xs' ≡ₚ ys ++ xs.
Proof.
  revert h xs; induction ys as [|y ys IH]; intros h xs Hr Ho Hb; simpl; [by exists h, xs|].
  simpl in Hb. destruct (heap_insert_ok h xs y Hr Ho) as (h1 & xs1 & -> & Hr1 & Ho1 & Hp1 & Hs1); [lia|].
  assert (list_size h1 ≤ list_size h + 16) by (rewrite Hs1; case_match; lia).
  destruct (IH h1 xs1 Hr1 Ho1) as (h2 & xs2 & ? & ? & ? & Hp2); [lia|].
  exists h2, xs2. split; [done|]. split; [done|]. split; [done|].
  rewrite Hp2, Hp1. symmetry. apply Permutation_middle.
Qed.

Definition heap_le `{Comparator A} (a b : A) : Prop := compare a b ≤ 0.

Lemma drain_ok `{TotalPreorder A} fuel h (xs : list A) :
  (length xs < fuel)%nat → heap_repr h xs → heap_ordered xs →
  ∃ out, drain fuel h = Some out ∧ StronglySorted heap_le out ∧ out ≡ₚ xs.
Proof.
  revert h xs; induction fuel as [|fuel IH]; intros h xs Hf Hr Ho; [lia|]. simpl.
  destruct xs as [|x xs].
  - exists []. unfold c_heap_get_root. rewrite (repr_len _ _ Hr). simpl. by repeat constructor.
  - destruct (get_root_ok true h x xs Hr Ho) as (h' & xs' & -> & Hr' & Ho' & Hp & _). simpl.
    simpl in Hf. destruct (IH h' xs') as (out & -> & Hs & Hpo);
      [rewrite (Permutation_length Hp); lia|done|done|].
    exists (x :: out). split; [done|]. split; [|by rewrite Hpo, Hp].
    constructor; [done|]. apply list.Forall_forall. intros y Hy.
    assert (y ∈ xs) as [i Hi]%list_elem_of_lookup by (by rewrite <-Hp, <-Hpo).
    by apply (heap_root_min (x :: xs) x (S i) y).
Qed.

Lemma heap_ordered_single `{TotalPreorder A} (x : A) : heap_ordered [x].
Proof. intros i Hi a b _ Hy%lookup_lt_Some. simpl in Hy. lia. Qed.

(** ** Properties *)

(** C28 (functional): inserting any entries into a fresh heap and reading
    the root until the heap is empty returns exactly those entries, sorted
    by [compare]; no comparison touches an uninitialised slot and both
    loops end. *)
Theorem heap_sorts (A : Type) `{TotalPreorder A} (xs : list A) :
  16 * Z.of_nat (length xs) < 2 ^ 62 →
  ∃ h out, insert_all c_heap_create xs = Some h ∧ drain (S (length xs)) h = Some out ∧
           StronglySorted heap_le out ∧ out ≡ₚ xs.
Proof.
  intros Hb. destruct (insert_all_ok xs c_heap_create []) as (h & ys & Ei & Hr & Ho & Hp);
    [split; simpl; [by exists []|done..]|intros i Hi a b; done|simpl; lia|].
  rewrite app_nil_r in Hp.
  destruct (drain_ok (S (length xs)) h ys) as (out & Ed & Hs & Hpo);
    [rewrite (Permutation_length Hp); lia|done|done|].
  exists h, out. repeat split; auto. by rewrite Hpo.
Qed.

Lemma heap_sorts_witness :
  ∃ h out, insert_all c_heap_create [5; 3; 8; 3] = Some h ∧ drain 5 h = Some out ∧
           StronglySorted heap_le out ∧ out ≡ₚ [5; 3; 8; 3].
Proof. apply (heap_sorts Z [5; 3; 8; 3]). vm_compute. reflexivity. Defined.

(** [c_heap_insert] keeps the heap ordered and adds exactly
    the new pointer; when the array is full and cannot grow it returns
    -ENOMEM and changes nothing. *)
Theorem heap_insert_spec (A : Type) `{TotalPreorder A} (h : c_heap A) xs x (ok : bool) :
  heap_repr h xs → heap_ordered xs → list_size h + 16 < 2 ^ 62 →
  if negb ok && (list_len h =? list_size h)
  then c_heap_insert ok h x = Some (- ENOMEM, h)
  else ∃ h' xs', c_heap_insert ok h x = Some (0, h') ∧ heap_repr h' xs' ∧ heap_ordered xs' ∧
                 xs' ≡ₚ x :: xs.
Proof.
  intros Hr Ho Hb.
  assert (list_len h ≤ list_size h) as Hle.
  { destruct Hr as [[rest El] Elen Esz _]. rewrite Elen, Esz, El, length_app, length_fmap. lia. }
  destruct (heap_insert_ok h xs x Hr Ho Hb) as (h' & xs' & Ei & ? & ? & ? & _).
  destruct ok; simpl; [by exists h', xs'|].
  unfold c_heap_insert, ensure_space in *. rewrite (option_guard_True _) in * by done.
  destruct (list_len h =? list_size h); [done|by exists h', xs'].
Qed.

Lemma heap_insert_spec_witness :
  ∃ h' xs', c_heap_insert false (mk_heap [Some 4; None] 1 2) 3 = Some (0, h') ∧ heap_repr h' xs' ∧
            heap_ordered xs' ∧ xs' ≡ₚ [3; 4].
Proof.
  apply (heap_insert_spec Z (mk_heap [Some 4; None] 1 2) [4] 3 false); [|apply heap_ordered_single|done].
  split; simpl; [by exists [None]|done..].
Defined.

(** [c_heap_get_root] on a heap with entries returns one
    that no other precedes and leaves the others, still in heap order. *)
Theorem heap_get_root_spec (A : Type) `{TotalPreorder A} (h : c_heap A) xs (ok : bool) :
  heap_repr h xs → heap_ordered xs → xs ≠ [] →
  ∃ x h' xs', c_heap_get_root ok h = Some (Some x, h') ∧ heap_repr h' xs' ∧ heap_ordered xs' ∧
              xs ≡ₚ x :: xs' ∧ Forall (heap_le x) xs'.
Proof.
  intros Hr Ho Hne. destruct xs as [|x xs]; [done|].
  destruct (get_root_ok ok h x xs Hr Ho) as (h' & xs' & ? & ? & ? & Hp & _).
  exists x, h', xs'. split; [done|]. split; [done|]. split; [done|]. split; [by rewrite Hp|].
  apply list.Forall_forall; intros y Hy.
  assert (y ∈ xs) as [i Hi]%list_elem_of_lookup by (by rewrite <-Hp).
  by apply (heap_root_min (x :: xs) x (S i) y).
Qed.

Lemma heap_get_root_spec_witness :
  ∃ x h' xs', c_heap_get_root true (mk_heap [Some 4; None] 1 2) = Some (Some x, h') ∧
    heap_repr h' xs' ∧ heap_ordered xs' ∧ [4] ≡ₚ x :: xs' ∧ Forall (heap_le x) xs'.
Proof.
  apply (heap_get_root_spec Z (mk_heap [Some 4; None] 1 2) [4] true); [|apply heap_ordered_single|done].
  split; simpl; [by exists [None]|done..].
Defined.
