(* ===== verification/StrBuf.v ===== *)
(** * String buffers (src/utils/strbuf/strbuf.c)

    [ptr] is the allocated array ([None] for NULL); bytes that were never
    written are represented by NUL, and no theorem depends on them.  Sizes
    are [nat]: a buffer cannot outgrow the address space.  [_SC_PAGESIZE] is
    the parameter [sysconf_pagesize]. *)

From Stdlib Require Import ZArith Lia Ascii String.
From stdpp Require Import base list numbers strings.
From S2P Require Import Prelude.

Record strbuf_t : Type := mk_strbuf {
  ptr : option (list ascii);
  pos : nat;
  bufsize : nat;
  fixed : bool;
}.

(** The answer of [sysconf (_SC_PAGESIZE)]. *)
Class Sysconf : Type := sysconf_pagesize : Z.

Definition STRBUF_CREATE : strbuf_t := mk_strbuf None 0 0 false.
Definition strbuf_create : M (option strbuf_t) :=
  let* ok := alloc in ret (if ok then Some (mk_strbuf None 0 0 false) else None).
Definition STRBUF_CREATE_FIXED (b : list ascii) (sz : nat) : strbuf_t := mk_strbuf (Some b) 0 sz true.
Definition strbuf_create_fixed (buffer : list ascii) (buffer_size : nat) : M (option strbuf_t) :=
  let* ok := alloc in ret (if ok then Some (mk_strbuf (Some buffer) 0 buffer_size true) else None).

(** [memmove] of [bs] to [l + i]. *)
Definition blit (l : list ascii) (i : nat) (bs : list ascii) : list ascii :=
  take i l ++ bs ++ drop (i + length bs) l.

(** The C string at the start of an array. *)
Definition c_str (l : list ascii) : cstr := take (span_len (λ c, negb (bool_decide (c = NUL))) l) l.

Section strbuf.
Context `{Sysconf}.
Local Open Scope nat_scope.

Definition strbuf_avail (buf : strbuf_t) : M nat :=
  if bufsize buf =? 0 then ret 0
  else let* _ := massert (pos buf <? bufsize buf) in ret (bufsize buf - (pos buf + 1)).

Definition strbuf_pagesize : nat :=
  let tmp := sysconf_pagesize in if (tmp >=? 1)%Z then Z.to_nat tmp else 1024.

(** [realloc (buf->ptr, new_size)] *)
Definition realloc_bytes (p : option (list ascii)) (new_size : nat) : list ascii :=
  let l := default [] p in take new_size l ++ replicate (new_size - length l) NUL.

Definition grown_size (buf : strbuf_t) (need : nat) : nat :=
  let new_size :=
    if bufsize buf =? 0 then 512
    else if bufsize buf <? strbuf_pagesize then 2 * bufsize buf
    else
      let pages := (bufsize buf + strbuf_pagesize - 1) / strbuf_pagesize in
      (pages + 1) * strbuf_pagesize in
  if new_size <? pos buf + need + 1 then pos buf + need + 1 else new_size.

Definition strbuf_resize (buf : strbuf_t) (need : nat) : M (Z * strbuf_t) :=
  if fixed buf then ret (0%Z, buf)
  else
    let* avail := strbuf_avail buf in
    if need <? avail then ret (0%Z, buf)
    else
      let new_size := grown_size buf need in
      let* ok := alloc in
      if negb ok then ret (ENOMEM, buf)
      else ret (0%Z, mk_strbuf (Some (realloc_bytes (ptr buf) new_size)) (pos buf) new_size (fixed buf)).

Definition strbuf_reset (buf : strbuf_t) : M strbuf_t :=
  let* _ := massert (match ptr buf with Some l => 0 <? length l | None => true end) in
  let buf0 :=
    mk_strbuf ((λ l, <[0 := NUL]> l) <$> ptr buf) 0 (bufsize buf) (fixed buf) in
  if fixed buf then ret buf0
  else
    let new_size := strbuf_pagesize in
    if new_size <? bufsize buf then
      let* ok := alloc in
      if ok then ret (mk_strbuf (Some (realloc_bytes (ptr buf0) new_size)) 0 new_size (fixed buf))
      else ret buf0
    else ret buf0.

(** The common tail of the print functions: [bytes] of [s] are copied, the
    position advances and the terminating NUL is written. *)
Definition append_bytes (buf : strbuf_t) (s : list ascii) : M (Z * strbuf_t) :=
  let* bytes := strbuf_avail buf in
  if bytes =? 0 then ret (ENOSPC, buf)
  else
    let bytes := if length s <? bytes then length s else bytes in
    let* l := mopt (ptr buf) in
    let* _ := massert (pos buf + bytes <? length l) in
    let l' := blit l (pos buf) (take bytes s) in
    ret (0%Z, mk_strbuf (Some (<[pos buf + bytes := NUL]> l')) (pos buf + bytes) (bufsize buf) (fixed buf)).

Definition strbuf_print (buf : strbuf_t) (s : cstr) : M (Z * strbuf_t) :=
  let* '(status, buf) := strbuf_resize buf (length s) in
  if bool_decide (status ≠ 0%Z) then ret (status, buf) else append_bytes buf s.

(** [strbuf_printf], with [s] the text the format expands to. *)
Definition strbuf_printf (buf : strbuf_t) (s : cstr) : M (Z * strbuf_t) :=
  if length s =? 0 then ret (0%Z, buf)
  else
    let* '(status, buf) := strbuf_resize buf (length s) in
    if bool_decide (status ≠ 0%Z) then ret (status, buf) else append_bytes buf s.

Definition strbuf_printn (buf : strbuf_t) (s : cstr) (n : nat) : M (Z * strbuf_t) :=
  if n =? 0 then ret (0%Z, buf)
  else
    let s := take n s in   (* s_len = strnlen (s, n) *)
    let* '(status, buf) := strbuf_resize buf (length s) in
    if bool_decide (status ≠ 0%Z) then ret (status, buf) else append_bytes buf s.

Definition escaped_char (escape_char c : ascii) : ascii :=
  if bool_decide (escape_char = "\"%char) then
    if bool_decide (c = "010"%char) then "n"%char
    else if bool_decide (c = "013"%char) then "r"%char
    else if bool_decide (c = "009"%char) then "t"%char
    else c
  else c.

Fixpoint print_escaped_loop (fuel : nat) (buf : strbuf_t) (s need_escape : cstr) (escape_char : ascii)
    : M (Z * strbuf_t) :=
  match s, fuel with
  | [], _ => ret (0%Z, buf)
  | _, O => crash
  | c :: s', S fuel =>
      let valid_len := strcspn s need_escape in
      if valid_len =? length s then strbuf_print buf s
      else if negb (valid_len =? 0) then
        let* '(status, buf) := strbuf_printn buf s valid_len in
        if bool_decide (status ≠ 0%Z) then ret (status, buf)
        else print_escaped_loop fuel buf (drop valid_len s) need_escape escape_char
      else
        let* avail := strbuf_avail buf in
        if fixed buf && (avail <? 2) then ret (0%Z, buf)
        else
          let* '(status, buf) := strbuf_print buf [escape_char; escaped_char escape_char c] in
          if bool_decide (status ≠ 0%Z) then ret (status, buf)
          else print_escaped_loop fuel buf s' need_escape escape_char
  end.

Definition strbuf_print_escaped (buf : strbuf_t) (s need_escape : cstr) (escape_char : ascii)
    : M (Z * strbuf_t) :=
  if bool_decide (escape_char = NUL) then ret (EINVAL, buf)
  else print_escaped_loop (length s) buf s need_escape escape_char.
End strbuf.

(** ** Invariant and contents *)

Definition text (buf : strbuf_t) : cstr := take (pos buf) (default [] (ptr buf)).

Definition strbuf_wf (buf : strbuf_t) : Prop :=
  match ptr buf with
  | None => bufsize buf = 0%nat ∧ pos buf = 0%nat
  | Some l => length l = bufsize buf ∧ (pos buf ≤ bufsize buf - 1)%nat
  end.

(** The text is followed by a NUL. *)
Definition terminated (buf : strbuf_t) : Prop :=
  ∃ l, ptr buf = Some l ∧ l !! pos buf = Some NUL.

(** How many more bytes fit. *)
Definition room (buf : strbuf_t) : nat := bufsize buf - (pos buf + 1).

Lemma c_str_app s rest : no_nul s → c_str (s ++ NUL :: rest) = s.
Proof.
  intros Hn. unfold c_str. rewrite span_len_app_stop; [by rewrite take_app_length| |done].
  eapply list.Forall_impl; [exact Hn|]. intros c Hc. by rewrite bool_decide_false.
Qed.

Lemma c_str_terminated buf :
  terminated buf → no_nul (text buf) → c_str <$> ptr buf = Some (text buf).
Proof.
  intros (l & El & Hl) Hn. unfold text in *. rewrite El in *. simpl in *. f_equal.
  rewrite <-(c_str_app (take (pos buf) l) (drop (S (pos buf)) l)) by done.
  by rewrite take_drop_middle.
Qed.

Lemma length_blit l i bs : (i + length bs ≤ length l)%nat → length (blit l i bs) = length l.
Proof. intros ?. unfold blit. rewrite !length_app, length_take, length_drop. lia. Qed.

Lemma take_blit l i bs :
  (i + length bs ≤ length l)%nat → take (i + length bs) (blit l i bs) = take i l ++ bs.
Proof.
  intros ?. unfold blit. rewrite app_assoc, take_app_le; [apply take_ge|];
    rewrite length_app, length_take; lia.
Qed.

Section props.
Context `{Sysconf}.
Local Open Scope nat_scope.

Lemma avail_ok buf : strbuf_wf buf → strbuf_avail buf = ret (room buf).
Proof.
  unfold strbuf_wf, strbuf_avail, room. intros Hw.
  destruct (Nat.eqb_spec (bufsize buf) 0) as [E|E]; [f_equal; lia|].
  destruct (Nat.ltb_spec (pos buf) (bufsize buf)) as [|Hge]; [done|].
  exfalso. destruct (ptr buf); destruct Hw; lia.
Qed.

Lemma grown_size_enough buf need : pos buf + need + 1 ≤ grown_size buf need.
Proof. unfold grown_size. case_match eqn:E; [lia|]. apply Nat.ltb_ge in E. done. Qed.

(** Growing keeps the text and makes room; on failure nothing changes. *)
Definition resized (buf : strbuf_t) (need : nat) (buf' : strbuf_t) : Prop :=
  strbuf_wf buf' ∧ text buf' = text buf ∧ pos buf' = pos buf ∧ fixed buf' = fixed buf ∧
  (fixed buf = true → buf' = buf) ∧
  (fixed buf = false → need ≤ room buf' ∧ 0 < room buf').

Lemma grown_size_grows buf need :
  strbuf_wf buf → bufsize buf < grown_size buf need ∧ pos buf + 1 < grown_size buf need.
Proof.
  intros Hw. assert (pos buf ≤ bufsize buf - 1) as Hp.
  { unfold strbuf_wf in Hw. destruct (ptr buf); destruct Hw; lia. }
  enough (bufsize buf < grown_size buf need ∧ (bufsize buf = 0 → 2 ≤ grown_size buf need)) by lia.
  assert (0 < strbuf_pagesize) as Hps.
  { unfold strbuf_pagesize. destruct (Z.geb_spec sysconf_pagesize 1); lia. }
  assert (bufsize buf ≤ (bufsize buf + strbuf_pagesize - 1) / strbuf_pagesize * strbuf_pagesize) as Hpages.
  { pose proof (Nat.div_mod_eq (bufsize buf + strbuf_pagesize - 1) strbuf_pagesize).
    pose proof (Nat.mod_upper_bound (bufsize buf + strbuf_pagesize - 1) strbuf_pagesize).
    nia. }
  unfold grown_size.
  destruct (Nat.eqb_spec (bufsize buf) 0), (Nat.ltb_spec (bufsize buf) strbuf_pagesize);
    case_match eqn:E; try apply Nat.ltb_lt in E; nia.
Qed.

Lemma realloc_resized buf need :
  strbuf_wf buf → fixed buf = false →
  resized buf need (mk_strbuf (Some (realloc_bytes (ptr buf) (grown_size buf need))) (pos buf)
                              (grown_size buf need) (fixed buf)).
Proof.
  intros Hw Hf. pose proof (grown_size_enough buf need). pose proof (grown_size_grows buf need Hw) as [? ?].
  unfold resized, strbuf_wf, text, room, realloc_bytes in *. simpl. rewrite Hf.
  rewrite length_app, length_take, length_replicate.
  split_and!; try done; try (intros _); try lia.
  destruct (ptr buf) as [l|]; simpl; destruct Hw as [Hl Hp];
    [|by rewrite Hp, !take_0].
  rewrite take_app_le by (rewrite length_take; lia). rewrite take_take. f_equal. lia.
Qed.

Lemma resized_refl buf need :
  strbuf_wf buf → fixed buf = true ∨ need < room buf → resized buf need buf.
Proof. intros Hw Hor. unfold resized. split_and!; try done; destruct Hor; try congruence; lia. Qed.

Lemma resize_wp buf need :
  strbuf_wf buf →
  wp (strbuf_resize buf need) (λ '(st, b),
    st = 0%Z ∧ resized buf need b ∨ st = ENOMEM ∧ fixed buf = false ∧ b = buf).
Proof.
  intros Hw. unfold strbuf_resize. destruct (fixed buf) eqn:Hf.
  { apply wp_ret. left. auto using resized_refl. }
  rewrite avail_ok by done. apply wp_bind, wp_ret.
  destruct (Nat.ltb_spec need (room buf)).
  { apply wp_ret. left. auto using resized_refl. }
  apply wp_bind, wp_alloc. intros []; simpl; apply wp_ret; [|auto].
  left. split; [done|]. rewrite <-Hf. by apply realloc_resized.
Qed.

Lemma resize_yields buf need :
  strbuf_wf buf → ∃ b, strbuf_resize buf need ⇓ (0%Z, b) ∧ resized buf need b.
Proof.
  intros Hw. unfold strbuf_resize. destruct (fixed buf) eqn:Hf.
  { exists buf. auto using resized_refl, yields_ret. }
  rewrite avail_ok by done. unfold bind, ret, yields. simpl.
  destruct (Nat.ltb_spec need (room buf)).
  { exists buf. auto using resized_refl. }
  eexists. split; [reflexivity|]. rewrite <-Hf. by apply realloc_resized.
Qed.

(** The outcome of a successful append of [s]. *)
Definition appended (buf : strbuf_t) (s : cstr) (buf' : strbuf_t) : Prop :=
  strbuf_wf buf' ∧ terminated buf' ∧ fixed buf' = fixed buf ∧
  (fixed buf = true → bufsize buf' = bufsize buf) ∧
  text buf' = text buf ++ (if fixed buf then take (room buf) s else s).

Lemma append_bytes_ok buf s :
  strbuf_wf buf → 0 < room buf →
  ∃ b, append_bytes buf s = ret (0%Z, b) ∧ strbuf_wf b ∧ terminated b ∧ fixed b = fixed buf ∧
       bufsize b = bufsize buf ∧ text b = text buf ++ take (room buf) s.
Proof.
  intros Hw Hr. unfold append_bytes. rewrite avail_ok by done.
  unfold bind, ret. destruct (Nat.eqb_spec (room buf) 0) as [|_]; [lia|].
  set (n := if length s <? room buf then length s else room buf).
  assert (n = length (take (room buf) s)) as Hn.
  { unfold n. rewrite length_take. destruct (Nat.ltb_spec (length s) (room buf)); lia. }
  assert (take n s = take (room buf) s) as Htk.
  { unfold n. destruct (Nat.ltb_spec (length s) (room buf)); [|done]. rewrite !take_ge; lia || done. }
  unfold strbuf_wf, text, room in *. destruct (ptr buf) as [l|] eqn:El; simpl;
    destruct Hw as [Hl Hp]; [|lia].
  pose proof (length_take s (bufsize buf - (pos buf + 1))) as Hlt.
  replace (pos buf + n <? length l) with true by (symmetry; apply Nat.ltb_lt; lia). simpl.
  eexists. split; [reflexivity|]. simpl. rewrite Htk, Hn.
  rewrite length_insert, length_blit by lia. split_and!; [lia|lia| |done|done|].
  - eexists. split; [reflexivity|]. simpl. apply list_lookup_insert_eq. rewrite length_blit; lia.
  - rewrite take_insert_ge by lia. apply take_blit. lia.
Qed.

(** What every print function does, whatever the allocator answers. *)
Inductive printed (buf : strbuf_t) (s : cstr) : Z * strbuf_t → Prop :=
  | printed_ok buf' : appended buf s buf' → printed buf s (0%Z, buf')
  | printed_nomem : fixed buf = false → printed buf s (ENOMEM, buf)
  | printed_nospc : fixed buf = true → room buf = 0 → printed buf s (ENOSPC, buf).

Lemma append_resized buf b s :
  strbuf_wf buf → resized buf (length s) b → 
  ∃ r, append_bytes b s = ret r ∧ printed buf s r ∧ (fixed buf = false → r.1 = 0%Z).
Proof.
  intros Hw (Hwb & Ht & Hp & Hf & Hfix & Hdyn). destruct (fixed buf) eqn:E.
  - rewrite Hfix by done. destruct (decide (room buf = 0)) as [Hr|Hr].
    + exists (ENOSPC, buf). unfold append_bytes. rewrite avail_ok by done.
      unfold bind, ret. rewrite Hr. simpl. split_and!; [done|by constructor|done].
    + destruct (append_bytes_ok buf s) as (b' & Hb' & ? & ? & ? & ? & Htx); [done|lia|].
      exists (0%Z, b'). split_and!; [done| |done]. constructor. split_and!; try done.
      by rewrite E.
  - destruct Hdyn as [Hn Hr]; [done|].
    destruct (append_bytes_ok b s) as (b' & Hb' & ? & ? & ? & ? & Htx); [done|lia|].
    exists (0%Z, b'). split_and!; [done| |done]. constructor. split_and!; try done; [congruence|congruence|].
    rewrite E, Htx, Ht, take_ge by lia. done.
Qed.

Lemma print_wp buf s : strbuf_wf buf → wp (strbuf_print buf s) (printed buf s).
Proof.
  intros Hw. unfold strbuf_print. apply wp_bind. eapply wp_mono; [by apply resize_wp|].
  intros [st b] [[-> Hr]|(-> & Hf & ->)]; simpl.
  - destruct (append_resized buf b s) as (r & -> & ? & _); auto using wp_ret.
  - apply wp_ret. by constructor.
Qed.

Lemma print_yields buf s :
  strbuf_wf buf → fixed buf = false → ∃ b, strbuf_print buf s ⇓ (0%Z, b) ∧ appended buf s b.
Proof.
  intros Hw Hf. destruct (resize_yields buf (length s) Hw) as (b & Hb & Hr).
  destruct (append_resized buf b s) as ([st b'] & Ha & Hp & Hz); [done..|].
  specialize (Hz Hf). simpl in Hz. subst st. exists b'. split.
  - unfold strbuf_print. eapply yields_bind; [exact Hb|]. simpl. by rewrite Ha.
  - inversion Hp; congruence.
Qed.

Lemma printn_print buf s n : n ≠ 0 → strbuf_printn buf s n = strbuf_print buf (take n s).
Proof. intros Hn. unfold strbuf_printn. by destruct (Nat.eqb_spec n 0). Qed.

Lemma printf_print buf s : s ≠ [] → strbuf_printf buf s = strbuf_print buf s.
Proof. intros Hs. by destruct s. Qed.

(** *** Escaping *)

Definition escape_chr (need_escape : cstr) (e c : ascii) : cstr :=
  if chr_mem need_escape c then [e; escaped_char e c] else [c].
Definition escape_text (need_escape : cstr) (e : ascii) (s : cstr) : cstr :=
  s ≫= escape_chr need_escape e.

Lemma escape_plain need e s :
  Forall (λ c, negb (chr_mem need c) = true) s → escape_text need e s = s.
Proof.
  unfold escape_text. induction 1 as [|c s Hc _ IH]; [done|].
  rewrite bind_cons, IH. unfold escape_chr. apply negb_true_iff in Hc. by rewrite Hc.
Qed.

Lemma escape_split need e s n :
  escape_text need e s = escape_text need e (take n s) ++ escape_text need e (drop n s).
Proof. unfold escape_text. by rewrite <-bind_app, take_drop. Qed.

(** One pass of the loop: a run that needs no escape, or one escaped character. *)
Inductive escape_step (need : cstr) (e : ascii) (s : cstr) : nat → cstr → Prop :=
  | step_run n : n = strcspn s need → n ≠ 0 → n ≠ length s →
      escape_text need e (take n s) = take n s → escape_step need e s n (take n s)
  | step_chr c s' : s = c :: s' → strcspn s need = 0 →
      escape_text need e [c] = [e; escaped_char e c] →
      escape_step need e s 1 [e; escaped_char e c].

Lemma escape_cases need e s :
  strcspn s need = length s ∧ escape_text need e s = s ∨ ∃ n w, escape_step need e s n w.
Proof.
  pose proof (span_len_take (λ c, negb (chr_mem need c)) s) as Ht.
  pose proof (span_len_le (λ c, negb (chr_mem need c)) s) as Hle. fold (strcspn s need) in *.
  destruct (decide (strcspn s need = length s)) as [E|E].
  { left. split; [done|]. rewrite E, take_ge in Ht by lia. by apply escape_plain. }
  right. destruct (decide (strcspn s need = 0)) as [E0|E0].
  - destruct s as [|c s']; [done|]. eexists 1, _. econstructor; [done..|].
    unfold strcspn in E0. simpl in E0. destruct (chr_mem need c) eqn:Hc; [|done].
    unfold escape_text, escape_chr. simpl. by rewrite Hc.
  - eexists _, _. apply step_run; [done..|]. by apply escape_plain.
Qed.

Lemma escape_step_text need e s n w :
  escape_step need e s n w →
  0 < n ∧ n ≤ length s ∧ escape_text need e (take n s) = w.
Proof.
  intros [? -> ? ? ?|c s' -> ? Hc].
  - pose proof (span_len_le (λ c, negb (chr_mem need c)) s). fold (strcspn s need) in *. split_and!; done || lia.
  - simpl. split_and!; done || lia.
Qed.

Lemma text_length buf : strbuf_wf buf → length (text buf) = pos buf.
Proof.
  unfold strbuf_wf, text. destruct (ptr buf) as [l|]; simpl; intros [Hl Hp];
    rewrite length_take; simpl; lia.
Qed.

Lemma appended_full buf w b :
  strbuf_wf buf → fixed buf = true → appended buf w b → room buf ≤ length w → room b = 0.
Proof.
  intros Hw Hf (Hwb & _ & _ & Hsz & Ht) Hlen. specialize (Hsz Hf). rewrite Hf in Ht.
  pose proof (text_length b Hwb) as Hpb. rewrite Ht, length_app, length_take, text_length in Hpb by done.
  unfold room in *. lia.
Qed.

Lemma loop_step fuel buf s need e n w :
  strbuf_wf buf → escape_step need e s n w →
  print_escaped_loop (S fuel) buf s need e =
    if fixed buf && (room buf <? 2) && (strcspn s need =? 0) then ret (0%Z, buf)
    else let* '(status, buf) := strbuf_print buf w in
         if bool_decide (status ≠ 0%Z) then ret (status, buf)
         else print_escaped_loop fuel buf (drop n s) need e.
Proof.
  intros Hw Hs. destruct s as [|c0 s0]; [by destruct Hs as [? -> | ? ? ?]|].
  change (print_escaped_loop (S fuel) buf (c0 :: s0) need e) with
    (let valid_len := strcspn (c0 :: s0) need in
      if valid_len =? length (c0 :: s0) then strbuf_print buf (c0 :: s0)
      else if negb (valid_len =? 0) then
        let* '(status, buf) := strbuf_printn buf (c0 :: s0) valid_len in
        if bool_decide (status ≠ 0%Z) then ret (status, buf)
        else print_escaped_loop fuel buf (drop valid_len (c0 :: s0)) need e
      else
        let* avail := strbuf_avail buf in
        if fixed buf && (avail <? 2) then ret (0%Z, buf)
        else
          let* '(status, buf) := strbuf_print buf [e; escaped_char e c0] in
          if bool_decide (status ≠ 0%Z) then ret (status, buf)
          else print_escaped_loop fuel buf s0 need e).
  cbv zeta. destruct Hs as [? -> H0 Hl ?|c s' [= <- <-] H0 ?].
  - destruct (Nat.eqb_spec (strcspn (c0 :: s0) need) (length (c0 :: s0))); [done|].
    destruct (Nat.eqb_spec (strcspn (c0 :: s0) need) 0); [done|]. simpl negb.
    by rewrite andb_false_r, printn_print.
  - rewrite H0, avail_ok by done. unfold bind at 1, ret at 1. simpl.
    by rewrite andb_true_r.
Qed.

Lemma loop_run fuel buf s need e :
  s ≠ [] → strcspn s need = length s →
  print_escaped_loop (S fuel) buf s need e = strbuf_print buf s.
Proof.
  intros Hs Hr. destruct s as [|c s']; [done|]. simpl in *. rewrite Hr. by rewrite Nat.eqb_refl.
Qed.

(** A full fixed buffer stays as it is. *)
Lemma loop_full fuel buf s need e :
  strbuf_wf buf → fixed buf = true → room buf = 0 → length s ≤ fuel →
  ∃ st, ∀ o, print_escaped_loop fuel buf s need e o = Some ((st, buf), o).
Proof.
  intros Hw Hf Hr Hlen. assert (∀ w, strbuf_print buf w = ret (ENOSPC, buf)) as Hprint.
  { intros w. unfold strbuf_print, strbuf_resize, append_bytes. rewrite Hf.
    unfold bind, ret. rewrite avail_ok by done. simpl. by rewrite Hr. }
  destruct s as [|c s']; [exists 0%Z; by destruct fuel|]. destruct fuel as [|fuel]; [simpl in Hlen; lia|].
  destruct (escape_cases need e (c :: s')) as [[Hrun _]|(n & w & Hst)].
  - exists ENOSPC. intros o. by rewrite loop_run, Hprint.
  - rewrite (loop_step _ _ _ _ _ _ _ Hw Hst), Hf, Hr, Hprint. simpl.
    destruct (strcspn (c :: s') need =? 0); eexists; reflexivity.
Qed.

(** What escaping leaves in the buffer: the escaped form of a prefix of the
    input, never half an escape sequence; of the whole input when the buffer
    is dynamic and the call succeeds. *)
Definition escaped (need : cstr) (e : ascii) (buf : strbuf_t) (s : cstr) (r : Z * strbuf_t) : Prop :=
  strbuf_wf r.2 ∧ fixed r.2 = fixed buf ∧
  (∃ k, text r.2 = text buf ++ escape_text need e (take k s)) ∧
  (fixed buf = false → r.1 = 0%Z → text r.2 = text buf ++ escape_text need e s).

Lemma escaped_stop need e buf s st :
  strbuf_wf buf → fixed buf = true ∨ st ≠ 0%Z ∨ s = [] → escaped need e buf s (st, buf).
Proof.
  intros Hw Hor. split_and!; [done|done| |].
  - exists 0. by rewrite take_0, app_nil_r.
  - simpl. intros ? ->. destruct Hor as [? | [? | ->]]; [congruence|done|by rewrite app_nil_r].
Qed.

Lemma escaped_run need e buf s r :
  strbuf_wf buf → strcspn s need = length s → printed buf s r → escaped need e buf s r.
Proof.
  intros Hw Hr [b (Hwb & _ & Hfb & _ & Ht)| |]; auto using escaped_stop.
  assert (∀ k, escape_text need e (take k s) = take k s) as Hesc.
  { intros k. apply escape_plain, Forall_take.
    pose proof (span_len_take (λ c, negb (chr_mem need c)) s) as Hs. fold (strcspn s need) in Hs.
    by rewrite Hr, take_ge in Hs by lia. }
  split_and!; [done|done| |].
  - simpl. rewrite Ht. destruct (fixed buf).
    + exists (room buf). by rewrite Hesc.
    + exists (length s). by rewrite Hesc, take_ge by lia.
  - simpl. intros Hf _. rewrite Ht, Hf. specialize (Hesc (length s)). rewrite take_ge in Hesc by lia.
    by rewrite Hesc.
Qed.

Lemma escaped_cons need e buf s n w b r :
  escape_step need e s n w → fixed b = fixed buf → text b = text buf ++ w →
  escaped need e b (drop n s) r → escaped need e buf s r.
Proof.
  intros (? & ? & Hw)%escape_step_text Hf Ht (? & Hfr & (k & Hk) & Hall).
  split_and!; [done|congruence| |].
  - exists (n + k). rewrite Hk, Ht, (escape_split _ _ (take (n + k) s) n).
    rewrite take_take, Nat.min_l, Hw, <-app_assoc by lia.
    rewrite skipn_firstn_comm. by replace (n + k - n) with k by lia.
  - intros Hdyn Hz. rewrite Hall, Ht, (escape_split _ _ s n), Hw, app_assoc; congruence.
Qed.

Lemma loop_escaped fuel buf s need e :
  strbuf_wf buf → length s ≤ fuel →
  wp (print_escaped_loop fuel buf s need e) (escaped need e buf s).
Proof.
  revert buf s. induction fuel as [|fuel IH]; intros buf s Hw Hlen.
  { destruct s; [|simpl in Hlen; lia]. apply wp_ret. apply escaped_stop; auto. }
  destruct (decide (s = [])) as [->|Hs]; [apply wp_ret, escaped_stop; auto|].
  destruct (escape_cases need e s) as [[Hrun _]|(n & w & Hst)].
  { rewrite loop_run by done. eapply wp_mono; [by apply print_wp|]. intros r. by apply escaped_run. }
  rewrite (loop_step _ _ _ _ _ _ _ Hw Hst). case_match eqn:Hg.
  { breflect. apply wp_ret, escaped_stop; auto. }
  apply wp_bind. eapply wp_mono; [by apply print_wp|].
  intros ? [b' Happ|Hf|Hf Hr]; simpl; [|apply wp_ret, escaped_stop; auto..].
  pose proof (escape_step_text _ _ _ _ _ Hst) as (Hn & Hns & _).
  pose proof Happ as (Hwb & _ & Hfb & _ & Ht).
  assert (length (drop n s) ≤ fuel) as Hd by (rewrite length_drop; lia).
  destruct (fixed buf && (room buf <? length w)) eqn:Htr.
  - apply andb_true_iff in Htr as [Hf Htr%Nat.ltb_lt]. rewrite Hf in Ht.
    assert (room b' = 0) as Hb0 by (apply (appended_full buf w b'); auto; lia).
    destruct (loop_full fuel b' (drop n s) need e) as [st Hl]; [done|congruence|done|done|].
    intros o. eexists _, _. split; [apply Hl|]. destruct Hst as [? -> H0 Hne Hesc|c s' -> H0 Hesc].
    + split_and!; [done|done| |congruence]. exists (room buf). simpl. rewrite Ht. f_equal.
      rewrite length_take in Htr. rewrite take_take, Nat.min_l by lia. symmetry.
      replace (take (room buf) s) with (take (room buf) (take (strcspn s need) s))
        by (rewrite take_take; f_equal; lia).
      by apply escape_plain, Forall_take, span_len_take.
    + rewrite Hf, H0 in Hg. simpl in Hg, Htr. destruct (Nat.ltb_spec (room buf) 2); [done|lia].
  - eapply wp_mono; [by apply IH|]. intros r. apply (escaped_cons _ _ _ _ n w); [done|done|].
    rewrite Ht. destruct (fixed buf); [|done]. simpl in Htr. apply Nat.ltb_ge in Htr.
    by rewrite take_ge by lia.
Qed.

(** *** Dynamic buffers while the allocator answers

    [appends f s]: [f] succeeds on every dynamic buffer and adds exactly [s].
    What the printers of the other components are built from. *)
Definition dynamic (buf : strbuf_t) : Prop :=
  strbuf_wf buf ∧ fixed buf = false ∧ (ptr buf = None ∨ terminated buf).

Definition appends (f : strbuf_t → M (Z * strbuf_t)) (s : cstr) : Prop :=
  ∀ buf, dynamic buf → ∃ b, f buf ⇓ (0%Z, b) ∧ dynamic b ∧ text b = text buf ++ s.

Lemma dynamic_create : dynamic STRBUF_CREATE ∧ text STRBUF_CREATE = [].
Proof. split; [|done]. split_and!; [done|done|by left]. Qed.

Lemma print_appends s : appends (λ b, strbuf_print b s) s.
Proof.
  intros buf (Hw & Hf & _). destruct (print_yields buf s Hw Hf) as (b & ? & ? & ? & ? & _ & Ht).
  exists b. rewrite Hf in Ht. split_and!; [done| |done]. split_and!; [done|congruence|by right].
Qed.

Lemma ret_appends : appends (λ b, ret (0%Z, b)) [].
Proof. intros b Hb. exists b. split_and!; [done|done|by rewrite app_nil_r]. Qed.

Lemma printf_appends s : appends (λ b, strbuf_printf b s) s.
Proof.
  destruct s as [|c s]; [apply ret_appends|]. intros b Hb. rewrite printf_print by done.
  by apply print_appends.
Qed.

(** [status = a (buf); if (status != 0) return status; b (buf)] *)
Lemma seq_appends f g s1 s2 :
  appends f s1 → appends g s2 →
  appends (λ b, let* '(st, b) := f b in if bool_decide (st ≠ 0%Z) then ret (st, b) else g b) (s1 ++ s2).
Proof.
  intros Hf Hg b Hb. destruct (Hf b Hb) as (b1 & E1 & Hb1 & T1).
  destruct (Hg b1 Hb1) as (b2 & E2 & Hb2 & T2). exists b2. split_and!; [|done|].
  - eapply yields_bind; [exact E1|]. exact E2.
  - by rewrite T2, T1, app_assoc.
Qed.

Lemma loop_appends fuel s need e :
  length s ≤ fuel → appends (λ b, print_escaped_loop fuel b s need e) (escape_text need e s).
Proof.
  revert s. induction fuel as [|fuel IH]; intros s Hlen.
  { destruct s; [|simpl in Hlen; lia]. apply ret_appends. }
  destruct (decide (s = [])) as [->|Hs]; [apply ret_appends|].
  destruct (escape_cases need e s) as [[Hrun ->]|(n & w & Hst)].
  { intros b Hb. rewrite loop_run by done. by apply print_appends. }
  pose proof (escape_step_text _ _ _ _ _ Hst) as (Hn & Hns & Hw).
  intros b Hb. pose proof Hb as (Hwf & Hf & _).
  rewrite (loop_step _ _ _ _ _ _ _ Hwf Hst), Hf, (escape_split _ _ s n), Hw. simpl.
  apply (seq_appends (λ b, strbuf_print b w)); [apply print_appends| |done].
  apply IH. rewrite length_drop. lia.
Qed.

Lemma print_escaped_appends s need e :
  e ≠ NUL → appends (λ b, strbuf_print_escaped b s need e) (escape_text need e s).
Proof.
  intros He. unfold strbuf_print_escaped. rewrite bool_decide_false by done. by apply loop_appends.
Qed.

(** *** Reset *)

(** A buffer whose array, if any, has room for the NUL. *)
Definition resettable (buf : strbuf_t) : Prop := ptr buf = None ∨ bufsize buf ≠ 0.

Lemma resettable_check buf :
  strbuf_wf buf → resettable buf → match ptr buf with Some l => 0 <? length l | None => true end = true.
Proof.
  unfold strbuf_wf, resettable. destruct (ptr buf) as [l|]; [|done]. intros [Hl _] [?|Hn]; [done|].
  apply Nat.ltb_lt. lia.
Qed.

Lemma reset_wp buf :
  strbuf_wf buf → resettable buf →
  wp (strbuf_reset buf) (λ b, strbuf_wf b ∧ text b = [] ∧ fixed b = fixed buf ∧
                              (bufsize buf ≠ 0 → terminated b) ∧ bufsize b ≤ bufsize buf).
Proof.
  intros Hw Hr. unfold strbuf_reset. rewrite resettable_check by done. cbn [massert]. rewrite bind_ret.
  set (b0 := mk_strbuf _ 0 _ _).
  assert (strbuf_wf b0 ∧ (bufsize buf ≠ 0 → terminated b0)) as [Hw0 Ht0].
  { unfold strbuf_wf, terminated in *. simpl. destruct (ptr buf) as [l|]; simpl; destruct Hw as [Hl Hp].
    - rewrite length_insert. split; [lia|]. intros ?. eexists. split; [done|].
      apply list_lookup_insert_eq. lia.
    - split; lia. }
  destruct (fixed buf) eqn:Hf; [apply wp_ret; by split_and!|].
  destruct (Nat.ltb_spec strbuf_pagesize (bufsize buf)) as [Hlt|]; [|apply wp_ret; by split_and!].
  apply wp_bind, wp_alloc. intros []; apply wp_ret; [|by split_and!].
  assert (0 < strbuf_pagesize).
  { unfold strbuf_pagesize. destruct (Z.geb_spec sysconf_pagesize 1); lia. }
  unfold strbuf_wf, terminated, text, realloc_bytes in *. simpl in *.
  destruct (ptr buf) as [l|]; simpl in *; [|lia]. destruct Hw as [Hl Hp].
  rewrite length_app, length_take, length_replicate, length_insert.
  split_and!; [lia|lia|done|done| |lia]. intros _. eexists. split; [done|].
  rewrite lookup_app_l by (rewrite length_take, length_insert; lia).
  rewrite lookup_take_lt by lia. apply list_lookup_insert_eq. lia.
Qed.

Lemma dynamic_resettable buf : dynamic buf → resettable buf.
Proof.
  intros (Hw & _ & [Hp|(l & Hl & Hlk)]); [by left|]. right. unfold strbuf_wf in Hw. rewrite Hl in Hw.
  destruct Hw as [<- _]. apply lookup_lt_Some in Hlk. lia.
Qed.

Lemma reset_yields buf : dynamic buf → ∃ b, strbuf_reset buf ⇓ b ∧ dynamic b ∧ text b = [].
Proof.
  intros Hd. pose proof (dynamic_resettable buf Hd) as Hr. pose proof Hd as (Hw & Hf & _).
  assert (∃ b, strbuf_reset buf ⇓ b ∧ (ptr buf = None → ptr b = None)) as (b & Hb & Hn).
  { unfold strbuf_reset. rewrite resettable_check by done. cbn [massert]. rewrite bind_ret, Hf.
    destruct (Nat.ltb_spec strbuf_pagesize (bufsize buf)).
    - eexists. split; [done|]. intros E. unfold strbuf_wf in Hw. rewrite E in Hw. lia.
    - eexists. split; [done|]. by intros ->. }
  pose proof (wp_at _ _ _ (reset_wp buf Hw Hr) Hb) as (Hwb & Ht & Hfb & Htm & _).
  exists b. split_and!; [done| |done]. split_and!; [done|congruence|].
  destruct Hr as [Hr|Hr]; auto.
Qed.

Lemma dynamic_c_str buf :
  dynamic buf → text buf ≠ [] → no_nul (text buf) → c_str <$> ptr buf = Some (text buf).
Proof.
  intros (_ & _ & [Hp|Ht]) Hne Hn; [|by apply c_str_terminated].
  unfold text in Hne. rewrite Hp in Hne. simpl in Hne. by rewrite take_nil in Hne.
Qed.

Lemma escape_text_length need e s : length s ≤ length (escape_text need e s).
Proof.
  unfold escape_text. induction s as [|c s IH]; [done|]. rewrite bind_cons, length_app.
  assert (1 ≤ length (escape_chr need e c)); [|simpl; lia].
  unfold escape_chr. destruct (chr_mem need c); simpl; lia.
Qed.
End props.

(** ** Claims *)

(** Appending text to a well-formed buffer, whatever the allocator
    answers, has exactly one of three outcomes: success, where the buffer is
    well formed, NUL-terminated and holds the old text followed by the new
    one (cut at the capacity of a fixed buffer); [ENOMEM] from a dynamic
    buffer, which is unchanged; [ENOSPC] from a full fixed one, unchanged.
    No call reaches a failing [assert] or writes out of bounds. *)
Theorem strbuf_print_spec `{Sysconf} buf s n :
  strbuf_wf buf →
  wp (strbuf_print buf s) (printed buf s) ∧
  (n ≠ 0%nat → wp (strbuf_printn buf s n) (printed buf (take n s))) ∧
  (s ≠ [] → wp (strbuf_printf buf s) (printed buf s)).
Proof.
  intros Hw. split_and!; [by apply print_wp| |]; intros Hne.
  - rewrite printn_print by done. by apply print_wp.
  - rewrite printf_print by done. by apply print_wp.
Qed.

Lemma strbuf_print_spec_witness :
  wp (strbuf_print (H:=4096) (STRBUF_CREATE_FIXED (replicate 4 NUL) 4) $"hello")
     (printed (STRBUF_CREATE_FIXED (replicate 4 NUL) 4) $"hello").
Proof. apply (strbuf_print_spec (H:=4096) _ _ 1%nat). split; simpl; lia. Defined.

(** [strbuf_print_escaped] leaves the old text followed by the escaped
    form of a prefix of the input, so that an escape sequence is never cut in
    half, also when a fixed buffer fills up or an allocation fails; and a
    dynamic buffer whose allocations succeed gets the whole escaped input,
    with status 0. *)
Theorem strbuf_print_escaped_spec `{Sysconf} buf s need e :
  strbuf_wf buf → e ≠ NUL →
  wp (strbuf_print_escaped buf s need e) (escaped need e buf s) ∧
  (dynamic buf → ∃ b, strbuf_print_escaped buf s need e ⇓ (0, b) ∧ dynamic b ∧
                      text b = text buf ++ escape_text need e s).
Proof.
  intros Hw He. split; [|by apply print_escaped_appends].
  unfold strbuf_print_escaped. rewrite bool_decide_false by done. by apply loop_escaped.
Qed.

Lemma strbuf_print_escaped_spec_witness :
  wp (strbuf_print_escaped (H:=4096) (STRBUF_CREATE_FIXED (replicate 4 NUL) 4) $"a,bc" $"," "\"%char)
     (escaped $"," "\"%char (STRBUF_CREATE_FIXED (replicate 4 NUL) 4) $"a,bc").
Proof. apply (strbuf_print_escaped_spec (H:=4096)); [split; simpl; lia|done]. Defined.
