(* ===== verification/CommonStr.v ===== *)
(** * Text in byte arrays: the string helpers of src/utils/common/common.c

    A buffer is the list of its bytes, and a function that is given a buffer
    and its size is given the list.  Reading or writing outside of the list is
    undefined behaviour.  The conversions between numbers and text that the
    code takes from the C library ([%d], [strtoll], [strtoull]) are here
    too. *)

From Stdlib Require Import ZArith Lia Ascii String.
From stdpp Require Import base numbers list option.
From S2P Require Import Prelude StrBuf.

Section buffers.
Local Open Scope nat_scope.

Definition nonnul (c : ascii) : bool := negb (bool_decide (c = NUL)).

Definition load (l : list ascii) (i : nat) : M ascii := mopt (l !! i).
Definition store (l : list ascii) (i : nat) (bs : list ascii) : M (list ascii) :=
  if i + length bs <=? length l then ret (blit l i bs) else crash.

(** [strlen]: the array must hold a terminating NUL. *)
Definition strlen (l : list ascii) : M nat :=
  let n := span_len nonnul l in if n <? length l then ret n else crash.

(** [strncpy] fills all [n] bytes; [dest + off] is the destination. *)
Definition strncpy (dest : list ascii) (off : nat) (src : cstr) (n : nat) : M (list ascii) :=
  store dest off (take n src ++ replicate (n - length src) NUL).
Definition sstrncpy (dest : list ascii) (off : nat) (src : cstr) (n : nat) : M (list ascii) :=
  let* d := strncpy dest off src n in
  let* _ := massert (1 <=? n) in
  store d (off + n - 1) [NUL].

(** [snprintf] of the text [s]: writes at most [n - 1] bytes and a NUL, and
    returns the length of the whole text. *)
Definition snprintf (dest : list ascii) (off n : nat) (s : cstr) : M (nat * list ascii) :=
  if n =? 0 then ret (length s, dest)
  else let* d := store dest off (take (n - 1) s ++ [NUL]) in ret (length s, d).

(** [strtok_r]: the next token and what follows it. *)
Definition strtok (delims s : cstr) : option (cstr * cstr) :=
  let s := drop (strspn s delims) s in
  match s with
  | [] => None
  | _ => let n := strcspn s delims in Some (take n s, drop (S n) s)
  end.

Definition blanks : cstr := [" "%char; "009"%char; "013"%char; "010"%char].

(** [strsplit]: the tokens stored in [fields]; their number is the result. *)
Fixpoint strsplit (s : cstr) (size : nat) : list cstr :=
  match size with
  | O => []
  | S size =>
      match strtok blanks s with
      | None => []
      | Some (f, s) => f :: strsplit s size
      end
  end.

(** The loop of [strjoin]: [i], the write position, [avail], [buffer_req]. *)
Fixpoint strjoin_loop (buffer : list ascii) (i ptr avail req : nat) (fields : list cstr) (sep : cstr)
    : M (nat * list ascii) :=
  match fields with
  | [] => ret (req, buffer)
  | f :: fields =>
      let field_len := length f in
      let req := (if i =? 0 then req else req + length sep) + field_len in
      if length buffer =? 0 then strjoin_loop buffer (S i) ptr avail req fields sep
      else if negb (i =? 0) && (0 <? length sep) && (avail <=? length sep) then
        strjoin_loop buffer (S i) ptr 0 req fields sep
      else
        let* '(buffer, ptr, avail) :=
          (if negb (i =? 0) && (0 <? length sep) then
             let* b := store buffer ptr sep in ret (b, ptr + length sep, avail - length sep)
           else ret (buffer, ptr, avail)) in
        let field_len := if avail <? field_len then avail else field_len in
        let* buffer := store buffer ptr (take field_len f) in
        let ptr := ptr + field_len in
        let* buffer := store buffer ptr [NUL] in
        strjoin_loop buffer (S i) ptr (avail - field_len) req fields sep
  end.
(** A NULL buffer, of size 0, only counts. *)
Definition strjoin (buffer : option (list ascii)) (fields : list cstr) (sep : cstr)
    : M (nat * list ascii) :=
  let* buffer := (match buffer with Some b => store b 0 [NUL] | None => ret [] end) in
  strjoin_loop buffer 0 0 (length buffer - 1) 0 fields sep.

(** The loop of [escape_string]; [j > buffer_size - 4] is compared in
    [size_t], where the difference wraps. *)
Fixpoint escape_string_loop (temp src : list ascii) (size j : nat) : M (list ascii * nat) :=
  match src with
  | [] => ret (temp, j)
  | c :: src =>
      if bool_decide (c = NUL) then ret (temp, j)
      else if bool_decide (c = "034"%char) || bool_decide (c = "\"%char) then
        if (u64 (Z.of_nat size - 4) <? Z.of_nat j)%Z then ret (temp, j)
        else
          let* temp := store temp j ["\"%char; c] in
          escape_string_loop temp src size (j + 2)
      else if (u64 (Z.of_nat size - 3) <? Z.of_nat j)%Z then ret (temp, j)
      else
        let* temp := store temp j [c] in
        escape_string_loop temp src size (j + 1)
  end.
Definition special : cstr := [" "%char; "009"%char; "034"%char; "\"%char].
Definition escape_string (buffer : list ascii) : M (Z * list ascii) :=
  let size := length buffer in
  let* n := strlen buffer in
  if negb (existsb (chr_mem special) (take n buffer)) then ret (0%Z, buffer)
  else if size <? 3 then ret (EINVAL, buffer)
  else
    let* ok := alloc in
    if negb ok then ret (ENOMEM, buffer)
    else
      let* temp := store (replicate size NUL) 0 ["034"%char] in
      let* '(temp, j) := escape_string_loop temp buffer size 1 in
      let* _ := massert (j + 1 <? size) in
      let* temp := store temp j ["034"%char; NUL] in
      let* buffer := sstrncpy buffer 0 (c_str temp) size in
      ret (0%Z, buffer).

(** [strunescape]: [memmove] closes the gap, the last byte becomes NUL. *)
Definition unescape_chr (c : ascii) : ascii :=
  if bool_decide (c = "t"%char) then "009"%char
  else if bool_decide (c = "n"%char) then "010"%char
  else if bool_decide (c = "r"%char) then "013"%char
  else c.
Fixpoint strunescape_loop (fuel : nat) (buf : list ascii) (i : nat) : M (Z * list ascii) :=
  match fuel with
  | O => crash
  | S fuel =>
      if negb (i <? length buf) then ret (0%Z, buf)
      else
        let* c := load buf i in
        if bool_decide (c = NUL) then ret (0%Z, buf)
        else if negb (bool_decide (c = "\"%char)) then strunescape_loop fuel buf (i + 1)
        else
          let* last :=
            (if length buf <=? i + 1 then ret true
             else let* d := load buf (i + 1) in ret (bool_decide (d = NUL))) in
          if (last : bool) then let* buf := store buf i [NUL] in ret ((-1)%Z, buf)
          else
            let* d := load buf (i + 1) in
            let* buf := store buf i [unescape_chr d] in
            let* buf := store buf (i + 1) (take (length buf - i - 2) (drop (i + 2) buf)) in
            let* buf := store buf (length buf - 1) [NUL] in
            strunescape_loop fuel buf (i + 1)
  end.
Definition strunescape (buf : list ascii) : M (Z * list ascii) :=
  strunescape_loop (S (length buf)) buf 0.

Fixpoint stripnewline_loop (buffer : list ascii) (n : nat) : M (nat * list ascii) :=
  match n with
  | O => ret (0, buffer)
  | S k =>
      let* c := load buffer k in
      if negb (bool_decide (c = "010"%char)) && negb (bool_decide (c = "013"%char))
      then ret (n, buffer)
      else let* buffer := store buffer k [NUL] in stripnewline_loop buffer k
  end.
Definition strstripnewline (buffer : list ascii) : M (nat * list ascii) :=
  let* n := strlen buffer in stripnewline_loop buffer n.

(** The loop over [buffer[i]] for [i < n], here on the prefix it touches. *)
Definition slash_to_underscore (c : ascii) : ascii :=
  if bool_decide (c = "/"%char) then "_"%char else c.
Definition escape_slashes (buffer : list ascii) : M (Z * list ascii) :=
  let* n := strlen buffer in
  if n <=? 1 then
    if bool_decide (take n buffer = ["/"%char]) then
      if length buffer <? 5 then ret ((-1)%Z, buffer)
      else let* b := sstrncpy buffer 0 $"root" (length buffer) in ret (0%Z, b)
    else ret (0%Z, buffer)
  else
    let* c := load buffer 0 in
    let* '(buffer, n) :=
      (if bool_decide (c = "/"%char) then
         let* b := store buffer 0 (take n (drop 1 buffer)) in ret (b, n - 1)
       else ret (buffer, n)) in
    let* buffer := store buffer 0 (map slash_to_underscore (take n buffer)) in
    ret (0%Z, buffer).

Definition special_to_underscore (c : ascii) : ascii :=
  if negb (isalnum c) && negb (bool_decide (c = "-"%char)) then "_"%char else c.
Fixpoint replace_special (buffer : list ascii) : list ascii :=
  match buffer with
  | [] => []
  | c :: b => if bool_decide (c = NUL) then c :: b else special_to_underscore c :: replace_special b
  end.

(** [strarray_add]: status and array. *)
Definition strarray_add (array : list cstr) (s : option cstr) : M (Z * list cstr) :=
  match s with
  | None => ret (EINVAL, array)
  | Some s =>
      let* ok := alloc in
      if negb ok then ret (ENOMEM, array)
      else
        let* ok := alloc in
        if negb ok then ret (ENOMEM, array) else ret (0%Z, array ++ [s])
  end.

(** ** Lemmas on byte arrays *)

Lemma blit_app a b bs : length bs ≤ length b →
  blit (a ++ b) (length a) bs = a ++ bs ++ drop (length bs) b.
Proof.
  intros Hb. unfold blit. rewrite take_app_length. f_equal. f_equal.
  by rewrite drop_app_add.
Qed.

Lemma store_app a b bs : length bs ≤ length b →
  store (a ++ b) (length a) bs = ret (a ++ bs ++ drop (length bs) b).
Proof.
  intros Hb. unfold store. rewrite length_app, (proj2 (Nat.leb_le _ _)) by lia.
  by rewrite blit_app.
Qed.

Lemma store_at i l bs : i + length bs ≤ length l → store l i bs = ret (blit l i bs).
Proof. intros H. unfold store. by rewrite (proj2 (Nat.leb_le _ _)). Qed.

Lemma store_zeros a k bs : length bs ≤ k →
  store (a ++ replicate k NUL) (length a) bs = ret ((a ++ bs) ++ replicate (k - length bs) NUL).
Proof. intros H. rewrite store_app, drop_replicate, app_assoc; rewrite ?length_replicate; done. Qed.

Lemma nonnul_spec c : nonnul c = true ↔ c ≠ NUL.
Proof. unfold nonnul. rewrite negb_true_iff. by rewrite bool_decide_eq_false. Qed.

Lemma no_nul_nonnul s : no_nul s ↔ Forall (λ c, nonnul c = true) s.
Proof.
  unfold no_nul. split; intros H; (eapply list.Forall_impl; [exact H|]); intros c; apply nonnul_spec.
Qed.

Lemma strlen_app s rest : no_nul s → strlen (s ++ NUL :: rest) = ret (length s).
Proof.
  intros Hs%no_nul_nonnul. unfold strlen.
  rewrite span_len_app_stop by done. rewrite length_app; simpl.
  by rewrite (proj2 (Nat.ltb_lt _ _)) by lia.
Qed.

Lemma load_app a c b : load (a ++ c :: b) (length a) = ret c.
Proof. unfold load. by rewrite list_lookup_middle. Qed.

(** The two writes of [sstrncpy] in one. *)
Lemma sstrncpy_at a b src n : 1 ≤ n ≤ length b →
  sstrncpy (a ++ b) (length a) src n
  = ret (a ++ take (n - 1) src ++ replicate (n - (n - 1) `min` length src) NUL ++ drop n b).
Proof.
  intros [Hn Hb]. unfold sstrncpy, strncpy.
  assert (length (take n src ++ replicate (n - length src) NUL) = n) as Hl.
  { rewrite length_app, length_take, length_replicate. lia. }
  rewrite store_app, Hl, bind_ret by (rewrite Hl; lia).
  unfold massert. rewrite (proj2 (Nat.leb_le _ _)), bind_ret by lia.
  assert (∃ x, take n src ++ replicate (n - length src) NUL
          = (take (n - 1) src ++ replicate (n - 1 - length src) NUL) ++ [x]) as [x Hx].
  { destruct (decide (n ≤ length src)).
    - destruct (lookup_lt_is_Some_2 src (n - 1)) as [x Hx]; [lia|].
      exists x. replace (n - length src) with 0 by lia. replace (n - 1 - length src) with 0 by lia.
      simpl. rewrite !app_nil_r. replace n with (S (n - 1)) at 1 by lia. by apply take_S_r.
    - exists NUL. rewrite !take_ge by lia.
      replace (n - length src) with ((n - 1 - length src) + 1) by lia.
      by rewrite replicate_add, app_assoc. }
  rewrite Hx. set (w := take (n - 1) src ++ replicate (n - 1 - length src) NUL) in *.
  assert (length w = n - 1) as Hw by (rewrite Hx, length_app in Hl; simpl in Hl; lia).
  replace (length a + n - 1) with (length (a ++ w)) by (rewrite length_app; lia).
  replace (a ++ (w ++ [x]) ++ drop n b) with ((a ++ w) ++ x :: drop n b)
    by (by rewrite <-!app_assoc).
  rewrite store_app by (simpl; lia). simpl. f_equal. unfold w. rewrite <-!app_assoc. f_equal. f_equal.
  replace (n - (n - 1) `min` length src) with ((n - 1 - length src) + 1) by lia.
  by rewrite replicate_add, <-app_assoc.
Qed.


(** ** Splitting and joining *)

(** The words of a text: the maximal runs of characters that are not blank. *)
Definition blank (c : ascii) : bool := chr_mem blanks c.
Fixpoint words_acc (cur s : cstr) : list cstr :=
  let flush := match cur with [] => [] | _ => [rev cur] end in
  match s with
  | [] => flush
  | c :: s => if blank c then flush ++ words_acc [] s else words_acc (c :: cur) s
  end.
Definition words : cstr → list cstr := words_acc [].

Lemma words_acc_run w cur s : Forall (λ c, blank c = false) w →
  words_acc cur (w ++ s) = words_acc (rev w ++ cur) s.
Proof.
  intros Hw. revert cur. induction Hw as [|c w Hc _ IH]; intros cur; [done|]. simpl.
  by rewrite Hc, IH, <-app_assoc.
Qed.

Lemma words_blanks w s : Forall (λ c, blank c = true) w → words (w ++ s) = words s.
Proof. unfold words. induction 1 as [|c w Hc _ IH]; [done|]. simpl. by rewrite Hc. Qed.

Lemma span_len_neg p s : Forall (λ c, p c = false) (take (span_len (λ c, negb (p c)) s) s).
Proof.
  eapply list.Forall_impl; [apply span_len_take|]. intros c. apply negb_true_iff.
Qed.

Lemma words_strtok s :
  words s = match strtok blanks s with None => [] | Some (f, r) => f :: words r end.
Proof.
  unfold strtok. change (strspn s blanks) with (span_len blank s).
  rewrite <-(take_drop (span_len blank s) s) at 1.
  rewrite words_blanks by apply span_len_take.
  destruct (drop (span_len blank s) s) as [|c t] eqn:E; [done|].
  assert (blank c = false) as Hc.
  { apply (span_len_stop blank s). rewrite <-(Nat.add_0_r (span_len _ _)), <-lookup_drop.
    by rewrite E. }
  change (strcspn (c :: t) blanks) with (span_len (λ c, negb (blank c)) (c :: t)).
  set (n := span_len _ (c :: t)).
  assert (n = S (span_len (λ c, negb (blank c)) t)) as Hn by (unfold n; simpl; by rewrite Hc).
  rewrite <-(take_drop n (c :: t)) at 1. unfold words at 1.
  rewrite words_acc_run by apply span_len_neg. rewrite app_nil_r.
  assert (take n (c :: t) ≠ []) as Hne by (by rewrite Hn).
  replace (drop (S n) (c :: t)) with (tail (drop n (c :: t)))
    by (rewrite <-Nat.add_1_r, <-drop_drop; by destruct (drop n _)).
  pose proof (span_len_stop (λ c, negb (blank c)) (c :: t)) as Hstop. fold n in Hstop.
  rewrite <-(Nat.add_0_r n), <-lookup_drop in Hstop.
  destruct (rev (take n (c :: t))) eqn:Er.
  { apply (f_equal (@rev _)) in Er. rewrite rev_involutive in Er. done. }
  destruct (drop n (c :: t)) as [|d u]; simpl.
  - by rewrite <-(rev_involutive (take n _)), Er.
  - specialize (Hstop d eq_refl). apply negb_false_iff in Hstop. rewrite Hstop.
    simpl. by rewrite <-(rev_involutive (take n _)), Er.
Qed.

Lemma strsplit_words s size : strsplit s size = take size (words s).
Proof.
  revert s. induction size as [|size IH]; intros s; simpl; [done|].
  rewrite (words_strtok s). destruct (strtok blanks s) as [[f r]|]; [|done]. simpl. by rewrite IH.
Qed.

Fixpoint join (sep : cstr) (fields : list cstr) : cstr :=
  match fields with
  | [] => []
  | [f] => f
  | f :: fields => f ++ sep ++ join sep fields
  end.

(** What the loop still has to append at index [i]. *)
Definition join_rest (i : nat) (sep : cstr) (fields : list cstr) : cstr :=
  if i =? 0 then join sep fields else concat (map (λ f, sep ++ f) fields).

Lemma join_cons sep f fields : join sep (f :: fields) = f ++ concat (map (λ f, sep ++ f) fields).
Proof.
  revert f. induction fields as [|g fields IH]; intros f; simpl; [by rewrite app_nil_r|].
  simpl in IH. by rewrite IH, <-app_assoc.
Qed.

Lemma join_rest_cons i sep f fields :
  join_rest i sep (f :: fields) = (if i =? 0 then [] else sep) ++ f ++ join_rest (S i) sep fields.
Proof.
  unfold join_rest. destruct (Nat.eqb_spec i 0) as [->|Hi]; simpl Nat.eqb; cbn iota.
  - apply join_cons.
  - simpl. by rewrite <-app_assoc.
Qed.

(** [out] is what the buffer holds after the loop has seen the text [J]. *)
Definition joined (size : nat) (ne : Prop) (J out buffer : list ascii) (ptr avail : nat) : Prop :=
  length buffer = size ∧ ptr = length out ∧ out `prefix_of` J ∧ length out + avail ≤ size - 1 ∧
  (∃ rest, buffer = out ++ NUL :: rest) ∧
  (out = J ∧ length out + avail = size - 1 ∨ avail = 0 ∧ (ne → size - 1 < length J)).

Lemma store_nul size a b : length (a ++ NUL :: b) = size → ∀ bs, length a + length bs < size →
  ∃ rest, bind (store (a ++ NUL :: b) (length a) bs) (λ x, store x (length a + length bs) [NUL])
          = ret ((a ++ bs) ++ NUL :: rest) ∧ length ((a ++ bs) ++ NUL :: rest) = size.
Proof.
  rewrite length_app. simpl. intros Hsz bs Hbs.
  rewrite store_app, bind_ret by (simpl; lia).
  rewrite app_assoc, <-length_app.
  assert (∃ x r, drop (length bs) (NUL :: b) = x :: r ∧ length bs + length r = length b) as (x & r & -> & Hl).
  { destruct (drop (length bs) (NUL :: b)) as [|x r] eqn:E;
      apply (f_equal length) in E; rewrite length_drop in E; simpl in E; [lia|].
    exists x, r. split; [done|lia]. }
  exists r. rewrite store_app by (simpl; lia). split; [done|].
  rewrite !length_app. simpl. lia.
Qed.

Lemma joined_clip size ne J out buffer ptr avail p :
  joined size ne J out buffer ptr avail → (ne → size - 1 < length (J ++ p)) →
  joined size ne (J ++ p) out buffer ptr 0.
Proof.
  intros (Hl & Hp & Hpre & Ha & Hr & _) Hne. repeat split; try done; [|lia|by right].
  by apply prefix_app_r.
Qed.

(** Two adjacent writes are one. *)
Lemma store_store l i s1 s2 : i + length s1 + length s2 ≤ length l →
  bind (store l i s1) (λ x, store x (i + length s1) s2) = store l i (s1 ++ s2).
Proof.
  intros H. rewrite !store_at by (rewrite ?length_app; lia). rewrite bind_ret.
  rewrite store_at by (rewrite length_blit; lia). f_equal.
  unfold blit. rewrite length_app.
  assert (length (take i l) = i) as Hi by (rewrite length_take; lia).
  rewrite (app_assoc (take i l)), take_app_length' by (rewrite length_app; lia).
  rewrite drop_app_add' by (rewrite length_app; lia). rewrite drop_drop.
  rewrite <-!app_assoc. do 4 f_equal. lia.
Qed.

(** Appending [bs] at [ptr], cut off at [avail]. *)
Lemma joined_write size ne J out buffer ptr avail bs :
  0 < size → joined size ne J out buffer ptr avail →
  let n := if avail <? length bs then avail else length bs in
  ∃ b, bind (store buffer ptr (take n bs)) (λ x, store x (ptr + n) [NUL]) = ret b ∧
       joined size ne (J ++ bs) (out ++ take n bs) b (ptr + n) (avail - n).
Proof.
  intros Hsz (Hl & -> & Hpre & Ha & [rest ->] & Hor) n.
  assert (n ≤ avail ∧ n ≤ length bs ∧ (n = avail ∨ n = length bs)) as (Hn1 & Hn2 & Hn3).
  { unfold n. destruct (Nat.ltb_spec avail (length bs)); lia. }
  assert (length (take n bs) = n) as Hn by (rewrite length_take; lia).
  destruct (store_nul size out rest Hl (take n bs)) as (r & E & Hl'); [lia|].
  rewrite Hn in E. eexists. split; [exact E|].
  unfold joined. split_and!; [done|rewrite length_app; lia| |rewrite length_app; lia|by eexists|].
  - destruct Hor as [[<- _]|[-> _]].
    + apply prefix_app, prefix_take.
    + assert (n = 0) as -> by lia. rewrite take_0, app_nil_r. by apply prefix_app_r.
  - rewrite !length_app, Hn. destruct Hor as [[<- He]|[-> Hne]]; [|right; split; [lia|]; intros H; specialize (Hne H); lia].
    unfold n. destruct (Nat.ltb_spec avail (length bs)).
    + right. split; [lia|]. intros _. lia.
    + left. rewrite take_ge by lia. split; [done|lia].
Qed.

Lemma strjoin_loop_spec size ne sep fields : ∀ i J out buffer ptr avail req,
  0 < size → (ne → Forall (λ f, f ≠ []) fields) → req = length J →
  joined size ne J out buffer ptr avail →
  ∃ out' b, strjoin_loop buffer i ptr avail req fields sep
            = ret (length (J ++ join_rest i sep fields), b) ∧
    ∃ ptr' avail', joined size ne (J ++ join_rest i sep fields) out' b ptr' avail'.
Proof.
  induction fields as [|f fields IH]; intros i J out buffer ptr avail req Hsz Hne -> Hj.
  { exists out, buffer. assert (join_rest i sep [] = []) as -> by (by destruct i).
    rewrite app_nil_r. eauto. }
  pose proof Hj as (Hl & _). cbn [strjoin_loop].
  rewrite Hl, join_rest_cons. destruct (Nat.eqb_spec size 0); [lia|].
  assert (ne → Forall (λ f, f ≠ []) fields) as Hne' by (intros H; by destruct (Forall_cons_1 _ _ _ (Hne H))).
  set (s := if i =? 0 then [] else sep).
  replace (J ++ s ++ f ++ join_rest (S i) sep fields) with ((J ++ s ++ f) ++ join_rest (S i) sep fields)
    by (by rewrite <-!app_assoc).
  assert ((if i =? 0 then length J else length J + length sep) + length f
    = length (J ++ s ++ f)) as -> by (unfold s; rewrite !length_app; destruct (i =? 0); simpl; lia).
  destruct (negb (i =? 0) && (0 <? length sep)) eqn:Esep; cbn [andb].
  - apply andb_true_iff in Esep as [Ei _].
    apply negb_true_iff in Ei. unfold s in *. rewrite Ei in *. clear s.
    destruct (Nat.leb_spec avail (length sep)) as [Hle|Hgt].
    { eapply IH; [done..|]. eapply joined_clip; [exact Hj|].
      intros H. pose proof (Hne H) as [Hf _]%Forall_cons_1.
      destruct Hj as (_ & _ & _ & _ & _ & [[-> He]|[_ Hc]]); [|specialize (Hc H)];
        rewrite !length_app; destruct f; simpl; (done || lia). }
    destruct (joined_write size ne J out buffer ptr avail (sep ++ f) Hsz Hj) as (b & E & H).
    set (k := if avail - length sep <? length f then avail - length sep else length f).
    rewrite length_app in E, H.
    assert ((if avail <? length sep + length f then avail else length sep + length f) = length sep + k) as En.
    { unfold k. destruct (Nat.ltb_spec avail (length sep + length f)),
        (Nat.ltb_spec (avail - length sep) (length f)); lia. }
    rewrite En, take_app_add in E. rewrite En, take_app_add in H.
    assert (ptr + avail ≤ size - 1 ∧ k ≤ length f ∧ length sep + k ≤ avail) as (Hpa & Hk & Hk').
    { destruct Hj as (_ & -> & _ & ? & _). unfold k.
      destruct (Nat.ltb_spec (avail - length sep) (length f)); lia. }
    assert (length (take k f) = k) as Hlk by (rewrite length_take; lia).
    rewrite <-store_store in E by lia. rewrite store_at in E |- * by lia.
    rewrite bind_ret in E. rewrite !bind_ret. fold k. cbv beta zeta.
    rewrite store_at in E |- * by (rewrite length_blit, Hlk; lia).
    rewrite bind_ret in E. rewrite bind_ret. rewrite Nat.add_assoc in E. rewrite E, bind_ret.
    replace (avail - length sep - k) with (avail - (length sep + k)) by lia.
    rewrite <-Nat.add_assoc. by eapply IH.
  - assert (s = []) as Hs.
    { unfold s. destruct (i =? 0); [done|]. by destruct sep. }
    rewrite Hs. cbn [app]. rewrite bind_ret. cbv beta zeta.
    destruct (joined_write size ne J out buffer ptr avail f Hsz Hj) as (b & E & H).
    set (k := if avail <? length f then avail else length f) in *.
    assert (length (take k f) = k) as Hlk.
    { rewrite length_take. unfold k. destruct (Nat.ltb_spec avail (length f)); lia. }
    assert (ptr + k ≤ size - 1) as Hpk.
    { destruct Hj as (_ & -> & _ & ? & _). unfold k. destruct (Nat.ltb_spec avail (length f)); lia. }
    rewrite store_at in E |- * by lia. rewrite bind_ret in E. rewrite bind_ret, E, bind_ret.
    by eapply IH.
Qed.

(** [strjoin] never leaves the buffer, returns the length of the whole joined
    text and stores a prefix of it, which is all of it when it fits. *)
Lemma strjoin_ok b fields sep : 0 < length b →
  ∃ out b', strjoin (Some b) fields sep = ret (length (join sep fields), b') ∧
    length b' = length b ∧ (∃ rest, b' = out ++ NUL :: rest) ∧ out `prefix_of` join sep fields ∧
    (Forall (λ f, f ≠ []) fields → length (join sep fields) < length b → out = join sep fields).
Proof.
  intros Hb. unfold strjoin. destruct b as [|c b]; [simpl in Hb; lia|].
  change (store (c :: b) 0 [NUL]) with (ret (NUL :: b)). rewrite bind_ret.
  destruct (strjoin_loop_spec (length (c :: b)) (Forall (λ f, f ≠ []) fields) sep fields
    0 [] [] (NUL :: b) 0 (length (NUL :: b) - 1) 0) as (out & b' & E & p & av & Hj); [done..| |].
  { unfold joined. split_and!; [done|done|apply prefix_nil|simpl; lia|by exists b|left; split; [done|simpl; lia]]. }
  exists out, b'. cbn [app] in *. unfold join_rest in *. cbn [Nat.eqb] in *.
  destruct Hj as (Hl & _ & Hp & _ & Hr & Hor). split_and!; [exact E|exact Hl|exact Hr|exact Hp|].
  intros Hne Hlt. destruct Hor as [[-> _]|[_ Hc]]; [done|]. specialize (Hc Hne). simpl in *. lia.
Qed.

(** A NULL buffer: only the length is computed. *)
Lemma strjoin_null fields sep : strjoin None fields sep = ret (length (join sep fields), []).
Proof.
  unfold strjoin. rewrite bind_ret.
  assert (∀ i req, strjoin_loop [] i 0 0 req fields sep = ret (req + length (join_rest i sep fields), [])) as H.
  { induction fields as [|f fields IH]; intros i req; cbn [strjoin_loop].
    - f_equal. destruct i; simpl; f_equal; lia.
    - cbn [length Nat.eqb]. rewrite IH. f_equal. f_equal. rewrite join_rest_cons, !length_app.
      destruct (i =? 0); simpl; lia. }
  apply H.
Qed.

(** ** Escaping *)

(** The text [strunescape] leaves, and whether it ends in a lone backslash. *)
Fixpoint unescape (s : cstr) : cstr * bool :=
  match s with
  | [] => ([], true)
  | c :: s =>
      if bool_decide (c = "\"%char) then
        match s with
        | [] => ([], false)
        | d :: s => let '(t, ok) := unescape s in (unescape_chr d :: t, ok)
        end
      else let '(t, ok) := unescape s in (c :: t, ok)
  end.

Lemma unescape_chr_nonnul c : c ≠ NUL → unescape_chr c ≠ NUL.
Proof. intros H. unfold unescape_chr. repeat case_bool_decide; done. Qed.

(** The writes that close the gap after an escape sequence. *)
Lemma close_gap a x d t (k : list ascii → M (Z * list ascii)) :
  let b := a ++ x :: d :: t in
  (let* b := store b (length a + 1) (take (length b - length a - 2) (drop (length a + 2) b)) in
   let* b := store b (length b - 1) [NUL] in k b)
  = k ((a ++ [x]) ++ t ++ [NUL]).
Proof.
  intros b. assert (length b = length a + S (S (length t))) as Hb by (unfold b; by rewrite length_app).
  assert (drop (length a + 2) b = t) as -> by (unfold b; by rewrite drop_app_add).
  rewrite take_ge by lia. unfold b.
  replace (a ++ x :: d :: t) with ((a ++ [x]) ++ d :: t) by (by rewrite <-app_assoc).
  replace (length a + 1) with (length (a ++ [x])) by (by rewrite length_app).
  rewrite store_app, bind_ret by (simpl; lia).
  assert (∃ y, drop (length t) (d :: t) = [y]) as [y ->].
  { destruct (drop (length t) (d :: t)) as [|y [|z u]] eqn:E; [| by exists y|];
      apply (f_equal length) in E; rewrite length_drop in E; simpl in E; lia. }
  rewrite app_assoc, length_app, Nat.add_sub.
  rewrite store_app, bind_ret by (simpl; lia). simpl. by rewrite <-app_assoc.
Qed.

Lemma strunescape_loop_ok fuel : ∀ a s rest,
  no_nul s → length s < fuel →
  ∃ rest', strunescape_loop fuel (a ++ s ++ NUL :: rest) (length a)
    = ret ((if (unescape s).2 then 0 else -1)%Z, a ++ (unescape s).1 ++ NUL :: rest')
    ∧ length (unescape s).1 + length rest' = length s + length rest ∧ no_nul (unescape s).1.
Proof.
  induction fuel as [fuel IH] using lt_wf_ind; intros a s rest Hs Hf.
  destruct fuel as [|fuel]; [lia|]. cbn [strunescape_loop].
  assert ((length a <? length (a ++ s ++ NUL :: rest)) = true) as ->
    by (apply Nat.ltb_lt; rewrite !length_app; simpl; lia). cbn [negb].
  destruct s as [|c s]; cbn [app].
  { rewrite load_app, bind_ret. rewrite bool_decide_true by done. by exists rest. }
  apply Forall_cons_1 in Hs as [Hc Hs]. rewrite load_app, bind_ret.
  rewrite (bool_decide_false (c = NUL)) by done.
  destruct (decide (c = "\"%char)) as [->|Hb]; [rewrite bool_decide_true by done|rewrite bool_decide_false by done];
    cbn [negb].
  2: { replace (length a + 1) with (length (a ++ [c])) by (rewrite length_app; done).
       replace (a ++ c :: s ++ NUL :: rest) with ((a ++ [c]) ++ s ++ NUL :: rest) by (by rewrite <-app_assoc).
       destruct (IH fuel ltac:(lia) (a ++ [c]) s rest Hs) as (r & E & Hl & Hn); [simpl in Hf; lia|].
       exists r. cbn [unescape]. rewrite bool_decide_false by done.
       destruct (unescape s) as [t ok]. cbn [fst snd] in *.
       rewrite E, <-app_assoc. split_and!; [done|simpl; lia|by constructor]. }
  assert ((length (a ++ "\"%char :: s ++ NUL :: rest) <=? length a + 1) = false) as ->
    by (apply Nat.leb_gt; rewrite !length_app; simpl; rewrite length_app; simpl; lia).
  assert (∀ d u, load (a ++ "\"%char :: d :: u) (length a + 1) = ret d) as Hload.
  { intros d u. unfold load. rewrite lookup_app_r, Nat.add_comm, Nat.add_sub by lia. done. }
  destruct s as [|d s]; cbn [app].
  { rewrite Hload, !bind_ret. rewrite bool_decide_true by done. rewrite store_app by (simpl; lia).
    rewrite bind_ret. cbn [unescape]. rewrite bool_decide_true by done.
    exists (NUL :: rest). split_and!; [done|simpl; lia|constructor]. }
  apply Forall_cons_1 in Hs as [Hd Hs]. rewrite Hload, !bind_ret.
  rewrite (bool_decide_false (d = NUL)) by done. rewrite store_app, bind_ret by (simpl; lia).
  cbn [length drop app]. rewrite (close_gap a (unescape_chr d) d (s ++ NUL :: rest)).
  replace (length a + 1) with (length (a ++ [unescape_chr d])) by (by rewrite length_app).
  replace ((s ++ NUL :: rest) ++ [NUL]) with (s ++ NUL :: rest ++ [NUL]) by (by rewrite <-app_assoc).
  destruct (IH fuel ltac:(lia) (a ++ [unescape_chr d]) s (rest ++ [NUL]) Hs) as (r & E & Hl & Hn);
    [simpl in Hf; lia|].
  exists r. cbn [unescape]. rewrite bool_decide_true by done.
  destruct (unescape s) as [t ok]. cbn [fst snd] in *. rewrite length_app in Hl. simpl in Hl.
  rewrite E, <-app_assoc. split_and!; [done|simpl; lia|].
  constructor; [by apply unescape_chr_nonnul|done].
Qed.

(** [strunescape] replaces every escape sequence in place, inside the buffer;
    a backslash at the end is cut off and reported. *)
Lemma strunescape_ok s rest : no_nul s →
  ∃ rest', strunescape (s ++ NUL :: rest)
    = ret ((if (unescape s).2 then 0 else -1)%Z, (unescape s).1 ++ NUL :: rest')
    ∧ length (unescape s).1 + length rest' = length s + length rest.
Proof.
  intros Hs. destruct (strunescape_loop_ok (S (length (s ++ NUL :: rest))) [] s rest Hs)
    as (r & E & Hl & _); [rewrite length_app; lia|]. by exists r.
Qed.

Definition quoted (c : ascii) : bool := bool_decide (c = "034"%char) || bool_decide (c = "\"%char).
Definition escape (s : cstr) : cstr :=
  concat (map (λ c, if quoted c then ["\"%char; c] else [c]) s).

Lemma escape_cons c s : escape (c :: s) = (if quoted c then ["\"%char; c] else [c]) ++ escape s.
Proof. done. Qed.

Lemma escape_prefix p s : p `prefix_of` s → length (escape p) ≤ length (escape s).
Proof. intros [k ->]. unfold escape. rewrite map_app, concat_app, length_app. lia. Qed.

Lemma escaped_no_nul s : no_nul s → no_nul (escape s).
Proof.
  unfold no_nul. induction 1 as [|c s Hc _ IH]; [constructor|]. rewrite escape_cons.
  apply list.Forall_app. split; [|done]. destruct (quoted c); repeat constructor; done.
Qed.

(** One step of the loop: [c] takes [e], and needs two bytes more. *)
Lemma escape_loop_step temp c src size j : c ≠ NUL →
  let e := if quoted c then ["\"%char; c] else [c] in
  escape_string_loop temp (c :: src) size j
  = if (u64 (Z.of_nat size - Z.of_nat (2 + length e)) <? Z.of_nat j)%Z then ret (temp, j)
    else let* temp := store temp j e in escape_string_loop temp src size (j + length e).
Proof.
  intros Hc e. unfold e. cbn [escape_string_loop]. rewrite bool_decide_false by done.
  fold (quoted c). by destruct (quoted c).
Qed.

Lemma escape_loop_ok size s rest : ∀ acc,
  4 ≤ size → in_u64 (Z.of_nat size) → no_nul s → length acc + 2 ≤ size →
  ∃ p, p `prefix_of` s ∧ length acc + length (escape p) + 2 ≤ size ∧
    (length acc + length (escape s) + 2 ≤ size → p = s) ∧
    escape_string_loop (acc ++ replicate (size - length acc) NUL) (s ++ NUL :: rest) size (length acc)
    = ret ((acc ++ escape p) ++ replicate (size - length (acc ++ escape p)) NUL, length (acc ++ escape p)).
Proof.
  induction s as [|c s IH]; intros acc H4 Hu Hs Ha; cbn [app].
  { exists []. cbn [escape_string_loop]. rewrite bool_decide_true, app_nil_r by done.
    split_and!; [done|simpl; lia|done|done]. }
  apply Forall_cons_1 in Hs as [Hc Hs]. rewrite escape_loop_step by done.
  set (e := if quoted c then ["\"%char; c] else [c]).
  assert (∀ t, escape (c :: t) = e ++ escape t) as He by done.
  assert (1 ≤ length e ≤ 2) as Hle by (unfold e; destruct (quoted c); simpl; lia).
  rewrite u64_small by (unfold in_u64 in *; lia).
  destruct (Z.ltb_spec (Z.of_nat size - Z.of_nat (2 + length e)) (Z.of_nat (length acc))).
  - exists []. rewrite app_nil_r. split_and!; [apply prefix_nil|simpl; lia| |done].
    rewrite He, length_app. lia.
  - rewrite store_zeros, bind_ret by lia. rewrite <-Nat.sub_add_distr, <-(length_app acc e).
    destruct (IH (acc ++ e) H4 Hu Hs) as (p & Hp & Hl & Heq & E); [rewrite length_app; lia|].
    rewrite length_app in Hl, Heq. exists (c :: p). rewrite E, !He, (app_assoc acc), length_app.
    split_and!; [by apply prefix_cons|lia| |done].
    rewrite length_app. intros Hfit. f_equal. apply Heq. lia.
Qed.

(** [escape_string] quotes a prefix of the text, all of it when it fits, and
    never leaves half an escape sequence; it asks for memory once. *)
Lemma escape_string_run s rest : no_nul s → 4 ≤ length (s ++ NUL :: rest) →
  in_u64 (Z.of_nat (length (s ++ NUL :: rest))) → existsb (chr_mem special) s = true →
  let b := s ++ NUL :: rest in
  ∃ p k, p `prefix_of` s ∧ (length (escape s) + 3 ≤ length b → p = s) ∧
    let b' := "034"%char :: escape p ++ "034"%char :: NUL :: replicate k NUL in
    length b' = length b ∧
    ∀ o, escape_string b o = bind alloc (λ ok, if ok then ret (0%Z, b') else ret (ENOMEM, b)) o.
Proof.
  intros Hs H4 Hu Ex b.
  destruct (escape_loop_ok (length b) s rest ["034"%char]) as (p & Hp & Hl & Heq & E);
    [done|done|done|simpl; unfold b; lia|]. cbn [length] in Hl, Heq.
  set (q := ["034"%char] ++ escape p) in *.
  assert (length q = S (length (escape p))) as Hq by done.
  exists p, (length b - length q - 2). split_and!; [done|intros; apply Heq; lia|].
  cbv zeta. split.
  { cbn [length]. rewrite length_app. cbn [length]. rewrite length_replicate. lia. }
  intros o. unfold escape_string. unfold b at 1. rewrite strlen_app, bind_ret by done.
  fold b. replace (take (length s) b) with s by (unfold b; by rewrite take_app_length). rewrite Ex. cbn [negb].
  assert ((length b <? 3) = false) as -> by (apply Nat.ltb_ge; unfold b; lia).
  apply bind_ext; [done|]. intros [] o'; cbn [negb]; [|done].
  change (store (replicate (length b) NUL) 0 ["034"%char])
    with (store ([] ++ replicate (length b) NUL) (length (@nil ascii)) ["034"%char]).
  rewrite store_zeros, bind_ret by (unfold b; simpl; lia). cbn [app].
  fold b in E. match type of E with ?x = _ =>
    match goal with |- context [escape_string_loop ?t b (length b) 1] =>
      change (escape_string_loop t b (length b) 1) with x end end.
  rewrite E, bind_ret. unfold massert. rewrite (proj2 (Nat.ltb_lt _ _)), bind_ret by lia.
  rewrite store_zeros, bind_ret by (simpl; lia).
  assert (no_nul (q ++ ["034"%char])) as Hn.
  { apply list.Forall_app. split; [|by repeat constructor]. constructor; [done|].
    apply escaped_no_nul. destruct Hp as [k Hk]. rewrite Hk in Hs. by apply list.Forall_app in Hs as [? _]. }
  set (m := length b - length q - length ["034"%char; NUL]).
  assert (c_str ((q ++ ["034"%char; NUL]) ++ replicate m NUL) = q ++ ["034"%char]) as ->.
  { rewrite <-(c_str_app (q ++ ["034"%char]) (replicate m NUL) Hn). f_equal. by rewrite <-!app_assoc. }
  change b with ([] ++ b) at 1. change 0 with (length (@nil ascii)).
  rewrite sstrncpy_at, bind_ret by lia. rewrite take_ge by (rewrite length_app; simpl; lia).
  rewrite drop_all, app_nil_r, length_app. cbn [length].
  replace (length b - (length b - 1) `min` (length q + 1)) with (S (length b - length q - 2)) by lia.
  cbn [app replicate]. unfold q. by rewrite <-!app_assoc.
Qed.

(** [escape_string] on a buffer that holds [s]: a text without special
    characters is left alone, any other is quoted. *)
Lemma escape_string_ok s rest : no_nul s → 4 ≤ length (s ++ NUL :: rest) →
  in_u64 (Z.of_nat (length (s ++ NUL :: rest))) →
  let b := s ++ NUL :: rest in
  wp (escape_string b) (λ '(status, b'),
    (existsb (chr_mem special) s = false ∧ status = 0%Z ∧ b' = b) ∨
    (existsb (chr_mem special) s = true ∧ status = ENOMEM ∧ b' = b) ∨
    (existsb (chr_mem special) s = true ∧ status = 0%Z ∧
     ∃ p k, p `prefix_of` s ∧ (length (escape s) + 3 ≤ length b → p = s) ∧
       b' = "034"%char :: escape p ++ "034"%char :: NUL :: replicate k NUL ∧ length b' = length b)).
Proof.
  intros Hs H4 Hu b. destruct (existsb (chr_mem special) s) eqn:Ex.
  - destruct (escape_string_run s rest) as (p & k & Hp & Heq & Hl & Hr); [done..|]. fold b in Hr, Hl, Heq.
    intros o. rewrite Hr. revert o. apply wp_bind, wp_alloc. intros []; apply wp_ret; [|auto].
    right. right. split_and!; [done|done|]. by exists p, k.
  - unfold escape_string. unfold b at 1. rewrite strlen_app, bind_ret by done.
    fold b. replace (take (length s) b) with s by (unfold b; by rewrite take_app_length).
    rewrite Ex. apply wp_ret. auto.
Qed.

(** [escape_string] on a buffer of at least four bytes stays inside it,
    leaves a text without special characters alone, and otherwise quotes a
    prefix of the text, all of it when there is room, without ever leaving half
    an escape sequence; when memory is short it reports ENOMEM and changes
    nothing.  On a buffer of three bytes whose text starts with a quote or a
    backslash the comparison with [buffer_size - 4] wraps, and the function
    runs past the end of its buffer. *)
Theorem escape_string_spec s rest : no_nul s →
  in_u64 (Z.of_nat (length (s ++ NUL :: rest))) →
  let b := s ++ NUL :: rest in
  (4 ≤ length b →
   wp (escape_string b) (λ '(status, b'),
    (existsb (chr_mem special) s = false ∧ status = 0%Z ∧ b' = b) ∨
    (existsb (chr_mem special) s = true ∧ status = ENOMEM ∧ b' = b) ∨
    (existsb (chr_mem special) s = true ∧ status = 0%Z ∧
     ∃ p k, p `prefix_of` s ∧ (length (escape s) + 3 ≤ length b → p = s) ∧
       b' = "034"%char :: escape p ++ "034"%char :: NUL :: replicate k NUL ∧ length b' = length b))) ∧
  (length b < 3 → existsb (chr_mem special) s = true → escape_string b = ret (EINVAL, b)) ∧
  (length b = 3 → (∃ c t, s = c :: t ∧ quoted c = true) → escape_string b [] = None).
Proof.
  intros Hs Hu b. split_and!.
  - intros H4. by apply escape_string_ok.
  - intros H3 Hex. unfold escape_string. unfold b at 1. rewrite strlen_app, bind_ret by done.
    unfold b at 1. rewrite take_app_length, Hex. cbn [negb].
    by rewrite (proj2 (Nat.ltb_lt _ _)).
  - intros H3 (c & t & -> & Hq). apply Forall_cons_1 in Hs as [Hc Ht]. unfold b in *. clear b.
    assert (c = "034"%char ∨ c = "\"%char) as Hcc.
    { unfold quoted in Hq. apply orb_true_iff in Hq as [?%bool_decide_eq_true|?%bool_decide_eq_true]; auto. }
    destruct t as [|d [|? ?]]; destruct rest as [|x [|? ?]]; simpl in H3;
      rewrite ?length_app in H3; simpl in H3; try lia.
    + by destruct Hcc as [-> | ->].
    + apply Forall_cons_1 in Ht as [Hd _]. destruct (quoted d) eqn:Ed.
      * assert (d = "034"%char ∨ d = "\"%char) as Hdd.
        { unfold quoted in Ed. apply orb_true_iff in Ed as [?%bool_decide_eq_true|?%bool_decide_eq_true]; auto. }
        by destruct Hcc as [-> | ->], Hdd as [-> | ->].
      * unfold escape_string. change ((c :: [d]) ++ [NUL]) with ([c; d] ++ NUL :: []).
        rewrite strlen_app, bind_ret by (by repeat constructor).
        assert (existsb (chr_mem special) (take (length [c; d]) ([c; d] ++ [NUL])) = true) as ->
          by (by destruct Hcc as [-> | ->]).
        cbn [negb length app Nat.add Nat.ltb Nat.leb]. unfold bind at 1, alloc. cbn [negb].
        change (store (replicate 3 NUL) 0 ["034"%char]) with (ret ["034"%char; NUL; NUL]).
        rewrite bind_ret, escape_loop_step, Hq by done.
        change (u64 (Z.of_nat 3 - Z.of_nat (2 + length ["\"%char; c])) <? Z.of_nat 1)%Z with false.
        cbn [length]. change (store ["034"%char; NUL; NUL] 1 ["\"%char; c])
          with (ret ["034"%char; "\"%char; c]).
        rewrite bind_ret, escape_loop_step, Ed by done. by cbn.
Qed.

Lemma escape_string_spec_witness :
  let b := $"a b" ++ NUL :: replicate 4 NUL in
  wp (escape_string b) (λ '(status, _), status = 0%Z ∨ status = ENOMEM) ∧
  escape_string (["034"%char] ++ [NUL; NUL]) [] = None.
Proof.
  intros b. split.
  - eapply wp_mono; [apply (escape_string_spec $"a b" (replicate 4 NUL));
      [by repeat constructor|by split|simpl; lia]|].
    intros [status b'] [(_ & -> & _)|[(_ & -> & _)|(_ & -> & _)]]; auto.
  - apply (escape_string_spec ["034"%char] [NUL]); [by repeat constructor|by split|done|by eexists _, _].
Defined.
End buffers.

(** ** Numbers as text *)

Definition digit_chr (d : Z) : ascii := ascii_of_N (Z.to_N (48 + d)).

(** [%u] and, with a sign, [%d]. *)
Fixpoint decimal_loop (fuel : nat) (z : Z) (acc : cstr) : cstr :=
  let acc := digit_chr (z mod 10) :: acc in
  if z <? 10 then acc
  else match fuel with O => acc | S fuel => decimal_loop fuel (z / 10) acc end.
Definition decimal (z : Z) : cstr := decimal_loop (Z.to_nat (Z.log2 z)) z [].
Definition decimal_signed (z : Z) : cstr :=
  if z <? 0 then "-"%char :: decimal (- z) else decimal z.
(** [%0<w>d] of a number that is not negative. *)
Definition decimal_pad (w : nat) (z : Z) : cstr :=
  replicate (w - length (decimal z)) "0"%char ++ decimal z.

(** The value of a digit, in bases up to 16. *)
Definition digit_value (c : ascii) : Z :=
  if isdigit c then chr_code c - 48
  else if chr_in 97 122 (tolower c) then chr_code (tolower c) - 87 else 99.
Definition is_base_digit (base : Z) (c : ascii) : bool := digit_value c <? base.
Definition digits_value (base : Z) (s : cstr) : Z :=
  fold_left (λ a c, a * base + digit_value c) s 0.

(** What [strtoull] and [strtoll] read with base 0: blanks, a sign, a prefix
    that chooses the base, digits.  The answer is the sign, the magnitude and
    the number of characters consumed; nothing is consumed without a digit. *)
Definition split_sign (s : cstr) : bool * cstr :=
  match s with
  | c :: t => if bool_decide (c = "-"%char) then (true, t)
              else if bool_decide (c = "+"%char) then (false, t) else (false, s)
  | [] => (false, [])
  end.
Definition split_base (s : cstr) : Z * cstr :=
  match s with
  | "0"%char :: x :: d :: t =>
      if bool_decide (tolower x = "x"%char) && is_base_digit 16 d then (16, d :: t) else (8, s)
  | "0"%char :: _ => (8, s)
  | _ => (10, s)
  end.
Definition scan_number (s : cstr) : option (bool * Z * nat) :=
  let t := drop (span_len isspace s) s in
  let '(neg, t) := split_sign t in
  let '(base, t) := split_base t in
  let n := span_len (is_base_digit base) t in
  if (n =? 0)%nat then None
  else Some (neg, digits_value base (take n t), (length s - length (drop n t))%nat).

Record strto_result := {
  st_value : Z;
  st_consumed : nat; (* endptr - string *)
  st_erange : bool; (* errno was set to ERANGE *)
}.
Definition strtoull (s : cstr) : strto_result :=
  match scan_number s with
  | None => {| st_value := 0; st_consumed := 0; st_erange := false |}
  | Some (neg, v, n) =>
      if v <? 2 ^ 64
      then {| st_value := if neg then u64 (- v) else v; st_consumed := n; st_erange := false |}
      else {| st_value := 2 ^ 64 - 1; st_consumed := n; st_erange := true |}
  end.
Definition strtoll (s : cstr) : strto_result :=
  match scan_number s with
  | None => {| st_value := 0; st_consumed := 0; st_erange := false |}
  | Some (neg, v, n) =>
      let z := if neg then - v else v in
      if z <? - 2 ^ 63 then {| st_value := - 2 ^ 63; st_consumed := n; st_erange := true |}
      else if 2 ^ 63 <=? z then {| st_value := 2 ^ 63 - 1; st_consumed := n; st_erange := true |}
      else {| st_value := z; st_consumed := n; st_erange := false |}
  end.

(** [strtoderive] and [strtocounter]: status and value. *)
Definition strtoderive (s : option cstr) : Z * option Z :=
  match s with
  | None => (EINVAL, None)
  | Some s =>
      let r := strtoll s in
      if (st_consumed r =? 0)%nat || st_erange r then (-1, None) else (0, Some (st_value r))
  end.
(** [(derive_t) strtoull (...)], stored in a [counter_t]: the two conversions
    cancel. *)
Definition strtocounter (s : option cstr) : Z * option Z :=
  match s with
  | None => (EINVAL, None)
  | Some s =>
      let r := strtoull s in
      if (st_consumed r =? 0)%nat || st_erange r then (-1, None)
      else (0, Some (u64 (i64 (st_value r))))
  end.

Lemma digit_chr_code d : 0 ≤ d < 10 → chr_code (digit_chr d) = 48 + d.
Proof.
  intros Hd. unfold chr_code, digit_chr. rewrite N_ascii_embedding by lia. lia.
Qed.

Lemma digit_chr_value d : 0 ≤ d < 10 → isdigit (digit_chr d) = true ∧ digit_value (digit_chr d) = d.
Proof.
  intros Hd. unfold digit_value, isdigit, chr_in. rewrite digit_chr_code by done.
  rewrite (proj2 (Z.leb_le _ _)), (proj2 (Z.leb_le _ _)) by lia. simpl. lia.
Qed.

Lemma fold_digits base s a :
  fold_left (λ a c, a * base + digit_value c) s a = a * base ^ Z.of_nat (length s) + digits_value base s.
Proof.
  unfold digits_value. revert a. induction s as [|c s IH]; intros a; cbn [fold_left length]; [lia|].
  rewrite IH, (IH (0 * base + _)), Nat2Z.inj_succ, Z.pow_succ_r by lia. ring.
Qed.

Lemma digits_value_app base s t :
  digits_value base (s ++ t) = digits_value base s * base ^ Z.of_nat (length t) + digits_value base t.
Proof. unfold digits_value at 1. rewrite fold_left_app. apply fold_digits. Qed.

Lemma decimal_loop_app fuel z acc : decimal_loop fuel z acc = decimal_loop fuel z [] ++ acc.
Proof.
  revert z acc. induction fuel as [|fuel IH]; intros z acc; simpl; destruct (z <? 10); try done.
  rewrite IH, (IH _ [_]). by rewrite <-app_assoc.
Qed.

(** The digits of a number: they are decimal, their value is the number, they
    do not start with a zero unless the number is zero. *)
Lemma decimal_spec z : 0 ≤ z →
  Forall (λ c, isdigit c = true) (decimal z) ∧ digits_value 10 (decimal z) = z ∧
  (∃ d t, 0 ≤ d < 10 ∧ decimal z = digit_chr d :: t ∧ (0 < z → 0 < d)) ∧
  (∀ w, (0 < w)%nat → z < 10 ^ Z.of_nat w → (length (decimal z) ≤ w)%nat).
Proof.
  intros Hz. unfold decimal.
  assert (z < 2 ^ (Z.of_nat (Z.to_nat (Z.log2 z)) + 1)) as Hf.
  { rewrite Z2Nat.id by apply Z.log2_nonneg. destruct (decide (z = 0)) as [->|]; [done|].
    apply Z.log2_spec. lia. }
  revert Hf. generalize (Z.to_nat (Z.log2 z)) as fuel. intros fuel. revert z Hz.
  induction fuel as [|fuel IH]; intros z Hz Hf; cbn [decimal_loop].
  all: pose proof (Z.mod_pos_bound z 10 ltac:(lia)) as Hm; destruct (digit_chr_value _ Hm) as [Hd Hv].
  all: pose proof (Z_div_mod_eq_full z 10) as Eq; destruct (Z.ltb_spec z 10).
  1,3: assert (z mod 10 = z) as Ez by (apply Z.mod_small; lia); rewrite Ez in *;
    split_and!; [by repeat constructor|by unfold digits_value; simpl; lia|by exists z, []|simpl; lia].
  { simpl in Hf. lia. }
  rewrite decimal_loop_app. assert (0 ≤ z / 10) as Hq by (apply Z.div_pos; lia).
  destruct (IH (z / 10) Hq) as (Hdig & Hval & (d & t & Hd0 & E & Hpos) & Hlen).
  { rewrite Nat2Z.inj_succ, <-Z.add_1_r, Z.pow_add_r in Hf by lia.
    apply Z.div_lt_upper_bound; lia. }
  split_and!.
  - apply list.Forall_app. split; [done|by repeat constructor].
  - rewrite digits_value_app, Hval. unfold digits_value; simpl. lia.
  - exists d, (t ++ [digit_chr (z mod 10)]). rewrite E. split_and!; [lia|lia|done|].
    intros _. apply Hpos. lia.
  - intros w Hw Hlt. rewrite length_app; simpl. destruct w as [|[|w]]; [lia|simpl in Hlt; lia|].
    rewrite Nat2Z.inj_succ, Z.pow_succ_r in Hlt by lia.
    specialize (Hlen (S w) ltac:(lia)). enough (z / 10 < 10 ^ Z.of_nat (S w)) as Hlt' by (specialize (Hlen Hlt'); lia).
    apply Z.div_lt_upper_bound; lia.
Qed.

Lemma decimal_pad_spec w z : (0 < w)%nat → 0 ≤ z < 10 ^ Z.of_nat w →
  length (decimal_pad w z) = w ∧ digits_value 10 (decimal_pad w z) = z ∧
  Forall (λ c, isdigit c = true) (decimal_pad w z).
Proof.
  intros Hw [Hz Hlt]. destruct (decimal_spec z Hz) as (Hd & Hv & _ & Hl).
  specialize (Hl w Hw Hlt). unfold decimal_pad. split_and!.
  - rewrite length_app, length_replicate. lia.
  - rewrite digits_value_app, Hv. enough (digits_value 10 (replicate (w - length (decimal z)) "0"%char) = 0)
      as -> by lia.
    generalize (w - length (decimal z))%nat. intros n. unfold digits_value.
    induction n as [|n IH]; [done|]. simpl. apply IH.
  - apply list.Forall_app. split; [|done]. by apply Forall_replicate.
Qed.

Lemma isdigit_base c : isdigit c = true → is_base_digit 10 c = true ∧ isspace c = false ∧
  c ≠ "-"%char ∧ c ≠ "+"%char ∧ c ≠ NUL.
Proof.
  intros H. unfold is_base_digit, digit_value, isspace. rewrite H.
  unfold isdigit, chr_in in *. breflect.
  split_and!; [apply Z.ltb_lt; lia| |intros ->; done..].
  rewrite (proj2 (Z.leb_gt (chr_code c) 13)), (proj2 (Z.eqb_neq (chr_code c) 32)) by lia.
  by rewrite andb_false_r.
Qed.

Lemma split_base_decimal z : 0 ≤ z →
  let '(base, t) := split_base (decimal z) in
  t = decimal z ∧ Forall (λ c, is_base_digit base c = true) t ∧ digits_value base t = z.
Proof.
  intros Hz. destruct (decimal_spec z Hz) as (Hd & Hv & (d & t & Hd0 & E & Hpos) & _).
  destruct (decide (z = 0)) as [->|Hnz]; [by repeat constructor|].
  assert (split_base (decimal z) = (10, decimal z)) as ->.
  { rewrite E. specialize (Hpos ltac:(lia)).
    assert (d = 1 ∨ d = 2 ∨ d = 3 ∨ d = 4 ∨ d = 5 ∨ d = 6 ∨ d = 7 ∨ d = 8 ∨ d = 9) as Hds by lia.
    destruct_or! Hds; by subst d. }
  split_and!; [done| |done]. eapply list.Forall_impl; [exact Hd|]. intros c. apply isdigit_base.
Qed.

Lemma scan_decimal (neg : bool) z : 0 ≤ z →
  let s := (if neg then ["-"%char] else []) ++ decimal z in
  scan_number s = Some (neg, z, length s) ∧ s ≠ [].
Proof.
  intros Hz s. destruct (decimal_spec z Hz) as (Hd & _ & (d & t & _ & E & _) & _).
  assert (isdigit (digit_chr d) = true) as Hd1 by (rewrite E in Hd; by apply Forall_cons_1 in Hd as [? _]).
  apply isdigit_base in Hd1 as (_ & Hsp & Hm & Hp & _).
  assert (drop (span_len isspace s) s = s) as Hdrop.
  { unfold s. destruct neg; [done|]. rewrite E. simpl. by rewrite Hsp. }
  assert (split_sign s = (neg, decimal z)) as Hsign.
  { unfold s. destruct neg; [done|]. rewrite E. simpl.
    by rewrite (bool_decide_false (_ = "-"%char)), (bool_decide_false (_ = "+"%char)). }
  split; [|unfold s; rewrite E; by destruct neg]. unfold scan_number. rewrite Hdrop, Hsign.
  pose proof (split_base_decimal z Hz) as Hb. destruct (split_base (decimal z)) as [base u].
  destruct Hb as (-> & Hbd & Hv). rewrite span_len_all by done.
  rewrite take_ge, drop_all, Hv by lia. rewrite E. simpl. by rewrite Nat.sub_0_r.
Qed.

(** Numbers survive printing and parsing: what [%PRIi64] prints,
    [strtoderive] reads back for every signed 64-bit number, and what [%PRIu64]
    prints, [strtocounter] for every unsigned one; a number that is out of range
    is refused. *)
Theorem strto_roundtrip z :
  (- 2 ^ 63 ≤ z < 2 ^ 63 → strtoderive (Some (decimal_signed z)) = (0, Some z)) ∧
  (in_u64 z → strtocounter (Some (decimal z)) = (0, Some z)) ∧
  (z < - 2 ^ 63 ∨ 2 ^ 63 ≤ z → strtoderive (Some (decimal_signed z)) = (-1, None)) ∧
  (2 ^ 64 ≤ z → strtocounter (Some (decimal z)) = (-1, None)).
Proof.
  assert (∀ (neg : bool) m, 0 ≤ m → strtoll ((if neg then ["-"%char] else []) ++ decimal m)
    = let z := if neg then - m else m in
      let n := length ((if neg then ["-"%char] else []) ++ decimal m) in
      if z <? - 2 ^ 63 then {| st_value := - 2 ^ 63; st_consumed := n; st_erange := true |}
      else if 2 ^ 63 <=? z then {| st_value := 2 ^ 63 - 1; st_consumed := n; st_erange := true |}
      else {| st_value := z; st_consumed := n; st_erange := false |}) as Hll.
  { intros neg m Hm. unfold strtoll. by destruct (scan_decimal neg m Hm) as [-> _]. }
  assert (strtoderive (Some (decimal_signed z))
    = if (- 2 ^ 63 <=? z) && (z <? 2 ^ 63) then (0, Some z) else (-1, None)) as Hder.
  { assert (∃ (neg : bool) m, 0 ≤ m ∧ z = (if neg then - m else m) ∧
      decimal_signed z = (if neg then ["-"%char] else []) ++ decimal m) as (neg & m & Hm & Ez & ->).
    { unfold decimal_signed. destruct (Z.ltb_spec z 0); [exists true, (- z)|exists false, z];
        split_and!; [lia|lia|done|lia|lia|done]. }
    unfold strtoderive. rewrite Hll by done. destruct (scan_decimal neg m Hm) as [_ Hne].
    rewrite <-Ez. cbv zeta. destruct (length _) eqn:El; [by apply nil_length_inv in El|].
    destruct (Z.ltb_spec z (- 2 ^ 63)), (Z.leb_spec (2 ^ 63) z), (Z.leb_spec (- 2 ^ 63) z),
      (Z.ltb_spec z (2 ^ 63)); try lia; done. }
  assert (0 ≤ z → strtocounter (Some (decimal z)) = if z <? 2 ^ 64 then (0, Some z) else (-1, None)) as Hcnt.
  { intros Hz. unfold strtocounter, strtoull. destruct (scan_decimal false z Hz) as [E Hne].
    cbn [app] in E, Hne. rewrite E. destruct (length (decimal z)) eqn:El; [by apply nil_length_inv in El|].
    destruct (Z.ltb_spec z (2 ^ 64)); simpl; [|done]. do 2 f_equal.
    unfold i64, u64, wrap. rewrite Zminus_mod_idemp_l. rewrite Z.add_simpl_r. apply Z.mod_small. lia. }
  rewrite Hder. split_and!.
  - intros H. by rewrite (proj2 (Z.leb_le _ _)), (proj2 (Z.ltb_lt _ _)) by lia.
  - intros [H1 H2]. rewrite Hcnt by done. by rewrite (proj2 (Z.ltb_lt _ _)).
  - intros [H|H]; [by rewrite (proj2 (Z.leb_gt _ _))|by rewrite (proj2 (Z.ltb_ge _ _)), andb_false_r].
  - intros H. rewrite Hcnt by lia. by rewrite (proj2 (Z.ltb_ge _ _)).
Qed.

Lemma strto_roundtrip_witness :
  strtoderive (Some (decimal_signed (-42))) = (0, Some (-42)) ∧ decimal_signed (-42) = $"-42".
Proof. split; [apply (strto_roundtrip (-42)); lia|done]. Defined.
