(* ===== verification/Time.v ===== *)
(** * Time: src/daemon/utils_time.h and utils_time.c

    [cdtime_t] counts units of 2^-30 seconds in 64 bits.  The conversion
    macros split a time into seconds and a fraction, and join the two parts
    with shifts and bitwise or; here they are shown to be exact roundings, to
    invert each other, and never to leave 64 bits unless the time does not fit.
    The RFC 3339 printers write into a buffer of bytes; [gmtime_r] and the
    [strftime] conversions they use are those of the C library, [localtime_r]
    (the time zone) is a parameter. *)

From Stdlib Require Import ZArith Lia Ascii String.
From stdpp Require Import base numbers list option.
From S2P Require Import Prelude StrBuf CommonStr.

(** ** The conversion macros *)

(** [uint64_t] shifts and sums wrap at 64 bits. *)
Definition TIME_T_TO_CDTIME_T (t : Z) : Z := u64 (Z.shiftl (u64 t) 30).

Definition MS_TO_CDTIME_T (ms : Z) : Z :=
  let ms := u64 ms in
  Z.lor (u64 (Z.shiftl (ms / 1000) 30))
        (u64 (u64 (Z.shiftl (ms mod 1000) 30) + 500) / 1000).
Definition US_TO_CDTIME_T (us : Z) : Z :=
  let us := u64 us in
  Z.lor (u64 (Z.shiftl (us / 1000000) 30))
        (u64 (u64 (Z.shiftl (us mod 1000000) 30) + 500000) / 1000000).
Definition NS_TO_CDTIME_T (ns : Z) : Z :=
  let ns := u64 ns in
  Z.lor (u64 (Z.shiftl (ns / 1000000000) 30))
        (u64 (u64 (Z.shiftl (ns mod 1000000000) 30) + 500000000) / 1000000000).

Definition CDTIME_T_TO_TIME_T (t : Z) : Z :=
  i64 (Z.shiftr (u64 (t + Z.shiftl 1 29)) 30).
Definition CDTIME_T_TO_MS (t : Z) : Z :=
  u64 (u64 (Z.shiftr t 30 * 1000)
       + Z.shiftr (u64 (u64 (Z.land t 0x3fffffff * 1000) + Z.shiftl 1 29)) 30).
Definition CDTIME_T_TO_US (t : Z) : Z :=
  u64 (u64 (Z.shiftr t 30 * 1000000)
       + Z.shiftr (u64 (u64 (Z.land t 0x3fffffff * 1000000) + Z.shiftl 1 29)) 30).
Definition CDTIME_T_TO_NS (t : Z) : Z :=
  u64 (u64 (Z.shiftr t 30 * 1000000000)
       + Z.shiftr (u64 (u64 (Z.land t 0x3fffffff * 1000000000) + Z.shiftl 1 29)) 30).

Record timeval := { tv_sec : Z; tv_usec : Z }.
Record timespec := { ts_sec : Z; ts_nsec : Z }.

Definition CDTIME_T_TO_TIMEVAL (t : Z) : timeval :=
  {| tv_sec := i64 (Z.shiftr t 30);
     tv_usec := i64 (Z.shiftr (u64 (u64 (Z.land t 0x3fffffff * 1000000) + Z.shiftl 1 29)) 30) |}.
(** [1000000 * tv_sec + tv_usec] is signed arithmetic: [None] where it
    overflows. *)
Definition TIMEVAL_TO_CDTIME_T (tv : timeval) : option Z :=
  let us := 1000000 * tv_sec tv + tv_usec tv in
  if (- 2 ^ 63 <=? 1000000 * tv_sec tv) && (1000000 * tv_sec tv <? 2 ^ 63)
     && (- 2 ^ 63 <=? us) && (us <? 2 ^ 63)
  then Some (US_TO_CDTIME_T us) else None.

Definition CDTIME_T_TO_TIMESPEC (t : Z) : timespec :=
  {| ts_sec := i64 (Z.shiftr t 30);
     ts_nsec :=
       i64 (Z.shiftr (u64 (u64 (Z.land t 0x3fffffff * 1000000000) + Z.shiftl 1 29)) 30) |}.
Definition TIMESPEC_TO_CDTIME_T (ts : timespec) : Z :=
  NS_TO_CDTIME_T (u64 (u64 (1000000000 * ts_sec ts) + ts_nsec ts)).

(** common.h; C division truncates. *)
Definition NORMALIZE_TIMESPEC (ts : timespec) : timespec :=
  {| ts_sec := ts_sec ts + Z.quot (ts_nsec ts) 1000000000;
     ts_nsec := Z.rem (ts_nsec ts) 1000000000 |}.

(** [cdtime]: the clock answers a time or fails. *)
Definition cdtime (clock : option timespec) : Z :=
  match clock with Some ts => TIMESPEC_TO_CDTIME_T ts | None => 0 end.

(** *** Shifts as arithmetic

    One lemma for each direction covers the three resolutions. *)

Lemma shiftl_30 z : Z.shiftl z 30 = z * 2 ^ 30.
Proof. by rewrite Z.shiftl_mul_pow2. Qed.

Lemma shiftr_30 z : Z.shiftr z 30 = z / 2 ^ 30.
Proof. by rewrite Z.shiftr_div_pow2. Qed.

Lemma land_30 z : Z.land z 0x3fffffff = z mod 2 ^ 30.
Proof. change 0x3fffffff with (Z.ones 30). by rewrite Z.land_ones. Qed.

(** Disjoint parts: bitwise or is addition. *)
Lemma lor_low a b : 0 ≤ b < 2 ^ 30 → Z.lor (a * 2 ^ 30) b = a * 2 ^ 30 + b.
Proof.
  intros Hb. rewrite <-Z.add_lor_land.
  enough (Z.land (a * 2 ^ 30) b = 0) as ->; [lia|].
  apply Z.bits_inj'. intros n Hn. rewrite Z.land_spec, Z.bits_0.
  destruct (Z.lt_ge_cases n 30).
  - by rewrite Z.mul_pow2_bits_low.
  - rewrite (Z.bits_above_log2 b), andb_false_r; [done|lia|].
    destruct (decide (b = 0)) as [->|]; [simpl; lia|].
    apply Z.lt_le_trans with 30; [apply Z.log2_lt_pow2; lia|done].
Qed.

Lemma u64_add_l a b : u64 (u64 a + b) = u64 (a + b).
Proof. apply Z.add_mod_idemp_l. lia. Qed.

Lemma u64_shift a : u64 (a * 2 ^ 30) = (a mod 2 ^ 34) * 2 ^ 30.
Proof.
  unfold u64, wrap. change (2 ^ 64) with (2 ^ 34 * 2 ^ 30).
  by rewrite Z.mul_mod_distr_r.
Qed.

(** Into units of 2^-30 s: division of the whole number, rounded half up. *)
Lemma to_cdtime_round h x :
  0 < h ≤ 500000000 → 0 ≤ x →
  Z.lor (u64 (Z.shiftl (x / (2 * h)) 30))
        (u64 (u64 (Z.shiftl (x mod (2 * h)) 30) + h) / (2 * h))
  = u64 ((x * 2 ^ 30 + h) / (2 * h)).
Proof.
  intros Hh Hx.
  pose proof (Z.mod_pos_bound x (2 * h) ltac:(lia)) as Hr.
  pose proof (Z_div_mod_eq_full x (2 * h)) as Ex.
  set (q := x / (2 * h)) in *. set (r := x mod (2 * h)) in *. clearbody q r.
  rewrite !shiftl_30, u64_shift, (u64_small (r * 2 ^ 30)), (u64_small (r * 2 ^ 30 + h));
    [|unfold in_u64; lia..].
  assert (0 ≤ (r * 2 ^ 30 + h) / (2 * h) < 2 ^ 30) as Hlow.
  { split; [apply Z.div_pos; lia|]. apply Z.div_lt_upper_bound; lia. }
  rewrite lor_low by done.
  assert (x * 2 ^ 30 + h = q * 2 ^ 30 * (2 * h) + (r * 2 ^ 30 + h)) as ->.
  { rewrite Ex. ring. }
  rewrite Z.div_add_l by lia.
  rewrite <-u64_add_l, u64_shift, u64_small; [done|].
  pose proof (Z.mod_pos_bound q (2 ^ 34) ltac:(lia)). unfold in_u64. lia.
Qed.

(** Out of units of 2^-30 s. *)
Lemma of_cdtime_round u t :
  0 < u ≤ 1000000000 → in_u64 t →
  u64 (u64 (Z.shiftr t 30 * u)
       + Z.shiftr (u64 (u64 (Z.land t 0x3fffffff * u) + Z.shiftl 1 29)) 30)
  = (t * u + 2 ^ 29) / 2 ^ 30.
Proof.
  intros Hu [Ht Ht'].
  rewrite !shiftr_30, land_30. change (Z.shiftl 1 29) with (2 ^ 29).
  pose proof (Z.mod_pos_bound t (2 ^ 30) ltac:(lia)) as Hr.
  assert (0 ≤ t / 2 ^ 30 < 2 ^ 34) as Hq.
  { split; [apply Z.div_pos; lia|]. apply Z.div_lt_upper_bound; lia. }
  pose proof (Z_div_mod_eq_full t (2 ^ 30)) as Et.
  set (q := t / 2 ^ 30) in *. set (r := t mod 2 ^ 30) in *. clearbody q r.
  assert (0 ≤ q * u ≤ (2 ^ 34 - 1) * u) as Hqu by nia.
  assert (0 ≤ r * u ≤ (2 ^ 30 - 1) * u) as Hru by nia.
  rewrite (u64_small (q * u)), (u64_small (r * u)), (u64_small (r * u + 2 ^ 29));
    [|unfold in_u64; lia..].
  assert (t * u + 2 ^ 29 = q * u * 2 ^ 30 + (r * u + 2 ^ 29)) as ->.
  { rewrite Et. ring. }
  rewrite Z.div_add_l by lia.
  assert (0 ≤ (r * u + 2 ^ 29) / 2 ^ 30 ≤ u).
  { split; [apply Z.div_pos; lia|].
    enough ((r * u + 2 ^ 29) / 2 ^ 30 < u + 1) by lia. apply Z.div_lt_upper_bound; lia. }
  apply u64_small. unfold in_u64. lia.
Qed.

(** Rounding there and back is exact while the units are coarser than
    2^-30 s. *)
Lemma round_trip h x :
  0 < h < 2 ^ 29 → 0 ≤ x →
  ((x * 2 ^ 30 + h) / (2 * h) * (2 * h) + 2 ^ 29) / 2 ^ 30 = x.
Proof.
  intros Hh Hx. set (c := (x * 2 ^ 30 + h) / (2 * h)).
  assert (2 * h * c ≤ x * 2 ^ 30 + h < 2 * h * c + 2 * h) as Hc.
  { pose proof (Z_div_mod_eq_full (x * 2 ^ 30 + h) (2 * h)) as E. fold c in E.
    pose proof (Z.mod_pos_bound (x * 2 ^ 30 + h) (2 * h) ltac:(lia)). lia. }
  symmetry. apply (Z.div_unique_pos _ _ _ (c * (2 * h) + 2 ^ 29 - 2 ^ 30 * x)); lia.
Qed.

Lemma ts_frac u r :
  0 < u ≤ 1000000000 → 0 ≤ r < 2 ^ 30 →
  i64 (Z.shiftr (u64 (u64 (r * u) + Z.shiftl 1 29)) 30) = (r * u + 2 ^ 29) / 2 ^ 30
  ∧ 0 ≤ (r * u + 2 ^ 29) / 2 ^ 30 ≤ u.
Proof.
  intros Hu Hr. assert (0 ≤ r * u ≤ (2 ^ 30 - 1) * u) by nia.
  rewrite shiftr_30. change (Z.shiftl 1 29) with (2 ^ 29).
  rewrite (u64_small (r * u)), u64_small by (unfold in_u64; lia).
  assert (0 ≤ (r * u + 2 ^ 29) / 2 ^ 30 < u + 1).
  { split; [apply Z.div_pos; lia|]. apply Z.div_lt_upper_bound; lia. }
  rewrite i64_small by lia. lia.
Qed.

Lemma cdtime_parts t : in_u64 t →
  t = t / 2 ^ 30 * 2 ^ 30 + t mod 2 ^ 30 ∧ 0 ≤ t mod 2 ^ 30 < 2 ^ 30 ∧
  0 ≤ t / 2 ^ 30 < 2 ^ 34 ∧ i64 (Z.shiftr t 30) = t / 2 ^ 30.
Proof.
  intros [Ht Ht']. pose proof (Z_div_mod_eq_full t (2 ^ 30)).
  assert (0 ≤ t / 2 ^ 30 < 2 ^ 34) as Hq.
  { split; [apply Z.div_pos; lia|]. apply Z.div_lt_upper_bound; lia. }
  split_and!; [lia|apply Z.mod_pos_bound; lia..|lia|lia|].
  rewrite shiftr_30. apply i64_small. lia.
Qed.

(** The two parts of a converted time. *)
Lemma to_timespec t : in_u64 t →
  ts_sec (CDTIME_T_TO_TIMESPEC t) = t / 2 ^ 30 ∧
  ts_nsec (CDTIME_T_TO_TIMESPEC t) = (t mod 2 ^ 30 * 1000000000 + 2 ^ 29) / 2 ^ 30 ∧
  0 ≤ ts_nsec (CDTIME_T_TO_TIMESPEC t) < 1000000000.
Proof.
  intros Ht. destruct (cdtime_parts t Ht) as (_ & Hr & _ & Hs). simpl.
  rewrite land_30. destruct (ts_frac 1000000000 (t mod 2 ^ 30)) as [-> Hb]; [lia..|].
  split_and!; [done|done|lia|]. apply Z.div_lt_upper_bound; lia.
Qed.

Lemma to_timeval t : in_u64 t →
  tv_sec (CDTIME_T_TO_TIMEVAL t) = t / 2 ^ 30 ∧
  tv_usec (CDTIME_T_TO_TIMEVAL t) = (t mod 2 ^ 30 * 1000000 + 2 ^ 29) / 2 ^ 30 ∧
  0 ≤ tv_usec (CDTIME_T_TO_TIMEVAL t) ≤ 1000000.
Proof.
  intros Ht. destruct (cdtime_parts t Ht) as (_ & Hr & _ & Hs). simpl.
  rewrite land_30. destruct (ts_frac 1000000 (t mod 2 ^ 30)) as [-> Hb]; [lia..|]. auto.
Qed.

(** The parts of a time that was put together from parts. *)
Lemma parts_round h s f :
  0 < h ≤ 500000000 → 0 ≤ s < 2 ^ 34 → 0 ≤ f < 2 * h →
  let c := ((2 * h * s + f) * 2 ^ 30 + h) / (2 * h) in
  in_u64 c ∧ c / 2 ^ 30 = s ∧ (c mod 2 ^ 30 * (2 * h) + 2 ^ 29) / 2 ^ 30 = f.
Proof.
  intros Hh Hs Hf c.
  assert (c = s * 2 ^ 30 + (f * 2 ^ 30 + h) / (2 * h)) as Ec.
  { unfold c. rewrite <-Z.div_add_l by lia. f_equal. ring. }
  assert (0 ≤ (f * 2 ^ 30 + h) / (2 * h) < 2 ^ 30) as Hlow.
  { split; [apply Z.div_pos; lia|]. apply Z.div_lt_upper_bound; lia. }
  pose proof (round_trip h f ltac:(lia) ltac:(lia)) as Hback.
  set (low := (f * 2 ^ 30 + h) / (2 * h)) in *. clearbody low c. subst c.
  rewrite Z.div_add_l, (Z.div_small low), (Z.add_comm (s * _)), Z.mod_add, Z.mod_small by lia.
  unfold in_u64. split_and!; lia.
Qed.

Lemma ms_exact x : in_u64 x → MS_TO_CDTIME_T x = u64 ((x * 2 ^ 30 + 500) / 1000).
Proof.
  intros Hx. unfold MS_TO_CDTIME_T. rewrite (u64_small x Hx). apply (to_cdtime_round 500), Hx. lia.
Qed.

Lemma us_exact x : in_u64 x → US_TO_CDTIME_T x = u64 ((x * 2 ^ 30 + 500000) / 1000000).
Proof.
  intros Hx. unfold US_TO_CDTIME_T. rewrite (u64_small x Hx).
  apply (to_cdtime_round 500000), Hx. lia.
Qed.

Lemma ns_exact x : in_u64 x → NS_TO_CDTIME_T x = u64 ((x * 2 ^ 30 + 500000000) / 1000000000).
Proof.
  intros Hx. unfold NS_TO_CDTIME_T. rewrite (u64_small x Hx).
  apply (to_cdtime_round 500000000), Hx. lia.
Qed.

(** A converted time that fits is not truncated. *)
Lemma to_cdtime_fits h x :
  0 < h ≤ 500000000 → 0 ≤ x < 2 ^ 34 * (2 * h) →
  in_u64 x ∧ in_u64 ((x * 2 ^ 30 + h) / (2 * h)) ∧
  u64 ((x * 2 ^ 30 + h) / (2 * h)) = (x * 2 ^ 30 + h) / (2 * h).
Proof.
  intros Hh Hx. assert (in_u64 ((x * 2 ^ 30 + h) / (2 * h))).
  { split; [apply Z.div_pos; lia|]. apply Z.div_lt_upper_bound; lia. }
  split; [unfold in_u64; lia|]. split; [done|by apply u64_small].
Qed.

(** The conversion macros compute exact roundings: with [u] units to the
    second, the macros into [cdtime_t] are [x * 2^30 / u] and the macros out of
    it [t * u / 2^30], both rounded half up, although the code works on seconds
    and fractions apart and joins them with shifts and bitwise or.  The macros
    out of [cdtime_t] never overflow; the macros into it wrap exactly when the
    time does not fit into 64 bits. *)
Theorem cdtime_conversions_exact x t : in_u64 x → in_u64 t →
  TIME_T_TO_CDTIME_T x = u64 (x * 2 ^ 30) ∧
  MS_TO_CDTIME_T x = u64 ((x * 2 ^ 30 + 500) / 1000) ∧
  US_TO_CDTIME_T x = u64 ((x * 2 ^ 30 + 500000) / 1000000) ∧
  NS_TO_CDTIME_T x = u64 ((x * 2 ^ 30 + 500000000) / 1000000000) ∧
  CDTIME_T_TO_MS t = (t * 1000 + 2 ^ 29) / 2 ^ 30 ∧
  CDTIME_T_TO_US t = (t * 1000000 + 2 ^ 29) / 2 ^ 30 ∧
  CDTIME_T_TO_NS t = (t * 1000000000 + 2 ^ 29) / 2 ^ 30 ∧
  (t < 2 ^ 64 - 2 ^ 29 → CDTIME_T_TO_TIME_T t = (t + 2 ^ 29) / 2 ^ 30).
Proof.
  intros Hx Ht. split_and!; [|by apply ms_exact|by apply us_exact|by apply ns_exact|..].
  - unfold TIME_T_TO_CDTIME_T. by rewrite (u64_small x Hx), shiftl_30.
  - apply of_cdtime_round; [lia|done].
  - apply of_cdtime_round; [lia|done].
  - apply of_cdtime_round; [lia|done].
  - intros Hlt. unfold CDTIME_T_TO_TIME_T. change (Z.shiftl 1 29) with (2 ^ 29).
    unfold in_u64 in Ht. rewrite u64_small, shiftr_30 by (unfold in_u64; lia).
    apply i64_small. split; [etrans; [|apply Z.div_pos]; lia|].
    apply Z.div_lt_upper_bound; lia.
Qed.

Lemma cdtime_conversions_exact_witness :
  MS_TO_CDTIME_T 1500 = u64 ((1500 * 2 ^ 30 + 500) / 1000).
Proof. apply (cdtime_conversions_exact 1500 0); by split. Defined.

(** Times in milli-, micro- and nanoseconds, and valid [timespec] and
    [timeval] structures, survive the way into [cdtime_t] and back. *)
Theorem cdtime_roundtrip x s f : 0 ≤ x → 0 ≤ s < 2 ^ 34 →
  (x < 2 ^ 34 * 1000 → CDTIME_T_TO_MS (MS_TO_CDTIME_T x) = x) ∧
  (x < 2 ^ 34 * 1000000 → CDTIME_T_TO_US (US_TO_CDTIME_T x) = x) ∧
  (x < 2 ^ 34 * 1000000000 → CDTIME_T_TO_NS (NS_TO_CDTIME_T x) = x) ∧
  CDTIME_T_TO_TIME_T (TIME_T_TO_CDTIME_T s) = s ∧
  (0 ≤ f < 1000000000 →
     CDTIME_T_TO_TIMESPEC (TIMESPEC_TO_CDTIME_T {| ts_sec := s; ts_nsec := f |})
     = {| ts_sec := s; ts_nsec := f |}) ∧
  (0 ≤ f < 1000000 →
     CDTIME_T_TO_TIMEVAL <$> TIMEVAL_TO_CDTIME_T {| tv_sec := s; tv_usec := f |}
     = Some {| tv_sec := s; tv_usec := f |}).
Proof.
  intros Hx Hs. split_and!.
  - intros Hlt. destruct (to_cdtime_fits 500 x) as (? & Hc & E); [lia..|].
    rewrite ms_exact by done. change (2 * 500) with 1000 in *. rewrite E.
    etrans; [by apply of_cdtime_round|by apply (round_trip 500)].
  - intros Hlt. destruct (to_cdtime_fits 500000 x) as (? & Hc & E); [lia..|].
    rewrite us_exact by done. change (2 * 500000) with 1000000 in *. rewrite E.
    etrans; [by apply of_cdtime_round|by apply (round_trip 500000)].
  - intros Hlt. destruct (to_cdtime_fits 500000000 x) as (? & Hc & E); [lia..|].
    rewrite ns_exact by done. change (2 * 500000000) with 1000000000 in *. rewrite E.
    etrans; [by apply of_cdtime_round|by apply (round_trip 500000000)].
  - unfold CDTIME_T_TO_TIME_T, TIME_T_TO_CDTIME_T. change (Z.shiftl 1 29) with (2 ^ 29).
    rewrite (u64_small s), shiftl_30, (u64_small (s * 2 ^ 30)) by (unfold in_u64; lia).
    rewrite u64_small by (unfold in_u64; lia).
    rewrite shiftr_30, Z.div_add_l, Z.div_small, Z.add_0_r by lia. apply i64_small. lia.
  - intros Hf. unfold TIMESPEC_TO_CDTIME_T; cbn [ts_sec ts_nsec].
    rewrite (u64_small (1000000000 * s)), (u64_small (1000000000 * s + f)) by (unfold in_u64; lia).
    destruct (parts_round 500000000 s f) as (Hc & E1 & E2); [lia..|].
    change (2 * 500000000) with 1000000000 in *.
    rewrite ns_exact, u64_small by (done || unfold in_u64; lia).
    destruct (to_timespec _ Hc) as (H1 & H2 & _). rewrite E1 in H1. rewrite E2 in H2.
    destruct (CDTIME_T_TO_TIMESPEC _); simpl in *; by subst.
  - intros Hf. unfold TIMEVAL_TO_CDTIME_T; cbn [tv_sec tv_usec].
    destruct (parts_round 500000 s f) as (Hc & E1 & E2); [lia..|].
    change (2 * 500000) with 1000000 in *.
    rewrite !(proj2 (Z.leb_le _ _)), !(proj2 (Z.ltb_lt _ _)) by lia. simpl.
    rewrite us_exact, u64_small by (done || unfold in_u64; lia).
    destruct (to_timeval _ Hc) as (H1 & H2 & _). rewrite E1 in H1. rewrite E2 in H2.
    destruct (CDTIME_T_TO_TIMEVAL _); simpl in *; by subst.
Qed.

Lemma cdtime_roundtrip_witness : CDTIME_T_TO_NS (NS_TO_CDTIME_T 1439981652801860766) = 1439981652801860766.
Proof. apply (cdtime_roundtrip 1439981652801860766 0 0); lia. Defined.

(** A [timespec] made from a time is always normalised, but the [timeval]
    is not: the fraction is rounded up without a carry, so for the last 536
    units of every second [tv_usec] is 1000000, which is out of its range. *)
Theorem timeval_not_normalised t : in_u64 t →
  0 ≤ ts_nsec (CDTIME_T_TO_TIMESPEC t) < 1000000000 ∧
  NORMALIZE_TIMESPEC (CDTIME_T_TO_TIMESPEC t) = CDTIME_T_TO_TIMESPEC t ∧
  0 ≤ tv_usec (CDTIME_T_TO_TIMEVAL t) ≤ 1000000 ∧
  (tv_usec (CDTIME_T_TO_TIMEVAL t) = 1000000 ↔ 2 ^ 30 - 536 ≤ t mod 2 ^ 30).
Proof.
  intros Ht. destruct (to_timespec t Ht) as (_ & _ & Hn).
  destruct (to_timeval t Ht) as (_ & Hu & Hb).
  pose proof (Z.mod_pos_bound t (2 ^ 30) ltac:(lia)).
  split_and!; [lia..| |lia|lia|].
  - unfold NORMALIZE_TIMESPEC. rewrite Z.quot_small, Z.rem_small, Z.add_0_r by done.
    by destruct (CDTIME_T_TO_TIMESPEC t).
  - rewrite Hu. rewrite Hu in Hb. set (r := t mod 2 ^ 30) in *. clearbody r.
    pose proof (Z_div_mod_eq_full (r * 1000000 + 2 ^ 29) (2 ^ 30)).
    pose proof (Z.mod_pos_bound (r * 1000000 + 2 ^ 29) (2 ^ 30) ltac:(lia)). lia.
Qed.

Lemma timeval_not_normalised_witness :
  tv_usec (CDTIME_T_TO_TIMEVAL (2 ^ 30 - 1)) = 1000000 ∧ in_u64 (2 ^ 30 - 1).
Proof.
  split; [|by split]. apply (timeval_not_normalised (2 ^ 30 - 1)); [by split|by vm_compute].
Defined.

(** ** Broken-down times *)

Record tm := {
  tm_year : Z; (* the year itself, not its distance from 1900 *)
  tm_mon : Z; (* 1 .. 12 *)
  tm_mday : Z;
  tm_hour : Z;
  tm_min : Z;
  tm_sec : Z;
  tm_gmtoff : Z; (* seconds east of UTC *)
}.

Definition leap (y : Z) : bool :=
  ((y mod 4 =? 0) && negb (y mod 100 =? 0)) || (y mod 400 =? 0).
Definition year_days (y : Z) : Z := if leap y then 366 else 365.
Definition month_days (y m : Z) : Z :=
  if m =? 2 then if leap y then 29 else 28
  else if (m =? 4) || (m =? 6) || (m =? 9) || (m =? 11) then 30 else 31.

(** The C library's [gmtime_r], as repeated subtraction of years and months. *)
Fixpoint find_year (fuel : nat) (y d : Z) : Z * Z :=
  match fuel with
  | O => (y, d)
  | S fuel => if d <? year_days y then (y, d) else find_year fuel (y + 1) (d - year_days y)
  end.
Fixpoint find_month (fuel : nat) (y m d : Z) : Z * Z :=
  match fuel with
  | O => (m, d)
  | S fuel => if d <? month_days y m then (m, d)
              else find_month fuel y (m + 1) (d - month_days y m)
  end.
Definition broken_down (t gmtoff : Z) : tm :=
  let d := (t + gmtoff) / 86400 in
  let s := (t + gmtoff) mod 86400 in
  let '(y, yd) := find_year (Z.to_nat (d / 365)) 1970 d in
  let '(m, md) := find_month 11 y 1 yd in
  {| tm_year := y; tm_mon := m; tm_mday := md + 1;
     tm_hour := s / 3600; tm_min := s mod 3600 / 60; tm_sec := s mod 60;
     tm_gmtoff := gmtoff |}.
Definition gmtime_r (t : Z) : tm := broken_down t 0.

(** The day number of a date, from the lengths of the years and months before
    it: what [gmtime_r] inverts. *)
Fixpoint days_of_years (n : nat) : Z :=
  match n with O => 0 | S n => days_of_years n + year_days (1970 + Z.of_nat n) end.
Fixpoint days_of_months (y : Z) (n : nat) : Z :=
  match n with O => 0 | S n => days_of_months y n + month_days y (1 + Z.of_nat n) end.
Definition day_number (y m d : Z) : Z :=
  days_of_years (Z.to_nat (y - 1970)) + days_of_months y (Z.to_nat (m - 1)) + (d - 1).
Definition timegm (x : tm) : Z :=
  day_number (tm_year x) (tm_mon x) (tm_mday x) * 86400
  + tm_hour x * 3600 + tm_min x * 60 + tm_sec x - tm_gmtoff x.

Definition valid_tm (x : tm) : Prop :=
  1970 ≤ tm_year x ∧ 1 ≤ tm_mon x ≤ 12 ∧
  1 ≤ tm_mday x ≤ month_days (tm_year x) (tm_mon x) ∧
  0 ≤ tm_hour x < 24 ∧ 0 ≤ tm_min x < 60 ∧ 0 ≤ tm_sec x < 60.

Lemma year_days_bounds y : 365 ≤ year_days y ≤ 366.
Proof. unfold year_days. destruct (leap y); lia. Qed.

Lemma days_of_months_year y : days_of_months y 12 = year_days y.
Proof.
  unfold days_of_months, month_days, year_days. simpl. destruct (leap y); reflexivity.
Qed.

Lemma find_year_spec fuel n d : 0 ≤ d → d < 365 * (Z.of_nat fuel + 1) →
  ∃ k, find_year fuel (1970 + Z.of_nat n) d = (1970 + Z.of_nat (n + k), d + days_of_years n - days_of_years (n + k))
       ∧ (k ≤ fuel)%nat
       ∧ 0 ≤ d + days_of_years n - days_of_years (n + k) < year_days (1970 + Z.of_nat (n + k)).
Proof.
  revert n d. induction fuel as [|fuel IH]; intros n d Hd Hlt; simpl.
  - exists 0%nat. rewrite Nat.add_0_r. pose proof (year_days_bounds (1970 + Z.of_nat n)).
    split_and!; [f_equal|..]; lia.
  - pose proof (year_days_bounds (1970 + Z.of_nat n)).
    destruct (Z.ltb_spec d (year_days (1970 + Z.of_nat n))).
    + exists 0%nat. rewrite Nat.add_0_r. split_and!; [f_equal|..]; lia.
    + destruct (IH (S n) (d - year_days (1970 + Z.of_nat n))) as (k & E & Hk & Hr);
        [lia|lia|].
      exists (S k). rewrite Nat.add_succ_r. cbn [days_of_years] in Hr, E.
      replace (1970 + Z.of_nat n + 1) with (1970 + Z.of_nat (S n)) by lia.
      rewrite E. cbn [Nat.add] in *. split_and!; [f_equal|..]; lia.
Qed.

Lemma find_month_spec y fuel n d : 0 ≤ d → (n + fuel = 11)%nat →
  d + days_of_months y n < year_days y →
  ∃ k, find_month fuel y (1 + Z.of_nat n) d
       = (1 + Z.of_nat (n + k), d + days_of_months y n - days_of_months y (n + k))
       ∧ (n + k ≤ 11)%nat
       ∧ 0 ≤ d + days_of_months y n - days_of_months y (n + k) < month_days y (1 + Z.of_nat (n + k)).
Proof.
  revert n d. induction fuel as [|fuel IH]; intros n d Hd Hn Hlt; cbn [find_month].
  - exists 0%nat. rewrite Nat.add_0_r. assert (n = 11%nat) as -> by lia.
    rewrite <-days_of_months_year in Hlt.
    change (days_of_months y 12) with 
      (days_of_months y 11 + month_days y (1 + Z.of_nat 11)) in Hlt.
    split_and!; [f_equal|..]; lia.
  - destruct (Z.ltb_spec d (month_days y (1 + Z.of_nat n))).
    + exists 0%nat. rewrite Nat.add_0_r. split_and!; [f_equal|..]; lia.
    + destruct (IH (S n) (d - month_days y (1 + Z.of_nat n))) as (k & E & Hk & Hr);
        [lia|lia|cbn [days_of_months]; lia|].
      exists (S k). rewrite Nat.add_succ_r. cbn [days_of_months] in Hr, E.
      replace (1 + Z.of_nat n + 1) with (1 + Z.of_nat (S n)) by lia.
      rewrite E. cbn [Nat.add] in *. split_and!; [f_equal|..]; lia.
Qed.

Lemma broken_down_spec t off : 0 ≤ t + off →
  valid_tm (broken_down t off) ∧ timegm (broken_down t off) = t ∧
  tm_year (broken_down t off) ≤ 1970 + (t + off) / 86400 / 365.
Proof.
  intros Ht. unfold broken_down.
  pose proof (Z_div_mod_eq_full (t + off) 86400) as E.
  pose proof (Z.mod_pos_bound (t + off) 86400 ltac:(lia)) as Hs.
  assert (0 ≤ (t + off) / 86400) as Hd by (apply Z.div_pos; lia).
  set (d := (t + off) / 86400) in *. set (s := (t + off) mod 86400) in *. clearbody d s.
  assert (0 ≤ d / 365) by (apply Z.div_pos; lia).
  pose proof (Z_div_mod_eq_full d 365). pose proof (Z.mod_pos_bound d 365 ltac:(lia)).
  destruct (find_year_spec (Z.to_nat (d / 365)) 0 d) as (k & Ey & Hk & Hyd); [lia..|].
  cbn [Nat.add Z.of_nat days_of_years] in Ey, Hyd. rewrite Z.add_0_r in *. rewrite Ey.
  set (y := 1970 + Z.of_nat k) in *.
  destruct (find_month_spec y 11 0 (d - days_of_years k)) as (j & Em & Hj & Hmd);
    [lia|done|cbn [days_of_months]; lia|].
  cbn [Nat.add days_of_months] in Em, Hmd. change (1 + Z.of_nat 0) with 1 in Em.
  rewrite Z.add_0_r in *. rewrite Em.
  set (m := 1 + Z.of_nat j) in *. set (md := d - days_of_years k - days_of_months y j) in *.
  pose proof (Z_div_mod_eq_full s 3600). pose proof (Z.mod_pos_bound s 3600 ltac:(lia)).
  pose proof (Z_div_mod_eq_full s 60). pose proof (Z.mod_pos_bound s 60 ltac:(lia)).
  pose proof (Z_div_mod_eq_full (s mod 3600) 60).
  assert (s mod 3600 mod 60 = s mod 60) as Emod
    by (apply Z.mod_mod_divide; by exists 60).
  unfold valid_tm, timegm, day_number; cbn [tm_year tm_mon tm_mday tm_hour tm_min tm_sec tm_gmtoff].
  replace (Z.to_nat (y - 1970)) with k by lia. replace (Z.to_nat (m - 1)) with j by lia.
  split_and!; lia.
Qed.

(** ** RFC 3339 *)

(** [strftime] of a text: 0 when it does not fit. *)
Definition strftime (buf : list ascii) (off size : nat) (s : cstr) : M (nat * list ascii) :=
  if (length s <? size)%nat
  then let* buf := store buf off (s ++ [NUL]) in ret (length s, buf)
  else ret (0%nat, buf).

(** ["%Y-%m-%dT%H:%M:%S"] *)
Definition date_text (t : tm) : cstr :=
  decimal_signed (tm_year t) ++ "-"%char :: decimal_pad 2 (tm_mon t) ++ "-"%char :: decimal_pad 2 (tm_mday t)
  ++ "T"%char :: decimal_pad 2 (tm_hour t) ++ ":"%char :: decimal_pad 2 (tm_min t)
  ++ ":"%char :: decimal_pad 2 (tm_sec t).
(** ["%z"]: a sign, hours and minutes. *)
Definition zone_text (t : tm) : cstr :=
  let m := Z.abs (tm_gmtoff t) / 60 in
  (if tm_gmtoff t <? 0 then "-"%char else "+"%char) :: decimal_pad 4 (m / 60 * 100 + m mod 60).

Definition zulu_zone : cstr := $"Z".

Definition format_zone (t : tm) : Z * cstr :=
  let tmp := zone_text t in
  if negb (length tmp <? 7)%nat then (ENOMEM, [])
  else match tmp with
       | [t0; t1; t2; t3; t4] => (0, [t0; t1; t2; ":"%char; t3; t4])
       | _ => (0, take 6 tmp)
       end.

Definition format_rfc3339 (buffer : list ascii) (t_tm : tm) (nsec : Z) (print_nano : bool) (zone : cstr)
    : M (Z * list ascii) :=
  let size_left := length buffer in
  let* '(len, buffer) := strftime buffer 0 size_left (date_text t_tm) in
  if (len =? 0)%nat then ret (ENOMEM, buffer)
  else
    let pos := len in
    let size_left := (size_left - len)%nat in
    let* '(pos, size_left, buffer) :=
      (if print_nano then
         let* '(len, buffer) := snprintf buffer pos size_left ("."%char :: decimal_pad 9 nsec) in
         (* a longer text would make size_left wrap *)
         let* _ := massert (len <=? size_left)%nat in
         ret ((pos + len)%nat, (size_left - len)%nat, buffer)
       else ret (pos, size_left, buffer)) in
    let* buffer := sstrncpy buffer pos zone size_left in
    ret (0, buffer).

(** [gmtime_r] does not fail: the year of a 34-bit number of seconds fits. *)
Definition get_utc_time (t : Z) : tm * Z :=
  let t_spec := NORMALIZE_TIMESPEC (CDTIME_T_TO_TIMESPEC t) in
  (gmtime_r (ts_sec t_spec), ts_nsec t_spec).

Definition format_rfc3339_utc (buffer : list ascii) (t : Z) (print_nano : bool) : M (Z * list ascii) :=
  let '(t_tm, nsec) := get_utc_time t in
  format_rfc3339 buffer t_tm nsec print_nano zulu_zone.

Definition RFC3339_SIZE : nat := 26.
Definition RFC3339NANO_SIZE : nat := 36.

Definition rfc3339 (buffer : list ascii) (t : Z) : M (Z * list ascii) :=
  if (length buffer <? RFC3339_SIZE)%nat then ret (ENOMEM, buffer)
  else format_rfc3339_utc buffer t false.
Definition rfc3339nano (buffer : list ascii) (t : Z) : M (Z * list ascii) :=
  if (length buffer <? RFC3339NANO_SIZE)%nat then ret (ENOMEM, buffer)
  else format_rfc3339_utc buffer t true.

(** The time zone: [localtime_r] answers the broken-down time, or an errno. *)
Section local.
Variable localtime_r : Z → Z + tm.

Definition get_local_time (t : Z) : Z + tm * Z :=
  let t_spec := NORMALIZE_TIMESPEC (CDTIME_T_TO_TIMESPEC t) in
  match localtime_r (ts_sec t_spec) with
  | inl errno => inl errno
  | inr t_tm => inr (t_tm, ts_nsec t_spec)
  end.

Definition format_rfc3339_local (buffer : list ascii) (t : Z) (print_nano : bool) : M (Z * list ascii) :=
  match get_local_time t with
  | inl status => ret (status, buffer)
  | inr (t_tm, nsec) =>
      let '(status, zone) := format_zone t_tm in
      if negb (status =? 0) then ret (status, buffer)
      else format_rfc3339 buffer t_tm nsec print_nano zone
  end.
Definition rfc3339_local (buffer : list ascii) (t : Z) : M (Z * list ascii) :=
  if (length buffer <? RFC3339_SIZE)%nat then ret (ENOMEM, buffer)
  else format_rfc3339_local buffer t false.
Definition rfc3339nano_local (buffer : list ascii) (t : Z) : M (Z * list ascii) :=
  if (length buffer <? RFC3339NANO_SIZE)%nat then ret (ENOMEM, buffer)
  else format_rfc3339_local buffer t true.
End local.

(** A reader of the format: the number at a fixed place. *)
Definition number_at (i n : nat) (s : cstr) : Z := digits_value 10 (take n (drop i s)).
Definition read_date (s : cstr) (gmtoff : Z) : tm :=
  {| tm_year := number_at 0 4 s; tm_mon := number_at 5 2 s; tm_mday := number_at 8 2 s;
     tm_hour := number_at 11 2 s; tm_min := number_at 14 2 s; tm_sec := number_at 17 2 s;
     tm_gmtoff := gmtoff |}.

Lemma format_rfc3339_ok b x nsec (nano : bool) zone :
  let text := date_text x ++ (if nano then "."%char :: decimal_pad 9 nsec else []) ++ zone in
  date_text x ≠ [] → (length text < length b)%nat →
  format_rfc3339 b x nsec nano zone
  = ret (0, text ++ replicate (length b - length text) NUL).
Proof.
  intros text Hne Hlen. unfold format_rfc3339, strftime. unfold text in Hlen. rewrite !length_app in Hlen.
  set (D := date_text x) in *. set (N := if nano then _ else []) in *.
  rewrite (proj2 (Nat.ltb_lt _ _)) by lia.
  assert (store b 0 (D ++ [NUL]) = ret ((D ++ [NUL]) ++ drop (length (D ++ [NUL])) b)) as ->
    by (apply (store_app [] b); rewrite length_app; simpl; lia).
  rewrite !bind_ret.
  destruct (Nat.eqb_spec (length D) 0) as [E|_]; [by apply nil_length_inv in E|].
  rewrite <-app_assoc. set (r := [NUL] ++ drop (length (D ++ [NUL])) b).
  assert (length D + length r = length b)%nat as Hr.
  { unfold r. rewrite length_app, length_drop, length_app. simpl. lia. }
  assert (∃ r', (if nano
     then let* '(len, buffer) := snprintf (D ++ r) (length D) (length b - length D) ("."%char :: decimal_pad 9 nsec) in
          let* _ := massert (len <=? length b - length D)%nat in
          ret ((length D + len)%nat, (length b - length D - len)%nat, buffer)
     else ret (length D, (length b - length D)%nat, D ++ r))
     = ret ((length D + length N)%nat, (length b - length D - length N)%nat, (D ++ N) ++ r')
     ∧ (length D + length N + length r' = length b)%nat) as (r' & -> & Hr').
  { unfold N in *. destruct nano; cbn iota in *; [|exists r; by rewrite app_nil_r, Nat.add_0_r, Nat.sub_0_r].
    set (n := "."%char :: decimal_pad 9 nsec) in *. unfold snprintf.
    destruct (Nat.eqb_spec (length b - length D) 0); [lia|].
    rewrite take_ge by lia. rewrite store_app, !bind_ret by (rewrite length_app; cbn [length]; lia).
    unfold massert. rewrite (proj2 (Nat.leb_le _ _)), bind_ret by lia.
    exists ([NUL] ++ drop (length (n ++ [NUL])) r). split; [by rewrite <-!app_assoc|].
    rewrite length_app, length_drop, length_app. cbn [length]. lia. }
  rewrite bind_ret, <-length_app. rewrite sstrncpy_at, bind_ret by lia.
  do 2 f_equal. unfold text. rewrite <-!app_assoc. do 2 f_equal.
  rewrite take_ge, drop_ge, app_nil_r by lia. f_equal. f_equal.
  rewrite !length_app. lia.
Qed.

(** A number of [w] digits in front of the rest of a text. *)
Lemma number_at_0 w z rest : (0 < w)%nat → 0 ≤ z < 10 ^ Z.of_nat w →
  number_at 0 w (decimal_pad w z ++ rest) = z.
Proof.
  intros Hw Hz. destruct (decimal_pad_spec w z Hw Hz) as (Hl & Hv & _).
  unfold number_at. rewrite drop_0, take_app_le, take_ge by lia. done.
Qed.

Lemma number_at_skip w z c rest i n : (0 < w)%nat → 0 ≤ z < 10 ^ Z.of_nat w →
  number_at (w + S i) n (decimal_pad w z ++ c :: rest) = number_at i n rest.
Proof.
  intros Hw Hz. destruct (decimal_pad_spec w z Hw Hz) as (Hl & _).
  unfold number_at. by rewrite drop_app_add' by done.
Qed.

Lemma digits_value_bound s : Forall (λ c, isdigit c = true) s →
  0 ≤ digits_value 10 s < 10 ^ Z.of_nat (length s).
Proof.
  induction 1 as [|c s Hc _ IH]; [done|]. unfold digits_value; cbn [fold_left length].
  rewrite fold_digits, Nat2Z.inj_succ, Z.pow_succ_r by lia. unfold digit_value. rewrite Hc.
  unfold isdigit, chr_in in Hc. breflect. nia.
Qed.

Lemma decimal_year y : 1000 ≤ y < 10000 → decimal_signed y = decimal_pad 4 y.
Proof.
  intros Hy. unfold decimal_signed. rewrite (proj2 (Z.ltb_ge _ _)) by lia.
  destruct (decimal_spec y) as (Hd & Hv & _ & _); [lia|].
  pose proof (digits_value_bound _ Hd) as Hb. rewrite Hv in Hb.
  unfold decimal_pad. replace (4 - length (decimal y))%nat with 0%nat; [done|].
  enough (¬ Z.of_nat (length (decimal y)) ≤ 3) by lia. intros Hle.
  pose proof (Z.pow_le_mono_r 10 _ 3 ltac:(lia) Hle). lia.
Qed.

(** The printed date has 19 characters and determines every field. *)
Lemma date_text_read x rest : valid_tm x → tm_year x < 10000 →
  length (date_text x) = 19%nat ∧ read_date (date_text x ++ rest) (tm_gmtoff x) = x.
Proof.
  intros (Hy & Hm & Hd & Hh & Hmi & Hs) Hy'.
  assert (month_days (tm_year x) (tm_mon x) ≤ 31).
  { unfold month_days. repeat case_match; lia. }
  unfold date_text. rewrite decimal_year by lia. split.
  - rewrite !length_app. cbn [length]. rewrite !length_app. cbn [length]. rewrite !length_app.
    cbn [length]. rewrite !length_app. cbn [length]. rewrite !length_app. cbn [length].
    repeat match goal with |- context [length (decimal_pad ?w ?z)] =>
      rewrite (proj1 (decimal_pad_spec w z ltac:(lia) ltac:(simpl; lia))) end. done.
  - unfold read_date. repeat (rewrite <-app_assoc; cbn [app]).
    rewrite number_at_0 by (simpl; lia).
    change 17%nat with (4 + S (2 + S (2 + S (2 + S (2 + S 0)))))%nat.
    change 14%nat with (4 + S (2 + S (2 + S (2 + S 0))))%nat.
    change 11%nat with (4 + S (2 + S (2 + S 0)))%nat.
    change 8%nat with (4 + S (2 + S 0))%nat. change 5%nat with (4 + S 0)%nat.
    rewrite !(number_at_skip 4), !(number_at_skip 2) by (simpl; lia).
    rewrite !number_at_0 by (simpl; lia). by destruct x.
Qed.

Lemma broken_down_gmtoff t off : tm_gmtoff (broken_down t off) = off.
Proof. unfold broken_down. destruct (find_year _ _ _) as [y yd]. by destruct (find_month _ _ _ _). Qed.

Lemma utc_time t : in_u64 t →
  get_utc_time t = (gmtime_r (t / 2 ^ 30), (t mod 2 ^ 30 * 1000000000 + 2 ^ 29) / 2 ^ 30) ∧
  valid_tm (gmtime_r (t / 2 ^ 30)) ∧ timegm (gmtime_r (t / 2 ^ 30)) = t / 2 ^ 30 ∧
  tm_year (gmtime_r (t / 2 ^ 30)) < 10000 ∧
  0 ≤ (t mod 2 ^ 30 * 1000000000 + 2 ^ 29) / 2 ^ 30 < 1000000000.
Proof.
  intros Ht. destruct (to_timespec t Ht) as (Hs & Hn & Hb). destruct (cdtime_parts t Ht) as (_ & _ & Hq & _).
  destruct (broken_down_spec (t / 2 ^ 30) 0) as (Hv & Hg & Hy); [lia|].
  rewrite Hn in Hb. split_and!; try done; try apply Hv; try lia.
  - unfold get_utc_time, NORMALIZE_TIMESPEC; cbn [ts_sec ts_nsec].
    rewrite Hn, Hs, Z.quot_small, Z.rem_small, Z.add_0_r by done. done.
  - eapply Z.le_lt_trans; [exact Hy|]. rewrite Z.add_0_r, Z.div_div by lia.
    enough (t / 2 ^ 30 / (86400 * 365) < 8000) by lia. apply Z.div_lt_upper_bound; lia.
Qed.

(** [rfc3339] and [rfc3339nano] refuse small buffers with ENOMEM and
    otherwise write, inside the buffer, the date and time of the second the
    time lies in, as a valid date that reads back to exactly that second, and
    the nanoseconds; for every 64-bit time. *)
Theorem rfc3339_spec b t : in_u64 t →
  ((length b < 26)%nat → rfc3339 b t = ret (ENOMEM, b)) ∧
  ((length b < 36)%nat → rfc3339nano b t = ret (ENOMEM, b)) ∧
  ((26 ≤ length b)%nat → ∃ text k,
     rfc3339 b t = ret (0, text ++ NUL :: replicate k NUL) ∧ length text = 20%nat ∧
     (length text + S k = length b)%nat ∧
     valid_tm (read_date text 0) ∧ timegm (read_date text 0) = t / 2 ^ 30) ∧
  ((36 ≤ length b)%nat → ∃ text k,
     rfc3339nano b t = ret (0, text ++ NUL :: replicate k NUL) ∧ length text = 30%nat ∧
     (length text + S k = length b)%nat ∧
     valid_tm (read_date text 0) ∧ timegm (read_date text 0) = t / 2 ^ 30 ∧
     number_at 20 9 text = ts_nsec (CDTIME_T_TO_TIMESPEC t)).
Proof.
  intros Ht. destruct (utc_time t Ht) as (E & Hv & Hg & Hy & Hn).
  destruct (to_timespec t Ht) as (_ & Hns & _).
  set (x := gmtime_r (t / 2 ^ 30)) in *. set (ns := (t mod 2 ^ 30 * 1000000000 + 2 ^ 29) / 2 ^ 30) in *.
  assert (∀ rest, length (date_text x) = 19%nat ∧ read_date (date_text x ++ rest) 0 = x) as Hd
    by (intros; rewrite <-(broken_down_gmtoff (t / 2 ^ 30) 0); by apply date_text_read).
  assert (date_text x ≠ []) as Hne by (intros E0; destruct (Hd []) as [H _]; by rewrite E0 in H).
  unfold rfc3339, rfc3339nano, RFC3339_SIZE, RFC3339NANO_SIZE, format_rfc3339_utc. rewrite E.
  destruct (Hd (zulu_zone)) as [Hl1 Hr1].
  destruct (Hd (("."%char :: decimal_pad 9 ns) ++ zulu_zone)) as [_ Hr2].
  destruct (decimal_pad_spec 9 ns ltac:(lia)) as (Hl9 & Hv9 & _); [simpl; lia|].
  split_and!.
  - intros Hb. by rewrite (proj2 (Nat.ltb_lt _ _)) by lia.
  - intros Hb. by rewrite (proj2 (Nat.ltb_lt _ _)) by lia.
  - intros Hb. rewrite (proj2 (Nat.ltb_ge _ _)) by lia.
    exists (date_text x ++ zulu_zone), (length b - 21)%nat.
    assert (length (date_text x ++ zulu_zone) = 20%nat) as Hl by (rewrite length_app, Hl1; done).
    rewrite format_rfc3339_ok; cbn [app]; [|done|lia]. rewrite Hl, Hr1.
    replace (length b - 20)%nat with (S (length b - 21)) by lia. split_and!; try done; try apply Hv; lia.
  - intros Hb. rewrite (proj2 (Nat.ltb_ge _ _)) by lia.
    set (text := date_text x ++ ("."%char :: decimal_pad 9 ns) ++ zulu_zone).
    assert (length text = 30%nat) as Hl by (unfold text; rewrite !length_app, Hl1; cbn [length]; by rewrite Hl9).
    exists text, (length b - 31)%nat. rewrite format_rfc3339_ok; fold text; [|done|lia]. rewrite Hl.
    replace (read_date text 0) with x by (by rewrite <-Hr2).
    replace (length b - 30)%nat with (S (length b - 31)) by lia.
    split_and!; try done; try apply Hv; try lia. rewrite Hns. etrans; [|exact Hv9]. unfold number_at, text.
    rewrite drop_app_ge by lia. rewrite Hl1.
    change (drop (20 - 19) _) with (decimal_pad 9 ns ++ zulu_zone).
    by rewrite take_app_le, take_ge by lia.
Qed.

Lemma rfc3339_spec_witness :
  in_u64 1546167635576736987 ∧ rfc3339 [] 1546167635576736987 = ret (ENOMEM, []).
Proof. split; [by split|]. apply rfc3339_spec; [by split|simpl; lia]. Defined.

Example rfc3339nano_run :
  rfc3339nano (replicate 36 NUL) 1546167635576736987
  ⇓ (0, $"2015-08-19T10:40:23.152453627Z" ++ replicate 6 NUL).
Proof. by vm_compute. Qed.

(** In a zone with a fixed offset of less than a day the local printers write
    the local date and the offset as [+hh:mm]. *)
Lemma format_zone_ok x : Z.abs (tm_gmtoff x) < 86400 →
  ∃ z, format_zone x = (0, z) ∧ length z = 6%nat.
Proof.
  intros Ho. unfold format_zone, zone_text. set (m := Z.abs (tm_gmtoff x) / 60).
  assert (0 ≤ m < 1440) as Hm.
  { unfold m. split; [apply Z.div_pos; lia|apply Z.div_lt_upper_bound; lia]. }
  assert (0 ≤ m / 60 < 24) by (split; [apply Z.div_pos; lia|apply Z.div_lt_upper_bound; lia]).
  pose proof (Z.mod_pos_bound m 60 ltac:(lia)).
  destruct (decimal_pad_spec 4 (m / 60 * 100 + m mod 60)) as (Hl & _); [lia|simpl; lia|].
  destruct (decimal_pad 4 _) as [|c1 [|c2 [|c3 [|c4 [|? ?]]]]]; try done.
  eexists. split; [reflexivity|done].
Qed.

Lemma rfc3339_local_ok (localtime_r : Z → Z + tm) b t off :
  in_u64 t → (26 ≤ length b)%nat → Z.abs off < 86400 → 0 ≤ t / 2 ^ 30 + off →
  localtime_r (t / 2 ^ 30) = inr (broken_down (t / 2 ^ 30) off) →
  ∃ date z k, rfc3339_local localtime_r b t = ret (0, date ++ z ++ NUL :: replicate k NUL) ∧
    length date = 19%nat ∧ length z = 6%nat ∧
    valid_tm (read_date date off) ∧ timegm (read_date date off) = t / 2 ^ 30.
Proof.
  intros Ht Hb Ho Hpos Hloc. destruct (cdtime_parts t Ht) as (_ & _ & Hq & _).
  destruct (utc_time t Ht) as (E & _). unfold get_utc_time in E. injection E as E1 E2.
  destruct (to_timespec t Ht) as (Hs & Hn & Hnb).
  destruct (broken_down_spec (t / 2 ^ 30) off Hpos) as (Hv & Hg & Hy).
  set (x := broken_down (t / 2 ^ 30) off) in *.
  assert (tm_gmtoff x = off) as Hx by apply broken_down_gmtoff.
  destruct (format_zone_ok x) as (z & Ez & Hz); [by rewrite Hx|].
  destruct (date_text_read x [] Hv) as [Hl Hr].
  { eapply Z.le_lt_trans; [exact Hy|]. rewrite Z.div_div by lia.
    enough ((t / 2 ^ 30 + off) / (86400 * 365) < 8000) by lia. apply Z.div_lt_upper_bound; lia. }
  rewrite app_nil_r, Hx in Hr.
  exists (date_text x), z, (length b - 26)%nat.
  unfold rfc3339_local, RFC3339_SIZE, format_rfc3339_local, get_local_time.
  rewrite (proj2 (Nat.ltb_ge _ _)) by lia. unfold NORMALIZE_TIMESPEC; cbn [ts_sec ts_nsec].
  rewrite Hs, Z.quot_small, Z.add_0_r, Hloc, Ez by done. cbn [negb Z.eqb].
  rewrite format_rfc3339_ok; cbn [app].
  - rewrite length_app, Hl, Hz, Hr. cbn [Nat.add].
    replace (length b - 25)%nat with (S (length b - 26)) by lia.
    split_and!; try done; try apply Hv. by rewrite <-app_assoc.
  - intros E0. by rewrite E0 in Hl.
  - rewrite length_app. lia.
Qed.

(** ** [timeval_cmp] (common.c) *)

Definition NORMALIZE_TIMEVAL (tv : timeval) : timeval :=
  {| tv_sec := tv_sec tv + Z.quot (tv_usec tv) 1000000; tv_usec := Z.rem (tv_usec tv) 1000000 |}.

(** Status and [delta]; the closing [assert] may fail. *)
Definition timeval_cmp (tv0 tv1 : timeval) : M (Z * timeval) :=
  let tv0 := NORMALIZE_TIMEVAL tv0 in
  let tv1 := NORMALIZE_TIMEVAL tv1 in
  if (tv_sec tv0 =? tv_sec tv1) && (tv_usec tv0 =? tv_usec tv1)
  then ret (0, {| tv_sec := 0; tv_usec := 0 |})
  else
    let '(larger, smaller, status) :=
      if (tv_sec tv0 <? tv_sec tv1) || ((tv_sec tv0 =? tv_sec tv1) && (tv_usec tv0 <? tv_usec tv1))
      then (tv1, tv0, -1) else (tv0, tv1, 1) in
    let sec := tv_sec larger - tv_sec smaller in
    let delta :=
      if tv_usec smaller <=? tv_usec larger
      then {| tv_sec := sec; tv_usec := tv_usec larger - tv_usec smaller |}
      else {| tv_sec := sec - 1; tv_usec := 1000000 + tv_usec larger - tv_usec smaller |} in
    let* _ := massert ((0 <=? tv_usec delta) && (tv_usec delta <? 1000000)) in
    ret (status, delta).

Definition usecs (tv : timeval) : Z := tv_sec tv * 1000000 + tv_usec tv.

(** The status is the sign of the difference and [delta] its normalised
    absolute value. *)
Lemma timeval_cmp_ok tv0 tv1 : 0 ≤ tv_usec tv0 → 0 ≤ tv_usec tv1 →
  ∃ delta, timeval_cmp tv0 tv1 = ret (Z.sgn (usecs tv0 - usecs tv1), delta) ∧
    usecs delta = Z.abs (usecs tv0 - usecs tv1) ∧ 0 ≤ tv_usec delta < 1000000.
Proof.
  intros H0 H1. unfold timeval_cmp.
  assert (∀ tv, 0 ≤ tv_usec tv → usecs (NORMALIZE_TIMEVAL tv) = usecs tv ∧
    0 ≤ tv_usec (NORMALIZE_TIMEVAL tv) < 1000000) as Hn.
  { intros tv H. unfold usecs, NORMALIZE_TIMEVAL; simpl.
    pose proof (Z.quot_rem (tv_usec tv) 1000000 ltac:(lia)).
    pose proof (Z.rem_bound_pos (tv_usec tv) 1000000 H ltac:(lia)). lia. }
  destruct (Hn tv0 H0) as [<- Hb0]. destruct (Hn tv1 H1) as [<- Hb1]. clear Hn.
  destruct (NORMALIZE_TIMEVAL tv0) as [s0 u0], (NORMALIZE_TIMEVAL tv1) as [s1 u1].
  unfold usecs; simpl in *.
  destruct (Z.eqb_spec s0 s1), (Z.eqb_spec u0 u1), (Z.ltb_spec s0 s1), (Z.ltb_spec u0 u1); simpl; try lia;
    try destruct (Z.leb_spec u0 u1); try destruct (Z.leb_spec u1 u0); try lia;
    unfold massert; simpl; rewrite ?(proj2 (Z.leb_le _ _)), ?(proj2 (Z.ltb_lt _ _)) by lia;
    cbn [andb]; rewrite ?bind_ret; eexists; (split; [f_equal; apply (f_equal2 pair); [lia|reflexivity]|]); simpl; lia.
Qed.
