(* ===== verification/LabelSet.v ===== *)
(** * Label sets (src/daemon/label_set.c)

    A [label_set_t] is the array of its [num] live slots.  A slot holds two
    pointers; a pointer is the string it points to, or [None] when it no
    longer points to a live string (freed, or assembled from the bytes of
    two pointers), which the code may not dereference. *)

From Stdlib Require Import ZArith Lia Ascii String Sorted.
From stdpp Require Import base list sets numbers strings sorting.
From S2P Require Import Prelude MapSpec SortedArray StrBuf.

Definition QUOTE : ascii := "034".
Definition BACKSLASH : ascii := "092".
Definition LF : ascii := "010".
Definition CR : ascii := "013".
Definition TAB : ascii := "009".

Definition VALID_LABEL_CHARS : cstr :=
  $"abcdefghijklmnopqrstuvwxyz" ++ $"ABCDEFGHIJKLMNOPQRSTUVWXYZ" ++ $"0123456789_".
Definition VALID_NAME_CHARS : cstr := VALID_LABEL_CHARS ++ $":".

Record label_pair_t : Type := mk_pair { name : option cstr; value : option cstr }.
Definition label_set_t : Type := list label_pair_t.

(** ** Operations *)

Definition label_pair_compare (a b : label_pair_t) : M Z :=
  let* an := mopt (name a) in let* bn := mopt (name b) in ret (strcmp an bn).

(** The index of the pair the returned pointer designates; [None] is NULL
    with [errno == ENOENT]. *)
Definition label_set_read (labels : label_set_t) (nm : cstr) : M (option nat) :=
  bsearch (label_pair_compare (mk_pair (Some nm) None)) labels.

Definition label_set_create (labels : label_set_t) (nm val : cstr) : M (Z * label_set_t) :=
  if (length nm =? 0)%nat then ret (EINVAL, labels)
  else
    let valid_len := strspn nm VALID_LABEL_CHARS in
    if negb (valid_len =? length nm)%nat || isdigit (default NUL (head nm)) then ret (EINVAL, labels)
    else
      let* found := label_set_read labels nm in
      if bool_decide (is_Some found) then ret (EEXIST, labels)
      else if (length val =? 0)%nat then ret (0, labels)
      else
        let* tmp := alloc in
        if negb tmp then ret (ENOMEM, labels)
        else
          let* dup_name := alloc in
          let* dup_value := alloc in
          if negb dup_name || negb dup_value then ret (ENOMEM, labels)
          else
            let* sorted := qsort label_pair_compare (labels ++ [mk_pair (Some nm) (Some val)]) in
            ret (0, sorted).

(** *** The bytes of the array

    [label_set_delete] moves bytes, not slots.  A byte of the array is the
    [frag]-th of 8 bytes of the pointer stored in a field of slot [origin];
    eight bytes are a pointer again only if they are the eight bytes of one
    pointer, in order. *)
Record byte : Type := mk_byte { origin : nat * bool; target : option cstr; frag : nat }.
#[export] Instance byte_eq_dec : EqDecision byte.
Proof. solve_decision. Defined.

Definition ptr_bytes (o : nat * bool) (p : option cstr) : list byte := map (mk_byte o p) (seq 0 8).
Definition slot_bytes (i : nat) (s : label_pair_t) : list byte :=
  ptr_bytes (i, false) (name s) ++ ptr_bytes (i, true) (value s).
Definition array_bytes (ls : label_set_t) : list byte := concat (imap slot_bytes ls).

Definition bytes_ptr (bs : list byte) : option cstr :=
  match bs with
  | [] => None
  | b :: _ => if bool_decide (bs = ptr_bytes (origin b) (target b)) then target b else None
  end.
Fixpoint bytes_array (n : nat) (bs : list byte) : label_set_t :=
  match n with
  | O => []
  | S n => mk_pair (bytes_ptr (take 8 bs)) (bytes_ptr (take 8 (drop 8 bs))) :: bytes_array n (drop 16 bs)
  end.

(** [memmove (base + dst, base + src, n)] *)
Definition memmove (bs : list byte) (dst src n : nat) : list byte :=
  let moved := take n (drop src bs) in take dst bs ++ moved ++ drop (dst + length moved) bs.

(** [elem] is the slot pointer, as an index; out of the array it may be
    anything. *)
Definition label_set_delete (labels : label_set_t) (elem : nat) : M (Z * label_set_t) :=
  let num := length labels in
  if (num <=? elem)%nat then ret (ERANGE, labels)
  else
    let labels := <[elem := mk_pair None None]> labels in
    let labels :=
      if negb (elem =? num - 1)%nat then
        bytes_array num (memmove (array_bytes labels) (16 * elem) (16 * (elem + 1)) (num - (elem + 1)))
      else labels in
    ret (0, take (num - 1) labels).

Definition label_set_add (labels : label_set_t) (nm : cstr) (val : option cstr) : M (Z * label_set_t) :=
  let* label := label_set_read labels nm in
  match label with
  | None =>
      match val with
      | None | Some [] => ret (0, labels)
      | Some v => label_set_create labels nm v
      end
  | Some i =>
      match val with
      | None | Some [] => label_set_delete labels i
      | Some v =>
          let* new_value := alloc in
          if negb new_value then ret (ENOMEM, labels)
          else
            let* p := mopt (labels !! i) in
            ret (0, <[i := mk_pair (name p) (Some v)]> labels)
      end
  end.

(** [free] of every pointer: none may dangle. *)
Definition label_set_reset (labels : label_set_t) : M label_set_t :=
  let* _ := massert (forallb (λ p, bool_decide (is_Some (name p)) && bool_decide (is_Some (value p))) labels) in
  ret [].

Fixpoint clone_loop (src : list label_pair_t) : M (option label_set_t) :=
  match src with
  | [] => ret (Some [])
  | p :: src' =>
      let* n := mopt (name p) in
      let* ok1 := alloc in
      let* v := mopt (value p) in
      let* ok2 := alloc in
      if negb ok1 || negb ok2 then ret None
      else
        let* rest := clone_loop src' in
        ret ((λ rest, mk_pair (Some n) (Some v) :: rest) <$> rest)
  end.
Definition label_set_clone (dest src : label_set_t) : M (Z * label_set_t) :=
  if (length src =? 0)%nat then ret (0, dest)
  else
    let* ok := alloc in
    if negb ok then ret (ENOMEM, dest)
    else
      let* r := clone_loop src in
      match r with
      | Some r => ret (0, r)
      | None => ret (ENOMEM, dest)
      end.

(** ** Text form *)

Section text.
Context `{Sysconf}.

Definition unescaped_char (c : ascii) : ascii :=
  if bool_decide (c = "n"%char) then LF
  else if bool_decide (c = "r"%char) then CR
  else if bool_decide (c = "t"%char) then TAB
  else c.

Fixpoint parse_label_value_loop (fuel : nat) (buf : strbuf_t) (s : cstr) : M (Z * strbuf_t * cstr) :=
  match fuel with
  | O => crash
  | S fuel =>
      if bool_decide (head s = Some QUOTE) then ret (0, buf, tail s)
      else
        let valid_len := strcspn s [BACKSLASH; QUOTE; LF] in
        if negb (valid_len =? 0)%nat then
          let* '(_, buf) := strbuf_printn buf s valid_len in
          parse_label_value_loop fuel buf (drop valid_len s)
        else
          match s with
          | [] => ret (EINVAL, buf, s)
          | c :: s1 =>
              if bool_decide (c = LF) then ret (EINVAL, buf, s)
              else
                let* _ := massert (bool_decide (c = BACKSLASH)) in
                match s1 with
                | [] => ret (EINVAL, buf, s)
                | e :: s2 =>
                    let* '(_, buf) := strbuf_print buf [unescaped_char e] in
                    parse_label_value_loop fuel buf s2
                end
          end
  end.

(** Status, buffer and the position after the closing quote; on failure the
    position is the caller's. *)
Definition parse_label_value (buf : strbuf_t) (inout : cstr) : M (Z * strbuf_t * cstr) :=
  match inout with
  | c :: s =>
      if bool_decide (c = QUOTE) then
        let* '(status, buf, s) := parse_label_value_loop (S (length s)) buf s in
        ret (status, buf, if status =? 0 then s else inout)
      else ret (EINVAL, buf, inout)
  | [] => ret (EINVAL, buf, inout)
  end.

Fixpoint unmarshal_loop (fuel : nat) (labels : label_set_t) (val : strbuf_t) (s : cstr)
    : M (Z * label_set_t * cstr) :=
  match fuel with
  | O => crash
  | S fuel =>
      match s with
      | c :: s =>
          if bool_decide (c = "{"%char) || bool_decide (c = ","%char) then
            let key_len := strspn s VALID_LABEL_CHARS in
            if (key_len =? 0)%nat then ret (EINVAL, labels, s)
            else
              let key := take key_len s in
              let s := drop key_len s in
              match s with
              | c :: s =>
                  if bool_decide (c = "="%char) then
                    let* val := strbuf_reset val in
                    let* '(status, val, s) := parse_label_value val s in
                    if negb (status =? 0) then ret (status, labels, s)
                    else
                      let* '(status, labels) := label_set_add labels key (c_str <$> ptr val) in
                      if negb (status =? 0) then ret (status, labels, s)
                      else unmarshal_loop fuel labels val s
                  else ret (EINVAL, labels, c :: s)
              | [] => ret (EINVAL, labels, [])
              end
          else ret (0, labels, c :: s)
      | [] => ret (0, labels, [])
      end
  end.

Definition label_set_unmarshal (labels : label_set_t) (inout : cstr) : M (Z * label_set_t * cstr) :=
  if bool_decide (head inout = Some "{"%char) then
    let* '(st, labels, s) := unmarshal_loop (S (length inout)) labels STRBUF_CREATE inout in
    if negb (st =? 0) then ret (st, labels, inout)
    else
      match s with
      | c :: s' => if bool_decide (c = "}"%char) then ret (0, labels, s') else ret (EINVAL, labels, inout)
      | [] => ret (EINVAL, labels, inout)
      end
  else ret (EINVAL, labels, inout).

(** [status = status || f (buf)] *)
Definition sor (m : M (Z * strbuf_t)) (f : strbuf_t → M (Z * strbuf_t)) : M (Z * strbuf_t) :=
  let* '(status, buf) := m in
  if negb (status =? 0) then ret (1, buf)
  else let* '(status, buf) := f buf in ret (if negb (status =? 0) then 1 else 0, buf).

Definition marshal_escape : cstr := [BACKSLASH; QUOTE; LF; CR; TAB].

Definition marshal_pair (i : nat) (p : label_pair_t) (m : M (Z * strbuf_t)) : M (Z * strbuf_t) :=
  let m := if (i =? 0)%nat then m else sor m (λ b, strbuf_print b $",") in
  let m := sor m (λ b, let* n := mopt (name p) in strbuf_print b n) in
  let m := sor m (λ b, strbuf_print b ["="%char; QUOTE]) in
  let m := sor m (λ b, let* v := mopt (value p) in strbuf_print_escaped b v marshal_escape BACKSLASH) in
  sor m (λ b, strbuf_print b [QUOTE]).

Fixpoint marshal_loop (i : nat) (ls : list label_pair_t) (m : M (Z * strbuf_t)) : M (Z * strbuf_t) :=
  match ls with
  | [] => m
  | p :: ls' => marshal_loop (S i) ls' (marshal_pair i p m)
  end.

Definition label_set_marshal (buf : strbuf_t) (labels : label_set_t) : M (Z * strbuf_t) :=
  sor (marshal_loop 0 labels (strbuf_print buf $"{")) (λ b, strbuf_print b $"}").
End text.

(** ** Abstract label sets

    A valid label set is a strictly sorted association list of valid names
    and non-empty values. *)

Definition embed (kv : list (cstr * cstr)) : label_set_t :=
  map (λ p, mk_pair (Some p.1) (Some p.2)) kv.

Definition valid_label (nm : cstr) : bool :=
  negb (length nm =? 0)%nat && (strspn nm VALID_LABEL_CHARS =? length nm)%nat &&
  negb (isdigit (default NUL (head nm))).

Definition lwf (kv : list (cstr * cstr)) : Prop :=
  Spec.sorted kv ∧ Forall (λ p, valid_label p.1 = true ∧ p.2 ≠ [] ∧ no_nul p.2) kv.

Definition create_spec (kv : list (cstr * cstr)) (nm v : cstr) : Z * list (cstr * cstr) :=
  if negb (valid_label nm) then (EINVAL, kv)
  else match Spec.get nm kv with
       | Some _ => (EEXIST, kv)
       | None => match v with [] => (0, kv) | _ => (0, Spec.insert nm v kv) end
       end.

Definition add_spec (kv : list (cstr * cstr)) (nm v : cstr) : Z * list (cstr * cstr) :=
  match Spec.get nm kv with
  | None => match v with [] => (0, kv) | _ => create_spec kv nm v end
  | Some _ => (0, Spec.update nm (λ _, v) kv)
  end.

Lemma embed_lookup kv i :
  embed kv !! i = (λ p, mk_pair (Some p.1) (Some p.2)) <$> kv !! i.
Proof. unfold embed. apply list_lookup_fmap. Qed.

Lemma length_embed kv : length (embed kv) = length kv.
Proof. apply length_map. Qed.

Lemma embed_app kv1 kv2 : embed (kv1 ++ kv2) = embed kv1 ++ embed kv2.
Proof. apply map_app. Qed.

Lemma pair_compare_ret a b x y :
  label_pair_compare (mk_pair (Some a) x) (mk_pair (Some b) y) = ret (strcmp a b).
Proof. done. Qed.

Definition found (kv : list (cstr * cstr)) (nm : cstr) (r : option nat) : Prop :=
  match r with
  | Some i => ∃ v, kv !! i = Some (nm, v)
  | None => Spec.get nm kv = None
  end.

(** The key of a slot, when its name is a string. *)
Definition slot_key (p : label_pair_t) : cstr := default [] (name p).

Lemma keyed_embed kv : keyed slot_key (embed kv) = map (λ p, (p.1, mk_pair (Some p.1) (Some p.2))) kv.
Proof. unfold keyed, embed. by rewrite map_map. Qed.

Lemma embed_sorted kv : Spec.sorted kv → arr_sorted slot_key (embed kv).
Proof.
  unfold arr_sorted. rewrite keyed_embed. unfold Spec.sorted. induction 1 as [|p kv _ IH Hf]; simpl; constructor; [done|].
  apply Forall_map. by eapply list.Forall_impl; [exact Hf|].
Qed.

Lemma embed_get kv nm : arr_get slot_key nm (embed kv) = (λ v, mk_pair (Some nm) (Some v)) <$> Spec.get nm kv.
Proof.
  unfold arr_get. rewrite keyed_embed. induction kv as [|[k v] kv IH]; simpl; [done|].
  destruct (Z.eqb_spec (compare nm k) 0) as [->%compare_eq|]; [done|exact IH].
Qed.

Lemma embed_compare kv p q : p ∈ embed kv → q ∈ embed kv → label_pair_compare p q = ret (compare (slot_key p) (slot_key q)).
Proof. intros (x & -> & _)%list_elem_of_fmap (y & -> & _)%list_elem_of_fmap. done. Qed.

Lemma read_found kv nm :
  Spec.sorted kv → ∃ r, label_set_read (embed kv) nm = ret r ∧ found kv nm r.
Proof.
  intros Hs. destruct (bsearch_ok slot_key (label_pair_compare (mk_pair (Some nm) None)) (embed kv) nm) as (r & E & Hr).
  - by apply embed_sorted.
  - intros p (x & -> & _)%list_elem_of_fmap. done.
  - exists r. split; [exact E|]. destruct r as [i|]; simpl in *.
    + destruct Hr as (p & Hp & <-). rewrite embed_lookup in Hp. destruct (kv !! i) as [[k v]|]; simplify_eq/=. by exists v.
    + rewrite embed_get in Hr. by destruct (Spec.get nm kv).
Qed.

Lemma read_present kv nm v :
  Spec.sorted kv → Spec.get nm kv = Some v →
  ∃ i, label_set_read (embed kv) nm = ret (Some i) ∧ kv !! i = Some (nm, v).
Proof.
  intros Hs Hg. destruct (read_found kv nm Hs) as ([i|] & Hr & Hf); [|simpl in Hf; congruence].
  exists i. split; [done|]. destruct Hf as [v' Hv']. rewrite Hv'. do 2 f_equal.
  assert (Spec.get nm kv = Some v') as E; [|congruence].
  apply spec_elem_of; [done|]. by eapply list_elem_of_lookup_2.
Qed.

Lemma read_absent kv nm :
  Spec.sorted kv → Spec.get nm kv = None → label_set_read (embed kv) nm = ret None.
Proof.
  intros Hs Hg. destruct (read_found kv nm Hs) as ([i|] & Hr & Hf); [|done].
  destruct Hf as [v Hv]. assert (Spec.get nm kv = Some v) as E; [|congruence].
  apply spec_elem_of; [done|]. by eapply list_elem_of_lookup_2.
Qed.

(** *** Sorting *)

Lemma insert_embed k v kv :
  arr_insert slot_key (mk_pair (Some k) (Some v)) (embed kv) = embed (Spec.insert k v kv).
Proof. induction kv as [|[k' v'] kv IH]; simpl; [done|]. destruct (_ <? 0); [done|]. simpl. by rewrite IH. Qed.

Lemma spec_insert_last (k v : cstr) kv : below k kv → Spec.insert k v kv = kv ++ [(k, v)].
Proof. intros Hb. rewrite <-(app_nil_r kv) at 1. apply spec_insert_split; [done|constructor]. Qed.

Lemma qsort_sorted kv k v :
  Spec.sorted kv → qsort label_pair_compare (embed kv ++ [mk_pair (Some k) (Some v)]) = ret (embed (Spec.insert k v kv)).
Proof.
  intros Hs. rewrite (qsort_snoc slot_key), insert_embed; [done|by apply embed_sorted|].
  intros p q. change [mk_pair (Some k) (Some v)] with (embed [(k, v)]). rewrite <-embed_app. apply embed_compare.
Qed.

(** *** Create and add *)

Lemma valid_label_chars nm :
  valid_label nm = true → nm ≠ [] ∧ Forall (λ c, chr_mem VALID_LABEL_CHARS c = true) nm.
Proof.
  unfold valid_label. intros Hv. apply andb_true_iff in Hv as [[Hn Hs]%andb_true_iff _].
  split; [by intros ->|]. apply Nat.eqb_eq in Hs.
  pose proof (span_len_take (chr_mem VALID_LABEL_CHARS) nm) as Ht.
  unfold strspn in Hs. by rewrite Hs, take_ge in Ht by lia.
Qed.

Lemma label_create_ok kv nm v :
  lwf kv →
  label_set_create (embed kv) nm v ⇓ ((create_spec kv nm v).1, embed (create_spec kv nm v).2) ∧
  wp (label_set_create (embed kv) nm v) (λ r,
    r = ((create_spec kv nm v).1, embed (create_spec kv nm v).2) ∨ r = (ENOMEM, embed kv)).
Proof.
  intros [Hs _]. unfold label_set_create, create_spec, valid_label.
  destruct (length nm =? 0)%nat; [by split; [|apply wp_ret; left]|]. simpl.
  destruct (strspn nm VALID_LABEL_CHARS =? length nm)%nat; [|by split; [|apply wp_ret; left]]. simpl.
  destruct (isdigit _); [by split; [|apply wp_ret; left]|]. simpl.
  destruct (Spec.get nm kv) as [v0|] eqn:Hg.
  { destruct (read_present kv nm v0) as (i & -> & _); [done..|]. rewrite bind_ret.
    by split; [|apply wp_ret; left]. }
  rewrite read_absent, bind_ret by done. rewrite bool_decide_false by (by intros [? ?]).
  destruct v as [|c v]; [by split; [|apply wp_ret; left]|]. simpl.
  pose proof (qsort_sorted kv nm (c :: v) Hs) as Hq.
  split.
  - do 3 (eapply yields_bind; [apply yields_alloc|]; cbv beta; simpl).
    rewrite Hq. apply yields_ret.
  - apply wp_bind, wp_alloc; intros []; simpl; [|apply wp_ret; auto].
    apply wp_bind, wp_alloc; intros b1. apply wp_bind, wp_alloc; intros b2.
    destruct b1, b2; simpl; try (apply wp_ret; auto).
    rewrite Hq, bind_ret. apply wp_ret. auto.
Qed.

Lemma create_spec_lwf kv nm v : lwf kv → no_nul v → lwf (create_spec kv nm v).2.
Proof.
  intros [Hs Hf] Hv. unfold create_spec. destruct (valid_label nm) eqn:E; simpl; [|done].
  destruct (Spec.get nm kv) eqn:Hg; [done|]. destruct v as [|c v]; [done|]. simpl. split.
  - by apply spec_insert_sorted.
  - apply list.Forall_forall. intros x [->|Hx]%spec_insert_elem; [done|].
    eapply list.Forall_forall in Hf; eauto.
Qed.

Lemma embed_update kv i nm v0 v :
  Spec.sorted kv → kv !! i = Some (nm, v0) →
  <[i := mk_pair (Some nm) (Some v)]> (embed kv) = embed (Spec.update nm (λ _, v) kv).
Proof.
  intros Hs Hi. apply list_elem_of_split_length in Hi as (l1 & l2 & -> & ->).
  apply sorted_split in Hs as (_ & _ & Hb & _). rewrite spec_update_split by done.
  rewrite !embed_app. unfold label_set_t. rewrite insert_app_r_alt by (rewrite length_embed; lia).
  by rewrite length_embed, Nat.sub_diag.
Qed.

Lemma add_ok kv nm v :
  lwf kv → v ≠ [] →
  label_set_add (embed kv) nm (Some v) ⇓ ((add_spec kv nm v).1, embed (add_spec kv nm v).2) ∧
  wp (label_set_add (embed kv) nm (Some v)) (λ r,
    r = ((add_spec kv nm v).1, embed (add_spec kv nm v).2) ∨ r = (ENOMEM, embed kv)).
Proof.
  intros Hl Hv. pose proof Hl as [Hs _]. unfold label_set_add, add_spec.
  destruct (Spec.get nm kv) as [v0|] eqn:Hg.
  - destruct (read_present kv nm v0) as (i & -> & Hi); [done..|]. rewrite bind_ret.
    destruct v as [|c v]; [done|]. rewrite embed_lookup, Hi. simpl.
    pose proof (embed_update kv i nm v0 (c :: v) Hs Hi) as Hu. split.
    + eapply yields_bind; [apply yields_alloc|]. simpl. rewrite bind_ret. simpl. by rewrite Hu.
    + apply wp_bind, wp_alloc; intros []; apply wp_ret; simpl; rewrite ?Hu; auto.
  - rewrite read_absent, bind_ret by done. destruct v as [|c v]; [done|]. by apply label_create_ok.
Qed.

Lemma add_spec_lwf kv nm v : lwf kv → v ≠ [] → no_nul v → lwf (add_spec kv nm v).2.
Proof.
  intros Hl Hne Hv. pose proof Hl as [Hs Hf]. unfold add_spec.
  destruct (Spec.get nm kv) as [v0|] eqn:Hg; [|destruct v; [done|by apply create_spec_lwf]].
  simpl. split.
  - eapply spec_sorted_keys; [symmetry; apply spec_update_keys|done].
  - apply spec_get_split in Hg as (l1 & l2 & -> & Hb); [|done]. rewrite spec_update_split by done.
    apply Forall_app in Hf as [? [[? _] ?]%Forall_cons_1]. apply Forall_app. split; [done|].
    by constructor.
Qed.

Lemma add_spec_get kv nm v k :
  lwf kv → v ≠ [] → (add_spec kv nm v).1 = 0 →
  Spec.get k (add_spec kv nm v).2 = if compare k nm =? 0 then Some v else Spec.get k kv.
Proof.
  intros [Hs _] Hne. unfold add_spec. destruct (Spec.get nm kv) as [v0|] eqn:Hg; simpl.
  - intros _. rewrite spec_get_update. destruct (Z.eqb_spec (compare k nm) 0) as [E|]; [|done].
    apply (compare_eq k nm) in E as ->. by rewrite Hg.
  - unfold create_spec. destruct v as [|c v]; [done|]. destruct (valid_label nm); [|done]. simpl.
    rewrite Hg. simpl. intros _. by apply spec_get_insert.
Qed.

(** *** Delete *)

Lemma label_delete_last kv k v :
  label_set_delete (embed (kv ++ [(k, v)])) (length kv) = ret (0, embed kv).
Proof.
  unfold label_set_delete. rewrite !length_embed, length_app. simpl.
  destruct (Nat.leb_spec (length kv + 1) (length kv)); [lia|].
  replace (length kv + 1 - 1)%nat with (length kv) by lia. rewrite Nat.eqb_refl. simpl.
  unfold label_set_t. rewrite take_insert_ge by lia. rewrite embed_app.
  by rewrite <-(length_embed kv), take_app_length.
Qed.

Lemma bytes_ptr_last bs o f : last bs = Some (mk_byte o None f) → bytes_ptr bs = None.
Proof.
  intros Hl. destruct bs as [|b bs']; [done|]. unfold bytes_ptr. case_bool_decide as E; [|done].
  rewrite E in Hl. simpl in Hl. congruence.
Qed.

Lemma concat_lookup {A B} (f : nat → A → list B) ls i s j :
  (∀ i x, length (f i x) = 16%nat) → ls !! i = Some s → (j < 16)%nat →
  concat (imap f ls) !! (16 * i + j)%nat = f i s !! j.
Proof.
  revert f i. induction ls as [|x ls IH]; intros f i Hf Hi Hj; [done|]. rewrite imap_cons. cbn [concat].
  destruct i as [|i]; cbn in Hi.
  - injection Hi as ->. rewrite lookup_app_l by (rewrite Hf; lia). f_equal.
  - rewrite lookup_app_r by (rewrite Hf; lia). rewrite Hf.
    replace (16 * S i + j - 16)%nat with (16 * i + j)%nat by lia.
    apply (IH (f ∘ S)); auto. intros. apply Hf.
Qed.

Lemma bytes_array_lookup n bs i :
  (i < n)%nat →
  bytes_array n bs !! i =
    Some (mk_pair (bytes_ptr (take 8 (drop (16 * i) bs))) (bytes_ptr (take 8 (drop (16 * i + 8) bs)))).
Proof.
  revert i bs. induction n as [|n IH]; intros i bs Hi; [lia|]. destruct i as [|i]; [done|].
  change (bytes_array (S n) bs !! S i) with (bytes_array n (drop 16 bs) !! i).
  rewrite IH, !drop_drop by lia.
  by replace (16 + (16 * i + 8))%nat with (16 * S i + 8)%nat by lia; replace (16 + 16 * i)%nat with (16 * S i)%nat by lia.
Qed.

Lemma memmove_lookup_after bs dst src n j :
  (dst + n ≤ j)%nat → (dst ≤ length bs)%nat → memmove bs dst src n !! j = bs !! j.
Proof.
  intros Hj Hd. unfold memmove. set (mv := take n (drop src bs)).
  assert (length mv ≤ n)%nat by (unfold mv; rewrite length_take; lia).
  rewrite lookup_app_r by (rewrite length_take; lia). rewrite length_take, Nat.min_l by lia.
  rewrite lookup_app_r by lia. rewrite lookup_drop. f_equal. lia.
Qed.

Lemma last_take_drop {A} (l : list A) i x : l !! (i + 7)%nat = Some x → last (take 8 (drop i l)) = Some x.
Proof.
  intros Hx. pose proof (lookup_lt_Some _ _ _ Hx).
  rewrite last_lookup, length_take, length_drop, Nat.min_l by lia. simpl.
  rewrite lookup_take_lt by lia. by rewrite lookup_drop.
Qed.

(** Fewer than 16 bytes are moved, so the last byte of the freed value
    pointer stays where it is. *)
Lemma delete_dangling (ls : label_set_t) i :
  (i + 1 < length ls)%nat → (length ls - (i + 1) < 16)%nat →
  ∃ ls' p, label_set_delete ls i = ret (0, ls') ∧ ls' !! i = Some p ∧ value p = None.
Proof.
  intros Hi Hn. unfold label_set_delete.
  destruct (Nat.leb_spec (length ls) i); [lia|]. destruct (Nat.eqb_spec i (length ls - 1)); [lia|].
  cbn [negb]. cbv iota. eexists _, _. split; [reflexivity|].
  unfold label_set_t in *. rewrite lookup_take_lt, bytes_array_lookup by lia. split; [reflexivity|]. cbn [value].
  apply (bytes_ptr_last _ (i, true) 7), last_take_drop.
  assert (array_bytes (<[i := mk_pair None None]> ls) !! (16 * i + 15)%nat =
          Some (mk_byte (i, true) None 7)) as Hb.
  { unfold array_bytes. rewrite (concat_lookup _ _ i (mk_pair None None)); [done|done| |lia].
    apply list_lookup_insert_eq. lia. }
  replace (16 * i + 8 + 7)%nat with (16 * i + 15)%nat by lia.
  pose proof (lookup_lt_Some _ _ _ Hb). by rewrite memmove_lookup_after by lia.
Qed.

(** *** Clone *)

Lemma label_clone_loop_ok kv :
  clone_loop (embed kv) ⇓ Some (embed kv) ∧
  wp (clone_loop (embed kv)) (λ r, r = Some (embed kv) ∨ r = None).
Proof.
  induction kv as [|[k v] kv [IHy IHw]]; simpl; [split; [done|apply wp_ret; auto]|]. rewrite bind_ret. split.
  - eapply yields_bind; [apply yields_alloc|]. rewrite bind_ret.
    eapply yields_bind; [apply yields_alloc|]. simpl. by eapply yields_bind; [exact IHy|].
  - apply wp_bind, wp_alloc; intros b1. rewrite bind_ret. apply wp_bind, wp_alloc; intros b2.
    destruct b1, b2; simpl; try (apply wp_ret; auto).
    apply wp_bind. eapply wp_mono; [exact IHw|]. intros r [->| ->]; apply wp_ret; auto.
Qed.

Lemma label_clone_ok dest kv :
  kv ≠ [] →
  label_set_clone dest (embed kv) ⇓ (0, embed kv) ∧
  wp (label_set_clone dest (embed kv)) (λ r, r = (0, embed kv) ∨ r = (ENOMEM, dest)).
Proof.
  intros Hne. unfold label_set_clone. rewrite length_embed. destruct (label_clone_loop_ok kv) as [Hy Hw].
  destruct kv; [done|]. simpl Nat.eqb. cbv iota. split.
  - eapply yields_bind; [apply yields_alloc|]. simpl negb. cbv iota. by eapply yields_bind; [exact Hy|].
  - apply wp_bind, wp_alloc; intros []; simpl negb; cbv iota; [|apply wp_ret; auto].
    apply wp_bind. eapply wp_mono; [exact Hw|]. intros r [->| ->]; apply wp_ret; auto.
Qed.

(** *** Marshalling *)

Section marshal.
Context `{Sysconf}.

Definition pair_text (p : cstr * cstr) : cstr :=
  p.1 ++ ["="%char; QUOTE] ++ escape_text marshal_escape BACKSLASH p.2 ++ [QUOTE].
Definition pairs_text (i : nat) (kv : list (cstr * cstr)) : cstr :=
  concat (imap (λ j p, (if (i + j =? 0)%nat then [] else $",") ++ pair_text p) kv).
Definition labels_text (kv : list (cstr * cstr)) : cstr := $"{" ++ pairs_text 0 kv ++ $"}".

Lemma sor_appends f g s1 s2 :
  appends f s1 → appends g s2 → appends (λ b, sor (f b) g) (s1 ++ s2).
Proof.
  intros Hf Hg b Hb. destruct (Hf b Hb) as (b1 & E1 & Hb1 & T1).
  destruct (Hg b1 Hb1) as (b2 & E2 & Hb2 & T2). exists b2. split_and!; [|done|].
  - unfold sor. eapply yields_bind; [exact E1|]. simpl. by eapply yields_bind; [exact E2|].
  - by rewrite T2, T1, app_assoc.
Qed.

Lemma marshal_pair_appends f s i k v :
  appends f s →
  appends (λ b, marshal_pair i (mk_pair (Some k) (Some v)) (f b))
          (s ++ (if (i =? 0)%nat then [] else $",") ++ pair_text (k, v)).
Proof.
  intros Hf. unfold marshal_pair, pair_text. cbn [name value fst snd].
  replace (s ++ _) with
    ((((s ++ (if (i =? 0)%nat then [] else $",")) ++ k) ++ ["="%char; QUOTE]) ++
      escape_text marshal_escape BACKSLASH v ++ [QUOTE]) by by rewrite <-!app_assoc.
  rewrite (app_assoc _ (escape_text _ _ _)).
  apply (sor_appends (λ b, sor (sor (sor _ _) _) _)); [|apply print_appends].
  apply (sor_appends (λ b, sor (sor _ _) _)); [|by apply print_escaped_appends].
  apply (sor_appends (λ b, sor _ _)); [|apply print_appends].
  apply sor_appends; [|apply print_appends].
  destruct (i =? 0)%nat; [by rewrite app_nil_r|]. apply sor_appends; [done|apply print_appends].
Qed.

Lemma pairs_text_cons i p kv :
  pairs_text i (p :: kv) = ((if (i =? 0)%nat then [] else $",") ++ pair_text p) ++ pairs_text (S i) kv.
Proof.
  unfold pairs_text. rewrite imap_cons. simpl. rewrite Nat.add_0_r. f_equal. f_equal.
  apply imap_ext. intros j x _. simpl. by rewrite Nat.add_succ_r.
Qed.

Lemma pairs_text_length i kv : (length kv ≤ length (pairs_text i kv))%nat.
Proof.
  revert i. induction kv as [|p kv IH]; intros i; [done|]. rewrite pairs_text_cons, !length_app.
  specialize (IH (S i)). unfold pair_text. rewrite !length_app. simpl. lia.
Qed.

Lemma marshal_loop_appends i kv f s :
  appends f s → appends (λ b, marshal_loop i (embed kv) (f b)) (s ++ pairs_text i kv).
Proof.
  revert i f s. induction kv as [|[k v] kv IH]; intros i f s Hf; simpl; [by rewrite app_nil_r|].
  rewrite pairs_text_cons, app_assoc. apply (IH _ (λ b, marshal_pair _ _ _)).
  by apply marshal_pair_appends.
Qed.

Lemma marshal_appends kv : appends (λ b, label_set_marshal b (embed kv)) (labels_text kv).
Proof.
  unfold label_set_marshal, labels_text. rewrite app_assoc.
  apply (sor_appends (λ b, marshal_loop _ _ _)); [|apply print_appends].
  apply marshal_loop_appends, print_appends.
Qed.

(** *** Unmarshalling *)

Lemma escape_unescape c :
  c ∈ marshal_escape → unescaped_char (escaped_char BACKSLASH c) = c.
Proof. unfold marshal_escape. rewrite !elem_of_cons. intros [->|[->|[->|[->|[->|[]%not_elem_of_nil]]]]]; done. Qed.

Lemma plain_for_parser s :
  Forall (λ c, negb (chr_mem marshal_escape c) = true) s →
  Forall (λ c, negb (chr_mem [BACKSLASH; QUOTE; LF] c) = true) s.
Proof.
  intros Hs. eapply list.Forall_impl; [exact Hs|]. intros c Hc. apply negb_true_iff, bool_decide_eq_false in Hc.
  apply negb_true_iff, bool_decide_eq_false. unfold marshal_escape in Hc. set_solver.
Qed.

(** One turn of the parser loop on a plain run. *)
Lemma parse_run fuel buf w c s :
  dynamic buf → w ≠ [] → Forall (λ c, negb (chr_mem marshal_escape c) = true) w →
  c = QUOTE ∨ c = BACKSLASH →
  ∃ b, dynamic b ∧ text b = text buf ++ w ∧
    ∀ r, parse_label_value_loop fuel b (c :: s) ⇓ r → parse_label_value_loop (S fuel) buf (w ++ c :: s) ⇓ r.
Proof.
  intros Hb Hne Hw Hc. destruct (print_appends w buf Hb) as (b & Hp & Hdb & Htb).
  exists b. split_and!; [done|done|]. intros r Hr.
  pose proof (span_len_app_stop _ w c s (plain_for_parser w Hw)) as Hlen.
  fold (strcspn (w ++ c :: s) [BACKSLASH; QUOTE; LF]) in Hlen.
  specialize (Hlen ltac:(by destruct Hc as [-> | ->])).
  cbn [parse_label_value_loop]. rewrite Hlen.
  rewrite bool_decide_false; last first.
  { destruct w as [|x w]; [done|]. simpl. intros [= ->].
    apply Forall_cons_1 in Hw as [Hx _]. done. }
  destruct (Nat.eqb_spec (length w) 0) as [E|_]; [by apply nil_length_inv in E|]. cbn [negb].
  rewrite printn_print, take_app_length, drop_app_length by (by destruct w).
  eapply yields_bind; [exact Hp|]. done.
Qed.

Lemma parse_escaped fuel buf c s :
  dynamic buf → c ∈ marshal_escape →
  ∃ b, dynamic b ∧ text b = text buf ++ [c] ∧
    ∀ r, parse_label_value_loop fuel b s ⇓ r →
         parse_label_value_loop (S fuel) buf (BACKSLASH :: escaped_char BACKSLASH c :: s) ⇓ r.
Proof.
  intros Hb Hc. destruct (print_appends [c] buf Hb) as (b & Hp & Hdb & Htb).
  exists b. split_and!; [done|done|]. intros r Hr. cbn [parse_label_value_loop head].
  rewrite bool_decide_false by done. change (strcspn (BACKSLASH :: _) _) with 0%nat. simpl.
  rewrite bind_ret, escape_unescape by done. eapply yields_bind; [exact Hp|]. done.
Qed.

Lemma escape_text_head v n w :
  escape_step marshal_escape BACKSLASH v n w → w = take n v → n ≠ 0%nat →
  ∃ s, escape_text marshal_escape BACKSLASH (drop n v) = BACKSLASH :: s.
Proof.
  intros Hst Ew Hn. destruct Hst as [n -> H0 Hl Hp|c v' -> H0 Hc].
  - pose proof (span_len_le (λ c, negb (chr_mem marshal_escape c)) v) as Hle.
    destruct (lookup_lt_is_Some_2 v (strcspn v marshal_escape)) as [c Hc];
      [unfold strcspn in *; lia|].
    rewrite (drop_S _ c) by done. unfold escape_text. rewrite bind_cons. unfold escape_chr.
    apply span_len_stop, negb_false_iff in Hc. rewrite Hc. eauto.
  - simpl in Ew. destruct v'; discriminate.
Qed.

Lemma parse_value_loop fuel buf v rest :
  dynamic buf → (length v < fuel)%nat →
  ∃ b, dynamic b ∧ text b = text buf ++ v ∧
    parse_label_value_loop fuel buf (escape_text marshal_escape BACKSLASH v ++ QUOTE :: rest) ⇓ (0, b, rest).
Proof.
  revert buf v. induction fuel as [|fuel IH]; intros buf v Hb Hf; [lia|].
  destruct (decide (v = [])) as [->|Hv].
  { exists buf. split_and!; [done|by rewrite app_nil_r|done]. }
  destruct (escape_cases marshal_escape BACKSLASH v) as [[Hrun Hplain]|(n & w & Hst)].
  - rewrite Hplain. destruct fuel as [|fuel]; [destruct v; [done|simpl in Hf; lia]|].
    pose proof (span_len_take (λ c, negb (chr_mem marshal_escape c)) v) as Hall.
    fold (strcspn v marshal_escape) in Hall. rewrite Hrun, take_ge in Hall by lia.
    destruct (parse_run (S fuel) buf v QUOTE rest) as (b & ? & ? & Hr); auto.
    exists b. split_and!; [done|done|]. by apply Hr.
  - pose proof (escape_step_text _ _ _ _ _ Hst) as (Hn & Hle & Hw).
    assert (length (drop n v) < fuel)%nat as Hd by (rewrite length_drop; lia).
    rewrite (escape_split _ _ v n), Hw, <-app_assoc.
    destruct Hst as [n Hcs H0 Hl Hp|c v' -> H0 Hc].
    + destruct (escape_text_head v n (take n v)) as [s Es]; [by apply step_run|done|done|].
      destruct (parse_run fuel buf (take n v) BACKSLASH (s ++ QUOTE :: rest)) as (b & Hdb & Htb & Hr);
        [done|by destruct n, v|subst n; apply span_len_take|auto|].
      destruct (IH b (drop n v) Hdb Hd) as (b' & Hdb' & Htb' & Hy).
      exists b'. rewrite Es in Hy |- *. split_and!; [done| |by apply Hr].
      by rewrite Htb', Htb, <-app_assoc, take_drop.
    + simpl in Hd, Hc. assert (c ∈ marshal_escape) as Hcm.
      { unfold strcspn in H0. simpl in H0. destruct (chr_mem marshal_escape c) eqn:E; [|done].
        by apply bool_decide_eq_true in E. }
      destruct (parse_escaped fuel buf c (escape_text marshal_escape BACKSLASH v' ++ QUOTE :: rest))
        as (b & Hdb & Htb & Hr); [done..|].
      destruct (IH b v' Hdb) as (b' & Hdb' & Htb' & Hy); [done|].
      exists b'. simpl. rewrite drop_0. split_and!; [done| |by apply Hr].
      by rewrite Htb', Htb, <-app_assoc.
Qed.

Lemma parse_value buf v rest :
  dynamic buf →
  ∃ b, dynamic b ∧ text b = text buf ++ v ∧
    parse_label_value buf (QUOTE :: escape_text marshal_escape BACKSLASH v ++ QUOTE :: rest) ⇓ (0, b, rest).
Proof.
  intros Hb. set (s := escape_text _ _ v ++ QUOTE :: rest).
  destruct (parse_value_loop (S (length s)) buf v rest Hb) as (b & Hdb & Htb & Hy).
  { unfold s. rewrite length_app. pose proof (escape_text_length marshal_escape BACKSLASH v). lia. }
  exists b. split_and!; [done|done|]. unfold parse_label_value.
  rewrite bool_decide_true by done. by eapply yields_bind; [exact Hy|].
Qed.

(** Appending a label greater than all others. *)
Lemma add_last acc k v :
  lwf (acc ++ [(k, v)]) → label_set_add (embed acc) k (Some v) ⇓ (0, embed (acc ++ [(k, v)])).
Proof.
  intros [Hs Hf]. apply Forall_app in Hf as [Hf [(Hk & Hv & Hn) _]%Forall_cons_1].
  simpl in Hk, Hv, Hn. apply sorted_split in Hs as (Hs & _ & Hb & _).
  assert (Spec.get k acc = None) as Hg.
  { rewrite <-(app_nil_r acc), spec_get_skip; done. }
  destruct (add_ok acc k v) as [Hy _]; [done|done|].
  unfold add_spec, create_spec in Hy. rewrite Hg, Hk in Hy. destruct v; [done|]. simpl in Hy.
  by rewrite spec_insert_last in Hy.
Qed.

Lemma unmarshal_step fuel acc val c k v rest :
  dynamic val → lwf (acc ++ [(k, v)]) → c = "{"%char ∨ c = ","%char →
  ∃ val', dynamic val' ∧ ∀ r,
    unmarshal_loop fuel (embed (acc ++ [(k, v)])) val' rest ⇓ r →
    unmarshal_loop (S fuel) (embed acc) val (c :: pair_text (k, v) ++ rest) ⇓ r.
Proof.
  intros Hval Hl Hc. pose proof Hl as [_ [_ [(Hk & Hv & Hn) _]%Forall_cons_1]%Forall_app].
  simpl in Hk, Hv, Hn. apply valid_label_chars in Hk as [Hk0 Hkc].
  destruct (reset_yields val Hval) as (b1 & Hb1 & Hd1 & Ht1).
  destruct (parse_value b1 v rest Hd1) as (b2 & Hd2 & Ht2 & Hy2). rewrite Ht1 in Ht2. simpl in Ht2.
  exists b2. split; [done|]. intros r Hr. cbn [unmarshal_loop].
  replace (bool_decide (c = "{"%char) || bool_decide (c = ","%char)) with true
    by (destruct Hc as [-> | ->]; done).
  unfold pair_text. cbn [fst snd]. rewrite <-!app_assoc. cbn [app].
  unfold strspn. rewrite span_len_app_stop by done.
  destruct (Nat.eqb_spec (length k) 0) as [E|_]; [by apply nil_length_inv in E|].
  rewrite take_app_length, drop_app_length. rewrite bool_decide_true by done.
  eapply yields_bind; [exact Hb1|]. eapply yields_bind; [exact Hy2|]. cbn.
  rewrite dynamic_c_str by (rewrite ?Ht2; done). rewrite Ht2.
  eapply yields_bind; [by apply add_last|]. done.
Qed.

Lemma unmarshal_pairs fuel acc val i kv rest :
  dynamic val → lwf (acc ++ kv) → (length kv < fuel)%nat →
  unmarshal_loop fuel (embed acc) val (pairs_text (S i) kv ++ "}"%char :: rest) ⇓
    (0, embed (acc ++ kv), "}"%char :: rest).
Proof.
  revert acc val i fuel. induction kv as [|[k v] kv IH]; intros acc val i fuel Hval Hl Hf.
  { rewrite app_nil_r. destruct fuel; [simpl in Hf; lia|done]. }
  destruct fuel as [|fuel]; [simpl in Hf; lia|]. simpl in Hf.
  rewrite pairs_text_cons. simpl Nat.eqb. cbv iota. rewrite <-!app_assoc.
  assert (lwf ((acc ++ [(k, v)]) ++ kv)) as Hl' by by rewrite <-app_assoc.
  destruct (unmarshal_step fuel acc val ","%char k v (pairs_text (S (S i)) kv ++ "}"%char :: rest))
    as (val' & Hval' & Hr); [done| |auto|].
  { destruct Hl' as [Hs Hf']. split; [|by apply Forall_app in Hf' as [? _]].
    by apply StronglySorted_app_1_l in Hs. }
  apply Hr. replace (acc ++ (k, v) :: kv) with ((acc ++ [(k, v)]) ++ kv) by by rewrite <-app_assoc.
  apply IH; [done|done|lia].
Qed.
Lemma unmarshal_labels_text kv rest :
  lwf kv → kv ≠ [] → label_set_unmarshal [] (labels_text kv ++ rest) ⇓ (0, embed kv, rest).
Proof.
  intros Hl Hne. destruct kv as [|[k v] kv]; [done|].
  unfold labels_text. rewrite pairs_text_cons, <-!app_assoc. simpl.
  set (rest' := pairs_text 1 kv ++ "}"%char :: rest). unfold label_set_unmarshal.
  rewrite bool_decide_true by done.
  set (fuel := length _). assert (length kv < fuel)%nat as Hf.
  { unfold fuel, rest'. simpl. rewrite !length_app. simpl.
    pose proof (pairs_text_length 1 kv). lia. }
  destruct (unmarshal_step fuel [] STRBUF_CREATE "{"%char k v rest') as (val' & Hval' & Hr);
    [apply dynamic_create| |auto|].
  { destruct Hl as [_ [? _]%Forall_cons_1]. split; [repeat constructor|]. by constructor. }
  eapply yields_bind; [apply Hr, unmarshal_pairs; [done|done|lia]|]. done.
Qed.
End marshal.

(** ** Claims *)

(** Adding a non-empty value to a valid label set updates the map: with
    working allocations [label_set_add] gives the status and the set of
    [add_spec], which is again sorted, duplicate-free and valid; with a
    failing one it may also answer [ENOMEM] and leave the set as it was.
    After status 0, [label_set_read] of the name finds the new value, and
    every other name keeps its value. *)
Theorem label_set_add_spec kv nm v :
  lwf kv → v ≠ [] → no_nul v →
  let '(st, kv') := add_spec kv nm v in
  label_set_add (embed kv) nm (Some v) ⇓ (st, embed kv') ∧
  wp (label_set_add (embed kv) nm (Some v)) (λ r, r = (st, embed kv') ∨ r = (ENOMEM, embed kv)) ∧
  lwf kv' ∧
  (st = 0 → (∃ i, label_set_read (embed kv') nm ⇓ Some i ∧ embed kv' !! i = Some (mk_pair (Some nm) (Some v))) ∧
            ∀ k, k ≠ nm → Spec.get k kv' = Spec.get k kv).
Proof.
  intros Hl Hne Hv. pose proof (add_ok kv nm v Hl Hne) as [Hy Hw].
  pose proof (add_spec_lwf kv nm v Hl Hne Hv) as Hl'. pose proof (add_spec_get kv nm v) as Hget.
  destruct (add_spec kv nm v) as [st kv']. simpl in *. split_and!; [done..|]. intros ->. split.
  - destruct (read_present kv' nm v) as (i & Hr & Hi); [apply Hl'| |].
    { by rewrite Hget, compare_refl. }
    exists i. rewrite Hr, embed_lookup, Hi. done.
  - intros k Hk. rewrite Hget by done. destruct (Z.eqb_spec (compare k nm) 0) as [E|]; [|done].
    by apply (compare_eq k nm) in E.
Qed.

Lemma label_set_add_spec_witness :
  label_set_add (embed [($"b", $"1")]) $"a" (Some $"2") ⇓ (0, embed [($"a", $"2"); ($"b", $"1")]).
Proof.
  refine (proj1 (label_set_add_spec [($"b", $"1")] $"a" $"2" _ _ _)).
  - split; [repeat constructor|]. constructor; [|constructor]. split_and!; [done|done|].
    by apply (bool_decide_unpack _).
  - done.
  - by apply (bool_decide_unpack _).
Defined.

(** [label_set_create] of any name and value: [EINVAL] for a name that
    is not a label name, [EEXIST] for one that is present, otherwise the pair
    is inserted at its sorted position (an empty value creates nothing); on
    every error, [ENOMEM] included, the set is unchanged. *)
Theorem label_set_create_spec kv nm v :
  lwf kv → no_nul v →
  let '(st, kv') := create_spec kv nm v in
  label_set_create (embed kv) nm v ⇓ (st, embed kv') ∧
  wp (label_set_create (embed kv) nm v) (λ r, r = (st, embed kv') ∨ r = (ENOMEM, embed kv)) ∧
  lwf kv' ∧ (st ≠ 0 → kv' = kv).
Proof.
  intros Hl Hv. pose proof (label_create_ok kv nm v Hl) as [Hy Hw].
  pose proof (create_spec_lwf kv nm v Hl Hv) as Hl'.
  assert ((create_spec kv nm v).1 ≠ 0 → (create_spec kv nm v).2 = kv) as Hst.
  { unfold create_spec. destruct (negb _); [done|]. destruct (Spec.get nm kv), v; done. }
  by destruct (create_spec kv nm v).
Qed.

Lemma label_set_create_spec_witness :
  label_set_create (embed [($"b", $"1")]) $"b" $"2" ⇓ (EEXIST, embed [($"b", $"1")]).
Proof.
  refine (proj1 (label_set_create_spec [($"b", $"1")] $"b" $"2" _ _)).
  - split; [repeat constructor|]. constructor; [|constructor]. split_and!; [done|done|].
    by apply (bool_decide_unpack _).
  - by apply (bool_decide_unpack _).
Defined.

(** [label_set_delete] removes the last label of a set, but for any
    earlier one (with up to 16 labels behind it) the [memmove], whose length
    is a number of slots where bytes are meant, leaves a slot that still
    holds the freed value pointer: a later [label_set_reset] frees it again,
    which is undefined. *)
Theorem label_set_delete_spec kv i :
  (i < length kv)%nat → (length kv - (i + 1) < 16)%nat →
  if (i =? length kv - 1)%nat then label_set_delete (embed kv) i ⇓ (0, embed (take i kv))
  else ∃ ls p, label_set_delete (embed kv) i ⇓ (0, ls) ∧ ls !! i = Some p ∧ value p = None ∧
               ∀ o, label_set_reset ls o = None.
Proof.
  intros Hi Hn. destruct (Nat.eqb_spec i (length kv - 1)) as [->|Hne].
  - destruct kv as [|[k v] kv _] using rev_ind; [simpl in Hi; lia|].
    rewrite length_app. simpl. rewrite Nat.add_sub, label_delete_last, take_app_length. done.
  - destruct (delete_dangling (embed kv) i) as (ls & p & Hd & Hp & Hv);
      [rewrite length_embed; lia..|]. exists ls, p. rewrite Hd. split_and!; [done..|].
    intros o. unfold label_set_reset, massert. replace (forallb _ _) with false; [done|].
    symmetry. apply not_true_is_false. rewrite forallb_forall. intros Hall.
    specialize (Hall p). rewrite Hv, andb_false_r in Hall. discriminate Hall.
    apply list_elem_of_In. by eapply list_elem_of_lookup_2.
Qed.

Lemma label_set_delete_spec_witness :
  ∃ ls p, label_set_delete (embed [($"a", $"1"); ($"b", $"2")]) 0 ⇓ (0, ls) ∧ ls !! 0%nat = Some p ∧
          value p = None ∧ ∀ o, label_set_reset ls o = None.
Proof. apply (label_set_delete_spec [($"a", $"1"); ($"b", $"2")] 0); simpl; lia. Defined.

(** C5. Marshalling a valid label set into a dynamic buffer and unmarshalling
    the text gives a non-empty set back, and leaves the input just after the
    closing brace.  The text of the empty set is a pair of braces, which
    unmarshalling refuses with EINVAL: that set does not survive. *)
Theorem label_set_roundtrip `{Sysconf} buf kv rest :
  dynamic buf → lwf kv →
  ∃ b w, label_set_marshal buf (embed kv) ⇓ (0, b) ∧ text b = text buf ++ w ∧
         (kv ≠ [] → label_set_unmarshal [] (w ++ rest) ⇓ (0, embed kv, rest)) ∧
         (kv = [] → w = $"{}" ∧ label_set_unmarshal [] (w ++ rest) ⇓ (EINVAL, [], w ++ rest)).
Proof.
  intros Hb Hl. destruct (marshal_appends kv buf Hb) as (b & Hm & _ & Ht).
  exists b, (labels_text kv). split_and!; [done..| |].
  - intros Hne. by apply unmarshal_labels_text.
  - by intros ->.
Qed.

Lemma label_set_roundtrip_witness :
  ∃ b w, label_set_marshal (H:=4096) STRBUF_CREATE (embed [($"a", $"x"); ($"b", [QUOTE; LF; BACKSLASH])]) ⇓ (0, b) ∧
         text b = text STRBUF_CREATE ++ w ∧
         label_set_unmarshal (H:=4096) [] (w ++ $"tail") ⇓
           (0, embed [($"a", $"x"); ($"b", [QUOTE; LF; BACKSLASH])], $"tail").
Proof.
  destruct (label_set_roundtrip (H:=4096) STRBUF_CREATE [($"a", $"x"); ($"b", [QUOTE; LF; BACKSLASH])] $"tail")
    as (b & w & Hm & Ht & Hu & _); [apply dynamic_create| |exists b, w; split_and!; [done|done|by apply Hu]].
  split; [repeat constructor|].
  repeat constructor; by apply (bool_decide_unpack _).
Defined.
