(* ===== verification/Double.v ===== *)
(** * C doubles

    [double] is IEEE binary64, computed by the Standard Library's
    [SpecFloat]; [pow] of libm is a parameter. *)

From Stdlib Require Import ZArith Lia SpecFloat.
From stdpp Require Import base numbers option.
From S2P Require Import Prelude.

Definition double : Type := spec_float.
Definition prec : Z := 53.
Definition emax : Z := 1024.

Definition fadd : double → double → double := SFadd prec emax.
Definition fsub : double → double → double := SFsub prec emax.
Definition fmul : double → double → double := SFmul prec emax.
Definition fdiv : double → double → double := SFdiv prec emax.
Definition fsqrt : double → double := SFsqrt prec emax.
Definition flt : double → double → bool := SFltb.
Definition fle : double → double → bool := SFleb.
Definition feq : double → double → bool := SFeqb.
Definition NAN : double := S754_nan.
Definition INFINITY : double := S754_infinity false.
Definition fzero : double := S754_zero false.
(** The conversion of an integer, rounded to nearest even. *)
Definition of_Z (z : Z) : double := binary_normalize prec emax z 0 false.

(** [(uint64_t) ceil (x)], where C defines it. *)
Definition ceil_Z (x : double) : option Z :=
  match x with
  | S754_zero _ => Some 0
  | S754_finite s m e =>
      let m := if s then Z.neg m else Z.pos m in
      Some (if e >=? 0 then m * 2 ^ e else - ((- m) / 2 ^ (- e)))
  | _ => None
  end.
Definition u64_of_ceil (x : double) : option Z :=
  z ← ceil_Z x; if (0 <=? z) && (z <? 2 ^ 64) then Some z else None.

(** Conversion to an integer type truncates towards zero; it is undefined
    when the result does not fit. *)
Definition trunc_Z (x : double) : option Z :=
  match x with
  | S754_zero _ => Some 0
  | S754_finite s m e =>
      let z := if e >=? 0 then Z.pos m * 2 ^ e else Z.pos m / 2 ^ (- e) in
      Some (if s then - z else z)
  | _ => None
  end.
Definition u64_of_trunc (x : double) : option Z :=
  z ← trunc_Z x; if (0 <=? z) && (z <? 2 ^ 64) then Some z else None.
Definition i64_of_trunc (x : double) : option Z :=
  z ← trunc_Z x; if (- 2 ^ 63 <=? z) && (z <? 2 ^ 63) then Some z else None.

(** libm's [pow]. *)
Class Libm : Type := pow : double → double → double.

(** ** Comparison *)

Lemma SFcompare_trans x y z :
  SFcompare x y = Some Lt → SFcompare y z = Some Lt → SFcompare x z = Some Lt.
Proof.
  destruct x as [sx|[]| |[] mx ex], y as [sy|[]| |[] my ey], z as [sz|[]| |[] mz ez]; try done; simpl;
  intros H1 H2;
  destruct (Z.compare_spec ex ey), (Z.compare_spec ey ez), (Z.compare_spec ex ez); subst; try done; try lia;
  injection H1 as H1; injection H2 as H2; f_equal;
  repeat match goal with
  | H : context [Pos.compare_cont Eq ?a ?b] |- _ => change (Pos.compare_cont Eq a b) with (a ?= b)%positive in H
  end;
  try change (Pos.compare_cont Eq mx mz) with (mx ?= mz)%positive.
  all: destruct (Pos.compare_spec mx my), (Pos.compare_spec my mz), (Pos.compare_spec mx mz); try done; lia.
Qed.

Lemma flt_trans x y z : flt x y = true → flt y z = true → flt x z = true.
Proof.
  unfold flt, SFltb. destruct (SFcompare x y) as [[]|] eqn:E1; try done.
  destruct (SFcompare y z) as [[]|] eqn:E2; try done. by rewrite (SFcompare_trans _ _ _ E1 E2).
Qed.

Definition is_nan (x : double) : bool := match x with S754_nan => true | _ => false end.

Lemma fle_flt x y : is_nan x = false → is_nan y = false → fle y x = false ↔ flt x y = true.
Proof.
  intros Hx Hy. unfold fle, flt, SFleb, SFltb.
  assert (SFcompare y x = CompOpp <$> SFcompare x y ∧ is_Some (SFcompare x y)) as [-> [c ->]];
    [|by destruct c].
  destruct x as [sx|[]| |[] mx ex], y as [sy|[]| |[] my ey]; try done; simpl;
    rewrite (Z.compare_antisym ex ey); destruct (ex ?= ey)%Z; simpl; (split; [|done]); try done;
    change (Pos.compare_cont Eq ?a ?b) with (a ?= b)%positive;
    rewrite (Pos.compare_antisym mx my); by destruct (mx ?= my)%positive.
Qed.

Lemma flt_infinity x : is_nan x = false → feq x INFINITY = false ↔ flt x INFINITY = true.
Proof. by destruct x as [|[]| |]. Qed.
