(* ===== verification/Distribution.v ===== *)
(** * Distribution metrics (src/daemon/distribution.c)

    A distribution keeps its buckets as a binary tree laid out in an array
    (preorder).  Array accesses out of range and a second lock of a held
    mutex are [None]. *)

From Stdlib Require Import ZArith Lia SpecFloat Sorted.
From stdpp Require Import base list numbers option sorting.
From S2P Require Import Prelude Double.

(** ** Data *)

Record bucket_t : Type := mk_bucket { bucket_counter : Z; maximum : double }.

Record distribution_t : Type := mk_dist {
  tree : list bucket_t;
  num_buckets : nat;
  total_sum : double;
  total_square_sum : double;
  mutex : bool;   (* held *)
}.

#[local] Open Scope nat_scope.

Definition set_tree (d : distribution_t) (t : list bucket_t) : distribution_t :=
  mk_dist t (num_buckets d) (total_sum d) (total_square_sum d) (mutex d).
Definition set_mutex (d : distribution_t) (b : bool) : distribution_t :=
  mk_dist (tree d) (num_buckets d) (total_sum d) (total_square_sum d) b.

Definition pthread_mutex_lock (d : distribution_t) : option distribution_t :=
  if mutex d then None else Some (set_mutex d true).
Definition pthread_mutex_unlock (d : distribution_t) : option distribution_t :=
  if mutex d then Some (set_mutex d false) else None.

(** A write to an array element that exists. *)
Definition write {A} (l : list A) (i : nat) (x : A) : option (list A) :=
  if i <? length l then Some (<[i := x]> l) else None.

(** ** The tree *)

Definition left_child_index (node_index left right : nat) : nat := node_index + 1.
Definition right_child_index (node_index left right : nat) : nat :=
  let mid := (left + right) / 2 in node_index + 2 * (mid - left + 1).
Definition tree_size (num_buckets : nat) : nat := 2 * num_buckets - 1.

Definition merge_buckets (left_child right_child : bucket_t) : bucket_t :=
  mk_bucket (u64 (bucket_counter left_child + bucket_counter right_child)) (maximum right_child).

Fixpoint build_tree (fuel : nat) (tr buckets : list bucket_t) (node_index left right : nat)
    : option (list bucket_t) :=
  match fuel with
  | O => None
  | S fuel =>
      if right <? left then Some tr
      else if left =? right then b ← buckets !! left; write tr node_index b
      else
        let mid := (left + right) / 2 in
        let left_child := left_child_index node_index left right in
        let right_child := right_child_index node_index left right in
        tr ← build_tree fuel tr buckets left_child left mid;
        tr ← build_tree fuel tr buckets right_child (mid + 1) right;
        l ← tr !! left_child;
        r ← tr !! right_child;
        write tr node_index (merge_buckets l r)
  end.

Definition zero_bucket : bucket_t := mk_bucket 0 fzero.

(** [None]: undefined behaviour; [Some None]: NULL. *)
Definition build_distribution_from_bucket_array (ok1 ok2 : bool) (num : nat) (bucket_array : list bucket_t)
    : option (option distribution_t) :=
  if negb ok1 || negb ok2 then Some None
  else
    nodes ← build_tree (S num) (replicate (tree_size num) zero_bucket) bucket_array 0 0 (num - 1);
    Some (Some (mk_dist nodes num fzero fzero false)).

(** A constructor's answer: [errno] or the distribution. *)
Inductive created : Type :=
  | Created (d : distribution_t)
  | Refused (errno : Z).

Definition of_build (r : option (option distribution_t)) : option created :=
  match r with
  | None => None
  | Some None => Some (Refused ENOMEM)
  | Some (Some d) => Some (Created d)
  end.

Definition linear_bucket (num : nat) (size : double) (i : nat) : bucket_t :=
  mk_bucket 0 (if i =? num - 1 then INFINITY else fmul (of_Z (Z.of_nat (i + 1))) size).
Definition distribution_new_linear (ok1 ok2 : bool) (num : nat) (size : double) : option created :=
  if (num =? 0) || fle size fzero then Some (Refused EINVAL)
  else of_build (build_distribution_from_bucket_array ok1 ok2 num (map (linear_bucket num size) (seq 0 num))).

Definition exponential_bucket `{Libm} (num : nat) (base factor : double) (i : nat) : bucket_t :=
  mk_bucket 0 (if i =? num - 1 then INFINITY else fmul factor (pow base (of_Z (Z.of_nat i)))).
Definition distribution_new_exponential `{Libm} (ok1 ok2 : bool) (num : nat) (base factor : double)
    : option created :=
  if (num =? 0) || fle base (of_Z 1) || fle factor fzero then Some (Refused EINVAL)
  else of_build (build_distribution_from_bucket_array ok1 ok2 num
                   (map (exponential_bucket num base factor) (seq 0 num))).

(** The validation loop of [distribution_new_custom]. *)
Fixpoint boundaries_ok (previous_boundary : double) (bounds : list double) : bool :=
  match bounds with
  | [] => true
  | b :: bounds' => negb (fle b previous_boundary) && boundaries_ok b bounds'
  end.
Definition custom_buckets (bounds : list double) : list bucket_t :=
  map (mk_bucket 0) bounds ++ [mk_bucket 0 INFINITY].
Definition distribution_new_custom (ok1 ok2 : bool) (bounds : list double) : option created :=
  if negb (boundaries_ok fzero bounds) then Some (Refused EINVAL)
  else if match bounds !! (length bounds - 1) with Some b => feq b INFINITY | None => false end then Some (Refused EINVAL)
  else of_build (build_distribution_from_bucket_array ok1 ok2 (length bounds + 1) (custom_buckets bounds)).

(** [distribution_clone]: the locked source, unlocked again, and the copy. *)
Definition distribution_clone (ok1 ok2 : bool) (dist : distribution_t)
    : option (distribution_t * option distribution_t) :=
  if negb ok1 || negb ok2 then Some (dist, None)
  else
    dist ← pthread_mutex_lock dist;
    let nodes := take (tree_size (num_buckets dist)) (tree dist) in
    let copy := mk_dist nodes (num_buckets dist) (total_sum dist) (total_square_sum dist) false in
    dist ← pthread_mutex_unlock dist;
    Some (dist, Some copy).

Definition inc_bucket (b : bucket_t) : bucket_t := mk_bucket (u64 (bucket_counter b + 1)) (maximum b).

Fixpoint update_tree (fuel : nat) (tr : list bucket_t) (node_index left right : nat) (gauge : double)
    : option (list bucket_t) :=
  match fuel with
  | O => None
  | S fuel =>
      if right <? left then Some tr
      else
        b ← tr !! node_index;
        tr ← write tr node_index (inc_bucket b);
        if left =? right then Some tr
        else
          let mid := (left + right) / 2 in
          let left_child := left_child_index node_index left right in
          let right_child := right_child_index node_index left right in
          l ← tr !! left_child;
          if flt gauge (maximum l) then update_tree fuel tr left_child left mid gauge
          else update_tree fuel tr right_child (mid + 1) right gauge
  end.

Definition distribution_update (dist : distribution_t) (gauge : double) : option (Z * distribution_t) :=
  if flt gauge fzero then Some (EINVAL, dist)
  else
    dist ← pthread_mutex_lock dist;
    tr ← update_tree (S (num_buckets dist)) (tree dist) 0 0 (num_buckets dist - 1) gauge;
    let dist :=
      mk_dist tr (num_buckets dist) (fadd (total_sum dist) gauge)
              (fadd (total_square_sum dist) (fmul gauge gauge)) (mutex dist) in
    dist ← pthread_mutex_unlock dist;
    Some (0%Z, dist).

Fixpoint tree_get_counter (fuel : nat) (tr : list bucket_t) (node_index left right : nat) (counter : Z)
    : option double :=
  match fuel with
  | O => None
  | S fuel =>
      if right <? left then Some NAN
      else if left =? right then b ← tr !! node_index; Some (maximum b)
      else
        let mid := (left + right) / 2 in
        let left_child := left_child_index node_index left right in
        let right_child := right_child_index node_index left right in
        l ← tr !! left_child;
        if (counter <=? bucket_counter l)%Z then tree_get_counter fuel tr left_child left mid counter
        else tree_get_counter fuel tr right_child (mid + 1) right (u64 (counter - bucket_counter l))
  end.

Definition distribution_percentile (dist : distribution_t) (percent : double) : option (double * distribution_t) :=
  if flt percent fzero || flt (of_Z 100) percent then Some (NAN, dist)
  else
    dist ← pthread_mutex_lock dist;
    root ← tree dist !! 0;
    if (bucket_counter root =? 0)%Z then dist ← pthread_mutex_unlock dist; Some (NAN, dist)
    else
      counter ← u64_of_ceil (fdiv (fmul (of_Z (bucket_counter root)) percent) (of_Z 100));
      percentile ← tree_get_counter (S (num_buckets dist)) (tree dist) 0 0 (num_buckets dist - 1) counter;
      dist ← pthread_mutex_unlock dist;
      Some (percentile, dist).

Definition distribution_average (dist : distribution_t) : option (double * distribution_t) :=
  dist ← pthread_mutex_lock dist;
  root ← tree dist !! 0;
  if (bucket_counter root =? 0)%Z then dist ← pthread_mutex_unlock dist; Some (NAN, dist)
  else
    let average := fdiv (total_sum dist) (of_Z (bucket_counter root)) in
    dist ← pthread_mutex_unlock dist;
    Some (average, dist).

Definition distribution_num_buckets (dist : distribution_t) : nat := num_buckets dist.

Fixpoint tree_write_leave_buckets (fuel : nat) (tr write_ptr : list bucket_t) (node_index left right : nat)
    : option (list bucket_t) :=
  match fuel with
  | O => None
  | S fuel =>
      if right <? left then Some write_ptr
      else if left =? right then b ← tr !! node_index; write write_ptr left b
      else
        let mid := (left + right) / 2 in
        let left_child := left_child_index node_index left right in
        let right_child := right_child_index node_index left right in
        w ← tree_write_leave_buckets fuel tr write_ptr left_child left mid;
        tree_write_leave_buckets fuel tr w right_child (mid + 1) right
  end.

(** [get_buckets]: the [calloc] is not checked, so its failure makes the
    writes undefined. *)
Definition get_buckets (ok : bool) (dist : distribution_t) : option (list bucket_t * distribution_t) :=
  let buckets := if ok then replicate (num_buckets dist) zero_bucket else [] in
  dist ← pthread_mutex_lock dist;
  w ← tree_write_leave_buckets (S (num_buckets dist)) (tree dist) buckets 0 0 (num_buckets dist - 1);
  dist ← pthread_mutex_unlock dist;
  Some (w, dist).

Definition distribution_total_sum (dist : distribution_t) : double := total_sum dist.
Definition distribution_total_counter (dist : distribution_t) : option Z :=
  root ← tree dist !! 0; Some (bucket_counter root).
Definition distribution_squares_sum (dist : distribution_t) : double := total_square_sum dist.

Definition distribution_squared_deviation_sum (dist : distribution_t) : option (double * distribution_t) :=
  '(mean, dist) ← distribution_average dist;
  dist ← pthread_mutex_lock dist;
  n ← distribution_total_counter dist;
  let s := fadd (fsub (fmul (fmul mean mean) (of_Z n)) (fmul (fmul (of_Z 2) mean) (total_sum dist)))
                (total_square_sum dist) in
  dist ← pthread_mutex_unlock dist;
  Some (s, dist).

Definition distribution_stddev (dist : distribution_t) : option (double * distribution_t) :=
  dist ← pthread_mutex_lock dist;
  n ← distribution_total_counter dist;
  if (n =? 1)%Z then dist ← pthread_mutex_unlock dist; Some (fzero, dist)
  else
    let stddev :=
      fsqrt (fdiv (fsub (fmul (of_Z n) (total_square_sum dist)) (fmul (total_sum dist) (total_sum dist)))
                  (of_Z (u64 (n * u64 (n - 1))))) in
    dist ← pthread_mutex_unlock dist;
    Some (stddev, dist).

Definition clear_counter (b : bucket_t) : bucket_t := mk_bucket 0 (maximum b).
Definition distribution_reset (dist : distribution_t) : option (Z * distribution_t) :=
  dist ← pthread_mutex_lock dist;
  let n := tree_size (num_buckets dist) in
  if length (tree dist) <? n then None
  else
    let dist := mk_dist (map clear_counter (take n (tree dist)) ++ drop n (tree dist))
                        (num_buckets dist) fzero fzero (mutex dist) in
    dist ← pthread_mutex_unlock dist;
    Some (0%Z, dist).

(** ** Two distributions

    They live in a store, so that two pointers may be the same; the order of
    the indices is the order of the addresses. *)

Abbreviation store := (list distribution_t).

Definition distribution_lock (h : store) (d1 d2 : nat) : option (Z * store) :=
  if d1 =? d2 then Some ((-1)%Z, h)
  else
    let '(d1, d2) := if d2 <? d1 then (d2, d1) else (d1, d2) in
    x ← h !! d1; x ← pthread_mutex_lock x; h ← write h d1 x;
    y ← h !! d2; y ← pthread_mutex_lock y; h ← write h d2 y;
    Some (0%Z, h).

Definition distribution_unlock (h : store) (d1 d2 : nat) : option (Z * store) :=
  if d1 =? d2 then Some ((-1)%Z, h)
  else
    let '(d1, d2) := if d2 <? d1 then (d2, d1) else (d1, d2) in
    y ← h !! d2; y ← pthread_mutex_unlock y; h ← write h d2 y;
    x ← h !! d1; x ← pthread_mutex_unlock x; h ← write h d1 x;
    Some (0%Z, h).

Definition compare_uint64 (a b : Z) : Z := if (a =? b)%Z then 0%Z else if (a <? b)%Z then (-1)%Z else 1%Z.

Fixpoint cmp_loop (result : Z) (t1 t2 : list bucket_t) : Z :=
  match t1, t2 with
  | b1 :: t1', b2 :: t2' =>
      let cur_res := compare_uint64 (bucket_counter b1) (bucket_counter b2) in
      if negb (cur_res =? 0)%Z && negb (cur_res =? result)%Z then ERANGE else cmp_loop result t1' t2'
  | _, _ => 0%Z
  end.

(** Status and, when the loop is reached, the value stored in [*result]. *)
Definition distribution_cmp (d1 d2 : distribution_t) : option (Z * option Z) :=
  if negb (num_buckets d1 =? num_buckets d2) then Some (EINVAL, None)
  else
    let n := tree_size (num_buckets d1) in
    let t1 := take n (tree d1) in
    let t2 := take n (tree d2) in
    if negb (length t1 =? n) || negb (length t2 =? n) then None
    else if negb (forallb (λ '(b1, b2), feq (maximum b1) (maximum b2)) (zip t1 t2)) then Some (EINVAL, None)
    else
      r1 ← head t1; r2 ← head t2;
      let result := compare_uint64 (bucket_counter r1) (bucket_counter r2) in
      Some (cmp_loop result (tail t1) (tail t2), Some result).

Definition distribution_equal (h : store) (d1 d2 : nat) : option (bool * store) :=
  '(_, h) ← distribution_lock h d1 d2;
  x ← h !! d1; y ← h !! d2;
  '(cmp_status, cmp_result) ← distribution_cmp x y;
  let ans := (cmp_status =? 0)%Z && bool_decide (cmp_result = Some 0%Z) in
  '(_, h) ← distribution_unlock h d1 d2;
  Some (ans, h).

Definition sub_bucket (b1 b2 : bucket_t) : bucket_t :=
  mk_bucket (u64 (bucket_counter b1 - bucket_counter b2)) (maximum b1).

(** The comparison is stored in [cmp_status] and overwritten by the returned
    status: [cmp_result] keeps its initial 0. *)
Definition distribution_sub (h : store) (d1 d2 : nat) : option (Z * store) :=
  '(_, h) ← distribution_lock h d1 d2;
  x ← h !! d1; y ← h !! d2;
  let cmp_result := 0%Z in
  '(cmp_status, _) ← distribution_cmp x y;
  if negb (cmp_status =? 0)%Z || (cmp_result =? -1)%Z then
    let cmp_status := if (cmp_result =? -1)%Z then ERANGE else cmp_status in
    '(_, h) ← distribution_unlock h d1 d2;
    Some (cmp_status, h)
  else
    let n := tree_size (num_buckets x) in
    let t := zip_with sub_bucket (take n (tree x)) (take n (tree y)) ++ drop n (tree x) in
    let x := mk_dist t (num_buckets x) (fsub (total_sum x) (total_sum y))
                     (fsub (total_square_sum x) (total_square_sum y)) (mutex x) in
    h ← write h d1 x;
    '(_, h) ← distribution_unlock h d1 d2;
    Some (0%Z, h).

(** ** The array is the preorder of a balanced tree over the buckets *)

Inductive tree_of : list bucket_t → bucket_t → list bucket_t → Prop :=
  | tree_leaf b : tree_of [b] b [b]
  | tree_node l r bl br tl tr :
      length l = (length l + length r - 1) / 2 + 1 → r ≠ [] →
      tree_of l bl tl → tree_of r br tr →
      tree_of (l ++ r) (merge_buckets bl br) (merge_buckets bl br :: tl ++ tr).

Lemma mid_split left n m : (* n leaves, m of them to the left *)
  m = (n - 1) / 2 + 1 → 1 < n →
  (left + (left + n - 1)) / 2 = left + m - 1 ∧ m < n ∧ 0 < m.
Proof.
  intros -> Hn. replace (left + (left + n - 1)) with (n - 1 + left * 2) by lia.
  rewrite Nat.div_add by lia. pose proof (Nat.div_mod_eq (n - 1) 2).
  pose proof (Nat.mod_upper_bound (n - 1) 2). lia.
Qed.

Lemma tree_of_facts bs b t :
  tree_of bs b t → length t = 2 * length bs - 1 ∧ bs ≠ [] ∧ ∃ t', t = b :: t'.
Proof.
  induction 1 as [b|l r bl br tl tr Hm Hr Hl (IHl & ? & _) _ (IHr & ? & _)]; [by eauto|].
  split_and!; [|by destruct l|eauto]. simpl. rewrite !length_app, IHl, IHr.
  destruct l, r; simpl in *; done || lia.
Qed.

Lemma right_child_ok {A} node left (l r : list A) :
  length l = (length l + length r - 1) / 2 + 1 → r ≠ [] →
  (left + (left + (length l + length r) - 1)) / 2 = left + length l - 1 ∧
  right_child_index node left (left + (length l + length r) - 1) = node + 2 * length l ∧ 0 < length l.
Proof.
  intros Hm Hr. destruct (mid_split left (length l + length r) (length l)) as (E & _ & ?);
    [done|destruct r; [done|simpl; lia]|].
  unfold right_child_index. rewrite E. split_and!; [done|lia|done].
Qed.

Lemma write_mid {A} (pre post : list A) x y :
  write (pre ++ x :: post) (length pre) y = Some (pre ++ y :: post).
Proof.
  unfold write. rewrite length_app. destruct (Nat.ltb_spec (length pre) (length pre + length (x :: post)));
    [|simpl in *; lia]. by rewrite insert_app_r_alt, Nat.sub_diag by lia.
Qed.

Lemma lookup_mid {A} (pre post : list A) x : (pre ++ x :: post) !! length pre = Some x.
Proof. by rewrite lookup_app_r, Nat.sub_diag by lia. Qed.

(** Where the subtrees of a node lie in the array. *)
Lemma left_position (pre : list bucket_t) x tl tr post :
  pre ++ (x :: tl ++ tr) ++ post = (pre ++ [x]) ++ tl ++ (tr ++ post) ∧ length (pre ++ [x]) = length pre + 1.
Proof. rewrite length_app. split; [|done]. cbn [app]. by rewrite <-!app_assoc. Qed.

Lemma right_position (pre : list bucket_t) x tl tr post n :
  length tl = 2 * n - 1 → 0 < n →
  pre ++ (x :: tl ++ tr) ++ post = (pre ++ x :: tl) ++ tr ++ post ∧ length (pre ++ x :: tl) = length pre + 2 * n.
Proof.
  intros Hl Hn. rewrite length_app. cbn [app length]. split; [|lia]. by rewrite <-!app_assoc.
Qed.

(** Reading the two children of a node and writing their merge. *)
Lemma node_write (pre post : list bucket_t) x bl tl br tr (f : bucket_t → bucket_t → bucket_t) :
  let t := (pre ++ x :: bl :: tl) ++ (br :: tr) ++ post in
  (l ← t !! length (pre ++ [x]); r ← t !! length (pre ++ x :: bl :: tl); write t (length pre) (f l r)) =
    Some (pre ++ (f bl br :: (bl :: tl) ++ br :: tr) ++ post).
Proof.
  cbv zeta. replace ((pre ++ x :: bl :: tl) ++ (br :: tr) ++ post)
    with ((pre ++ [x]) ++ bl :: tl ++ br :: tr ++ post) at 1 by by rewrite <-!app_assoc.
  rewrite lookup_mid. cbn [mbind option_bind].
  change ((br :: tr) ++ post) with (br :: tr ++ post). rewrite lookup_mid. cbn [mbind option_bind].
  rewrite <-app_assoc. cbn [app]. rewrite write_mid. simpl. by rewrite <-app_assoc.
Qed.

Lemma split_balanced {A} (bs : list A) :
  1 < length bs → ∃ l r, bs = l ++ r ∧ length l = (length l + length r - 1) / 2 + 1 ∧ r ≠ [] ∧ l ≠ [].
Proof.
  intros Hn. set (m := (length bs - 1) / 2 + 1).
  destruct (mid_split 0 (length bs) m) as (_ & Hm & Hm0); [done..|].
  exists (take m bs), (drop m bs). rewrite take_drop, length_take, length_drop.
  split_and!; [done| | |]; [rewrite Nat.min_l by lia; by replace (m + (length bs - m)) with (length bs) by lia| |];
    intros E; apply (f_equal length) in E; rewrite ?length_take, ?length_drop in E; simpl in E; lia.
Qed.

Lemma build_tree_ok fuel bs pre mid post bpre bpost :
  bs ≠ [] → length bs < fuel → length mid = 2 * length bs - 1 →
  ∃ b t, tree_of bs b t ∧
    build_tree fuel (pre ++ mid ++ post) (bpre ++ bs ++ bpost) (length pre) (length bpre)
               (length bpre + length bs - 1) = Some (pre ++ t ++ post).
Proof.
  revert bs pre mid post bpre bpost. induction fuel as [|fuel IH]; intros bs pre mid post bpre bpost Hne Hf Hlen; [lia|].
  cbn [build_tree]. destruct (Nat.ltb_spec (length bpre + length bs - 1) (length bpre));
    [destruct bs; simpl in *; [done|lia]|].
  destruct (Nat.eqb_spec (length bpre) (length bpre + length bs - 1)) as [E|E].
  - destruct bs as [|b [|]]; [done| |simpl in E; lia]. destruct mid as [|x [|]]; simpl in Hlen; try lia.
    exists b, [b]. split; [constructor|]. simpl. rewrite lookup_mid. simpl. apply write_mid.
  - destruct (split_balanced bs) as (l & r & -> & Hm & Hr & Hl); [destruct bs; simpl in *; [done|lia]|].
    rewrite length_app in *. destruct (right_child_ok (length pre) (length bpre) l r Hm Hr) as (Emid & Erc & Hl0).
    rewrite Emid, Erc. unfold left_child_index.
    destruct mid as [|x mid]; [simpl in Hlen; lia|]. simpl in Hlen.
    assert (0 < length r) by (destruct r; [done|simpl; lia]).
    rewrite <-(take_drop (2 * length l - 1) mid). set (ml := take _ mid). set (mr := drop _ mid).
    assert (length ml = 2 * length l - 1) as Eml by (unfold ml; rewrite length_take; lia).
    assert (length mr = 2 * length r - 1) as Emr by (unfold mr; rewrite length_drop; lia).
    destruct (left_position pre x ml mr post) as [-> <-].
    replace (bpre ++ (l ++ r) ++ bpost) with (bpre ++ l ++ (r ++ bpost)) by by rewrite <-!app_assoc.
    destruct (IH l (pre ++ [x]) ml (mr ++ post) bpre (r ++ bpost)) as (bl & tl & Htl & ->); [done|lia|done|].
    cbn [mbind option_bind]. pose proof (tree_of_facts _ _ _ Htl) as (Etl & _ & tl' & ->).
    rewrite <-(proj1 (left_position pre x (bl :: tl') mr post)).
    destruct (right_position pre x (bl :: tl') mr post (length l)) as [-> <-]; [done|done|].
    replace (bpre ++ l ++ r ++ bpost) with ((bpre ++ l) ++ r ++ bpost) by by rewrite <-!app_assoc.
    replace (length bpre + length l - 1 + 1) with (length (bpre ++ l)) by (rewrite length_app; lia).
    replace (length bpre + (length l + length r) - 1) with (length (bpre ++ l) + length r - 1)
      by (rewrite length_app; lia).
    destruct (IH r (pre ++ x :: bl :: tl') mr post (bpre ++ l) bpost) as (br & tr & Htr & ->); [done|lia|done|].
    cbn [mbind option_bind]. pose proof (tree_of_facts _ _ _ Htr) as (Etr & _ & tr' & ->).
    exists (merge_buckets bl br), (merge_buckets bl br :: (bl :: tl') ++ br :: tr').
    split; [by constructor|]. apply node_write.
Qed.

(** ** What the operations do to the bucket list *)

(** Count a value in the first bucket whose maximum exceeds it. *)
Fixpoint bump (g : double) (bs : list bucket_t) : list bucket_t :=
  match bs with
  | [] => []
  | [b] => [inc_bucket b]
  | b :: bs' => if flt g (maximum b) then inc_bucket b :: bs' else b :: bump g bs'
  end.

(** The bucket that holds the [c]-th smallest value. *)
Fixpoint nth_bucket (c : Z) (bs : list bucket_t) : option bucket_t :=
  match bs with
  | [] => None
  | [b] => Some b
  | b :: bs' => if (c <=? bucket_counter b)%Z then Some b else nth_bucket (c - bucket_counter b) bs'
  end.

Definition total (bs : list bucket_t) : Z := foldr (λ b n, (bucket_counter b + n)%Z) 0%Z bs.

Definition increasing : list bucket_t → Prop := StronglySorted (λ a b, flt (maximum a) (maximum b) = true).

Lemma tree_of_max bs b t : tree_of bs b t → ∃ bs' x, bs = bs' ++ [x] ∧ maximum b = maximum x.
Proof.
  induction 1 as [b|l r bl br tl tr _ _ _ _ _ (bs' & x & -> & E)]; [by exists [], b|].
  exists (l ++ bs'), x. by rewrite app_assoc.
Qed.

Lemma bump_skip g l r :
  Forall (λ b, flt g (maximum b) = false) l → r ≠ [] → bump g (l ++ r) = l ++ bump g r.
Proof.
  intros Hl Hr. induction Hl as [|b l Hb _ IH]; [done|]. simpl.
  destruct (l ++ r) eqn:E; [by apply app_eq_nil in E as [_ ->]|]. by rewrite Hb, IH.
Qed.

Lemma bump_app g l x r :
  increasing ((l ++ [x]) ++ r) → r ≠ [] →
  bump g ((l ++ [x]) ++ r) = if flt g (maximum x) then bump g (l ++ [x]) ++ r else (l ++ [x]) ++ bump g r.
Proof.
  intros Hs Hr. destruct (flt g (maximum x)) eqn:Hx.
  - clear Hs. induction l as [|b l IH]; [destruct r; [done|]; simpl; by rewrite Hx|].
    simpl. destruct ((l ++ [x]) ++ r) eqn:E1; [by apply app_eq_nil in E1 as [_ ->]|].
    destruct (l ++ [x]) eqn:E2; [by destruct l|]. rewrite <-E1 in IH |- *.
    destruct (flt g (maximum b)); [done|]. simpl in *. by rewrite IH.
  - apply bump_skip; [|done]. apply Forall_app. split; [|by constructor].
    rewrite <-app_assoc in Hs. apply StronglySorted_app in Hs as (Hlt & _ & _).
    apply list.Forall_forall. intros b Hb. apply not_true_is_false. intros Hgb.
    specialize (Hlt b x Hb ltac:(left)). by rewrite (flt_trans _ _ _ Hgb Hlt) in Hx.
Qed.

Lemma bump_cons g b b' bs :
  bump g (b :: b' :: bs) = if flt g (maximum b) then inc_bucket b :: b' :: bs else b :: bump g (b' :: bs).
Proof. done. Qed.

Lemma bump_length g bs : length (bump g bs) = length bs.
Proof.
  induction bs as [|b [|b' bs] IH]; [done|done|]. rewrite bump_cons.
  destruct (flt g (maximum b)); [done|]. by rewrite !length_cons, IH.
Qed.

Lemma bump_maxima g bs : map maximum (bump g bs) = map maximum bs.
Proof.
  induction bs as [|b [|b' bs] IH]; [done|done|]. rewrite bump_cons.
  destruct (flt g (maximum b)); [done|]. rewrite !map_cons, IH. done.
Qed.

Lemma inc_merge_l a b : inc_bucket (merge_buckets a b) = merge_buckets (inc_bucket a) b.
Proof.
  unfold inc_bucket, merge_buckets. simpl. f_equal. unfold u64, wrap.
  rewrite Zplus_mod_idemp_l, Zplus_mod_idemp_l. f_equal. lia.
Qed.

Lemma inc_merge_r a b : inc_bucket (merge_buckets a b) = merge_buckets a (inc_bucket b).
Proof.
  unfold inc_bucket, merge_buckets. simpl. f_equal. unfold u64, wrap.
  rewrite Zplus_mod_idemp_l, Zplus_mod_idemp_r. f_equal. lia.
Qed.

Lemma update_tree_ok g bs b t :
  tree_of bs b t → increasing bs → ∀ fuel pre post left, length bs < fuel →
  ∃ t', tree_of (bump g bs) (inc_bucket b) t' ∧
    update_tree fuel (pre ++ t ++ post) (length pre) left (left + length bs - 1) g = Some (pre ++ t' ++ post).
Proof.
  induction 1 as [b|l r bl br tl tr Hm Hr Hl IHl Htr IHr]; intros Hs fuel pre post left Hf;
    (destruct fuel as [|fuel]; [lia|]); cbn [update_tree].
  { exists [inc_bucket b]. split; [constructor|]. simpl.
    destruct (Nat.ltb_spec (left + 1 - 1) left); [lia|]. rewrite lookup_mid. simpl. rewrite write_mid. simpl.
    destruct (Nat.eqb_spec left (left + 1 - 1)); [done|lia]. }
  pose proof Hs as (_ & Hsl & Hsr)%StronglySorted_app. rewrite length_app in *.
  destruct (right_child_ok (length pre) left l r Hm Hr) as (Emid & Erc & Hl0). rewrite Emid, Erc.
  assert (0 < length r) by (destruct r; [done|simpl; lia]).
  destruct (Nat.ltb_spec (left + (length l + length r) - 1) left); [lia|].
  change (pre ++ (merge_buckets bl br :: tl ++ tr) ++ post)
    with (pre ++ merge_buckets bl br :: ((tl ++ tr) ++ post)).
  rewrite lookup_mid. cbn [mbind option_bind]. rewrite write_mid. cbn [mbind option_bind].
  destruct (Nat.eqb_spec left (left + (length l + length r) - 1)); [lia|].
  set (x := inc_bucket (merge_buckets bl br)). unfold left_child_index.
  change (pre ++ x :: ((tl ++ tr) ++ post)) with (pre ++ (x :: tl ++ tr) ++ post).
  pose proof (tree_of_facts _ _ _ Hl) as (Etl & _ & tl' & Etl').
  destruct (tree_of_max _ _ _ Hl) as (l' & y & El & Ey).
  pose proof (left_position pre x tl tr post) as [Elp Elen].
  replace ((pre ++ (x :: tl ++ tr) ++ post) !! (length pre + 1)) with (Some bl)
    by (rewrite Elp, <-Elen, Etl'; symmetry; apply (lookup_mid (pre ++ [x]))).
  cbn [mbind option_bind]. rewrite Ey. rewrite El, bump_app by (rewrite <-?El; done). rewrite <-El.
  destruct (flt g (maximum y)).
  - rewrite Elp, <-Elen.
    destruct (IHl Hsl fuel (pre ++ [x]) (tr ++ post) left) as (t' & Ht' & Hup); [lia|]. rewrite Hup.
    exists (x :: t' ++ tr). split; [|by rewrite (proj1 (left_position pre x t' tr post))].
    unfold x. rewrite inc_merge_l. constructor; rewrite ?bump_length; done.
  - destruct (right_position pre x tl tr post (length l)) as [Erp Erlen]; [done|done|]. rewrite Erp, <-Erlen.
    replace (left + (length l + length r) - 1) with ((left + length l - 1 + 1) + length r - 1) by lia.
    destruct (IHr Hsr fuel (pre ++ x :: tl) post (left + length l - 1 + 1)) as (t' & Ht' & Hup); [lia|].
    rewrite Hup. exists (x :: tl ++ t').
    split; [|by rewrite (proj1 (right_position pre x tl t' post (length l) Etl Hl0))].
    unfold x. rewrite inc_merge_r. constructor; rewrite ?bump_length; try done.
    by intros E%(f_equal length); rewrite bump_length in E; destruct r.
Qed.

Definition counters_ok (bs : list bucket_t) : Prop := Forall (λ b, (0 ≤ bucket_counter b)%Z) bs.

Lemma total_app l r : total (l ++ r) = (total l + total r)%Z.
Proof. unfold total. induction l as [|b l IH]; simpl; lia. Qed.

Lemma total_nonneg bs : counters_ok bs → (0 ≤ total bs)%Z.
Proof. induction 1; simpl; lia. Qed.

Lemma tree_of_counter bs b t :
  tree_of bs b t → counters_ok bs → (total bs < 2 ^ 64)%Z → bucket_counter b = total bs.
Proof.
  induction 1 as [b|l r bl br tl tr _ _ _ IHl _ IHr]; intros Hc Ht; [simpl; lia|].
  apply Forall_app in Hc as [Hcl Hcr]. rewrite total_app in *.
  pose proof (total_nonneg _ Hcl). pose proof (total_nonneg _ Hcr).
  simpl. rewrite IHl, IHr by (done || lia). apply u64_small. unfold in_u64. lia.
Qed.

Lemma nth_bucket_app c l r :
  counters_ok l → l ≠ [] → r ≠ [] →
  nth_bucket c (l ++ r) = if (c <=? total l)%Z then nth_bucket c l else nth_bucket (c - total l) r.
Proof.
  intros Hc Hl Hr. revert c. induction Hc as [|b l Hb Hc IH]; intros c; [done|].
  destruct l as [|b' l].
  - destruct r as [|b' r]; [done|]. simpl. rewrite Z.add_0_r. by destruct (c <=? bucket_counter b)%Z.
  - change (nth_bucket c ((b :: b' :: l) ++ r)) with
      (if (c <=? bucket_counter b)%Z then Some b else nth_bucket (c - bucket_counter b) ((b' :: l) ++ r)).
    change (nth_bucket c (b :: b' :: l)) with
      (if (c <=? bucket_counter b)%Z then Some b else nth_bucket (c - bucket_counter b) (b' :: l)).
    rewrite IH by done. change (total (b :: b' :: l)) with (bucket_counter b + total (b' :: l))%Z.
    pose proof (total_nonneg _ Hc).
    destruct (Z.leb_spec c (bucket_counter b)), (Z.leb_spec c (bucket_counter b + total (b' :: l))),
      (Z.leb_spec (c - bucket_counter b) (total (b' :: l))); try done; try lia. f_equal. lia.
Qed.

Lemma tree_get_counter_ok bs b t :
  tree_of bs b t → counters_ok bs → (total bs < 2 ^ 64)%Z →
  ∀ fuel pre post left c, length bs < fuel → (0 ≤ c < 2 ^ 64)%Z →
  tree_get_counter fuel (pre ++ t ++ post) (length pre) left (left + length bs - 1) c =
    maximum <$> nth_bucket c bs.
Proof.
  induction 1 as [b|l r bl br tl tr Hm Hr Hl IHl Htr IHr]; intros Hc Ht fuel pre post left c Hf Hcr;
    (destruct fuel as [|fuel]; [lia|]); cbn [tree_get_counter].
  { simpl. destruct (Nat.ltb_spec (left + 1 - 1) left); [lia|].
    destruct (Nat.eqb_spec left (left + 1 - 1)); [|lia]. by rewrite lookup_mid. }
  pose proof Hc as [Hcl Hcr']%Forall_app. rewrite total_app in Ht.
  pose proof (total_nonneg _ Hcl). pose proof (total_nonneg _ Hcr').
  rewrite length_app in *. destruct (right_child_ok (length pre) left l r Hm Hr) as (Emid & Erc & Hl0).
  rewrite Emid, Erc. assert (0 < length r) by (destruct r; [done|simpl; lia]).
  destruct (Nat.ltb_spec (left + (length l + length r) - 1) left); [lia|].
  destruct (Nat.eqb_spec left (left + (length l + length r) - 1)); [lia|].
  set (x := merge_buckets bl br). unfold left_child_index.
  pose proof (tree_of_facts _ _ _ Hl) as (Etl & Hlne & tl' & Etl').
  pose proof (left_position pre x tl tr post) as [Elp Elen].
  replace ((pre ++ (x :: tl ++ tr) ++ post) !! (length pre + 1)) with (Some bl)
    by (rewrite Elp, <-Elen, Etl'; symmetry; apply (lookup_mid (pre ++ [x]))).
  cbn [mbind option_bind]. rewrite (tree_of_counter _ _ _ Hl) by (done || lia).
  rewrite nth_bucket_app by done. destruct (Z.leb_spec c (total l)).
  - rewrite Elp, <-Elen. apply IHl; done || lia.
  - destruct (right_position pre x tl tr post (length l)) as [Erp Erlen]; [done|done|]. rewrite Erp, <-Erlen.
    replace (left + (length l + length r) - 1) with ((left + length l - 1 + 1) + length r - 1) by lia.
    rewrite u64_small by (unfold in_u64; lia). apply IHr; done || lia.
Qed.

Lemma write_leaves_ok bs b t :
  tree_of bs b t → ∀ fuel pre post wpre wmid wpost, length bs < fuel → length wmid = length bs →
  tree_write_leave_buckets fuel (pre ++ t ++ post) (wpre ++ wmid ++ wpost) (length pre) (length wpre)
    (length wpre + length bs - 1) = Some (wpre ++ bs ++ wpost).
Proof.
  induction 1 as [b|l r bl br tl tr Hm Hr Hl IHl Htr IHr]; intros fuel pre post wpre wmid wpost Hf Hw;
    (destruct fuel as [|fuel]; [lia|]); cbn [tree_write_leave_buckets].
  { simpl in *. destruct wmid as [|w [|]]; simpl in Hw; try lia.
    destruct (Nat.ltb_spec (length wpre + 1 - 1) (length wpre)); [lia|].
    destruct (Nat.eqb_spec (length wpre) (length wpre + 1 - 1)); [|lia].
    rewrite lookup_mid. simpl. apply write_mid. }
  rewrite length_app in *. destruct (right_child_ok (length pre) (length wpre) l r Hm Hr) as (Emid & Erc & Hl0).
  rewrite Emid, Erc. assert (0 < length r) by (destruct r; [done|simpl; lia]).
  destruct (Nat.ltb_spec (length wpre + (length l + length r) - 1) (length wpre)); [lia|].
  destruct (Nat.eqb_spec (length wpre) (length wpre + (length l + length r) - 1)); [lia|].
  set (x := merge_buckets bl br). unfold left_child_index.
  pose proof (tree_of_facts _ _ _ Hl) as (Etl & _ & _).
  pose proof (left_position pre x tl tr post) as [Elp Elen].
  rewrite <-(take_drop (length l) wmid), <-!app_assoc. rewrite Elp, <-Elen at 1.
  rewrite IHl by (rewrite ?length_take; lia). cbn [mbind option_bind].
  destruct (right_position pre x tl tr post (length l)) as [Erp Erlen]; [done|done|].
  rewrite Erp, <-Erlen.
  replace (length wpre + length l - 1 + 1) with (length (wpre ++ l)) by (rewrite length_app; lia).
  replace (length wpre + (length l + length r) - 1) with (length (wpre ++ l) + length r - 1)
    by (rewrite length_app; lia).
  rewrite (app_assoc wpre l). rewrite IHr by (rewrite ?length_drop; lia). by rewrite <-!app_assoc.
Qed.

(** ** The invariant of a distribution *)

(** [d] represents the buckets [bs], with its mutex free. *)
Definition rep (d : distribution_t) (bs : list bucket_t) : Prop :=
  (∃ b, tree_of bs b (tree d)) ∧ num_buckets d = length bs ∧ mutex d = false.

(** Unfold the bookkeeping around the tree functions. *)
Ltac dist_step :=
  cbn [mbind option_bind set_mutex num_buckets tree mutex total_sum total_square_sum
       pthread_mutex_unlock].

(** The whole array: no nodes before or after. *)
Lemma whole_array {A} (t : list A) : [] ++ t ++ [] = t.
Proof. simpl. apply app_nil_r. Qed.

Tactic Notation "whole_index" "in" hyp(H) :=
  change (length (A:=bucket_t) []) with 0 in H; rewrite ?Nat.add_0_l in H.

Lemma unlock_lock d : mutex d = false → set_mutex (set_mutex d true) false = d.
Proof. destruct d; simpl. by intros ->. Qed.

Lemma rep_get d bs : rep d bs → get_buckets true d = Some (bs, d).
Proof.
  intros ((b & Ht) & Hn & Hm). unfold get_buckets, pthread_mutex_lock. rewrite Hm, Hn. dist_step. rewrite Hn.
  pose proof (write_leaves_ok _ _ _ Ht (S (length bs)) [] [] [] (replicate (length bs) zero_bucket) []) as Hw.
  rewrite !whole_array in Hw. whole_index in Hw. rewrite Hw by (rewrite ?length_replicate; lia).
  dist_step. by rewrite unlock_lock.
Qed.

Lemma rep_update d bs g :
  rep d bs → increasing bs → flt g fzero = false →
  ∃ d', distribution_update d g = Some (0%Z, d') ∧ rep d' (bump g bs) ∧
        total_sum d' = fadd (total_sum d) g ∧
        total_square_sum d' = fadd (total_square_sum d) (fmul g g).
Proof.
  intros ((b & Ht) & Hn & Hm) Hs Hg. unfold distribution_update, pthread_mutex_lock. rewrite Hg, Hm.
  destruct (update_tree_ok g bs b (tree d) Ht Hs (S (length bs)) [] [] 0) as (t' & Ht' & Hup); [lia|].
  rewrite !whole_array in Hup. dist_step. rewrite Hn.
  whole_index in Hup. rewrite Hup. dist_step. eexists. split; [reflexivity|]. split; [|done].
  split_and!; simpl; eauto. by rewrite bump_length.
Qed.

Lemma rep_percentile d bs p c :
  rep d bs → counters_ok bs → (0 < total bs < 2 ^ 64)%Z →
  flt p fzero = false → flt (of_Z 100) p = false →
  u64_of_ceil (fdiv (fmul (of_Z (total bs)) p) (of_Z 100)) = Some c → (0 ≤ c < 2 ^ 64)%Z →
  distribution_percentile d p = (λ b, (maximum b, d)) <$> nth_bucket c bs.
Proof.
  intros ((b & Ht) & Hn & Hm) Hc Htot Hp1 Hp2 Hcnt Hcr.
  unfold distribution_percentile, pthread_mutex_lock. rewrite Hp1, Hp2, Hm. cbn [orb]. dist_step.
  pose proof (tree_of_facts _ _ _ Ht) as (_ & _ & t' & Et).
  replace (tree d !! 0) with (Some b) by by rewrite Et. dist_step.
  rewrite (tree_of_counter _ _ _ Ht) by (done || lia).
  destruct (Z.eqb_spec (total bs) 0); [lia|]. rewrite Hcnt. dist_step. rewrite Hn.
  pose proof (tree_get_counter_ok _ _ _ Ht Hc (proj2 Htot) (S (length bs)) [] [] 0 c) as Hg.
  rewrite !whole_array in Hg. whole_index in Hg. rewrite Hg by (done || lia).
  destruct (nth_bucket c bs); [|done]. cbn [fmap option_fmap option_map]. dist_step. by rewrite unlock_lock.
Qed.

Lemma build_rep num bs :
  bs ≠ [] → length bs = num →
  ∃ d, build_distribution_from_bucket_array true true num bs = Some (Some d) ∧ rep d bs ∧
       total_sum d = fzero ∧ total_square_sum d = fzero.
Proof.
  intros Hne <-. unfold build_distribution_from_bucket_array. cbn [negb orb].
  destruct (build_tree_ok (S (length bs)) bs [] (replicate (tree_size (length bs)) zero_bucket) [] [] [])
    as (b & t & Ht & Hb); [done|lia|by rewrite length_replicate|].
  rewrite !whole_array in Hb. whole_index in Hb. rewrite Hb. dist_step.
  eexists. split; [reflexivity|]. split; [|done]. split_and!; simpl; eauto.
Qed.

(** ** Constructors *)

(** Strictly increasing positive boundaries, the last one finite. *)
Definition valid_bounds (bounds : list double) : Prop :=
  Sorted (λ a b, flt a b = true) (fzero :: bounds ++ [INFINITY]).

Lemma boundaries_sorted prev bounds :
  is_nan prev = false → Forall (λ x, is_nan x = false) bounds →
  boundaries_ok prev bounds = true ↔ Sorted (λ a b, flt a b = true) (prev :: bounds).
Proof.
  revert prev. induction bounds as [|b bounds IH]; intros prev Hp Hn; simpl.
  { split; [|done]. intros _. repeat constructor. }
  apply Forall_cons_1 in Hn as [Hb Hn]. rewrite andb_true_iff, negb_true_iff, fle_flt, IH by done.
  split.
  - intros [Hlt Hs]. constructor; [done|]. by constructor.
  - intros Hs. apply Sorted_inv in Hs as [Hs Hh]. split; [by inversion Hh|done].
Qed.

Lemma valid_bounds_check bounds :
  Forall (λ x, is_nan x = false) bounds →
  valid_bounds bounds ↔
    boundaries_ok fzero bounds = true ∧
    match bounds !! (length bounds - 1) with Some b => feq b INFINITY | None => false end = false.
Proof.
  intros Hn. unfold valid_bounds. rewrite boundaries_sorted by done.
  destruct bounds as [|b bounds _] using rev_ind.
  { simpl. split; [split; [repeat constructor|done]|]. intros _. repeat constructor. }
  apply Forall_app in Hn as [_ [Hb _]%Forall_cons_1].
  rewrite length_app. simpl length. rewrite Nat.add_sub, lookup_mid, flt_infinity by done.
  rewrite <-app_assoc. change (fzero :: bounds ++ [b] ++ [INFINITY]) with ((fzero :: bounds) ++ [b; INFINITY]).
  change (fzero :: bounds ++ [b]) with ((fzero :: bounds) ++ [b]).
  induction (fzero :: bounds) as [|x l IH]; simpl.
  - split; [intros [_ Hh]%Sorted_inv; inversion Hh; split; [repeat constructor|done]|].
    intros [_ ?]. repeat constructor. done.
  - split.
    + intros [Hs Hh]%Sorted_inv. apply IH in Hs as [Hs ?]. split; [|done].
      constructor; [done|]. destruct l; simpl in *; inversion Hh; by constructor.
    + intros [[Hs Hh]%Sorted_inv ?]. constructor; [by apply IH|].
      destruct l; simpl in *; inversion Hh; by constructor.
Qed.

Lemma custom_increasing bounds : valid_bounds bounds → increasing (custom_buckets bounds).
Proof.
  intros Hv. apply Sorted_StronglySorted in Hv; [|intros x y z; apply flt_trans].
  apply StronglySorted_cons in Hv as [_ Hs]. unfold custom_buckets, increasing.
  replace (map (mk_bucket 0) bounds ++ [mk_bucket 0 INFINITY]) with (map (mk_bucket 0) (bounds ++ [INFINITY]))
    by by rewrite map_app.
  induction Hs as [|b l Hs IH Hf]; simpl; constructor; [done|].
  apply Forall_map. by eapply list.Forall_impl; [exact Hf|].
Qed.

(** ** Where a value is counted, where a rank lies *)

Lemma bump_split g bs :
  bs ≠ [] → ∃ l x r, bs = l ++ x :: r ∧ bump g bs = l ++ inc_bucket x :: r ∧
    Forall (λ b, flt g (maximum b) = false) l ∧ (r ≠ [] → flt g (maximum x) = true).
Proof.
  induction bs as [|b [|b' bs] IH]; intros Hne; [done|by exists [], b, []|].
  rewrite bump_cons. destruct (flt g (maximum b)) eqn:E; [by exists [], b, (b' :: bs)|].
  destruct IH as (l & x & r & Hbs & -> & Hf & Hx); [done|]. exists (b :: l), x, r.
  rewrite Hbs. split_and!; [done|done|by constructor|done].
Qed.

Lemma bump_total g bs : bs ≠ [] → counters_ok bs → (total bs + 1 < 2 ^ 64)%Z →
  counters_ok (bump g bs) ∧ total (bump g bs) = (total bs + 1)%Z.
Proof.
  intros Hne Hc Ht. destruct (bump_split g bs Hne) as (l & x & r & -> & -> & _).
  apply Forall_app in Hc as [Hl [Hx Hr]%Forall_cons_1]. rewrite !total_app in *.
  change (total (x :: r)) with (bucket_counter x + total r)%Z in *.
  pose proof (total_nonneg _ Hl). pose proof (total_nonneg _ Hr).
  assert (bucket_counter (inc_bucket x) = (bucket_counter x + 1)%Z) as E
    by (simpl; apply u64_small; unfold in_u64; lia).
  split.
  - apply Forall_app. split; [done|]. constructor; [rewrite E; lia|done].
  - change (total (inc_bucket x :: r)) with (bucket_counter (inc_bucket x) + total r)%Z. rewrite E. lia.
Qed.

Lemma nth_bucket_split c bs :
  (1 ≤ c ≤ total bs)%Z → ∃ l x r, bs = l ++ x :: r ∧ nth_bucket c bs = Some x ∧
    (total l < c ≤ total l + bucket_counter x)%Z.
Proof.
  revert c. induction bs as [|b [|b' bs] IH]; intros c Hc; [simpl in Hc; lia| |].
  - exists [], b, []. simpl in *. split_and!; [done|done|lia|lia].
  - change (nth_bucket c (b :: b' :: bs)) with
      (if (c <=? bucket_counter b)%Z then Some b else nth_bucket (c - bucket_counter b) (b' :: bs)).
    change (total (b :: b' :: bs)) with (bucket_counter b + total (b' :: bs))%Z in Hc.
    destruct (Z.leb_spec c (bucket_counter b)).
    + exists [], b, (b' :: bs). simpl. split_and!; [done|done|lia|lia].
    + destruct (IH (c - bucket_counter b)%Z) as (l & x & r & -> & -> & ? & ?); [lia|].
      exists (b :: l), x, r. simpl. split_and!; [done|done|lia|lia].
Qed.

(** ** Subtraction *)

Lemma sub_merge a b c d :
  sub_bucket (merge_buckets a b) (merge_buckets c d) = merge_buckets (sub_bucket a c) (sub_bucket b d).
Proof.
  unfold sub_bucket, merge_buckets. simpl. f_equal. unfold u64, wrap.
  rewrite <-Zminus_mod, <-Zplus_mod. f_equal. lia.
Qed.

Lemma tree_of_sub l1 b1 t1 :
  tree_of l1 b1 t1 → ∀ l2 b2 t2, tree_of l2 b2 t2 → length l1 = length l2 →
  tree_of (zip_with sub_bucket l1 l2) (sub_bucket b1 b2) (zip_with sub_bucket t1 t2).
Proof.
  induction 1 as [b|l r bl br tl tr Hm Hr Hl IHl Htr IHr]; intros l2 b2 t2 H2 Hlen.
  - destruct H2 as [b2|l2 r2 bl2 br2 tl2 tr2 Hm2 Hr2 Hl2 Htr2]; [constructor|].
    destruct (right_child_ok 0 0 l2 r2 Hm2 Hr2) as (_ & _ & ?). rewrite length_app in Hlen.
    destruct r2; [done|simpl in Hlen; lia].
  - destruct (right_child_ok 0 0 l r Hm Hr) as (_ & _ & ?).
    destruct H2 as [b2|l2 r2 bl2 br2 tl2 tr2 Hm2 Hr2 Hl2 Htr2].
    { rewrite length_app in Hlen. destruct r; [done|simpl in Hlen; lia]. }
    rewrite !length_app in Hlen. rewrite Hlen in Hm. rewrite <-Hm2 in Hm.
    pose proof (tree_of_facts _ _ _ Hl) as (E1 & _ & _). pose proof (tree_of_facts _ _ _ Hl2) as (E2 & _ & _).
    rewrite zip_with_app by done. simpl. rewrite zip_with_app by congruence. rewrite sub_merge.
    constructor; [rewrite !length_zip_with, <-Hm; rewrite <-Hm in Hm2; replace (length r) with (length r2) by lia;
      by rewrite !Nat.min_id| |auto|apply IHr; [done|lia]].
    destruct r, r2; done.
Qed.

Lemma write_ok {A} (l : list A) i (x y : A) : l !! i = Some x → write l i y = Some (<[i := y]> l).
Proof. intros Hi%lookup_lt_Some. unfold write. by destruct (Nat.ltb_spec i (length l)); [|lia]. Qed.

(** Both mutexes are taken (released), whatever the order of the arguments. *)
Lemma lock_two h i j x y :
  i ≠ j → h !! i = Some x → h !! j = Some y → mutex x = false → mutex y = false →
  distribution_lock h i j = Some (0%Z, <[i := set_mutex x true]> (<[j := set_mutex y true]> h)).
Proof.
  intros Hij Hi Hj Hx Hy. unfold distribution_lock, pthread_mutex_lock.
  destruct (Nat.eqb_spec i j); [done|]. destruct (j <? i).
  - rewrite Hj. dist_step. rewrite Hy. dist_step. rewrite (write_ok _ _ y) by done. dist_step.
    rewrite list_lookup_insert_ne, Hi by done. dist_step. rewrite Hx. dist_step.
    by rewrite (write_ok _ _ x) by by rewrite list_lookup_insert_ne.
  - rewrite Hi. dist_step. rewrite Hx. dist_step. rewrite (write_ok _ _ x) by done. dist_step.
    rewrite list_lookup_insert_ne, Hj by done. dist_step. rewrite Hy. dist_step.
    rewrite (write_ok _ _ y) by by rewrite list_lookup_insert_ne. dist_step. by rewrite list_insert_insert_ne.
Qed.

Lemma unlock_two h i j x y :
  i ≠ j → h !! i = Some x → h !! j = Some y → mutex x = true → mutex y = true →
  distribution_unlock h i j = Some (0%Z, <[i := set_mutex x false]> (<[j := set_mutex y false]> h)).
Proof.
  intros Hij Hi Hj Hx Hy. unfold distribution_unlock, pthread_mutex_unlock.
  destruct (Nat.eqb_spec i j); [done|]. destruct (j <? i); dist_step.
  - rewrite Hi. dist_step. rewrite Hx. dist_step. rewrite (write_ok _ _ x) by done. dist_step.
    rewrite list_lookup_insert_ne, Hj by done. dist_step. rewrite Hy. dist_step.
    rewrite (write_ok _ _ y) by by rewrite list_lookup_insert_ne. dist_step. by rewrite list_insert_insert_ne.
  - rewrite Hj. dist_step. rewrite Hy. dist_step. rewrite (write_ok _ _ y) by done. dist_step.
    rewrite list_lookup_insert_ne, Hi by done. dist_step. rewrite Hx. dist_step.
    by rewrite (write_ok _ _ x) by by rewrite list_lookup_insert_ne.
Qed.

Lemma cmp_mutex x y b c : distribution_cmp (set_mutex x b) (set_mutex y c) = distribution_cmp x y.
Proof. done. Qed.

Definition difference (x y : distribution_t) : distribution_t :=
  mk_dist (zip_with sub_bucket (tree x) (tree y)) (num_buckets x)
          (fsub (total_sum x) (total_sum y)) (fsub (total_square_sum x) (total_square_sum y)) false.

Lemma sub_status h i j x y bs1 bs2 st r :
  i ≠ j → h !! i = Some x → h !! j = Some y → rep x bs1 → rep y bs2 →
  distribution_cmp x y = Some (st, r) →
  distribution_sub h i j = Some (st, if (st =? 0)%Z then <[i := difference x y]> h else h).
Proof.
  intros Hij Hi Hj ((b1 & Ht1) & Hn1 & Hm1) ((b2 & Ht2) & Hn2 & Hm2) Hcmp. unfold distribution_sub.
  rewrite (lock_two h i j x y) by done. dist_step.
  set (h1 := <[i := _]> _).
  assert (h1 !! i = Some (set_mutex x true)) as Hi1.
  { apply list_lookup_insert_eq. rewrite length_insert. by eapply lookup_lt_Some. }
  assert (h1 !! j = Some (set_mutex y true)) as Hj1.
  { unfold h1. rewrite list_lookup_insert_ne by done. apply list_lookup_insert_eq. by eapply lookup_lt_Some. }
  rewrite Hi1, Hj1. dist_step. rewrite cmp_mutex, Hcmp. dist_step.
  assert (∀ z, <[i := z]> (<[j := y]> h1) = <[i := z]> h) as Hrest.
  { intros z. unfold h1. rewrite (list_insert_insert_ne _ i j), list_insert_insert_eq by done.
    rewrite (list_insert_insert_ne _ i j), list_insert_insert_eq by done.
    rewrite (list_insert_insert_ne _ j i) by done. by rewrite (list_insert_id h j y). }
  destruct (Z.eqb_spec st 0) as [->|Hst]; simpl.
  - rewrite (write_ok _ _ (set_mutex x true)) by done. dist_step.
    pose proof (tree_of_facts _ _ _ Ht1) as (E1 & _ & _).
    replace (drop (tree_size (num_buckets x)) (tree x)) with (@nil bucket_t)
      by (symmetry; apply drop_ge; unfold tree_size; rewrite Hn1; lia).
    assert (num_buckets x = num_buckets y) as Exy.
    { unfold distribution_cmp in Hcmp. destruct (Nat.eqb_spec (num_buckets x) (num_buckets y)); [done|].
      discriminate Hcmp. }
    pose proof (tree_of_facts _ _ _ Ht2) as (E2 & _ & _).
    rewrite !take_ge, app_nil_r by (unfold tree_size; lia).
    change (mk_dist (zip_with _ _ _) _ _ _ _) with (set_mutex (difference x y) true).
    rewrite (unlock_two _ i j (set_mutex (difference x y) true) (set_mutex y true));
      [|done|apply list_lookup_insert_eq; by eapply lookup_lt_Some|by rewrite list_lookup_insert_ne|done|done].
    dist_step. rewrite !unlock_lock by done. do 2 f_equal.
    rewrite (list_insert_insert_ne _ j i) by done. by rewrite list_insert_insert_eq, Hrest.
  - destruct (Z.eqb_spec st 0); [done|]. simpl.
    rewrite (unlock_two _ i j (set_mutex x true) (set_mutex y true)) by done. dist_step.
    rewrite !unlock_lock by done. do 2 f_equal. rewrite Hrest. by apply list_insert_id.
Qed.

Lemma increasing_maxima bs bs' : map maximum bs = map maximum bs' → increasing bs → increasing bs'.
Proof.
  unfold increasing. revert bs'. induction bs as [|b bs IH]; intros [|b' bs'] Hm; try done.
  injection Hm as Hb Hm. intros [Hf Hs]%StronglySorted_cons. apply StronglySorted_cons. split; [|auto].
  clear -Hb Hm Hf. revert bs' Hm. induction Hf as [|x bs Hx _ IH]; intros [|x' bs'] Hm; try done.
  injection Hm as Hxx Hm. constructor; [congruence|auto].
Qed.

Lemma clone_copies d :
  mutex d = false → length (tree d) = tree_size (num_buckets d) →
  distribution_clone true true d = Some (d, Some d).
Proof.
  intros Hm Ht. unfold distribution_clone, pthread_mutex_lock. rewrite Hm. cbn [negb orb]. dist_step.
  rewrite unlock_lock, take_ge by (done || lia). destruct d; simpl in *. by rewrite Hm.
Qed.

(** ** Claims *)

(** C27. Counting a value that is not negative in a distribution with
    increasing maxima: exactly one bucket changes, the first whose maximum is
    greater than the value (the last one if there is none), its counter goes
    up by one modulo 2^64; the array is again the tree of the new buckets,
    which [get_buckets] returns, the maxima still increase, the sums grow by
    the value and its square, and the mutex is free.  A negative value is
    refused with [EINVAL]. *)
Theorem distribution_update_refines d bs g :
  rep d bs → increasing bs →
  if flt g fzero then distribution_update d g = Some (EINVAL, d)
  else ∃ d' l x r,
    distribution_update d g = Some (0%Z, d') ∧
    bs = l ++ x :: r ∧ Forall (λ b, flt g (maximum b) = false) l ∧ (r ≠ [] → flt g (maximum x) = true) ∧
    rep d' (l ++ inc_bucket x :: r) ∧ increasing (l ++ inc_bucket x :: r) ∧
    get_buckets true d' = Some (l ++ inc_bucket x :: r, d') ∧
    total_sum d' = fadd (total_sum d) g ∧ total_square_sum d' = fadd (total_square_sum d) (fmul g g).
Proof.
  intros Hrep Hs. destruct (flt g fzero) eqn:Hg; [unfold distribution_update; by rewrite Hg|].
  destruct (rep_update d bs g Hrep Hs Hg) as (d' & Hup & Hrep' & Hsum & Hsq).
  destruct Hrep as ((b & Ht) & _). destruct (tree_of_facts _ _ _ Ht) as (_ & Hne & _).
  destruct (bump_split g bs Hne) as (l & x & r & Hbs & Hb & Hf & Hx).
  exists d', l, x, r. rewrite <-Hb. split_and!; try done; [|by apply rep_get].
  by eapply increasing_maxima; [symmetry; apply bump_maxima|].
Qed.

Definition one_and_two : distribution_t :=
  mk_dist [mk_bucket 0 INFINITY; mk_bucket 0 (of_Z 2); mk_bucket 0 (of_Z 1); mk_bucket 0 (of_Z 2);
           mk_bucket 0 INFINITY] 3 fzero fzero false.

Lemma distribution_update_refines_witness :
  ∃ d' l x r,
    distribution_update one_and_two (of_Z 1) = Some (0%Z, d') ∧
    custom_buckets [of_Z 1; of_Z 2] = l ++ x :: r ∧ Forall (λ b, flt (of_Z 1) (maximum b) = false) l ∧
    (r ≠ [] → flt (of_Z 1) (maximum x) = true) ∧
    rep d' (l ++ inc_bucket x :: r) ∧ increasing (l ++ inc_bucket x :: r) ∧
    get_buckets true d' = Some (l ++ inc_bucket x :: r, d') ∧
    total_sum d' = fadd (total_sum one_and_two) (of_Z 1) ∧
    total_square_sum d' = fadd (total_square_sum one_and_two) (fmul (of_Z 1) (of_Z 1)).
Proof.
  refine (distribution_update_refines one_and_two (custom_buckets [of_Z 1; of_Z 2]) (of_Z 1) _ _).
  - split_and!; [|done|done]. eexists.
    apply (tree_node [mk_bucket 0 (of_Z 1); mk_bucket 0 (of_Z 2)] [mk_bucket 0 INFINITY]
             (mk_bucket 0 (of_Z 2)) (mk_bucket 0 INFINITY)
             [mk_bucket 0 (of_Z 2); mk_bucket 0 (of_Z 1); mk_bucket 0 (of_Z 2)]); [done|done| |constructor].
    apply (tree_node [mk_bucket 0 (of_Z 1)] [mk_bucket 0 (of_Z 2)]
             (mk_bucket 0 (of_Z 1)) (mk_bucket 0 (of_Z 2)) [mk_bucket 0 (of_Z 1)]); [done|done|constructor|constructor].
  - repeat constructor.
Defined.

(** The percentile of a non-empty distribution: with [c] the rank
    [ceil (total * percent / 100)] computed in double arithmetic, between 1
    and the number of values, the result is the maximum of the bucket in
    which the [c]-th smallest value lies: fewer than [c] values are in the
    buckets before it, at least [c] up to and including it.  The distribution
    is unchanged and its mutex free. *)
Theorem distribution_percentile_spec d bs p c :
  rep d bs → counters_ok bs → (total bs < 2 ^ 64)%Z →
  flt p fzero = false → flt (of_Z 100) p = false →
  u64_of_ceil (fdiv (fmul (of_Z (total bs)) p) (of_Z 100)) = Some c → (1 ≤ c ≤ total bs)%Z →
  ∃ l x r, bs = l ++ x :: r ∧ distribution_percentile d p = Some (maximum x, d) ∧
           (total l < c ≤ total (l ++ [x]))%Z.
Proof.
  intros Hrep Hc Ht Hp1 Hp2 Hcnt Hcr. destruct (nth_bucket_split c bs Hcr) as (l & x & r & Hbs & Hx & ? & ?).
  exists l, x, r. split; [done|]. rewrite total_app. split; [|simpl; lia].
  rewrite (rep_percentile d bs p c), Hx by (done || lia). done.
Qed.

Definition five_values : list bucket_t := [mk_bucket 3 (of_Z 1); mk_bucket 2 INFINITY].
Definition five_dist : distribution_t :=
  mk_dist [mk_bucket 5 INFINITY; mk_bucket 3 (of_Z 1); mk_bucket 2 INFINITY] 2 fzero fzero false.

Lemma distribution_percentile_spec_witness :
  ∃ l x r, five_values = l ++ x :: r ∧ distribution_percentile five_dist (of_Z 50) = Some (maximum x, five_dist) ∧
           (total l < 3 ≤ total (l ++ [x]))%Z.
Proof.
  apply (distribution_percentile_spec five_dist five_values (of_Z 50) 3);
    [|repeat constructor; simpl; lia|done|done|done|reflexivity|simpl; lia].
  split_and!; [|done|done]. eexists.
  apply (tree_node [mk_bucket 3 (of_Z 1)] [mk_bucket 2 INFINITY] (mk_bucket 3 (of_Z 1)) (mk_bucket 2 INFINITY)
           [mk_bucket 3 (of_Z 1)]); [done|done|constructor|constructor].
Defined.

(** [distribution_new_custom] with boundaries that are numbers accepts
    exactly the positive, strictly increasing sequences that stay below
    infinity, and then (given memory) creates the tree of the empty buckets
    with these maxima followed by infinity, whose maxima increase; all others
    are refused with [EINVAL]. *)
Theorem distribution_new_custom_spec bounds :
  Forall (λ x, is_nan x = false) bounds →
  (valid_bounds bounds → ∃ d, distribution_new_custom true true bounds = Some (Created d) ∧
     rep d (custom_buckets bounds) ∧ increasing (custom_buckets bounds) ∧
     total_sum d = fzero ∧ total_square_sum d = fzero) ∧
  (¬ valid_bounds bounds → distribution_new_custom true true bounds = Some (Refused EINVAL)).
Proof.
  intros Hn. pose proof (valid_bounds_check bounds Hn) as Hv. unfold distribution_new_custom.
  split.
  - intros Hval. pose proof (custom_increasing bounds Hval) as Hinc.
    apply Hv in Hval as [-> ->]. simpl.
    destruct (build_rep (length bounds + 1) (custom_buckets bounds)) as (d & -> & ? & ? & ?).
    { unfold custom_buckets. by destruct bounds. }
    { unfold custom_buckets. by rewrite length_app, length_map. }
    exists d. done.
  - intros Hnv. destruct (boundaries_ok fzero bounds); [|done].
    destruct (match bounds !! _ with Some b => _ | None => _ end); [done|]. by destruct Hnv; apply Hv.
Qed.

Lemma distribution_new_custom_spec_witness :
  ∃ d, distribution_new_custom true true [of_Z 1; of_Z 2] = Some (Created d) ∧
     rep d (custom_buckets [of_Z 1; of_Z 2]) ∧ increasing (custom_buckets [of_Z 1; of_Z 2]) ∧
     total_sum d = fzero ∧ total_square_sum d = fzero.
Proof.
  apply (distribution_new_custom_spec [of_Z 1; of_Z 2]); repeat constructor.
Defined.

(** Subtracting one distribution from another, distinct one: when the
    two have a different structure or are not comparable, the status of
    [distribution_cmp] is returned and nothing changes; otherwise the
    buckets, as modular 64-bit counters, are subtracted one by one, the tree
    stays consistent and both mutexes are free.  This holds also when the
    first is the smaller one, where the header promises [ERANGE]: the status
    is 0 and the total wraps around. *)
Theorem distribution_sub_spec h i j x y bs1 bs2 st r :
  i ≠ j → h !! i = Some x → h !! j = Some y → rep x bs1 → rep y bs2 →
  distribution_cmp x y = Some (st, r) →
  (st ≠ 0%Z → distribution_sub h i j = Some (st, h)) ∧
  (st = 0%Z → ∃ z, distribution_sub h i j = Some (0%Z, <[i := z]> h) ∧ rep z (zip_with sub_bucket bs1 bs2) ∧
     (r = Some (-1)%Z → counters_ok bs1 → (total bs1 < total bs2 < 2 ^ 64)%Z → counters_ok bs2 →
      distribution_total_counter z = Some (total bs1 - total bs2 + 2 ^ 64)%Z)).
Proof.
  intros Hij Hi Hj Hrx Hry Hcmp.
  rewrite (sub_status h i j x y bs1 bs2 st r) by done. split; intros Hst.
  { by destruct (Z.eqb_spec st 0). }
  rewrite Hst, Z.eqb_refl. exists (difference x y). split; [done|].
  destruct Hrx as ((b1 & Ht1) & Hn1 & Hm1), Hry as ((b2 & Ht2) & Hn2 & Hm2).
  assert (length bs1 = length bs2) as Hlen.
  { rewrite <-Hn1, <-Hn2. unfold distribution_cmp in Hcmp.
    destruct (Nat.eqb_spec (num_buckets x) (num_buckets y)); [done|]. rewrite Hst in Hcmp. discriminate Hcmp. }
  pose proof (tree_of_sub _ _ _ Ht1 _ _ _ Ht2 Hlen) as Hts. split.
  - split_and!; [by eexists| |done]. simpl. rewrite length_zip_with. lia.
  - intros _ Hc1 Htot Hc2. unfold distribution_total_counter. pose proof (tree_of_facts _ _ _ Hts) as (_ & _ & t' & Et).
    simpl. rewrite Et. simpl. rewrite (tree_of_counter _ _ _ Ht1), (tree_of_counter _ _ _ Ht2) by (done || lia).
    pose proof (total_nonneg _ Hc1). f_equal. unfold u64, wrap.
    rewrite <-(Z.mod_add _ 1) by lia. apply Z.mod_small. lia.
Qed.

Definition one_dist (n : Z) : distribution_t := mk_dist [mk_bucket n INFINITY] 1 fzero fzero false.

Lemma distribution_sub_spec_witness :
  ∃ z, distribution_sub [one_dist 1; one_dist 2] 0 1 = Some (0%Z, <[0 := z]> [one_dist 1; one_dist 2]) ∧
     rep z (zip_with sub_bucket [mk_bucket 1 INFINITY] [mk_bucket 2 INFINITY]) ∧
     (Some (-1)%Z = Some (-1)%Z → counters_ok [mk_bucket 1 INFINITY] →
      (total [mk_bucket 1 INFINITY] < total [mk_bucket 2 INFINITY] < 2 ^ 64)%Z → counters_ok [mk_bucket 2 INFINITY] →
      distribution_total_counter z =
        Some (total [mk_bucket 1 INFINITY] - total [mk_bucket 2 INFINITY] + 2 ^ 64)%Z).
Proof.
  apply (distribution_sub_spec [one_dist 1; one_dist 2] 0 1 (one_dist 1) (one_dist 2)
           [mk_bucket 1 INFINITY] [mk_bucket 2 INFINITY] 0 (Some (-1)%Z)); try done.
  - split_and!; [|done|done]. eexists. constructor.
  - split_and!; [|done|done]. eexists. constructor.
Defined.
