(* ===== verification/MetaData.v ===== *)
(** * Meta data (src/utils/metadata/meta_data.c)

    A linked list of entries with case-insensitive keys, and a mutex.  A
    string value may be NULL (an unchecked [strdup] in the clone functions).
    Taking a held mutex or releasing a free one is a crash.  The text of a
    double is the parameter [format_gauge] ([snprintf] with [GAUGE_FORMAT]). *)

From Stdlib Require Import ZArith Lia Ascii String.
From stdpp Require Import base list sets numbers strings pretty.
From S2P Require Import Prelude Double.

Definition MD_MAX_NONSTRING_CHARS : nat := 128.

Inductive meta_value_t : Type :=
  | mv_string (s : option cstr)
  | mv_signed_int (z : Z)
  | mv_unsigned_int (z : Z)
  | mv_double (d : double)
  | mv_boolean (b : bool).

Definition md_type (v : meta_value_t) : Z :=
  match v with
  | mv_string _ => 1
  | mv_signed_int _ => 2
  | mv_unsigned_int _ => 3
  | mv_double _ => 4
  | mv_boolean _ => 5
  end.

Record meta_entry_t : Type := mk_entry { key : cstr; value : meta_value_t }.
Record meta_data_t : Type := mk_md { head : list meta_entry_t; lock : bool }.

Definition md_lock (md : meta_data_t) : M meta_data_t :=
  let* _ := massert (negb (lock md)) in ret (mk_md (head md) true).
Definition md_unlock (md : meta_data_t) : M meta_data_t :=
  let* _ := massert (lock md) in ret (mk_md (head md) false).

Definition keq (a b : cstr) : bool := strcasecmp a b =? 0.

(** ** Private functions *)

Definition md_strdup (orig : option cstr) : M (option cstr) :=
  match orig with
  | None => ret None
  | Some s => let* ok := alloc in ret (if ok then Some s else None)
  end.

(** [md_entry_alloc]: whether both allocations worked. *)
Definition md_entry_alloc (k : cstr) : M (option cstr) :=
  let* ok := alloc in
  if negb ok then ret None else md_strdup (Some k).

Definition md_entry_clone_contents (orig : meta_entry_t) : M (option meta_entry_t) :=
  let* copy := md_entry_alloc (key orig) in
  match copy with
  | None => ret None
  | Some k =>
      match value orig with
      | mv_string s =>
          let* s := mopt s in   (* strdup (NULL) is undefined *)
          let* ok := alloc in
          ret (Some (mk_entry k (mv_string (if ok then Some s else None))))
      | v => ret (Some (mk_entry k v))
      end
  end.

(** The result of [md_entry_clone_contents] is used without a check. *)
Fixpoint md_entry_clone (orig : list meta_entry_t) : M (list meta_entry_t) :=
  match orig with
  | [] => ret []
  | e :: orig' =>
      let* copy := md_entry_clone_contents e in
      let* rest := md_entry_clone orig' in
      let* copy := mopt copy in
      ret (copy :: rest)
  end.

(** The walk with [prev] and [this]: replace the first entry with an equal
    key, or append. *)
Fixpoint md_list_insert (l : list meta_entry_t) (e : meta_entry_t) : list meta_entry_t :=
  match l with
  | [] => [e]
  | this :: l' => if keq (key e) (key this) then e :: l' else this :: md_list_insert l' e
  end.

Definition md_entry_insert (md : meta_data_t) (e : meta_entry_t) : M (Z * meta_data_t) :=
  let* md := md_lock md in
  let md := mk_md (md_list_insert (head md) e) (lock md) in
  let* md := md_unlock md in
  ret (0, md).

Definition md_entry_insert_clone (md : meta_data_t) (orig : meta_entry_t) : M (Z * meta_data_t) :=
  let* e := md_entry_clone_contents orig in
  let* e := mopt e in
  ret (0, mk_md (md_list_insert (head md) e) (lock md)).

Fixpoint md_list_lookup (l : list meta_entry_t) (k : cstr) : option meta_entry_t :=
  match l with
  | [] => None
  | e :: l' => if keq k (key e) then Some e else md_list_lookup l' k
  end.
Definition md_entry_lookup (md : meta_data_t) (k : cstr) : option meta_entry_t := md_list_lookup (head md) k.

(** ** Public functions *)

Definition meta_data_create : M (option meta_data_t) :=
  let* ok := alloc in ret (if ok then Some (mk_md [] false) else None).

(** [orig] (locked and unlocked) and the copy. *)
Definition meta_data_clone (orig : meta_data_t) : M (meta_data_t * option meta_data_t) :=
  let* copy := meta_data_create in
  match copy with
  | None => ret (orig, None)
  | Some copy =>
      let* orig := md_lock orig in
      let* h := md_entry_clone (head orig) in
      let* orig := md_unlock orig in
      ret (orig, Some (mk_md h (lock copy)))
  end.

Fixpoint clone_merge_loop (dest : meta_data_t) (l : list meta_entry_t) : M meta_data_t :=
  match l with
  | [] => ret dest
  | e :: l' => let* '(_, dest) := md_entry_insert_clone dest e in clone_merge_loop dest l'
  end.

Definition meta_data_clone_merge (dest : option meta_data_t) (orig : option meta_data_t)
    : M (Z * option meta_data_t * option meta_data_t) :=
  match orig, dest with
  | None, _ => ret (0, dest, orig)
  | Some o, None => let* '(o, copy) := meta_data_clone o in ret (0, copy, Some o)
  | Some o, Some d =>
      let* o := md_lock o in
      let* d := clone_merge_loop d (head o) in
      let* o := md_unlock o in
      ret (0, Some d, Some o)
  end.

Definition meta_data_exists (md : meta_data_t) (k : cstr) : M (Z * meta_data_t) :=
  let* md := md_lock md in
  let r := match md_list_lookup (head md) k with Some _ => 1 | None => 0 end in
  let* md := md_unlock md in
  ret (r, md).

Definition meta_data_type (md : meta_data_t) (k : cstr) : M (Z * meta_data_t) :=
  let* md := md_lock md in
  let r := match md_list_lookup (head md) k with Some e => md_type (value e) | None => 0 end in
  let* md := md_unlock md in
  ret (r, md).

Fixpoint toc_loop (l : list meta_entry_t) : M (list (option cstr)) :=
  match l with
  | [] => ret []
  | e :: l' => let* k := md_strdup (Some (key e)) in let* rest := toc_loop l' in ret (k :: rest)
  end.
Definition meta_data_toc (md : meta_data_t) : M (Z * list (option cstr) * meta_data_t) :=
  let* md := md_lock md in
  let count := length (head md) in
  if (count =? 0)%nat then let* md := md_unlock md in ret (0, [], md)
  else
    let* ok := alloc in
    let* _ := massert ok in   (* the table is written without a check *)
    let* toc := toc_loop (head md) in
    let* md := md_unlock md in
    ret (Z.of_nat count, toc, md).

Fixpoint md_list_delete (l : list meta_entry_t) (k : cstr) : option (list meta_entry_t) :=
  match l with
  | [] => None
  | this :: l' => if keq k (key this) then Some l' else cons this <$> md_list_delete l' k
  end.
Definition meta_data_delete (md : meta_data_t) (k : cstr) : M (Z * meta_data_t) :=
  let* md := md_lock md in
  match md_list_delete (head md) k with
  | None => let* md := md_unlock md in ret (ENOENT, md)
  | Some l => let* md := md_unlock (mk_md l (lock md)) in ret (0, md)
  end.

(** *** Add functions *)

Definition md_add (md : meta_data_t) (k : cstr) (v : meta_value_t) : M (Z * meta_data_t) :=
  let* e := md_entry_alloc k in
  match e with
  | None => ret (ENOMEM, md)
  | Some k => md_entry_insert md (mk_entry k v)
  end.
Definition meta_data_add_string (md : meta_data_t) (k v : cstr) : M (Z * meta_data_t) :=
  let* e := md_entry_alloc k in
  match e with
  | None => ret (ENOMEM, md)
  | Some k =>
      let* s := md_strdup (Some v) in
      match s with
      | None => ret (ENOMEM, md)
      | Some v => md_entry_insert md (mk_entry k (mv_string (Some v)))
      end
  end.
Definition meta_data_add_signed_int md k v := md_add md k (mv_signed_int v).
Definition meta_data_add_unsigned_int md k v := md_add md k (mv_unsigned_int v).
Definition meta_data_add_double md k v := md_add md k (mv_double v).
Definition meta_data_add_boolean md k v := md_add md k (mv_boolean v).

(** *** Get functions

    The common body: look up, check the type, read the member. *)
Definition md_get {A} (md : meta_data_t) (k : cstr) (proj : meta_value_t → option A)
    : M (Z * option A * meta_data_t) :=
  let* md := md_lock md in
  match md_entry_lookup md k with
  | None => let* md := md_unlock md in ret (ENOENT, None, md)
  | Some e =>
      match proj (value e) with
      | None => let* md := md_unlock md in ret (ENOENT, None, md)
      | Some v => let* md := md_unlock md in ret (0, Some v, md)
      end
  end.

Definition meta_data_get_string (md : meta_data_t) (k : cstr) : M (Z * option cstr * meta_data_t) :=
  let* md := md_lock md in
  match md_entry_lookup md k with
  | None => let* md := md_unlock md in ret (ENOENT, None, md)
  | Some e =>
      match value e with
      | mv_string s =>
          let* temp := md_strdup s in
          let* md := md_unlock md in
          match temp with
          | None => ret (ENOMEM, None, md)
          | Some t => ret (0, Some t, md)
          end
      | _ => let* md := md_unlock md in ret (ENOENT, None, md)
      end
  end.
Definition meta_data_get_signed_int md k :=
  md_get md k (λ v, match v with mv_signed_int z => Some z | _ => None end).
Definition meta_data_get_unsigned_int md k :=
  md_get md k (λ v, match v with mv_unsigned_int z => Some z | _ => None end).
Definition meta_data_get_double md k :=
  md_get md k (λ v, match v with mv_double d => Some d | _ => None end).
Definition meta_data_get_boolean md k :=
  md_get md k (λ v, match v with mv_boolean b => Some b | _ => None end).

(** [snprintf (…, GAUGE_FORMAT, …)] *)
Class FormatGauge : Type := format_gauge : double → cstr.

Definition meta_value_text `{FormatGauge} (v : meta_value_t) : option cstr :=
  match v with
  | mv_string s => s
  | mv_signed_int z | mv_unsigned_int z => Some $(pretty z)
  | mv_double d => Some (take (MD_MAX_NONSTRING_CHARS - 1) (format_gauge d))
  | mv_boolean b => Some (if b then $"true" else $"false")
  end.

Definition meta_data_as_string `{FormatGauge} (md : meta_data_t) (k : cstr)
    : M (Z * option cstr * meta_data_t) :=
  let* md := md_lock md in
  match md_entry_lookup md k with
  | None => let* md := md_unlock md in ret (ENOENT, None, md)
  | Some e =>
      let actual := meta_value_text (value e) in
      let* md := md_unlock md in
      let* temp := md_strdup actual in
      match temp with
      | None => ret (ENOMEM, None, md)
      | Some t => ret (0, Some t, md)
      end
  end.

(** ** The map of an entry list *)

Definition find (l : list meta_entry_t) (k : cstr) : option meta_value_t := value <$> md_list_lookup l k.

(** No two entries have the same key, up to case. *)
Definition uniq_keys (l : list meta_entry_t) : Prop := NoDup (map (λ e, map tolower (key e)) l).

Definition md_ok (md : meta_data_t) : Prop := lock md = false ∧ uniq_keys (head md).

(** Every string value is present. *)
Definition strings_present (l : list meta_entry_t) : Prop := Forall (λ e, value e ≠ mv_string None) l.

Lemma keq_eq a b : keq a b = true ↔ map tolower a = map tolower b.
Proof. unfold keq, strcasecmp. rewrite Z.eqb_eq. apply strcmp_eq. Qed.

Lemma keq_spec a b : reflect (map tolower a = map tolower b) (keq a b).
Proof. apply iff_reflect. symmetry. apply keq_eq. Qed.

Lemma keq_ext a b c : map tolower a = map tolower b → keq a c = keq b c.
Proof. intros E. unfold keq, strcasecmp. by rewrite E. Qed.

Lemma find_insert l e k :
  find (md_list_insert l e) k = if keq k (key e) then Some (value e) else find l k.
Proof.
  unfold find. induction l as [|x l IH]; simpl; [by destruct (keq k (key e))|].
  destruct (keq_spec (key e) (key x)) as [E|E]; simpl.
  - destruct (keq_spec k (key e)), (keq_spec k (key x)); try done; congruence.
  - destruct (keq_spec k (key x)) as [Ex|Ex]; [|done].
    destruct (keq_spec k (key e)); [congruence|done].
Qed.

Lemma insert_keys l e x :
  x ∈ map (λ e, map tolower (key e)) (md_list_insert l e) →
  x = map tolower (key e) ∨ x ∈ map (λ e, map tolower (key e)) l.
Proof.
  induction l as [|y l IH]; simpl; [set_solver|].
  destruct (keq_spec (key e) (key y)); simpl; rewrite !elem_of_cons; naive_solver.
Qed.

Lemma insert_uniq l e : uniq_keys l → uniq_keys (md_list_insert l e).
Proof.
  unfold uniq_keys. induction l as [|y l IH]; simpl.
  - intros _. apply NoDup_singleton.
  - intros [Hy Hl]%NoDup_cons. destruct (keq_spec (key e) (key y)) as [E|E]; simpl; apply NoDup_cons.
    + by rewrite E.
    + split; [|auto]. intros [Hx|Hx]%insert_keys; congruence.
Qed.

Lemma find_delete l l' k k' :
  uniq_keys l → md_list_delete l k = Some l' → find l' k' = if keq k' k then None else find l k'.
Proof.
  unfold uniq_keys, find. revert l'. induction l as [|y l IH]; intros l'; simpl; [done|].
  intros [Hy Hl]%NoDup_cons. destruct (keq_spec k (key y)) as [E|E].
  - intros [= <-]. destruct (keq_spec k' k) as [E'|E'].
    + clear -Hy E E'. induction l as [|x l IH]; simpl in *; [done|].
      apply not_elem_of_cons in Hy as [? ?]. destruct (keq_spec k' (key x)); [congruence|auto].
    + destruct (keq_spec k' (key y)); [congruence|done].
  - destruct (md_list_delete l k) as [l2|] eqn:Hd; [|done]. intros [= <-]. simpl.
    destruct (keq_spec k' (key y)); [|by apply IH]. destruct (keq_spec k' k); [congruence|done].
Qed.

Lemma delete_none l k : md_list_delete l k = None ↔ find l k = None.
Proof.
  unfold find. induction l as [|y l IH]; simpl; [done|]. destruct (keq k (key y)); [done|].
  destruct (md_list_delete l k); simpl; naive_solver.
Qed.
Lemma delete_keys l l' k x :
  md_list_delete l k = Some l' →
  x ∈ map (λ e, map tolower (key e)) l' → x ∈ map (λ e, map tolower (key e)) l.
Proof.
  revert l'. induction l as [|y l IH]; intros l'; simpl; [done|]. destruct (keq k (key y)).
  - intros [= <-]. set_solver.
  - destruct (md_list_delete l k); [|done]. intros [= <-]. simpl. rewrite !elem_of_cons. naive_solver.
Qed.

Lemma delete_uniq l l' k : uniq_keys l → md_list_delete l k = Some l' → uniq_keys l'.
Proof.
  unfold uniq_keys. revert l'. induction l as [|y l IH]; intros l'; simpl; [done|].
  intros [Hy Hl]%NoDup_cons. destruct (keq k (key y)); [by intros [= <-]|].
  destruct (md_list_delete l k) as [l2|] eqn:Hd; [|done]. intros [= <-]. simpl. apply NoDup_cons. split; [|auto].
  contradict Hy. by eapply delete_keys.
Qed.

(** ** The operations on a well-formed store *)

Lemma md_lock_ok md : lock md = false → md_lock md = ret (mk_md (head md) true).
Proof. unfold md_lock. by intros ->. Qed.

Lemma md_unlock_ok l : md_unlock (mk_md l true) = ret (mk_md l false).
Proof. done. Qed.

Lemma md_relock md : lock md = false → mk_md (head md) false = md.
Proof. destruct md; simpl. by intros ->. Qed.

(** Step over the mutex of a free store. *)
Ltac md_step Hl := rewrite (md_lock_ok _ Hl), bind_ret; cbn [head lock].

Lemma entry_insert_ok md e :
  lock md = false → md_entry_insert md e = ret (0, mk_md (md_list_insert (head md) e) false).
Proof. intros Hl. unfold md_entry_insert. md_step Hl. by rewrite md_unlock_ok, bind_ret. Qed.

(** An add function either inserts, or runs out of memory and changes
    nothing. *)
Definition adds (m : M (Z * meta_data_t)) (md : meta_data_t) (e : meta_entry_t) : Prop :=
  m ⇓ (0, mk_md (md_list_insert (head md) e) false) ∧
  wp m (λ r, r = (0, mk_md (md_list_insert (head md) e) false) ∨ r = (ENOMEM, md)).

Lemma md_add_ok md k v : lock md = false → adds (md_add md k v) md (mk_entry k v).
Proof.
  intros Hl. unfold md_add, md_entry_alloc, md_strdup. split.
  - eapply yields_bind; [exact eq_refl|]. cbv beta iota. rewrite entry_insert_ok by done. apply yields_ret.
  - apply wp_bind, wp_bind, wp_alloc; intros []; [|apply wp_ret, wp_ret; auto].
    apply wp_bind, wp_alloc; intros []; apply wp_ret; [rewrite entry_insert_ok by done|]; apply wp_ret; auto.
Qed.

Lemma add_string_ok md k v :
  lock md = false → adds (meta_data_add_string md k v) md (mk_entry k (mv_string (Some v))).
Proof.
  intros Hl. unfold meta_data_add_string, md_entry_alloc, md_strdup. split.
  - do 2 (eapply yields_bind; [exact eq_refl|]; cbv beta iota). rewrite entry_insert_ok by done. apply yields_ret.
  - apply wp_bind, wp_bind, wp_alloc; intros []; [|apply wp_ret, wp_ret; auto].
    apply wp_bind, wp_alloc; intros []; apply wp_ret; [|apply wp_ret; auto].
    apply wp_bind, wp_bind, wp_alloc; intros []; apply wp_ret; [rewrite entry_insert_ok by done|];
      apply wp_ret; auto.
Qed.

Lemma md_get_ok {A} md k (proj : meta_value_t → option A) :
  lock md = false →
  md_get md k proj = ret (match find (head md) k ≫= proj with
                          | Some v => (0, Some v, md)
                          | None => (ENOENT, None, md)
                          end).
Proof.
  intros Hl. unfold md_get, md_entry_lookup, find. md_step Hl.
  destruct (md_list_lookup (head md) k) as [e|]; simpl; [destruct (proj (value e)); simpl|];
    by rewrite ?md_unlock_ok, bind_ret, md_relock.
Qed.

Lemma get_string_ok md k :
  lock md = false →
  meta_data_get_string md k ⇓
    match find (head md) k with
    | Some (mv_string (Some s)) => (0, Some s, md)
    | Some (mv_string None) => (ENOMEM, None, md)
    | _ => (ENOENT, None, md)
    end.
Proof.
  intros Hl. unfold meta_data_get_string, md_entry_lookup, find. md_step Hl.
  destruct (md_list_lookup (head md) k) as [e|]; simpl;
    [destruct (value e) as [[s|]| | | |]|]; cbn [md_strdup];
    repeat (rewrite ?bind_ret, ?md_unlock_ok); by rewrite ?md_relock.
Qed.

Lemma md_delete_ok md k :
  md_ok md →
  ∃ md', meta_data_delete md k = ret (match find (head md) k with Some _ => 0 | None => ENOENT end, md') ∧
    md_ok md' ∧ ∀ k', find (head md') k' = if keq k' k then None else find (head md) k'.
Proof.
  intros [Hl Hu]. unfold meta_data_delete. md_step Hl.
  destruct (md_list_delete (head md) k) as [l|] eqn:Hd.
  - exists (mk_md l false). rewrite md_unlock_ok, bind_ret.
    destruct (find (head md) k) eqn:Hf; [|apply delete_none in Hf; congruence].
    split_and!; [done|split; [done|by eapply delete_uniq]|]. intros k'. by apply find_delete.
  - exists md. pose proof Hd as Hf. apply delete_none in Hf. rewrite Hf, md_unlock_ok, bind_ret, md_relock by done.
    split_and!; [done|by split|]. intros k'. destruct (keq_spec k' k) as [E|]; [|done].
    unfold find in *. rewrite <-Hf. f_equal. clear -E. induction (head md) as [|e l IH]; simpl; [done|].
    by rewrite (keq_ext k' k), IH.
Qed.

(** *** Clone and merge while memory lasts *)

Lemma clone_contents_ok e :
  value e ≠ mv_string None → md_entry_clone_contents e ⇓ Some e.
Proof.
  intros Hv. unfold md_entry_clone_contents. eapply yields_bind; [exact eq_refl|]. cbv beta iota.
  destruct e as [k [[s|]| | | |]]; done.
Qed.

Lemma entry_clone_ok l : strings_present l → md_entry_clone l ⇓ l.
Proof.
  induction 1 as [|e l He _ IH]; [done|]. simpl.
  eapply yields_bind; [by apply clone_contents_ok|]. cbv beta. eapply yields_bind; [exact IH|]. done.
Qed.

Lemma md_clone_ok md :
  lock md = false → strings_present (head md) → meta_data_clone md ⇓ (md, Some md).
Proof.
  intros Hl Hs. unfold meta_data_clone. eapply yields_bind; [exact eq_refl|]. cbv beta iota. md_step Hl.
  eapply yields_bind; [by apply entry_clone_ok|]. cbv beta. rewrite md_unlock_ok, bind_ret.
  cbn [lock]. by rewrite md_relock.
Qed.

Lemma merge_loop_ok l dest :
  strings_present l → uniq_keys (head dest) →
  ∃ dest', clone_merge_loop dest l ⇓ dest' ∧ lock dest' = lock dest ∧ uniq_keys (head dest') ∧
    head dest' = foldl md_list_insert (head dest) l.
Proof.
  intros Hs. revert dest. induction Hs as [|e l He _ IH]; intros dest Hu; simpl; [by exists dest|].
  destruct (IH (mk_md (md_list_insert (head dest) e) (lock dest))) as (d & Hd & ? & ? & ?);
    [by apply insert_uniq|].
  exists d. split_and!; [|done..].
  eapply (yields_bind _ _ (0, mk_md (md_list_insert (head dest) e) (lock dest))); [|exact Hd].
  unfold md_entry_insert_clone. eapply yields_bind; [by apply clone_contents_ok|]. done.
Qed.

Lemma find_merge l base k :
  uniq_keys l →
  find (foldl md_list_insert base l) k = match find l k with Some v => Some v | None => find base k end.
Proof.
  unfold uniq_keys. revert base. induction l as [|e l IH]; intros base; [done|].
  simpl. intros [He Hl]%NoDup_cons. rewrite IH, find_insert by done. unfold find. simpl.
  destruct (keq_spec k (key e)) as [E|E]; [|done]. simpl.
  replace (md_list_lookup l k) with (@None meta_entry_t); [done|].
  clear -He E. induction l as [|x l IH]; simpl in *; [done|].
  apply not_elem_of_cons in He as [? ?]. destruct (keq_spec k (key x)); [congruence|auto].
Qed.

(** ** Claims *)

(** The getter that belongs to a value, with its answer. *)
Definition getter_reads (md : meta_data_t) (k : cstr) (v : option meta_value_t) : Prop :=
  meta_data_get_string md k ⇓
    match v with
    | Some (mv_string (Some s)) => (0, Some s, md)
    | Some (mv_string None) => (ENOMEM, None, md)
    | _ => (ENOENT, None, md)
    end ∧
  meta_data_get_signed_int md k ⇓
    match v with Some (mv_signed_int z) => (0, Some z, md) | _ => (ENOENT, None, md) end ∧
  meta_data_get_unsigned_int md k ⇓
    match v with Some (mv_unsigned_int z) => (0, Some z, md) | _ => (ENOENT, None, md) end ∧
  meta_data_get_double md k ⇓
    match v with Some (mv_double d) => (0, Some d, md) | _ => (ENOENT, None, md) end ∧
  meta_data_get_boolean md k ⇓
    match v with Some (mv_boolean b) => (0, Some b, md) | _ => (ENOENT, None, md) end.

Lemma md_getters_ok md k : lock md = false → getter_reads md k (find (head md) k).
Proof.
  intros Hl. split_and!; [by apply get_string_ok|..];
    unfold meta_data_get_signed_int, meta_data_get_unsigned_int, meta_data_get_double, meta_data_get_boolean;
    rewrite md_get_ok by done; destruct (find (head md) k) as [[]|]; done.
Qed.

(** The add function for a value. *)
Definition meta_data_add (md : meta_data_t) (k : cstr) (v : meta_value_t) : M (Z * meta_data_t) :=
  match v with
  | mv_string (Some s) => meta_data_add_string md k s
  | mv_string None => ret (EINVAL, md)
  | mv_signed_int z => meta_data_add_signed_int md k z
  | mv_unsigned_int z => meta_data_add_unsigned_int md k z
  | mv_double d => meta_data_add_double md k d
  | mv_boolean b => meta_data_add_boolean md k b
  end.

(** Adding a value of any of the five types to a well-formed store
    succeeds or reports [ENOMEM] with the store unchanged; on success the
    store is well formed (free mutex, keys unique up to case), and for every
    key every getter answers what the map updated at that key, up to case,
    holds: the value through the getter of its own type, [ENOENT] through
    the others. *)
Theorem meta_data_add_get md k v :
  md_ok md → v ≠ mv_string None →
  ∃ md', meta_data_add md k v ⇓ (0, md') ∧
    wp (meta_data_add md k v) (λ r, r = (0, md') ∨ r = (ENOMEM, md)) ∧ md_ok md' ∧
    ∀ k', getter_reads md' k' (if keq k' k then Some v else find (head md) k').
Proof.
  intros [Hl Hu] Hv. assert (adds (meta_data_add md k v) md (mk_entry k v)) as [Hy Hw].
  { destruct v as [[s|]| | | |]; try done; [by apply add_string_ok|by apply md_add_ok..]. }
  eexists. split_and!; [exact Hy|exact Hw|split; [done|by apply insert_uniq]|]. intros k'.
  pose proof (find_insert (head md) (mk_entry k v) k') as Hf. cbn [key value] in Hf. rewrite <-Hf.
  by apply md_getters_ok.
Qed.

Lemma meta_data_add_get_witness :
  ∃ md', meta_data_add (mk_md [mk_entry $"a" (mv_signed_int 1)] false) $"A" (mv_string (Some $"x")) ⇓ (0, md') ∧
    wp (meta_data_add (mk_md [mk_entry $"a" (mv_signed_int 1)] false) $"A" (mv_string (Some $"x")))
       (λ r, r = (0, md') ∨ r = (ENOMEM, mk_md [mk_entry $"a" (mv_signed_int 1)] false)) ∧ md_ok md' ∧
    ∀ k', getter_reads md' k' (if keq k' $"A" then Some (mv_string (Some $"x"))
                               else find [mk_entry $"a" (mv_signed_int 1)] k').
Proof.
  apply (meta_data_add_get (mk_md [mk_entry $"a" (mv_signed_int 1)] false)); [|done].
  split; [done|]. apply NoDup_singleton.
Defined.

(** Deleting a key answers 0 if the key is present up to case and
    [ENOENT] otherwise; afterwards it is absent, every other key reads as
    before, and the store is well formed. *)
Theorem meta_data_delete_spec md k :
  md_ok md →
  ∃ md', meta_data_delete md k ⇓ (match find (head md) k with Some _ => 0 | None => ENOENT end, md') ∧
    md_ok md' ∧ ∀ k', getter_reads md' k' (if keq k' k then None else find (head md) k').
Proof.
  intros Hok. destruct (md_delete_ok md k Hok) as (md' & Hd & Hok' & Hf). exists md'. rewrite Hd.
  split_and!; [done|done|]. intros k'. rewrite <-Hf. apply md_getters_ok, Hok'.
Qed.

Lemma meta_data_delete_spec_witness :
  ∃ md', meta_data_delete (mk_md [mk_entry $"a" (mv_signed_int 1)] false) $"A" ⇓ (0, md') ∧
    md_ok md' ∧ ∀ k', getter_reads md' k' (if keq k' $"A" then None else find [mk_entry $"a" (mv_signed_int 1)] k').
Proof.
  apply (meta_data_delete_spec (mk_md [mk_entry $"a" (mv_signed_int 1)] false)).
  split; [done|]. apply NoDup_singleton.
Defined.

(** While memory lasts, [meta_data_clone_merge] into an existing store
    overrides: a key of the source reads as in the source, every other key as
    before; the source is unchanged.  Cloning gives an equal store.  When
    memory runs out while an entry is cloned, the clone functions
    dereference a null pointer. *)
Theorem meta_data_clone_merge_spec dest orig :
  md_ok dest → md_ok orig → strings_present (head orig) →
  (∃ md', meta_data_clone_merge (Some dest) (Some orig) ⇓ (0, Some md', Some orig) ∧ md_ok md' ∧
     ∀ k, getter_reads md' k (match find (head orig) k with Some v => Some v | None => find (head dest) k end)) ∧
  meta_data_clone orig ⇓ (orig, Some orig) ∧
  (head orig ≠ [] → meta_data_clone orig [true; false] = None ∧
                    meta_data_clone_merge (Some dest) (Some orig) [false] = None).
Proof.
  intros [Hld Hud] [Hlo Huo] Hs. split_and!.
  - destruct (merge_loop_ok (head orig) dest Hs Hud) as (d & Hd & Hl & Hu & Hh).
    exists d. split_and!.
    + unfold meta_data_clone_merge. md_step Hlo. eapply yields_bind; [exact Hd|]. cbv beta.
      by rewrite md_unlock_ok, bind_ret, md_relock.
    + split; [congruence|done].
    + intros k. rewrite <-(find_merge (head orig) (head dest)), <-Hh by done. apply md_getters_ok. congruence.
  - by apply md_clone_ok.
  - destruct orig as [[|e l] lo]; [done|]. simpl in Hlo. subst lo. apply Forall_cons_1 in Hs as [_ Hs].
    unfold meta_data_clone, meta_data_clone_merge, bind, md_lock, ret. simpl. split; [|done].
    unfold bind. simpl. pose proof (entry_clone_ok l Hs) as Hc. unfold yields in Hc. by rewrite Hc.
Qed.

Lemma meta_data_clone_merge_spec_witness :
  (∃ md', meta_data_clone_merge (Some (mk_md [mk_entry $"a" (mv_signed_int 1)] false))
            (Some (mk_md [mk_entry $"A" (mv_boolean true)] false)) ⇓
          (0, Some md', Some (mk_md [mk_entry $"A" (mv_boolean true)] false)) ∧ md_ok md' ∧
     ∀ k, getter_reads md' k (match find [mk_entry $"A" (mv_boolean true)] k with
                              | Some v => Some v
                              | None => find [mk_entry $"a" (mv_signed_int 1)] k
                              end)).
Proof.
  refine (proj1 (meta_data_clone_merge_spec (mk_md [mk_entry $"a" (mv_signed_int 1)] false)
                   (mk_md [mk_entry $"A" (mv_boolean true)] false) _ _ _));
    [split; [done|apply NoDup_singleton]|split; [done|apply NoDup_singleton]|].
  repeat constructor. done.
Defined.
