(* ===== verification/Metric.v ===== *)
(** * Metrics and metric families (src/daemon/metric.c)

    A metric points back to its family; the functions that follow that
    pointer take the family as an argument ([None]: NULL).  The member of the
    value union that is in use is part of the value.  [copied] distributions
    and meta data come from their own components. *)

From Stdlib Require Import ZArith Lia Ascii String Sorted.
From stdpp Require Import base list sets numbers strings.
From S2P Require Import Prelude MapSpec Double StrBuf LabelSet.
From S2P Require CommonStr MetaData Distribution.

Inductive metric_type_t : Type :=
  | METRIC_TYPE_COUNTER
  | METRIC_TYPE_GAUGE
  | METRIC_TYPE_UNTYPED
  | METRIC_TYPE_DISTRIBUTION.
#[export] Instance metric_type_eq_dec : EqDecision metric_type_t.
Proof. solve_decision. Defined.

Inductive value_t : Type :=
  | v_counter (c : Z)
  | v_gauge (g : double)
  | v_derive (d : Z)
  | v_distribution (d : option Distribution.distribution_t).

Record typed_value_t : Type := mk_typed { tv_value : value_t; tv_type : metric_type_t }.

Record metric_t : Type := mk_metric {
  label : label_set_t;
  m_value : value_t;
  time : Z;
  interval : Z;
  meta : option MetaData.meta_data_t;
}.

Record metric_family_t : Type := mk_family {
  fam_name : option cstr;
  help : option cstr;
  type : metric_type_t;
  metric : list metric_t;
}.

Definition zero_metric : metric_t := mk_metric [] (v_counter 0) 0 0 None.

(** ** Copies *)

(** [distribution_clone], NULL included: both [calloc]s are made. *)
Definition distribution_clone (d : option Distribution.distribution_t) : M (option Distribution.distribution_t) :=
  match d with
  | None => ret None
  | Some d =>
      let* ok1 := alloc in
      let* ok2 := alloc in
      let* '(_, copy) := mopt (Distribution.distribution_clone ok1 ok2 d) in
      ret copy
  end.

Definition clone_distribution_value (v : value_t) : M value_t :=
  match v with
  | v_distribution d => let* d := distribution_clone d in ret (v_distribution d)
  | _ => crash   (* another member read as a pointer *)
  end.

Definition meta_data_clone (m : option MetaData.meta_data_t) : M (option MetaData.meta_data_t) :=
  match m with
  | None => ret None
  | Some m => let* '(_, copy) := MetaData.meta_data_clone m in ret copy
  end.

Definition typed_value_clone (val : typed_value_t) : M typed_value_t :=
  if bool_decide (tv_type val = METRIC_TYPE_DISTRIBUTION) then
    let* v := clone_distribution_value (tv_value val) in ret (mk_typed v (tv_type val))
  else ret (mk_typed (tv_value val) (tv_type val)).

Definition typed_value_create (val : value_t) (ty : metric_type_t) : M typed_value_t :=
  if bool_decide (ty = METRIC_TYPE_DISTRIBUTION) then
    let* v := clone_distribution_value val in ret (mk_typed v ty)
  else ret (mk_typed val ty).

(** ** Text *)

Section text.
Context `{Sysconf, MetaData.FormatGauge}.

(** Reading a union member that was not written is not modelled. *)
Definition value_marshal_text (buf : strbuf_t) (v : value_t) (ty : metric_type_t) : M (Z * strbuf_t) :=
  match ty with
  | METRIC_TYPE_GAUGE | METRIC_TYPE_UNTYPED =>
      match v with v_gauge g => strbuf_printf buf (MetaData.format_gauge g) | _ => crash end
  | METRIC_TYPE_COUNTER =>
      match v with v_counter c => strbuf_printf buf (CommonStr.decimal c) | _ => crash end
  | METRIC_TYPE_DISTRIBUTION => ret (EINVAL, buf)
  end.

Definition metric_identity (buf : strbuf_t) (fam : option metric_family_t) (m : metric_t) : M (Z * strbuf_t) :=
  match fam with
  | None => ret (EINVAL, buf)
  | Some fam =>
      match fam_name fam with
      | None => ret (EINVAL, buf)   (* strbuf_print (buf, NULL) *)
      | Some nm =>
          if (length (label m) =? 0)%nat then strbuf_print buf nm
          else sor (strbuf_print buf nm) (λ b, label_set_marshal b (label m))
      end
  end.
End text.

(** ** Labels of a metric *)

Definition set_label (m : metric_t) (l : label_set_t) : metric_t :=
  mk_metric l (m_value m) (time m) (interval m) (meta m).

Definition metric_label_set (m : metric_t) (nm : cstr) (val : option cstr) : M (Z * metric_t) :=
  let* '(st, l) := label_set_add (label m) nm val in ret (st, set_label m l).

(** The value pointer, or NULL. *)
Definition metric_label_get (m : metric_t) (nm : cstr) : M (option cstr) :=
  let* i := label_set_read (label m) nm in
  match i with
  | None => ret None
  | Some i => let* p := mopt (label m !! i) in ret (LabelSet.value p)
  end.

(** [metric_reset] releases everything and zeroes the metric. *)
Definition metric_reset (m : metric_t) : M (Z * metric_t) :=
  let* _ := label_set_reset (label m) in ret (0, zero_metric).

(** ** Metric lists *)

Definition metric_list_add (ty : metric_type_t) (metrics : list metric_t) (m : metric_t)
    : M (Z * list metric_t) :=
  let* ok := alloc in
  if negb ok then ret (ENOMEM, metrics)
  else
    let* copy_meta := meta_data_clone (meta m) in
    let* copy_value :=
      if bool_decide (ty = METRIC_TYPE_DISTRIBUTION) then clone_distribution_value (m_value m)
      else ret (m_value m) in
    let* '(status, copy_label) := label_set_clone [] (label m) in
    if (bool_decide (is_Some (meta m)) && bool_decide (copy_meta = None)) || negb (status =? 0)
    then ret (status, metrics)
    else ret (0, metrics ++ [mk_metric copy_label copy_value (time m) (interval m) copy_meta]).

Fixpoint metric_list_reset (metrics : list metric_t) : M (list metric_t) :=
  match metrics with
  | [] => ret []
  | m :: ms => let* _ := metric_reset m in metric_list_reset ms
  end.

Fixpoint list_clone_loop (src_ty : metric_type_t) (src : list metric_t) : M (Z * list metric_t) :=
  match src with
  | [] => ret (0, [])
  | m :: src' =>
      let* v := if bool_decide (src_ty = METRIC_TYPE_DISTRIBUTION) then clone_distribution_value (m_value m)
                else ret (m_value m) in
      let* '(status, l) := label_set_clone [] (label m) in
      if negb (status =? 0) then ret (status, [])
      else
        let* '(status, rest) := list_clone_loop src_ty src' in
        ret (status, mk_metric l v (time m) (interval m) None :: rest)
  end.

Definition metric_list_clone (dest src : list metric_t) (src_ty : metric_type_t) : M (Z * list metric_t) :=
  if (length src =? 0)%nat then ret (0, dest)
  else
    let* ok := alloc in
    if negb ok then ret (ENOMEM, dest)
    else
      let* '(status, r) := list_clone_loop src_ty src in
      if negb (status =? 0) then ret (status, dest) else ret (0, r).

(** ** Families *)

Definition set_metrics (fam : metric_family_t) (l : list metric_t) : metric_family_t :=
  mk_family (fam_name fam) (help fam) (type fam) l.

Definition metric_family_metric_append (fam : metric_family_t) (m : metric_t) : M (Z * metric_family_t) :=
  let* '(st, l) := metric_list_add (type fam) (metric fam) m in ret (st, set_metrics fam l).

Definition metric_family_append (fam : metric_family_t) (lname lvalue : option cstr) (v : value_t)
    (templ : option metric_t) : M (Z * metric_family_t) :=
  if negb (Bool.eqb (bool_decide (lname = None)) (bool_decide (lvalue = None))) then ret (EINVAL, fam)
  else
    let m := mk_metric [] v 0 0 None in
    let* '(status, m) :=
      match templ with
      | None => ret (0, m)
      | Some t =>
          let* '(status, l) := label_set_clone [] (label t) in
          if negb (status =? 0) then ret (status, m)
          else
            let* md := meta_data_clone (meta t) in
            ret (0, mk_metric l v (time t) (interval t) md)
      end in
    if negb (status =? 0) then ret (status, fam)
    else
      let* '(status, m) :=
        match lname with
        | None => ret (0, m)
        | Some n => metric_label_set m n lvalue
        end in
      if negb (status =? 0) then ret (status, fam)
      else
        let* '(status, fam) := metric_family_metric_append fam m in
        let* _ := metric_reset m in
        ret (status, fam).

Definition metric_family_metric_reset (fam : metric_family_t) : M (Z * metric_family_t) :=
  let* l := metric_list_reset (metric fam) in ret (0, set_metrics fam l).

Definition metric_family_free (fam : metric_family_t) : M unit :=
  let* _ := metric_list_reset (metric fam) in ret tt.

(** [errno] or the copy.  A failed [strdup] of the name is not checked. *)
Definition metric_family_clone (fam : metric_family_t) : M (Z + metric_family_t) :=
  let* ok := alloc in
  if negb ok then ret (inl ENOMEM)
  else
    let* nm := mopt (fam_name fam) in
    let* ok_name := alloc in
    let* new_help :=
      match help fam with
      | None => ret None
      | Some h => let* ok := alloc in ret (if ok then Some h else None)
      end in
    let* '(status, l) := metric_list_clone [] (metric fam) (type fam) in
    if negb (status =? 0) then ret (inl status)
    else ret (inr (mk_family (if ok_name then Some nm else None) new_help (type fam) l)).

(** ** Parsing *)

Section parse.
Context `{Sysconf}.

Definition set_first_label (fam : metric_family_t) (l : label_set_t) : metric_family_t :=
  match metric fam with
  | [] => fam
  | m :: ms => set_metrics fam (set_label m l :: ms)
  end.

Definition metric_family_unmarshal_identity (fam : metric_family_t) (inout : cstr)
    : M (Z * metric_family_t * cstr) :=
  let name_len := strspn inout VALID_NAME_CHARS in
  if (name_len =? 0)%nat then ret (EINVAL, fam, inout)
  else
    let nm := take name_len inout in
    let p := drop name_len inout in
    let* ok := alloc in
    if negb ok then ret (ENOMEM, mk_family None (help fam) (type fam) (metric fam), inout)
    else
      let fam := mk_family (Some nm) (help fam) (type fam) (metric fam) in
      if bool_decide (p = []) || bool_decide (hd_error p = Some " "%char) then ret (0, fam, p)
      else
        let* m := mopt (hd_error (metric fam)) in
        let* '(st, l, p) := label_set_unmarshal (label m) p in
        let fam := set_first_label fam l in
        if negb (st =? 0) then ret (st, fam, inout)
        else
          match p with
          | c :: p' =>
              if bool_decide (c = "}"%char) && (bool_decide (p' = []) || bool_decide (hd_error p' = Some " "%char))
              then ret (0, fam, p')
              else ret (EINVAL, fam, inout)
          | [] => ret (EINVAL, fam, inout)
          end.

(** [errno], or the family whose only metric is the result. *)
Definition metric_parse_identity (buf : cstr) : M (Z + metric_family_t) :=
  let* ok := alloc in
  if negb ok then ret (inl ENOMEM)
  else
    let fam := mk_family None None METRIC_TYPE_UNTYPED [] in
    let* '(status, l) := metric_list_add (type fam) (metric fam) zero_metric in
    let fam := set_metrics fam l in
    if negb (status =? 0) then let* _ := metric_family_free fam in ret (inl status)
    else
      let* '(status, fam, buf) := metric_family_unmarshal_identity fam buf in
      if negb (status =? 0) then let* _ := metric_family_free fam in ret (inl status)
      else if negb (bool_decide (buf = [])) then let* _ := metric_family_free fam in ret (inl EINVAL)
      else ret (inr fam).
End parse.

(** ** Identities *)

Definition valid_name (nm : cstr) : Prop :=
  nm ≠ [] ∧ Forall (λ c, chr_mem VALID_NAME_CHARS c = true) nm.

Definition identity_text (nm : cstr) (kv : list (cstr * cstr)) : cstr :=
  nm ++ match kv with [] => [] | _ => labels_text kv end.

Section identity.
Context `{Sysconf}.

Lemma identity_appends fam m nm kv :
  fam_name fam = Some nm → label m = embed kv →
  appends (λ b, metric_identity b (Some fam) m) (identity_text nm kv).
Proof.
  intros Hn Hl b Hb. unfold metric_identity, identity_text. rewrite Hn, Hl, length_embed.
  destruct kv as [|p kv]; simpl Nat.eqb; cbv iota; [rewrite app_nil_r; by apply print_appends|].
  by apply (sor_appends (λ b, strbuf_print b nm)); [apply print_appends|apply marshal_appends|].
Qed.

Lemma name_span nm c rest :
  valid_name nm → chr_mem VALID_NAME_CHARS c = false → strspn (nm ++ c :: rest) VALID_NAME_CHARS = length nm.
Proof. intros [_ Hv] Hc. by apply span_len_app_stop. Qed.

Lemma name_span_all nm : valid_name nm → strspn nm VALID_NAME_CHARS = length nm.
Proof. intros [_ Hv]. by apply span_len_all. Qed.

Lemma labels_text_head kv : ∃ s, labels_text kv = "{"%char :: s.
Proof. by eexists. Qed.

(** The name of an identity can be read back. *)
Lemma identity_name nm kv :
  valid_name nm → strspn (identity_text nm kv) VALID_NAME_CHARS = length nm.
Proof.
  intros Hv. unfold identity_text. destruct kv as [|p kv]; [rewrite app_nil_r; by apply name_span_all|].
  destruct (labels_text_head (p :: kv)) as [s ->]. by apply name_span.
Qed.

Lemma list_add_zero ty : metric_list_add ty [] zero_metric ⇓ (0, [zero_metric]) ∨ ty = METRIC_TYPE_DISTRIBUTION.
Proof. destruct ty; [left; done..|by right]. Qed.

(** What [metric_parse_identity] does after its family is set up. *)
Lemma parse_identity_run s fam status fam' rest :
  fam = mk_family None None METRIC_TYPE_UNTYPED [zero_metric] →
  metric_family_unmarshal_identity fam s ⇓ (status, fam', rest) →
  (∀ r, metric_family_free fam' ⇓ r) →
  metric_parse_identity s ⇓
    if negb (status =? 0) then inl status
    else if negb (bool_decide (rest = [])) then inl EINVAL else inr fam'.
Proof.
  intros -> Hu Hf. unfold metric_parse_identity. eapply yields_bind; [apply yields_alloc|]. cbn [negb].
  eapply yields_bind; [exact eq_refl|]. cbv beta iota. eapply yields_bind; [exact Hu|]. cbv beta iota.
  destruct (status =? 0); simpl; [destruct (bool_decide (rest = [])); simpl; [done|]|];
    by eapply yields_bind; [apply (Hf tt)|].
Qed.

Lemma free_embed nm ty m kv :
  label m = embed kv → ∀ r, metric_family_free (mk_family nm None ty [m]) ⇓ r.
Proof.
  intros Hl []. unfold metric_family_free. cbn [metric metric_list_reset].
  eapply yields_bind; [|done]. eapply yields_bind; [|done]. unfold metric_reset.
  eapply yields_bind; [|done]. unfold label_set_reset. rewrite Hl.
  replace (forallb _ (embed kv)) with true; [done|]. symmetry. clear. induction kv; [done|]. by simpl.
Qed.

Lemma unmarshal_identity_plain nm :
  valid_name nm →
  metric_family_unmarshal_identity (mk_family None None METRIC_TYPE_UNTYPED [zero_metric]) nm ⇓
    (0, mk_family (Some nm) None METRIC_TYPE_UNTYPED [zero_metric], []).
Proof.
  intros Hv. unfold metric_family_unmarshal_identity. rewrite name_span_all by done.
  destruct (Nat.eqb_spec (length nm) 0) as [E|_]; [by apply nil_length_inv in E; destruct Hv|].
  eapply yields_bind; [apply yields_alloc|]. cbn [negb]. by rewrite take_ge, drop_ge by lia.
Qed.

Lemma unmarshal_identity_labels nm kv :
  valid_name nm → lwf kv → kv ≠ [] →
  ∃ m, label m = embed kv ∧
    metric_family_unmarshal_identity (mk_family None None METRIC_TYPE_UNTYPED [zero_metric])
      (identity_text nm kv) ⇓
    (EINVAL, mk_family (Some nm) None METRIC_TYPE_UNTYPED [m], identity_text nm kv).
Proof.
  intros Hv Hl Hne. exists (set_label zero_metric (embed kv)). split; [done|].
  unfold metric_family_unmarshal_identity. rewrite identity_name by done.
  destruct (Nat.eqb_spec (length nm) 0) as [E|_]; [by apply nil_length_inv in E; destruct Hv|].
  eapply yields_bind; [apply yields_alloc|]. cbn [negb].
  destruct kv as [|p kv]; [done|]. set (w := labels_text (p :: kv)).
  assert (take (length nm) (identity_text nm (p :: kv)) = nm) as -> by apply take_app_length.
  assert (drop (length nm) (identity_text nm (p :: kv)) = w) as -> by apply drop_app_length.
  assert (label_set_unmarshal [] w ⇓ (0, embed (p :: kv), [])) as Hu.
  { pose proof (unmarshal_labels_text (p :: kv) [] Hl Hne) as Hu. by rewrite app_nil_r in Hu. }
  destruct (labels_text_head (p :: kv)) as [s Es]. rewrite (bool_decide_false (w = [])) by (unfold w; by rewrite Es).
  rewrite bool_decide_false by (unfold w; by rewrite Es). cbn [orb].
  eapply yields_bind; [exact eq_refl|]. cbv beta. eapply yields_bind; [exact Hu|]. done.
Qed.
End identity.

Lemma embed_inj kv1 kv2 : embed kv1 = embed kv2 → kv1 = kv2.
Proof.
  revert kv2. induction kv1 as [|[k v] kv1 IH]; intros [|[k' v'] kv2]; simpl; try done.
  intros [= -> -> E]. f_equal. auto.
Qed.

Lemma labels_text_inj `{Sysconf} kv1 kv2 :
  lwf kv1 → lwf kv2 → kv1 ≠ [] → kv2 ≠ [] → labels_text kv1 = labels_text kv2 → kv1 = kv2.
Proof.
  intros Hl1 Hl2 Hne1 Hne2 E. apply embed_inj.
  pose proof (unmarshal_labels_text kv1 [] Hl1 Hne1) as H1.
  pose proof (unmarshal_labels_text kv2 [] Hl2 Hne2) as H2. rewrite E in H1.
  pose proof (yields_det _ _ _ H1 H2). congruence.
Qed.

Lemma identity_text_inj `{Sysconf} nm1 kv1 nm2 kv2 :
  valid_name nm1 → valid_name nm2 → lwf kv1 → lwf kv2 →
  identity_text nm1 kv1 = identity_text nm2 kv2 → nm1 = nm2 ∧ kv1 = kv2.
Proof.
  intros Hv1 Hv2 Hl1 Hl2 E. pose proof (identity_name nm1 kv1 Hv1) as Hs1.
  rewrite E, identity_name in Hs1 by done. unfold identity_text in E.
  apply app_inj_1 in E as [-> E]; [|done]. split; [done|].
  destruct kv1 as [|p1 kv1], kv2 as [|p2 kv2]; try done.
  by apply labels_text_inj.
Qed.

Lemma parse_identity_text `{Sysconf} nm kv :
  valid_name nm → lwf kv →
  metric_parse_identity (identity_text nm kv) ⇓
    if decide (kv = []) then inr (mk_family (Some nm) None METRIC_TYPE_UNTYPED [zero_metric])
    else inl EINVAL.
Proof.
  intros Hv Hw. case_decide as Hkv.
  - subst kv. unfold identity_text. rewrite app_nil_r.
    eapply (parse_identity_run nm _ 0 _ []); [done|by apply unmarshal_identity_plain|].
    by apply (free_embed _ _ _ []).
  - destruct (unmarshal_identity_labels nm kv) as (m' & Hm' & Hu); [done..|].
    eapply (parse_identity_run _ _ EINVAL); [done|exact Hu|]. by apply (free_embed _ _ _ kv).
Qed.

(** ** Copying metrics while memory lasts *)

Definition plain_value (ty : metric_type_t) (v : value_t) : Prop :=
  ty = METRIC_TYPE_DISTRIBUTION → ∃ d, v = v_distribution (Some d) ∧
    Distribution.mutex d = false ∧
    length (Distribution.tree d) = Distribution.tree_size (Distribution.num_buckets d).

Lemma clone_value_ok ty v :
  plain_value ty v →
  (if bool_decide (ty = METRIC_TYPE_DISTRIBUTION) then clone_distribution_value v else ret v) ⇓ v.
Proof.
  intros Hp. case_bool_decide as E; [|done]. destruct (Hp E) as (d & -> & Hm & Ht).
  unfold clone_distribution_value, distribution_clone. eapply yields_bind; [|apply yields_ret].
  do 2 (eapply yields_bind; [apply yields_alloc|]; cbv beta).
  by rewrite Distribution.clone_copies.
Qed.

Definition plain_meta (md : option MetaData.meta_data_t) : Prop :=
  match md with
  | None => True
  | Some md => MetaData.lock md = false ∧ MetaData.strings_present (MetaData.head md)
  end.

Lemma clone_meta_ok md : plain_meta md → meta_data_clone md ⇓ md.
Proof.
  destruct md as [md|]; [|done]. intros [Hl Hs]. unfold meta_data_clone.
  by eapply yields_bind; [by apply MetaData.md_clone_ok|].
Qed.

Lemma clone_labels_ok kv : label_set_clone [] (embed kv) ⇓ (0, embed kv).
Proof. destruct kv as [|p kv]; [done|]. by apply label_clone_ok. Qed.

(** A metric whose parts can be copied. *)
Definition plain_metric (ty : metric_type_t) (m : metric_t) : Prop :=
  (∃ kv, label m = embed kv) ∧ plain_value ty (m_value m) ∧ plain_meta (meta m).

Lemma list_add_ok ty ms m : plain_metric ty m → metric_list_add ty ms m ⇓ (0, ms ++ [m]).
Proof.
  intros ((kv & Hl) & Hv & Hm). unfold metric_list_add. eapply yields_bind; [apply yields_alloc|]. cbn [negb].
  eapply yields_bind; [by apply clone_meta_ok|]. cbv beta.
  eapply yields_bind; [by apply clone_value_ok|]. cbv beta. rewrite Hl.
  eapply yields_bind; [by apply clone_labels_ok|]. cbv beta iota.
  replace (bool_decide (is_Some (meta m)) && bool_decide (meta m = None)) with false; last first.
  { destruct (meta m); [by rewrite andb_comm|done]. }
  simpl. rewrite <-Hl. by destruct m.
Qed.

Lemma list_clone_ok ty ms :
  Forall (plain_metric ty) ms →
  list_clone_loop ty ms ⇓ (0, map (λ m, mk_metric (label m) (m_value m) (time m) (interval m) None) ms).
Proof.
  induction 1 as [|m ms ((kv & Hl) & Hv & _) _ IH]; [done|]. simpl.
  eapply yields_bind; [by apply clone_value_ok|]. cbv beta. rewrite Hl.
  eapply yields_bind; [by apply clone_labels_ok|]. cbv beta iota. cbn [negb Z.eqb].
  by eapply yields_bind; [exact IH|].
Qed.

Lemma metric_reset_ok m kv : label m = embed kv → metric_reset m ⇓ (0, zero_metric).
Proof.
  intros Hl. unfold metric_reset, label_set_reset. rewrite Hl.
  replace (forallb _ (embed kv)) with true; [done|]. symmetry. clear. induction kv; [done|]. by simpl.
Qed.

(** The copy that [metric_family_clone] makes while memory lasts. *)
Definition family_copy (fam : metric_family_t) : metric_family_t :=
  set_metrics fam (map (λ m, mk_metric (label m) (m_value m) (time m) (interval m) None) (metric fam)).

Lemma family_clone_ok fam nm :
  fam_name fam = Some nm → Forall (plain_metric (type fam)) (metric fam) →
  metric_family_clone fam ⇓ inr (family_copy fam).
Proof.
  intros Hn Hf. unfold metric_family_clone. eapply yields_bind; [apply yields_alloc|]. cbn [negb].
  rewrite Hn. cbn [mopt]. rewrite bind_ret. eapply yields_bind; [apply yields_alloc|]. cbv beta.
  assert (∀ h : option cstr, (match h with None => ret None
            | Some h => let* ok := alloc in ret (if ok then Some h else None) end : M (option cstr)) ⇓ h) as Hh
    by by intros [].
  eapply yields_bind; [apply Hh|]. cbv beta.
  eapply (yields_bind _ _ (0, map _ (metric fam))); [|cbv beta iota; unfold family_copy, set_metrics; by rewrite Hn].
  unfold metric_list_clone. pose proof (list_clone_ok _ _ Hf) as Hc. destruct (metric fam) as [|m ms]; [done|].
  cbn [length Nat.eqb]. eapply yields_bind; [apply yields_alloc|]. cbn [negb].
  by eapply yields_bind; [exact Hc|].
Qed.

(** ** Claims *)

(** C4. The identity of a metric with a valid name and a valid label set is
    printed in full into a fresh buffer, and two metrics print the same
    identity exactly when their names and labels are the same: identities
    are sound keys of the value cache. *)
Theorem metric_identity_injective `{Sysconf} fam1 m1 nm1 kv1 fam2 m2 nm2 kv2 :
  fam_name fam1 = Some nm1 → label m1 = embed kv1 → valid_name nm1 → lwf kv1 →
  fam_name fam2 = Some nm2 → label m2 = embed kv2 → valid_name nm2 → lwf kv2 →
  ∃ b1 b2, metric_identity STRBUF_CREATE (Some fam1) m1 ⇓ (0, b1) ∧
           metric_identity STRBUF_CREATE (Some fam2) m2 ⇓ (0, b2) ∧
           (text b1 = text b2 ↔ nm1 = nm2 ∧ kv1 = kv2).
Proof.
  intros Hn1 Hl1 Hv1 Hw1 Hn2 Hl2 Hv2 Hw2. pose proof dynamic_create as [Hdyn Htxt].
  destruct (identity_appends fam1 m1 nm1 kv1 Hn1 Hl1 _ Hdyn) as (b1 & ? & _ & Ht1).
  destruct (identity_appends fam2 m2 nm2 kv2 Hn2 Hl2 _ Hdyn) as (b2 & ? & _ & Ht2).
  exists b1, b2. split_and!; [done..|]. rewrite Ht1, Ht2, Htxt. simpl. split.
  - intros E. by apply identity_text_inj.
  - by intros [-> ->].
Qed.

Definition test_family (nm : cstr) : metric_family_t := mk_family (Some nm) None METRIC_TYPE_GAUGE [].
Definition test_metric (kv : list (cstr * cstr)) : metric_t := mk_metric (embed kv) (v_gauge fzero) 0 0 None.

Lemma test_labels_lwf : lwf [($"a", $"1")].
Proof. split; [repeat constructor|]. repeat constructor; by apply (bool_decide_unpack _). Qed.
Lemma test_name_valid : valid_name $"m".
Proof. split; [done|]. repeat constructor. Qed.

Lemma metric_identity_injective_witness :
  ∃ b1 b2, metric_identity (H:=4096) STRBUF_CREATE (Some (test_family $"m")) (test_metric [($"a", $"1")]) ⇓ (0, b1) ∧
           metric_identity (H:=4096) STRBUF_CREATE (Some (test_family $"m")) (test_metric []) ⇓ (0, b2) ∧
           (text b1 = text b2 ↔ $"m" = $"m" ∧ [($"a", $"1")] = []).
Proof.
  apply (metric_identity_injective (H:=4096)); try done;
    try apply test_name_valid; try apply test_labels_lwf. split; constructor.
Defined.

(** C39. [metric_parse_identity] reads back the identity of a metric without
    labels; but the identity of any metric that has labels, as printed by
    [metric_identity], is refused with [EINVAL], because the closing brace
    is expected once by [label_set_unmarshal] and a second time by
    [metric_family_unmarshal_identity]. *)
Theorem metric_parse_identity_spec `{Sysconf} fam m nm kv :
  fam_name fam = Some nm → label m = embed kv → valid_name nm → lwf kv →
  ∃ b, metric_identity STRBUF_CREATE (Some fam) m ⇓ (0, b) ∧
    metric_parse_identity (text b) ⇓
      if decide (kv = []) then inr (mk_family (Some nm) None METRIC_TYPE_UNTYPED [zero_metric])
      else inl EINVAL.
Proof.
  intros Hn Hl Hv Hw. pose proof dynamic_create as [Hdyn Htxt].
  destruct (identity_appends fam m nm kv Hn Hl _ Hdyn) as (b & Hb & _ & Ht).
  exists b. split; [done|]. rewrite Ht, Htxt. by apply parse_identity_text.
Qed.

Lemma metric_parse_identity_spec_witness :
  ∃ b, metric_identity (H:=4096) STRBUF_CREATE (Some (test_family $"m")) (test_metric [($"a", $"1")]) ⇓ (0, b) ∧
    metric_parse_identity (H:=4096) (text b) ⇓ inl EINVAL.
Proof.
  apply (metric_parse_identity_spec (H:=4096) (test_family $"m") (test_metric [($"a", $"1")]) $"m" [($"a", $"1")]);
    [done|done|apply test_name_valid|apply test_labels_lwf].
Defined.

(** [metric_family_append] with a template and one label, while memory
    lasts: if the label can be added to the template's labels, the family
    gets one more metric, at the end, with the given value, these labels and
    the template's time, interval and meta data; otherwise the status of
    [label_set_add] is returned and the family is unchanged. *)
Theorem metric_family_append_spec fam t n v val kv :
  label t = embed kv → lwf kv → v ≠ [] → plain_meta (meta t) → plain_value (type fam) val →
  let '(st, kv') := add_spec kv n v in
  metric_family_append fam (Some n) (Some v) val (Some t) ⇓
    (st, if st =? 0 then set_metrics fam (metric fam ++ [mk_metric (embed kv') val (time t) (interval t) (meta t)])
         else fam).
Proof.
  intros Hl Hw Hv Hm Hval. pose proof (add_ok kv n v Hw Hv) as [Ha _].
  destruct (add_spec kv n v) as [st kv'] eqn:Hadd. simpl in Ha.
  unfold metric_family_append. cbn [negb Bool.eqb]. rewrite !bool_decide_false by done. simpl.
  eapply yields_bind.
  { rewrite Hl. eapply yields_bind; [apply clone_labels_ok|]. cbn [negb Z.eqb].
    eapply yields_bind; [by apply clone_meta_ok|]. apply yields_ret. }
  cbv beta iota. cbn [negb Z.eqb]. eapply yields_bind.
  { unfold metric_label_set. cbn [label]. eapply yields_bind; [exact Ha|]. apply yields_ret. }
  cbv beta iota. destruct (Z.eqb_spec st 0) as [->|Hst]; cbn [negb]; [|done].
  unfold set_label. cbn [m_value time interval meta].
  set (m := mk_metric (embed kv') val (time t) (interval t) (meta t)).
  eapply yields_bind.
  { unfold metric_family_metric_append. eapply yields_bind; [apply (list_add_ok _ _ m)|apply yields_ret].
    split_and!; [by exists kv'|done|done]. }
  cbv beta iota. by eapply yields_bind; [by apply (metric_reset_ok m kv')|].
Qed.

Lemma metric_family_append_spec_witness :
  metric_family_append (test_family $"m") (Some $"b") (Some $"2") (v_gauge fzero) (Some (test_metric [($"a", $"1")])) ⇓
    (0, set_metrics (test_family $"m") [test_metric [($"a", $"1"); ($"b", $"2")]]).
Proof.
  apply (metric_family_append_spec (test_family $"m") (test_metric [($"a", $"1")]) $"b" $"2" (v_gauge fzero)
           [($"a", $"1")]); [done|apply test_labels_lwf|done|done|done].
Defined.

(** [metric_family_clone], while memory lasts, copies the name, the
    help text, the type and every metric with its labels, value, time and
    interval, in order; the meta data of the metrics are not copied. *)
Theorem metric_family_clone_spec fam nm :
  fam_name fam = Some nm → Forall (plain_metric (type fam)) (metric fam) →
  metric_family_clone fam ⇓
    inr (set_metrics fam (map (λ m, mk_metric (label m) (m_value m) (time m) (interval m) None) (metric fam))).
Proof.
  apply family_clone_ok.
Qed.

Lemma metric_family_clone_spec_witness :
  metric_family_clone (set_metrics (test_family $"m") [test_metric [($"a", $"1")]]) ⇓
    inr (set_metrics (test_family $"m") [test_metric [($"a", $"1")]]).
Proof.
  apply (metric_family_clone_spec (set_metrics (test_family $"m") [test_metric [($"a", $"1")]]) $"m"); [done|].
  constructor; [|constructor]. split_and!; [by exists [($"a", $"1")]|done|done].
Defined.
