(* ===== verification/Cache.v ===== *)
(** * The value cache (src/daemon/utils_cache.c)

    The cache is written against the ordered-map interface of MapSpec.v: any
    [KeyedMap] with its laws, in particular the search tree of Avl.v.  The
    mutex [cache_lock] is part of the state: taking it while it is held, or
    releasing it while it is free, is a crash.  [cdtime ()] is an argument.
    What the plugin layer is told (plugin_dispatch_missing,
    plugin_dispatch_cache_event) is returned as a list of events; it may call
    back into the cache, so the lock must be free at that point. *)

From Stdlib Require Import ZArith Lia Ascii String Sorted.
From stdpp Require Import base list sets numbers strings.
From S2P Require Import Prelude MapSpec Double StrBuf LabelSet Metric.
From S2P Require MetaData Distribution Avl.

Definition STATE_UNKNOWN : Z := 0.
Definition STATE_OKAY : Z := 1.
Definition STATE_WARNING : Z := 2.
Definition STATE_ERROR : Z := 3.
Definition STATE_MISSING : Z := 15.
Definition DATA_MAX_NAME_LEN : nat := 128.

Record cache_entry_t : Type := mk_ce {
  ce_name : cstr;
  distribution_increase : option Distribution.distribution_t;
  values_gauge : double;
  values_raw : typed_value_t;
  last_time : Z;
  last_update : Z;
  ce_interval : Z;
  state : Z;
  hits : Z;
  history : option (list double);
  history_index : nat;
  history_length : nat;
  start_value : typed_value_t;
  start_time : Z;
  ce_meta : option MetaData.meta_data_t;
  callbacks_mask : Z;
}.

Inductive event : Type :=
  | dispatch_missing (fam : metric_family_t)
  | CE_VALUE_NEW (key : cstr) (m : metric_t)
  | CE_VALUE_UPDATE (mask : Z) (key : cstr) (m : metric_t)
  | CE_VALUE_EXPIRED (mask : Z) (key : cstr) (fam : metric_family_t).

(** [((double) t) / 1073741824.0] *)
Definition CDTIME_T_TO_DOUBLE (t : Z) : double := fdiv (of_Z t) (of_Z 1073741824).

(** [counter_diff] (src/utils/common/common.c) *)
Definition counter_diff (old_value new_value : Z) : Z :=
  if new_value <? old_value then
    if old_value <=? 4294967295 then u64 (4294967295 - old_value + new_value + 1)
    else u64 (18446744073709551615 - old_value + new_value + 1)
  else new_value - old_value.

(** The union members the code reads by the type of the family. *)
Definition as_counter (v : value_t) : option Z := match v with v_counter c => Some c | _ => None end.
Definition as_gauge (v : value_t) : option double := match v with v_gauge g => Some g | _ => None end.
Definition as_distribution (v : value_t) : option (option Distribution.distribution_t) :=
  match v with v_distribution d => Some d | _ => None end.

(** [distribution_sub] on two pointers that are never the same object. *)
Definition distribution_sub (d1 d2 : option Distribution.distribution_t)
    : M (Z * option Distribution.distribution_t) :=
  match d1, d2 with
  | Some d1, Some d2 =>
      let* '(st, h) := mopt (Distribution.distribution_sub [d1; d2] 0 1) in
      ret (st, h !! 0%nat)
  | _, _ => ret (EINVAL, d1)
  end.

Section cache.
Context {T : Type → Type} `{!KeyedMap cstr T} `{Sysconf}.

Record cache : Type := mk_cache { cache_tree : option (T cache_entry_t); cache_lock : bool }.

Definition lock_cache (c : cache) : M cache :=
  let* _ := massert (negb (cache_lock c)) in ret (mk_cache (cache_tree c) true).
Definition unlock_cache (c : cache) : M cache :=
  let* _ := massert (cache_lock c) in ret (mk_cache (cache_tree c) false).

(** [c_avl_get (cache_tree, name, &ce)] *)
Definition get_entry (c : cache) (nm : cstr) : M (Z * option cache_entry_t) :=
  let* t := mopt (cache_tree c) in ret (km_get t nm).
(** Writes through the pointer it returned. *)
Definition put_entry (c : cache) (nm : cstr) (f : cache_entry_t → cache_entry_t) : M cache :=
  let* t := mopt (cache_tree c) in ret (mk_cache (Some (km_update t nm f)) (cache_lock c)).

(** *** Entries *)

Definition cache_alloc : M (option cache_entry_t) :=
  let* ok := alloc in
  if negb ok then ret None
  else
    let* raw := typed_value_create (v_gauge fzero) METRIC_TYPE_GAUGE in
    ret (Some (mk_ce [] None fzero raw 0 0 0 0 0 None 0 0 (mk_typed (v_counter 0) METRIC_TYPE_COUNTER) 0 None 0)).

(** [sstrncpy (ce->name, key, sizeof (ce->name))] *)
Definition entry_name (key : cstr) : cstr := take (6 * DATA_MAX_NAME_LEN - 1) key.

(** The switch of [uc_insert]: gauge, raw value, increase, start value.
    [DS_TYPE_DERIVE] has the number of [METRIC_TYPE_UNTYPED]. *)
Definition insert_values (ty : metric_type_t) (v : value_t)
    : M (double * typed_value_t * option Distribution.distribution_t * typed_value_t) :=
  match ty with
  | METRIC_TYPE_COUNTER | METRIC_TYPE_UNTYPED =>
      let* raw := typed_value_create v METRIC_TYPE_COUNTER in
      let* start := typed_value_create v METRIC_TYPE_COUNTER in
      ret (NAN, raw, None, start)
  | METRIC_TYPE_GAUGE =>
      let* g := mopt (as_gauge v) in
      let* raw := typed_value_create v METRIC_TYPE_GAUGE in
      let* start := typed_value_create v METRIC_TYPE_GAUGE in
      ret (g, raw, None, start)
  | METRIC_TYPE_DISTRIBUTION =>
      let* raw := typed_value_create v METRIC_TYPE_DISTRIBUTION in
      let* d := mopt (as_distribution v) in
      let* inc := Metric.distribution_clone d in
      let* start := typed_value_create v METRIC_TYPE_DISTRIBUTION in
      ret (NAN, raw, inc, start)
  end.

Definition uc_insert (now : Z) (c : cache) (ty : metric_type_t) (m : metric_t) (key : cstr) : M (Z * cache) :=
  let* key_copy := alloc in
  if negb key_copy then ret (-1, c)
  else
    let* ce := cache_alloc in
    match ce with
    | None => ret (-1, c)
    | Some ce =>
        let* '(g, raw, inc, start) := insert_values ty (m_value m) in
        let ce :=
          mk_ce (entry_name key) inc g raw (time m) now (interval m) STATE_UNKNOWN (hits ce) (history ce)
                (history_index ce) (history_length ce) start (time m) (ce_meta ce) (callbacks_mask ce) in
        let* t := mopt (cache_tree c) in
        let* ok := alloc in
        let* '(st, t) := mopt (km_insert ok t key ce) in
        let c := mk_cache (Some t) (cache_lock c) in
        if negb (st =? 0) then ret (-1, c) else ret (0, c)
    end.

Definition uc_init (c : cache) : cache :=
  match cache_tree c with
  | None => mk_cache (Some km_create) (cache_lock c)
  | Some _ => c
  end.

Fixpoint destroy_loop (fuel : nat) (t : T cache_entry_t) : M (T cache_entry_t) :=
  match fuel with
  | O => crash
  | S fuel =>
      let* '(st, _, t) := mopt (km_pick t) in
      if st =? 0 then destroy_loop fuel t else ret t
  end.
Definition uc_destroy (c : cache) : M cache :=
  match cache_tree c with
  | None => ret c
  | Some t =>
      let* _ := destroy_loop (S (Z.to_nat (km_size t))) t in
      ret (mk_cache None (cache_lock c))
  end.

(** *** Timeout *)

Record expired_t : Type := mk_expired { ex_key : cstr; ex_mask : Z }.

Definition fresh (now timeout_g : Z) (ce : cache_entry_t) : bool :=
  u64 (now - last_update ce) <? u64 (ce_interval ce * timeout_g).

Fixpoint expired_loop (now timeout_g : Z) (l : list (cstr * cache_entry_t)) : M (list expired_t) :=
  match l with
  | [] => ret []
  | (key, ce) :: l' =>
      if fresh now timeout_g ce then expired_loop now timeout_g l'
      else
        let* tmp := alloc in
        if negb tmp then expired_loop now timeout_g l'
        else
          let* dup := alloc in
          if negb dup then expired_loop now timeout_g l'
          else
            let* rest := expired_loop now timeout_g l' in
            ret (mk_expired key (callbacks_mask ce) :: rest)
  end.

Fixpoint missing_loop (l : list expired_t) : M (list event) :=
  match l with
  | [] => ret []
  | e :: l' =>
      let* m := metric_parse_identity (ex_key e) in
      match m with
      | inl _ => missing_loop l'
      | inr fam =>
          let* _ := metric_family_free fam in
          let* rest := missing_loop l' in
          ret (dispatch_missing fam ::
               (if ex_mask e =? 0 then [] else [CE_VALUE_EXPIRED (ex_mask e) (ex_key e) fam]) ++ rest)
      end
  end.

Fixpoint remove_loop (t : T cache_entry_t) (l : list expired_t) : M (T cache_entry_t) :=
  match l with
  | [] => ret t
  | e :: l' => let* '(_, _, t) := mopt (km_remove t (ex_key e)) in remove_loop t l'
  end.

(** [others] is what the callbacks and other threads do to the cache while
    the lock is free. *)
Definition uc_check_timeout (now timeout_g : Z) (others : cache → cache) (c : cache)
    : M (Z * list event * cache) :=
  let* c := lock_cache c in
  let* t := mopt (cache_tree c) in
  let* iter := alloc in
  let* expired := if iter then expired_loop now timeout_g (km_iterate t) else ret [] in
  let* c := unlock_cache c in
  if (length expired =? 0)%nat then ret (0, [], c)
  else
    let* _ := massert (negb (cache_lock c)) in
    let* events := missing_loop expired in
    let c := others c in
    let* c := lock_cache c in
    let* t := mopt (cache_tree c) in
    let* t := remove_loop t expired in
    let* c := unlock_cache (mk_cache (Some t) (cache_lock c)) in
    ret (0, events, c).

(** *** Update *)

(** What the value switch of [uc_update_metric] writes. *)
Definition set_values (ce : cache_entry_t) (g : double) (raw : value_t)
    (inc : option Distribution.distribution_t) (start : typed_value_t) (start_t : Z) : cache_entry_t :=
  mk_ce (ce_name ce) inc g (mk_typed raw (tv_type (values_raw ce))) (last_time ce) (last_update ce)
        (ce_interval ce) (state ce) (hits ce) (history ce) (history_index ce) (history_length ce)
        start start_t (ce_meta ce) (callbacks_mask ce).

(** The switch: a status and, if it is 0, the new entry. *)
Definition update_values (ty : metric_type_t) (m : metric_t) (ce : cache_entry_t) : M (Z * cache_entry_t) :=
  match ty with
  | METRIC_TYPE_COUNTER =>
      let* old := mopt (as_counter (tv_value (values_raw ce))) in
      let* new := mopt (as_counter (m_value m)) in
      let diff := counter_diff old new in
      let g := fdiv (of_Z diff) (CDTIME_T_TO_DOUBLE (u64 (time m - last_time ce))) in
      ret (0, set_values ce g (v_counter new) (distribution_increase ce) (start_value ce) (start_time ce))
  | METRIC_TYPE_UNTYPED | METRIC_TYPE_GAUGE =>
      let* new := mopt (as_gauge (m_value m)) in
      ret (0, set_values ce new (v_gauge new) (distribution_increase ce) (start_value ce) (start_time ce))
  | METRIC_TYPE_DISTRIBUTION =>
      let* d := mopt (as_distribution (m_value m)) in
      let* old := mopt (as_distribution (tv_value (values_raw ce))) in
      let* inc := Metric.distribution_clone d in
      let* '(status, inc) := distribution_sub inc old in
      let* '(status, inc, start, start_t) :=
        if status =? ERANGE then
          let* inc := Metric.distribution_clone d in
          let* sv := Metric.distribution_clone d in
          ret (0, inc, mk_typed (v_distribution sv) (tv_type (start_value ce)), time m)
        else ret (status, inc, start_value ce, start_time ce) in
      if negb (status =? 0) then
        ret (status, set_values ce (values_gauge ce) (tv_value (values_raw ce)) inc start start_t)
      else
        let* raw := Metric.distribution_clone d in
        ret (0, set_values ce (values_gauge ce) (v_distribution raw) inc start start_t)
  end.

(** The history and time stamps. *)
Definition update_history (ce : cache_entry_t) : M (option (list double) * nat) :=
  match history ce with
  | None => ret (None, history_index ce)
  | Some h =>
      let* _ := massert (history_index ce <? history_length ce)%nat in
      let* _ := massert (0 <? length h)%nat in
      ret (Some (<[0%nat := values_gauge ce]> h), ((history_index ce + 1) mod history_length ce)%nat)
  end.

Definition set_times (ce : cache_entry_t) (h : option (list double)) (hi : nat) (t now iv : Z) : cache_entry_t :=
  mk_ce (ce_name ce) (distribution_increase ce) (values_gauge ce) (values_raw ce) t now iv (state ce) (hits ce)
        h hi (history_length ce) (start_value ce) (start_time ce) (ce_meta ce) (callbacks_mask ce).

Definition uc_update_metric (now : Z) (c : cache) (fam : metric_family_t) (m : metric_t)
    : M (Z * list event * cache) :=
  let* '(status, buf) := metric_identity STRBUF_CREATE (Some fam) m in
  if negb (status =? 0) then ret (status, [], c)
  else
    let* key := mopt (c_str <$> ptr buf) in
    let* c := lock_cache c in
    let* '(status, ce) := get_entry c key in
    if negb (status =? 0) then
      let* '(status, c) := uc_insert now c (type fam) m key in
      let* c := unlock_cache c in
      ret (status, if status =? 0 then [CE_VALUE_NEW key m] else [], c)
    else
      let* ce := mopt ce in
      if time m <=? last_time ce then
        let* c := unlock_cache c in ret (-1, [], c)
      else
        let* '(status, ce) := update_values (type fam) m ce in
        if negb (status =? 0) then
          let* c := put_entry c key (λ _, ce) in
          let* c := unlock_cache c in
          ret (status, [], c)
        else
          let* '(h, hi) := update_history ce in
          let ce := set_times ce h hi (time m) now (interval m) in
          let* c := put_entry c key (λ _, ce) in
          let* c := unlock_cache c in
          ret (0, if callbacks_mask ce =? 0 then [] else [CE_VALUE_UPDATE (callbacks_mask ce) key m], c).

Fixpoint update_loop (now : Z) (c : cache) (fam : metric_family_t) (l : list metric_t) (r : Z)
    : M (Z * list event * cache) :=
  match l with
  | [] => ret (r, [], c)
  | m :: l' =>
      let* '(status, ev, c) := uc_update_metric now c fam m in
      let r := if negb (status =? 0) then 1 else r in
      let* '(r, ev', c) := update_loop now c fam l' r in
      ret (r, ev ++ ev', c)
  end.
Definition uc_update (now : Z) (c : cache) (fam : metric_family_t) : M (Z * list event * cache) :=
  update_loop now c fam (metric fam) 0.

(** *** Reading and writing single entries *)

Definition uc_set_callbacks_mask (c : cache) (nm : cstr) (mask : Z) : M (Z * cache) :=
  let* c := lock_cache c in
  let* '(status, ce) := get_entry c nm in
  if negb (status =? 0) then let* c := unlock_cache c in ret (-1, c)
  else
    let* c := put_entry c nm (λ ce,
      mk_ce (ce_name ce) (distribution_increase ce) (values_gauge ce) (values_raw ce) (last_time ce)
            (last_update ce) (ce_interval ce) (state ce) (hits ce) (history ce) (history_index ce)
            (history_length ce) (start_value ce) (start_time ce) (ce_meta ce) mask) in
    let* c := unlock_cache c in
    ret (0, c).

Definition percentile_of (d : option Distribution.distribution_t) (percent : double)
    : M (double * option Distribution.distribution_t) :=
  match d with
  | None => ret (NAN, None)
  | Some d =>
      let* '(r, d) := mopt (Distribution.distribution_percentile d percent) in ret (r, Some d)
  end.

(** The answer is the status and what is stored in [*ret_values]. *)
Definition uc_get_percentile_by_name (c : cache) (nm : cstr) (percent : double) : M (Z * option double * cache) :=
  if flt percent fzero || flt (of_Z 100) percent then ret (-1, None, c)
  else
    let* c := lock_cache c in
    let* '(status, ce) := get_entry c nm in
    if status =? 0 then
      let* ce := mopt ce in
      if state ce =? STATE_MISSING then let* c := unlock_cache c in ret (-1, None, c)
      else if negb (bool_decide (tv_type (values_raw ce) = METRIC_TYPE_DISTRIBUTION)) then
        let* c := unlock_cache c in ret (-1, None, c)
      else
        let* '(r, _) := percentile_of (distribution_increase ce) percent in
        let* c := unlock_cache c in
        ret (0, Some r, c)
    else let* c := unlock_cache c in ret (-1, None, c).

Definition uc_get_rate_by_name (c : cache) (nm : cstr) : M (Z * option double * cache) :=
  let* c := lock_cache c in
  let* '(status, ce) := get_entry c nm in
  let* '(status, r, c) :=
    if status =? 0 then
      let* ce := mopt ce in
      if state ce =? STATE_MISSING then ret (-1, None, c)
      else if negb (bool_decide (tv_type (values_raw ce) = METRIC_TYPE_DISTRIBUTION)) then
        ret (0, Some (values_gauge ce), c)
      else
        let* c := unlock_cache c in
        uc_get_percentile_by_name c nm (of_Z 50)
    else ret (-1, None, c) in
  let* c := unlock_cache c in
  ret (status, r, c).

Definition uc_get_value_by_name (c : cache) (nm : cstr) : M (Z * option value_t * cache) :=
  let* c := lock_cache c in
  let* '(status, ce) := get_entry c nm in
  let* '(status, r) :=
    if status =? 0 then
      let* ce := mopt ce in
      if state ce =? STATE_MISSING then ret (-1, None)
      else let* tv := typed_value_clone (values_raw ce) in ret (0, Some (tv_value tv))
    else ret (-1, None) in
  let* c := unlock_cache c in
  ret (status, r, c).

Definition uc_get_start_value_by_name (c : cache) (nm : cstr) : M (Z * option (value_t * Z) * cache) :=
  let* c := lock_cache c in
  let* '(status, ce) := get_entry c nm in
  if negb (status =? 0) then let* c := unlock_cache c in ret (-1, None, c)
  else
    let* ce := mopt ce in
    let* '(status, r) :=
      if state ce =? STATE_MISSING then ret (-1, None)
      else let* tv := typed_value_clone (start_value ce) in ret (0, Some (tv_value tv, start_time ce)) in
    let* c := unlock_cache c in
    ret (status, r, c).

Definition uc_get_size (c : cache) : M (Z * cache) :=
  let* c := lock_cache c in
  let* t := mopt (cache_tree c) in
  let n := km_size t in
  let* c := unlock_cache c in
  ret (n, c).

Fixpoint names_loop (size_arrays : nat) (number : nat) (l : list (cstr * cache_entry_t))
    : M (option (list (cstr * Z))) :=
  match l with
  | [] => ret (Some [])
  | (key, ce) :: l' =>
      if state ce =? STATE_MISSING then names_loop size_arrays number l'
      else
        let* _ := massert (number <? size_arrays)%nat in
        let* dup := alloc in
        if negb dup then ret None
        else
          let* rest := names_loop size_arrays (S number) l' in
          ret (cons (key, last_time ce) <$> rest)
  end.

(** The names with their times, in the order of the arrays. *)
Definition uc_get_names (c : cache) : M (Z * option (list (cstr * Z)) * cache) :=
  let* c := lock_cache c in
  let* t := mopt (cache_tree c) in
  let size_arrays := km_size t in
  if size_arrays <? 1 then let* c := unlock_cache c in ret (0, None, c)
  else
    let* names := alloc in
    let* times := alloc in
    if negb names || negb times then let* c := unlock_cache c in ret (ENOMEM, None, c)
    else
      let* iter := alloc in
      let* r := if iter then names_loop (Z.to_nat size_arrays) 0 (km_iterate t) else ret (Some []) in
      let* c := unlock_cache c in
      match r with
      | None => ret (-1, None, c)
      | Some l => ret (0, Some l, c)
      end.

Definition uc_get_state_by_name (c : cache) (nm : cstr) : M (Z * cache) :=
  let* c := lock_cache c in
  let* '(status, ce) := get_entry c nm in
  let* r := if status =? 0 then let* ce := mopt ce in ret (state ce) else ret STATE_ERROR in
  let* c := unlock_cache c in
  ret (r, c).

Definition set_state (s : Z) (ce : cache_entry_t) : cache_entry_t :=
  mk_ce (ce_name ce) (distribution_increase ce) (values_gauge ce) (values_raw ce) (last_time ce)
        (last_update ce) (ce_interval ce) s (hits ce) (history ce) (history_index ce) (history_length ce)
        (start_value ce) (start_time ce) (ce_meta ce) (callbacks_mask ce).

Definition uc_set_state_by_name (c : cache) (nm : cstr) (s : Z) : M (Z * cache) :=
  let* c := lock_cache c in
  let* '(status, ce) := get_entry c nm in
  let* '(r, c) :=
    if status =? 0 then
      let* ce := mopt ce in
      let* c := put_entry c nm (set_state s) in
      ret (state ce, c)
    else ret (-1, c) in
  let* c := unlock_cache c in
  ret (r, c).

Definition set_history (h : list double) (n : nat) (ce : cache_entry_t) : cache_entry_t :=
  mk_ce (ce_name ce) (distribution_increase ce) (values_gauge ce) (values_raw ce) (last_time ce)
        (last_update ce) (ce_interval ce) (state ce) (hits ce) (Some h) (history_index ce) n
        (start_value ce) (start_time ce) (ce_meta ce) (callbacks_mask ce).

(** The slot that holds the [i]-th newest value. *)
Definition src_index (ce : cache_entry_t) (i : nat) : nat :=
  if (i <? history_index ce)%nat then (history_index ce - (i + 1))%nat
  else (history_length ce + history_index ce - (i + 1))%nat.

Fixpoint history_copy (ce : cache_entry_t) (h : list double) (i num_steps : nat) : M (list double) :=
  match num_steps with
  | O => ret []
  | S n =>
      let* v := mopt (h !! src_index ce i) in
      let* rest := history_copy ce h (S i) n in
      ret (v :: rest)
  end.

Definition uc_get_history_by_name (c : cache) (nm : cstr) (num_steps : nat) : M (Z * list double * cache) :=
  let* c := lock_cache c in
  let* '(status, ce) := get_entry c nm in
  if negb (status =? 0) then let* c := unlock_cache c in ret (- ENOENT, [], c)
  else
    let* ce := mopt ce in
    let* '(status, ce, c) :=
      if (history_length ce <? num_steps)%nat then
        let* tmp := alloc in
        if negb tmp then ret (- ENOMEM, ce, c)
        else
          let h := default [] (history ce) ++ replicate (num_steps - history_length ce) NAN in
          let* c := put_entry c nm (set_history h num_steps) in
          ret (0, set_history h num_steps ce, c)
      else ret (0, ce, c) in
    if negb (status =? 0) then let* c := unlock_cache c in ret (status, [], c)
    else
      let* r := history_copy ce (default [] (history ce)) 0 num_steps in
      let* c := unlock_cache c in
      ret (0, r, c).

Definition uc_get_hits_by_name (c : cache) (nm : cstr) : M (Z * cache) :=
  let* c := lock_cache c in
  let* '(status, ce) := get_entry c nm in
  let* r := if status =? 0 then let* ce := mopt ce in ret (hits ce) else ret STATE_ERROR in
  let* c := unlock_cache c in
  ret (r, c).

Definition set_hits (h : Z) (ce : cache_entry_t) : cache_entry_t :=
  mk_ce (ce_name ce) (distribution_increase ce) (values_gauge ce) (values_raw ce) (last_time ce)
        (last_update ce) (ce_interval ce) (state ce) h (history ce) (history_index ce) (history_length ce)
        (start_value ce) (start_time ce) (ce_meta ce) (callbacks_mask ce).

Definition uc_set_hits_by_name (c : cache) (nm : cstr) (h : Z) : M (Z * cache) :=
  let* c := lock_cache c in
  let* '(status, ce) := get_entry c nm in
  let* '(r, c) :=
    if status =? 0 then
      let* ce := mopt ce in
      let* c := put_entry c nm (set_hits h) in
      ret (hits ce, c)
    else ret (-1, c) in
  let* c := unlock_cache c in
  ret (r, c).

(** [int] overflow is undefined. *)
Definition uc_inc_hits_by_name (c : cache) (nm : cstr) (step : Z) : M (Z * cache) :=
  let* c := lock_cache c in
  let* '(status, ce) := get_entry c nm in
  let* '(r, c) :=
    if status =? 0 then
      let* ce := mopt ce in
      let* _ := massert ((- 2 ^ 31 <=? hits ce + step) && (hits ce + step <? 2 ^ 31)) in
      let* c := put_entry c nm (set_hits (hits ce + step)) in
      ret (hits ce, c)
    else ret (-1, c) in
  let* c := unlock_cache c in
  ret (r, c).

Definition uc_get_last_time (c : cache) (nm : cstr) : M (Z * option Z * cache) :=
  let* c := lock_cache c in
  let* '(status, ce) := get_entry c nm in
  if status =? 0 then
    let* ce := mopt ce in
    if state ce =? STATE_MISSING then let* c := unlock_cache c in ret (-1, None, c)
    else let* c := unlock_cache c in ret (0, Some (last_time ce), c)
  else let* c := unlock_cache c in ret (-1, None, c).

Definition uc_get_last_update (c : cache) (nm : cstr) : M (Z * option Z * cache) :=
  let* c := lock_cache c in
  let* '(status, ce) := get_entry c nm in
  if status =? 0 then
    let* ce := mopt ce in
    if state ce =? STATE_MISSING then let* c := unlock_cache c in ret (-1, None, c)
    else let* c := unlock_cache c in ret (0, Some (last_update ce), c)
  else let* c := unlock_cache c in ret (-1, None, c).

(** *** By metric *)

(** The identity of [m], and then the function by name. *)
Definition by_identity {A} (fam : metric_family_t) (m : metric_t) (err : Z → A) (f : cstr → M A) : M A :=
  let* '(status, buf) := metric_identity STRBUF_CREATE (Some fam) m in
  if negb (status =? 0) then ret (err status)
  else let* key := mopt (c_str <$> ptr buf) in f key.

Definition uc_get_percentile (c : cache) (fam : metric_family_t) (m : metric_t) (percent : double)
    : M (Z * option double * cache) :=
  if negb (bool_decide (type fam = METRIC_TYPE_DISTRIBUTION)) then ret (-1, None, c)
  else if flt percent fzero || flt (of_Z 100) percent then ret (-1, None, c)
  else by_identity fam m (λ st, (st, None, c)) (λ key, uc_get_percentile_by_name c key percent).
Definition uc_get_rate (c : cache) (fam : metric_family_t) (m : metric_t) : M (Z * option double * cache) :=
  by_identity fam m (λ st, (st, None, c)) (λ key,
    if bool_decide (type fam = METRIC_TYPE_DISTRIBUTION) then uc_get_percentile_by_name c key (of_Z 50)
    else uc_get_rate_by_name c key).
Definition uc_get_value (c : cache) (fam : metric_family_t) (m : metric_t) : M (Z * option value_t * cache) :=
  by_identity fam m (λ st, (st, None, c)) (uc_get_value_by_name c).
Definition uc_get_start_value (c : cache) (fam : metric_family_t) (m : metric_t)
    : M (Z * option (value_t * Z) * cache) :=
  by_identity fam m (λ st, (st, None, c)) (uc_get_start_value_by_name c).
Definition uc_get_state (c : cache) (fam : metric_family_t) (m : metric_t) : M (Z * cache) :=
  by_identity fam m (λ st, (st, c)) (uc_get_state_by_name c).
Definition uc_set_state (c : cache) (fam : metric_family_t) (m : metric_t) (s : Z) : M (Z * cache) :=
  by_identity fam m (λ st, (st, c)) (λ key, uc_set_state_by_name c key s).
Definition uc_get_history (c : cache) (fam : metric_family_t) (m : metric_t) (n : nat)
    : M (Z * list double * cache) :=
  by_identity fam m (λ st, (st, [], c)) (λ key, uc_get_history_by_name c key n).
Definition uc_get_hits (c : cache) (fam : metric_family_t) (m : metric_t) : M (Z * cache) :=
  by_identity fam m (λ st, (st, c)) (uc_get_hits_by_name c).
Definition uc_set_hits (c : cache) (fam : metric_family_t) (m : metric_t) (h : Z) : M (Z * cache) :=
  by_identity fam m (λ st, (st, c)) (λ key, uc_set_hits_by_name c key h).
Definition uc_inc_hits (c : cache) (fam : metric_family_t) (m : metric_t) (step : Z) : M (Z * cache) :=
  by_identity fam m (λ st, (st, c)) (λ key, uc_inc_hits_by_name c key step).

(** *** Iterator: holds the lock from creation to destruction *)

Record uc_iter_t : Type := mk_iter { iter_rest : list (cstr * cache_entry_t); iter_entry : option (cstr * cache_entry_t) }.

Definition uc_get_iterator (c : cache) : M (option uc_iter_t * cache) :=
  let* ok := alloc in
  if negb ok then ret (None, c)
  else
    let* c := lock_cache c in
    let* t := mopt (cache_tree c) in
    let* ok := alloc in
    if negb ok then ret (None, c) else ret (Some (mk_iter (km_iterate t) None), c).

Fixpoint iterator_skip (l : list (cstr * cache_entry_t)) : option (cstr * cache_entry_t * list (cstr * cache_entry_t)) :=
  match l with
  | [] => None
  | (k, ce) :: l' => if state ce =? STATE_MISSING then iterator_skip l' else Some (k, ce, l')
  end.
Definition uc_iterator_next (iter : uc_iter_t) : Z * option cstr * uc_iter_t :=
  match iterator_skip (iter_rest iter) with
  | None => (-1, None, mk_iter [] None)
  | Some (k, ce, l) => (0, Some k, mk_iter l (Some (k, ce)))
  end.
Definition uc_iterator_destroy (c : cache) (iter : uc_iter_t) : M cache := unlock_cache c.
Definition uc_iterator_get_time (iter : uc_iter_t) : Z * option Z :=
  match iter_entry iter with None => (-1, None) | Some (_, ce) => (0, Some (last_time ce)) end.
Definition uc_iterator_get_values (iter : uc_iter_t) : M (Z * option value_t) :=
  match iter_entry iter with
  | None => ret (-1, None)
  | Some (_, ce) => let* tv := typed_value_clone (values_raw ce) in ret (0, Some (tv_value tv))
  end.
Definition uc_iterator_get_interval (iter : uc_iter_t) : Z * option Z :=
  match iter_entry iter with None => (-1, None) | Some (_, ce) => (0, Some (ce_interval ce)) end.
Definition uc_iterator_get_meta (iter : uc_iter_t) : M (Z * option MetaData.meta_data_t) :=
  match iter_entry iter with
  | None => ret (-1, None)
  | Some (_, ce) => let* md := Metric.meta_data_clone (ce_meta ce) in ret (0, md)
  end.

(** *** Meta data *)

Definition set_meta (md : option MetaData.meta_data_t) (ce : cache_entry_t) : cache_entry_t :=
  mk_ce (ce_name ce) (distribution_increase ce) (values_gauge ce) (values_raw ce) (last_time ce)
        (last_update ce) (ce_interval ce) (state ce) (hits ce) (history ce) (history_index ce)
        (history_length ce) (start_value ce) (start_time ce) md (callbacks_mask ce).

(** [errno], or the key of the entry and its meta data; NULL with [errno]
    0 cannot be told from success by the callers. *)
Definition uc_get_meta (c : cache) (fam : metric_family_t) (m : metric_t)
    : M (Z + (cstr * option MetaData.meta_data_t) * cache) :=
  let* '(status, buf) := metric_identity STRBUF_CREATE (Some fam) m in
  if negb (status =? 0) then ret (inl status)
  else
    let* key := mopt (c_str <$> ptr buf) in
    let* '(status, ce) := get_entry c key in
    if negb (status =? 0) then ret (inl status)
    else
      let* ce := mopt ce in
      match ce_meta ce with
      | Some md => ret (inr ((key, Some md), c))
      | None =>
          let* md := MetaData.meta_data_create in
          let* c := put_entry c key (set_meta md) in
          (* a failed calloc leaves errno at ENOMEM *)
          match md with
          | None => ret (inl ENOMEM)
          | Some _ => ret (inr ((key, md), c))
          end
      end.

(** [UC_WRAP (wrap_function)] *)
Definition UC_WRAP {A} (wrap_function : MetaData.meta_data_t → M (A * MetaData.meta_data_t)) (err : Z → A)
    (c : cache) (fam : metric_family_t) (m : metric_t) : M (A * cache) :=
  let* c := lock_cache c in
  let* r := uc_get_meta c fam m in
  match r with
  | inl errno => let* c := unlock_cache c in ret (err errno, c)
  | inr ((key, md), c) =>
      let* md := mopt md in
      let* '(r, md) := wrap_function md in
      let* c := put_entry c key (set_meta (Some md)) in
      let* c := unlock_cache c in
      ret (r, c)
  end.

Definition uc_meta_data_exists c fam m key := UC_WRAP (λ md, MetaData.meta_data_exists md key) (λ e, e) c fam m.
Definition uc_meta_data_delete c fam m key := UC_WRAP (λ md, MetaData.meta_data_delete md key) (λ e, e) c fam m.
Definition uc_meta_data_toc c fam m := UC_WRAP MetaData.meta_data_toc (λ e, (e, [])) c fam m.
Definition uc_meta_data_add_string c fam m key v :=
  UC_WRAP (λ md, MetaData.meta_data_add_string md key v) (λ e, e) c fam m.
Definition uc_meta_data_add_signed_int c fam m key v :=
  UC_WRAP (λ md, MetaData.meta_data_add_signed_int md key v) (λ e, e) c fam m.
Definition uc_meta_data_add_unsigned_int c fam m key v :=
  UC_WRAP (λ md, MetaData.meta_data_add_unsigned_int md key v) (λ e, e) c fam m.
Definition uc_meta_data_add_double c fam m key v :=
  UC_WRAP (λ md, MetaData.meta_data_add_double md key v) (λ e, e) c fam m.
Definition uc_meta_data_add_boolean c fam m key v :=
  UC_WRAP (λ md, MetaData.meta_data_add_boolean md key v) (λ e, e) c fam m.
Definition uc_meta_data_get_string c fam m key :=
  UC_WRAP (λ md, MetaData.meta_data_get_string md key) (λ e, (e, None)) c fam m.
Definition uc_meta_data_get_signed_int c fam m key :=
  UC_WRAP (λ md, MetaData.meta_data_get_signed_int md key) (λ e, (e, None)) c fam m.
Definition uc_meta_data_get_unsigned_int c fam m key :=
  UC_WRAP (λ md, MetaData.meta_data_get_unsigned_int md key) (λ e, (e, None)) c fam m.
Definition uc_meta_data_get_double c fam m key :=
  UC_WRAP (λ md, MetaData.meta_data_get_double md key) (λ e, (e, None)) c fam m.
Definition uc_meta_data_get_boolean c fam m key :=
  UC_WRAP (λ md, MetaData.meta_data_get_boolean md key) (λ e, (e, None)) c fam m.
End cache.
Arguments cache : clear implicits.

(** ** The contents of the cache *)

Section laws.
Context {T : Type → Type} `{!KeyedMap cstr T} `{!KeyedMapLaws cstr T} `{Sysconf}.
Implicit Types (c : cache T) (ce : cache_entry_t) (nm key : cstr).

(** An initialised cache, its lock free, that holds the entries [l]. *)
Definition holds c (l : list (cstr * cache_entry_t)) : Prop :=
  ∃ t, cache_tree c = Some t ∧ km_ok t ∧ km_iterate t = l ∧ cache_lock c = false.

Lemma holds_sorted c l : holds c l → Spec.sorted l.
Proof. intros (t & _ & Hok & <- & _). by apply km_sorted. Qed.

(** The same with the lock held: between [lock_cache] and [unlock_cache]. *)
Definition held c (l : list (cstr * cache_entry_t)) : Prop :=
  ∃ t, cache_tree c = Some t ∧ km_ok t ∧ km_iterate t = l ∧ cache_lock c = true.

Lemma lock_ok c l : holds c l → ∃ c', lock_cache c = ret c' ∧ held c' l ∧ mk_cache (cache_tree c') false = c.
Proof.
  intros (t & Ht & Hok & Hl & Hlk). exists (mk_cache (Some t) true). unfold lock_cache. rewrite Hlk, Ht.
  split_and!; [done|by exists t|]. destruct c; simpl in *. congruence.
Qed.

Lemma unlock_ok c l :
  held c l → unlock_cache c = ret (mk_cache (cache_tree c) false) ∧ holds (mk_cache (cache_tree c) false) l.
Proof.
  intros (t & Ht & Hok & Hl & Hlk). unfold unlock_cache. rewrite Hlk. split; [done|]. by exists t.
Qed.

Lemma get_entry_ok c l nm :
  held c l → get_entry c nm = ret (match Spec.get nm l with Some v => (0, Some v) | None => (ENOENT, None) end).
Proof.
  intros (t & Ht & Hok & <- & Hlk). unfold get_entry. rewrite Ht. cbn [mopt]. rewrite bind_ret.
  by rewrite km_get_ok.
Qed.

Lemma put_entry_ok c l nm f :
  held c l → ∃ c', put_entry c nm f = ret c' ∧ held c' (Spec.update nm f l).
Proof.
  intros (t & Ht & Hok & <- & Hlk). unfold put_entry. rewrite Ht. cbn [mopt]. rewrite bind_ret.
  destruct (km_update_ok t nm f Hok) as [? ?]. eexists. split; [done|]. by exists (km_update t nm f).
Qed.

(** *** Keys *)

Lemma escape_no_nul need e s :
  e ≠ NUL → no_nul s → (∀ x, x ≠ NUL → escaped_char e x ≠ NUL) → no_nul (escape_text need e s).
Proof.
  intros He Hs Hc. unfold no_nul, escape_text in *. induction Hs as [|c s Hcn _ IH]; [constructor|].
  rewrite bind_cons. apply Forall_app. split; [|done]. unfold escape_chr.
  destruct (chr_mem need c); repeat constructor; auto.
Qed.

Lemma escaped_char_no_nul x : x ≠ NUL → escaped_char BACKSLASH x ≠ NUL.
Proof. unfold escaped_char. by repeat case_bool_decide. Qed.

Lemma chars_no_nul set s :
  NUL ∉ set → Forall (λ x, chr_mem set x = true) s → no_nul s.
Proof.
  intros Hn Hs. eapply list.Forall_impl; [exact Hs|]. intros c Hc ->.
  by apply bool_decide_eq_true in Hc.
Qed.

Lemma pairs_text_no_nul i kv : lwf kv → no_nul (pairs_text i kv).
Proof.
  intros [_ Hf]. revert i. unfold no_nul. induction Hf as [|[k v] kv (Hk & Hv & Hn) _ IH]; intros i; [constructor|].
  simpl in *. rewrite pairs_text_cons. unfold pair_text. simpl. rewrite !Forall_app.
  apply valid_label_chars in Hk as [_ Hk]. split; [|apply IH].
  split; [destruct (i =? 0)%nat; repeat constructor; done|]. split; [|repeat constructor; try done].
  { eapply chars_no_nul; [|exact Hk]. by apply (bool_decide_unpack _). }
  apply Forall_app. split; [|by repeat constructor].
  apply escape_no_nul; [done|done|]. apply escaped_char_no_nul.
Qed.

Lemma identity_no_nul nm kv : valid_name nm → lwf kv → no_nul (identity_text nm kv).
Proof.
  intros [_ Hn] Hw. unfold identity_text, no_nul. apply Forall_app. split.
  - eapply chars_no_nul; [|exact Hn]. by apply (bool_decide_unpack _).
  - destruct kv as [|p kv]; [constructor|]. unfold labels_text. rewrite !Forall_app.
    split_and!; [by repeat constructor|by apply pairs_text_no_nul|by repeat constructor].
Qed.

(** A metric that has a cache key. *)
Definition keyed (fam : metric_family_t) (m : metric_t) (key : cstr) : Prop :=
  ∃ nm kv, fam_name fam = Some nm ∧ label m = embed kv ∧ valid_name nm ∧ lwf kv ∧ key = identity_text nm kv.

Lemma key_of fam m key {A} (f : Z * strbuf_t → M A) r :
  keyed fam m key →
  (∀ b, c_str <$> ptr b = Some key → f (0, b) ⇓ r) → bind (metric_identity STRBUF_CREATE (Some fam) m) f ⇓ r.
Proof.
  intros (nm & kv & Hn & Hl & Hv & Hw & ->) Hf. pose proof dynamic_create as [Hdyn Htxt].
  destruct (identity_appends fam m nm kv Hn Hl _ Hdyn) as (b & Hb & Hdb & Ht).
  eapply yields_bind; [exact Hb|]. apply Hf. rewrite Htxt in Ht. simpl in Ht. rewrite <-Ht.
  apply dynamic_c_str; [done| |].
  - rewrite Ht. unfold identity_text. by destruct Hv as [? _], nm.
  - rewrite Ht. by apply identity_no_nul.
Qed.

Lemma by_identity_ok {A} fam m key (err : Z → A) f r :
  keyed fam m key → f key ⇓ r → by_identity fam m err f ⇓ r.
Proof.
  intros Hk Hf. unfold by_identity. apply (key_of fam m key); [done|]. intros b Hb. cbn [negb Z.eqb].
  rewrite Hb. cbn [mopt]. by rewrite bind_ret.
Qed.

(** *** Insertion and update *)

(** The value has the member its type calls for. *)
Definition value_ok (ty : metric_type_t) (v : value_t) : Prop :=
  match ty with
  | METRIC_TYPE_COUNTER => ∃ n, v = v_counter n
  | METRIC_TYPE_GAUGE | METRIC_TYPE_UNTYPED => ∃ g, v = v_gauge g
  | METRIC_TYPE_DISTRIBUTION => plain_value METRIC_TYPE_DISTRIBUTION v
  end.

(** What a new entry holds: raw type, gauge, increase. *)
Definition stored_type (ty : metric_type_t) : metric_type_t :=
  match ty with METRIC_TYPE_UNTYPED => METRIC_TYPE_COUNTER | _ => ty end.
Definition first_gauge (ty : metric_type_t) (v : value_t) : double :=
  match ty, v with METRIC_TYPE_GAUGE, v_gauge g => g | _, _ => NAN end.
Definition first_increase (v : value_t) : option Distribution.distribution_t :=
  match v with v_distribution d => d | _ => None end.
Definition new_entry (now : Z) (ty : metric_type_t) (m : metric_t) (key : cstr) : cache_entry_t :=
  mk_ce (entry_name key) (first_increase (m_value m)) (first_gauge ty (m_value m))
        (mk_typed (m_value m) (stored_type ty)) (time m) now (interval m) STATE_UNKNOWN 0 None 0 0
        (mk_typed (m_value m) (stored_type ty)) (time m) None 0.

Lemma typed_create_ok ty v : plain_value ty v → typed_value_create v ty ⇓ mk_typed v ty.
Proof.
  intros Hp. pose proof (clone_value_ok ty v Hp) as Hc. unfold typed_value_create.
  case_bool_decide; [|done]. by eapply yields_bind; [exact Hc|].
Qed.

Lemma insert_values_ok ty v :
  value_ok ty v →
  insert_values ty v ⇓ (first_gauge ty v, mk_typed v (stored_type ty), first_increase v, mk_typed v (stored_type ty)).
Proof.
  destruct ty; simpl; [intros [n ->]|intros [g ->]|intros [g ->]|intros Hp]; try done.
  pose proof (typed_create_ok _ _ Hp) as Ht. destruct (Hp eq_refl) as (d & -> & Hm & Hl).
  eapply yields_bind; [exact Ht|]. cbn [as_distribution mopt first_increase]. rewrite bind_ret.
  assert (Metric.distribution_clone (Some d) ⇓ Some d) as Hc.
  { unfold Metric.distribution_clone. do 2 (eapply yields_bind; [apply yields_alloc|]; cbv beta).
    by rewrite Distribution.clone_copies. }
  eapply yields_bind; [exact Hc|]. cbv beta. eapply yields_bind; [exact Ht|]. done.
Qed.

Lemma uc_insert_ok now c l fam m key :
  held c l → Spec.get key l = None → value_ok (type fam) (m_value m) →
  ∃ c', uc_insert now c (type fam) m key ⇓ (0, c') ∧ held c' (Spec.insert key (new_entry now (type fam) m key) l).
Proof.
  intros (t & Ht & Hok & <- & Hlk) Hg Hv.
  destruct (km_insert_new t key (new_entry now (type fam) m key) Hok Hg) as (t' & Hi & Hok' & Hit).
  exists (mk_cache (Some t') true). split; [|by exists t'].
  unfold uc_insert. eapply yields_bind; [apply yields_alloc|]. cbn [negb].
  eapply yields_bind; [exact eq_refl|]. cbv beta iota.
  eapply yields_bind; [by apply insert_values_ok|]. cbv beta iota. cbn [hits history history_index history_length ce_meta callbacks_mask].
  rewrite Ht. cbn [mopt]. rewrite bind_ret. eapply yields_bind; [apply yields_alloc|]. cbv beta.
  fold (new_entry now (type fam) m key). rewrite Hi. cbn [mopt]. rewrite bind_ret. by rewrite Hlk.
Qed.

(** The history buffer and its write position. *)
Definition history_ok ce : Prop :=
  match history ce with
  | None => history_length ce = 0%nat ∧ history_index ce = 0%nat
  | Some h => length h = history_length ce ∧ (history_index ce < history_length ce)%nat
  end.

(** The entry after an accepted value: times, and the history with slot 0
    overwritten. *)
Definition stamped (now : Z) (m : metric_t) ce : cache_entry_t :=
  set_times ce (<[0%nat := values_gauge ce]> <$> history ce)
    (match history ce with None => history_index ce | Some _ => (history_index ce + 1) mod history_length ce end)%nat
    (time m) now (interval m).

Lemma update_history_ok now m ce :
  history_ok ce →
  ∃ h hi, update_history ce ⇓ (h, hi) ∧ set_times ce h hi (time m) now (interval m) = stamped now m ce.
Proof.
  unfold history_ok, update_history, stamped. destruct (history ce) as [h|] eqn:Eh;
    [|intros _; eexists _, _; split; [apply yields_ret|done]].
  intros [Hl Hi]. eexists _, _. split; [|reflexivity].
  destruct (Nat.ltb_spec (history_index ce) (history_length ce)); [|lia].
  destruct (Nat.ltb_spec 0 (length h)); [done|lia].
Qed.

Definition update_events (key : cstr) (m : metric_t) (mask : Z) : list event :=
  if mask =? 0 then [] else [CE_VALUE_UPDATE mask key m].

Lemma update_existing now c l fam m key ce ce1 :
  holds c l → keyed fam m key → Spec.get key l = Some ce → last_time ce < time m →
  update_values (type fam) m ce ⇓ (0, ce1) → history_ok ce1 →
  ∃ c', uc_update_metric now c fam m ⇓ (0, update_events key m (callbacks_mask ce1), c') ∧
        holds c' (Spec.update key (λ _, stamped now m ce1) l).
Proof.
  intros Hh Hk Hg Ht Hu Hho. destruct (lock_ok c l Hh) as (c1 & Hl1 & Hheld & _).
  destruct (update_history_ok now m ce1 Hho) as (h & hi & Hhist & Hst).
  destruct (put_entry_ok c1 l key (λ _, stamped now m ce1) Hheld) as (c2 & Hp & Hheld2).
  destruct (unlock_ok c2 _ Hheld2) as [Hun Hfin].
  exists (mk_cache (cache_tree c2) false). split; [|done]. unfold uc_update_metric.
  apply (key_of fam m key); [done|]. intros b Hb. cbn [negb Z.eqb]. rewrite Hb. cbn [mopt]. rewrite bind_ret, Hl1, bind_ret.
  rewrite (get_entry_ok c1 l key Hheld), Hg, bind_ret. cbn [negb Z.eqb mopt]. rewrite bind_ret.
  destruct (Z.leb_spec (time m) (last_time ce)); [lia|].
  eapply yields_bind; [exact Hu|]. cbn [negb Z.eqb]. eapply yields_bind; [exact Hhist|]. cbv beta iota.
  rewrite Hst, Hp, bind_ret, Hun, bind_ret. done.
Qed.

Lemma update_stale now c l fam m key ce :
  holds c l → keyed fam m key → Spec.get key l = Some ce → time m ≤ last_time ce →
  uc_update_metric now c fam m ⇓ (-1, [], c).
Proof.
  intros Hh Hk Hg Ht. destruct (lock_ok c l Hh) as (c1 & Hl1 & Hheld & Hback).
  destruct (unlock_ok c1 _ Hheld) as [Hun _]. unfold uc_update_metric.
  apply (key_of fam m key); [done|]. intros b Hb. cbn [negb Z.eqb]. rewrite Hb. cbn [mopt]. rewrite bind_ret, Hl1, bind_ret.
  rewrite (get_entry_ok c1 l key Hheld), Hg, bind_ret. cbn [negb Z.eqb mopt]. rewrite bind_ret.
  destruct (Z.leb_spec (time m) (last_time ce)); [|lia]. by rewrite Hun, bind_ret, Hback.
Qed.

Lemma update_new now c l fam m key :
  holds c l → keyed fam m key → Spec.get key l = None → value_ok (type fam) (m_value m) →
  ∃ c', uc_update_metric now c fam m ⇓ (0, [CE_VALUE_NEW key m], c') ∧
        holds c' (Spec.insert key (new_entry now (type fam) m key) l).
Proof.
  intros Hh Hk Hg Hv. destruct (lock_ok c l Hh) as (c1 & Hl1 & Hheld & _).
  destruct (uc_insert_ok now c1 l fam m key Hheld Hg Hv) as (c2 & Hi & Hheld2).
  destruct (unlock_ok c2 _ Hheld2) as [Hun Hfin].
  exists (mk_cache (cache_tree c2) false). split; [|done]. unfold uc_update_metric.
  apply (key_of fam m key); [done|]. intros b Hb. cbn [negb Z.eqb]. rewrite Hb. cbn [mopt]. rewrite bind_ret, Hl1, bind_ret.
  rewrite (get_entry_ok c1 l key Hheld), Hg, bind_ret. cbn [negb].
  replace (ENOENT =? 0) with false by done. cbn [negb].
  eapply yields_bind; [exact Hi|]. cbv beta iota. by rewrite Hun, bind_ret.
Qed.

(** *** Reading *)

Lemma get_value_ok c l nm ce :
  holds c l → Spec.get nm l = Some ce → state ce ≠ STATE_MISSING →
  plain_value (tv_type (values_raw ce)) (tv_value (values_raw ce)) →
  uc_get_value_by_name c nm ⇓ (0, Some (tv_value (values_raw ce)), c).
Proof.
  intros Hh Hg Hs Hp. unfold uc_get_value_by_name.
  destruct (lock_ok c l Hh) as (c1 & -> & Hheld & Hback). destruct (unlock_ok c1 _ Hheld) as [Hun _].
  rewrite bind_ret, (get_entry_ok c1 l nm Hheld), Hg, bind_ret. cbn [Z.eqb mopt]. rewrite bind_ret.
  destruct (Z.eqb_spec (state ce) STATE_MISSING); [done|].
  eapply (yields_bind _ _ (0, Some (tv_value (values_raw ce)))); [|cbv beta iota; by rewrite Hun, bind_ret, Hback].
  pose proof (clone_value_ok _ _ Hp) as Hc. unfold typed_value_clone.
  eapply (yields_bind _ _ (mk_typed (tv_value (values_raw ce)) (tv_type (values_raw ce)))); [|done].
  case_bool_decide; [|done]. by eapply yields_bind; [exact Hc|].
Qed.

Lemma get_rate_ok c l nm ce :
  holds c l → Spec.get nm l = Some ce → state ce ≠ STATE_MISSING →
  tv_type (values_raw ce) ≠ METRIC_TYPE_DISTRIBUTION →
  uc_get_rate_by_name c nm ⇓ (0, Some (values_gauge ce), c).
Proof.
  intros Hh Hg Hs Hty. unfold uc_get_rate_by_name.
  destruct (lock_ok c l Hh) as (c1 & -> & Hheld & Hback). destruct (unlock_ok c1 _ Hheld) as [Hun _].
  rewrite bind_ret, (get_entry_ok c1 l nm Hheld), Hg, bind_ret. cbn [Z.eqb mopt]. rewrite bind_ret.
  destruct (Z.eqb_spec (state ce) STATE_MISSING); [done|]. rewrite bool_decide_false by done. cbn [negb].
  by rewrite bind_ret, Hun, bind_ret, Hback.
Qed.

Lemma percentile_cache c l nm p o r c' o' :
  holds c l → uc_get_percentile_by_name c nm p o = Some ((r, c'), o') → c' = c.
Proof.
  intros Hh. unfold uc_get_percentile_by_name. destruct (_ || _); [by intros [= <- <- <-]|].
  destruct (lock_ok c l Hh) as (c1 & -> & Hheld & Hback). destruct (unlock_ok c1 _ Hheld) as [Hun _].
  rewrite Hback in Hun. rewrite bind_ret, (get_entry_ok c1 l nm Hheld), bind_ret.
  destruct (Spec.get nm l) as [ce|]; cbn [Z.eqb mopt]; rewrite ?bind_ret, ?Hun, ?bind_ret;
    [|replace (ENOENT =? 0) with false by done; rewrite ?Hun, ?bind_ret; by intros [= <- <- <-]].
  destruct (state ce =? STATE_MISSING); [rewrite ?Hun, ?bind_ret; by intros [= <- <- <-]|].
  destruct (negb _); [rewrite ?Hun, ?bind_ret; by intros [= <- <- <-]|].
  unfold bind at 1. destruct (percentile_of _ _ o) as [[[x d] o1]|]; [|done].
  rewrite ?Hun, ?bind_ret. by intros [= <- <- <-].
Qed.

(** The lock is released twice. *)
Lemma get_rate_distribution c l nm ce o :
  holds c l → Spec.get nm l = Some ce → state ce ≠ STATE_MISSING →
  tv_type (values_raw ce) = METRIC_TYPE_DISTRIBUTION → uc_get_rate_by_name c nm o = None.
Proof.
  intros Hh Hg Hs Hty. unfold uc_get_rate_by_name.
  destruct (lock_ok c l Hh) as (c1 & -> & Hheld & Hback). destruct (unlock_ok c1 _ Hheld) as [Hun _].
  rewrite bind_ret, (get_entry_ok c1 l nm Hheld), Hg, bind_ret. cbn [Z.eqb mopt]. rewrite bind_ret.
  destruct (Z.eqb_spec (state ce) STATE_MISSING); [done|]. rewrite bool_decide_true by done. cbn [negb].
  rewrite Hun, bind_ret, Hback. unfold bind at 1.
  destruct (uc_get_percentile_by_name c nm (of_Z 50) o) as [[[[st r] c'] o']|] eqn:E; [|done].
  apply (percentile_cache _ l) in E as ->; [|done]. destruct Hh as (t & _ & _ & _ & Hlk).
  unfold unlock_cache. by rewrite Hlk.
Qed.

(** *** Timeout *)

Definition stale (now timeout_g : Z) (l : list (cstr * cache_entry_t)) : list (cstr * cache_entry_t) :=
  filter (λ p, fresh now timeout_g p.2 = false) l.

Definition to_expired (p : cstr * cache_entry_t) : expired_t := mk_expired p.1 (callbacks_mask p.2).

Lemma expired_loop_ok now tg l : expired_loop now tg l ⇓ map to_expired (stale now tg l).
Proof.
  unfold stale. induction l as [|[k ce] l IH]; [done|]. rewrite filter_cons. cbn [expired_loop snd].
  destruct (fresh now tg ce) eqn:E; [by rewrite decide_False by congruence|]. rewrite decide_True by done.
  do 2 (eapply yields_bind; [apply yields_alloc|]; cbn [negb]). by eapply yields_bind; [exact IH|].
Qed.

(** All keys are identities of metrics. *)
Definition keys_ok (l : list (cstr * cache_entry_t)) : Prop :=
  Forall (λ p, ∃ nm kv, valid_name nm ∧ lwf kv ∧ p.1 = identity_text nm kv) l.

(** What is dispatched for an expired entry: only keys without labels can be
    parsed. *)
Definition bare (key : cstr) : bool := (strspn key VALID_NAME_CHARS =? length key)%nat.
Definition expired_events (e : expired_t) : list event :=
  if bare (ex_key e) then
    let fam := mk_family (Some (ex_key e)) None METRIC_TYPE_UNTYPED [zero_metric] in
    dispatch_missing fam :: (if ex_mask e =? 0 then [] else [CE_VALUE_EXPIRED (ex_mask e) (ex_key e) fam])
  else [].

Lemma bare_identity nm kv : valid_name nm → bare (identity_text nm kv) = bool_decide (kv = []).
Proof.
  intros Hv. unfold bare. rewrite identity_name by done. unfold identity_text. rewrite length_app.
  destruct kv as [|p kv]; [by rewrite Nat.add_0_r, Nat.eqb_refl|].
  rewrite bool_decide_false by done. apply Nat.eqb_neq. simpl. lia.
Qed.

Lemma missing_loop_ok l :
  Forall (λ e, ∃ nm kv, valid_name nm ∧ lwf kv ∧ ex_key e = identity_text nm kv) l →
  missing_loop l ⇓ concat (map expired_events l).
Proof.
  induction 1 as [|e l (nm & kv & Hv & Hw & He) _ IH]; [done|]. cbn [missing_loop map concat].
  unfold expired_events at 1. rewrite He, bare_identity by done.
  eapply yields_bind; [by apply parse_identity_text|]. cbv beta. case_decide as Hkv.
  - rewrite bool_decide_true by done. subst kv. unfold identity_text. rewrite app_nil_r.
    eapply (yields_bind _ _ tt); [by apply (free_embed _ _ _ [])|]. cbv beta.
    by eapply yields_bind; [exact IH|].
  - by rewrite bool_decide_false.
Qed.

Lemma spec_remove_absent (k : cstr) (l : list (cstr * cache_entry_t)) :
  Spec.get k l = None → Spec.remove k l = l.
Proof.
  induction l as [|[k' v] l IH]; simpl; [done|]. destruct (compare k k' =? 0); [done|]. intros ?. by rewrite IH.
Qed.

Lemma remove_loop_ok l t :
  km_ok t →
  ∃ t', remove_loop t l ⇓ t' ∧ km_ok t' ∧
    ∀ k, Spec.get k (km_iterate t') =
         if decide (k ∈ map ex_key l) then None else Spec.get k (km_iterate t).
Proof.
  revert t. induction l as [|e l IH]; intros t Hok; [exists t; split_and!; [done|done|]|].
  { intros k. by rewrite decide_False by set_solver. }
  assert (∃ st p t1, km_remove t (ex_key e) = Some (st, p, t1) ∧ km_ok t1 ∧
            km_iterate t1 = Spec.remove (ex_key e) (km_iterate t)) as (st & p & t1 & Hr & Hok1 & Hit1).
  { destruct (Spec.get (ex_key e) (km_iterate t)) as [v|] eqn:Hg.
    - destruct (km_remove_found t (ex_key e) v Hok Hg) as (t1 & ? & ? & ?). eauto 10.
    - eexists _, _, t. rewrite spec_remove_absent by done. split_and!; [by apply km_remove_missing|done|done]. }
  destruct (IH t1 Hok1) as (t' & Hl & Hok' & Hg'). exists t'. split_and!; [|done|].
  - simpl. rewrite Hr. cbn [mopt]. by rewrite bind_ret.
  - intros k. rewrite Hg', Hit1, spec_get_remove by by apply km_sorted. simpl.
    destruct (Z.eqb_spec (compare k (ex_key e)) 0) as [E|E].
    + apply (compare_eq k (ex_key e)) in E as ->. rewrite (decide_True (P:=_ ∈ _ :: _)) by set_solver.
      by case_decide.
    + assert (k ≠ ex_key e) by (intros ->; by rewrite compare_refl in E).
      repeat case_decide; try done; set_solver.
Qed.

(** *** History *)

Lemma get_history_one c l nm ce h :
  holds c l → Spec.get nm l = Some ce → history ce = Some h → history_ok ce →
  ∃ x, h !! src_index ce 0 = Some x ∧ uc_get_history_by_name c nm 1 ⇓ (0, [x], c).
Proof.
  intros Hh Hg He Hok. unfold history_ok in Hok. rewrite He in Hok. destruct Hok as [Hl Hi].
  assert (src_index ce 0 < length h)%nat as Hlt.
  { unfold src_index. destruct (Nat.ltb_spec 0 (history_index ce)); lia. }
  destruct (lookup_lt_is_Some_2 h _ Hlt) as [x Hx]. exists x. split; [done|].
  unfold uc_get_history_by_name.
  destruct (lock_ok c l Hh) as (c1 & -> & Hheld & Hback). destruct (unlock_ok c1 _ Hheld) as [Hun _].
  rewrite bind_ret, (get_entry_ok c1 l nm Hheld), Hg, bind_ret. cbn [Z.eqb mopt negb]. rewrite bind_ret.
  destruct (Nat.ltb_spec (history_length ce) 1); [lia|]. rewrite bind_ret. cbn [Z.eqb negb].
  rewrite He. change (default [] (Some h)) with h. cbn [history_copy]. rewrite Hx. cbn [mopt]. rewrite !bind_ret. by rewrite Hun, bind_ret, Hback.
Qed.

Lemma stamped_history now m ce h :
  history ce = Some h → history_ok ce →
  history (stamped now m ce) = Some (<[0%nat := values_gauge ce]> h) ∧
  src_index (stamped now m ce) 0 = history_index ce ∧ history_ok (stamped now m ce).
Proof.
  intros He Hok. unfold history_ok in Hok. rewrite He in Hok. destruct Hok as [Hl Hi].
  unfold stamped, set_times, src_index, history_ok. cbn [history history_index history_length]. rewrite He.
  cbn [fmap option_fmap option_map]. rewrite length_insert.
  pose proof (Nat.mod_upper_bound (history_index ce + 1) (history_length ce)).
  split_and!; [done| |done|lia].
  destruct (decide (history_index ce + 1 = history_length ce)%nat) as [E|E].
  - rewrite E, Nat.Div0.mod_same. cbn [Nat.ltb Nat.leb]. lia.
  - rewrite Nat.mod_small by lia. destruct (Nat.ltb_spec 0 (history_index ce + 1)); lia.
Qed.

(** ** Claims *)

(** C1. [uc_update] of one metric refines an update of the sorted map from
    identities to entries, while memory lasts: a metric that is not in the
    cache is added with its value as the first one, state unknown, and
    announced as new; a value that is not newer than the cached one is
    refused with -1 and changes nothing; otherwise exactly the entry of the
    metric changes, to the values computed by the type switch, stamped with
    the new times.  The cache stays well formed and its lock is free. *)
Theorem uc_update_metric_spec now c l fam m key :
  holds c l → keyed fam m key → value_ok (type fam) (m_value m) →
  match Spec.get key l with
  | None => ∃ c', uc_update_metric now c fam m ⇓ (0, [CE_VALUE_NEW key m], c') ∧
              holds c' (Spec.insert key (new_entry now (type fam) m key) l)
  | Some ce =>
      if time m <=? last_time ce then uc_update_metric now c fam m ⇓ (-1, [], c)
      else ∀ ce1, update_values (type fam) m ce ⇓ (0, ce1) → history_ok ce1 →
        ∃ c', uc_update_metric now c fam m ⇓ (0, update_events key m (callbacks_mask ce1), c') ∧
              holds c' (Spec.update key (λ _, stamped now m ce1) l)
  end.
Proof.
  intros Hh Hk Hv. destruct (Spec.get key l) as [ce|] eqn:Hg; [|by apply update_new].
  destruct (Z.leb_spec (time m) (last_time ce)); [by eapply update_stale|].
  intros ce1 Hu Hho. by eapply update_existing.
Qed.

(** C29. The rate of a counter: after an accepted update the cache answers
    the new counter value, and as rate the counter difference divided by the
    elapsed seconds, where a counter that went back is taken to have wrapped
    at 2^32 if it was below 2^32 and at 2^64 otherwise. *)
Theorem uc_counter_rate now c l fam m key ce old new :
  holds c l → keyed fam m key → Spec.get key l = Some ce →
  type fam = METRIC_TYPE_COUNTER → values_raw ce = mk_typed (v_counter old) METRIC_TYPE_COUNTER →
  m_value m = v_counter new → in_u64 old → in_u64 new →
  last_time ce < time m → history_ok ce → state ce ≠ STATE_MISSING →
  ∃ c' ev diff,
    uc_update_metric now c fam m ⇓ (0, ev, c') ∧
    uc_get_value c' fam m ⇓ (0, Some (v_counter new), c') ∧
    uc_get_rate c' fam m ⇓
      (0, Some (fdiv (of_Z diff) (CDTIME_T_TO_DOUBLE (u64 (time m - last_time ce)))), c') ∧
    0 ≤ diff < 2 ^ 64 ∧
    diff = new - old + (if new <? old then if old <? 2 ^ 32 then 2 ^ 32 else 2 ^ 64 else 0).
Proof.
  intros Hh Hk Hg Hty Hraw Hmv Hold Hnew Ht Hho Hs. set (diff := counter_diff old new).
  set (g := fdiv (of_Z diff) (CDTIME_T_TO_DOUBLE (u64 (time m - last_time ce)))).
  set (ce1 := set_values ce g (v_counter new) (distribution_increase ce) (start_value ce) (start_time ce)).
  assert (update_values (type fam) m ce ⇓ (0, ce1)) as Hu by (rewrite Hty; simpl; by rewrite Hraw, Hmv).
  destruct (update_existing now c l fam m key ce ce1) as (c' & Hup & Hh'); [done..|].
  assert (Spec.get key (Spec.update key (λ _, stamped now m ce1) l) = Some (stamped now m ce1)) as Hg'
    by by rewrite spec_get_update, compare_refl, Hg.
  exists c', (update_events key m (callbacks_mask ce1)), diff. split_and!; [done| | | | |].
  - eapply by_identity_ok; [done|]. eapply (get_value_ok c' _ key (stamped now m ce1)); [exact Hh'|done|done|].
    simpl. rewrite Hraw. intros [=].
  - eapply by_identity_ok; [done|]. cbv beta. rewrite Hty. rewrite bool_decide_false by done.
    eapply (get_rate_ok c' _ key (stamped now m ce1)); [exact Hh'|done|done|]. simpl. by rewrite Hraw.
  - unfold diff, counter_diff, in_u64 in *. pose proof (u64_range (4294967295 - old + new + 1)).
    pose proof (u64_range (18446744073709551615 - old + new + 1)). unfold in_u64 in *.
    destruct (Z.ltb_spec new old), (Z.leb_spec old 4294967295); lia.
  - unfold diff, counter_diff, in_u64 in *. pose proof (u64_range (4294967295 - old + new + 1)).
    pose proof (u64_range (18446744073709551615 - old + new + 1)). unfold in_u64 in *.
    destruct (Z.ltb_spec new old), (Z.leb_spec old 4294967295); lia.
  - unfold diff, counter_diff, in_u64 in *.
    destruct (Z.ltb_spec new old), (Z.leb_spec old 4294967295), (Z.ltb_spec old (2 ^ 32));
      rewrite ?u64_small by (unfold in_u64; lia); lia.
Qed.

(** C30. One pass of [uc_check_timeout], while memory lasts.  When no entry
    is stale nothing happens.  Otherwise the plugins are told about the stale
    metrics without labels only (the identities of all others do not parse),
    while the lock is free and the entries are still there; and afterwards
    the stale names are gone, even if they were updated in the meantime,
    while every other name reads as the callbacks and other threads left it. *)
Theorem uc_check_timeout_spec now tg (others : cache T → cache T) c l l2 :
  holds c l → keys_ok l → holds (others c) l2 →
  ∃ c' l', uc_check_timeout now tg others c ⇓
      (0, concat (map expired_events (map to_expired (stale now tg l))), c') ∧ holds c' l' ∧
    if decide (stale now tg l = []) then c' = c
    else ∀ k, Spec.get k l' = if decide (k ∈ map fst (stale now tg l)) then None else Spec.get k l2.
Proof.
  intros Hh Hkeys Ho. unfold uc_check_timeout. destruct (lock_ok c l Hh) as (c1 & Hl1 & Hheld & Hback).
  destruct (unlock_ok c1 _ Hheld) as [Hun _]. rewrite Hback in Hun.
  destruct Hheld as (t & Ht & Hok & Hit & _). subst l. set (l := km_iterate t) in *.
  case_decide as Hst.
  - exists c, l. split_and!; [|done|done]. rewrite Hl1, bind_ret, Ht. cbn [mopt]. rewrite bind_ret.
    eapply yields_bind; [apply yields_alloc|]. cbv beta iota.
    eapply yields_bind; [apply expired_loop_ok|]. cbv beta. rewrite Hun, bind_ret. fold l. by rewrite Hst.
  - destruct (lock_ok (others c) l2 Ho) as (c2 & Hl2 & (t2 & Ht2 & Hok2 & Hit2 & Hlk2) & _).
    destruct (remove_loop_ok (map to_expired (stale now tg l)) t2 Hok2) as (t3 & Hr & Hok3 & Hg3).
    exists (mk_cache (Some t3) false), (km_iterate t3). split_and!; [|by exists t3|].
    + rewrite Hl1, bind_ret, Ht. cbn [mopt]. rewrite bind_ret.
      eapply yields_bind; [apply yields_alloc|]. cbv beta iota.
      eapply yields_bind; [apply expired_loop_ok|]. cbv beta. rewrite Hun, bind_ret. fold l.
      destruct (Nat.eqb_spec (length (map to_expired (stale now tg l))) 0) as [E|_].
      { rewrite length_map in E. by apply nil_length_inv in E. }
      replace (cache_lock c) with false by by destruct Hh as (? & _ & _ & _ & ->).
      cbn [negb massert]. rewrite bind_ret. eapply yields_bind.
      { apply missing_loop_ok, Forall_map, list.Forall_forall. unfold stale.
        intros p [_ Hp]%list_elem_of_filter. eapply list.Forall_forall in Hkeys; [exact Hkeys|done]. }
      cbv beta zeta. rewrite Hl2, bind_ret, Ht2. cbn [mopt]. rewrite bind_ret.
      eapply yields_bind; [exact Hr|]. cbv beta. unfold unlock_cache. cbn [cache_lock]. by rewrite Hlk2.
    + intros k. rewrite Hg3, Hit2. by rewrite map_map.
Qed.

(** The history of an entry is not a ring: an accepted update writes
    the new gauge into slot 0, whatever the write position, so unless that
    position is 0 the value that [uc_get_history] then reports as the newest
    one is an old one. *)
Theorem uc_history_slot now c l fam m key ce ce1 h x :
  holds c l → keyed fam m key → Spec.get key l = Some ce → last_time ce < time m →
  update_values (type fam) m ce ⇓ (0, ce1) → history_ok ce1 →
  history ce1 = Some h → h !! history_index ce1 = Some x →
  ∃ c' ev, uc_update_metric now c fam m ⇓ (0, ev, c') ∧
    uc_get_history c' fam m 1 ⇓ (0, [if (history_index ce1 =? 0)%nat then values_gauge ce1 else x], c').
Proof.
  intros Hh Hk Hg Ht Hu Hho He Hx.
  destruct (update_existing now c l fam m key ce ce1) as (c' & Hup & Hh'); [done..|].
  destruct (stamped_history now m ce1 h He Hho) as (He' & Hsrc & Hho').
  exists c', (update_events key m (callbacks_mask ce1)). split; [done|].
  destruct (get_history_one c' _ key (stamped now m ce1) (<[0%nat := values_gauge ce1]> h) Hh')
    as (y & Hy & Hget); [by rewrite spec_get_update, compare_refl, Hg|done|done|].
  eapply by_identity_ok; [done|]. rewrite Hsrc in Hy. pose proof (lookup_lt_Some _ _ _ Hx) as Hlt.
  destruct (Nat.eqb_spec (history_index ce1) 0) as [E|E].
  - rewrite E, list_lookup_insert_eq in Hy by lia. by injection Hy as ->.
  - rewrite list_lookup_insert_ne, Hx in Hy by lia. by injection Hy as ->.
Qed.

(** [uc_get_rate_by_name] of a cached distribution releases the cache
    lock twice, which is undefined; for every other entry that is not missing
    it answers the cached gauge and leaves the cache as it was. *)
Theorem uc_get_rate_by_name_spec c l nm ce :
  holds c l → Spec.get nm l = Some ce → state ce ≠ STATE_MISSING →
  if decide (tv_type (values_raw ce) = METRIC_TYPE_DISTRIBUTION)
  then ∀ o, uc_get_rate_by_name c nm o = None
  else uc_get_rate_by_name c nm ⇓ (0, Some (values_gauge ce), c).
Proof.
  intros Hh Hg Hs. case_decide; [|by eapply get_rate_ok].
  intros o. by eapply get_rate_distribution.
Qed.
End laws.

(** ** Witnesses: the cache on the search tree *)

#[export] Existing Instances Avl.avl_map Avl.avl_laws.

Definition avl_cache (key : cstr) (ce : cache_entry_t) : cache (Avl.c_avl_tree cstr) :=
  mk_cache (Some (Avl.mk_avl (Avl.Node key ce 1 Avl.Null Avl.Null) 1)) false.

Lemma avl_cache_holds key ce : holds (avl_cache key ce) [(key, ce)].
Proof.
  eexists. split_and!; [reflexivity| |done|done]. split; [vm_compute; intuition congruence|repeat constructor|done].
Qed.

Definition counter_family : metric_family_t := mk_family (Some $"m") None METRIC_TYPE_COUNTER [].
Definition counter_metric (t n : Z) : metric_t := mk_metric [] (v_counter n) t 10 None.
Definition counter_entry : cache_entry_t := new_entry 5 METRIC_TYPE_COUNTER (counter_metric 1 7) $"m".

Lemma lwf_nil : lwf [].
Proof. split; constructor. Qed.

Lemma counter_keyed t n : keyed counter_family (counter_metric t n) $"m".
Proof.
  exists $"m", []. do 4 (split; [first [done|apply test_name_valid|apply lwf_nil]|]). done.
Qed.

Lemma uc_update_metric_spec_witness :
  uc_update_metric (H:=4096) 9 (avl_cache $"m" counter_entry) counter_family (counter_metric 1 8) ⇓
    (-1, [], avl_cache $"m" counter_entry).
Proof.
  apply (uc_update_metric_spec (H:=4096) 9 (avl_cache $"m" counter_entry) [($"m", counter_entry)]
           counter_family (counter_metric 1 8) $"m");
    [apply avl_cache_holds|apply counter_keyed|by exists 8].
Defined.

Lemma uc_counter_rate_witness :
  ∃ c' ev diff,
    uc_update_metric (H:=4096) 9 (avl_cache $"m" counter_entry) counter_family (counter_metric 2 3) ⇓ (0, ev, c') ∧
    uc_get_value (H:=4096) c' counter_family (counter_metric 2 3) ⇓ (0, Some (v_counter 3), c') ∧
    uc_get_rate (H:=4096) c' counter_family (counter_metric 2 3) ⇓
      (0, Some (fdiv (of_Z diff) (CDTIME_T_TO_DOUBLE (u64 (2 - 1)))), c') ∧
    0 ≤ diff < 2 ^ 64 ∧
    diff = 3 - 7 + (if 3 <? 7 then if 7 <? 2 ^ 32 then 2 ^ 32 else 2 ^ 64 else 0).
Proof.
  apply (uc_counter_rate (H:=4096) 9 (avl_cache $"m" counter_entry) [($"m", counter_entry)] counter_family
           (counter_metric 2 3) $"m" counter_entry 7 3);
    [apply avl_cache_holds|apply counter_keyed|done|done|done|done|unfold in_u64; lia|unfold in_u64; lia
    |simpl; lia|done|done].
Defined.

Lemma uc_check_timeout_spec_witness :
  ∃ c' l', uc_check_timeout (H:=4096) 100 2 (λ c, c) (avl_cache $"m" counter_entry) ⇓
      (0, [dispatch_missing (mk_family (Some $"m") None METRIC_TYPE_UNTYPED [zero_metric])], c') ∧
    holds c' l' ∧
    ∀ k, Spec.get k l' = if decide (k ∈ map fst (stale 100 2 [($"m", counter_entry)])) then None
                         else Spec.get k [($"m", counter_entry)].
Proof.
  apply (uc_check_timeout_spec (H:=4096) 100 2 (λ c, c) (avl_cache $"m" counter_entry) [($"m", counter_entry)]
           [($"m", counter_entry)]); [apply avl_cache_holds| |apply avl_cache_holds].
  constructor; [|constructor]. exists $"m", [].
  split; [apply test_name_valid|]. split; [apply lwf_nil|done].
Defined.

Definition gauge_family : metric_family_t := mk_family (Some $"m") None METRIC_TYPE_GAUGE [].
Definition gauge_metric (t : Z) (g : double) : metric_t := mk_metric [] (v_gauge g) t 10 None.
Definition gauge_entry : cache_entry_t :=
  mk_ce $"m" None (of_Z 1) (mk_typed (v_gauge (of_Z 1)) METRIC_TYPE_GAUGE) 1 5 10 STATE_UNKNOWN 0
        (Some [of_Z 1; NAN]) 1 2 (mk_typed (v_gauge (of_Z 1)) METRIC_TYPE_GAUGE) 1 None 0.

Lemma uc_history_slot_witness :
  ∃ c' ev,
    uc_update_metric (H:=4096) 9 (avl_cache $"m" gauge_entry) gauge_family (gauge_metric 2 (of_Z 2)) ⇓ (0, ev, c') ∧
    uc_get_history (H:=4096) c' gauge_family (gauge_metric 2 (of_Z 2)) 1 ⇓ (0, [NAN], c').
Proof.
  apply (uc_history_slot (H:=4096) 9 (avl_cache $"m" gauge_entry) [($"m", gauge_entry)] gauge_family
           (gauge_metric 2 (of_Z 2)) $"m" gauge_entry
           (set_values gauge_entry (of_Z 2) (v_gauge (of_Z 2)) None (start_value gauge_entry) 1)
           [of_Z 1; NAN] NAN);
    [apply avl_cache_holds| |done|simpl; lia|done|split; simpl; lia|done|done].
  exists $"m", []. do 4 (split; [first [done|apply test_name_valid|apply lwf_nil]|]). done.
Defined.

Definition distribution_entry : cache_entry_t :=
  mk_ce $"m" None NAN (mk_typed (v_distribution None) METRIC_TYPE_DISTRIBUTION) 1 5 10 STATE_UNKNOWN 0
        None 0 0 (mk_typed (v_distribution None) METRIC_TYPE_DISTRIBUTION) 1 None 0.

Lemma uc_get_rate_by_name_spec_witness :
  uc_get_rate_by_name (avl_cache $"m" distribution_entry) $"m" [] = None.
Proof.
  refine (uc_get_rate_by_name_spec (avl_cache $"m" distribution_entry) [($"m", distribution_entry)] $"m"
            distribution_entry _ _ _ []); [apply avl_cache_holds|done|done].
Defined.
