(* ===== verification/LList.v ===== *)
(** * Linked lists (src/daemon/utils_llist.c)

    Nodes live in a memory, a finite map from addresses to nodes; following
    an address that is not allocated, or freeing it, is [None].  [seg] is the
    usual list segment; the write queue of src/daemon/plugin.c shares it.
    The type of the values is a parameter ([void *] in C). *)

From stdpp Require Import base gmap list numbers option fin_maps fin_map_dom gmultiset.
From S2P Require Import Prelude.

Local Open Scope nat_scope.

Abbreviation ptr := positive.

Record node (A : Type) : Type := mk_node { payload : A; next : option ptr }.
#[global] Arguments mk_node {_} _ _.
#[global] Arguments payload {_} _.
#[global] Arguments next {_} _.

Abbreviation mem A := (gmap ptr (node A)).

(** An entry carries its key and its value. *)
Definition llentry_t (V : Type) : Type := node (cstr * V).

Record llist_t : Type := mk_llist { l_head : option ptr; l_tail : option ptr; l_size : Z }.

Section ops.
Context {A : Type}.
Implicit Types (m : mem A) (l : llist_t).

Definition set_next m (a : ptr) (n : option ptr) : option (mem A) :=
  x ← m !! a; Some (<[a := mk_node (payload x) n]> m).

Definition node_create (ok : bool) m (x : A) : option ptr * mem A :=
  if ok then let a := fresh (dom m) in (Some a, <[a := mk_node x None]> m) else (None, m).

Definition node_free m (a : ptr) : option (mem A) :=
  match m !! a with Some _ => Some (delete a m) | None => None end.

Definition llist_create (ok : bool) : option llist_t := if ok then Some (mk_llist None None 0) else None.

Fixpoint free_nodes (fuel : nat) m (p : option ptr) : option (mem A) :=
  match p with
  | None => Some m
  | Some a =>
      match fuel with
      | O => None
      | S fuel => x ← m !! a; m ← node_free m a; free_nodes fuel m (next x)
      end
  end.

(** Every node is visited at most once: the number of nodes is enough fuel. *)
Definition traversal m : nat := S (size m).

Definition llist_destroy m l : option (mem A) := free_nodes (traversal m) m (l_head l).

Definition llist_append m l (e : ptr) : option (mem A * llist_t) :=
  m ← set_next m e None;
  match l_tail l with
  | None => Some (m, mk_llist (Some e) (Some e) (l_size l + 1))
  | Some t => m ← set_next m t (Some e); Some (m, mk_llist (l_head l) (Some e) (l_size l + 1))
  end.

Definition llist_prepend m l (e : ptr) : option (mem A * llist_t) :=
  m ← set_next m e (l_head l);
  Some (m, mk_llist (Some e) (match l_tail l with None => Some e | t => t end) (l_size l + 1)).

(** [prev = l->head; while (prev != NULL && prev->next != e) prev = prev->next] *)
Fixpoint find_prev (fuel : nat) m (prev : option ptr) (e : ptr) : option (option ptr) :=
  match prev with
  | None => Some None
  | Some a =>
      x ← m !! a;
      if bool_decide (next x = Some e) then Some (Some a)
      else match fuel with O => None | S fuel => find_prev fuel m (next x) e end
  end.

Definition llist_remove m l (e : ptr) : option (mem A * llist_t) :=
  prev ← find_prev (traversal m) m (l_head l) e;
  m ← match prev with Some a => x ← m !! e; set_next m a (next x) | None => Some m end;
  hd ← (if bool_decide (l_head l = Some e) then next <$> m !! e else Some (l_head l));
  Some (m, mk_llist hd (if bool_decide (l_tail l = Some e) then prev else l_tail l) (l_size l - 1)).

Definition llist_size (l : option llist_t) : Z := match l with Some l => l_size l | None => 0 end.

Fixpoint search_loop (fuel : nat) m (p : option ptr) (compare : A → Z) : option (option ptr) :=
  match p with
  | None => Some None
  | Some a =>
      match fuel with
      | O => None
      | S fuel =>
          x ← m !! a;
          if (compare (payload x) =? 0)%Z then Some (Some a) else search_loop fuel m (next x) compare
      end
  end.

Definition llist_search_custom m (l : option llist_t) (compare : A → Z) : option (option ptr) :=
  match l with
  | None => Some None
  | Some l => search_loop (traversal m) m (l_head l) compare
  end.

Definition llist_head (l : option llist_t) : option ptr := l ≫= l_head.
Definition llist_tail (l : option llist_t) : option ptr := l ≫= l_tail.
End ops.

Definition llentry_create {V} (ok : bool) (m : mem (cstr * V)) (key : cstr) (value : V) :
    option ptr * mem (cstr * V) :=
  node_create ok m (key, value).
Definition llentry_destroy {V} (m : mem (cstr * V)) (e : ptr) : option (mem (cstr * V)) := node_free m e.

Definition llist_strcmp {V} (ud : cstr) (e : cstr * V) : Z := strcmp e.1 ud.
Definition llist_search {V} (m : mem (cstr * V)) (l : option llist_t) (key : cstr) : option (option ptr) :=
  llist_search_custom m l (llist_strcmp key).

(** ** List segments *)

Section segments.
Context {A : Type}.
Implicit Types (m : mem A) (xs : list (ptr * A)) (p q : option ptr).

Fixpoint seg m p xs q : Prop :=
  match xs with
  | [] => p = q
  | (a, x) :: xs => p = Some a ∧ ∃ n, m !! a = Some (mk_node x n) ∧ seg m n xs q
  end.

Lemma seg_app m p xs ys q : seg m p (xs ++ ys) q ↔ ∃ r, seg m p xs r ∧ seg m r ys q.
Proof.
  revert p; induction xs as [|[a x] xs IH]; intros p; simpl; [naive_solver|].
  split.
  - intros (-> & n & Ha & (r & ? & ?)%IH). eauto 10.
  - intros (r & (-> & n & Ha & ?) & ?). split; [done|]. exists n. split; [done|]. apply IH. eauto.
Qed.

Lemma seg_frame m m' p xs q :
  seg m p xs q → (∀ a, a ∈ xs.*1 → m' !! a = m !! a) → seg m' p xs q.
Proof.
  revert p; induction xs as [|[a x] xs IH]; intros p; simpl; [done|].
  intros (-> & n & Ha & Hs) Hf. split; [done|]. exists n. split.
  - rewrite Hf; [done|set_solver].
  - apply IH; [done|set_solver].
Qed.

Lemma seg_lookup m p xs q a x : seg m p xs q → (a, x) ∈ xs → ∃ n, m !! a = Some (mk_node x n).
Proof.
  revert p; induction xs as [|[b y] xs IH]; intros p; simpl; [set_solver|].
  intros (-> & n & Hb & Hs) [[= -> ->]|]%elem_of_cons; eauto.
Qed.

Lemma seg_alloc m p xs q a : seg m p xs q → a ∈ xs.*1 → is_Some (m !! a).
Proof. intros Hs ([? x] & -> & Hx)%list_elem_of_fmap. edestruct seg_lookup; eauto. Qed.

(** A list without repetitions fits into the memory. *)
Lemma seg_length m p xs q : seg m p xs q → NoDup xs.*1 → length xs ≤ size m.
Proof.
  intros Hs Hnd. rewrite <-(length_fmap fst xs), <-size_dom.
  rewrite <-(size_list_to_set (C := gset ptr) _ Hnd). apply subseteq_size.
  intros a. rewrite elem_of_list_to_set. intros Ha. apply elem_of_dom. eapply seg_alloc; eauto.
Qed.

Lemma seg_set_last m p xs t x q e :
  NoDup (xs ++ [(t, x)]).*1 → seg m p (xs ++ [(t, x)]) q →
  seg (<[t := mk_node x e]> m) p (xs ++ [(t, x)]) e.
Proof.
  rewrite fmap_app, !seg_app. intros (_ & Hd & _)%list.NoDup_app (r & Hxs & -> & n & Ht & ->).
  exists (Some t). split.
  - eapply seg_frame; [done|]. intros a Ha. rewrite lookup_insert_ne; [done|]. set_solver.
  - simpl. split; [done|]. exists e. by rewrite lookup_insert_eq.
Qed.

Lemma nodup_fst_app xs ys : NoDup (xs ++ ys).*1 → NoDup xs.*1 ∧ NoDup ys.*1 ∧ (∀ a, a ∈ xs.*1 → a ∉ ys.*1).
Proof. rewrite fmap_app, list.NoDup_app. tauto. Qed.

Lemma seg_head m p xs q : seg m p xs q → p = match xs with [] => q | (a, _) :: _ => Some a end.
Proof. destruct xs as [|[a x] xs]; simpl; naive_solver. Qed.
End segments.

(** ** Lists in memory

    [lrepr m l xs]: the list [l] holds the entries [xs], in order. *)

Section refine.
Context {A : Type}.
Implicit Types (m : mem A) (l : llist_t) (xs : list (ptr * A)).

Record lrepr m l xs : Prop := {
  lr_seg : seg m (l_head l) xs None;
  lr_tail : l_tail l = fst <$> list.last xs;
  lr_size : l_size l = Z.of_nat (length xs);
  lr_nodup : NoDup xs.*1;
}.

(** The nodes outside of [s] are untouched. *)
Definition frame m m' (s : list ptr) : Prop := ∀ a, a ∉ s → m' !! a = m !! a.

Lemma lrepr_frame m m' l xs s :
  lrepr m l xs → frame m m' s → (∀ a, a ∈ s → a ∉ xs.*1) → lrepr m' l xs.
Proof. intros [] Hf Hd. split; [|done..]. eapply seg_frame; [done|]. intros a Ha. apply Hf. naive_solver. Qed.

Lemma create_repr m : lrepr m (mk_llist None None 0) [].
Proof. split; simpl; [done..|constructor]. Qed.

Lemma append_spec m l xs e x n :
  lrepr m l xs → m !! e = Some (mk_node x n) → e ∉ xs.*1 →
  ∃ m' l', llist_append m l e = Some (m', l') ∧ lrepr m' l' (xs ++ [(e, x)]) ∧ frame m m' (e :: xs.*1).
Proof.
  intros [Hs Ht Hz Hnd] He Hin. unfold llist_append, set_next. rewrite He. simpl.
  assert (NoDup (xs ++ [(e, x)]).*1).
  { rewrite fmap_app. apply list.NoDup_app. split; [done|]. split; [set_solver|]. apply NoDup_singleton. }
  destruct xs as [|[t y] xs' _] using rev_ind; rewrite Ht; simpl.
  - eexists _, _. split; [done|]. split; [split; simpl; try done; [|simpl in *; lia]|].
    + simpl. split; [done|]. eexists. by rewrite lookup_insert_eq.
    + intros a Ha. rewrite lookup_insert_ne; [done|set_solver].
  - rewrite last_snoc. simpl. rewrite fmap_app in Hin.
    assert (t ≠ e) by set_solver.
    edestruct (seg_lookup _ _ _ _ t y Hs) as [nt Hlt]; [set_solver|].
    rewrite lookup_insert_ne, Hlt by done. simpl. eexists _, _. split; [done|].
    split; [split; simpl|]; try done.
    + apply seg_app. exists (Some e). split.
      * eapply seg_set_last; [by apply nodup_fst_app in H as [? _]|]. eapply seg_frame; [done|].
        intros a Ha. rewrite lookup_insert_ne; [done|]. intros ->. rewrite fmap_app in Ha. done.
      * simpl. split; [done|]. eexists. split; [|done]. by rewrite lookup_insert_ne, lookup_insert_eq.
    + by rewrite last_snoc.
    + rewrite !length_app in *. simpl in *. lia.
    + intros a Ha. rewrite !fmap_app in Ha. rewrite !lookup_insert_ne; [done|set_solver..].
Qed.

Lemma prepend_spec m l xs e x n :
  lrepr m l xs → m !! e = Some (mk_node x n) → e ∉ xs.*1 →
  ∃ m' l', llist_prepend m l e = Some (m', l') ∧ lrepr m' l' ((e, x) :: xs) ∧ frame m m' [e].
Proof.
  intros [Hs Ht Hz Hnd] He Hin. unfold llist_prepend, set_next. rewrite He. simpl.
  eexists _, _. split; [done|]. split; [split; simpl|].
  - split; [done|]. eexists. rewrite lookup_insert_eq. split; [done|].
    eapply seg_frame; [done|]. intros a Ha. rewrite lookup_insert_ne; [done|]. by intros ->.
  - rewrite Ht. by destruct xs as [|y xs] using rev_ind; [|rewrite last_snoc, app_comm_cons, last_snoc].
  - lia.
  - by constructor.
  - intros a Ha. rewrite lookup_insert_ne; [done|set_solver].
Qed.

Lemma find_prev_mid fuel m p pre b y e x post :
  seg m p (pre ++ (b, y) :: (e, x) :: post) None → e ∉ (pre ++ [(b, y)]).*1 → length pre ≤ fuel →
  find_prev fuel m p e = Some (Some b).
Proof.
  revert fuel p; induction pre as [|[a z] pre IH]; intros fuel p; simpl.
  - intros (-> & n & Hb & -> & _) _ _. destruct fuel; simpl; rewrite Hb; simpl; by rewrite bool_decide_true.
  - intros (-> & n & Ha & Hs) Hin Hf. destruct fuel as [|fuel]; [lia|]. simpl. rewrite Ha. simpl.
    apply not_elem_of_cons in Hin as [_ Hin]. rewrite bool_decide_false; [apply IH; [done|done|lia]|].
    rewrite (seg_head _ _ _ _ Hs). clear IH Hs. destruct pre as [|[c w] pre]; simpl in *; intros [= ->]; set_solver.
Qed.

Lemma find_prev_none fuel m p xs e :
  seg m p xs None → e ∉ (drop 1 xs).*1 → length xs ≤ fuel → find_prev fuel m p e = Some None.
Proof.
  revert fuel p; induction xs as [|[a z] xs IH]; intros fuel p; simpl.
  - intros -> _ _. by destruct fuel.
  - intros (-> & n & Ha & Hs) Hin Hf. destruct fuel as [|fuel]; [lia|]. simpl. rewrite Ha. simpl.
    rewrite drop_0 in Hin. rewrite bool_decide_false.
    + apply IH; [done| |lia]. destruct xs as [|[b y] xs]; simpl in *; [set_solver|].
      rewrite drop_0. set_solver.
    + rewrite (seg_head _ _ _ _ Hs). destruct xs as [|[b y] xs]; simpl in *; [done|intros [= ->]; set_solver].
Qed.

Lemma remove_head m l e x xs :
  lrepr m l ((e, x) :: xs) →
  ∃ l', llist_remove m l e = Some (m, l') ∧ lrepr m l' xs.
Proof.
  intros [Hs Ht Hz Hnd]. unfold llist_remove.
  rewrite (find_prev_none _ _ _ _ _ Hs); cycle 1.
  { simpl. rewrite drop_0. by apply list.NoDup_cons in Hnd as [? _]. }
  { pose proof (seg_length _ _ _ _ Hs Hnd). unfold traversal. lia. }
  simpl. destruct Hs as (Hh & n & He & Hs). rewrite fmap_cons in Hnd; apply list.NoDup_cons in Hnd as [Hin Hnd].
  rewrite Hh, (bool_decide_true (Some e = Some e)) by done. rewrite He. simpl. eexists. split; [done|].
  split; simpl; [done| |simpl in *; lia|done].
  rewrite Ht. destruct xs as [|[b y] xs _] using rev_ind; simpl.
  - by rewrite bool_decide_true.
  - rewrite app_comm_cons, !last_snoc. simpl. rewrite bool_decide_false; [done|].
    intros [= ->]. rewrite fmap_app in Hin. set_solver.
Qed.

Lemma remove_mid m l pre b y e x post :
  lrepr m l (pre ++ (b, y) :: (e, x) :: post) →
  ∃ m' l', llist_remove m l e = Some (m', l') ∧ lrepr m' l' (pre ++ (b, y) :: post) ∧ frame m m' [b].
Proof.
  rewrite cons_middle, !(app_assoc pre). intros [Hs Ht Hz Hnd]. unfold llist_remove.
  destruct (nodup_fst_app _ _ Hnd) as (Hnd1 & Hnd2 & Hd). rewrite fmap_cons in Hnd2; apply list.NoDup_cons in Hnd2 as [He2 Hnd2].
  assert (e ∉ (pre ++ [(b, y)]).*1) as He1 by (intros Hx; eapply Hd; [exact Hx|]; set_solver).
  rewrite (find_prev_mid _ _ _ pre b y e x post); cycle 1.
  { by rewrite <-app_assoc in Hs. }
  { done. }
  { pose proof (seg_length _ _ _ _ Hs Hnd) as Hlen. rewrite !length_app in Hlen. unfold traversal. lia. }
  simpl. pose proof Hs as Hs0. apply seg_app in Hs as (r & Hs1 & -> & n & He & Hs2). rewrite He. simpl.
  edestruct (seg_lookup _ _ _ _ b y Hs1) as [nb Hb]; [set_solver|].
  unfold set_next. rewrite Hb. simpl.
  rewrite (bool_decide_false (l_head l = Some e)); cycle 1.
  { rewrite (seg_head _ _ _ _ Hs1). destruct pre as [|[c w] pre]; simpl in *; intros [= ->]; set_solver. }
  simpl. rewrite (cons_middle _ pre post), (app_assoc pre).
  eexists _, _. split; [done|]. split; [split; simpl|].
  - apply seg_app. exists n. split; [by eapply seg_set_last|].
    eapply seg_frame; [done|]. intros a Ha. rewrite lookup_insert_ne; [done|]. intros <-.
    apply (Hd b); [rewrite fmap_app; set_solver|]. set_solver.
  - rewrite Ht. destruct post as [|[c w] post _] using rev_ind; simpl.
    + rewrite last_snoc, app_nil_r, last_snoc. simpl. by rewrite bool_decide_true.
    + rewrite app_comm_cons, !app_assoc, !last_snoc. simpl. rewrite bool_decide_false; [done|].
      intros [= ->]. rewrite fmap_app in He2. set_solver.
  - rewrite Hz, !length_app. simpl. lia.
  - rewrite fmap_app. apply list.NoDup_app. split; [done|]. split; [|done].
    intros a Ha Ha'. eapply Hd; [done|]. set_solver.
  - intros a Ha. rewrite lookup_insert_ne; [done|set_solver].
Qed.

(** Removal of an entry of the list. *)
Lemma remove_spec m l pre e x post :
  lrepr m l (pre ++ (e, x) :: post) →
  ∃ m' l', llist_remove m l e = Some (m', l') ∧ lrepr m' l' (pre ++ post) ∧ frame m m' pre.*1.
Proof.
  destruct pre as [|[b y] pre _] using rev_ind; intros H.
  - apply remove_head in H as (l' & -> & ?). eexists _, _. split; [done|]. split; [done|]. by intros a.
  - rewrite <-app_assoc in H. apply remove_mid in H as (m' & l' & -> & ? & Hf). eexists _, _.
    split; [done|]. rewrite <-app_assoc. split; [done|].
    intros a Ha. apply Hf. rewrite fmap_app in Ha. set_solver.
Qed.

(** The first entry that compares equal. *)
Fixpoint first_match (f : A → Z) xs : option (ptr * A) :=
  match xs with
  | [] => None
  | (a, x) :: xs => if (f x =? 0)%Z then Some (a, x) else first_match f xs
  end.

Lemma first_match_split f xs a x :
  first_match f xs = Some (a, x) →
  ∃ pre post, xs = pre ++ (a, x) :: post ∧ f x = 0%Z ∧ Forall (λ y, f y.2 ≠ 0%Z) pre.
Proof.
  induction xs as [|[b y] xs IH]; simpl; [done|]. case_match eqn:E; breflect.
  - intros [= -> ->]. by exists [], xs.
  - intros (pre & post & -> & ? & ?)%IH. exists ((b, y) :: pre), post. auto.
Qed.

Lemma search_loop_spec fuel m p xs f :
  seg m p xs None → length xs ≤ fuel → search_loop fuel m p f = Some (fst <$> first_match f xs).
Proof.
  revert fuel p; induction xs as [|[a x] xs IH]; intros fuel p; simpl.
  - intros -> _. by destruct fuel.
  - intros (-> & n & Ha & Hs) Hf. destruct fuel as [|fuel]; [lia|]. simpl. rewrite Ha. simpl.
    case_match; [done|]. apply IH; [done|lia].
Qed.

Lemma search_spec m l xs f :
  lrepr m l xs → llist_search_custom m (Some l) f = Some (fst <$> first_match f xs).
Proof.
  intros [Hs _ _ Hnd]. apply search_loop_spec; [done|].
  pose proof (seg_length _ _ _ _ Hs Hnd). unfold traversal. lia.
Qed.

Lemma free_nodes_spec fuel m p xs :
  seg m p xs None → NoDup xs.*1 → length xs ≤ fuel →
  ∃ m', free_nodes fuel m p = Some m' ∧ frame m m' xs.*1 ∧ ∀ a, a ∈ xs.*1 → m' !! a = None.
Proof.
  revert fuel m p; induction xs as [|[a x] xs IH]; intros fuel m p; simpl.
  - intros -> _ _. exists m. destruct fuel; split_and!; try done; by intros ? ?%elem_of_nil.
  - intros (-> & n & Ha & Hs) [Hin Hnd]%list.NoDup_cons Hf. destruct fuel as [|fuel]; [lia|].
    simpl. unfold node_free. rewrite Ha. simpl.
    edestruct (IH fuel (delete a m) n) as (m' & -> & Hfr & Hd); [|done|lia|].
    { eapply seg_frame; [done|]. intros b Hb. rewrite lookup_delete_ne; [done|]. by intros ->. }
    exists m'. split; [done|]. split.
    + intros b Hb. rewrite Hfr by set_solver. rewrite lookup_delete_ne; [done|set_solver].
    + intros b [->|]%elem_of_cons; [|by apply Hd]. rewrite Hfr by done. apply lookup_delete_eq.
Qed.

Lemma destroy_spec m l xs :
  lrepr m l xs →
  ∃ m', llist_destroy m l = Some m' ∧ frame m m' xs.*1 ∧ ∀ a, a ∈ xs.*1 → m' !! a = None.
Proof.
  intros [Hs _ _ Hnd]. apply free_nodes_spec; [done..|].
  pose proof (seg_length _ _ _ _ Hs Hnd). unfold traversal. lia.
Qed.

Lemma create_node m (x : A) :
  ∃ a m', node_create true m x = (Some a, m') ∧ m !! a = None ∧ m' !! a = Some (mk_node x None) ∧ frame m m' [a].
Proof.
  eexists _, _. split; [done|]. split_and!.
  - apply not_elem_of_dom, is_fresh.
  - apply lookup_insert_eq.
  - intros b Hb. rewrite lookup_insert_ne; [done|set_solver].
Qed.

Lemma fresh_not_in m l xs a : lrepr m l xs → m !! a = None → a ∉ xs.*1.
Proof. intros [Hs _ _ _] Ha Hin. destruct (seg_alloc _ _ _ _ _ Hs Hin). congruence. Qed.
End refine.
