(* ===== verification/WriteQueue.v ===== *)
(** * The write queue (src/daemon/plugin.c)

    Threads that dispatch metrics append to a linked queue; the write threads
    take families from it; the shutdown code stops the write threads and
    empties the queue.  The threads interleave at their accesses to
    [write_lock], [write_cond] and [write_loop]: [step] runs one thread from
    one such point to the next.

    A program counter names the point a thread is at, with the locals that are
    live there.  The family of a queue element is kept next to its address
    for the specification; the code reads it through the memory.  The lists
    [enqueued], [dequeued], [dispatched] and [discarded] record what happened.
    A mutex that another thread holds blocks ([Blocked]); taking it twice,
    releasing it without holding it, a bad address and a failing [assert] are
    [Undefined].  [F] stands for a family with its plugin context. *)

From stdpp Require Import base gmap list numbers option fin_maps fin_map_dom.
From S2P Require Import Prelude LList.

Inductive pc (F : Type) : Type :=
(* a thread that dispatches metrics: enqueue_metric_family, write_queue_enqueue *)
| P_idle
| P_enqueue (q : ptr) (x : F)
| P_link (q : ptr) (x : F) (tail : option ptr) (num : Z)
| P_unlock
(* plugin_write_thread and plugin_write_dequeue *)
| W_loop
| W_lock
| W_test
| W_wait
| W_relock
| W_unlock_null
| W_unlock (q : ptr) (x : F)
| W_take (q : ptr) (x : F)
| W_dispatch (x : F)
| W_exit
(* stop_write_threads *)
| S_start
| S_flag
| S_unlock
| S_join
| S_relock
| S_drain
| S_unlock_end
| S_done.
#[global] Arguments P_idle {_}.
#[global] Arguments P_enqueue {_} _ _.
#[global] Arguments P_link {_} _ _ _ _.
#[global] Arguments P_unlock {_}.
#[global] Arguments W_loop {_}.
#[global] Arguments W_lock {_}.
#[global] Arguments W_test {_}.
#[global] Arguments W_wait {_}.
#[global] Arguments W_relock {_}.
#[global] Arguments W_unlock_null {_}.
#[global] Arguments W_unlock {_} _ _.
#[global] Arguments W_take {_} _ _.
#[global] Arguments W_dispatch {_} _.
#[global] Arguments W_exit {_}.
#[global] Arguments S_start {_}.
#[global] Arguments S_flag {_}.
#[global] Arguments S_unlock {_}.
#[global] Arguments S_join {_}.
#[global] Arguments S_relock {_}.
#[global] Arguments S_drain {_}.
#[global] Arguments S_unlock_end {_}.
#[global] Arguments S_done {_}.

Record sys (F : Type) : Type := mk_sys {
  memory : mem F;
  write_queue_head : option ptr;
  write_queue_tail : option ptr;
  write_queue_length : Z;
  write_loop : bool;
  write_lock : option nat;
  threads : list (pc F);
  enqueued : list F;
  dequeued : list F;
  dispatched : list F;
  discarded : list F;
}.
#[global] Arguments mk_sys {_} _ _ _ _ _ _ _ _ _ _ _.
#[global] Arguments memory {_} _.
#[global] Arguments write_queue_head {_} _.
#[global] Arguments write_queue_tail {_} _.
#[global] Arguments write_queue_length {_} _.
#[global] Arguments write_loop {_} _.
#[global] Arguments write_lock {_} _.
#[global] Arguments threads {_} _.
#[global] Arguments enqueued {_} _.
#[global] Arguments dequeued {_} _.
#[global] Arguments dispatched {_} _.
#[global] Arguments discarded {_} _.

(** What a scheduled thread does: go on, start to enqueue a family, signal
    the condition variable (waking the waiters [sel] selects), or wake up
    from [pthread_cond_wait] without a signal. *)
Inductive action (F : Type) : Type :=
| Run
| Enqueue (x : F)
| Signal (sel : nat → bool)
| Spurious.
#[global] Arguments Run {_}.
#[global] Arguments Enqueue {_} _.
#[global] Arguments Signal {_} _.
#[global] Arguments Spurious {_}.

Inductive outcome (S : Type) : Type := Blocked | Undefined | Next (s : S).
#[global] Arguments Blocked {_}.
#[global] Arguments Undefined {_}.
#[global] Arguments Next {_} _.

Section steps.
Context {F : Type}.
Implicit Types (s : sys F) (p : pc F) (T : list (pc F)).

Definition is_wait p : bool := match p with W_wait => true | _ => false end.
Definition is_worker p : bool :=
  match p with
  | W_loop | W_lock | W_test | W_wait | W_relock | W_unlock_null
  | W_unlock _ _ | W_take _ _ | W_dispatch _ | W_exit => true
  | _ => false
  end.
Definition is_exit p : bool := match p with W_exit => true | _ => false end.

(** [pthread_cond_signal] and [pthread_cond_broadcast]: the selected waiters
    go on to take the mutex again. *)
Definition wake_pc (b : bool) p : pc F := if b && is_wait p then W_relock else p.
Definition wake (sel : nat → bool) T : list (pc F) := imap (λ i p, wake_pc (sel i) p) T.
(** A signal wakes at least one thread if there are any. *)
Definition signal_ok (sel : nat → bool) T : bool :=
  negb (existsb is_wait T) || existsb id (imap (λ i p, sel i && is_wait p) T).

Definition set_pc s (t : nat) p : sys F :=
  mk_sys (memory s) (write_queue_head s) (write_queue_tail s) (write_queue_length s) (write_loop s)
    (write_lock s) (<[t := p]> (threads s)) (enqueued s) (dequeued s) (dispatched s) (discarded s).
Definition set_lock s (o : option nat) : sys F :=
  mk_sys (memory s) (write_queue_head s) (write_queue_tail s) (write_queue_length s) (write_loop s)
    o (threads s) (enqueued s) (dequeued s) (dispatched s) (discarded s).
Definition set_queue s (m : mem F) (hd tl : option ptr) (n : Z) : sys F :=
  mk_sys m hd tl n (write_loop s) (write_lock s) (threads s)
    (enqueued s) (dequeued s) (dispatched s) (discarded s).
Definition set_memory s (m : mem F) : sys F :=
  set_queue s m (write_queue_head s) (write_queue_tail s) (write_queue_length s).
Definition wake_threads s (sel : nat → bool) : sys F :=
  mk_sys (memory s) (write_queue_head s) (write_queue_tail s) (write_queue_length s) (write_loop s)
    (write_lock s) (wake sel (threads s)) (enqueued s) (dequeued s) (dispatched s) (discarded s).
Definition clear_loop s : sys F :=
  mk_sys (memory s) (write_queue_head s) (write_queue_tail s) (write_queue_length s) false
    (write_lock s) (threads s) (enqueued s) (dequeued s) (dispatched s) (discarded s).
Definition log s (en de di dc : list F) : sys F :=
  mk_sys (memory s) (write_queue_head s) (write_queue_tail s) (write_queue_length s) (write_loop s)
    (write_lock s) (threads s) (enqueued s ++ en) (dequeued s ++ de) (dispatched s ++ di) (discarded s ++ dc).

Definition pthread_mutex_lock s (t : nat) p : outcome (sys F) :=
  match write_lock s with
  | None => Next (set_pc (set_lock s (Some t)) t p)
  | Some t' => if (t' =? t)%nat then Undefined else Blocked
  end.
Definition pthread_mutex_unlock s (t : nat) p : outcome (sys F) :=
  if bool_decide (write_lock s = Some t) then Next (set_pc (set_lock s None) t p) else Undefined.

Definition defined (o : option (sys F)) : outcome (sys F) :=
  match o with Some s => Next s | None => Undefined end.

(** write_queue_enqueue: [for (elem = head; elem != NULL; elem = elem->next)]. *)
Fixpoint count_loop (fuel : nat) (m : mem F) (elem tail : option ptr) (num : Z) : option (option ptr * Z) :=
  match elem with
  | None => Some (tail, num)
  | Some a =>
      match fuel with
      | O => None
      | S fuel => n ← m !! a; count_loop fuel m (next n) (Some a) (num + 1)
      end
  end.

(** write_queue_enqueue: the body of the critical section. *)
Definition link_body s (hd tl : option ptr) (num : Z) : option (sys F) :=
  match write_queue_tail s with
  | None => Some (set_queue s (memory s) hd tl num)
  | Some a =>
      m ← set_next (memory s) a hd;
      Some (set_queue s m (write_queue_head s) tl (write_queue_length s + num))
  end.

(** plugin_write_dequeue: the element [q] is taken from the queue. *)
Definition unlink_body s (q : ptr) : option (sys F) :=
  n ← memory s !! q;
  let len := write_queue_length s - 1 in
  match next n with
  | None => if len =? 0 then Some (set_queue s (memory s) None None len) else None
  | hd => Some (set_queue s (memory s) hd (write_queue_tail s) len)
  end.

(** stop_write_threads: the loop that frees what is left in the queue. *)
Fixpoint drain_loop (fuel : nat) (m : mem F) (q : option ptr) : option (mem F * list F) :=
  match q with
  | None => Some (m, [])
  | Some a =>
      match fuel with
      | O => None
      | S fuel =>
          n ← m !! a; m ← node_free m a;
          '(m, xs) ← drain_loop fuel m (next n); Some (m, payload n :: xs)
      end
  end.

Definition drain_body s : option (sys F) :=
  '(m, xs) ← drain_loop (traversal (memory s)) (memory s) (write_queue_head s);
  Some (log (set_queue s m None None 0) [] [] [] xs).

(** [write_queue_enqueue], called by [enqueue_metric_family] with a new element. *)
Definition enqueue_step s (t : nat) p (a : action F) : outcome (sys F) :=
  match p, a with
  | P_idle, Enqueue x =>
      (* q = calloc: the new element holds the family and the context *)
      match node_create true (memory s) x with
      | (Some q, m) => Next (set_pc (set_memory s m) t (P_enqueue q x))
      | (None, _) => Next s
      end
  | P_enqueue q x, Run =>
      match count_loop (traversal (memory s)) (memory s) (Some q) None 0 with
      | Some (tl, num) =>
          if num =? 0 then Next (set_pc s t P_idle) else pthread_mutex_lock s t (P_link q x tl num)
      | None => Undefined
      end
  | P_link q x tl num, Signal sel =>
      if signal_ok sel (threads s) then
        match link_body s (Some q) tl num with
        | Some s => Next (set_pc (wake_threads (log s [x] [] [] []) sel) t P_unlock)
        | None => Undefined
        end
      else Blocked
  | P_unlock, Run => pthread_mutex_unlock s t P_idle
  | _, _ => Blocked
  end.

(** [plugin_write_thread], with [plugin_write_dequeue]. *)
Definition write_step s (t : nat) p (a : action F) : outcome (sys F) :=
  match p, a with
  | W_loop, Run => Next (set_pc s t (if write_loop s then W_lock else W_exit))
  | W_lock, Run => pthread_mutex_lock s t W_test
  | W_test, Run =>
      match write_queue_head s with
      | None =>
          if write_loop s then pthread_mutex_unlock s t W_wait
          else Next (set_pc s t W_unlock_null)
      | Some q =>
          match memory s !! q, unlink_body s q with
          | Some n, Some s => Next (set_pc (log s [] [payload n] [] []) t (W_unlock q (payload n)))
          | _, _ => Undefined
          end
      end
  | W_wait, Spurious => Next (set_pc s t W_relock)
  | W_relock, Run => pthread_mutex_lock s t W_test
  | W_unlock_null, Run => pthread_mutex_unlock s t W_loop
  | W_unlock q x, Run => pthread_mutex_unlock s t (W_take q x)
  | W_take q _, Run =>
      (* plugin_set_ctx (q->ctx); fam = q->family; sfree (q) *)
      match memory s !! q, node_free (memory s) q with
      | Some n, Some m => Next (set_pc (set_memory s m) t (W_dispatch (payload n)))
      | _, _ => Undefined
      end
  | W_dispatch x, Run => Next (set_pc (log s [] [] [x] []) t W_loop)
  | _, _ => Blocked
  end.

(** [stop_write_threads]; [pthread_join] blocks while a write thread runs.
    (The function returns at once when no write thread was ever started.) *)
Definition stop_step s (t : nat) p (a : action F) : outcome (sys F) :=
  match p, a with
  | S_start, Run => pthread_mutex_lock s t S_flag
  | S_flag, Run => Next (set_pc (wake_threads (clear_loop s) (λ _, true)) t S_unlock)
  | S_unlock, Run => pthread_mutex_unlock s t S_join
  | S_join, Run =>
      if forallb (λ p, negb (is_worker p) || is_exit p) (threads s) then Next (set_pc s t S_relock)
      else Blocked
  | S_relock, Run => pthread_mutex_lock s t S_drain
  | S_drain, Run => defined ((λ s, set_pc s t S_unlock_end) <$> drain_body s)
  | S_unlock_end, Run => pthread_mutex_unlock s t S_done
  | _, _ => Blocked
  end.

Definition step s (t : nat) (a : action F) : outcome (sys F) :=
  match threads s !! t with
  | None => Blocked
  | Some p =>
      match p with
      | P_idle | P_enqueue _ _ | P_link _ _ _ _ | P_unlock => enqueue_step s t p a
      | S_start | S_flag | S_unlock | S_join | S_relock | S_drain | S_unlock_end | S_done =>
          stop_step s t p a
      | _ => write_step s t p a
      end
  end.

(** The state in which the write threads start: any number of threads that
    dispatch, any number of write threads, and the shutdown code. *)
Definition initial_pc p : bool :=
  match p with P_idle | W_loop | S_start => true | _ => false end.
Definition init T : sys F := mk_sys ∅ None None 0 true None T [] [] [] [].

Inductive reachable : sys F → Prop :=
| reach_init T : forallb initial_pc T = true → reachable (init T)
| reach_step s t a s' : reachable s → step s t a = Next s' → reachable s'.

Definition is_next (o : outcome (sys F)) : bool := match o with Next _ => true | _ => false end.

(** Schedules, for concrete runs. *)
Fixpoint run_schedule s (l : list (nat * action F)) : outcome (sys F) :=
  match l with
  | [] => Next s
  | (t, a) :: l => match step s t a with Next s => run_schedule s l | o => o end
  end.
End steps.

(** ** Facts about the program counters *)

Section pcs.
Context {F : Type}.
Implicit Types (p : pc F) (T : list (pc F)) (m : mem F) (xs : list (ptr * F)).

(** The element a thread owns, the family it holds outside the queue, and
    whether it is inside a critical section. *)
Definition owned p : list (ptr * F) :=
  match p with P_enqueue q x | P_link q x _ _ | W_unlock q x | W_take q x => [(q, x)] | _ => [] end.
Definition flying p : list F :=
  match p with W_unlock _ x | W_take _ x | W_dispatch x => [x] | _ => [] end.
Definition holds p : bool :=
  match p with
  | P_link _ _ _ _ | P_unlock | W_test | W_unlock_null | W_unlock _ _
  | S_flag | S_unlock | S_drain | S_unlock_end => true
  | _ => false
  end.
Definition stopped p : bool :=
  match p with S_unlock | S_join | S_relock | S_drain | S_unlock_end | S_done => true | _ => false end.
Definition joined p : bool :=
  match p with S_relock | S_drain | S_unlock_end | S_done => true | _ => false end.
Definition settled p : bool := negb (is_worker p) || is_exit p.

(** What a thread knows about the element it owns. *)
Definition pc_ok m p : Prop :=
  match p with
  | P_enqueue q x => m !! q = Some (mk_node x None)
  | P_link q x tl num => m !! q = Some (mk_node x None) ∧ tl = Some q ∧ num = 1
  | W_unlock q x | W_take q x => ∃ n, m !! q = Some (mk_node x n)
  | _ => True
  end.

Lemma wake_pc_same {B} (f : pc F → B) b p : f W_relock = f W_wait → f (wake_pc b p) = f p.
Proof. destruct b, p; done. Qed.

Lemma lookup_wake sel T t : wake sel T !! t = wake_pc (sel t) <$> T !! t.
Proof. unfold wake. by rewrite list_lookup_imap. Qed.

Lemma Forall_wake (P : pc F → Prop) sel T :
  (P W_wait → P W_relock) → Forall P T → Forall P (wake sel T).
Proof.
  rewrite !Forall_lookup. intros HP H t p. rewrite lookup_wake. destruct (T !! t) as [q|] eqn:E; [|done].
  intros [= <-]. specialize (H _ _ E). destruct (sel t), q; simpl; auto.
Qed.

Lemma bind_wake {B} (f : pc F → list B) sel T : f W_relock = f W_wait → wake sel T ≫= f = T ≫= f.
Proof.
  intros Hf. unfold wake. revert sel; induction T as [|p T IH]; intros sel; [done|].
  rewrite imap_cons. simpl. rewrite (wake_pc_same f) by done. f_equal. apply (IH (sel ∘ S)).
Qed.

Lemma existsb_wake (f : pc F → bool) sel T : f W_relock = f W_wait → existsb f (wake sel T) = existsb f T.
Proof.
  intros Hf. unfold wake. revert sel; induction T as [|p T IH]; intros sel; [done|].
  rewrite imap_cons. simpl. rewrite (wake_pc_same f) by done. f_equal. apply (IH (sel ∘ S)).
Qed.

Lemma bind_insert {B} (f : pc F → list B) T t p p' :
  T !! t = Some p → (<[t := p']> T ≫= f) ++ f p ≡ₚ (T ≫= f) ++ f p'.
Proof.
  intros H. rewrite <-(take_drop_middle T t p H) at 2. rewrite (insert_take_drop T t p').
  2: { eapply lookup_lt_Some; eauto. }
  rewrite !bind_app. simpl. solve_Permutation.
Qed.

Lemma bind_insert_same {B} (f : pc F → list B) T t p p' :
  T !! t = Some p → f p' = f p → <[t := p']> T ≫= f = T ≫= f.
Proof.
  intros H E. rewrite <-(take_drop_middle T t p H) at 2. rewrite (insert_take_drop T t p').
  2: { eapply lookup_lt_Some; eauto. }
  rewrite !bind_app. simpl. by rewrite E.
Qed.

Lemma elem_of_bind_pc {B} (f : pc F → list B) T t p (x : B) : T !! t = Some p → x ∈ f p → x ∈ T ≫= f.
Proof. intros H Hx. apply list_elem_of_bind. eauto using list_elem_of_lookup_2. Qed.

Lemma existsb_insert (f : pc F → bool) T t p p' :
  T !! t = Some p → f p' = f p → existsb f (<[t := p']> T) = existsb f T.
Proof.
  intros H E. rewrite <-(take_drop_middle T t p H) at 2. rewrite (insert_take_drop T t p').
  2: { eapply lookup_lt_Some; eauto. }
  rewrite !existsb_app. simpl. by rewrite E.
Qed.

Lemma existsb_insert_true (f : pc F → bool) T t p p' :
  T !! t = Some p → f p' = true → existsb f (<[t := p']> T) = true.
Proof.
  intros H E. rewrite (insert_take_drop T t p').
  2: { eapply lookup_lt_Some; eauto. }
  rewrite !existsb_app. simpl. rewrite E, orb_true_r. done.
Qed.

(** ** The mutex: its owner is the one thread inside a critical section *)

Definition lock_inv (o : option nat) T : Prop :=
  ∀ t, o = Some t ↔ ∃ p, T !! t = Some p ∧ holds p = true.

Lemma lock_same o T t p p' :
  lock_inv o T → T !! t = Some p → holds p' = holds p → lock_inv o (<[t := p']> T).
Proof.
  intros H Ht E i. rewrite (H i). destruct (decide (i = t)) as [->|].
  - rewrite Ht, list_lookup_insert_eq by (eapply lookup_lt_Some; eauto).
    split; intros (? & [= <-] & ?); eexists; split; eauto; congruence.
  - by rewrite list_lookup_insert_ne.
Qed.

Lemma lock_acquire T t p p' :
  lock_inv None T → T !! t = Some p → holds p' = true → lock_inv (Some t) (<[t := p']> T).
Proof.
  intros H Ht E i. destruct (decide (i = t)) as [->|].
  - rewrite list_lookup_insert_eq by (eapply lookup_lt_Some; eauto). naive_solver.
  - rewrite list_lookup_insert_ne by done. split; [congruence|]. intros Hi%H. done.
Qed.

Lemma lock_release T t p p' :
  lock_inv (Some t) T → T !! t = Some p → holds p' = false → lock_inv None (<[t := p']> T).
Proof.
  intros H Ht E i. split; [done|]. intros (p'' & Hi & Hp). destruct (decide (i = t)) as [->|].
  - rewrite list_lookup_insert_eq in Hi by (eapply lookup_lt_Some; eauto). by injection Hi as <-; congruence.
  - rewrite list_lookup_insert_ne in Hi by done. assert (Some t = Some i) by (apply H; eauto). congruence.
Qed.

Lemma lock_wake o T sel : lock_inv o T → lock_inv o (wake sel T).
Proof.
  intros H i. rewrite (H i), lookup_wake. destruct (T !! i) as [p|]; simpl; [|naive_solver].
  split; intros (? & [= <-] & ?); eexists; split; eauto; rewrite wake_pc_same in *; done.
Qed.

Lemma lock_owner o T t p : lock_inv o T → T !! t = Some p → holds p = true → o = Some t.
Proof. intros H Ht Hp. apply H. eauto. Qed.

Lemma lock_not_owner o T t p : lock_inv o T → T !! t = Some p → holds p = false → o ≠ Some t.
Proof. intros H Ht Hp (p' & ? & ?)%H. congruence. Qed.

Lemma bind_gain {B} (f : pc F → list B) T t p p' x :
  T !! t = Some p → f p = [] → f p' = [x] → <[t := p']> T ≫= f ≡ₚ x :: (T ≫= f).
Proof.
  intros H E E'. pose proof (bind_insert f T t p p' H) as HP. rewrite E, E', app_nil_r in HP.
  rewrite HP. symmetry. apply Permutation_cons_append.
Qed.

Lemma bind_lose {B} (f : pc F → list B) T t p p' x :
  T !! t = Some p → f p = [x] → f p' = [] → T ≫= f ≡ₚ x :: (<[t := p']> T ≫= f).
Proof.
  intros H E E'. pose proof (bind_insert f T t p p' H) as HP. rewrite E, E', app_nil_r in HP.
  rewrite <-HP. symmetry. apply Permutation_cons_append.
Qed.

(** ** The memory: the queue and the elements the threads own are disjoint *)

Record mem_inv m (hd tl : option ptr) (len : Z) T xs : Prop := {
  mi_seg : seg m hd xs None;
  mi_tail : tl = fst <$> list.last xs;
  mi_len : len = Z.of_nat (length xs);
  mi_nodup : NoDup ((T ≫= owned).*1 ++ xs.*1);
  mi_pc : Forall (pc_ok m) T;
}.

Lemma pc_ok_frame m m' T :
  Forall (pc_ok m) T → (∀ a, a ∈ (T ≫= owned).*1 → m' !! a = m !! a) → Forall (pc_ok m') T.
Proof.
  rewrite !Forall_lookup. intros H Hf t p Ht. specialize (H t p Ht).
  assert (∀ q x, owned p = [(q, x)] → m' !! q = m !! q) as Ho.
  { intros q x E. apply Hf. apply list_elem_of_fmap. exists (q, x). split; [done|].
    eapply elem_of_bind_pc; [done|]. rewrite E. set_solver. }
  destruct p; simpl in *; try done; by erewrite Ho.
Qed.

Lemma pc_ok_owned m T a : Forall (pc_ok m) T → a ∈ (T ≫= owned).*1 → is_Some (m !! a).
Proof.
  intros H ([q x] & -> & (p & Hq & Hp)%list_elem_of_bind)%list_elem_of_fmap.
  pose proof (proj1 (list.Forall_forall _ _) H p Hp) as Hok. simpl.
  destruct p; simpl in *; try (by apply elem_of_nil in Hq);
    apply list_elem_of_singleton in Hq as [= <- <-]; naive_solver.
Qed.

Lemma mem_same m hd tl len T xs t p p' :
  mem_inv m hd tl len T xs → T !! t = Some p → owned p' = owned p → pc_ok m p' →
  mem_inv m hd tl len (<[t := p']> T) xs.
Proof.
  intros [] Ht E Hok. split; try done.
  - by rewrite (bind_insert_same owned T t p p').
  - by apply Forall_insert.
Qed.

Lemma mem_wake m hd tl len T xs sel : mem_inv m hd tl len T xs → mem_inv m hd tl len (wake sel T) xs.
Proof. intros []. split; try done; [by rewrite bind_wake|by apply Forall_wake]. Qed.

Lemma mem_create m hd tl len T xs t p q x :
  mem_inv m hd tl len T xs → T !! t = Some p → owned p = [] → m !! q = None →
  mem_inv (<[q := mk_node x None]> m) hd tl len (<[t := P_enqueue q x]> T) xs.
Proof.
  intros [Hs Htl Hlen Hnd Hpc] Ht Hp Hq.
  assert (q ∉ (T ≫= owned).*1) as Hq1 by (intros [? ?]%(pc_ok_owned m); [congruence|done]).
  assert (q ∉ xs.*1) as Hq2 by (intros [? ?]%(seg_alloc _ _ _ _ _ Hs); congruence).
  split; try done.
  - eapply seg_frame; [done|]. intros a Ha. rewrite lookup_insert_ne; [done|]. by intros ->.
  - rewrite (bind_gain owned T t p _ (q, x)) by done. rewrite fmap_cons. simpl.
    apply list.NoDup_cons. split; [|done]. intros [?|?]%elem_of_app; done.
  - apply Forall_insert; [|simpl; apply lookup_insert_eq].
    eapply pc_ok_frame; [done|]. intros a Ha. rewrite lookup_insert_ne; [done|]. by intros ->.
Qed.

Lemma mem_unlink m hd tl len T xs t p q x n :
  mem_inv m hd tl len T ((q, x) :: xs) → T !! t = Some p → owned p = [] → m !! q = Some (mk_node x n) →
  mem_inv m n (match n with None => None | _ => tl end) (len - 1) (<[t := W_unlock q x]> T) xs.
Proof.
  intros [Hs Htl Hlen Hnd Hpc] Ht Hp Hq. destruct Hs as (_ & n' & Hq' & Hs).
  replace n' with n in * by congruence. split.
  - done.
  - rewrite (seg_head _ _ _ _ Hs), Htl. by destruct xs as [|[a y] xs].
  - simpl in *. lia.
  - rewrite (bind_gain owned T t p _ (q, x)) by done. rewrite fmap_cons in *. simpl in *.
    by rewrite (Permutation_middle (list_fmap _ _ fst _)).
  - apply Forall_insert; [done|]. simpl. eauto.
Qed.

Lemma mem_free m hd tl len T xs t p p' q x :
  mem_inv m hd tl len T xs → T !! t = Some p → owned p = [(q, x)] → owned p' = [] → pc_ok m p' →
  mem_inv (delete q m) hd tl len (<[t := p']> T) xs.
Proof.
  intros [Hs Htl Hlen Hnd Hpc] Ht Hp Hp' Hok.
  rewrite (bind_lose owned T t p p' (q, x)), fmap_cons in Hnd by done. simpl in Hnd.
  apply list.NoDup_cons in Hnd as [Hq Hnd]. rewrite not_elem_of_app in Hq. destruct Hq as [Hq1 Hq2].
  split; try done.
  - eapply seg_frame; [done|]. intros a Ha. rewrite lookup_delete_ne; [done|]. by intros ->.
  - eapply (pc_ok_frame m); [by apply Forall_insert|]. intros a Ha.
    rewrite lookup_delete_ne; [done|]. by intros ->.
Qed.

(** Appending the element [q] that thread [t] owns to an empty queue, and
    behind the last element of another one. *)
Lemma mem_link_empty m hd len T t q x num p' :
  mem_inv m hd None len T [] → T !! t = Some (P_link q x (Some q) num) →
  owned p' = [] → pc_ok m p' →
  mem_inv m (Some q) (Some q) 1 (<[t := p']> T) [(q, x)].
Proof.
  intros [Hs Htl Hlen Hnd Hpc] Ht Hp' Hok.
  destruct (proj1 (Forall_lookup _ _) Hpc _ _ Ht) as (Hq & _ & _).
  rewrite (bind_lose owned T t _ p' (q, x)) in Hnd by done. split; try done.
  - simpl. split; [done|]. exists None. done.
  - rewrite fmap_cons, app_nil_r in Hnd. simpl in *. by rewrite <-Permutation_cons_append.
  - by apply Forall_insert.
Qed.

Lemma mem_link_behind m hd tl a len T xs t q x num p' m' :
  mem_inv m hd (Some a) len T xs → T !! t = Some (P_link q x tl num) →
  owned p' = [] → (∀ m, pc_ok m p') → set_next m a (Some q) = Some m' →
  mem_inv m' hd (Some q) (len + 1) (<[t := p']> T) (xs ++ [(q, x)]).
Proof.
  intros [Hs Htl Hlen Hnd Hpc] Ht Hp' Hok Hset.
  destruct (proj1 (Forall_lookup _ _) Hpc _ _ Ht) as (Hq & _ & _).
  rewrite (bind_lose owned T t _ p' (q, x)), fmap_cons in Hnd by done. simpl in Hnd.
  destruct xs as [|[b y] xs _] using rev_ind; [done|]. rewrite last_snoc in Htl. injection Htl as ->.
  destruct (seg_lookup _ _ _ _ b y Hs) as [nb Hb]; [set_solver|].
  unfold set_next in Hset. rewrite Hb in Hset. injection Hset as <-.
  apply list.NoDup_cons in Hnd as [Hq' Hnd]. rewrite not_elem_of_app in Hq'. destruct Hq' as [Hq1 Hq2].
  assert (b ∈ (xs ++ [(b, y)]).*1) as Hbin by (rewrite fmap_app; set_solver).
  pose proof Hnd as Hnd0. apply list.NoDup_app in Hnd0 as (_ & Hd & Hndx).
  split.
  - apply seg_app. exists (Some q). split; [by eapply seg_set_last|].
    simpl. split; [done|]. exists None. split; [|done]. rewrite lookup_insert_ne; [done|]. by intros ->.
  - by rewrite last_snoc.
  - rewrite !length_app in *. simpl in *. lia.
  - rewrite fmap_app, app_assoc. simpl. rewrite <-Permutation_cons_append. apply list.NoDup_cons.
    rewrite not_elem_of_app. done.
  - eapply (pc_ok_frame m); [by apply Forall_insert|]. intros c Hc.
    rewrite lookup_insert_ne; [done|]. intros ->. by eapply Hd.
Qed.

Lemma count_single fuel m q x : m !! q = Some (mk_node x None) → count_loop (S fuel) m (Some q) None 0 = Some (Some q, 1).
Proof. intros H. simpl. rewrite H. simpl. by destruct fuel. Qed.

Lemma drain_spec fuel m (p : option ptr) xs :
  seg m p xs None → NoDup xs.*1 → (length xs ≤ fuel)%nat →
  ∃ m', drain_loop fuel m p = Some (m', xs.*2) ∧ frame m m' xs.*1.
Proof.
  revert fuel m p; induction xs as [|[a x] xs IH]; intros fuel m p; simpl.
  - intros -> _ _. exists m. destruct fuel; by split.
  - intros (-> & n & Ha & Hs) [Hin Hnd]%list.NoDup_cons Hf. destruct fuel as [|fuel]; [lia|].
    simpl. unfold node_free. rewrite Ha. simpl.
    edestruct (IH fuel (delete a m) n) as (m' & -> & Hfr); [|done|lia|].
    { eapply seg_frame; [done|]. intros b Hb. rewrite lookup_delete_ne; [done|]. by intros ->. }
    exists m'. split; [done|]. intros b Hb. rewrite Hfr by set_solver.
    rewrite lookup_delete_ne; [done|set_solver].
Qed.

Lemma mem_drain m hd tl len T xs t p p' :
  mem_inv m hd tl len T xs → T !! t = Some p → owned p' = owned p → (∀ m, pc_ok m p') →
  ∃ m', drain_loop (traversal m) m hd = Some (m', xs.*2) ∧ mem_inv m' None None 0 (<[t := p']> T) [].
Proof.
  intros [Hs Htl Hlen Hnd Hpc] Ht E Hok. pose proof Hnd as Hnd0. apply list.NoDup_app in Hnd0 as (Hnd1 & Hd & Hndx).
  destruct (drain_spec (traversal m) m hd xs) as (m' & -> & Hf); [done..| |].
  { pose proof (seg_length _ _ _ _ Hs Hndx). unfold traversal. lia. }
  exists m'. split; [done|]. split; try done.
  - by rewrite (bind_insert_same owned T t p p'), app_nil_r.
  - apply Forall_insert; [|done]. eapply (pc_ok_frame m); [done|]. intros a Ha. apply Hf. by apply Hd.
Qed.

(** ** The logs: the queue is first in, first out and loses nothing *)

Record log_inv T (en de di dc : list F) xs : Prop := {
  lg_fifo : en = de ++ dc ++ xs.*2;
  lg_flying : de ≡ₚ di ++ (T ≫= flying);
}.

Lemma log_same T en de di dc xs t p p' :
  log_inv T en de di dc xs → T !! t = Some p → flying p' = flying p → log_inv (<[t := p']> T) en de di dc xs.
Proof. intros [] Ht E. split; [done|]. by rewrite (bind_insert_same flying T t p p'). Qed.

Lemma log_wake T en de di dc xs sel : log_inv T en de di dc xs → log_inv (wake sel T) en de di dc xs.
Proof. intros []. split; [done|]. by rewrite bind_wake. Qed.

Lemma log_link T en de di dc xs q x :
  log_inv T en de di dc xs → log_inv T (en ++ [x]) de di dc (xs ++ [(q, x)]).
Proof. intros [-> ?]. split; [|done]. by rewrite fmap_app, !app_assoc. Qed.

Lemma log_unlink T en de di xs t p q x :
  log_inv T en de di [] ((q, x) :: xs) → T !! t = Some p → flying p = [] →
  log_inv (<[t := W_unlock q x]> T) en (de ++ [x]) di [] xs.
Proof.
  intros [-> Hde] Ht E. split; [by rewrite fmap_cons, <-app_assoc|].
  rewrite (bind_gain flying T t p _ x) by done. rewrite Hde, <-app_assoc. apply Permutation_app_head. symmetry. apply Permutation_cons_append.
Qed.

Lemma log_dispatch T en de di dc xs t p p' x :
  log_inv T en de di dc xs → T !! t = Some p → flying p = [x] → flying p' = [] →
  log_inv (<[t := p']> T) en de (di ++ [x]) dc xs.
Proof.
  intros [-> Hde] Ht E E'. split; [done|].
  rewrite Hde, (bind_lose flying T t p p' x) by done. by rewrite <-app_assoc.
Qed.

Lemma log_drain T en de di dc xs :
  log_inv T en de di dc xs → log_inv T en de di (dc ++ xs.*2) [].
Proof. intros [-> ?]. split; [|done]. by rewrite app_nil_r. Qed.

(** ** Scheduling: no wakeup is lost

    [loop] is [write_loop]; [busy] says that the queue is not empty, [late]
    that the shutdown code has emptied it. *)

Definition awake p : bool := is_worker p && negb (is_wait p).

Record sched_inv (loop : bool) (busy late : Prop) T : Prop := {
  sc_wait : loop = false → Forall (λ p, is_wait p = false) T;
  sc_awake : busy → existsb is_worker T = true → existsb awake T = true;
  sc_running : loop = true → Forall (λ p, is_exit p = false ∧ stopped p = false) T;
  sc_joined : existsb joined T = true → Forall (λ p, settled p = true) T;
  sc_late : late → Forall (λ p, settled p = true) T;
}.

Lemma Forall_lookup_2 (P : pc F → Prop) T t p : Forall P T → T !! t = Some p → P p.
Proof. rewrite Forall_lookup. eauto. Qed.

(** A step of thread [t] from [p] to [p']. *)
Lemma sched_step loop (busy busy' late : Prop) T t p p' :
  sched_inv loop busy late T → T !! t = Some p → (busy' → busy) →
  is_worker p' = is_worker p →
  (loop = false ∨ busy' → is_wait p' = false) →
  (loop = true → is_exit p' = false ∧ stopped p' = false) →
  (joined p' = true → joined p = true ∨ Forall (λ p, settled p = true) T) →
  (settled p = true → settled p' = true) →
  sched_inv loop busy' late (<[t := p']> T).
Proof.
  intros [Hw Ha Hr Hj Hl] Ht Hb Ewk Hwait Hrun Hjn Hset.
  assert (Forall (λ p, settled p = true) T → Forall (λ p, settled p = true) (<[t := p']> T)) as Hs.
  { intros H. apply Forall_insert; [done|]. apply Hset, (Forall_lookup_2 _ _ _ _ H Ht). }
  split.
  - intros E. apply Forall_insert; auto.
  - intros B Hex. rewrite (existsb_insert is_worker T t p p') in Hex by done.
    destruct (is_worker p') eqn:Ew.
    + eapply existsb_insert_true; [done|]. unfold awake. rewrite Ew, Hwait; auto.
    + rewrite (existsb_insert awake T t p p'); [auto|done|]. unfold awake. by rewrite Ew, <-Ewk.
  - intros E. apply Forall_insert; auto.
  - intros Hex. apply Hs. destruct (joined p') eqn:Ej.
    + destruct Hjn as [Hp|]; [done| |done]. apply Hj, existsb_exists.
      exists p. split; [by eapply list_elem_of_In, list_elem_of_lookup_2|done].
    + apply Hj. apply existsb_exists in Hex as (p0 & Hin%list_elem_of_In & Hp0).
      apply list_elem_of_lookup in Hin as [i Hi]. destruct (decide (i = t)) as [->|].
      * rewrite list_lookup_insert_eq in Hi by (by eapply lookup_lt_Some). congruence.
      * rewrite list_lookup_insert_ne in Hi by done. apply existsb_exists. exists p0.
        split; [by eapply list_elem_of_In, list_elem_of_lookup_2|done].
  - auto.
Qed.

Lemma existsb_wake_awake sel T :
  existsb id (imap (λ i p, sel i && is_wait p) T) = true → existsb awake (wake sel T) = true.
Proof.
  unfold wake. revert sel; induction T as [|p T IH]; intros sel; [done|].
  rewrite !imap_cons. simpl. intros [H|H]%orb_true_iff; apply orb_true_iff.
  - left. unfold id, wake_pc in *. rewrite H. done.
  - right. apply (IH (sel ∘ S)), H.
Qed.

Lemma existsb_awake_mono sel T : existsb awake T = true → existsb awake (wake sel T) = true.
Proof.
  unfold wake. revert sel; induction T as [|p T IH]; intros sel; [done|].
  rewrite imap_cons. simpl. intros [H|H]%orb_true_iff; apply orb_true_iff.
  - left. unfold wake_pc. destruct p; try done; by rewrite andb_false_r.
  - right. apply (IH (sel ∘ S)), H.
Qed.

(** A signal that wakes a waiter leaves a write thread awake. *)
Lemma sched_signal loop (busy busy' late : Prop) T sel :
  sched_inv loop busy late T → signal_ok sel T = true → sched_inv loop busy' late (wake sel T).
Proof.
  intros [Hw Ha Hr Hj Hl] Hok. split.
  - intros E. apply Forall_wake; auto.
  - intros _ Hex. rewrite existsb_wake in Hex by done. unfold signal_ok in Hok.
    apply orb_true_iff in Hok as [Hno|Hyes]; [|by apply existsb_wake_awake].
    apply existsb_awake_mono. apply existsb_exists in Hex as (p & Hin & Hp). apply existsb_exists.
    exists p. split; [done|]. unfold awake. rewrite Hp. simpl. apply negb_true_iff.
    apply negb_true_iff in Hno. destruct (is_wait p) eqn:E; [|done].
    rewrite <-Hno. symmetry. apply existsb_exists. eauto.
  - intros E. apply Forall_wake; auto.
  - intros Hex. rewrite existsb_wake in Hex by done. apply Forall_wake; auto.
  - intros L. apply Forall_wake; auto.
Qed.

(** The shutdown code clears [write_loop] and wakes every waiter. *)
Lemma sched_broadcast loop (busy late : Prop) T :
  sched_inv loop busy late T → sched_inv false busy late (wake (λ _, true) T).
Proof.
  intros [Hw Ha Hr Hj Hl].
  assert (Forall (λ p, is_wait p = false) (wake (λ _, true) T)) as Hnw.
  { apply Forall_lookup. intros i p. rewrite lookup_wake. destruct (T !! i) as [q|]; [|done].
    simpl. intros [= <-]. by destruct q. }
  split; auto; try done.
  - intros B Hex. rewrite existsb_wake in Hex by done. apply existsb_awake_mono; auto.
  - intros Hex. rewrite existsb_wake in Hex by done. apply Forall_wake; auto.
  - intros L. apply Forall_wake; auto.
Qed.
End pcs.

(** ** The invariant of the system *)

Section invariant.
Context {F : Type}.
Implicit Types (s : sys F) (p : pc F) (T : list (pc F)) (xs : list (ptr * F)).

Definition inv s : Prop :=
  lock_inv (write_lock s) (threads s) ∧
  sched_inv (write_loop s) (is_Some (write_queue_head s)) (discarded s ≠ []) (threads s) ∧
  ∃ xs, mem_inv (memory s) (write_queue_head s) (write_queue_tail s) (write_queue_length s) (threads s) xs ∧
        log_inv (threads s) (enqueued s) (dequeued s) (dispatched s) (discarded s) xs.

Definition good (o : outcome (sys F)) : Prop :=
  match o with Blocked => True | Undefined => False | Next s => inv s end.

(** The conditions on a step that only changes the program counter and the
    mutex. *)
Record control s p p' : Prop := {
  ct_owned : owned p' = owned p;
  ct_flying : flying p' = flying p;
  ct_ok : pc_ok (memory s) p';
  ct_worker : is_worker p' = is_worker p;
  ct_wait : write_loop s = false ∨ is_Some (write_queue_head s) → is_wait p' = false;
  ct_running : write_loop s = true → is_exit p' = false ∧ stopped p' = false;
  ct_joined : joined p' = true → joined p = true ∨ Forall (λ p, settled p = true) (threads s);
  ct_settled : settled p = true → settled p' = true;
}.

Lemma inv_control s t p p' o :
  inv s → threads s !! t = Some p → control s p p' → lock_inv o (<[t := p']> (threads s)) →
  inv (set_pc (set_lock s o) t p').
Proof.
  intros (_ & Hsc & xs & Hmem & Hlog) Ht [] Hlk. split; [done|]. split.
  - eapply sched_step; eauto.
  - exists xs. split; [by eapply mem_same|by eapply log_same].
Qed.

Lemma move_good s t p p' :
  inv s → threads s !! t = Some p → control s p p' → holds p' = holds p → good (Next (set_pc s t p')).
Proof.
  intros Hinv Ht Hc Hh. pose proof Hinv as (Hlk & _).
  apply (inv_control s t p p' (write_lock s)); try done. by eapply lock_same.
Qed.

Lemma lock_good s t p p' :
  inv s → threads s !! t = Some p → control s p p' → holds p = false → holds p' = true →
  good (pthread_mutex_lock s t p').
Proof.
  intros Hinv Ht Hc Hp Hp'. pose proof Hinv as (Hlk & _). unfold pthread_mutex_lock.
  destruct (write_lock s) as [t'|] eqn:El.
  - destruct (Nat.eqb_spec t' t) as [->|]; [|done]. by eapply lock_not_owner in Hlk.
  - eapply inv_control; try done. by eapply lock_acquire.
Qed.

Lemma unlock_good s t p p' :
  inv s → threads s !! t = Some p → control s p p' → holds p = true → holds p' = false →
  good (pthread_mutex_unlock s t p').
Proof.
  intros Hinv Ht Hc Hp Hp'. pose proof Hinv as (Hlk & _). unfold pthread_mutex_unlock.
  pose proof (lock_owner _ _ _ _ Hlk Ht Hp) as Ho. rewrite bool_decide_true by done.
  eapply inv_control; try done. eapply lock_release; [|done..]. by rewrite <-Ho.
Qed.

Lemma inv_pc_ok s t p : inv s → threads s !! t = Some p → pc_ok (memory s) p.
Proof. intros (_ & _ & xs & [] & _) Ht. by eapply Forall_lookup_2. Qed.

Lemma inv_running s t p :
  inv s → threads s !! t = Some p → is_exit p = true ∨ stopped p = true → write_loop s = false.
Proof.
  intros (_ & [] & _) Ht Hp. destruct (write_loop s); [|done].
  destruct (Forall_lookup_2 _ _ _ _ (sc_running0 eq_refl) Ht). destruct Hp; congruence.
Qed.

Ltac control := split; try done; simpl; try (by auto); try (intros; naive_solver).

Lemma create_good s t x :
  inv s → threads s !! t = Some P_idle → good (enqueue_step s t P_idle (Enqueue x)).
Proof.
  intros (Hlk & Hsc & xs & Hmem & Hlog) Ht. simpl. split; [by eapply lock_same|]. split.
  - eapply sched_step; try done; simpl; naive_solver.
  - exists xs. split; [|by eapply log_same]. eapply mem_create; try done. apply not_elem_of_dom, is_fresh.
Qed.

Lemma link_body_spec s t q x T xs :
  mem_inv (memory s) (write_queue_head s) (write_queue_tail s) (write_queue_length s) T xs →
  T !! t = Some (P_link q x (Some q) 1) →
  ∃ m hd tl len, link_body s (Some q) (Some q) 1 = Some (set_queue s m hd tl len) ∧
    mem_inv m hd tl len (<[t := P_unlock]> T) (xs ++ [(q, x)]).
Proof.
  intros Hmem Ht. pose proof Hmem as [Hs Htl _ _ _]. unfold link_body.
  destruct xs as [|[b y] xs _] using rev_ind.
  - simpl in Htl. rewrite Htl in *. eexists _, _, _, _. split; [done|]. by eapply mem_link_empty.
  - rewrite last_snoc in Htl. simpl in Htl. rewrite Htl in *.
    destruct (seg_lookup _ _ _ _ b y Hs) as [n Hn]; [set_solver|].
    destruct (set_next (memory s) b (Some q)) as [m'|] eqn:E; [|unfold set_next in E; by rewrite Hn in E].
    eexists _, _, _, _. split; [done|]. by eapply mem_link_behind.
Qed.

Lemma link_good s t q x tl num sel :
  inv s → threads s !! t = Some (P_link q x tl num) →
  good (enqueue_step s t (P_link q x tl num) (Signal sel)).
Proof.
  intros Hinv Ht. pose proof (inv_pc_ok _ _ _ Hinv Ht) as (Hq & -> & ->).
  destruct Hinv as (Hlk & Hsc & xs & Hmem & Hlog). unfold enqueue_step.
  destruct (signal_ok sel (threads s)) eqn:Hsig; [|done].
  assert (Ht' : wake sel (threads s) !! t = Some (P_link q x (Some q) 1)).
  { rewrite lookup_wake, Ht. simpl. unfold wake_pc. by rewrite andb_false_r. }
  apply (mem_wake _ _ _ _ _ _ sel) in Hmem.
  destruct (link_body_spec s t q x _ _ Hmem Ht') as (m & hd & tl & len & -> & Hm).
  split; [|split; [|exists (xs ++ [(q, x)]); split]]; simpl.
  - eapply lock_same; [by apply lock_wake|done..].
  - rewrite app_nil_r. eapply (sched_step _ (is_Some hd)); [by eapply sched_signal|done..].
  - done.
  - rewrite !app_nil_r. eapply log_same; [|done..]. by apply log_link, log_wake.
Qed.

Lemma enqueue_good s t p a : inv s → threads s !! t = Some p → good (enqueue_step s t p a).
Proof.
  intros Hinv Ht. pose proof (inv_pc_ok _ _ _ Hinv Ht) as Hok.
  destruct p; try done; destruct a; try done.
  - by apply create_good.
  - simpl in Hok. unfold enqueue_step, traversal. rewrite (count_single _ _ _ _ Hok). simpl.
    by eapply lock_good.
  - by apply link_good.
  - by eapply unlock_good.
Qed.

Lemma unlink_good s t :
  inv s → threads s !! t = Some W_test → is_Some (write_queue_head s) → good (write_step s t W_test Run).
Proof.
  intros (Hlk & Hsc & xs & Hmem & Hlog) Ht [q Hq]. unfold write_step, unlink_body. rewrite Hq.
  pose proof Hmem as [Hs Htl Hlen _ _]. rewrite (seg_head _ _ _ _ Hs) in Hq.
  destruct xs as [|[q' x] xs]; [done|]. injection Hq as ->.
  pose proof Hs as (Hhd & n & Hn & Hs'). rewrite Hn. simpl.
  assert (discarded s = []) as Hd.
  { destruct (discarded s) eqn:E; [done|]. destruct Hsc as [_ _ _ _ Hl].
    pose proof (Forall_lookup_2 _ _ _ _ (Hl ltac:(done)) Ht). done. }
  assert (log_inv (<[t := W_unlock q x]> (threads s)) (enqueued s ++ []) (dequeued s ++ [x])
            (dispatched s ++ []) (discarded s ++ []) xs).
  { rewrite !app_nil_r, Hd in *. by eapply log_unlink. }
  pose proof (mem_unlink _ _ _ _ _ _ t W_test q x n Hmem Ht eq_refl Hn) as Hm.
  assert (sched_inv (write_loop s) (is_Some n) (discarded s ++ [] ≠ []) (<[t := W_unlock q x]> (threads s))).
  { rewrite app_nil_r. eapply sched_step; try done. }
  assert (lock_inv (write_lock s) (<[t := W_unlock q x]> (threads s))) by (by eapply lock_same).
  destruct n as [n|].
  - simpl. split; [done|]. split; [done|]. exists xs. done.
  - assert (xs = []) as -> by (by destruct xs as [|[]]; [|destruct Hs']).
    simpl in Hlen. rewrite (proj2 (Z.eqb_eq _ _)) by lia. simpl.
    split; [done|]. split; [done|]. exists []. done.
Qed.

Lemma take_good s t q x :
  inv s → threads s !! t = Some (W_take q x) → good (write_step s t (W_take q x) Run).
Proof.
  intros Hinv Ht. pose proof (inv_pc_ok _ _ _ Hinv Ht) as [n Hn]. unfold write_step, node_free. rewrite Hn.
  destruct Hinv as (Hlk & Hsc & xs & Hmem & Hlog). simpl.
  split; [by eapply lock_same|]. split; [by eapply sched_step|].
  exists xs. split; [by eapply mem_free|by eapply log_same].
Qed.

Lemma dispatch_good s t x :
  inv s → threads s !! t = Some (W_dispatch x) → good (write_step s t (W_dispatch x) Run).
Proof.
  intros (Hlk & Hsc & xs & Hmem & Hlog) Ht. simpl.
  split; [by eapply lock_same|]. split; [simpl; rewrite app_nil_r; by eapply sched_step|].
  exists xs. split; [by eapply mem_same|]. simpl. rewrite !app_nil_r. by eapply log_dispatch.
Qed.

Lemma write_good s t p a : inv s → threads s !! t = Some p → good (write_step s t p a).
Proof.
  intros Hinv Ht. pose proof (inv_pc_ok _ _ _ Hinv Ht) as Hok.
  destruct p; try done; destruct a; try done.
  - eapply move_good; [done..| |by destruct (write_loop s)].
    control; destruct (write_loop s); naive_solver.
  - by eapply lock_good.
  - destruct (write_queue_head s) eqn:E; [by apply unlink_good|]. simpl. rewrite E.
    destruct (write_loop s) eqn:El.
    + eapply unlock_good; try done. split; try done. rewrite E, El. intros [|[]]; done.
    + by eapply move_good.
  - by eapply move_good.
  - by eapply lock_good.
  - by eapply unlock_good.
  - by eapply unlock_good.
  - by apply take_good.
  - by apply dispatch_good.
Qed.

Lemma settled_forallb T :
  forallb (λ p, negb (is_worker p) || is_exit p) T = true ↔ Forall (λ p, settled p = true) T.
Proof. rewrite forallb_forall, list.Forall_forall. by setoid_rewrite list_elem_of_In. Qed.

Lemma flag_good s t : inv s → threads s !! t = Some S_flag → good (stop_step s t S_flag Run).
Proof.
  intros (Hlk & Hsc & xs & Hmem & Hlog) Ht.
  assert (Ht' : wake (λ _, true) (threads s) !! t = Some S_flag) by (rewrite lookup_wake, Ht; done).
  split; [eapply lock_same; [by apply lock_wake|done..]|].
  split; [eapply sched_step; [by eapply sched_broadcast|done..]|].
  exists xs. split; [eapply mem_same; [by apply mem_wake|done..]|].
  eapply log_same; [by apply log_wake|done..].
Qed.

Lemma drain_good s t : inv s → threads s !! t = Some S_drain → good (stop_step s t S_drain Run).
Proof.
  intros Hinv Ht. pose proof (inv_running _ _ _ Hinv Ht (or_intror eq_refl)) as Hloop.
  destruct Hinv as (Hlk & Hsc & xs & Hmem & Hlog). simpl. unfold drain_body.
  edestruct (mem_drain _ _ _ _ _ _ t S_drain S_unlock_end Hmem Ht) as (m' & -> & Hm); [done..|]. simpl.
  assert (Forall (λ p, settled p = true) (threads s)) as Hset.
  { destruct Hsc as [_ _ _ Hj _]. apply Hj, existsb_exists.
    exists S_drain. split; [by eapply list_elem_of_In, list_elem_of_lookup_2|done]. }
  split; [by eapply lock_same|]. split; simpl.
  - rewrite Hloop in *. destruct Hsc as [Hw _ _ _ _].
    assert (Forall (λ p, settled p = true) (<[t := S_unlock_end]> (threads s))) by (by apply Forall_insert).
    split; try done; try (by intros []%is_Some_None). intros _. apply Forall_insert; auto.
  - exists []. split; [done|]. rewrite !app_nil_r. eapply log_same; [|done..]. by apply log_drain.
Qed.

Lemma stop_good s t p a : inv s → threads s !! t = Some p → good (stop_step s t p a).
Proof.
  intros Hinv Ht.
  assert (Hst : stopped p = true → write_loop s = false) by (intros E; eapply inv_running; eauto).
  destruct p; try done; destruct a; try done.
  - by eapply lock_good.
  - by apply flag_good.
  - eapply unlock_good; try done. control; rewrite Hst by done; naive_solver.
  - simpl. destruct (forallb _ _) eqn:E; [|done]. apply settled_forallb in E.
    eapply move_good; try done. control; rewrite Hst by done; naive_solver.
  - eapply lock_good; try done. control; rewrite Hst by done; naive_solver.
  - by apply drain_good.
  - eapply unlock_good; try done. control; rewrite Hst by done; naive_solver.
Qed.

Lemma step_good s t a : inv s → good (step s t a).
Proof.
  intros Hinv. unfold step. destruct (threads s !! t) as [p|] eqn:Ht; [|done].
  destruct p; first [by apply enqueue_good|by apply write_good|by apply stop_good].
Qed.

Lemma init_inv T : forallb initial_pc T = true → inv (init T).
Proof.
  rewrite forallb_forall. intros H.
  assert (Forall (λ p : pc F, p = P_idle ∨ p = W_loop ∨ p = S_start) T) as HT.
  { apply list.Forall_forall. intros p Hp%list_elem_of_In%H. by destruct p; auto. }
  assert (T ≫= owned = [] ∧ T ≫= flying = []) as [Ho Hf].
  { clear H. induction HT as [|p T Hp _ [IH1 IH2]]; [done|]. simpl.
    destruct Hp as [->|[->| ->]]; auto. }
  assert (∀ P : pc F → Prop, P P_idle → P W_loop → P S_start → Forall P T) as HP.
  { intros P ???. eapply list.Forall_impl; [exact HT|]. naive_solver. }
  split; [|split].
  - intros t. split; [done|]. intros (p & Ht & Hp). simpl in Ht.
    pose proof (Forall_lookup_2 _ _ _ _ HT Ht). naive_solver.
  - split; simpl; try done.
    + intros _. apply HP; done.
    + intros (p & Hin%list_elem_of_In & Hp)%existsb_exists.
      pose proof (proj1 (list.Forall_forall _ _) HT p Hin). naive_solver.
  - exists []. split; split; simpl; try done.
    + rewrite Ho. constructor.
    + by apply HP.
    + by rewrite Hf.
Qed.

Lemma bind_settled T : Forall (λ p, settled p = true) T → T ≫= flying = [].
Proof. induction 1 as [|p T Hp _ IH]; [done|]. simpl. change (flying p ++ (T ≫= flying) = []). rewrite IH. by destruct p. Qed.

Lemma reachable_inv s : reachable s → inv s.
Proof.
  induction 1 as [T H|s t a s' _ IH E]; [by apply init_inv|].
  pose proof (step_good s t a IH) as Hg. by rewrite E in Hg.
Qed.

(** The families in the queue, in order. *)
Definition contents s : option (list F) :=
  snd <$> drain_loop (traversal (memory s)) (memory s) (write_queue_head s).

Lemma contents_seg s T xs :
  mem_inv (memory s) (write_queue_head s) (write_queue_tail s) (write_queue_length s) T xs →
  contents s = Some xs.*2.
Proof.
  intros [Hs _ _ Hnd _]. apply list.NoDup_app in Hnd as (_ & _ & Hnd). unfold contents.
  destruct (drain_spec (traversal (memory s)) (memory s) (write_queue_head s) xs) as (m' & -> & _); [done..| |done].
  pose proof (seg_length _ _ _ _ Hs Hnd). unfold traversal. lia.
Qed.

(** A thread that is not waiting for its caller to start something. *)
Definition resting p : bool :=
  match p with P_idle | S_start | W_wait | W_exit | S_done => true | _ => false end.
Definition can_move s : Prop :=
  ∃ t p a s', threads s !! t = Some p ∧ resting p = false ∧ step s t a = Next s'.

Lemma signal_all_ok T : signal_ok (λ _, true) T = true.
Proof.
  unfold signal_ok. destruct (existsb is_wait T) eqn:E; [|done]. simpl. rewrite <-E. clear E.
  induction T as [|p T IH]; [done|]. rewrite imap_cons. simpl. f_equal. apply IH.
Qed.

Lemma move_if s t p a :
  inv s → threads s !! t = Some p → resting p = false → step s t a ≠ Blocked → can_move s.
Proof.
  intros Hinv Ht Hp Hb. pose proof (step_good s t a Hinv) as Hg.
  destruct (step s t a) as [| |s'] eqn:E; [done..|]. by exists t, p, a, s'.
Qed.

(** Whoever holds the mutex can go on. *)
Lemma owner_moves s t : inv s → write_lock s = Some t → can_move s.
Proof.
  intros Hinv Ho. pose proof Hinv as (Hlk & _). pose proof Ho as (p & Ht & Hp)%Hlk.
  pose proof (inv_pc_ok _ _ _ Hinv Ht) as Hok.
  destruct p as [| |q x tl num| | | | | | | | | | | | | | | | | | |]; try done;
    [apply (move_if s t _ (Signal (λ _, true)) Hinv Ht eq_refl)|apply (move_if s t _ Run Hinv Ht eq_refl)..];
    unfold step; rewrite Ht; simpl; unfold pthread_mutex_unlock; rewrite ?bool_decide_true by done; try done.
  - rewrite signal_all_ok. by destruct (link_body _ _ _ _).
  - destruct (write_queue_head s); [|by destruct (write_loop s)].
    destruct (memory s !! p); [|done]. by destruct (unlink_body _ _).
  - by destruct (drain_body s).
Qed.

(** A thread that is neither at rest nor joining can go on, or the owner of
    the mutex can. *)
Lemma thread_moves s t p :
  inv s → threads s !! t = Some p → resting p = false → p ≠ S_join → can_move s.
Proof.
  intros Hinv Ht Hp Hj. destruct (write_lock s) as [o|] eqn:Ho; [by eapply owner_moves|].
  pose proof (inv_pc_ok _ _ _ Hinv Ht) as Hok. pose proof Hinv as (Hlk & _).
  assert (holds p = false) as Hh.
  { destruct (holds p) eqn:E; [|done]. pose proof (lock_owner _ _ _ _ Hlk Ht E). congruence. }
  apply (move_if s t p Run Hinv Ht Hp). unfold step. rewrite Ht.
  destruct p; try done; simpl; unfold pthread_mutex_lock; rewrite ?Ho; try done.
  - simpl in Hok. destruct (memory s !! q) as [n|]; [|done]. simpl. destruct (count_loop _ _ _ _ _) as [[]|]; [|done].
    by case_match.
  - destruct (memory s !! q); [|done]. by destruct (node_free _ _).
Qed.

Definition is_join p : bool := match p with S_join => true | _ => false end.

(** [pthread_join] does not block forever. *)
Lemma join_moves s t :
  inv s → threads s !! t = Some S_join →
  Forall (λ p, resting p = true ∨ p = S_join) (threads s) → can_move s.
Proof.
  intros Hinv Ht Hall. pose proof (inv_running _ _ _ Hinv Ht (or_intror eq_refl)) as El.
  pose proof Hinv as (_ & [Hw _ _ _ _] & _). specialize (Hw El).
  apply (move_if s t _ Run Hinv Ht eq_refl). unfold step. rewrite Ht. simpl.
  rewrite (proj2 (settled_forallb _)); [done|]. apply list.Forall_forall. intros p Hp.
  pose proof (proj1 (list.Forall_forall _ _) Hall p Hp) as Hr.
  pose proof (proj1 (list.Forall_forall _ _) Hw p Hp) as Hnw. destruct p; naive_solver.
Qed.

Lemma rest_or_moves s : inv s → can_move s ∨ Forall (λ p, resting p = true) (threads s).
Proof.
  intros Hinv. destruct (existsb (λ p, negb (resting p) && negb (is_join p)) (threads s)) eqn:E.
  - left. apply existsb_exists in E as (p & [t Ht]%list_elem_of_In%list_elem_of_lookup & Hp). breflect.
    eapply thread_moves; eauto. by intros ->.
  - assert (Forall (λ p, resting p = true ∨ p = S_join) (threads s)) as Hall.
    { apply list.Forall_forall. intros p Hp.
      destruct (resting p) eqn:Er; [by left|right]. destruct (is_join p) eqn:Ej; [by destruct p|].
      rewrite <-not_true_iff_false in E. destruct E. apply existsb_exists. exists p.
      split; [by apply list_elem_of_In|]. by rewrite Er, Ej. }
    destruct (existsb is_join (threads s)) eqn:Ej.
    + left. apply existsb_exists in Ej as (p & [t Ht]%list_elem_of_In%list_elem_of_lookup & Hp).
      destruct p; try done. by eapply join_moves.
    + right. apply list.Forall_forall. intros p Hp.
      destruct (proj1 (list.Forall_forall _ _) Hall p Hp) as [?| ->]; [done|].
      rewrite <-not_true_iff_false in Ej. destruct Ej. apply existsb_exists. exists S_join.
      split; [by apply list_elem_of_In|done].
Qed.

(** At rest, a waiting write thread means an empty queue. *)
Lemma rest_waiting s :
  inv s → Forall (λ p, resting p = true) (threads s) → existsb is_wait (threads s) = true →
  write_loop s = true ∧ contents s = Some [].
Proof.
  intros (_ & [Hw Ha Hr _ _] & xs & Hmem & _) Hall (p & Hp & Hpw)%existsb_exists.
  assert (write_loop s = true) as El.
  { destruct (write_loop s); [done|]. specialize (Hw eq_refl). rewrite list.Forall_forall in Hw.
    apply list_elem_of_In, Hw in Hp. congruence. }
  split; [done|]. rewrite (contents_seg _ _ _ Hmem). destruct Hmem as [Hs _ _ _ _].
  destruct xs as [|[q x] xs]; [done|]. exfalso. destruct Hs as [Hhd _].
  assert (existsb awake (threads s) = true) as (p' & Hp' & Haw)%existsb_exists.
  { apply Ha; [by rewrite Hhd|]. apply existsb_exists. exists p. split; [done|]. by destruct p. }
  apply list_elem_of_In in Hp'. specialize (Hr El). rewrite list.Forall_forall in Hr, Hall.
  specialize (Hr p' Hp'). specialize (Hall p' Hp'). destruct p'; naive_solver.
Qed.
End invariant.

Lemma reachable_run {F} (s s' : sys F) l : reachable s → run_schedule s l = Next s' → reachable s'.
Proof.
  revert s; induction l as [|[t a] l IH]; simpl; intros s Hs; [by intros [= <-]|].
  destruct (step s t a) as [| |s1] eqn:E; [done..|]. eauto using reach_step.
Qed.

(** C3. However the threads interleave, the code of the write queue never
    runs into undefined behaviour (no bad address, no failing assert, no
    misuse of the mutex) and at most one thread is in a critical section.
    [write_queue_length] is the number of families in the queue.  The
    families leave the queue in the order they entered it: everything enqueued
    is what was dequeued, then what the shutdown discarded, then what is in
    the queue; and what was dequeued was dispatched, or a write thread is
    about to dispatch it: nothing is lost or duplicated. *)
Theorem write_queue_fifo {F} (s : sys F) :
  reachable s →
  (∀ t a, step s t a ≠ Undefined) ∧
  (∀ t t' p p', threads s !! t = Some p → threads s !! t' = Some p' →
     holds p = true → holds p' = true → t = t') ∧
  ∃ q, contents s = Some q ∧
    write_queue_length s = Z.of_nat (length q) ∧
    enqueued s = dequeued s ++ discarded s ++ q ∧
    dequeued s ≡ₚ dispatched s ++ (threads s ≫= flying).
Proof.
  intros Hinv%reachable_inv. split; [|split].
  - intros t a E. pose proof (step_good s t a Hinv) as Hg. by rewrite E in Hg.
  - destruct Hinv as (Hlk & _). intros t t' p p' Ht Ht' Hp Hp'.
    pose proof (lock_owner _ _ _ _ Hlk Ht Hp). pose proof (lock_owner _ _ _ _ Hlk Ht' Hp'). congruence.
  - destruct Hinv as (_ & _ & xs & Hmem & []). exists xs.*2. split; [by eapply contents_seg|].
    destruct Hmem. rewrite length_fmap. done.
Qed.

(** C6. The system does not deadlock and no wakeup is lost: in every
    reachable state a thread that has something to do can go on, or every
    thread is at rest; and when a write thread is left waiting, the queue is
    empty and the daemon is running (so a shutdown never waits for a sleeping
    write thread, and no family stays in the queue while the write threads
    sleep).  Where no write thread is left, families may stay in the queue. *)
Theorem write_queue_progress {F} (s : sys F) :
  reachable s →
  can_move s ∨
  (forallb resting (threads s) = true ∧
   (existsb is_wait (threads s) = true → write_loop s = true ∧ contents s = Some [])).
Proof.
  intros Hinv%reachable_inv. destruct (rest_or_moves s Hinv) as [?|Hall]; [by left|right].
  split; [|by apply rest_waiting]. apply forallb_forall. intros p Hp%list_elem_of_In.
  exact (proj1 (list.Forall_forall _ _) Hall p Hp).
Qed.

(** C32. When [stop_write_threads] has returned, every write thread has
    exited, every family it took from the queue has been dispatched, and
    every family ever enqueued was dispatched, or discarded by the shutdown,
    or was enqueued after the shutdown emptied the queue. *)
Theorem stop_write_threads_spec {F} (s : sys F) :
  reachable s → S_done ∈ threads s →
  write_loop s = false ∧
  Forall (λ p, is_worker p = true → p = W_exit) (threads s) ∧
  dequeued s ≡ₚ dispatched s ∧
  ∃ late, contents s = Some late ∧ enqueued s ≡ₚ dispatched s ++ discarded s ++ late.
Proof.
  intros Hinv%reachable_inv Hd. pose proof Hd as [t Ht]%list_elem_of_lookup.
  pose proof (inv_running _ _ _ Hinv Ht (or_intror eq_refl)) as El.
  destruct Hinv as (_ & [_ _ _ Hj _] & xs & Hmem & [Hfifo Hfly]).
  assert (Forall (λ p, settled p = true) (threads s)) as Hset.
  { apply Hj, existsb_exists. exists S_done. split; [by apply list_elem_of_In|done]. }
  rewrite (bind_settled _ Hset), app_nil_r in Hfly.
  split; [done|]. split; [|split; [done|]].
  - eapply list.Forall_impl; [exact Hset|]. intros p Hp Hpw. by destruct p.
  - exists xs.*2. split; [by eapply contents_seg|]. by rewrite Hfifo, Hfly.
Qed.

(** A dispatching thread, two write threads and the shutdown: two families
    are enqueued, one is written, the other one is left at shutdown. *)
Definition demo_schedule : list (nat * action Z) :=
  [(1, Run); (1, Run); (1, Run);
   (0, Enqueue 7%Z); (0, Run); (0, Signal (λ t, t =? 1)%nat); (0, Run);
   (1, Run); (1, Run); (1, Run); (1, Run); (1, Run);
   (0, Enqueue 8%Z); (0, Run); (0, Signal (λ _, false)); (0, Run);
   (3, Run); (3, Run); (3, Run); (2, Run); (1, Run); (3, Run); (3, Run); (3, Run); (3, Run)]%nat.
Definition demo (n : nat) : sys Z :=
  match run_schedule (init [P_idle; W_loop; W_loop; S_start]) (take n demo_schedule) with
  | Next s => s
  | _ => init []
  end.

Lemma demo_reachable n : is_next (run_schedule (init [P_idle; W_loop; W_loop; S_start]) (take n demo_schedule)) = true → reachable (demo n).
Proof.
  unfold demo. destruct (run_schedule _ _) as [| |s] eqn:E; try done. intros _.
  eapply reachable_run; [|exact E]. by apply reach_init.
Qed.

Lemma write_queue_fifo_witness :
  (∀ t a, step (demo 14) t a ≠ Undefined) ∧
  ∃ q, contents (demo 14) = Some q ∧ enqueued (demo 14) = dequeued (demo 14) ++ discarded (demo 14) ++ q.
Proof.
  destruct (write_queue_fifo (demo 14)) as (H & _ & q & ? & _ & ? & _); [by apply demo_reachable; vm_compute|].
  split; [exact H|]. by exists q.
Defined.

Lemma write_queue_progress_witness : can_move (demo 3) ∨ contents (demo 3) = Some [].
Proof.
  destruct (write_queue_progress (demo 3)) as [H|[_ H]]; [by apply demo_reachable; vm_compute|by left|].
  right. apply H. by vm_compute.
Defined.

Lemma stop_write_threads_spec_witness :
  dispatched (demo 25) = [7] ∧ discarded (demo 25) = [8] ∧ dequeued (demo 25) ≡ₚ dispatched (demo 25).
Proof.
  split; [by vm_compute|]. split; [by vm_compute|].
  destruct (stop_write_threads_spec (demo 25)) as (_ & _ & H & _); [by apply demo_reachable; vm_compute| |exact H].
  apply list_elem_of_In. vm_compute. auto.
Defined.
