(* ===== verification/Plugin.v ===== *)
(** * The plugin registry and the dispatch of callbacks (src/daemon/plugin.c)

    The lists of callbacks ([list_init], [list_write], ...) are linked lists of
    LList.v.  A registered callback owns its user data: [freed] records the
    user data handed to a [free_func].  Function pointers and user data are
    parameters ([CB], [D]); what a callback returns is a function argument of
    the operation that calls it, and the calls made are returned as a list.
    The plugin context of the running thread is an explicit argument. *)

From Stdlib Require Import Ascii String.
From stdpp Require Import base gmap list numbers option fin_maps fin_map_dom.
From S2P Require Import Prelude LList.
From S2P Require Double.

Record plugin_ctx_t : Type := mk_ctx {
  ctx_name : option cstr;
  ctx_interval : Z;
  ctx_flush_interval : Z;
  ctx_flush_timeout : Z;
}.

(** [user_data_t]: a pointer and whether it has a [free_func]. *)
Record user_data_t (D : Type) : Type := mk_ud { ud_data : option D; ud_free_func : bool }.
#[global] Arguments mk_ud {_} _ _.
#[global] Arguments ud_data {_} _.
#[global] Arguments ud_free_func {_} _.

Record callback_func_t (CB D : Type) : Type := mk_cf {
  cf_callback : CB;
  cf_udata : user_data_t D;
  cf_ctx : plugin_ctx_t;
}.
#[global] Arguments mk_cf {_ _} _ _ _.
#[global] Arguments cf_callback {_ _} _.
#[global] Arguments cf_udata {_ _} _.
#[global] Arguments cf_ctx {_ _} _.

Record registry (CB D : Type) : Type := mk_reg {
  r_mem : mem (cstr * callback_func_t CB D);
  r_list : option llist_t;
  freed : list D;
}.
#[global] Arguments mk_reg {_ _} _ _ _.
#[global] Arguments r_mem {_ _} _.
#[global] Arguments r_list {_ _} _.
#[global] Arguments freed {_ _} _.

Section registry.
Context {CB D : Type}.
Implicit Types (r : registry CB D) (cf : callback_func_t CB D).

(** The data that [free_userdata] gives to [free_func]. *)
Definition free_userdata (ud : user_data_t D) : list D :=
  match ud_data ud with Some d => if ud_free_func ud then [d] else [] | None => [] end.

Definition add_freed r (l : list D) : registry CB D := mk_reg (r_mem r) (r_list r) (freed r ++ l).

Definition destroy_callback r cf : registry CB D := add_freed r (free_userdata (cf_udata cf)).

(** register_callback, once the list exists. *)
Definition register_in r (l : llist_t) (name : cstr) cf : M (Z * registry CB D) :=
  let* ok := alloc in
  if negb ok then ret (-1, destroy_callback r cf) else
  let* le := mopt (llist_search (r_mem r) (Some l) name) in
  match le with
  | None =>
      let* ok := alloc in
      match llentry_create ok (r_mem r) name cf with
      | (None, _) => ret (-1, destroy_callback r cf)
      | (Some e, m) =>
          let* '(m, l) := mopt (llist_append m l e) in
          ret (0, mk_reg m (Some l) (freed r))
      end
  | Some e =>
      let* n := mopt (r_mem r !! e) in
      let m := <[e := mk_node ((payload n).1, cf) (next n)]> (r_mem r) in
      ret (0, destroy_callback (mk_reg m (Some l) (freed r)) (payload n).2)
  end.

Definition register_callback r (name : cstr) cf : M (Z * registry CB D) :=
  match r_list r with
  | Some l => register_in r l name cf
  | None =>
      let* ok := alloc in
      match llist_create ok with
      | None => ret (-1, destroy_callback r cf)
      | Some l => register_in (mk_reg (r_mem r) (Some l) (freed r)) l name cf
      end
  end.

Definition create_register_callback r (ctx : plugin_ctx_t) (name : option cstr) (callback : option CB)
    (ud : option (user_data_t D)) : M (Z * registry CB D) :=
  match name, callback with
  | Some name, Some callback =>
      let* ok := alloc in
      if negb ok then ret (ENOMEM, add_freed r (match ud with Some ud => free_userdata ud | None => [] end)) else
      let udata := match ud with Some ud => ud | None => mk_ud None false end in
      register_callback r name (mk_cf callback udata ctx)
  | _, _ => ret (EINVAL, r)
  end.

Definition plugin_unregister r (name : cstr) : M (Z * registry CB D) :=
  match r_list r with
  | None => ret (-1, r)
  | Some l =>
      let* le := mopt (llist_search (r_mem r) (Some l) name) in
      match le with
      | None => ret (-1, r)
      | Some e =>
          let* '(m, l) := mopt (llist_remove (r_mem r) l e) in
          let* n := mopt (m !! e) in
          let r := destroy_callback (mk_reg m (Some l) (freed r)) (payload n).2 in
          let* m := mopt (llentry_destroy (r_mem r) e) in
          ret (0, mk_reg m (r_list r) (freed r))
      end
  end.

(** The loop of [destroy_all_callbacks] leaves the entries to [llist_destroy]. *)
Fixpoint destroy_values (fuel : nat) r (le : option ptr) : M (registry CB D) :=
  match le with
  | None => ret r
  | Some e =>
      match fuel with
      | O => crash
      | S fuel => let* n := mopt (r_mem r !! e) in destroy_values fuel (destroy_callback r (payload n).2) (next n)
      end
  end.

Definition destroy_all_callbacks r : M (registry CB D) :=
  match r_list r with
  | None => ret r
  | Some l =>
      let* r := destroy_values (traversal (r_mem r)) r (l_head l) in
      let* m := mopt (llist_destroy (r_mem r) l) in
      ret (mk_reg m None (freed r))
  end.

(** ** Dispatch *)

(** The loops [le = llist_head (list); while (le != NULL) { ...; le = le->next }]
    with a body that may stop the loop. *)
Fixpoint each {S : Type} (fuel : nat) r (le : option ptr) (body : S → cstr → callback_func_t CB D → S * bool)
    (s : S) : M S :=
  match le with
  | None => ret s
  | Some e =>
      match fuel with
      | O => crash
      | S fuel =>
          let* n := mopt (r_mem r !! e) in
          match body s (payload n).1 (payload n).2 with
          | (s, true) => each fuel r (next n) body s
          | (s, false) => ret s
          end
      end
  end.

Definition each_of {S : Type} r (body : S → cstr → callback_func_t CB D → S * bool) (s : S) : M S :=
  each (traversal (r_mem r)) r (llist_head (r_list r)) body s.

(** A call: the name of the callback and the plugin context it runs in. *)
Definition call : Type := cstr * plugin_ctx_t.

Definition with_name (ctx : plugin_ctx_t) (nm : option cstr) : plugin_ctx_t :=
  mk_ctx nm (ctx_interval ctx) (ctx_flush_interval ctx) (ctx_flush_timeout ctx).

(** plugin_write (plugin, fam); [write] is what a callback returns for the
    family. *)
Definition plugin_write r (ctx : plugin_ctx_t) (write : callback_func_t CB D → Z) (plugin : option cstr) :
    M (Z * list call) :=
  match r_list r with
  | None => ret (ENOENT, [])
  | Some _ =>
      match plugin with
      | None =>
          let* '(success, failure, calls) :=
            each_of r (λ '(success, failure, calls) key cf,
              let calls := calls ++ [(key, with_name ctx (ctx_name (cf_ctx cf)))] in
              (if write cf =? 0 then (success + 1, failure, calls) else (success, failure + 1, calls), true))
              (0, 0, []) in
          ret (if (success =? 0) && negb (failure =? 0) then -1 else 0, calls)
      | Some plugin =>
          let* found :=
            each_of r (λ _ key cf, if strcasecmp plugin key =? 0 then (Some (key, cf), false) else (None, true)) None in
          match found with
          | None => ret (ENOENT, [])
          | Some (key, cf) => ret (write cf, [(key, ctx)])
          end
      end
  end.

(** plugin_flush (plugin, timeout, identifier): the callbacks are called in
    their own contexts, their results are ignored. *)
Definition plugin_flush r (plugin : option cstr) : M (Z * list call) :=
  match r_list r with
  | None => ret (0, [])
  | Some _ =>
      let* calls :=
        each_of r (λ calls key cf,
          (match plugin with
           | Some plugin => if strcmp plugin key =? 0 then calls ++ [(key, cf_ctx cf)] else calls
           | None => calls ++ [(key, cf_ctx cf)]
           end, true)) [] in
      ret (0, calls)
  end.

(** plugin_dispatch_missing (fam): a callback that returns a non-zero status
    ends the loop; a negative one is the result. *)
Definition plugin_dispatch_missing r (missing : callback_func_t CB D → Z) : M (Z * list call) :=
  match r_list r with
  | None => ret (0, [])
  | Some _ =>
      each_of r (λ '(st, calls) key cf,
        let calls := calls ++ [(key, cf_ctx cf)] in
        let status := missing cf in
        if negb (status =? 0) then ((if status <? 0 then status else 0, calls), false) else ((0, calls), true))
        (0, [])
  end.

(** The callback part of plugin_shutdown_all: the next entry is fetched
    before the callback runs. *)
Definition shutdown_callbacks r (shutdown : callback_func_t CB D → Z) : M (Z * list call) :=
  each_of r (λ '(st, calls) key cf,
    ((if shutdown cf =? 0 then st else -1, calls ++ [(key, cf_ctx cf)]), true)) (0, []).
End registry.

(** ** The registry as an association list with distinct names *)

Section registry_spec.
Context {CB D : Type}.
Implicit Types (r : registry CB D) (cf : callback_func_t CB D) (kv : list (cstr * callback_func_t CB D))
  (xs : list (ptr * (cstr * callback_func_t CB D))).

(** The entries in memory are exactly those of the list. *)
Definition entries r xs : Prop :=
  match r_list r with
  | None => xs = [] ∧ r_mem r = ∅
  | Some l => lrepr (r_mem r) l xs ∧ dom (r_mem r) = list_to_set xs.*1
  end.
Definition reg_repr r kv : Prop := NoDup kv.*1 ∧ ∃ xs, entries r xs ∧ kv = xs.*2.

Fixpoint lookup_cb (name : cstr) kv : option (callback_func_t CB D) :=
  match kv with
  | [] => None
  | (k, cf) :: kv => if bool_decide (k = name) then Some cf else lookup_cb name kv
  end.
Fixpoint upsert (name : cstr) cf kv : list (cstr * callback_func_t CB D) :=
  match kv with
  | [] => [(name, cf)]
  | (k, old) :: kv => if bool_decide (k = name) then (k, cf) :: kv else (k, old) :: upsert name cf kv
  end.
Fixpoint erase (name : cstr) kv : list (cstr * callback_func_t CB D) :=
  match kv with
  | [] => []
  | (k, old) :: kv => if bool_decide (k = name) then kv else (k, old) :: erase name kv
  end.

(** The user data the registry is responsible for. *)
Definition data_of cf : list D := free_userdata (cf_udata cf).
Definition owns kv : list D := kv ≫= λ x, data_of x.2.

Lemma upsert_split name cf pre old post :
  name ∉ pre.*1 → upsert name cf (pre ++ (name, old) :: post) = pre ++ (name, cf) :: post.
Proof.
  induction pre as [|[k v] pre IH]; simpl; intros Hn; [by rewrite bool_decide_true|].
  apply not_elem_of_cons in Hn as [? ?]. rewrite bool_decide_false by done. f_equal. auto.
Qed.

Lemma upsert_new name cf kv : name ∉ kv.*1 → upsert name cf kv = kv ++ [(name, cf)].
Proof.
  induction kv as [|[k v] kv IH]; simpl; intros Hn; [done|].
  apply not_elem_of_cons in Hn as [? ?]. rewrite bool_decide_false by done. f_equal. auto.
Qed.

Lemma erase_split name pre old post :
  name ∉ pre.*1 → erase name (pre ++ (name, old) :: post) = pre ++ post.
Proof.
  induction pre as [|[k v] pre IH]; simpl; intros Hn; [by rewrite bool_decide_true|].
  apply not_elem_of_cons in Hn as [? ?]. rewrite bool_decide_false by done. f_equal. auto.
Qed.

Lemma erase_new name kv : name ∉ kv.*1 → erase name kv = kv.
Proof.
  induction kv as [|[k v] kv IH]; simpl; intros Hn; [done|].
  apply not_elem_of_cons in Hn as [? ?]. rewrite bool_decide_false by done. f_equal. auto.
Qed.

Lemma lookup_cb_split name pre old post :
  name ∉ pre.*1 → lookup_cb name (pre ++ (name, old) :: post) = Some old.
Proof.
  induction pre as [|[k v] pre IH]; simpl; intros Hn; [by rewrite bool_decide_true|].
  apply not_elem_of_cons in Hn as [? ?]. rewrite bool_decide_false by done. auto.
Qed.

Lemma lookup_cb_new name kv : name ∉ kv.*1 → lookup_cb name kv = None.
Proof.
  induction kv as [|[k v] kv IH]; simpl; intros Hn; [done|].
  apply not_elem_of_cons in Hn as [? ?]. rewrite bool_decide_false by done. auto.
Qed.

(** What [llist_search] finds in a registry. *)
Lemma search_cases m l xs name :
  lrepr m l xs →
  (∃ e pre old post, llist_search m (Some l) name = Some (Some e) ∧
     xs = pre ++ (e, (name, old)) :: post ∧ name ∉ pre.*2.*1) ∨
  (llist_search m (Some l) name = Some None ∧ name ∉ xs.*2.*1).
Proof.
  intros Hl. unfold llist_search. rewrite (search_spec _ _ _ _ Hl).
  assert (Hin : ∀ ys, Forall (λ y : ptr * (cstr * callback_func_t CB D), llist_strcmp name y.2 ≠ 0) ys → name ∉ ys.*2.*1).
  { induction 1 as [|[a [k v]] ys Hy _ IH]; [by intros ?%elem_of_nil|].
    simpl. intros [->|?]%elem_of_cons; [|done]. apply Hy. unfold llist_strcmp. simpl. by apply strcmp_eq. }
  destruct (first_match _ xs) as [[e [k old]]|] eqn:E.
  - apply first_match_split in E as (pre & post & -> & Hk & Hpre). left.
    unfold llist_strcmp in Hk. simpl in Hk. apply strcmp_eq in Hk as ->. exists e, pre, old, post. auto.
  - right. split; [done|]. apply Hin. clear Hl Hin. revert E.
    induction xs as [|[a x] xs IH]; simpl; [done|]. case_match eqn:Ec; [done|]. breflect. auto.
Qed.

Lemma dom_exact (m : mem (cstr * callback_func_t CB D)) l xs :
  lrepr m l xs → (∀ a, a ∉ xs.*1 → m !! a = None) → dom m = list_to_set xs.*1.
Proof.
  intros [Hs _ _ _] H. apply set_eq. intros a. rewrite elem_of_list_to_set, elem_of_dom. split.
  - intros [x Hx]. destruct (decide (a ∈ xs.*1)) as [|Hn]; [done|]. rewrite (H _ Hn) in Hx. done.
  - intros Ha. by eapply seg_alloc.
Qed.

Lemma dom_none (m : mem (cstr * callback_func_t CB D)) xs a :
  dom m = list_to_set xs.*1 → a ∉ xs.*1 → m !! a = None.
Proof. intros Hd Ha. apply not_elem_of_dom. rewrite Hd. by rewrite elem_of_list_to_set. Qed.

Lemma entries_append m l fr xs name cf e m1 :
  entries (mk_reg m (Some l) fr) xs → node_create true m (name, cf) = (Some e, m1) →
  ∃ m' l', llist_append m1 l e = Some (m', l') ∧ entries (mk_reg m' (Some l') fr) (xs ++ [(e, (name, cf))]).
Proof.
  intros [Hl Hd] Hc. simpl in Hl, Hd. destruct (create_node m (name, cf)) as (e' & m1' & Hc' & Hn & He & Hf).
  rewrite Hc in Hc'. injection Hc' as <- <-. pose proof (fresh_not_in _ _ _ _ Hl Hn) as Hnin.
  assert (lrepr m1 l xs) as Hl1 by (eapply lrepr_frame; [done..|]; set_solver).
  destruct (append_spec _ _ _ _ _ _ Hl1 He Hnin) as (m' & l' & Ha & Hl' & Hf').
  exists m', l'. split; [done|]. split; [done|]. eapply dom_exact; [done|]. simpl.
  intros a Ha'. rewrite fmap_app, not_elem_of_app in Ha'. destruct Ha' as [Ha1 Ha2]. simpl in Ha2.
  rewrite Hf' by set_solver. rewrite Hf by set_solver. by eapply dom_none.
Qed.

Lemma entries_replace m l fr pre e name old cf post n :
  entries (mk_reg m (Some l) fr) (pre ++ (e, (name, old)) :: post) → m !! e = Some n →
  payload n = (name, old) ∧
  entries (mk_reg (<[e := mk_node (name, cf) (next n)]> m) (Some l) fr) (pre ++ (e, (name, cf)) :: post).
Proof.
  intros [Hl Hd] He. simpl in Hl, Hd. destruct Hl as [Hs Ht Hz Hnd].
  destruct (nodup_fst_app _ _ Hnd) as (Hn1 & Hn2 & Hdj). rewrite fmap_cons in Hn2.
  apply list.NoDup_cons in Hn2 as [Hn2 Hn3]. simpl in Hn2.
  apply seg_app in Hs as (q & Hs1 & -> & n' & He' & Hs2).
  assert (n = mk_node (name, old) n') as -> by congruence. split; [done|]. simpl.
  assert (e ∉ pre.*1) as Hpre by (intros Hx; apply (Hdj e Hx); set_solver).
  split; simpl.
  - split; simpl.
    + apply seg_app. exists (Some e). split; [|split; [done|exists n'; split; [apply lookup_insert_eq|]]];
        eapply seg_frame; try done; intros a Ha; rewrite lookup_insert_ne; try done; by intros ->.
    + rewrite Ht, !last_app. simpl. by destruct post.
    + rewrite Hz, !length_app. done.
    + rewrite !fmap_app in *. done.
  - rewrite dom_insert_L, Hd, !fmap_app. simpl. set_solver.
Qed.

Lemma entries_remove m l fr pre e x post :
  entries (mk_reg m (Some l) fr) (pre ++ (e, x) :: post) →
  ∃ m' l' n, llist_remove m l e = Some (m', l') ∧ m' !! e = Some (mk_node x n) ∧
    entries (mk_reg (delete e m') (Some l') fr) (pre ++ post).
Proof.
  intros [Hl Hd]. simpl in Hl, Hd. pose proof Hl as [Hs _ _ Hnd].
  destruct (nodup_fst_app _ _ Hnd) as (Hn1 & Hn2 & Hdj). rewrite fmap_cons in Hn2.
  apply list.NoDup_cons in Hn2 as [Hn2 Hn3]. simpl in Hn2.
  assert (e ∉ pre.*1) as Hpre by (intros Hx; apply (Hdj e Hx); set_solver).
  destruct (seg_lookup _ _ _ _ e x Hs) as [n He]; [set_solver|].
  destruct (remove_spec _ _ _ _ _ _ Hl) as (m' & l' & Hr & Hl' & Hf).
  exists m', l', n. split; [done|]. split; [by rewrite Hf|].
  assert (lrepr (delete e m') l' (pre ++ post)) as Hl2.
  { eapply (lrepr_frame _ _ _ _ [e]); [exact Hl'| |].
    - intros a Ha. rewrite lookup_delete_ne; [done|set_solver].
    - intros a ->%list_elem_of_singleton. rewrite fmap_app, not_elem_of_app. done. }
  split; [done|]. simpl. eapply dom_exact; [done|]. intros a Ha.
  rewrite fmap_app, not_elem_of_app in Ha. destruct Ha as [Ha1 Ha2].
  destruct (decide (a = e)) as [->|Hne]; [apply lookup_delete_eq|].
  rewrite lookup_delete_ne, Hf by done. eapply dom_none; [exact Hd|].
  rewrite fmap_app, not_elem_of_app, fmap_cons. set_solver.
Qed.

(** The callbacks after a registration, and the data it frees. *)
Definition registered (st : Z) (name : cstr) cf kv : list (cstr * callback_func_t CB D) :=
  if st =? 0 then upsert name cf kv else kv.
Definition released (st : Z) (name : cstr) cf kv : list D :=
  if st =? 0 then from_option data_of [] (lookup_cb name kv) else data_of cf.

Lemma register_list_wp l m fr xs name cf kv :
  entries (mk_reg m (Some l) fr) xs → kv = xs.*2 → NoDup kv.*1 →
  wp (register_in (mk_reg m (Some l) fr) l name cf)
     (λ '(st, r'), (st = 0 ∨ st = -1) ∧ reg_repr r' (registered st name cf kv) ∧
        freed r' = fr ++ released st name cf kv).
Proof.
  intros He -> Hnd. pose proof He as [Hl Hd]. simpl in Hl, Hd.
  assert (Hfail : (-1 = 0 ∨ -1 = -1) ∧ reg_repr (destroy_callback (mk_reg m (Some l) fr) cf) (registered (-1) name cf xs.*2)
            ∧ freed (destroy_callback (mk_reg m (Some l) fr) cf) = fr ++ released (-1) name cf xs.*2).
  { split; [by right|]. split; [|done]. split; [done|]. by exists xs. }
  unfold register_in. apply wp_bind, wp_alloc. intros [|]; cbn [negb r_mem freed]; [|apply wp_ret, Hfail].
  destruct (search_cases _ _ _ name Hl) as [(e & pre & old & post & Hs & -> & Hpre)|[Hs Hn]]; rewrite Hs; cbn [mopt].
  - pose proof Hl as [Hseg _ _ _]. destruct (seg_lookup _ _ _ _ e (name, old) Hseg) as [n Hm]; [set_solver|].
    rewrite bind_ret. apply wp_bind. eapply wp_mopt; [exact Hm|].
    destruct (entries_replace m l fr pre e name old cf post _ He Hm) as [_ He'].
    apply wp_ret. split; [by left|]. unfold registered, released. simpl.
    rewrite fmap_app, fmap_cons in *. simpl in *. rewrite upsert_split, lookup_cb_split by done. split; [|done].
    split; [by rewrite fmap_app in *|]. eexists. split; [exact He'|]. by rewrite fmap_app.
  - rewrite bind_ret. apply wp_bind, wp_alloc. intros [|]; simpl; [|apply wp_ret, Hfail].
    edestruct (entries_append m l fr xs name cf) as (m' & l' & Ha & He'); [done|reflexivity|].
    simpl in Ha. rewrite Ha. simpl. rewrite bind_ret. apply wp_ret. split; [by left|].
    unfold registered, released. simpl. rewrite upsert_new, lookup_cb_new by done. simpl. rewrite app_nil_r.
    split; [|done]. split.
    + rewrite fmap_app. apply list.NoDup_app. split; [done|]. simpl. split; [|apply NoDup_singleton]. set_solver.
    + eexists. split; [exact He'|]. by rewrite fmap_app.
Qed.

Lemma register_callback_wp r name cf kv :
  reg_repr r kv →
  wp (register_callback r name cf) (λ '(st, r'),
    (st = 0 ∨ st = -1) ∧ reg_repr r' (registered st name cf kv) ∧ freed r' = freed r ++ released st name cf kv).
Proof.
  intros [Hnd (xs & He & Hkv)]. unfold register_callback. destruct r as [m [l|] fr]; simpl.
  - by eapply register_list_wp.
  - destruct He as [-> Hm]. simpl in Hm. subst kv m. apply wp_bind, wp_alloc. intros [|]; simpl.
    + eapply (register_list_wp _ _ _ []); [|done..]. split; [apply create_repr|done].
    + apply wp_ret. split; [by right|]. split; [|done]. split; [done|]. by exists [].
Qed.

Lemma unregister_wp r name kv :
  reg_repr r kv →
  wp (plugin_unregister r name) (λ '(st, r'),
    st = (if bool_decide (name ∈ kv.*1) then 0 else -1) ∧
    reg_repr r' (erase name kv) ∧ freed r' = freed r ++ from_option data_of [] (lookup_cb name kv)).
Proof.
  intros [Hnd (xs & He & ->)]. unfold plugin_unregister. destruct r as [m [l|] fr]; cbn [r_list r_mem freed]; cycle 1.
  { destruct He as [-> Hm]. apply wp_ret. simpl. split; [done|]. rewrite app_nil_r. split; [|done].
    split; [done|]. by exists []. }
  pose proof He as [Hl Hd]. simpl in Hl, Hd.
  destruct (search_cases _ _ _ name Hl) as [(e & pre & old & post & Hs & -> & Hpre)|[Hs Hn]]; rewrite Hs; cbn [mopt];
    rewrite bind_ret.
  - destruct (entries_remove _ _ _ _ _ _ _ He) as (m' & l' & n & -> & Hm' & He'). simpl. rewrite bind_ret.
    apply wp_bind. eapply wp_mopt; [exact Hm'|]. simpl. unfold llentry_destroy, node_free. rewrite Hm'. simpl.
    rewrite bind_ret. apply wp_ret. rewrite fmap_app, fmap_cons in *. simpl in *.
    rewrite erase_split, lookup_cb_split, bool_decide_true by (done || rewrite fmap_app, fmap_cons; set_solver).
    split; [done|]. split; [|done]. split; [|eexists; split; [exact He'|by rewrite fmap_app]].
    rewrite fmap_app in *. rewrite fmap_cons in Hnd. apply list.NoDup_app in Hnd as (? & Hdj & [_ ?]%list.NoDup_cons).
    apply list.NoDup_app. split; [done|]. split; [|done]. intros a Ha Ha'. apply (Hdj a Ha). set_solver.
  - apply wp_ret. rewrite bool_decide_false, lookup_cb_new by done. simpl. rewrite app_nil_r.
    split; [done|]. split; [|done]. rewrite erase_new by done. split; [done|]. by exists xs.
Qed.

Lemma destroy_values_wp fuel r p xs :
  seg (r_mem r) p xs None → (length xs ≤ fuel)%nat →
  wp (destroy_values fuel r p) (λ r', r' = add_freed r (owns xs.*2)).
Proof.
  revert fuel r p; induction xs as [|[a [k cf]] xs IH]; intros fuel r p; simpl.
  - intros -> _. destruct r. destruct fuel; apply wp_ret; unfold add_freed; simpl; by rewrite app_nil_r.
  - intros (-> & n & Ha & Hs) Hf. destruct fuel as [|fuel]; [lia|]. simpl. rewrite Ha. simpl.
    rewrite bind_ret. eapply wp_mono; [apply (IH fuel (destroy_callback r cf)); [done|lia]|].
    intros r' ->. unfold destroy_callback, add_freed, owns, data_of. simpl. by rewrite app_assoc.
Qed.

Lemma destroy_all_wp r kv :
  reg_repr r kv → wp (destroy_all_callbacks r) (λ r', r' = mk_reg ∅ None (freed r ++ owns kv)).
Proof.
  intros [_ (xs & He & ->)]. unfold destroy_all_callbacks. destruct r as [m [l|] fr]; cbn [r_list r_mem freed].
  - destruct He as [Hl Hd]. simpl in Hl, Hd. pose proof Hl as [Hs _ _ Hnd]. apply wp_bind.
    eapply wp_mono; [apply (destroy_values_wp _ _ _ xs); [done|]|].
    { pose proof (seg_length _ _ _ _ Hs Hnd). unfold traversal. lia. }
    intros r' ->. destruct (destroy_spec _ _ _ Hl) as (m' & Hm' & Hf & Hnone). simpl. rewrite Hm'. simpl.
    rewrite bind_ret. apply wp_ret. f_equal. apply map_empty. intros a.
    destruct (decide (a ∈ xs.*1)); [auto|]. rewrite Hf by done. by eapply dom_none.
  - destruct He as [-> Hm]. simpl in Hm. apply wp_ret. by rewrite Hm, app_nil_r.
Qed.

Lemma owns_upsert name cf kv :
  owns (upsert name cf kv) ++ from_option data_of [] (lookup_cb name kv) ≡ₚ owns kv ++ data_of cf.
Proof.
  induction kv as [|[k old] kv IH]; [unfold owns; simpl; by rewrite !app_nil_r|]. simpl. case_bool_decide.
  - simpl. unfold owns. simpl. solve_Permutation.
  - change (owns ((k, old) :: upsert name cf kv)) with (data_of old ++ owns (upsert name cf kv)).
    change (owns ((k, old) :: kv)) with (data_of old ++ owns kv). by rewrite <-!app_assoc, IH.
Qed.

Lemma owns_erase name kv :
  owns (erase name kv) ++ from_option data_of [] (lookup_cb name kv) ≡ₚ owns kv.
Proof.
  induction kv as [|[k old] kv IH]; [done|]. simpl. case_bool_decide.
  - unfold owns. simpl. solve_Permutation.
  - change (owns ((k, old) :: erase name kv)) with (data_of old ++ owns (erase name kv)).
    change (owns ((k, old) :: kv)) with (data_of old ++ owns kv). by rewrite <-app_assoc, IH.
Qed.

(** ** Sequences of registrations *)

Inductive reg_op : Type :=
| Register (ctx : plugin_ctx_t) (name : cstr) (callback : CB) (ud : option (user_data_t D))
| Unregister (name : cstr).

Definition run_op r (o : reg_op) : M (registry CB D) :=
  match o with
  | Register ctx name callback ud =>
      let* '(_, r) := create_register_callback r ctx (Some name) (Some callback) ud in ret r
  | Unregister name => let* '(_, r) := plugin_unregister r name in ret r
  end.
Fixpoint run_ops r (os : list reg_op) : M (registry CB D) :=
  match os with
  | [] => ret r
  | o :: os => let* r := run_op r o in run_ops r os
  end.

(** The user data handed over with a registration. *)
Definition udata_of (ud : option (user_data_t D)) : user_data_t D :=
  match ud with Some ud => ud | None => mk_ud None false end.
Definition given (o : reg_op) : list D :=
  match o with Register _ _ _ ud => free_userdata (udata_of ud) | Unregister _ => [] end.

Lemma create_register_wp r ctx name callback ud kv :
  reg_repr r kv →
  wp (create_register_callback r ctx (Some name) (Some callback) ud) (λ '(st, r'),
    (st = 0 ∨ st = -1 ∨ st = ENOMEM) ∧
    reg_repr r' (registered st name (mk_cf callback (udata_of ud) ctx) kv) ∧
    freed r' = freed r ++ released st name (mk_cf callback (udata_of ud) ctx) kv).
Proof.
  intros Hr. unfold create_register_callback. apply wp_bind, wp_alloc. intros [|]; simpl.
  - eapply wp_mono; [by apply register_callback_wp|]. intros [st r'] ([]&?&?); auto.
  - apply wp_ret. split; [auto|]. split; [|by destruct ud]. destruct r as [m l fr], Hr as [? (xs & He & ->)].
    split; [done|]. by exists xs.
Qed.

Lemma register_in_ok l m fr xs name cf :
  entries (mk_reg m (Some l) fr) xs → ∃ r', register_in (mk_reg m (Some l) fr) l name cf ⇓ (0, r').
Proof.
  intros He. pose proof He as [Hl _]. simpl in Hl. unfold register_in, yields.
  rewrite (yields_bind_eq _ _ _ yields_alloc). cbn [negb r_mem freed].
  destruct (search_cases _ _ _ name Hl) as [(e & pre & old & post & -> & -> & _)|[-> Hn]]; cbn [mopt]; rewrite bind_ret.
  - pose proof Hl as [Hseg _ _ _]. destruct (seg_lookup _ _ _ _ e (name, old) Hseg) as [n ->]; [set_solver|].
    by eexists.
  - rewrite (yields_bind_eq _ _ _ yields_alloc). unfold llentry_create.
    edestruct (entries_append m l fr xs name cf) as (m' & l' & Ha & He'); [done|reflexivity|].
    simpl in Ha. simpl. rewrite Ha. by eexists.
Qed.

Lemma create_register_ok r ctx name callback ud kv :
  reg_repr r kv → ∃ r', create_register_callback r ctx (Some name) (Some callback) ud ⇓ (0, r').
Proof.
  intros [_ (xs & He & _)]. unfold create_register_callback, register_callback, yields.
  rewrite (yields_bind_eq _ _ _ yields_alloc). cbn [negb]. destruct r as [m [l|] fr]; cbn [r_list r_mem freed].
  - by eapply register_in_ok.
  - rewrite (yields_bind_eq _ _ _ yields_alloc). destruct He as [-> Hm]. simpl in Hm. subst m. simpl.
    eapply (register_in_ok _ _ _ []). split; [apply create_repr|done].
Qed.

Definition accounted r (data : list D) : Prop :=
  ∃ kv, reg_repr r kv ∧ freed r ++ owns kv ≡ₚ data.

Lemma released_owns st name cf kv :
  released st name cf kv ++ owns (registered st name cf kv) ≡ₚ owns kv ++ data_of cf.
Proof.
  unfold released, registered. destruct (st =? 0).
  - by rewrite (Permutation_app_comm (from_option _ _ _)), owns_upsert.
  - apply Permutation_app_comm.
Qed.

Lemma run_op_wp r o data : accounted r data → wp (run_op r o) (λ r', accounted r' (data ++ given o)).
Proof.
  intros (kv & Hr & Hd). destruct o as [ctx name cb ud|name]; simpl; apply wp_bind.
  - eapply wp_mono; [by apply create_register_wp|]. intros [st r'] (_ & Hr' & Hf). apply wp_ret.
    eexists. split; [exact Hr'|]. rewrite Hf, <-app_assoc, released_owns, app_assoc, Hd. done.
  - eapply wp_mono; [by apply unregister_wp|]. intros [st r'] (_ & Hr' & Hf). apply wp_ret.
    eexists. split; [exact Hr'|]. rewrite Hf, <-app_assoc, app_nil_r, (Permutation_app_comm (from_option _ _ _)).
    by rewrite owns_erase.
Qed.

Lemma run_ops_wp os r data : accounted r data → wp (run_ops r os) (λ r', accounted r' (data ++ (os ≫= given))).
Proof.
  revert r data; induction os as [|o os IH]; intros r data H; simpl.
  - apply wp_ret. by rewrite app_nil_r.
  - apply wp_bind. eapply wp_mono; [by apply run_op_wp|]. intros r' Hr'. simpl.
    eapply wp_mono; [eapply IH; exact Hr'|]. intros r''. by rewrite <-app_assoc.
Qed.
End registry_spec.
#[global] Arguments Register {_ _} _ _ _ _.
#[global] Arguments Unregister {_ _} _.

(** C8. Whatever sequence of registrations and removals runs, and whichever
    of its allocations fail, when the registry is destroyed at the end every
    piece of user data that was handed over has been given to its free
    function exactly once, and no list entry is left allocated. *)
Theorem registry_frees_once {CB D} (os : list (reg_op (CB := CB) (D := D))) :
  wp (let* r := run_ops (mk_reg ∅ None []) os in destroy_all_callbacks r)
     (λ r, freed r ≡ₚ os ≫= given ∧ r_mem r = ∅ ∧ r_list r = None).
Proof.
  apply wp_bind. eapply wp_mono; [apply (run_ops_wp os _ [])|].
  - exists []. split; [|done]. split; [constructor|]. by exists [].
  - intros r (kv & Hr & Hd). eapply wp_mono; [by apply destroy_all_wp|]. intros r' ->. done.
Qed.

(** ** Calling the registered callbacks *)

Section dispatch.
Context {CB D : Type}.
Implicit Types (r : registry CB D) (cf : callback_func_t CB D) (kv : list (cstr * callback_func_t CB D))
  (xs : list (ptr * (cstr * callback_func_t CB D))).

Fixpoint fold_each {S : Type} (body : S → cstr → callback_func_t CB D → S * bool) (s : S) kv : S :=
  match kv with
  | [] => s
  | (k, cf) :: kv => match body s k cf with (s, true) => fold_each body s kv | (s, false) => s end
  end.

Lemma each_ret {S : Type} (body : S → cstr → callback_func_t CB D → S * bool) fuel r p xs s :
  seg (r_mem r) p xs None → (length xs ≤ fuel)%nat → each fuel r p body s = ret (fold_each body s xs.*2).
Proof.
  revert fuel p s; induction xs as [|[a [k cf]] xs IH]; intros fuel p s; simpl.
  - intros -> _. by destruct fuel.
  - intros (-> & n & Ha & Hs) Hf. destruct fuel as [|fuel]; [lia|]. simpl. rewrite Ha. simpl.
    rewrite bind_ret. simpl. destruct (body s k cf) as [s' []]; [|done]. apply IH; [done|lia].
Qed.

(** A loop over the list is a loop over the registered callbacks. *)
Lemma each_of_ret {S : Type} (body : S → cstr → callback_func_t CB D → S * bool) r kv s :
  reg_repr r kv → each_of r body s = ret (fold_each body s kv).
Proof.
  intros [_ (xs & He & ->)]. unfold each_of. destruct r as [m [l|] fr]; cbn [r_list r_mem] in *.
  - destruct He as [[Hs _ _ Hnd] _]. apply each_ret; [done|]. simpl in *.
    pose proof (seg_length _ _ _ _ Hs Hnd). unfold traversal. lia.
  - by destruct He as [-> _].
Qed.

Definition write_body (write : callback_func_t CB D → Z) (ctx : plugin_ctx_t) :
    Z * Z * list call → cstr → callback_func_t CB D → (Z * Z * list call) * bool :=
  λ '(success, failure, calls) key cf,
    let calls := calls ++ [(key, with_name ctx (ctx_name (cf_ctx cf)))] in
    (if write cf =? 0 then (success + 1, failure, calls) else (success, failure + 1, calls), true).

Definition ok_cbs (write : callback_func_t CB D → Z) kv : list (cstr * callback_func_t CB D) :=
  filter (λ x, write x.2 = 0) kv.

Lemma fold_write write ctx kv su fa calls :
  fold_each (write_body write ctx) (su, fa, calls) kv
  = (su + Z.of_nat (length (ok_cbs write kv)),
     fa + Z.of_nat (length kv - length (ok_cbs write kv)),
     calls ++ map (λ x, (x.1, with_name ctx (ctx_name (cf_ctx x.2)))) kv).
Proof.
  unfold ok_cbs. revert su fa calls; induction kv as [|[k cf] kv IH]; intros su fa calls; simpl.
  - rewrite app_nil_r. f_equal. apply pair_equal_spec; split; lia.
  - pose proof (length_filter (λ x, write x.2 = 0) kv).
    destruct (Z.eqb_spec (write cf) 0); rewrite IH, <-app_assoc; simpl;
      [rewrite filter_cons_True by done|rewrite filter_cons_False by done]; cbn [length];
      f_equal; apply pair_equal_spec; split; lia.
Qed.

Definition match_name (plugin : cstr) : option (cstr * callback_func_t CB D) → cstr → callback_func_t CB D →
    option (cstr * callback_func_t CB D) * bool :=
  λ _ key cf, if strcasecmp plugin key =? 0 then (Some (key, cf), false) else (None, true).

Fixpoint find_name (plugin : cstr) kv : option (cstr * callback_func_t CB D) :=
  match kv with
  | [] => None
  | (k, cf) :: kv => if strcasecmp plugin k =? 0 then Some (k, cf) else find_name plugin kv
  end.

Lemma fold_match plugin kv : fold_each (match_name plugin) None kv = find_name plugin kv.
Proof. induction kv as [|[k cf] kv IH]; simpl; [done|]. rewrite <-IH. unfold match_name. by destruct (strcasecmp plugin k =? 0). Qed.

(** The calls of plugin_dispatch_missing: up to the first callback with a
    non-zero status. *)
Fixpoint missing_calls (missing : callback_func_t CB D → Z) kv : Z * list call :=
  match kv with
  | [] => (0, [])
  | (k, cf) :: kv =>
      if missing cf =? 0 then let '(st, calls) := missing_calls missing kv in (st, (k, cf_ctx cf) :: calls)
      else (Z.min (missing cf) 0, [(k, cf_ctx cf)])
  end.

Lemma fold_missing missing kv calls :
  fold_each (λ '(st, calls) key cf,
        let calls := calls ++ [(key, cf_ctx cf)] in
        let status := missing cf in
        if negb (status =? 0) then ((if status <? 0 then status else 0, calls), false) else ((0, calls), true))
    (0, calls) kv
  = ((missing_calls missing kv).1, calls ++ (missing_calls missing kv).2).
Proof.
  revert calls; induction kv as [|[k cf] kv IH]; intros calls; simpl; [by rewrite app_nil_r|].
  destruct (Z.eqb_spec (missing cf) 0); simpl.
  - rewrite IH, <-app_assoc. by destruct (missing_calls missing kv).
  - f_equal. destruct (Z.ltb_spec (missing cf) 0); lia.
Qed.

Lemma write_status write kv :
  let n := Z.of_nat (length (ok_cbs write kv)) in
  let k := Z.of_nat (length kv - length (ok_cbs write kv)) in
  let st := if (n =? 0) && negb (k =? 0) then -1 else 0 in
  (st = -1 ↔ kv ≠ [] ∧ Forall (λ x, write x.2 ≠ 0) kv) ∧ (st = 0 ∨ st = -1).
Proof.
  simpl. pose proof (length_filter (λ x : cstr * callback_func_t CB D, write x.2 = 0) kv) as Hle.
  assert (Forall (λ x, write x.2 ≠ 0) kv ↔ ok_cbs write kv = []) as ->.
  { clear. unfold ok_cbs. induction kv as [|[k cf] kv IH]; [done|]. rewrite Forall_cons, IH.
    destruct (decide (write cf = 0)); [rewrite filter_cons_True by done|rewrite filter_cons_False by done];
      naive_solver. }
  unfold ok_cbs in *. destruct (filter _ kv) as [|x l] eqn:E; simpl in *.
  - rewrite Nat.sub_0_r. destruct kv; simpl; [naive_solver|]. naive_solver.
  - split; [|by left]. naive_solver.
Qed.
End dispatch.

(** The two ways of [plugin_write]. *)
Lemma write_all_ret {CB D} (r : registry CB D) kv ctx write :
  reg_repr r kv → r_list r ≠ None →
  plugin_write r ctx write None
  = ret (if (Z.of_nat (length (ok_cbs write kv)) =? 0) && negb (Z.of_nat (length kv - length (ok_cbs write kv)) =? 0)
         then -1 else 0, map (λ x, (x.1, with_name ctx (ctx_name (cf_ctx x.2)))) kv).
Proof.
  intros Hr Hl. unfold plugin_write. destruct (r_list r) as [l|]; [|done].
  rewrite (each_of_ret (write_body write ctx) r kv) by done. by rewrite bind_ret, fold_write.
Qed.

Lemma write_named_ret {CB D} (r : registry CB D) kv ctx write plugin :
  reg_repr r kv → r_list r ≠ None →
  plugin_write r ctx write (Some plugin)
  = ret (match find_name plugin kv with Some (key, cf) => (write cf, [(key, ctx)]) | None => (ENOENT, []) end).
Proof.
  intros Hr Hl. unfold plugin_write. destruct (r_list r) as [l|]; [|done].
  rewrite (each_of_ret (match_name plugin) r kv) by done. rewrite bind_ret, fold_match.
  by destruct (find_name plugin kv) as [[key cf]|].
Qed.

Lemma plugin_write_returns {CB D} (r : registry CB D) kv ctx write plugin :
  reg_repr r kv → wp (plugin_write r ctx write plugin) (λ _, True).
Proof.
  intros Hr. destruct (r_list r) as [l|] eqn:El; [|unfold plugin_write; rewrite El; by apply wp_ret].
  destruct plugin; [rewrite (write_named_ret r kv)|rewrite (write_all_ret r kv)]; by (apply wp_ret || rewrite ?El).
Qed.

(** Registration and removal: with memory, a registration binds the
    name to the callback (replacing the callback of that name, or after all
    others); a registration that runs out of memory returns an error and
    leaves every callback as it was; a removal erases exactly the callback of
    the name and reports whether there was one. *)
Theorem registry_spec {CB D} (r : registry CB D) kv ctx name cb ud :
  reg_repr r kv →
  let cf := mk_cf cb (udata_of ud) ctx in
  wp (create_register_callback r ctx (Some name) (Some cb) ud) (λ '(st, r'),
    (st = 0 ∧ reg_repr r' (upsert name cf kv)) ∨ ((st = -1 ∨ st = ENOMEM) ∧ reg_repr r' kv)) ∧
  (∃ r', create_register_callback r ctx (Some name) (Some cb) ud ⇓ (0, r') ∧ reg_repr r' (upsert name cf kv)) ∧
  wp (plugin_unregister r name) (λ '(st, r'),
    st = (if bool_decide (name ∈ kv.*1) then 0 else -1) ∧ reg_repr r' (erase name kv)).
Proof.
  intros Hr cf. pose proof (create_register_wp r ctx name cb ud kv Hr) as Hwp. split; [|split].
  - eapply wp_mono; [exact Hwp|]. intros [st r'] (Hst & Hr' & _). unfold registered in Hr'.
    destruct Hst as [->|[->| ->]]; auto.
  - destruct (create_register_ok r ctx name cb ud kv Hr) as [r' Hy]. exists r'. split; [exact Hy|].
    pose proof (wp_at _ _ _ Hwp Hy) as (_ & ? & _). done.
  - eapply wp_mono; [by apply unregister_wp|]. intros [st r'] (? & ? & _). done.
Qed.

(** [plugin_write] without a plugin name calls every write callback once,
    in the order of registration, in the caller's context under the
    callback's plugin name, and fails exactly when there are callbacks and all
    of them fail; with a name it calls only the first callback whose name
    matches without regard to case and returns its status. *)
Theorem plugin_write_spec {CB D} (r : registry CB D) kv ctx write plugin :
  reg_repr r kv → r_list r ≠ None →
  wp (plugin_write r ctx write None) (λ '(st, calls),
    calls = map (λ x, (x.1, with_name ctx (ctx_name (cf_ctx x.2)))) kv ∧
    (st = -1 ↔ kv ≠ [] ∧ Forall (λ x, write x.2 ≠ 0) kv) ∧ (st = 0 ∨ st = -1)) ∧
  wp (plugin_write r ctx write (Some plugin)) (λ '(st, calls),
    match find_name plugin kv with
    | Some (key, cf) => st = write cf ∧ calls = [(key, ctx)]
    | None => st = ENOENT ∧ calls = []
    end).
Proof.
  intros Hr Hl. rewrite (write_all_ret r kv), (write_named_ret r kv) by done. split; apply wp_ret.
  - split; [done|]. apply write_status.
  - by destruct (find_name plugin kv) as [[]|].
Qed.

(** A registry with two callbacks, [csv] and [Log]. *)
Definition demo_ctx (nm : cstr) : plugin_ctx_t := mk_ctx (Some nm) 10 0 0.
Definition demo_cf (n : Z) (nm : cstr) : callback_func_t Z Z := mk_cf n (mk_ud (Some n) true) (demo_ctx nm).
Definition demo_reg : registry Z Z :=
  mk_reg (<[1%positive := mk_node ($"csv", demo_cf 1 $"csv") (Some 2%positive)]>
            (<[2%positive := mk_node ($"Log", demo_cf 2 $"log") None]> ∅))
    (Some (mk_llist (Some 1%positive) (Some 2%positive) 2)) [].
Definition demo_kv : list (cstr * callback_func_t Z Z) :=
  [($"csv", demo_cf 1 $"csv"); ($"Log", demo_cf 2 $"log")].

Lemma demo_repr : reg_repr demo_reg demo_kv.
Proof.
  split; [by apply (bool_decide_unpack _); vm_compute|].
  exists [(1%positive, ($"csv", demo_cf 1 $"csv")); (2%positive, ($"Log", demo_cf 2 $"log"))].
  split; [|done]. split; [|by vm_compute]. split; simpl; [by eauto 10|done|done|].
  by apply (bool_decide_unpack _); vm_compute.
Qed.

Lemma registry_spec_witness :
  wp (plugin_unregister demo_reg $"csv") (λ '(st, r'), st = 0 ∧ reg_repr r' [($"Log", demo_cf 2 $"log")]).
Proof.
  destruct (registry_spec demo_reg demo_kv (demo_ctx $"x") $"csv" 3 None demo_repr) as (_ & _ & H). exact H.
Defined.

Lemma plugin_write_spec_witness :
  wp (plugin_write demo_reg (demo_ctx $"cpu") (λ cf, cf_callback cf - 1) None) (λ '(st, calls),
    calls = [($"csv", demo_ctx $"csv"); ($"Log", demo_ctx $"log")] ∧ st = 0) ∧
  wp (plugin_write demo_reg (demo_ctx $"cpu") (λ cf, cf_callback cf - 1) (Some $"LOG")) (λ '(st, calls),
    st = 1 ∧ calls = [($"Log", demo_ctx $"cpu")]).
Proof.
  destruct (plugin_write_spec demo_reg demo_kv (demo_ctx $"cpu") (λ cf, cf_callback cf - 1) $"LOG" demo_repr)
    as [H1 H2]; [discriminate|]. split; [|exact H2].
  eapply wp_mono; [exact H1|]. intros [st calls] (Hc & Hst & Hcase). split; [exact Hc|].
  destruct Hcase as [H|H]; [exact H|]. destruct (proj1 Hst H) as [_ Hall]. inversion Hall as [|? ? Hx]. by destruct Hx.
Defined.
