(* ===== verification/Dispatch.v ===== *)
(** * Dispatching metrics (src/daemon/plugin.c)

    The way of a metric family from a read plugin into the write queue
    (plugin_dispatch_metric_family) and the cache event callbacks.  The
    length of the write queue, the clock and the random number are arguments;
    the element that goes to [write_queue_enqueue] (WriteQueue.v) is returned.
    What the callbacks answer is a function argument. *)

From Stdlib Require Import Ascii String SpecFloat.
From stdpp Require Import base gmap list numbers option.
From S2P Require Import Prelude Double StrBuf LabelSet Metric Plugin.

(** ** The write queue limits *)

Record write_limits : Type := mk_limits { write_limit_high : Z; write_limit_low : Z }.

Definition get_drop_probability (lim : write_limits) (wql : Z) : double :=
  if wql <? write_limit_low lim then fzero
  else if write_limit_high lim <=? wql then of_Z 1
  else
    let pos := 1 + wql - write_limit_low lim in
    let size := 1 + write_limit_high lim - write_limit_low lim in
    fdiv (of_Z pos) (of_Z size).

(** [q] is the random number; the rate-limited log message is left out. *)
Definition check_drop_value (lim : write_limits) (wql : Z) (q : double) : bool :=
  if write_limit_high lim =? 0 then false
  else
    let p := get_drop_probability lim wql in
    if feq p fzero then false
    else if feq p (of_Z 1) then true
    else flt p q.

(** plugin_init_all: the limits from the options WriteQueueLimitHigh and
    WriteQueueLimitLow ([None]: not set).  [/] truncates in C; the operand is
    not negative. *)
Definition init_limits (opt_high opt_low : option Z) : write_limits :=
  let high := default 0 opt_high in
  let high := if high <? 0 then 0 else high in
  let low := default (high / 2) opt_low in
  let low := if low <? 0 then high / 2 else if high <? low then high else low in
  mk_limits high low.

(** ** Enqueueing a family *)

Definition stamp (now iv : Z) (m : metric_t) : metric_t :=
  mk_metric (label m) (m_value m)
    (if time m =? 0 then now else time m) (if interval m =? 0 then iv else interval m) (meta m).

(** The status and the element that is appended to the queue. *)
Definition enqueue_metric_family (now iv : Z) (ctx : plugin_ctx_t) (fam : metric_family_t) :
    M (Z * option (metric_family_t * plugin_ctx_t)) :=
  let* copy := metric_family_clone fam in
  match copy with
  | inl status => ret (status, None)
  | inr fam_copy =>
      let fam_copy := set_metrics fam_copy (map (stamp now iv) (metric fam_copy)) in
      let* ok := alloc in
      if negb ok then ret (ENOMEM, None) else ret (0, Some (fam_copy, ctx))
  end.

Record dispatch_state : Type := mk_dispatch {
  limits : write_limits;
  record_statistics : bool;
  stats_values_dropped : Z;
}.

Definition plugin_dispatch_metric_family (s : dispatch_state) (wql : Z) (q : double) (now iv : Z)
    (ctx : plugin_ctx_t) (fam : metric_family_t) :
    M (Z * option (metric_family_t * plugin_ctx_t) * dispatch_state) :=
  if (length (metric fam) =? 0)%nat then ret (EINVAL, None, s)
  else if check_drop_value (limits s) wql q then
    ret (0, None,
      if record_statistics s then mk_dispatch (limits s) true (i64 (stats_values_dropped s + 1)) else s)
  else
    let* '(status, elem) := enqueue_metric_family now iv ctx fam in
    ret (status, elem, s).

(** ** Cache event callbacks *)

Inductive cache_event_type : Type := VALUE_NEW | VALUE_UPDATE | VALUE_EXPIRED.

Record cache_event_func_t (CB D : Type) : Type := mk_cef {
  cef_callback : option CB;
  cef_name : cstr;
  cef_udata : user_data_t D;
  cef_ctx : plugin_ctx_t;
}.
#[global] Arguments mk_cef {_ _} _ _ _ _.
#[global] Arguments cef_callback {_ _} _.
#[global] Arguments cef_name {_ _} _.
#[global] Arguments cef_udata {_ _} _.
#[global] Arguments cef_ctx {_ _} _.

(** [list_cache_event] up to [list_cache_event_num], and the user data freed. *)
Record cache_events (CB D : Type) : Type := mk_events {
  list_cache_event : list (cache_event_func_t CB D);
  ev_freed : list D;
}.
#[global] Arguments mk_events {_ _} _ _.
#[global] Arguments list_cache_event {_ _} _.
#[global] Arguments ev_freed {_ _} _.

Section events.
Context {CB D : Type}.
Implicit Types (ev : cache_events CB D) (cef : cache_event_func_t CB D).

Definition free_opt (ud : option (user_data_t D)) : list D :=
  match ud with Some ud => free_userdata ud | None => [] end.

Definition is_active cef : bool := match cef_callback cef with Some _ => true | None => false end.
Definition named (name : cstr) cef : bool := is_active cef && (strcmp name (cef_name cef) =? 0).

Definition plugin_register_cache_event ev (ctx : plugin_ctx_t) (name : option cstr) (callback : option CB)
    (ud : option (user_data_t D)) : M (Z * cache_events CB D) :=
  match name, callback with
  | Some name, Some callback =>
      let refuse := mk_events (list_cache_event ev) (ev_freed ev ++ free_opt ud) in
      let* ok := alloc in
      if negb ok then ret (ENOMEM, refuse)
      else if (32 <=? length (list_cache_event ev))%nat then ret (ENOMEM, refuse)
      else if existsb (named name) (list_cache_event ev) then ret (-1, refuse)
      else
        let cef := mk_cef (Some callback) name (udata_of ud) ctx in
        ret (0, mk_events (list_cache_event ev ++ [cef]) (ev_freed ev))
  | _, _ => ret (EINVAL, ev)
  end.

Definition deactivate cef : cache_event_func_t CB D := mk_cef None [] (cef_udata cef) (cef_ctx cef).

Definition plugin_unregister_cache_event ev (name : cstr) : Z * cache_events CB D :=
  (0, mk_events (map (λ cef, if named name cef then deactivate cef else cef) (list_cache_event ev))
        (ev_freed ev ++ (filter (λ cef, named name cef = true) (list_cache_event ev) ≫= λ cef, free_userdata (cef_udata cef)))).

(** [1 << i] of type [int]: the result does not fit for [i = 31]. *)
Definition shl1 (i : nat) : option Z := if (i <? 31)%nat then Some (Z.shiftl 1 (Z.of_nat i)) else None.

(** The loop over the callbacks for VALUE_NEW: [answer] is the status and the
    [ret] of the event.  Collects the calls and the mask. *)
Fixpoint new_loop (answer : CB → Z * Z) (i : nat) (l : list (cache_event_func_t CB D))
    (mask : Z) (calls : list call) : M (Z * list call) :=
  match l with
  | [] => ret (mask, calls)
  | cef :: l =>
      match cef_callback cef with
      | None => new_loop answer (S i) l mask calls
      | Some cb =>
          let calls := calls ++ [(cef_name cef, cef_ctx cef)] in
          let '(status, r) := answer cb in
          if negb (status =? 0) || (r =? 0) then new_loop answer (S i) l mask calls
          else let* b := mopt (shl1 i) in new_loop answer (S i) l (Z.lor mask b) calls
      end
  end.

(** The loop for VALUE_UPDATE and VALUE_EXPIRED, with the test
    [callbacks_mask && (1 << (i)) == 0] as C parses it. *)
Fixpoint update_loop (callbacks_mask : Z) (i : nat) (l : list (cache_event_func_t CB D)) (calls : list call) :
    M (list call) :=
  match l with
  | [] => ret calls
  | cef :: l =>
      match cef_callback cef with
      | None => update_loop callbacks_mask (S i) l calls
      | Some cb =>
          let* skip :=
            if callbacks_mask =? 0 then ret false else let* b := mopt (shl1 i) in ret (b =? 0) in
          if skip then update_loop callbacks_mask (S i) l calls
          else update_loop callbacks_mask (S i) l (calls ++ [(cef_name cef, cef_ctx cef)])
      end
  end.

(** The calls, and the mask that is stored with uc_set_callbacks_mask. *)
Definition plugin_dispatch_cache_event ev (ty : cache_event_type) (callbacks_mask : Z) (answer : CB → Z * Z) :
    M (list call * option Z) :=
  match ty with
  | VALUE_NEW =>
      let* '(mask, calls) := new_loop answer 0 (list_cache_event ev) 0 [] in
      ret (calls, if mask =? 0 then None else Some mask)
  | VALUE_UPDATE | VALUE_EXPIRED =>
      let* calls := update_loop callbacks_mask 0 (list_cache_event ev) [] in ret (calls, None)
  end.
End events.

(** ** The cache event loops *)

Section event_lemmas.
Context {CB D : Type}.
Implicit Types (l : list (cache_event_func_t CB D)).

Definition active_calls l : list call :=
  map (λ cef, (cef_name cef, cef_ctx cef)) (filter (λ cef, is_active cef = true) l).

(** The callback of slot [i] subscribed to the metric. *)
Definition subscribed (answer : CB → Z * Z) l (i : nat) : bool :=
  match l !! i with
  | Some cef =>
      match cef_callback cef with
      | Some cb => ((answer cb).1 =? 0) && negb ((answer cb).2 =? 0)
      | None => false
      end
  | None => false
  end.

Lemma active_cons cef l :
  active_calls (cef :: l) = (if is_active cef then [(cef_name cef, cef_ctx cef)] else []) ++ active_calls l.
Proof. unfold active_calls. rewrite filter_cons. destruct (is_active cef); by case_decide. Qed.

Lemma update_loop_wp mask i l calls :
  (i + length l ≤ 31)%nat → wp (update_loop mask i l calls) (λ c, c = calls ++ active_calls l).
Proof.
  revert i calls; induction l as [|cef l IH]; intros i calls Hi; simpl in *.
  - apply wp_ret. by rewrite app_nil_r.
  - rewrite active_cons. unfold is_active. destruct (cef_callback cef) as [cb|]; [|by apply IH; lia].
    apply wp_bind. apply (wp_mono _ (λ b, b = false)).
    + destruct (mask =? 0); [by apply wp_ret|]. unfold shl1. destruct (Nat.ltb_spec i 31); [|lia].
      simpl. rewrite bind_ret. apply wp_ret. apply Z.eqb_neq. rewrite Z.shiftl_mul_pow2 by lia.
      pose proof (Z.pow_pos_nonneg 2 (Z.of_nat i)). lia.
    + intros b ->. eapply wp_mono; [apply IH; lia|]. intros c ->. by rewrite <-app_assoc.
Qed.

(** The bits a list of slots, the first of which is slot [i], adds. *)
Fixpoint mask_bits (answer : CB → Z * Z) (i : nat) l : Z :=
  match l with
  | [] => 0
  | cef :: l =>
      Z.lor (if subscribed answer [cef] 0 then Z.shiftl 1 (Z.of_nat i) else 0) (mask_bits answer (S i) l)
  end.

Lemma new_loop_wp answer i l mask calls :
  (i + length l ≤ 31)%nat →
  wp (new_loop answer i l mask calls)
     (λ '(m, c), m = Z.lor mask (mask_bits answer i l) ∧ c = calls ++ active_calls l).
Proof.
  revert i mask calls; induction l as [|cef l IH]; intros i mask calls Hi; simpl in *.
  - apply wp_ret. by rewrite app_nil_r, Z.lor_0_r.
  - rewrite active_cons. unfold is_active, subscribed. simpl.
    destruct (cef_callback cef) as [cb|]; [|eapply wp_mono; [apply IH; lia|]; by intros [m c]].
    destruct (answer cb) as [status r]. simpl. destruct (status =? 0), (r =? 0); simpl.
    2: { unfold shl1. destruct (Nat.ltb_spec i 31); [|lia]. simpl. rewrite bind_ret.
         eapply wp_mono; [apply IH; lia|]. intros [m c] [-> ->]. by rewrite <-app_assoc, Z.lor_assoc. }
    all: eapply wp_mono; [apply IH; lia|]; intros [m c] [-> ->]; by rewrite <-app_assoc.
Qed.

Lemma mask_bits_spec answer i l k :
  Z.testbit (mask_bits answer i l) (Z.of_nat k) = (i <=? k)%nat && subscribed answer l (k - i).
Proof.
  revert i; induction l as [|cef l IH]; intros i; simpl.
  - unfold subscribed. rewrite Z.bits_0, lookup_nil. by rewrite andb_false_r.
  - rewrite Z.lor_spec, IH. destruct (Nat.leb_spec i k); cbn [andb].
    + destruct (decide (k = i)) as [->|].
      * rewrite Nat.sub_diag. rewrite (proj2 (Nat.leb_gt (S i) i)) by lia. cbn [andb]. rewrite orb_false_r.
        change (subscribed answer (cef :: l) 0) with (subscribed answer [cef] 0).
        destruct (subscribed answer [cef] 0); [|apply Z.bits_0].
        rewrite Z.shiftl_spec, Z.sub_diag by lia. done.
      * rewrite (proj2 (Nat.leb_le (S i) k)) by lia. cbn [andb].
        replace (k - i)%nat with (S (k - S i)) by lia.
        change (subscribed answer (cef :: l) (S (k - S i))) with (subscribed answer l (k - S i)).
        assert (Z.testbit (if subscribed answer [cef] 0 then Z.shiftl 1 (Z.of_nat i) else 0) (Z.of_nat k) = false) as ->.
        { destruct (subscribed answer [cef] 0); [|apply Z.bits_0]. rewrite Z.shiftl_spec by lia.
          by apply (Z.bits_above_log2 1); simpl; lia. }
        done.
    + rewrite (proj2 (Nat.leb_gt (S i) k)) by lia. cbn [andb]. rewrite orb_false_r.
      destruct (subscribed answer [cef] 0); [|apply Z.bits_0].
      rewrite Z.shiftl_spec by lia. apply Z.testbit_neg_r. lia.
Qed.
End event_lemmas.

Lemma init_limits_ok opt_high opt_low :
  let lim := init_limits opt_high opt_low in 0 ≤ write_limit_low lim ≤ write_limit_high lim.
Proof.
  unfold init_limits. set (high := if default 0 opt_high <? 0 then 0 else default 0 opt_high).
  assert (0 ≤ high) by (unfold high; destruct (Z.ltb_spec (default 0 opt_high) 0); lia).
  pose proof (Z.div_le_upper_bound high 2 high). pose proof (Z.div_pos high 2). simpl.
  destruct (Z.ltb_spec (default (high / 2) opt_low) 0); [lia|].
  destruct (Z.ltb_spec high (default (high / 2) opt_low)); lia.
Qed.

Lemma flt_not_feq x y : flt x y = true → feq x y = false.
Proof. unfold flt, feq, SFltb, SFeqb. by destruct (SFcompare x y) as [[]|]. Qed.

Lemma flt_not_feq_l x y : flt x y = true → feq y x = false.
Proof.
  intros H. destruct (feq y x) eqn:E; [|done]. unfold flt, feq, SFltb, SFeqb in *.
  destruct x as [sx|[]| |[] mx ex], y as [sy|[]| |[] my ey]; try done; simpl in *;
    rewrite (Z.compare_antisym ey ex) in H; destruct (ey ?= ex)%Z; simpl in *; try done;
    change (Pos.compare_cont Eq ?a ?b) with (a ?= b)%positive in *;
    rewrite (Pos.compare_antisym my mx) in H; by destruct (my ?= mx)%positive.
Qed.

(** ** Claims *)

(** [plugin_dispatch_metric_family] refuses a family without metrics;
    a family that the queue limits drop is counted and nothing is enqueued;
    otherwise, while memory lasts, exactly one element is enqueued: a copy of
    the family in which every metric without a time or an interval got the
    current time and the interval of the plugin context, with the context of
    the caller.  (Like every copy made by metric_family_clone it has no meta
    data.) *)
Theorem plugin_dispatch_metric_family_spec s wql q now iv ctx fam nm :
  fam_name fam = Some nm → Forall (plain_metric (type fam)) (metric fam) →
  let res := plugin_dispatch_metric_family s wql q now iv ctx fam in
  (metric fam = [] → res ⇓ (EINVAL, None, s)) ∧
  (metric fam ≠ [] → check_drop_value (limits s) wql q = true →
     ∃ s', res ⇓ (0, None, s') ∧ limits s' = limits s ∧ record_statistics s' = record_statistics s ∧
       (stats_values_dropped s < 2 ^ 62 → 0 ≤ stats_values_dropped s →
        stats_values_dropped s' = stats_values_dropped s + Z.b2z (record_statistics s))) ∧
  (metric fam ≠ [] → check_drop_value (limits s) wql q = false →
     ∃ copy, res ⇓ (0, Some (copy, ctx), s) ∧
       fam_name copy = fam_name fam ∧ help copy = help fam ∧ type copy = type fam ∧
       Forall2 (λ m c, label c = label m ∧ m_value c = m_value m ∧ meta c = None ∧
                  time c = (if time m =? 0 then now else time m) ∧
                  interval c = (if interval m =? 0 then iv else interval m)) (metric fam) (metric copy)).
Proof.
  intros Hn Hp res. split_and!.
  - intros E. unfold res, plugin_dispatch_metric_family. by rewrite E.
  - intros Hne Hd. unfold res, plugin_dispatch_metric_family. destruct (metric fam) as [|m ms]; [done|].
    cbn [length Nat.eqb]. rewrite Hd. eexists. split; [done|]. destruct s as [lim [] d]; simpl; [|split_and!; lia || done].
    split_and!; try done. intros. rewrite i64_small by lia. done.
  - intros Hne Hd. unfold res, plugin_dispatch_metric_family, enqueue_metric_family.
    assert ((length (metric fam) =? 0)%nat = false) as -> by (by destruct (metric fam)). rewrite Hd.
    eexists. split.
    + eapply yields_bind; [eapply yields_bind; [by eapply family_clone_ok|]; cbv beta iota|].
      * eapply yields_bind; [apply yields_alloc|]. apply yields_ret.
      * apply yields_ret.
    + unfold family_copy. simpl. split_and!; [done..|]. rewrite map_map. apply Forall2_fmap_r, Forall_Forall2_diag.
      apply list.Forall_forall. done.
Qed.

(** The limits read from the configuration satisfy 0 <= low <= high.
    Without a high limit nothing is dropped; below the low limit nothing is
    dropped and from the high limit on everything is.  In between the code
    computes the share p of the way to the high limit and drops when the
    random number is above p: the fuller the queue the less is dropped.  At
    the start of the band (100 free slots, random number one half) a family
    is dropped, two slots before the end of it a family is kept. *)
Theorem check_drop_value_spec opt_high opt_low wql q :
  let lim := init_limits opt_high opt_low in
  0 ≤ write_limit_low lim ≤ write_limit_high lim ∧
  (write_limit_high lim = 0 → check_drop_value lim wql q = false) ∧
  (wql < write_limit_low lim → check_drop_value lim wql q = false) ∧
  (0 < write_limit_high lim ≤ wql → check_drop_value lim wql q = true) ∧
  (0 < write_limit_high lim → write_limit_low lim ≤ wql < write_limit_high lim →
   let p := fdiv (of_Z (1 + wql - write_limit_low lim)) (of_Z (1 + write_limit_high lim - write_limit_low lim)) in
   flt fzero p = true → flt p (of_Z 1) = true → check_drop_value lim wql q = flt p q) ∧
  let half := fdiv (of_Z 1) (of_Z 2) in
  check_drop_value (init_limits (Some 100) (Some 0)) 0 half = true ∧
  check_drop_value (init_limits (Some 100) (Some 0)) 98 half = false.
Proof.
  intros lim. assert (0 ≤ write_limit_low lim ≤ write_limit_high lim) as Hlim by apply init_limits_ok.
  unfold check_drop_value, get_drop_probability. split; [done|]. split_and!.
  - by intros ->.
  - intros H. rewrite (proj2 (Z.ltb_lt _ _) H). by destruct (_ =? 0).
  - intros [H1 H2]. rewrite (proj2 (Z.eqb_neq _ _)), (proj2 (Z.ltb_ge _ _)), (proj2 (Z.leb_le _ _)) by lia. done.
  - intros H1 H2 Hp0 Hp1.
    rewrite (proj2 (Z.eqb_neq _ _)), (proj2 (Z.ltb_ge _ _)), (proj2 (Z.leb_gt _ _)) by lia.
    by rewrite (flt_not_feq_l _ _ Hp0), (flt_not_feq _ _ Hp1).
  - by vm_compute.
  - by vm_compute.
Qed.

(** The cache event callbacks: for a new metric every active callback is
    called in order, and the mask stored for the metric has exactly the bits
    of the callbacks that succeeded and subscribed.  For updates and expiry
    the mask is not looked at: every active callback is called, also those
    that did not subscribe to the metric.  (At most 31 slots: the shift by the
    last of the 32 slots overflows an int.) *)
Theorem plugin_dispatch_cache_event_spec {CB D} (ev : cache_events CB D) mask answer :
  (length (list_cache_event ev) ≤ 31)%nat →
  wp (plugin_dispatch_cache_event ev VALUE_NEW mask answer) (λ '(calls, stored),
    calls = active_calls (list_cache_event ev) ∧
    ∃ m, stored = (if m =? 0 then None else Some m) ∧
      ∀ i, Z.testbit m (Z.of_nat i) = subscribed answer (list_cache_event ev) i) ∧
  (∀ ty, ty ≠ VALUE_NEW →
   wp (plugin_dispatch_cache_event ev ty mask answer) (λ '(calls, stored),
     calls = active_calls (list_cache_event ev) ∧ stored = None)).
Proof.
  intros Hlen. split.
  - unfold plugin_dispatch_cache_event. apply wp_bind. eapply wp_mono; [apply new_loop_wp; simpl; lia|].
    intros [m c] [-> ->]. apply wp_ret. split; [done|]. eexists. split; [done|]. intros i.
    rewrite Z.lor_0_l, mask_bits_spec. by rewrite Nat.sub_0_r.
  - intros ty Hty. assert (plugin_dispatch_cache_event ev ty mask answer
      = let* calls := update_loop mask 0 (list_cache_event ev) [] in ret (calls, None)) as -> by by destruct ty.
    apply wp_bind. eapply wp_mono; [apply update_loop_wp; simpl; lia|]. intros c ->. by apply wp_ret.
Qed.

Definition idle_state : dispatch_state := mk_dispatch (mk_limits 0 0) true 0.
Definition one_metric : metric_family_t := set_metrics (test_family $"m") [test_metric [($"a", $"1")]].

Lemma plugin_dispatch_metric_family_spec_witness :
  ∃ copy, plugin_dispatch_metric_family idle_state 0 fzero 7 10 (demo_ctx $"cpu") one_metric
    ⇓ (0, Some (copy, demo_ctx $"cpu"), idle_state) ∧ fam_name copy = Some $"m".
Proof.
  destruct (plugin_dispatch_metric_family_spec idle_state 0 fzero 7 10 (demo_ctx $"cpu") one_metric $"m")
    as (_ & _ & H); [reflexivity| |].
  - constructor; [|constructor]. split_and!; [by exists [($"a", $"1")]|done|done].
  - destruct H as (copy & Hc & Hn & _); [done|reflexivity|]. exists copy. split; [exact Hc|exact Hn].
Defined.

Lemma check_drop_value_spec_witness :
  check_drop_value (init_limits (Some 10) None) 4 fzero = false ∧
  check_drop_value (init_limits (Some 10) None) 10 fzero = true.
Proof.
  split.
  - destruct (check_drop_value_spec (Some 10) None 4 fzero) as (_ & _ & H & _). apply H. vm_compute. reflexivity.
  - destruct (check_drop_value_spec (Some 10) None 10 fzero) as (_ & _ & _ & H & _). apply H.
    split; [vm_compute; reflexivity|]. vm_compute. discriminate.
Defined.

Definition demo_events : cache_events Z Z :=
  mk_events [mk_cef (Some 1) $"a" (mk_ud None false) (demo_ctx $"a"); mk_cef None [] (mk_ud None false) (demo_ctx $"b");
             mk_cef (Some 3) $"c" (mk_ud None false) (demo_ctx $"c")] [].

(** Only [c] subscribed (mask 4), but the update goes to [a] as well. *)
Lemma plugin_dispatch_cache_event_spec_witness :
  wp (plugin_dispatch_cache_event demo_events VALUE_UPDATE 4 (λ _, (0, 0))) (λ '(calls, stored),
    calls = [($"a", demo_ctx $"a"); ($"c", demo_ctx $"c")] ∧ stored = None).
Proof.
  destruct (plugin_dispatch_cache_event_spec demo_events 4 (λ _, (0, 0))) as [_ H]; [simpl; lia|].
  exact (H VALUE_UPDATE ltac:(discriminate)).
Defined.
