(* ===== verification/ReadLoop.v ===== *)
(** * The read scheduler (src/daemon/plugin.c)

    Read callbacks are kept in a heap ordered by the time of their next read
    and in a list by name.  Read threads take the callback that is due next
    out of the heap, sleep until it is due, call it, compute the next time and
    put it back; other threads register and unregister callbacks; the
    shutdown code stops the threads.

    [step] runs one thread to its next access to shared state; a critical
    section of [read_lock] is one step.  Read functions are addresses of a
    memory; using or freeing one that is not allocated is [Undefined].  A heap
    element carries the [rf_next_read] the comparison reads; only the thread
    that took a callback out of the heap changes that field.  The clock, the
    status a callback returns and the outcomes of allocations are part of the
    action. *)

From stdpp Require Import base gmap list numbers option fin_maps fin_map_dom.
From S2P Require Import Prelude Heap LList WriteQueue.

Inductive rf_type_t : Type := RF_SIMPLE | RF_COMPLEX | RF_REMOVE.
#[export] Instance rf_type_dec : EqDecision rf_type_t.
Proof. solve_decision. Defined.

Record read_func_t : Type := mk_rf {
  rf_group : cstr;
  rf_name : cstr;
  rf_type : rf_type_t;
  rf_interval : Z;
  rf_effective_interval : Z;
  rf_next_read : Z;
}.

Record heap_elem : Type := mk_elem { he_next_read : Z; he_rf : ptr }.

Definition plugin_compare_read_func (rf0 rf1 : heap_elem) : Z :=
  if he_next_read rf0 <? he_next_read rf1 then -1
  else if he_next_read rf0 >? he_next_read rf1 then 1 else 0.
#[export] Instance elem_comparator : Comparator heap_elem := plugin_compare_read_func.

(** The points of plugin_read_thread. *)
Inductive rpc : Type :=
| R_loop
| R_pop
| R_wait
| R_got (rf : ptr)
| R_sleep (rf : ptr) (rc : bool)
| R_timedwait (rf : ptr)
| R_check (rf : ptr) (ty : rf_type_t)
| R_call (rf : ptr) (ty : rf_type_t)
| R_exit.

Record rsys : Type := mk_rsys {
  rfs : gmap ptr read_func_t;
  read_heap : c_heap heap_elem;
  read_list : list (cstr * ptr);
  read_loop : bool;
  readers : list rpc;
  lost : list ptr;
}.

Inductive raction : Type :=
| Reader (t : nat) (now status : Z) (realloc_ok : bool)
| Timeout (t : nat)
| Wakeup (t : nat)
| Register (rf : read_func_t) (now : Z) (calloc_ok entry_ok realloc_ok : bool)
| Unregister (name : cstr)
| UnregisterGroup (group : cstr)
| Stop
| Shutdown.

Section scheduler.
(** [max_read_interval], and the interval of the plugin context. *)
Context (max_read_interval plugin_interval : Z).

Definition set_reader (s : rsys) (t : nat) (p : rpc) : rsys :=
  mk_rsys (rfs s) (read_heap s) (read_list s) (read_loop s) (<[t := p]> (readers s)) (lost s).
Definition set_rfs (s : rsys) (m : gmap ptr read_func_t) : rsys :=
  mk_rsys m (read_heap s) (read_list s) (read_loop s) (readers s) (lost s).
Definition set_heap (s : rsys) (h : c_heap heap_elem) : rsys :=
  mk_rsys (rfs s) h (read_list s) (read_loop s) (readers s) (lost s).
Definition set_list (s : rsys) (l : list (cstr * ptr)) : rsys :=
  mk_rsys (rfs s) (read_heap s) l (read_loop s) (readers s) (lost s).

(** pthread_cond_broadcast (&read_cond) *)
Definition wake_reader (p : rpc) : rpc :=
  match p with R_wait => R_loop | R_timedwait rf => R_sleep rf false | p => p end.
Definition broadcast (s : rsys) : rsys :=
  mk_rsys (rfs s) (read_heap s) (read_list s) (read_loop s) (map wake_reader (readers s)) (lost s).

(** The heap cannot outgrow the address space. *)
Definition realloc_possible (ok : bool) (h : c_heap heap_elem) : bool := ok && (list_size h + 16 <? 2 ^ 60).

(** c_heap_insert (read_heap, rf), with its status. *)
Definition heap_insert (s : rsys) (ok : bool) (rf : ptr) (x : read_func_t) : option (Z * rsys) :=
  '(status, h) ← c_heap_insert (realloc_possible ok (read_heap s)) (read_heap s) (mk_elem (rf_next_read x) rf);
  Some (status, set_heap s h).

(** The read thread ignores the status: a callback that does not get back
    into the heap is lost. *)
Definition reinsert (s : rsys) (ok : bool) (rf : ptr) (x : read_func_t) : option rsys :=
  '(status, s) ← heap_insert s ok rf x;
  Some (if status =? 0 then s
        else mk_rsys (rfs s) (read_heap s) (read_list s) (read_loop s) (readers s) (rf :: lost s)).

(** plugin_read_thread: the new intervals and the next (absolute) time after a
    call that returned [status]. *)
Definition reschedule (x : read_func_t) (status now : Z) : read_func_t :=
  let eff :=
    if negb (status =? 0) then
      let e := u64 (rf_effective_interval x * 2) in
      if max_read_interval <? e then max_read_interval else e
    else rf_interval x in
  let next := u64 (rf_next_read x + eff) in
  mk_rf (rf_group x) (rf_name x) (rf_type x) (rf_interval x) eff (if next <? now then now else next).

Definition with_type (x : read_func_t) (ty : rf_type_t) : read_func_t :=
  mk_rf (rf_group x) (rf_name x) ty (rf_interval x) (rf_effective_interval x) (rf_next_read x).
Definition with_times (x : read_func_t) (interval eff next : Z) : read_func_t :=
  mk_rf (rf_group x) (rf_name x) (rf_type x) interval eff next.

Definition undef {A B} (o : option A) (k : A → outcome B) : outcome B :=
  match o with Some a => k a | None => Undefined end.

Definition reader_step (s : rsys) (t : nat) (p : rpc) (now status : Z) (ok : bool) : outcome rsys :=
  match p with
  | R_loop => Next (set_reader s t (if read_loop s then R_pop else R_exit))
  | R_pop =>
      undef (c_heap_get_root ok (read_heap s)) (λ '(root, h),
      match root with
      | None => Next (set_reader (set_heap s h) t R_wait)
      | Some e => Next (set_reader (set_heap s h) t (R_got (he_rf e)))
      end)
  | R_got rf =>
      undef (rfs s !! rf) (λ x,
      let s := if rf_interval x =? 0
               then set_rfs s (<[rf := with_times x plugin_interval plugin_interval now]> (rfs s)) else s in
      Next (set_reader s t (R_sleep rf false)))
  | R_sleep rf rc =>
      undef (rfs s !! rf) (λ x,
      if read_loop s && (now <? rf_next_read x) && negb rc
      then Next (set_reader s t (R_timedwait rf))
      else Next (set_reader s t (R_check rf (rf_type x))))
  | R_check rf ty =>
      if negb (read_loop s) then
        undef (rfs s !! rf) (λ x,
        undef (reinsert s ok rf x) (λ s, Next (set_reader s t R_exit)))
      else if decide (ty = RF_REMOVE) then
        undef (rfs s !! rf) (λ _, Next (set_reader (set_rfs s (delete rf (rfs s))) t R_loop))
      else Next (set_reader s t (R_call rf ty))
  | R_call rf ty =>
      if decide (ty = RF_REMOVE) then Undefined
      else
        undef (rfs s !! rf) (λ x,
        let x := reschedule x status now in
        undef (reinsert (set_rfs s (<[rf := x]> (rfs s))) ok rf x) (λ s, Next (set_reader s t R_loop)))
  | R_wait | R_timedwait _ | R_exit => Blocked
  end.

Fixpoint list_search (l : list (cstr * ptr)) (name : cstr) : option ptr :=
  match l with
  | [] => None
  | (k, p) :: l => if strcmp k name =? 0 then Some p else list_search l name
  end.
Fixpoint list_remove (l : list (cstr * ptr)) (p : ptr) : list (cstr * ptr) :=
  match l with
  | [] => []
  | (k, q) :: l => if decide (q = p) then l else (k, q) :: list_remove l p
  end.

(** plugin_register_read / plugin_register_complex_read, with
    plugin_insert_read; the new read function is freed again on failure.
    [entry_ok] stands for the allocations of the list entry and, for the first
    callback, of the list and the heap, which fail in the same way. *)
Definition plugin_insert_read (s : rsys) (x : read_func_t) (now : Z) (calloc_ok entry_ok realloc_ok : bool) :
    outcome (Z * rsys) :=
  if negb calloc_ok then Next (ENOMEM, s) else
  let rf := fresh (dom (rfs s)) in
  let x := with_times x (rf_interval x) (rf_interval x) now in
  match list_search (read_list s) (rf_name x) with
  | Some _ => Next (EINVAL, s)
  | None =>
      if negb entry_ok then Next (-1, s) else
      undef (heap_insert (set_rfs s (<[rf := x]> (rfs s))) realloc_ok rf x) (λ '(status, s'),
      if negb (status =? 0) then Next (-1, s)
      else Next (0, broadcast (set_list s' (read_list s' ++ [(rf_name x, rf)]))))
  end.

(** Mark a read function for removal. *)
Definition mark_remove (s : rsys) (rf : ptr) : option rsys :=
  x ← rfs s !! rf;
  Some (set_rfs (set_list s (list_remove (read_list s) rf)) (<[rf := with_type x RF_REMOVE]> (rfs s))).

Definition plugin_unregister_read (s : rsys) (name : cstr) : outcome (Z * rsys) :=
  match list_search (read_list s) name with
  | None => Next (- ENOENT, s)
  | Some rf => undef (mark_remove s rf) (λ s, Next (0, s))
  end.

(** compare_read_func_group, through the value of the list entry. *)
Fixpoint group_search (m : gmap ptr read_func_t) (l : list (cstr * ptr)) (group : cstr) : option (option ptr) :=
  match l with
  | [] => Some None
  | (k, p) :: l => x ← m !! p; if strcmp (rf_group x) group =? 0 then Some (Some p) else group_search m l group
  end.
Fixpoint group_loop (fuel : nat) (s : rsys) (group : cstr) (found : Z) : option (Z * rsys) :=
  match fuel with
  | O => None
  | S fuel =>
      le ← group_search (rfs s) (read_list s) group;
      match le with
      | None => Some (found, s)
      | Some rf => s ← mark_remove s rf; group_loop fuel s group (found + 1)
      end
  end.
Definition plugin_unregister_read_group (s : rsys) (group : cstr) : outcome (Z * rsys) :=
  undef (group_loop (S (length (read_list s))) s group 0) (λ '(found, s),
  Next (if found =? 0 then - ENOENT else 0, s)).

(** destroy_read_heap: every callback in the heap is freed. *)
Fixpoint destroy_heap (fuel : nat) (s : rsys) : option rsys :=
  match fuel with
  | O => None
  | S fuel =>
      '(root, h) ← c_heap_get_root true (read_heap s);
      match root with
      | None => Some (set_heap s h)
      | Some e =>
          _ ← rfs s !! he_rf e;
          destroy_heap fuel (set_rfs (set_heap s h) (delete (he_rf e) (rfs s)))
      end
  end.

Definition is_rexit (p : rpc) : bool := match p with R_exit => true | _ => false end.

Definition rstep (s : rsys) (a : raction) : outcome rsys :=
  match a with
  | Reader t now status ok =>
      match readers s !! t with Some p => reader_step s t p now status ok | None => Blocked end
  | Timeout t =>
      match readers s !! t with Some (R_timedwait rf) => Next (set_reader s t (R_sleep rf true)) | _ => Blocked end
  | Wakeup t =>
      match readers s !! t with
      | Some (R_timedwait rf) => Next (set_reader s t (R_sleep rf false))
      | Some R_wait => Next (set_reader s t R_loop)
      | _ => Blocked
      end
  | Register x now o1 o2 o3 =>
      match plugin_insert_read s x now o1 o2 o3 with
      | Next (_, s) => Next s | Undefined => Undefined | Blocked => Blocked
      end
  | Unregister name =>
      match plugin_unregister_read s name with
      | Next (_, s) => Next s | Undefined => Undefined | Blocked => Blocked
      end
  | UnregisterGroup group =>
      match plugin_unregister_read_group s group with
      | Next (_, s) => Next s | Undefined => Undefined | Blocked => Blocked
      end
  | Stop =>
      (* stop_read_threads: read_loop = 0, broadcast *)
      Next (broadcast (mk_rsys (rfs s) (read_heap s) (read_list s) false (readers s) (lost s)))
  | Shutdown =>
      (* pthread_join of every read thread, llist_destroy, destroy_read_heap *)
      if negb (read_loop s) && forallb is_rexit (readers s) then
        undef (destroy_heap (S (Z.to_nat (list_len (read_heap s)))) (set_list s [])) Next
      else Blocked
  end.

Definition rinit (n : nat) : rsys := mk_rsys ∅ c_heap_create [] true (replicate n R_loop) [].

(** Read functions come from the register functions: not yet marked. *)
Definition action_ok (a : raction) : Prop :=
  match a with Register x _ _ _ _ => rf_type x ≠ RF_REMOVE | _ => True end.

Inductive rreachable : rsys → Prop :=
| rreach_init n : rreachable (rinit n)
| rreach_step s a s' : rreachable s → action_ok a → rstep s a = Next s' → rreachable s'.
End scheduler.

#[export] Instance elem_preorder : TotalPreorder heap_elem.
Proof.
  split; unfold compare, elem_comparator, plugin_compare_read_func; intros; rewrite ?Z.gtb_ltb in *;
    repeat match goal with
    | |- context [?a <? ?b] => destruct (Z.ltb_spec a b)
    | H : context [?a <? ?b] |- _ => destruct (Z.ltb_spec a b)
    end; lia.
Qed.

(** ** Where the read functions are

    Every read function that is allocated is in the heap, in the hands of one
    read thread, or lost. *)

Section invariant.
Implicit Types (s : rsys) (xs : list heap_elem).

Definition held (p : rpc) : list ptr :=
  match p with
  | R_got rf | R_sleep rf _ | R_timedwait rf | R_check rf _ | R_call rf _ => [rf]
  | _ => []
  end.
Definition hands s : list ptr := readers s ≫= held.

(** What a thread knows about the read function it took. *)
Definition rpc_ok (m : gmap ptr read_func_t) (p : rpc) : Prop :=
  match p with
  | R_check rf RF_REMOVE => ∃ x, m !! rf = Some x ∧ rf_type x = RF_REMOVE
  | R_call rf ty => ty ≠ RF_REMOVE
  | _ => True
  end.

Record heap_inv (m : gmap ptr read_func_t) (h : c_heap heap_elem) xs : Prop := {
  hi_repr : heap_repr h xs;
  hi_order : heap_ordered xs;
  hi_size : list_size h < 2 ^ 60;
  hi_next : Forall (λ e, ∃ x, m !! he_rf e = Some x ∧ rf_next_read x = he_next_read e) xs;
}.

(** The list names live read functions that are not marked. *)
Record list_inv (m : gmap ptr read_func_t) (l : list (cstr * ptr)) : Prop := {
  li_names : NoDup l.*1;
  li_live : Forall (λ kp, ∃ x, m !! kp.2 = Some x ∧ rf_name x = kp.1 ∧ rf_type x ≠ RF_REMOVE) l;
}.

Definition places xs (hs : list ptr) (lo : list ptr) : list ptr := (he_rf <$> xs) ++ hs ++ lo.

Record place_inv (m : gmap ptr read_func_t) xs (hs lo : list ptr) : Prop := {
  pl_nodup : NoDup (places xs hs lo);
  pl_dom : ∀ p, is_Some (m !! p) ↔ p ∈ places xs hs lo;
}.

Definition rinv s : Prop :=
  list_inv (rfs s) (read_list s) ∧ Forall (rpc_ok (rfs s)) (readers s) ∧
  ∃ xs, heap_inv (rfs s) (read_heap s) xs ∧ place_inv (rfs s) xs (hands s) (lost s).

Definition rgood (o : outcome rsys) : Prop :=
  match o with Blocked => True | Undefined => False | Next s => rinv s end.

Lemma hands_insert (T : list rpc) t p p' :
  T !! t = Some p → (<[t := p']> T ≫= held) ++ held p ≡ₚ (T ≫= held) ++ held p'.
Proof.
  intros H. rewrite <-(take_drop_middle T t p H) at 2. rewrite (insert_take_drop T t p').
  2: { eapply lookup_lt_Some; eauto. }
  rewrite !bind_app. simpl. solve_Permutation.
Qed.

Lemma hands_same s t p p' : readers s !! t = Some p → held p' = held p → hands (set_reader s t p') = hands s.
Proof.
  intros H E. unfold hands. simpl. rewrite <-(take_drop_middle _ t p H) at 2.
  rewrite (insert_take_drop _ t p'). 2: { eapply lookup_lt_Some; eauto. }
  rewrite !bind_app. simpl. by rewrite E.
Qed.

Lemma held_in s t p rf : readers s !! t = Some p → rf ∈ held p → rf ∈ hands s.
Proof. intros H Hx. apply list_elem_of_bind. eauto using list_elem_of_lookup_2. Qed.

Lemma place_perm m xs hs lo xs' hs' lo' :
  place_inv m xs hs lo → places xs' hs' lo' ≡ₚ places xs hs lo → place_inv m xs' hs' lo'.
Proof. intros [] HP. split; [by rewrite HP|]. intros p. by rewrite HP. Qed.

(** Replacing the contents of a read function. *)
Lemma place_update m xs hs lo rf x x' : m !! rf = Some x → place_inv m xs hs lo → place_inv (<[rf := x']> m) xs hs lo.
Proof.
  intros Hx [Hnd Hd]. split; [done|]. intros p. rewrite <-Hd. destruct (decide (p = rf)) as [->|].
  - rewrite lookup_insert_eq. split; eauto.
  - by rewrite lookup_insert_ne.
Qed.

Lemma place_live m xs hs lo rf : place_inv m xs hs lo → rf ∈ hs → is_Some (m !! rf).
Proof. intros [_ Hd] Hin. apply Hd. unfold places. set_solver. Qed.

Lemma not_in_heap m xs hs lo rf : place_inv m xs hs lo → rf ∈ hs → Forall (λ e, he_rf e ≠ rf) xs.
Proof.
  intros [Hnd _] Hin. unfold places in Hnd. apply list.NoDup_app in Hnd as (_ & Hdj & _).
  apply list.Forall_forall. intros e He Hrf. apply (Hdj rf); [|set_solver].
  rewrite <-Hrf. by apply list_elem_of_fmap_2.
Qed.

Lemma heap_update m h xs rf x' :
  heap_inv m h xs → Forall (λ e, he_rf e ≠ rf) xs → heap_inv (<[rf := x']> m) h xs.
Proof.
  intros [] Hne. split; try done. apply list.Forall_forall. intros e He.
  rewrite list.Forall_forall in hi_next0, Hne. rewrite lookup_insert_ne; [by apply hi_next0|].
  intros E. by apply (Hne e He).
Qed.

Lemma list_update m l rf x x' :
  list_inv m l → m !! rf = Some x → rf_name x' = rf_name x → rf_type x' = rf_type x → list_inv (<[rf := x']> m) l.
Proof.
  intros [] Hx En Et. split; [done|]. eapply list.Forall_impl; [exact li_live0|]. intros [k p] (y & Hy & Hk & Ht).
  simpl in *. destruct (decide (p = rf)) as [->|].
  - rewrite lookup_insert_eq. exists x'. split; [done|]. assert (y = x) as -> by congruence. by rewrite En, Et.
  - rewrite lookup_insert_ne by done. eauto.
Qed.

Lemma rpc_update m T rf x x' :
  Forall (rpc_ok m) T → m !! rf = Some x → (rf_type x = RF_REMOVE → rf_type x' = RF_REMOVE) →
  Forall (rpc_ok (<[rf := x']> m)) T.
Proof.
  intros HT Hx Ht. eapply list.Forall_impl; [exact HT|]. intros p. destruct p as [| | | | | |q ty| |]; try done.
  destruct ty; try done. simpl. intros (y & Hy & Hr). destruct (decide (q = rf)) as [->|].
  - rewrite lookup_insert_eq. exists x'. split; [done|]. apply Ht. congruence.
  - rewrite lookup_insert_ne by done. eauto.
Qed.

Lemma rmove_good s t p p' :
  rinv s → readers s !! t = Some p → held p' = held p → rpc_ok (rfs s) p' → rinv (set_reader s t p').
Proof.
  intros (Hl & Hr & xs & Hh & Hp) Ht E Hok. split; [done|]. split; [by apply Forall_insert|].
  exists xs. split; [done|]. by rewrite (hands_same s t p p').
Qed.

Lemma held_live s t p rf : rinv s → readers s !! t = Some p → rf ∈ held p → is_Some (rfs s !! rf).
Proof. intros (_ & _ & xs & _ & Hp) Ht Hin. eapply place_live; [done|]. by eapply held_in. Qed.

Lemma pop_good mr pi s t ok now status :
  rinv s → readers s !! t = Some R_pop → rgood (reader_step mr pi s t R_pop now status ok).
Proof.
  intros (Hl & Hr & xs & Hh & Hp) Ht. pose proof Hh as [Hrep Hord Hsz Hnx]. unfold reader_step.
  destruct xs as [|e xs].
  - unfold c_heap_get_root. pose proof Hrep as [_ Elen _ _]. simpl in Elen. rewrite Elen. simpl.
    split; [done|]. split; [by apply Forall_insert|]. exists []. split; [done|].
    by rewrite (hands_same _ t R_pop R_wait).
  - destruct (get_root_ok ok _ _ _ Hrep Hord) as (h' & xs' & -> & Hrep' & Hord' & HP & Hsz'). simpl.
    split; [done|]. split; [by apply Forall_insert|]. exists xs'. apply Forall_cons_1 in Hnx as [_ Hnx]. split.
    + split; [done|done|simpl; lia|]. by rewrite HP.
    + eapply place_perm; [exact Hp|]. unfold places.
      pose proof (hands_insert (readers s) t R_pop (R_got (he_rf e)) Ht) as Hh'. simpl in Hh'. rewrite app_nil_r in Hh'.
      unfold hands. simpl. rewrite Hh', HP. simpl. solve_Permutation.
Qed.

(** Inserting a read function that is in nobody's place into the heap. *)
Lemma insert_spec s ok rf x xs :
  heap_inv (rfs s) (read_heap s) xs → rfs s !! rf = Some x →
  ∃ status h, heap_insert s ok rf x = Some (status, set_heap s h) ∧
    ((status = 0 ∧ ∃ xs', heap_inv (rfs s) h xs' ∧ xs' ≡ₚ mk_elem (rf_next_read x) rf :: xs) ∨
     (status ≠ 0 ∧ h = read_heap s)).
Proof.
  intros [Hrep Hord Hsz Hnx] Hx. unfold heap_insert.
  destruct (heap_insert_ok (read_heap s) xs (mk_elem (rf_next_read x) rf) Hrep Hord) as
    (h' & xs' & Hins & Hrep' & Hord' & HP & Hsz'); [lia|].
  destruct (realloc_possible ok (read_heap s)) eqn:Eok.
  - rewrite Hins. simpl. exists 0, h'. split; [done|]. left. split; [done|]. exists xs'. split; [|done].
    unfold realloc_possible in Eok. breflect. split; [done|done|rewrite Hsz'; case_match; lia|].
    rewrite HP. constructor; [|done]. by exists x.
  - unfold c_heap_insert, ensure_space in *. destruct (list_len (read_heap s) =? list_size (read_heap s)) eqn:Efull.
    + breflect. rewrite option_guard_True by lia. simpl. eexists _, _. split; [reflexivity|]. by right.
    + rewrite Hins. simpl. exists 0, h'. split; [done|]. left. split; [done|]. exists xs'. split; [|done].
      split; [done|done|lia|]. rewrite HP. constructor; [by exists x|done].
Qed.

Lemma hands_lose s t p p' rf :
  readers s !! t = Some p → held p = [rf] → held p' = [] → hands s ≡ₚ rf :: hands (set_reader s t p').
Proof.
  intros Ht E E'. pose proof (hands_insert (readers s) t p p' Ht) as HP. rewrite E, E', app_nil_r in HP.
  unfold hands. simpl. rewrite <-HP. symmetry. apply Permutation_cons_append.
Qed.

(** A thread puts the read function it holds back. *)
Lemma reinsert_good s t p p' ok rf x :
  rinv s → readers s !! t = Some p → held p = [rf] → held p' = [] → (∀ m, rpc_ok m p') → rfs s !! rf = Some x →
  ∃ s', reinsert s ok rf x = Some s' ∧ rinv (set_reader s' t p').
Proof.
  intros (Hl & Hr & xs & Hh & Hp) Ht E E' Hok Hx. unfold reinsert.
  pose proof (hands_lose s t p p' rf Ht E E') as HP.
  destruct (insert_spec s ok rf x xs Hh Hx) as (status & h & -> & [(-> & xs' & Hh' & HPx)|[Hne ->]]); simpl.
  - eexists. split; [done|]. split; [done|]. split; [by apply Forall_insert|]. exists xs'. split; [done|].
    eapply place_perm; [exact Hp|]. unfold places. rewrite HP, HPx. unfold hands. simpl. solve_Permutation.
  - rewrite (proj2 (Z.eqb_neq _ _) Hne). eexists. split; [done|]. split; [done|].
    split; [by apply Forall_insert|]. exists xs. split; [done|].
    eapply place_perm; [exact Hp|]. unfold places. rewrite HP. unfold hands. simpl. solve_Permutation.
Qed.

(** A thread changes the times of the read function it holds. *)
Lemma update_good s t p rf x x' :
  rinv s → readers s !! t = Some p → rf ∈ held p → rfs s !! rf = Some x →
  rf_name x' = rf_name x → rf_type x' = rf_type x → rinv (set_rfs s (<[rf := x']> (rfs s))).
Proof.
  intros (Hl & Hr & xs & Hh & Hp) Ht Hin Hx En Et. pose proof (held_in s t p rf Ht Hin) as Hin'.
  split; [by eapply list_update|]. split; [eapply rpc_update; eauto; by rewrite Et|].
  exists xs. split; [apply heap_update; [done|by eapply not_in_heap]|by eapply place_update].
Qed.

(** A thread frees a read function that is marked for removal. *)
Lemma remove_good s t p p' rf x :
  rinv s → readers s !! t = Some p → held p = [rf] → held p' = [] → (∀ m, rpc_ok m p') →
  rfs s !! rf = Some x → rf_type x = RF_REMOVE →
  rinv (set_reader (set_rfs s (delete rf (rfs s))) t p').
Proof.
  intros (Hl & Hr & xs & Hh & Hp) Ht E E' Hok Hx Hty. pose proof (hands_lose s t p p' rf Ht E E') as HP.
  pose proof (not_in_heap _ _ _ _ rf Hp ltac:(eapply held_in; [exact Ht|rewrite E; set_solver])) as Hnh.
  destruct Hp as [Hnd Hd]. unfold places in Hnd, Hd. setoid_rewrite HP in Hd. rewrite HP in Hnd.
  assert (Hnd' : NoDup (rf :: (he_rf <$> xs) ++ hands (set_reader s t p') ++ lost s)).
  { assert (rf :: (he_rf <$> xs) ++ hands (set_reader s t p') ++ lost s
            ≡ₚ (he_rf <$> xs) ++ (rf :: hands (set_reader s t p')) ++ lost s) as -> by solve_Permutation. done. }
  apply list.NoDup_cons in Hnd' as [Hnin Hnd'].
  split; [|split]; simpl.
  - destruct Hl as [Hn Hlv]. split; [done|]. eapply list.Forall_impl; [exact Hlv|].
    intros [k q] (y & Hy & Hk & Ht'). exists y. split; [|done]. rewrite lookup_delete_ne; [done|].
    simpl in *. congruence.
  - apply Forall_lookup. intros t' q Hq. destruct (decide (t' = t)) as [->|].
    { rewrite list_lookup_insert_eq in Hq by (by eapply lookup_lt_Some). injection Hq as <-. apply Hok. }
    assert (q ∈ <[t := p']> (readers s)) as Hqin by (by eapply list_elem_of_lookup_2).
    rewrite list_lookup_insert_ne in Hq by done.
    pose proof (proj1 (Forall_lookup _ _) Hr _ _ Hq) as Hok'. destruct q as [| | | | | |rf' []| |]; try done.
    simpl in *. destruct Hok' as (y & Hy & Hyt). exists y. rewrite lookup_delete_ne; [done|]. intros ->.
    apply Hnin. rewrite !elem_of_app. right. left. apply list_elem_of_bind.
    eexists. split; [|exact Hqin]. simpl. set_solver.
  - exists xs. split.
    + destruct Hh as [? ? ? Hnx]. split; try done. apply list.Forall_forall. intros e He.
      rewrite list.Forall_forall in Hnx, Hnh. rewrite lookup_delete_ne; [by apply Hnx|].
      intros Hc. by apply (Hnh e He).
    + split; [done|]. intros q. destruct (decide (q = rf)) as [->|].
      * rewrite lookup_delete_eq. split; [by intros []%is_Some_None|]. done.
      * rewrite lookup_delete_ne, Hd by done. unfold places. rewrite !elem_of_app, elem_of_cons.
        assert (q ≠ rf) by done. split; [intros [|[[|]|]]|intros [|[|]]]; auto; done.
Qed.

Lemma broadcast_good s : rinv s → rinv (broadcast s).
Proof.
  intros (Hl & Hr & xs & Hh & Hp). split; [done|]. split; simpl.
  - apply Forall_fmap. eapply list.Forall_impl; [exact Hr|]. intros p. by destruct p.
  - exists xs. split; [done|]. assert (hands (broadcast s) = hands s) as ->; [|done].
    unfold hands. simpl. clear. induction (readers s) as [|p l IH]; [done|]. simpl.
    change (held (wake_reader p) ++ (map wake_reader l ≫= held) = held p ++ (l ≫= held)).
    rewrite IH. by destruct p.
Qed.

Lemma reader_good mr pi s t p now status ok :
  rinv s → readers s !! t = Some p → rgood (reader_step mr pi s t p now status ok).
Proof.
  intros Hinv Ht. assert (rpc_ok (rfs s) p) as Hok.
  { destruct Hinv as (_ & Hr & _). by eapply (proj1 (Forall_lookup _ _) Hr). }
  assert (Hlive : ∀ rf, rf ∈ held p → ∃ x, rfs s !! rf = Some x) by (intros; by eapply held_live).
  destruct p as [| | |rf|rf rc|rf|rf ty|rf ty|]; simpl; try done.
  - eapply rmove_good; [done..|by destruct (read_loop s)|by destruct (read_loop s)].
  - by apply (pop_good mr pi).
  - destruct (Hlive rf) as [x Hx]; [set_solver|]. rewrite Hx. simpl.
    destruct (rf_interval x =? 0); [|by eapply rmove_good].
    eapply (rmove_good (set_rfs s _)); [eapply (update_good s t _ rf x)|..]; try done. simpl. set_solver.
  - destruct (Hlive rf) as [x Hx]; [set_solver|]. rewrite Hx. simpl. case_match; [by eapply rmove_good|].
    eapply rmove_good; try done. simpl. destruct (rf_type x) eqn:E; try done. eauto.
  - destruct (Hlive rf) as [x Hx]; [set_solver|]. destruct (read_loop s) eqn:El; simpl.
    + destruct (decide (ty = RF_REMOVE)) as [->|Hty].
      * rewrite Hx. simpl. destruct Hok as (y & Hy & Hyt).
        assert (y = x) as -> by congruence. by eapply remove_good.
      * by eapply rmove_good.
    + rewrite Hx. simpl. destruct (reinsert_good s t _ R_exit ok rf x Hinv Ht) as (s' & -> & Hs'); done.
  - destruct (decide (ty = RF_REMOVE)); [done|]. destruct (Hlive rf) as [x Hx]; [set_solver|]. rewrite Hx. simpl.
    set (x' := reschedule mr x status now).
    assert (rinv (set_rfs s (<[rf := x']> (rfs s)))) as Hinv'.
    { eapply (update_good s t _ rf x); try done. simpl. set_solver. }
    destruct (reinsert_good _ t _ R_loop ok rf x' Hinv' Ht) as (s' & -> & Hs'); try done.
    simpl. apply lookup_insert_eq.
Qed.

(** ** Registration and removal *)

Lemma list_search_spec l name :
  match list_search l name with
  | Some p => (name, p) ∈ l
  | None => name ∉ l.*1
  end.
Proof.
  induction l as [|[k p] l IH]; simpl; [by intros ?%elem_of_nil|].
  destruct (Z.eqb_spec (strcmp k name) 0) as [->%strcmp_eq|Hne]; [set_solver|].
  destruct (list_search l name); [set_solver|]. apply not_elem_of_cons. split; [|done].
  intros ->. apply Hne. by apply strcmp_eq.
Qed.

Lemma list_remove_sub l p : list_remove l p `sublist_of` l.
Proof.
  induction l as [|[k q] l IH]; simpl; [done|]. case_decide; [by apply sublist_cons|by apply sublist_skip].
Qed.

Lemma list_remove_length l k p : (k, p) ∈ l → S (length (list_remove l p)) = length l.
Proof.
  induction l as [|[k' q] l IH]; simpl; [by intros ?%elem_of_nil|].
  intros [[= <- <-]|Hin]%elem_of_cons; [by rewrite decide_True|].
  case_decide; [done|]. simpl. by rewrite IH.
Qed.

Lemma list_remove_gone l p n :
  NoDup l.*1 → (∀ k, (k, p) ∈ l → k = n) → ∀ k, (k, p) ∉ list_remove l p.
Proof.
  induction l as [|[k' q] l IH]; intros Hnd Hn k; simpl; [by intros ?%elem_of_nil|].
  rewrite fmap_cons in Hnd. apply list.NoDup_cons in Hnd as [Hk' Hnd]. simpl in Hk'. case_decide as E.
  - subst q. intros Hin. assert (k' = n) by (apply Hn; set_solver). assert (k = n) by (apply Hn; set_solver). subst.
    apply Hk'. apply list_elem_of_fmap. by exists (n, p).
  - rewrite elem_of_cons. intros [[= -> ->]|Hin]; [done|]. eapply IH; [done| |exact Hin]. intros. apply Hn. set_solver.
Qed.

Lemma mark_remove_good s rf k :
  rinv s → (k, rf) ∈ read_list s →
  ∃ s', mark_remove s rf = Some s' ∧ rinv s' ∧ S (length (read_list s')) = length (read_list s).
Proof.
  intros (Hl & Hr & xs & Hh & Hp) Hin. pose proof Hl as [Hnd Hlv].
  pose proof (proj1 (list.Forall_forall _ _) Hlv _ Hin) as (x & Hx & Hk & Hty). simpl in *.
  unfold mark_remove. rewrite Hx. simpl. eexists. split; [done|]. split; [|by eapply list_remove_length].
  pose proof (list_remove_sub (read_list s) rf) as Hsub. split; [|split]; simpl.
  - split.
    + eapply sublist_NoDup; [exact Hnd|]. by apply fmap_sublist.
    + apply list.Forall_forall. intros [k' q] Hq. simpl.
      pose proof (elem_of_submseteq _ _ _ Hq (sublist_submseteq _ _ Hsub)) as Hq'.
      pose proof (proj1 (list.Forall_forall _ _) Hlv _ Hq') as (y & Hy & Hk' & Hty'). simpl in *.
      exists y. rewrite lookup_insert_ne; [done|]. intros <-.
      eapply (list_remove_gone (read_list s) rf k); [done| |exact Hq].
      intros k'' Hk''. pose proof (proj1 (list.Forall_forall _ _) Hlv _ Hk'') as (z & Hz & Hkz & _). simpl in *. congruence.
  - by eapply rpc_update.
  - exists xs. split; [|by eapply place_update]. destruct Hh as [? ? ? Hnx]. split; try done.
    eapply list.Forall_impl; [exact Hnx|]. intros e (y & Hy & Hny). destruct (decide (he_rf e = rf)) as [E|].
    + rewrite E, lookup_insert_eq. eexists. split; [done|]. simpl. congruence.
    + rewrite lookup_insert_ne by done. eauto.
Qed.

Lemma unregister_good s name :
  rinv s → match plugin_unregister_read s name with Next (_, s') => rinv s' | _ => False end.
Proof.
  intros Hinv. unfold plugin_unregister_read. pose proof (list_search_spec (read_list s) name) as Hs.
  destruct (list_search (read_list s) name) as [rf|]; [|done].
  destruct (mark_remove_good s rf name Hinv Hs) as (s' & -> & ? & _). done.
Qed.

Lemma group_search_ok m l group :
  list_inv m l → ∃ r, group_search m l group = Some r ∧ ∀ p, r = Some p → ∃ k, (k, p) ∈ l.
Proof.
  intros [_ Hlv]. induction Hlv as [|[k p] l (x & Hx & _) _ IH]; simpl; [by exists None|].
  simpl in Hx. rewrite Hx. simpl. case_match.
  - eexists. split; [done|]. intros ? [= <-]. exists k. set_solver.
  - destruct IH as (r & -> & Hr). exists r. split; [done|]. intros q Hq. destruct (Hr q Hq) as [k' ?]. exists k'. set_solver.
Qed.

Lemma group_loop_good fuel s group found :
  rinv s → (length (read_list s) < fuel)%nat →
  ∃ found' s', group_loop fuel s group found = Some (found', s') ∧ rinv s'.
Proof.
  revert s found; induction fuel as [|fuel IH]; intros s found Hinv Hf; [lia|]. simpl.
  pose proof Hinv as (Hl & _). destruct (group_search_ok (rfs s) (read_list s) group Hl) as (r & -> & Hr). simpl.
  destruct r as [rf|]; [|eauto]. destruct (Hr rf eq_refl) as [k Hin].
  destruct (mark_remove_good s rf k Hinv Hin) as (s' & -> & Hinv' & Hlen). simpl. apply IH; [done|lia].
Qed.

Lemma register_good s x now o1 o2 o3 :
  rinv s → rf_type x ≠ RF_REMOVE →
  match plugin_insert_read s x now o1 o2 o3 with Next (_, s') => rinv s' | _ => False end.
Proof.
  intros Hinv Hty. unfold plugin_insert_read. destruct o1; simpl; [|done].
  pose proof (list_search_spec (read_list s) (rf_name x)) as Hs.
  destruct (list_search (read_list s) (rf_name x)); [done|]. destruct o2; simpl; [|done].
  set (rf := fresh (dom (rfs s))). set (x' := with_times x (rf_interval x) (rf_interval x) now).
  assert (rfs s !! rf = None) as Hfr by apply not_elem_of_dom, is_fresh.
  pose proof Hinv as (Hl & Hr & xs & Hh & Hp).
  assert (heap_inv (<[rf := x']> (rfs s)) (read_heap s) xs) as Hh'.
  { apply heap_update; [done|]. destruct Hh as [_ _ _ Hnx]. eapply list.Forall_impl; [exact Hnx|].
    intros e (y & Hy & _) E. congruence. }
  destruct (insert_spec (set_rfs s (<[rf := x']> (rfs s))) o3 rf x' xs) as
    (status & h & -> & [(-> & xs' & Hh'' & HPx)|[Hne ->]]); [done|apply lookup_insert_eq|..]; simpl; cycle 1.
  { by rewrite (proj2 (Z.eqb_neq _ _) Hne). }
  apply broadcast_good. simpl in Hh''. split; [|split]; simpl.
  - destruct Hl as [Hnd Hlv]. split.
    + rewrite fmap_app. apply list.NoDup_app. split; [done|]. simpl. split; [set_solver|apply NoDup_singleton].
    + apply Forall_app. split.
      * eapply list.Forall_impl; [exact Hlv|]. intros [k q] (y & Hy & ?). exists y. simpl in *.
        rewrite lookup_insert_ne; [done|]. congruence.
      * constructor; [|constructor]. exists x'. simpl. by rewrite lookup_insert_eq.
  - eapply list.Forall_impl; [exact Hr|]. intros q. destruct q as [| | | | | |rf' []| |]; try done.
    simpl. intros (y & Hy & ?). exists y. rewrite lookup_insert_ne; [done|]. congruence.
  - exists xs'. split; [done|]. destruct Hp as [Hnd Hd].
    assert (places xs' (hands s) (lost s) ≡ₚ rf :: places xs (hands s) (lost s)) as HP.
    { unfold places. rewrite HPx. simpl. done. }
    change (hands (set_list _ _)) with (hands s). split; [rewrite HP; apply list.NoDup_cons; split; [|done]|].
    + rewrite <-Hd, Hfr. by intros []%is_Some_None.
    + intros q. rewrite HP, elem_of_cons, <-Hd. destruct (decide (q = rf)) as [->|].
      * rewrite lookup_insert_eq. naive_solver.
      * rewrite lookup_insert_ne by done. naive_solver.
Qed.

(** ** Shutdown *)

Lemma destroy_heap_good fuel s xs lo :
  heap_inv (rfs s) (read_heap s) xs → place_inv (rfs s) xs [] lo → (length xs < fuel)%nat →
  ∃ s', destroy_heap fuel s = Some s' ∧ heap_inv (rfs s') (read_heap s') [] ∧ place_inv (rfs s') [] [] lo ∧
    read_list s' = read_list s ∧ readers s' = readers s ∧ lost s' = lost s ∧ read_loop s' = read_loop s.
Proof.
  revert s xs; induction fuel as [|fuel IH]; intros s xs Hh Hp Hf; [lia|]. simpl.
  pose proof Hh as [Hrep Hord Hsz Hnx]. destruct xs as [|e xs].
  - pose proof Hrep as [_ Elen _ _]. simpl in Elen. unfold c_heap_get_root. rewrite Elen. simpl. eexists. split; [done|]. done.
  - destruct (get_root_ok true _ _ _ Hrep Hord) as (h' & xs' & -> & Hrep' & Hord' & HP & Hsz'). simpl.
    apply Forall_cons_1 in Hnx as [(x & Hx & _) Hnx]. rewrite Hx. simpl.
    destruct Hp as [Hnd Hd]. unfold places in Hnd, Hd. simpl in Hnd, Hd.
    pose proof Hnd as Hnd0. apply list.NoDup_cons in Hnd as [Hnin Hnd].
    destruct (IH (set_rfs (set_heap s h') (delete (he_rf e) (rfs s))) xs') as (s' & -> & ? & ? & ? & ? & ? & ?).
    + split; simpl; [done|done|lia|]. rewrite HP. apply list.Forall_forall. intros e' He'.
      rewrite list.Forall_forall in Hnx. rewrite lookup_delete_ne; [by apply Hnx|].
      intros E. apply Hnin. rewrite E. apply elem_of_app. left. by apply list_elem_of_fmap_2.
    + split; unfold places; simpl; [by rewrite HP|]. intros q. rewrite HP. destruct (decide (q = he_rf e)) as [->|].
      * rewrite lookup_delete_eq. split; [by intros []%is_Some_None|done].
      * rewrite lookup_delete_ne, Hd, elem_of_cons by done. naive_solver.
    + rewrite HP. simpl in Hf. lia.
    + exists s'. done.
Qed.

Lemma hands_exit s : forallb is_rexit (readers s) = true → hands s = [] ∧ Forall (λ p, p = R_exit) (readers s).
Proof.
  unfold hands. induction (readers s) as [|p l IH]; [done|]. simpl. intros [Hp Hl]%andb_true_iff.
  destruct (IH Hl) as [E F]. destruct p; try done. split; [exact E|by constructor].
Qed.

Lemma shutdown_good s :
  rinv s → forallb is_rexit (readers s) = true →
  ∃ s', destroy_heap (S (Z.to_nat (list_len (read_heap s)))) (set_list s []) = Some s' ∧ rinv s' ∧
    readers s' = readers s ∧ read_loop s' = read_loop s ∧ lost s' = lost s ∧ read_list s' = [] ∧
    ∀ p, is_Some (rfs s' !! p) ↔ p ∈ lost s'.
Proof.
  intros (Hl & Hr & xs & Hh & Hp) Hex. destruct (hands_exit s Hex) as [Eh Fx]. rewrite Eh in Hp.
  pose proof Hh as [[_ Elen _ _] _ _ _].
  destruct (destroy_heap_good (S (Z.to_nat (list_len (read_heap s)))) (set_list s []) xs (lost s))
    as (s' & -> & Hh' & Hp' & E1 & E2 & E3 & E4); [done|done|lia|]. simpl in *.
  exists s'. split; [done|]. split; [|rewrite E3; split_and!; try done; intros p; destruct Hp' as [_ Hd]; by rewrite Hd].
  assert (hands s' = []) as Eh' by (unfold hands; by rewrite E2).
  split; [rewrite E1; split; constructor|]. split.
  - rewrite E2. eapply list.Forall_impl; [exact Fx|]. by intros p ->.
  - exists []. rewrite Eh', E3. done.
Qed.

Lemma rstep_good mr pi s a : rinv s → action_ok a → rgood (rstep mr pi s a).
Proof.
  intros Hinv Ha. destruct a as [t now status ok|t|t|x now o1 o2 o3|name|group| |]; cbn [rstep action_ok] in *.
  - destruct (readers s !! t) as [p|] eqn:Ht; [|done]. by apply reader_good.
  - destruct (readers s !! t) as [[]|] eqn:Ht; try done. by eapply rmove_good.
  - destruct (readers s !! t) as [[]|] eqn:Ht; try done; by eapply rmove_good.
  - pose proof (register_good s x now o1 o2 o3 Hinv Ha) as H. by destruct (plugin_insert_read _ _ _ _ _ _) as [| |[]].
  - pose proof (unregister_good s name Hinv) as H. by destruct (plugin_unregister_read _ _) as [| |[]].
  - unfold plugin_unregister_read_group.
    destruct (group_loop_good (S (length (read_list s))) s group 0 Hinv) as (f & s' & -> & ?); [lia|]. done.
  - apply broadcast_good. destruct Hinv as (? & ? & xs & ? & ?). split; [done|]. split; [done|]. by exists xs.
  - destruct (negb (read_loop s) && forallb is_rexit (readers s)) eqn:E; [|done]. breflect.
    destruct (shutdown_good s Hinv) as (s' & -> & ? & _); [done|]. done.
Qed.

Lemma rinit_inv n : rinv (rinit n).
Proof.
  split; [split; constructor|]. split; simpl.
  - apply Forall_replicate. done.
  - exists []. split.
    + split; simpl; [apply (heap_repr_intro [] []); simpl; lia| |lia|constructor].
      intros i Hi a b _ Hb. done.
    + assert (hands (rinit n) = []) as ->.
      { unfold hands. simpl. induction n as [|n IH]; [done|]. simpl. exact IH. }
      split; [constructor|]. intros p. unfold places. simpl. rewrite lookup_empty.
      split; [by intros []%is_Some_None|by intros ?%elem_of_nil].
Qed.

Lemma rreachable_inv mr pi s : rreachable mr pi s → rinv s.
Proof.
  induction 1 as [n|s a s' _ IH Ha E]; [apply rinit_inv|].
  pose proof (rstep_good mr pi s a IH Ha) as Hg. by rewrite E in Hg.
Qed.

Lemma held_unique (T : list rpc) t t' p p' rf :
  NoDup (T ≫= held) → T !! t = Some p → T !! t' = Some p' → rf ∈ held p → rf ∈ held p' → t = t'.
Proof.
  revert t t'; induction T as [|q T IH]; intros t t' Hnd Ht Ht' Hp Hp'; [done|].
  change (NoDup (held q ++ (T ≫= held))) in Hnd. apply list.NoDup_app in Hnd as (_ & Hdj & Hnd).
  assert (∀ i r, T !! i = Some r → rf ∈ held r → rf ∈ T ≫= held) as Hin.
  { intros i r Hi Hr. apply list_elem_of_bind. eauto using list_elem_of_lookup_2. }
  destruct t as [|t], t' as [|t']; simpl in *; simplify_eq; [done| | |].
  - by destruct (Hdj rf Hp (Hin _ _ Ht' Hp')).
  - by destruct (Hdj rf Hp' (Hin _ _ Ht Hp)).
  - f_equal. by eapply IH.
Qed.
End invariant.

(** ** Runs *)

Section runs.
Context (mr pi : Z).

(** A run stops at the first action that cannot happen. *)
Fixpoint rrun (s : rsys) (l : list raction) : outcome rsys :=
  match l with
  | [] => Next s
  | a :: l => match rstep mr pi s a with Next s => rrun s l | o => o end
  end.

Lemma rrun_reachable s l s' :
  rreachable mr pi s → Forall action_ok l → rrun s l = Next s' → rreachable mr pi s'.
Proof.
  intros Hs Hl. revert s Hs; induction Hl as [|a l Ha _ IH]; intros s Hs; simpl; [by intros [= <-]|].
  destruct (rstep mr pi s a) as [| |s1] eqn:E; try done. intros H. eapply IH; [|exact H]. by eapply rreach_step.
Qed.

(** Actions after which no thread is woken up: all but a broadcast and a
    spurious wakeup. *)
Definition quiet (a : raction) : bool :=
  match a with Reader _ _ _ _ | Timeout _ | Unregister _ | UnregisterGroup _ => true | _ => false end.

Definition asleep (p : rpc) : bool := match p with R_wait | R_exit => true | _ => false end.

Lemma group_loop_readers fuel s group found found' s' :
  group_loop fuel s group found = Some (found', s') → readers s' = readers s ∧ read_loop s' = read_loop s.
Proof.
  revert s found; induction fuel as [|fuel IH]; intros s found; [done|]. simpl.
  destruct (group_search _ _ _) as [[rf|]|]; simpl; [|by intros [= <- <-]|done].
  unfold mark_remove. destruct (rfs s !! rf); [|done]. simpl. intros [-> ->]%IH. done.
Qed.

Lemma asleep_step s a s' :
  forallb asleep (readers s) = true → quiet a = true → rstep mr pi s a = Next s' →
  readers s' = readers s ∧ read_loop s' = read_loop s.
Proof.
  intros Hs Hq E. assert (∀ t p, readers s !! t = Some p → p = R_wait ∨ p = R_exit) as Hp.
  { intros t p Ht. rewrite forallb_forall in Hs. pose proof (Hs p ltac:(by eapply list_elem_of_In, list_elem_of_lookup_2)).
    by destruct p; auto. }
  destruct a; try done; cbn [rstep] in E.
  - destruct (readers s !! t) as [p|] eqn:Ht; [|done]. by destruct (Hp _ _ Ht) as [->| ->].
  - destruct (readers s !! t) as [p|] eqn:Ht; [|done]. by destruct (Hp _ _ Ht) as [->| ->].
  - unfold plugin_unregister_read, mark_remove in E.
    destruct (list_search _ _) as [rf|]; [destruct (rfs s !! rf); [|done]|]; by injection E as <-.
  - unfold plugin_unregister_read_group in E.
    destruct (group_loop _ _ _ _) as [[f s1]|] eqn:Eg; [|done]. simpl in E. injection E as <-.
    by eapply group_loop_readers.
Qed.

Lemma asleep_run s l s' :
  forallb asleep (readers s) = true → forallb quiet l = true → rrun s l = Next s' →
  readers s' = readers s ∧ read_loop s' = read_loop s.
Proof.
  revert s; induction l as [|a l IH]; intros s Hs Hl; simpl in *; [by intros [= <-]|].
  apply andb_true_iff in Hl as [Ha Hl]. destruct (rstep mr pi s a) as [| |s1] eqn:E; try done.
  destruct (asleep_step s a s1 Hs Ha E) as [E1 E2]. intros H. rewrite <-E1, <-E2. eapply IH; [by rewrite E1|done..].
Qed.

(** [k] failing calls in a row. *)
Definition after_failures (x : read_func_t) (nows : list Z) : read_func_t :=
  foldl (λ x now, reschedule mr x 1 now) x nows.

Lemma failures_interval x nows : rf_interval (after_failures x nows) = rf_interval x.
Proof. unfold after_failures. revert x; induction nows as [|n nows IH]; intros x; simpl; [done|]. by rewrite IH. Qed.

Lemma failure_eff x now :
  0 ≤ rf_effective_interval x < 2 ^ 63 →
  rf_effective_interval (reschedule mr x 1 now) = Z.min (2 * rf_effective_interval x) mr.
Proof.
  intros H. simpl. unfold u64, wrap. rewrite Z.mod_small by lia.
  destruct (Z.ltb_spec mr (rf_effective_interval x * 2)); lia.
Qed.

Lemma failures_eff x nows :
  rf_effective_interval x = rf_interval x → 0 ≤ rf_interval x < 2 ^ 63 → 0 ≤ mr < 2 ^ 63 →
  0 ≤ rf_effective_interval (after_failures x nows) < 2 ^ 63 ∧
  (nows ≠ [] → rf_effective_interval (after_failures x nows) = Z.min (2 ^ Z.of_nat (length nows) * rf_interval x) mr).
Proof.
  intros He Hi Hm. induction nows as [|n nows IH] using rev_ind; [simpl; split; [lia|done]|].
  unfold after_failures in *. rewrite foldl_app. cbn [foldl]. destruct IH as [Hr Hy].
  rewrite failure_eff by done. split; [lia|]. intros _. rewrite length_app, Nat.add_1_r, Nat2Z.inj_succ, Z.pow_succ_r by lia.
  destruct nows as [|n' nows'].
  - simpl. rewrite He. lia.
  - rewrite Hy by done. set (k := 2 ^ Z.of_nat _). assert (0 < k) by (apply Z.pow_pos_nonneg; lia). nia.
Qed.
End runs.

(** C7. The read scheduler is free of undefined behaviour: no read function
    is used after it was freed or freed twice, and a failing allocation does
    no harm.  Every read function that exists is in exactly one place: in the
    heap, in the hands of one thread, or lost to a failed insertion; so a
    callback never runs in two threads at once.  The names of the list are
    distinct and stand for live functions that are not marked for removal.
    The heap delivers the function with the earliest time. *)
Theorem read_scheduler_safe mr pi s :
  rreachable mr pi s →
  (∀ a, action_ok a → rstep mr pi s a ≠ Undefined) ∧
  (∀ t t' p p' rf, readers s !! t = Some p → readers s !! t' = Some p' →
     rf ∈ held p → rf ∈ held p' → t = t') ∧
  NoDup (read_list s).*1 ∧
  (∀ k p, (k, p) ∈ read_list s → ∃ x, rfs s !! p = Some x ∧ rf_name x = k ∧ rf_type x ≠ RF_REMOVE) ∧
  ∃ xs, heap_repr (read_heap s) xs ∧
    NoDup (places xs (hands s) (lost s)) ∧
    (∀ p, is_Some (rfs s !! p) ↔ p ∈ places xs (hands s) (lost s)) ∧
    (∀ e, e ∈ xs → ∃ x, rfs s !! he_rf e = Some x ∧ rf_next_read x = he_next_read e) ∧
    (∀ ok e h, c_heap_get_root ok (read_heap s) = Some (Some e, h) →
       ∀ e', e' ∈ xs → he_next_read e ≤ he_next_read e').
Proof.
  intros Hinv%rreachable_inv. split.
  { intros a Ha E. pose proof (rstep_good mr pi s a Hinv Ha) as Hg. by rewrite E in Hg. }
  destruct Hinv as ([Hn Hlv] & _ & xs & [Hrep Hord _ Hnx] & [Hnd Hd]).
  split; [|split; [done|split]].
  - intros t t' p p' rf. apply held_unique. unfold places in Hnd.
    by apply list.NoDup_app in Hnd as (_ & _ & (? & _)%list.NoDup_app).
  - intros k p Hin. exact (proj1 (list.Forall_forall _ _) Hlv _ Hin).
  - exists xs. split_and!; [done..|exact (proj1 (list.Forall_forall _ _) Hnx)|].
    intros ok e h Hroot e' He'. destruct xs as [|e0 xs]; [by apply elem_of_nil in He'|].
    destruct (get_root_ok ok _ _ _ Hrep Hord) as (h' & xs' & Hr & _). rewrite Hr in Hroot. injection Hroot as <- <-.
    apply list_elem_of_lookup in He' as [i Hi]. pose proof (heap_root_min _ e0 i e' Hord eq_refl Hi) as Hle.
    unfold compare, elem_comparator, plugin_compare_read_func in Hle. rewrite Z.gtb_ltb in Hle.
    destruct (Z.ltb_spec (he_next_read e0) (he_next_read e')), (Z.ltb_spec (he_next_read e') (he_next_read e0)); lia.
Qed.

(** When the read threads have been stopped, shutdown empties the list
    and the heap and frees every read function that was not lost to a failed
    insertion. *)
Theorem read_shutdown_spec mr pi s :
  rreachable mr pi s → read_loop s = false → forallb is_rexit (readers s) = true →
  ∃ s', rstep mr pi s Shutdown = Next s' ∧ read_list s' = [] ∧
    (∀ p, is_Some (rfs s' !! p) ↔ p ∈ lost s) ∧ (lost s = [] → rfs s' = ∅).
Proof.
  intros Hinv%rreachable_inv Hloop Hex. destruct (shutdown_good s Hinv Hex) as (s' & Hd & _ & _ & _ & Hlo & Hl & Hp).
  rewrite Hlo in Hp. exists s'. cbn [rstep]. rewrite Hloop, Hex, Hd. split; [done|]. split; [done|]. split; [done|].
  intros E. apply map_empty. intros p. destruct (rfs s' !! p) eqn:Ep; [|done].
  assert (p ∈ lost s) by (apply Hp; eauto). rewrite E in *. by apply elem_of_nil in H.
Qed.

(** C35. Backing off: after k failures in a row a callback is suspended for
    its interval times 2^k, at most [max_read_interval]; the first success
    restores its interval.  The next time is never in the past, and it is the
    previous one plus the effective interval when that is not in the past.
    (An interval above [max_read_interval] is shortened by a failure.) *)
Theorem read_backoff_spec mr x nows status now :
  rf_effective_interval x = rf_interval x → 0 ≤ rf_interval x < 2 ^ 63 → 0 ≤ mr < 2 ^ 63 →
  let y := after_failures mr x nows in
  (nows ≠ [] → rf_effective_interval y = Z.min (2 ^ Z.of_nat (length nows) * rf_interval x) mr) ∧
  rf_effective_interval (reschedule mr y 0 now) = rf_interval x ∧
  let z := reschedule mr y status now in
  now ≤ rf_next_read z ∧
  (0 ≤ rf_next_read y < 2 ^ 63 → rf_next_read z = Z.max (rf_next_read y + rf_effective_interval z) now) ∧
  rf_name z = rf_name y ∧ rf_type z = rf_type y.
Proof.
  intros He Hi Hm y.
  assert (0 ≤ rf_effective_interval y < 2 ^ 63 ∧
    (nows ≠ [] → rf_effective_interval y = Z.min (2 ^ Z.of_nat (length nows) * rf_interval x) mr)) as [Hr Hy]
    by (by apply failures_eff).
  split; [done|]. split; [apply failures_interval|]. split_and!; try done.
  - simpl. case_match; breflect; lia.
  - intros Hn. simpl. set (eff := if negb _ then _ else _).
    assert (0 ≤ eff < 2 ^ 63).
    { unfold eff. destruct (status =? 0); simpl; [unfold y; rewrite failures_interval; lia|].
      unfold u64, wrap. rewrite Z.mod_small by lia. case_match; breflect; lia. }
    unfold u64, wrap. rewrite (Z.mod_small (rf_next_read y + eff)) by lia. case_match; breflect; lia.
Qed.

(** One callback and two read threads; the second thread has tested
    [read_loop] but not yet taken the lock when the threads are stopped. *)
Definition demo_rf : read_func_t := mk_rf [] [] RF_SIMPLE 10 10 0.
Definition race : list raction :=
  [Register demo_rf 5 true true true;
   Reader 0 5 0 true; Reader 0 5 0 true; Reader 1 5 0 true;
   Stop;
   Reader 1 5 0 true; Reader 0 5 0 true; Reader 0 5 0 true; Reader 0 5 0 true].
Definition race_state (n : nat) : rsys :=
  match rrun 100 10 (rinit 2) (take n race) with Next s => s | _ => rinit 0 end.

Lemma race_reachable n : rreachable 100 10 (race_state n).
Proof.
  unfold race_state. destruct (rrun 100 10 (rinit 2) (take n race)) as [| |s] eqn:E; try apply rreach_init.
  eapply rrun_reachable; [apply rreach_init| |exact E]. apply Forall_take. by repeat constructor.
Qed.

(** C34. The shutdown of the read threads can hang: a read thread that has
    passed the test of [read_loop] before the flag is cleared, and finds the
    heap empty because the other thread holds the only callback, waits on
    [read_cond] after the broadcast.  From then on nothing but a spurious
    wakeup (or a new registration) ends the wait: whatever the threads do, the
    second one stays asleep and the join of stop_read_threads blocks. *)
Theorem read_stop_lost_wakeup :
  ∃ s, rreachable 100 10 s ∧ read_loop s = false ∧
    ∀ l s', forallb quiet l = true → rrun 100 10 s l = Next s' →
      readers s' = [R_exit; R_wait] ∧ rstep 100 10 s' Shutdown = Blocked.
Proof.
  exists (race_state 9). split; [apply race_reachable|]. split; [by vm_compute|]. intros l s' Hl Hr.
  destruct (asleep_run 100 10 (race_state 9) l s') as [Er El]; [by vm_compute|done..|].
  assert (readers (race_state 9) = [R_exit; R_wait]) as E by by vm_compute. rewrite E in Er.
  split; [done|]. cbn [rstep]. rewrite Er. simpl. by rewrite andb_false_r.
Qed.

Lemma read_scheduler_safe_witness :
  rstep 100 10 (race_state 4) Stop ≠ Undefined ∧ NoDup (read_list (race_state 4)).*1.
Proof.
  destruct (read_scheduler_safe 100 10 (race_state 4) (race_reachable 4)) as (H & _ & Hn & _).
  split; [exact (H Stop I)|exact Hn].
Defined.

(** The same threads, stopped before the second one starts over. *)
Definition orderly : list raction :=
  [Register demo_rf 5 true true true; Reader 0 5 0 true; Reader 0 5 0 true; Stop;
   Reader 1 5 0 true; Reader 0 5 0 true; Reader 0 5 0 true; Reader 0 5 0 true].
Definition orderly_state : rsys := match rrun 100 10 (rinit 2) orderly with Next s => s | _ => rinit 0 end.

Lemma orderly_reachable : rreachable 100 10 orderly_state.
Proof.
  unfold orderly_state. destruct (rrun 100 10 (rinit 2) orderly) as [| |s] eqn:E; try apply rreach_init.
  eapply rrun_reachable; [apply rreach_init| |exact E]. by repeat constructor.
Qed.

Lemma read_shutdown_spec_witness : ∃ s', rstep 100 10 orderly_state Shutdown = Next s' ∧ rfs s' = ∅.
Proof.
  destruct (read_shutdown_spec 100 10 orderly_state orderly_reachable) as (s' & Hs & _ & _ & He);
    [vm_compute; reflexivity|vm_compute; reflexivity|].
  exists s'. split; [exact Hs|]. apply He. vm_compute. reflexivity.
Defined.

Lemma read_backoff_spec_witness : rf_effective_interval (after_failures 100 demo_rf [6; 30]) = 40.
Proof.
  destruct (read_backoff_spec 100 demo_rf [6; 30] 0 70) as [H _]; [reflexivity|simpl; lia|lia|].
  rewrite H; [reflexivity|discriminate].
Defined.
