(* ===== verification/Wire.v ===== *)
(** * Bytes on the wire

    Integers as sequences of bytes, on a little-endian host: [memcpy] of a
    variable copies its bytes least significant first, and the byte-order
    functions of the C library swap them.  What arrives on the wire is big
    endian, except for doubles, which travel in x86 order. *)

From Stdlib Require Import ZArith Lia Ascii String.
From stdpp Require Import base numbers list option.
From S2P Require Import Prelude.

Definition byte_of (z : Z) : ascii := ascii_of_N (Z.to_N (z mod 256)).

(** The bytes of an [n]-byte variable in memory, and back. *)
Fixpoint le_bytes (n : nat) (z : Z) : list ascii :=
  match n with O => [] | S n => byte_of z :: le_bytes n (z / 256) end.
Fixpoint le_value (l : list ascii) : Z :=
  match l with [] => 0 | c :: l => chr_code c + 256 * le_value l end.

Definition swap (n : nat) (z : Z) : Z := le_value (rev (le_bytes n z)).
Definition htons : Z → Z := swap 2.
Definition htonl : Z → Z := swap 4.
Definition be16toh : Z → Z := swap 2.
Definition be64toh : Z → Z := swap 8.

Definition be_bytes (n : nat) (z : Z) : list ascii := rev (le_bytes n z).
Definition be_value (l : list ascii) : Z := le_value (rev l).

Lemma byte_of_code z : chr_code (byte_of z) = z mod 256.
Proof.
  pose proof (Z.mod_pos_bound z 256 ltac:(lia)). unfold chr_code, byte_of.
  rewrite N_ascii_embedding by lia. lia.
Qed.

Lemma chr_code_range c : 0 ≤ chr_code c < 256.
Proof. unfold chr_code. pose proof (N_ascii_bounded c). lia. Qed.

Lemma byte_of_chr c : byte_of (chr_code c) = c.
Proof. apply chr_code_inj. rewrite byte_of_code. apply Z.mod_small, chr_code_range. Qed.

Lemma length_le_bytes n z : length (le_bytes n z) = n.
Proof. revert z. induction n; intros z; simpl; auto. Qed.

Lemma length_be_bytes n z : length (be_bytes n z) = n.
Proof. unfold be_bytes. by rewrite length_rev, length_le_bytes. Qed.

Lemma le_value_range l : 0 ≤ le_value l < 256 ^ Z.of_nat (length l).
Proof.
  induction l as [|c l IH]; [done|]. cbn [le_value length].
  rewrite Nat2Z.inj_succ, Z.pow_succ_r by lia. pose proof (chr_code_range c). lia.
Qed.

Lemma le_value_bytes n z : le_value (le_bytes n z) = z mod 256 ^ Z.of_nat n.
Proof.
  revert z. induction n as [|n IH]; intros z; cbn [le_bytes le_value]; [by rewrite Z.mod_1_r|].
  rewrite byte_of_code, IH, Nat2Z.inj_succ, Z.pow_succ_r by lia.
  rewrite Z.rem_mul_r by lia. done.
Qed.

Lemma le_bytes_value l : le_bytes (length l) (le_value l) = l.
Proof.
  induction l as [|c l IH]; [done|]. cbn [le_bytes le_value length].
  pose proof (chr_code_range c). f_equal.
  - rewrite <-(byte_of_chr c) at 2. unfold byte_of. do 2 f_equal.
    rewrite Z.mul_comm, Z.mod_add by lia. done.
  - rewrite Z.mul_comm, Z.div_add, Z.div_small, Z.add_0_l by lia. done.
Qed.

Lemma le_bytes_app n m z :
  le_bytes (n + m) z = le_bytes n (z mod 256 ^ Z.of_nat n) ++ le_bytes m (z / 256 ^ Z.of_nat n).
Proof.
  revert z. induction n as [|n IH]; intros z; cbn [le_bytes app Nat.add].
  - by rewrite Z.div_1_r.
  - rewrite Nat2Z.inj_succ, Z.pow_succ_r by lia. f_equal.
    + unfold byte_of. do 2 f_equal. symmetry. apply Z.mod_mod_divide.
      by exists (256 ^ Z.of_nat n); rewrite Z.mul_comm.
    + rewrite IH, Z.div_div by lia. f_equal. f_equal.
      rewrite Z.rem_mul_r by lia. pose proof (Z.mod_pos_bound z 256 ltac:(lia)).
      rewrite (Z.mul_comm 256 (_ mod _)), Z.div_add, (Z.div_small (z mod 256)) by lia. done.
Qed.

(** [memcpy] of a swapped variable writes the big-endian bytes, and reading
    them back swaps again. *)
Lemma swap_bytes n z : le_bytes n (swap n z) = be_bytes n z.
Proof.
  unfold swap. rewrite <-(length_be_bytes n z) at 1. apply le_bytes_value.
Qed.

Lemma swap_read l : swap (length l) (le_value l) = be_value l.
Proof. unfold swap, be_value. by rewrite le_bytes_value. Qed.

Lemma be_value_bytes n z : 0 ≤ z < 256 ^ Z.of_nat n → be_value (be_bytes n z) = z.
Proof.
  intros Hz. unfold be_value, be_bytes. rewrite rev_involutive, le_value_bytes. by apply Z.mod_small.
Qed.

Lemma be_value_range l : 0 ≤ be_value l < 256 ^ Z.of_nat (length l).
Proof. unfold be_value. rewrite <-(length_rev l). apply le_value_range. Qed.
