(* ===== verification/LccBuffer.v ===== *)
(** * The client library's packets: src/libcollectdclient/network_buffer.c

    A network buffer collects value lists into one packet of the binary
    protocol.  Parts repeat nothing that the packet has already said: the buffer
    keeps the last identifier and times it wrote, and writes only what
    changed.  The packet may be signed or encrypted; libgcrypt is a parameter
    ([Gcrypt]).  A value is its 64 bits, as in the union of the code. *)

From Stdlib Require Import ZArith Lia Ascii String.
From stdpp Require Import base numbers list option.
From S2P Require Import Prelude Double StrBuf CommonStr Wire.

(** ** Data *)

Definition TYPE_HOST : Z := 0x0000.
Definition TYPE_TIME : Z := 0x0001.
Definition TYPE_TIME_HR : Z := 0x0008.
Definition TYPE_PLUGIN : Z := 0x0002.
Definition TYPE_PLUGIN_INSTANCE : Z := 0x0003.
Definition TYPE_TYPE : Z := 0x0004.
Definition TYPE_TYPE_INSTANCE : Z := 0x0005.
Definition TYPE_VALUES : Z := 0x0006.
Definition TYPE_INTERVAL : Z := 0x0007.
Definition TYPE_INTERVAL_HR : Z := 0x0009.
Definition TYPE_SIGN_SHA256 : Z := 0x0200.
Definition TYPE_ENCR_AES256 : Z := 0x0210.

Definition LCC_TYPE_COUNTER : Z := 0.
Definition LCC_TYPE_GAUGE : Z := 1.
Definition LCC_TYPE_DERIVE : Z := 2.
Definition LCC_TYPE_ABSOLUTE : Z := 3.

Definition LCC_NAME_LEN : nat := 64.
Definition LCC_NETWORK_BUFFER_SIZE_DEFAULT : nat := 1452.
Definition PART_SIGNATURE_SHA256_SIZE : nat := 36.
Definition PART_ENCRYPTION_AES256_SIZE : nat := 42.

Record lcc_identifier_t := {
  host : cstr; plugin : cstr; plugin_instance : cstr; type : cstr; type_instance : cstr;
}.
Record lcc_value_list_t := {
  values : list Z; (* 64 bits each *)
  values_types : list Z;
  time : double;
  interval : double;
  identifier : lcc_identifier_t;
}.
Inductive lcc_security_level_t := NONE | SIGN | ENCRYPT.

(** An all-zero structure. *)
Definition no_identifier : lcc_identifier_t :=
  {| host := []; plugin := []; plugin_instance := []; type := []; type_instance := [] |}.
Definition no_value_list : lcc_value_list_t :=
  {| values := []; values_types := []; time := fzero; interval := fzero; identifier := no_identifier |}.

Definition set_time (t : double) (v : lcc_value_list_t) : lcc_value_list_t :=
  {| values := values v; values_types := values_types v; time := t; interval := interval v;
     identifier := identifier v |}.
Definition set_interval (t : double) (v : lcc_value_list_t) : lcc_value_list_t :=
  {| values := values v; values_types := values_types v; time := time v; interval := t;
     identifier := identifier v |}.
Definition set_identifier (i : lcc_identifier_t) (v : lcc_value_list_t) : lcc_value_list_t :=
  {| values := values v; values_types := values_types v; time := time v; interval := interval v;
     identifier := i |}.
Definition set_values (vs ts : list Z) (v : lcc_value_list_t) : lcc_value_list_t :=
  {| values := vs; values_types := ts; time := time v; interval := interval v;
     identifier := identifier v |}.

(** The five names of an identifier, by the type of the part that carries
    them. *)
Definition get_name (ty : Z) (i : lcc_identifier_t) : option cstr :=
  if ty =? TYPE_HOST then Some (host i)
  else if ty =? TYPE_PLUGIN then Some (plugin i)
  else if ty =? TYPE_PLUGIN_INSTANCE then Some (plugin_instance i)
  else if ty =? TYPE_TYPE then Some (type i)
  else if ty =? TYPE_TYPE_INSTANCE then Some (type_instance i)
  else None.
Definition set_name (ty : Z) (s : cstr) (i : lcc_identifier_t) : option lcc_identifier_t :=
  let '(Build_lcc_identifier_t h p pi t ti) := i in
  if ty =? TYPE_HOST then Some (Build_lcc_identifier_t s p pi t ti)
  else if ty =? TYPE_PLUGIN then Some (Build_lcc_identifier_t h s pi t ti)
  else if ty =? TYPE_PLUGIN_INSTANCE then Some (Build_lcc_identifier_t h p s t ti)
  else if ty =? TYPE_TYPE then Some (Build_lcc_identifier_t h p pi s ti)
  else if ty =? TYPE_TYPE_INSTANCE then Some (Build_lcc_identifier_t h p pi t s)
  else None.

(** libgcrypt: a keyed hash, a hash, and a cipher with the password and the
    initialization vector as its key; [None] where the library reports an
    error. *)
Class Gcrypt := {
  hmac_sha256 : cstr → list ascii → option (list ascii);
  sha1 : list ascii → list ascii;
  aes256_encrypt : cstr → list ascii → list ascii → option (list ascii);
  aes256_decrypt : cstr → list ascii → list ascii → option (list ascii);
}.

(** ** Byte order *)

(** [htonll]: the host is little endian, so [config] becomes 2. *)
Definition htonll (val : Z) : Z :=
  if 0x1234 =? htons 0x1234 then val
  else
    let hi := u32 (Z.shiftr val 32) in
    let lo := u32 (Z.land val 0x00000000FFFFFFFF) in
    let hi := htonl hi in
    let lo := htonl lo in
    Z.lor (u64 (Z.shiftl lo 32)) hi.

(** [htond]: doubles have the x86 layout, [config] is 1; a NaN is written in
    one form. *)
Definition bits_nan (bits : Z) : bool :=
  (Z.land (Z.shiftr bits 52) 0x7ff =? 0x7ff) && negb (Z.land bits 0xfffffffffffff =? 0).
Definition NAN_BITS : Z := 0x7ff8000000000000.
Definition htond (bits : Z) : Z := if bits_nan bits then NAN_BITS else bits.

(** ** Writing parts *)

(** Where to write: the packet, the position, the room left. *)
Record cursor := { cu_buf : list ascii; cu_ptr : nat; cu_free : nat }.

Section writer.
Local Open Scope nat_scope.

(** A sequence of [memcpy]s with a running offset. *)
Fixpoint memcpys (buf : list ascii) (ptr : nat) (chunks : list (list ascii)) : M (list ascii) :=
  match chunks with
  | [] => ret buf
  | c :: chunks => let* buf := store buf ptr c in memcpys buf (ptr + length c) chunks
  end.
Definition write_part (c : cursor) (packet_len : nat) (chunks : list (list ascii)) : M (Z * cursor) :=
  if cu_free c <? packet_len then ret (ENOMEM, c)
  else
    let* buf := memcpys (cu_buf c) (cu_ptr c) chunks in
    let* _ := massert (length (concat chunks) =? packet_len) in
    ret (0%Z, {| cu_buf := buf; cu_ptr := cu_ptr c + packet_len; cu_free := cu_free c - packet_len |}).

(** [(uint16_t) packet_len], in network order. *)
Definition put16 (z : Z) : list ascii := le_bytes 2 (htons (wrap 16 z)).

Definition wire_value (t v : Z) : option Z :=
  if ((t =? LCC_TYPE_COUNTER) || (t =? LCC_TYPE_DERIVE) || (t =? LCC_TYPE_ABSOLUTE))%Z
  then Some (htonll v)
  else if (t =? LCC_TYPE_GAUGE)%Z then Some (htond v) else None.
(** [values_len] is the number of values; [None] is the EINVAL of an unknown
    type. *)
Fixpoint pkg_values (vs ts : list Z) : M (option (list Z)) :=
  match vs with
  | [] => ret (Some [])
  | v :: vs =>
      match ts with
      | [] => crash
      | t :: ts =>
          match wire_value t v with
          | None => ret None
          | Some w => let* r := pkg_values vs ts in ret (cons w <$> r)
          end
      end
  end.

Definition nb_add_values (c : cursor) (vl : lcc_value_list_t) : M (Z * cursor) :=
  let n := length (values vl) in
  if n <? 1 then ret (EINVAL, c)
  else
    let packet_len := 2 + 2 + 2 + n + 8 * n in
    if cu_free c <? packet_len then ret (ENOMEM, c)
    else
      let* ws := pkg_values (values vl) (values_types vl) in
      match ws with
      | None => ret (EINVAL, c)
      | Some ws =>
          write_part c packet_len
            [put16 TYPE_VALUES; put16 (Z.of_nat packet_len); put16 (Z.of_nat n);
             map byte_of (take n (values_types vl)); concat (map (le_bytes 8) ws)]
      end.

Definition nb_add_number (c : cursor) (ty value : Z) : M (Z * cursor) :=
  let packet_len := 2 + 2 + 8 in
  write_part c packet_len [put16 ty; put16 (Z.of_nat packet_len); le_bytes 8 (htonll value)].

Definition to_cdtime (value : double) : option Z := u64_of_trunc (fmul value (of_Z 1073741824)).
Definition nb_add_time (c : cursor) (ty : Z) (value : double) : M (Z * cursor) :=
  let* cdtime_value := mopt (to_cdtime value) in
  nb_add_number c ty cdtime_value.

Definition nb_add_string (c : cursor) (ty : Z) (str : cstr) : M (Z * cursor) :=
  let packet_len := 2 + 2 + length str + 1 in
  write_part c packet_len [put16 ty; put16 (Z.of_nat packet_len); str; [NUL]].

(** ** The buffer *)

Record lcc_network_buffer_t := {
  nb_cur : cursor; (* buffer, ptr and free; size is the length of the buffer *)
  nb_state : lcc_value_list_t;
  nb_seclevel : lcc_security_level_t;
  nb_username : option cstr;
  nb_password : option cstr;
  nb_encr_key : option cstr; (* the password of the open cipher *)
  nb_encr_header_len : nat;
  nb_encr_iv : list ascii;
}.
Definition with_cur (c : cursor) (nb : lcc_network_buffer_t) : lcc_network_buffer_t :=
  {| nb_cur := c; nb_state := nb_state nb; nb_seclevel := nb_seclevel nb; nb_username := nb_username nb;
     nb_password := nb_password nb; nb_encr_key := nb_encr_key nb;
     nb_encr_header_len := nb_encr_header_len nb; nb_encr_iv := nb_encr_iv nb |}.
Definition with_state (st : lcc_value_list_t) (nb : lcc_network_buffer_t) : lcc_network_buffer_t :=
  {| nb_cur := nb_cur nb; nb_state := st; nb_seclevel := nb_seclevel nb; nb_username := nb_username nb;
     nb_password := nb_password nb; nb_encr_key := nb_encr_key nb;
     nb_encr_header_len := nb_encr_header_len nb; nb_encr_iv := nb_encr_iv nb |}.

(** The five blocks that compare a name with the state and write it. *)
Definition add_name (ty : Z) (vl : lcc_value_list_t) (c : cursor) (st : lcc_value_list_t)
    : M (Z * cursor * lcc_value_list_t) :=
  let* src := mopt (get_name ty (identifier vl)) in
  let* dst := mopt (get_name ty (identifier st)) in
  if (strcmp dst src =? 0)%Z then ret (0%Z, c, st)
  else
    let* '(status, c) := nb_add_string c ty src in
    if negb (status =? 0)%Z then ret ((-1)%Z, c, st)
    else
      let* i := mopt (set_name ty (take (LCC_NAME_LEN - 1) src) (identifier st)) in
      ret (0%Z, c, set_identifier i st).
(** The two blocks for the times. *)
Definition add_time (ty : Z) (old new : double) (upd : double → lcc_value_list_t → lcc_value_list_t)
    (c : cursor) (st : lcc_value_list_t) : M (Z * cursor * lcc_value_list_t) :=
  if feq old new then ret (0%Z, c, st)
  else
    let* '(status, c) := nb_add_time c ty new in
    if negb (status =? 0)%Z then ret ((-1)%Z, c, st) else ret (0%Z, c, upd new st).

(** [return -1] as soon as a block fails. *)
Definition andthen (m : M (Z * cursor * lcc_value_list_t))
    (k : cursor → lcc_value_list_t → M (Z * cursor * lcc_value_list_t))
    : M (Z * cursor * lcc_value_list_t) :=
  let* '(status, c, st) := m in
  if negb (status =? 0)%Z then ret (status, c, st) else k c st.

Definition name_types : list Z :=
  [TYPE_HOST; TYPE_PLUGIN; TYPE_PLUGIN_INSTANCE; TYPE_TYPE; TYPE_TYPE_INSTANCE].
Fixpoint add_names (tys : list Z) (vl : lcc_value_list_t) (c : cursor) (st : lcc_value_list_t)
    : M (Z * cursor * lcc_value_list_t) :=
  match tys with
  | [] => ret (0%Z, c, st)
  | ty :: tys => andthen (add_name ty vl c st) (add_names tys vl)
  end.

(** On failure the position is not advanced, but what the blocks have written
    and the state they have updated stay. *)
Definition nb_add_value_list (nb : lcc_network_buffer_t) (vl : lcc_value_list_t)
    : M (Z * lcc_network_buffer_t) :=
  let c0 := nb_cur nb in
  let* '(status, c, st) :=
    andthen (add_names name_types vl c0 (nb_state nb)) (λ c st,
    andthen (add_time TYPE_TIME_HR (time st) (time vl) set_time c st) (λ c st,
    andthen (add_time TYPE_INTERVAL_HR (interval st) (interval vl) set_interval c st) (λ c st,
    let* '(status, c) := nb_add_values c vl in
    ret (if negb (status =? 0)%Z then (-1)%Z else 0%Z, c, st)))) in
  if negb (status =? 0)%Z
  then ret (status, with_state st (with_cur {| cu_buf := cu_buf c; cu_ptr := cu_ptr c0; cu_free := cu_free c0 |} nb))
  else ret (0%Z, with_state st (with_cur c nb)).

Definition lcc_network_buffer_add_value (nb : lcc_network_buffer_t) (vl : lcc_value_list_t)
    : M (Z * lcc_network_buffer_t) := nb_add_value_list nb vl.

Definition lcc_network_buffer_create (size : nat) : M (option lcc_network_buffer_t) :=
  let size := if size =? 0 then LCC_NETWORK_BUFFER_SIZE_DEFAULT else size in
  if size <? 128 then ret None
  else
    let* ok := alloc in
    if negb ok then ret None
    else
      let* ok := alloc in
      if negb ok then ret None
      else ret (Some {| nb_cur := {| cu_buf := replicate size NUL; cu_ptr := 0; cu_free := size |};
                        nb_state := no_value_list; nb_seclevel := NONE; nb_username := None;
                        nb_password := None; nb_encr_key := None; nb_encr_header_len := 0;
                        nb_encr_iv := replicate 16 NUL |}).

(** [ADD_GENERIC] *)
Definition add_generic (c : cursor) (bs : list ascii) : M cursor :=
  let* _ := massert (length bs <=? cu_free c) in
  let* buf := store (cu_buf c) (cu_ptr c) bs in
  ret {| cu_buf := buf; cu_ptr := cu_ptr c + length bs; cu_free := cu_free c - length bs |}.
Fixpoint add_generics (c : cursor) (chunks : list (list ascii)) : M cursor :=
  match chunks with
  | [] => ret c
  | bs :: chunks => let* c := add_generic c bs in add_generics c chunks
  end.

(** [iv] is what [gcry_randomize] fills in. *)
Definition lcc_network_buffer_initialize (nb : lcc_network_buffer_t) (iv : list ascii)
    : M lcc_network_buffer_t :=
  let size := length (cu_buf (nb_cur nb)) in
  let c := {| cu_buf := replicate size NUL; cu_ptr := 0; cu_free := size |} in
  let nb := with_state no_value_list (with_cur c nb) in
  match nb_seclevel nb with
  | NONE => ret nb
  | SIGN =>
      let* username := mopt (nb_username nb) in
      let username_len := length username in
      let* buf := memcpys (cu_buf c) 0
        [put16 TYPE_SIGN_SHA256; put16 (Z.of_nat PART_SIGNATURE_SHA256_SIZE + wrap 16 (Z.of_nat username_len))] in
      let* buf := store buf PART_SIGNATURE_SHA256_SIZE username in
      ret (with_cur {| cu_buf := buf; cu_ptr := PART_SIGNATURE_SHA256_SIZE + username_len;
                       cu_free := size - PART_SIGNATURE_SHA256_SIZE - username_len |} nb)
  | ENCRYPT =>
      let* username := mopt (nb_username nb) in
      let username_length := length username in
      let header_len := username_length + PART_ENCRYPTION_AES256_SIZE in
      let* c := add_generics c
        [put16 TYPE_ENCR_AES256; put16 0; put16 (Z.of_nat username_length); username; iv; replicate 20 NUL] in
      let* _ := massert (header_len + cu_free c =? size) in
      ret {| nb_cur := c; nb_state := nb_state nb; nb_seclevel := ENCRYPT; nb_username := nb_username nb;
             nb_password := nb_password nb; nb_encr_key := nb_encr_key nb;
             nb_encr_header_len := header_len; nb_encr_iv := iv |}
  end.

Definition lcc_network_buffer_set_security_level (have_gcrypt : bool) (nb : lcc_network_buffer_t)
    (level : lcc_security_level_t) (username password : cstr) (iv : list ascii)
    : M (Z * lcc_network_buffer_t) :=
  let set lvl u p :=
    {| nb_cur := nb_cur nb; nb_state := nb_state nb; nb_seclevel := lvl; nb_username := u;
       nb_password := p; nb_encr_key := nb_encr_key nb;
       nb_encr_header_len := nb_encr_header_len nb; nb_encr_iv := nb_encr_iv nb |} in
  match level with
  | NONE => let* nb := lcc_network_buffer_initialize (set NONE None None) iv in ret (0%Z, nb)
  | _ =>
      if negb have_gcrypt then ret (ENOTSUP, nb)
      else
        let* ok1 := alloc in
        let* ok2 := alloc in
        if negb (ok1 && ok2) then ret (ENOMEM, nb)
        else
          let* nb := lcc_network_buffer_initialize (set level (Some username) (Some password)) iv in
          ret (0%Z, nb)
  end.

Section crypto.
Context `{Gcrypt}.

(** The bytes from [off] on, [n] of them. *)
Definition slice (off n : nat) (l : list ascii) : list ascii := take n (drop off l).

Definition nb_add_signature (nb : lcc_network_buffer_t) : M (Z * lcc_network_buffer_t) :=
  let c := nb_cur nb in
  let size := length (cu_buf c) in
  let* _ := massert (cu_free c + PART_SIGNATURE_SHA256_SIZE <=? size) in
  let buffer_size := size - (cu_free c + PART_SIGNATURE_SHA256_SIZE) in
  let* password := mopt (nb_password nb) in
  match hmac_sha256 password (slice PART_SIGNATURE_SHA256_SIZE buffer_size (cu_buf c)) with
  | None => ret ((-1)%Z, nb)
  | Some hash =>
      let* buf := store (cu_buf c) 4 (take 32 hash) in
      ret (0%Z, with_cur {| cu_buf := buf; cu_ptr := cu_ptr c; cu_free := cu_free c |} nb)
  end.

Definition nb_add_encryption (nb : lcc_network_buffer_t) : M (Z * lcc_network_buffer_t) :=
  let c := nb_cur nb in
  let package_length := length (cu_buf c) - cu_free c in
  let* buf := store (cu_buf c) 2 (put16 (Z.of_nat package_length)) in
  let hash_ptr := PART_ENCRYPTION_AES256_SIZE in
  let hash_size := package_length - nb_encr_header_len nb in
  let encr_ptr := hash_ptr - 20 in
  let encr_size := hash_size + 20 in
  let* buf := store buf encr_ptr (take 20 (sha1 (slice hash_ptr hash_size buf))) in
  let* password := mopt (nb_password nb) in
  let key := default password (nb_encr_key nb) in
  let open k := {| nb_cur := {| cu_buf := buf; cu_ptr := cu_ptr c; cu_free := cu_free c |};
                   nb_state := nb_state nb; nb_seclevel := nb_seclevel nb;
                   nb_username := nb_username nb; nb_password := nb_password nb;
                   nb_encr_key := k; nb_encr_header_len := nb_encr_header_len nb;
                   nb_encr_iv := nb_encr_iv nb |} in
  match aes256_encrypt key (nb_encr_iv nb) (slice encr_ptr encr_size buf) with
  | None => ret ((-1)%Z, open None)
  | Some text =>
      let* buf := store buf encr_ptr text in
      let nb := open (Some key) in
      ret (0%Z, with_cur {| cu_buf := buf; cu_ptr := cu_ptr c; cu_free := cu_free c |} nb)
  end.

Definition lcc_network_buffer_finalize (nb : lcc_network_buffer_t) : M (Z * lcc_network_buffer_t) :=
  match nb_seclevel nb with
  | SIGN => nb_add_signature nb
  | ENCRYPT => nb_add_encryption nb
  | NONE => ret (0%Z, nb)
  end.
End crypto.

(** The required size, and what is copied into a buffer of [sz] bytes. *)
Definition lcc_network_buffer_get (nb : lcc_network_buffer_t) (sz : nat) : M (nat * list ascii) :=
  let c := nb_cur nb in
  let* _ := massert (cu_free c <=? length (cu_buf c)) in
  let required := length (cu_buf c) - cu_free c in
  ret (required, take (if sz <? required then sz else required) (cu_buf c)).
End writer.

(** ** What is written *)

(** A part of the protocol. *)
Definition part (ty : Z) (payload : list ascii) : list ascii :=
  be_bytes 2 ty ++ be_bytes 2 (4 + Z.of_nat (length payload)) ++ payload.

Lemma length_part ty payload : length (part ty payload) = (4 + length payload)%nat.
Proof. unfold part. rewrite !length_app, !length_be_bytes. lia. Qed.

Lemma put16_be z : 0 ≤ z < 2 ^ 16 → put16 z = be_bytes 2 z.
Proof. intros Hz. unfold put16, htons, wrap. rewrite Z.mod_small by done. apply swap_bytes. Qed.

Lemma length_put16 z : length (put16 z) = 2%nat.
Proof. apply length_le_bytes. Qed.

Lemma lor_high a b n : 0 ≤ b < 2 ^ n → 0 ≤ n → Z.lor (a * 2 ^ n) b = b + 2 ^ n * a.
Proof.
  intros Hb Hn. rewrite Z.lor_comm, (Z.mul_comm (2 ^ n)), <-Z.add_lor_land.
  enough (Z.land b (a * 2 ^ n) = 0) as -> by lia.
  apply Z.bits_inj'. intros k Hk. rewrite Z.land_spec, Z.bits_0.
  destruct (Z.lt_ge_cases k n).
  - by rewrite Z.mul_pow2_bits_low, andb_false_r.
  - destruct (decide (b = 0)) as [->|]; [by rewrite Z.bits_0|].
    rewrite (Z.bits_above_log2 b); [done|lia|].
    apply Z.lt_le_trans with n; [apply Z.log2_lt_pow2; lia|done].
Qed.

(** The halves are swapped and so are their bytes: [htonll] is the 64-bit
    swap. *)
Lemma htonll_bytes v : in_u64 v → le_bytes 8 (htonll v) = be_bytes 8 v.
Proof.
  intros [Hv0 Hv]. unfold htonll. change (0x1234 =? htons 0x1234) with false. cbn iota.
  set (hi := u32 (Z.shiftr v 32)). set (lo := u32 (Z.land v 0xFFFFFFFF)).
  assert (hi = v / 2 ^ 32) as Ehi.
  { unfold hi, u32, wrap. rewrite Z.shiftr_div_pow2 by lia. apply Z.mod_small.
    split; [apply Z.div_pos; lia|apply Z.div_lt_upper_bound; lia]. }
  assert (lo = v mod 2 ^ 32) as Elo.
  { unfold lo, u32, wrap. change 0xFFFFFFFF with (Z.ones 32). rewrite Z.land_ones by lia.
    by rewrite Z.mod_mod. }
  assert (∀ z, 0 ≤ htonl z < 2 ^ 32) as Hl.
  { intros z. unfold htonl, swap. pose proof (le_value_range (rev (le_bytes 4 z))) as H.
    by rewrite length_rev, length_le_bytes in H. }
  rewrite Z.shiftl_mul_pow2 by lia. rewrite u64_small by (specialize (Hl lo); unfold in_u64; lia).
  rewrite lor_high by (auto || lia).
  rewrite (le_bytes_app 4 4). change (256 ^ Z.of_nat 4) with (2 ^ 32).
  rewrite (Z.mul_comm (2 ^ 32)), Z.mod_add, Z.div_add, Z.mod_small, Z.div_small, Z.add_0_l by (auto || lia).
  unfold htonl. rewrite !swap_bytes. unfold be_bytes. rewrite <-rev_app_distr. f_equal.
  rewrite Ehi, Elo. symmetry. apply (le_bytes_app 4 4).
Qed.

(** Room and position fit together. *)
Definition cu_wf (c : cursor) : Prop := (cu_ptr c + cu_free c)%nat = length (cu_buf c).
Definition cu_data (c : cursor) : list ascii := take (cu_ptr c) (cu_buf c).

Lemma length_cu_data c : cu_wf c → length (cu_data c) = cu_ptr c.
Proof. unfold cu_wf, cu_data. intros. rewrite length_take. lia. Qed.

Lemma memcpys_store chunks : ∀ buf ptr, (ptr + length (concat chunks) ≤ length buf)%nat →
  memcpys buf ptr chunks = store buf ptr (concat chunks).
Proof.
  induction chunks as [|c chunks IH]; intros buf ptr Hl; cbn [memcpys concat].
  - rewrite store_at by done. unfold blit. simpl. by rewrite Nat.add_0_r, take_drop.
  - cbn [concat] in Hl. rewrite length_app in Hl. rewrite <-store_store by lia.
    rewrite store_at, !bind_ret by lia. apply IH. rewrite length_blit; lia.
Qed.

(** [c'] is [c] with [bs] appended. *)
Definition appended (c c' : cursor) (bs : list ascii) : Prop :=
  cu_wf c' ∧ cu_data c' = cu_data c ++ bs ∧ length (cu_buf c') = length (cu_buf c) ∧
  (cu_ptr c' = cu_ptr c + length bs)%nat.

Lemma appended_refl c : cu_wf c → appended c c [].
Proof. intros H. repeat split; [done|by rewrite app_nil_r|simpl; lia]. Qed.

Lemma appended_trans c1 c2 c3 x y : appended c1 c2 x → appended c2 c3 y → appended c1 c3 (x ++ y).
Proof.
  intros (_ & D1 & L1 & P1) (W & D2 & L2 & P2). split_and!; [done| |congruence|rewrite length_app; lia].
  by rewrite D2, D1, app_assoc.
Qed.

Lemma write_part_ok c n chunks : cu_wf c → n = length (concat chunks) →
  (n ≤ cu_free c)%nat → ∃ c', write_part c n chunks = ret (0, c') ∧ appended c c' (concat chunks).
Proof.
  unfold cu_wf. intros Hw -> Hn. unfold write_part. rewrite (proj2 (Nat.ltb_ge _ _)) by done.
  rewrite memcpys_store, store_at, bind_ret by lia. unfold massert. rewrite Nat.eqb_refl, bind_ret.
  eexists. split; [reflexivity|]. unfold appended, cu_wf, cu_data; cbn [cu_buf cu_ptr cu_free].
  rewrite length_blit by lia. split_and!; [lia| |done|done]. rewrite take_blit by lia. done.
Qed.

Lemma write_part_full c n chunks : (cu_free c < n)%nat → write_part c n chunks = ret (ENOMEM, c).
Proof. intros Hn. unfold write_part. by rewrite (proj2 (Nat.ltb_lt _ _)). Qed.

Lemma nb_add_string_ok c ty str : cu_wf c → 0 ≤ ty < 2 ^ 16 → (length str ≤ 63)%nat →
  (length (part ty (str ++ [NUL])) ≤ cu_free c)%nat →
  ∃ c', nb_add_string c ty str = ret (0, c') ∧ appended c c' (part ty (str ++ [NUL])).
Proof.
  intros Hw Hty Hs Hf. rewrite length_part, length_app in Hf. simpl in Hf. unfold nb_add_string.
  set (chunks := [put16 ty; _; str; [NUL]]).
  assert (concat chunks = part ty (str ++ [NUL])) as Ec.
  { unfold chunks, part. cbn [concat]. rewrite !put16_be, app_nil_r by lia. do 3 f_equal.
    rewrite length_app. cbn [length]. lia. }
  rewrite <-Ec. apply write_part_ok; [done| |lia].
  rewrite Ec, length_part, length_app. simpl. lia.
Qed.

Lemma add_number_ok c ty v : cu_wf c → 0 ≤ ty < 2 ^ 16 → in_u64 v →
  (length (part ty (be_bytes 8 v)) ≤ cu_free c)%nat →
  ∃ c', nb_add_number c ty v = ret (0, c') ∧ appended c c' (part ty (be_bytes 8 v)).
Proof.
  intros Hw Hty Hv Hf. unfold nb_add_number. set (chunks := [put16 ty; _; _]).
  assert (concat chunks = part ty (be_bytes 8 v)) as Ec.
  { unfold chunks, part. cbn [concat]. rewrite !put16_be, htonll_bytes, app_nil_r by (done || lia).
    by rewrite length_be_bytes. }
  rewrite <-Ec. rewrite length_part, length_be_bytes in Hf.
  apply write_part_ok; [done| |lia]. by rewrite Ec, length_part, length_be_bytes.
Qed.

(** *** Value lists *)

Definition value_type (t : Z) : Prop :=
  t = LCC_TYPE_COUNTER ∨ t = LCC_TYPE_GAUGE ∨ t = LCC_TYPE_DERIVE ∨ t = LCC_TYPE_ABSOLUTE.

(** A name fits into its array and holds no NUL. *)
Definition name_ok (s : cstr) : Prop := (length s ≤ 63)%nat ∧ no_nul s.
Definition id_ok (i : lcc_identifier_t) : Prop :=
  name_ok (host i) ∧ name_ok (plugin i) ∧ name_ok (plugin_instance i) ∧ name_ok (type i) ∧
  name_ok (type_instance i).

(** A value list that can be sent: between 1 and 7280 values of known types,
    times that are not negative and fit. *)
Record vl_ok (vl : lcc_value_list_t) : Prop := {
  ok_id : id_ok (identifier vl);
  ok_len : length (values_types vl) = length (values vl);
  ok_num : 1 ≤ Z.of_nat (length (values vl)) ≤ 7280;
  ok_types : Forall value_type (values_types vl);
  ok_values : Forall in_u64 (values vl);
  ok_time : is_Some (to_cdtime (time vl));
  ok_interval : is_Some (to_cdtime (interval vl));
}.

(** The eight bytes a value travels in. *)
Definition value_bytes (t v : Z) : list ascii :=
  if t =? LCC_TYPE_GAUGE then le_bytes 8 (htond v) else be_bytes 8 v.
Definition values_payload (vl : lcc_value_list_t) : list ascii :=
  be_bytes 2 (Z.of_nat (length (values vl))) ++ map byte_of (values_types vl)
  ++ concat (zip_with value_bytes (values_types vl) (values vl)).

Lemma length_value_bytes t v : length (value_bytes t v) = 8%nat.
Proof. unfold value_bytes. destruct (_ =? _); [apply length_le_bytes|apply length_be_bytes]. Qed.

Lemma length_values_bytes ts vs : length ts = length vs →
  length (concat (zip_with value_bytes ts vs)) = (8 * length vs)%nat.
Proof.
  revert vs. induction ts as [|t ts IH]; intros [|v vs]; intros Hl; simpl in Hl; try lia; [done|].
  cbn [zip_with concat]. rewrite length_app, length_value_bytes, IH by lia. simpl. lia.
Qed.

Lemma length_values_payload vl : length (values_types vl) = length (values vl) →
  length (values_payload vl) = (2 + 9 * length (values vl))%nat.
Proof.
  intros Hl. unfold values_payload.
  rewrite !length_app, length_be_bytes, length_map, length_values_bytes by done. lia.
Qed.

Lemma pkg_values_ok ts vs : length ts = length vs → Forall value_type ts → Forall in_u64 vs →
  ∃ ws, pkg_values vs ts = ret (Some ws) ∧
        concat (map (le_bytes 8) ws) = concat (zip_with value_bytes ts vs).
Proof.
  revert vs. induction ts as [|t ts IH]; intros [|v vs] Hl Hts Hvs; simpl in Hl; try lia.
  { by exists []. }
  apply Forall_cons_1 in Hts as [Ht Hts]. apply Forall_cons_1 in Hvs as [Hv Hvs].
  destruct (IH vs) as (ws & E & Ec); [lia|done|done|].
  assert (∃ w, wire_value t v = Some w ∧ le_bytes 8 w = value_bytes t v) as (w & Ew & Eb).
  { unfold value_bytes. destruct Ht as [-> |[-> |[-> | ->]]]; cbn -[le_bytes htonll htond be_bytes];
      eexists; (split; [reflexivity|]); (reflexivity || by apply htonll_bytes). }
  exists (w :: ws). cbn [pkg_values map concat zip_with]. rewrite Ew, E, bind_ret. split; [done|].
  by rewrite Eb, Ec.
Qed.

Lemma add_values_ok c vl : cu_wf c → vl_ok vl →
  (length (part TYPE_VALUES (values_payload vl)) ≤ cu_free c)%nat →
  ∃ c', nb_add_values c vl = ret (0, c') ∧ appended c c' (part TYPE_VALUES (values_payload vl)).
Proof.
  intros Hw [_ Hlen Hnum Htypes Hvals _ _] Hf. rewrite length_part, length_values_payload in Hf by done.
  unfold nb_add_values. rewrite (proj2 (Nat.ltb_ge _ 1)), (proj2 (Nat.ltb_ge (cu_free c) _)) by lia.
  destruct (pkg_values_ok _ _ Hlen Htypes Hvals) as (ws & -> & Ec). rewrite bind_ret.
  set (n := length (values vl)) in *. set (chunks := [_; _; _; _; _]).
  assert (concat chunks = part TYPE_VALUES (values_payload vl)) as Epart.
  { unfold part. rewrite length_values_payload by done. unfold chunks, values_payload. fold n.
    cbn [concat]. rewrite !put16_be, app_nil_r, take_ge, Ec by (done || lia). do 3 f_equal. lia. }
  rewrite <-Epart. apply write_part_ok; [done| |lia].
  rewrite Epart, length_part, length_values_payload by done. fold n. lia.
Qed.

(** A block of [nb_add_value_list]: it appends [bs] and moves to the state
    [st'], or there is no room and it fails. *)
Definition block (m : M (Z * cursor * lcc_value_list_t)) (c : cursor) (bs : list ascii)
    (st' : lcc_value_list_t) : Prop :=
  cu_wf c →
  ((length bs ≤ cu_free c)%nat → ∃ c', m = ret (0, c', st') ∧ appended c c' bs) ∧
  ((cu_free c < length bs)%nat → ∃ c' st'' pre, m = ret (-1, c', st'') ∧ appended c c' pre).

Lemma appended_free c c' bs : cu_wf c → appended c c' bs →
  (cu_free c' + length bs = cu_free c)%nat.
Proof. unfold cu_wf. intros Hw (Hw' & _ & Hl & Hp). unfold cu_wf in Hw'. lia. Qed.

Lemma block_andthen m k c b1 st1 b2 st2 :
  block m c b1 st1 → (∀ c1, block (k c1 st1) c1 b2 st2) → block (andthen m k) c (b1 ++ b2) st2.
Proof.
  intros Hm Hk Hw. rewrite length_app. unfold andthen. destruct (Hm Hw) as [Hok Hfail]. split.
  - intros Hf. destruct Hok as (c1 & -> & Ha); [lia|]. rewrite bind_ret. cbn [negb Z.eqb].
    pose proof (appended_free _ _ _ Hw Ha). destruct (Hk c1) as [Hok2 _]; [apply Ha|].
    destruct Hok2 as (c2 & -> & Ha2); [lia|]. exists c2. split; [done|]. by eapply appended_trans.
  - intros Hf. destruct (decide (length b1 ≤ cu_free c)%nat) as [Hle|Hgt].
    + destruct Hok as (c1 & -> & Ha); [done|]. rewrite bind_ret. cbn [negb Z.eqb].
      pose proof (appended_free _ _ _ Hw Ha). destruct (Hk c1) as [_ Hfail2]; [apply Ha|].
      destruct Hfail2 as (c2 & st & pre & -> & Ha2); [lia|].
      exists c2, st, (b1 ++ pre). split; [done|]. by eapply appended_trans.
    + destruct Hfail as (c1 & st & pre & -> & Ha); [lia|]. rewrite bind_ret. cbn [negb Z.eqb].
      by exists c1, st, pre.
Qed.

Lemma block_skip c st : block (ret (0, c, st)) c [] st.
Proof. intros Hw. split; [intros _|simpl; lia]. exists c. split; [done|by apply appended_refl]. Qed.

(** What the names of [vl] add to a packet that has said [i]. *)
Fixpoint enc_names (tys : list Z) (vl i : lcc_identifier_t) : list ascii * lcc_identifier_t :=
  match tys with
  | [] => ([], i)
  | ty :: tys =>
      match get_name ty vl, get_name ty i with
      | Some src, Some dst =>
          if bool_decide (dst = src) then enc_names tys vl i
          else match set_name ty src i with
               | Some i' => let '(bs, i'') := enc_names tys vl i' in (part ty (src ++ [NUL]) ++ bs, i'')
               | None => ([], i)
               end
      | _, _ => ([], i)
      end
  end.

Lemma name_type_cases ty : ty ∈ name_types → 0 ≤ ty < 2 ^ 16 ∧
  ∀ i s, is_Some (get_name ty i) ∧ is_Some (set_name ty s i).
Proof.
  intros Hty. unfold name_types in Hty. rewrite !elem_of_cons, elem_of_nil in Hty.
  split; [unfold TYPE_HOST, TYPE_PLUGIN, TYPE_PLUGIN_INSTANCE, TYPE_TYPE, TYPE_TYPE_INSTANCE in Hty; lia|].
  intros [] s. destruct_or! Hty; subst; by split; eexists.
Qed.

Lemma get_name_ok ty i s : id_ok i → get_name ty i = Some s → name_ok s.
Proof. intros (? & ? & ? & ? & ?). unfold get_name. repeat case_match; naive_solver. Qed.

Lemma add_name_block ty tys vl c st : ty ∈ name_types → id_ok (identifier vl) →
  (∀ c st, block (add_names tys vl c st) c (enc_names tys (identifier vl) (identifier st)).1
             (set_identifier (enc_names tys (identifier vl) (identifier st)).2 st)) →
  block (add_names (ty :: tys) vl c st) c (enc_names (ty :: tys) (identifier vl) (identifier st)).1
    (set_identifier (enc_names (ty :: tys) (identifier vl) (identifier st)).2 st).
Proof.
  intros Hty Hid IH. cbn [add_names enc_names]. destruct (name_type_cases ty Hty) as [Hr Hsome].
  destruct (Hsome (identifier vl) []) as [[src Esrc] _]. destruct (Hsome (identifier st) []) as [[dst Edst] _].
  unfold add_name. rewrite Esrc, Edst. cbn [mopt]. rewrite !bind_ret.
  destruct (get_name_ok _ _ _ Hid Esrc) as [Hlen _].
  destruct (bool_decide_reflect (dst = src)) as [->|Hne].
  { rewrite (proj2 (strcmp_eq src src) eq_refl). cbn [Z.eqb].
    apply (block_andthen _ _ c [] st); [apply block_skip|done]. }
  assert ((strcmp dst src =? 0) = false) as -> by (apply Z.eqb_neq; by rewrite strcmp_eq).
  destruct (Hsome (identifier st) src) as [_ [i' Ei]]. rewrite Ei.
  destruct (enc_names tys (identifier vl) i') as [bs i''] eqn:Eenc. cbn [fst snd].
  apply block_andthen with (st1 := set_identifier i' st).
  - intros Hw. split.
    + intros Hf. destruct (nb_add_string_ok c ty src) as (c' & -> & Ha); [done..|]. rewrite bind_ret.
      cbn [negb Z.eqb]. unfold LCC_NAME_LEN. rewrite take_ge, Ei by (simpl; lia). cbn [mopt].
      rewrite bind_ret. by exists c'.
    + intros Hf. unfold nb_add_string. rewrite length_part, length_app in Hf. simpl in Hf.
      rewrite write_part_full, bind_ret by (simpl; lia). cbn [negb Z.eqb]. change (ENOMEM =? 0) with false.
      exists c, st, []. split; [done|by apply appended_refl].
  - intros c1. specialize (IH c1 (set_identifier i' st)). cbn [identifier set_identifier] in IH.
    by rewrite Eenc in IH.
Qed.

Lemma add_names_block tys vl c st : Forall (λ ty, ty ∈ name_types) tys → id_ok (identifier vl) →
  block (add_names tys vl c st) c (enc_names tys (identifier vl) (identifier st)).1
    (set_identifier (enc_names tys (identifier vl) (identifier st)).2 st).
Proof.
  intros Hty Hid. revert c st. induction Hty as [|ty tys Hty _ IH]; intros c st.
  - cbn [add_names enc_names]. replace (set_identifier _ st) with st by (by destruct st). apply block_skip.
  - by apply add_name_block.
Qed.

(** The time parts. *)
Definition enc_time (ty : Z) (old new : double) : list ascii :=
  if feq old new then [] else part ty (be_bytes 8 (default 0 (to_cdtime new))).

Lemma to_cdtime_range t z : to_cdtime t = Some z → in_u64 z.
Proof.
  unfold to_cdtime, u64_of_trunc. destruct (trunc_Z _) as [y|]; [|done]. simpl.
  destruct ((0 <=? y) && (y <? 2 ^ 64)) eqn:E; [|done]. intros [= <-]. breflect. by split.
Qed.

Lemma add_time_block ty old new upd c st : 0 ≤ ty < 2 ^ 16 → is_Some (to_cdtime new) →
  block (add_time ty old new upd c st) c (enc_time ty old new) (if feq old new then st else upd new st).
Proof.
  intros Hty [z Ez]. unfold add_time, enc_time. destruct (feq old new); [apply block_skip|].
  unfold nb_add_time. rewrite Ez. cbn [mopt default]. rewrite bind_ret. pose proof (to_cdtime_range _ _ Ez) as Hz.
  intros Hw. split; intros Hf.
  - destruct (add_number_ok c ty z) as (c' & -> & Ha); [done..|]. rewrite bind_ret. by exists c'.
  - rewrite length_part, length_be_bytes in Hf. unfold nb_add_number.
    rewrite write_part_full, bind_ret by done. exists c, st, []. split; [done|by apply appended_refl].
Qed.

Lemma enc_names_all vl i : (enc_names name_types vl i).2 = vl.
Proof.
  destruct vl as [h p pi t ti], i as [h' p' pi' t' ti'].
  unfold name_types. cbn [enc_names get_name set_name Z.eqb host plugin plugin_instance type type_instance].
  repeat (cbn; case_bool_decide; subst); done.
Qed.

(** The bytes that [vl] adds to a packet whose state is [st], and the state
    afterwards. *)
Definition encode (st vl : lcc_value_list_t) : list ascii :=
  (enc_names name_types (identifier vl) (identifier st)).1
  ++ enc_time TYPE_TIME_HR (time st) (time vl) ++ enc_time TYPE_INTERVAL_HR (interval st) (interval vl)
  ++ part TYPE_VALUES (values_payload vl).
Definition said (st vl : lcc_value_list_t) : lcc_value_list_t :=
  {| values := values st; values_types := values_types st;
     time := if feq (time st) (time vl) then time st else time vl;
     interval := if feq (interval st) (interval vl) then interval st else interval vl;
     identifier := identifier vl |}.

(** Adding a value list appends its encoding, or fails and keeps the packet. *)
Lemma add_value_ok nb vl : cu_wf (nb_cur nb) → vl_ok vl →
  ((length (encode (nb_state nb) vl) ≤ cu_free (nb_cur nb))%nat →
   ∃ c', lcc_network_buffer_add_value nb vl = ret (0, with_state (said (nb_state nb) vl) (with_cur c' nb)) ∧
         appended (nb_cur nb) c' (encode (nb_state nb) vl)) ∧
  ((cu_free (nb_cur nb) < length (encode (nb_state nb) vl))%nat →
   ∃ c' st', lcc_network_buffer_add_value nb vl = ret (-1, with_state st' (with_cur c' nb)) ∧
     cu_wf c' ∧ cu_data c' = cu_data (nb_cur nb) ∧ cu_free c' = cu_free (nb_cur nb)).
Proof.
  intros Hw Hok. set (c := nb_cur nb) in *. set (st := nb_state nb).
  set (st1 := set_identifier (identifier vl) st).
  set (st2 := if feq (time st1) (time vl) then st1 else set_time (time vl) st1).
  set (st3 := if feq (interval st2) (interval vl) then st2 else set_interval (interval vl) st2).
  assert (time st1 = time st ∧ interval st2 = interval st) as [Et Ei]
    by (unfold st2; destruct (feq _ _); done).
  assert (st3 = said st vl) as E3.
  { unfold st3, said. rewrite Ei. unfold st2. rewrite Et.
    by destruct (feq (time st) _), (feq (interval st) _). }
  assert (block (andthen (add_names name_types vl c st) (λ c st,
      andthen (add_time TYPE_TIME_HR (time st) (time vl) set_time c st) (λ c st,
      andthen (add_time TYPE_INTERVAL_HR (interval st) (interval vl) set_interval c st) (λ c st,
      let* '(status, c) := nb_add_values c vl in
      ret (if negb (status =? 0) then -1 else 0, c, st))))) c (encode st vl) (said st vl)) as Hb.
  { unfold encode. apply block_andthen with (st1 := st1).
    { pose proof (add_names_block name_types vl c st) as H. rewrite enc_names_all in H.
      apply H; [|apply Hok]. by repeat constructor. }
    intros c1. rewrite <-Et. apply block_andthen with (st1 := st2).
    { apply add_time_block; [done|apply Hok]. }
    intros c2. rewrite <-Ei. apply block_andthen with (st1 := st3).
    { apply add_time_block; [done|apply Hok]. }
    intros c3 Hw3. rewrite E3. split; intros Hf.
    - destruct (add_values_ok c3 vl) as (c4 & -> & Ha); [done..|]. rewrite bind_ret. by exists c4.
    - rewrite length_part, length_values_payload in Hf by apply Hok. unfold nb_add_values.
      destruct Hok as [_ _ Hnum _ _ _ _].
      rewrite (proj2 (Nat.ltb_ge _ 1)), (proj2 (Nat.ltb_lt (cu_free c3) _)), bind_ret by lia.
      exists c3, (said st vl), []. split; [done|by apply appended_refl]. }
  unfold lcc_network_buffer_add_value, nb_add_value_list. fold c st. destruct (Hb Hw) as [H1 H2]. split.
  - intros Hf. destruct (H1 Hf) as (c' & -> & Ha). rewrite bind_ret. by exists c'.
  - intros Hf. destruct (H2 Hf) as (c' & st' & pre & -> & (Hw' & Hd & Hl & Hp)). rewrite bind_ret.
    cbn [negb Z.eqb]. eexists _, st'. split; [reflexivity|].
    unfold cu_wf, cu_data in *; cbn [cu_buf cu_ptr cu_free]. split_and!; [lia| |done].
    rewrite Hp in Hd. apply (f_equal (take (cu_ptr c))) in Hd.
    rewrite take_take, Nat.min_l in Hd by lia. rewrite Hd, take_app_le, take_take, Nat.min_id; [done|].
    rewrite length_take. lia.
Qed.
