(* ===== verification/LccParse.v ===== *)
(** * The client library's parser: src/libcollectdclient/network_parse.c

    The parser reads a packet part by part and hands every value list to the
    writer callback when the security level of the packet is high enough.  A
    buffer is the list of the bytes that are left; [buffer_next] checks every
    access.  Signed and encrypted parts start the parser again on what they
    enclose.  Together with [LccBuffer] this gives the round trip of the
    protocol, and what the security levels promise. *)

From Stdlib Require Import ZArith Lia Ascii String.
From stdpp Require Import base numbers list option.
From S2P Require Import Prelude Double StrBuf CommonStr Wire LccBuffer.

(** ** Reading *)

Section parser.
Local Open Scope nat_scope.

Definition buffer_next (b : list ascii) (n : nat) : option (list ascii * list ascii) :=
  if length b <? n then None else Some (take n b, drop n b).
Definition buffer_uint16 (b : list ascii) : option (Z * list ascii) :=
  '(tmp, b) ← buffer_next b 2; Some (be16toh (le_value tmp), b).

Definition parse_int (payload : list ascii) : option Z :=
  if negb (length payload =? 8) then None else Some (be64toh (le_value payload)).

(** [None] is EINVAL; [strncpy] stops at the first NUL. *)
Definition parse_string (payload : list ascii) (out_size : nat) : option cstr :=
  if (length payload <? 1) || negb (bool_decide (list.last payload = Some NUL)) || (out_size <? length payload)
  then None
  else Some (take (out_size - 1) (c_str payload)).

Definition parse_identifier (ty : Z) (payload : list ascii) (state : lcc_value_list_t)
    : option lcc_value_list_t :=
  buf ← parse_string payload LCC_NAME_LEN;
  i ← set_name ty buf (identifier state);
  Some (set_identifier i state).

Definition of_cdtime (t : double) : double := fdiv t (of_Z 1073741824).
Definition parse_time (ty : Z) (payload : list ascii) (state : lcc_value_list_t)
    : option lcc_value_list_t :=
  tmp ← parse_int payload;
  let t := of_Z tmp in
  if (ty =? TYPE_INTERVAL)%Z then Some (set_interval t state)
  else if (ty =? TYPE_INTERVAL_HR)%Z then Some (set_interval (of_cdtime t) state)
  else if (ty =? TYPE_TIME)%Z then Some (set_time t state)
  else if (ty =? TYPE_TIME_HR)%Z then Some (set_time (of_cdtime t) state)
  else None.

(** [ntohd] on a host with the x86 layout. *)
Definition ntohd (bits : Z) : Z := if (bits =? NAN_BITS)%Z then NAN_BITS else bits.

Definition host_value (t v : Z) : option Z :=
  if (t =? LCC_TYPE_GAUGE)%Z then Some (ntohd v)
  else
    let v := be64toh v in
    if ((t =? LCC_TYPE_COUNTER) || (t =? LCC_TYPE_DERIVE) || (t =? LCC_TYPE_ABSOLUTE))%Z
    then Some v else None.
Fixpoint parse_types (n : nat) (b : list ascii) : option (list Z * list ascii) :=
  match n with
  | O => Some ([], b)
  | S n =>
      '(tmp, b) ← buffer_next b 1;
      '(ts, b) ← parse_types n b;
      Some (le_value tmp :: ts, b)
  end.
Fixpoint parse_numbers (ts : list Z) (b : list ascii) : option (list Z) :=
  match ts with
  | [] => Some []
  | t :: ts =>
      '(tmp, b) ← buffer_next b 8;
      v ← host_value t (le_value tmp);
      vs ← parse_numbers ts b;
      Some (v :: vs)
  end.
(** The two allocations may fail; any failure is a failure of the packet. *)
Definition parse_values (payload : list ascii) (state : lcc_value_list_t) : M (option lcc_value_list_t) :=
  match buffer_uint16 payload with
  | None => ret None
  | Some (n, b) =>
      if negb (Z.to_nat n * 9 =? length b) then ret None
      else
        let* ok1 := alloc in
        let* ok2 := alloc in
        if negb (ok1 && ok2) then ret None
        else ret ('(ts, b) ← parse_types (Z.to_nat n) b;
                  vs ← parse_numbers ts b;
                  Some (set_values vs ts state))
  end.

(** ** The parser *)

(** [opts]; the writer's status may depend on what it has been given before. *)
Record lcc_network_parse_options_t := {
  writer : list lcc_value_list_t → lcc_value_list_t → Z;
  password_lookup : option (cstr → option cstr);
  security_level : lcc_security_level_t;
}.

Definition level_num (l : lcc_security_level_t) : nat :=
  match l with NONE => 0 | SIGN => 1 | ENCRYPT => 2 end.

Context `{Gcrypt}.

(** 0 when the hash is right. *)
Definition verify_sha256 (payload : list ascii) (username password : cstr) (hash_provided : list ascii) : Z :=
  match hmac_sha256 password (username ++ payload) with
  | None => (-1)%Z
  | Some hash => if bool_decide (hash_provided = take 32 hash) then 0%Z else 1%Z
  end.

Section opts.
Variable opts : lcc_network_parse_options_t.

(** The parser keeps [written], the value lists given to the writer so far;
    [None] means out of fuel. *)
Definition result : Type := option (Z * list lcc_value_list_t).

Definition parse_sign_sha256 (network_parse : list ascii → lcc_security_level_t → list lcc_value_list_t → M result)
    (signature payload : list ascii) (written : list lcc_value_list_t) : M result :=
  match password_lookup opts with
  | None => network_parse payload NONE written
  | Some lookup =>
      match buffer_next signature 32 with
      | None => ret (Some (EINVAL, written))
      | Some (hash, b) =>
          let username := c_str (b ++ [NUL]) in
          match lookup username with
          | None => network_parse payload NONE written
          | Some password =>
              let status := verify_sha256 payload username password hash in
              if negb (status =? 0)%Z then ret (Some (status, written))
              else network_parse payload SIGN written
          end
      end
  end.

Definition parse_encrypt_aes256 (network_parse : list ascii → lcc_security_level_t → list lcc_value_list_t → M result)
    (data : list ascii) (written : list lcc_value_list_t) : M result :=
  match password_lookup opts with
  | None => ret (Some (ENOENT, written))
  | Some lookup =>
      match buffer_uint16 data with
      | None => ret (Some (EINVAL, written))
      | Some (username_len, b) =>
          if length data <? Z.to_nat username_len then ret (Some (ENOMEM, written))
          else
            match buffer_next b (Z.to_nat username_len) with
            | None => ret (Some (EINVAL, written))
            | Some (name, b) =>
                match lookup (c_str (name ++ [NUL])) with
                | None => ret (Some (ENOENT, written))
                | Some password =>
                    match buffer_next b 16 with
                    | None => ret (Some (EINVAL, written))
                    | Some (iv, b) =>
                        match aes256_decrypt password iv b with
                        | None => ret (Some ((-1)%Z, written))
                        | Some b =>
                            match buffer_next b 20 with
                            | None => ret (Some ((-1)%Z, written))
                            | Some (hash_provided, b) =>
                                if bool_decide (hash_provided = take 20 (sha1 b))
                                then network_parse b ENCRYPT written
                                else ret (Some ((-1)%Z, written))
                            end
                        end
                    end
                end
            end
      end
  end.

Definition is_name (ty : Z) : bool :=
  ((ty =? TYPE_HOST) || (ty =? TYPE_PLUGIN) || (ty =? TYPE_PLUGIN_INSTANCE) || (ty =? TYPE_TYPE)
   || (ty =? TYPE_TYPE_INSTANCE))%Z.
Definition is_time (ty : Z) : bool :=
  ((ty =? TYPE_INTERVAL) || (ty =? TYPE_INTERVAL_HR) || (ty =? TYPE_TIME) || (ty =? TYPE_TIME_HR))%Z.

(** The loop of [network_parse]: [b], the state of the identifier and times,
    what has been written. *)
Fixpoint parse_loop (fuel : nat) (b : list ascii) (sl : lcc_security_level_t)
    (state : lcc_value_list_t) (written : list lcc_value_list_t) : M result :=
  match fuel with
  | O => ret None
  | S fuel =>
      let network_parse data sl written := parse_loop fuel data sl no_value_list written in
      if length b =? 0 then ret (Some (0%Z, written))
      else
        match ('(type, b) ← buffer_uint16 b; '(sz, b) ← buffer_uint16 b; Some (type, sz, b)) with
        | None => ret (Some (EINVAL, written))
        | Some (type, sz, b) =>
            if ((sz <? 5) || (Z.of_nat (length b) <? sz - 4))%Z then ret (Some (EINVAL, written))
            else
              match buffer_next b (Z.to_nat (sz - 4)) with
              | None => ret (Some (EINVAL, written))
              | Some (payload, b) =>
                  if is_name type then
                    match parse_identifier type payload state with
                    | None => ret (Some (EINVAL, written))
                    | Some state => parse_loop fuel b sl state written
                    end
                  else if is_time type then
                    match parse_time type payload state with
                    | None => ret (Some (EINVAL, written))
                    | Some state => parse_loop fuel b sl state written
                    end
                  else if (type =? TYPE_VALUES)%Z then
                    let* vl := parse_values payload state in
                    match vl with
                    | None => ret (Some (EINVAL, written))
                    | Some vl =>
                        if level_num (security_level opts) <=? level_num sl then
                          let status := writer opts written vl in
                          let written := written ++ [vl] in
                          if negb (status =? 0)%Z then ret (Some (status, written))
                          else parse_loop fuel b sl state written
                        else parse_loop fuel b sl state written
                    end
                  else if (type =? TYPE_SIGN_SHA256)%Z then
                    let* r := parse_sign_sha256 network_parse payload b written in
                    match r with
                    | None => ret None
                    | Some (status, written) =>
                        if negb (status =? 0)%Z then ret (Some ((-1)%Z, written))
                        else parse_loop fuel [] sl state written
                    end
                  else if (type =? TYPE_ENCR_AES256)%Z then
                    let* r := parse_encrypt_aes256 network_parse payload written in
                    match r with
                    | None => ret None
                    | Some (status, written) =>
                        if negb (status =? 0)%Z then ret (Some ((-1)%Z, written))
                        else parse_loop fuel b sl state written
                    end
                  else ret (Some (EINVAL, written))
              end
        end
  end.

Definition network_parse (data : list ascii) (sl : lcc_security_level_t)
    (written : list lcc_value_list_t) : M result :=
  parse_loop (S (length data)) data sl no_value_list written.

(** [init_gcrypt]'s status is a parameter. *)
Definition lcc_network_parse (init_gcrypt : Z) (data : list ascii) : M result :=
  match password_lookup opts with
  | Some _ => if negb (init_gcrypt =? 0)%Z then ret (Some (init_gcrypt, [])) else network_parse data NONE []
  | None => network_parse data NONE []
  end.
End opts.
End parser.

(** ** Termination and authenticity *)

(** What libgcrypt documents: hashes have a fixed size, the cipher keeps the
    length and decryption inverts encryption. *)
Class GcryptLaws `{Gcrypt} : Prop := {
  hmac_length : ∀ k d h, hmac_sha256 k d = Some h → length h = 32%nat;
  sha1_length : ∀ d, length (sha1 d) = 20%nat;
  decrypt_length : ∀ k iv d p, aes256_decrypt k iv d = Some p → length p = length d;
  encrypt_length : ∀ k iv d p, aes256_encrypt k iv d = Some p → length p = length d;
  decrypt_encrypt : ∀ k iv d e, aes256_encrypt k iv d = Some e → aes256_decrypt k iv e = Some d;
}.

Section safety.
Context `{GcryptLaws} (opts : lcc_network_parse_options_t).

(** [b] begins with a part of this type and payload; [rest] follows it. *)
Definition begins (b : list ascii) (ty : Z) (payload rest : list ascii) : Prop :=
  ∃ x1 b1 sz x2 b2, b = x1 ++ b1 ∧ buffer_uint16 b = Some (ty, b1) ∧ b1 = x2 ++ b2 ∧ buffer_uint16 b1 = Some (sz, b2) ∧
    b2 = payload ++ rest ∧ Z.of_nat (length payload) = sz - 4.

(** What a signature is: the right hash of the user name and everything that
    follows the part, keyed with the password of the user. *)
Definition signs (payload rest : list ascii) : Prop :=
  ∃ lookup hash name password, password_lookup opts = Some lookup ∧ payload = hash ++ name ∧
    lookup (c_str (name ++ [NUL])) = Some password ∧ hmac_sha256 password (c_str (name ++ [NUL]) ++ rest) = Some hash.
(** A payload that decrypts, with the password of the user it names, to data
    with the right checksum. *)
Definition encrypts (payload plain : list ascii) : Prop :=
  ∃ lookup len name iv cipher password, password_lookup opts = Some lookup ∧ payload = len ++ name ++ iv ++ cipher ∧
    length len = 2%nat ∧ length iv = 16%nat ∧
    lookup (c_str (name ++ [NUL])) = Some password ∧ aes256_decrypt password iv cipher = Some (sha1 plain ++ plain).

(** Where the parser may be in a packet, with which level and which names and
    times.  Only what a signature covers is read at the level SIGN, and only
    what was decrypted at ENCRYPT; there the names and times start afresh.
    What follows an encrypted part is read as what came before it. *)
Inductive inside (data : list ascii) : lcc_security_level_t → lcc_value_list_t → list ascii → Prop :=
  | inside_packet : inside data NONE no_value_list data
  | inside_name sl st b ty payload rest st' : inside data sl st b → begins b ty payload rest →
      parse_identifier ty payload st = Some st' → inside data sl st' rest
  | inside_time sl st b ty payload rest st' : inside data sl st b → begins b ty payload rest →
      parse_time ty payload st = Some st' → inside data sl st' rest
  | inside_values sl st b payload rest : inside data sl st b → begins b TYPE_VALUES payload rest → inside data sl st rest
  | inside_unchecked sl st b payload rest : inside data sl st b → begins b TYPE_SIGN_SHA256 payload rest →
      inside data NONE no_value_list rest
  | inside_signed sl st b payload rest : inside data sl st b → begins b TYPE_SIGN_SHA256 payload rest →
      signs payload rest → inside data SIGN no_value_list rest
  | inside_encrypted sl st b payload rest plain : inside data sl st b → begins b TYPE_ENCR_AES256 payload rest →
      encrypts payload plain → inside data ENCRYPT no_value_list plain
  | inside_after sl st b payload rest : inside data sl st b → begins b TYPE_ENCR_AES256 payload rest → inside data sl st rest.

(** A value list that may be written: read from a values part at a place where
    the level is high enough, with the names and times of that place. *)
Definition legitimate (data : list ascii) (vl : lcc_value_list_t) : Prop :=
  ∃ sl st b payload rest o o', inside data sl st b ∧ (level_num (security_level opts) ≤ level_num sl)%nat ∧
    begins b TYPE_VALUES payload rest ∧ parse_values payload st o = Some (Some vl, o').

Lemma buffer_next_Some b n x y : buffer_next b n = Some (x, y) → b = x ++ y ∧ length x = n.
Proof.
  unfold buffer_next. destruct (Nat.ltb_spec (length b) n); [done|]. intros [= <- <-].
  rewrite take_drop, length_take. split; [done|lia].
Qed.

Lemma buffer_uint16_Some b z y : buffer_uint16 b = Some (z, y) → ∃ x, b = x ++ y ∧ length x = 2%nat.
Proof.
  unfold buffer_uint16. destruct (buffer_next b 2) as [[x y']|] eqn:E; [|done]. simpl. intros [= _ <-].
  exists x. by apply buffer_next_Some.
Qed.

(** What every call of the parser guarantees: it terminates, it only extends
    what has been written, and by legitimate value lists. *)
Definition guarded (data : list ascii) (w : list lcc_value_list_t) (r : result) : Prop :=
  ∃ status new, r = Some (status, w ++ new) ∧ Forall (legitimate data) new.

Lemma guarded_stop data w status : guarded data w (Some (status, w)).
Proof. exists status, []. by rewrite app_nil_r. Qed.
Lemma guarded_more data w new r : Forall (legitimate data) new → guarded data (w ++ new) r → guarded data w r.
Proof.
  intros Hn (status & new' & -> & Hn'). exists status, (new ++ new'). rewrite app_assoc. split; [done|]. by apply Forall_app.
Qed.

(** The two parts that are read as packets of their own. *)
Lemma sign_guarded data parse sl st b signature payload w :
  inside data sl st b → begins b TYPE_SIGN_SHA256 signature payload →
  (∀ sl w, inside data sl no_value_list payload → wp (parse payload sl w) (guarded data w)) →
  wp (parse_sign_sha256 opts parse signature payload w) (guarded data w).
Proof.
  intros Hin Hb Hp. pose proof (Hp NONE w (inside_unchecked _ _ _ _ _ _ Hin Hb)) as Hnone.
  unfold parse_sign_sha256. destruct (password_lookup opts) as [lookup|] eqn:El; [|exact Hnone].
  destruct (buffer_next signature 32) as [[hash name]|] eqn:Eb; [|apply wp_ret, guarded_stop].
  apply buffer_next_Some in Eb as [-> Hhash].
  destruct (lookup (c_str (name ++ [NUL]))) as [password|] eqn:Epw; [|exact Hnone].
  unfold verify_sha256. destruct (hmac_sha256 password _) as [h|] eqn:Eh; [|apply wp_ret, guarded_stop].
  case_bool_decide as Hh; [|apply wp_ret, guarded_stop]. cbn [negb Z.eqb].
  rewrite take_ge in Hh by (rewrite (hmac_length _ _ _ Eh); lia). subst h.
  apply Hp. eapply inside_signed; [done..|]. by exists lookup, hash, name, password.
Qed.

Lemma encrypt_guarded data parse sl st b payload rest w :
  inside data sl st b → begins b TYPE_ENCR_AES256 payload rest →
  (∀ plain sl w, (length plain ≤ length payload)%nat → inside data sl no_value_list plain → wp (parse plain sl w) (guarded data w)) →
  wp (parse_encrypt_aes256 opts parse payload w) (guarded data w).
Proof.
  intros Hin Hb Hp. unfold parse_encrypt_aes256.
  destruct (password_lookup opts) as [lookup|] eqn:El; [|apply wp_ret, guarded_stop].
  destruct (buffer_uint16 payload) as [[ulen b0]|] eqn:E0; [|apply wp_ret, guarded_stop].
  apply buffer_uint16_Some in E0 as (x & -> & Hx).
  destruct (_ <? _)%nat; [apply wp_ret, guarded_stop|].
  destruct (buffer_next b0 _) as [[name b1]|] eqn:E1; [|apply wp_ret, guarded_stop].
  apply buffer_next_Some in E1 as [-> _].
  destruct (lookup _) as [password|] eqn:Epw; [|apply wp_ret, guarded_stop].
  destruct (buffer_next b1 16) as [[iv b2]|] eqn:E2; [|apply wp_ret, guarded_stop].
  apply buffer_next_Some in E2 as [-> Hiv].
  destruct (aes256_decrypt password iv b2) as [b3|] eqn:Ed; [|apply wp_ret, guarded_stop].
  destruct (buffer_next b3 20) as [[hash plain]|] eqn:E3; [|apply wp_ret, guarded_stop].
  apply buffer_next_Some in E3 as [-> Hh].
  case_bool_decide as Heq; [|apply wp_ret, guarded_stop].
  rewrite take_ge in Heq by (rewrite sha1_length; lia). subst hash.
  pose proof (decrypt_length _ _ _ _ Ed) as Hlen. rewrite length_app in Hlen.
  apply Hp; [rewrite !length_app; lia|]. eapply inside_encrypted; [done..|].
  by exists lookup, x, name, iv, b2, password.
Qed.

Lemma parse_values_wp payload st : wp (parse_values payload st) (λ _, True).
Proof.
  unfold parse_values. destruct (buffer_uint16 payload) as [[n b]|]; [|by apply wp_ret].
  destruct (negb _); [by apply wp_ret|]. do 2 (apply wp_bind, wp_alloc; intros ?).
  destruct (negb _); by apply wp_ret.
Qed.

(** A header that is read begins a part. *)
Lemma header_begins b ty sz b2 payload rest :
  ('(type, b) ← buffer_uint16 b; '(sz, b) ← buffer_uint16 b; Some (type, sz, b)) = Some (ty, sz, b2) →
  5 ≤ sz → buffer_next b2 (Z.to_nat (sz - 4)) = Some (payload, rest) →
  begins b ty payload rest ∧ (length payload + length rest < length b)%nat.
Proof.
  destruct (buffer_uint16 b) as [[ty' b1]|] eqn:E1; [|done]. cbn [mbind option_bind].
  destruct (buffer_uint16 b1) as [[sz' b2']|] eqn:E2; [|done]. cbn [mbind option_bind]. intros [= -> -> ->] Hsz E3.
  pose proof (buffer_uint16_Some _ _ _ E1) as (x1 & Eb & Hx1). pose proof (buffer_uint16_Some _ _ _ E2) as (x2 & Eb1 & _).
  apply buffer_next_Some in E3 as [-> Hlen]. split; [exists x1, b1, sz, x2, (payload ++ rest); split_and!; try done; lia|].
  rewrite Eb, Eb1, !length_app. lia.
Qed.

Lemma parse_loop_guarded data fuel : ∀ b sl st w, (length b < fuel)%nat → inside data sl st b →
  wp (parse_loop opts fuel b sl st w) (guarded data w).
Proof.
  induction fuel as [|fuel IH]; intros b sl st w Hf Hin; [lia|]. cbn [parse_loop].
  destruct (length b =? 0)%nat; [apply wp_ret, guarded_stop|].
  destruct (buffer_uint16 b ≫= _) as [[[ty sz] b2]|] eqn:Eh; [|apply wp_ret, guarded_stop].
  destruct (Z.ltb_spec sz 5) as [|Hsz]; [apply wp_ret, guarded_stop|]. cbn [orb].
  destruct (Z.of_nat (length b2) <? sz - 4); [apply wp_ret, guarded_stop|].
  destruct (buffer_next b2 _) as [[payload rest]|] eqn:En; [|apply wp_ret, guarded_stop].
  destruct (header_begins _ _ _ _ _ _ Eh Hsz En) as [Hb Hlen]. clear Eh En b2.
  destruct (is_name ty).
  { destruct (parse_identifier ty payload st) eqn:E; [|apply wp_ret, guarded_stop]. apply IH; [lia|by eapply inside_name]. }
  destruct (is_time ty).
  { destruct (parse_time ty payload st) eqn:E; [|apply wp_ret, guarded_stop]. apply IH; [lia|by eapply inside_time]. }
  destruct (Z.eqb_spec ty TYPE_VALUES) as [->|_].
  { assert (∀ w, wp (parse_loop opts fuel rest sl st w) (guarded data w)) as Hgo by (intros; apply IH; [lia|by eapply inside_values]).
    intros o. destruct (parse_values_wp payload st o) as (vl & o' & E & _). unfold bind. rewrite E.
    destruct vl as [vl|]; [|by apply wp_ret, guarded_stop].
    destruct (Nat.leb_spec (level_num (security_level opts)) (level_num sl)) as [Hle|_]; [|apply Hgo].
    assert (Forall (legitimate data) [vl]) as Hvl by (apply Forall_singleton; by exists sl, st, b, payload, rest, o, o').
    destruct (negb _).
    - apply wp_ret. by exists (writer opts w vl), [vl].
    - eapply wp_mono; [apply Hgo|]. intros r. by apply guarded_more. }
  destruct (Z.eqb_spec ty TYPE_SIGN_SHA256) as [->|_].
  { apply wp_bind. eapply wp_mono; [eapply sign_guarded; [done..|intros; apply IH; [lia|done]]|].
    intros r (status & new & -> & Hnew). destruct (negb (status =? 0)).
    { apply wp_ret. by exists (-1), new. }
    destruct fuel; [lia|]. apply wp_ret. by exists 0, new. }
  destruct (Z.eqb_spec ty TYPE_ENCR_AES256) as [->|_]; [|apply wp_ret, guarded_stop].
  apply wp_bind. eapply wp_mono; [eapply encrypt_guarded; [done..|intros; apply IH; [lia|done]]|].
  intros r (status & new & -> & Hnew). destruct (negb (status =? 0)).
  { apply wp_ret. by exists (-1), new. }
  eapply wp_mono; [apply IH; [lia|by eapply inside_after]|]. intros r. by apply guarded_more.
Qed.

(** C21. Every packet is parsed to an end, whatever its bytes are and whatever
    libgcrypt, the allocator and the callbacks answer, and every value list
    handed to the writer is read from a values part at a place that the level
    asked for allows ([legitimate]): when the options ask for signed packets,
    in what follows a signature and is covered by it, or in what an encrypted
    part decrypts to; when they ask for encrypted packets, only in the latter.
    Its names and times come from the same place. *)
Theorem network_parse_authentic data :
  wp (network_parse opts data NONE []) (λ r, ∃ status written,
    r = Some (status, written) ∧ Forall (legitimate data) written).
Proof. apply parse_loop_guarded; [lia|apply inside_packet]. Qed.

(** ** Fuel does not matter *)

Lemma sign_ext p1 p2 signature payload w o :
  (∀ sl w o, p1 payload sl w o = p2 payload sl w o) →
  parse_sign_sha256 opts p1 signature payload w o = parse_sign_sha256 opts p2 signature payload w o.
Proof. intros Hp. unfold parse_sign_sha256. repeat case_match; auto. Qed.

Lemma encrypt_ext p1 p2 data w o :
  (∀ b sl w o, (length b ≤ length data)%nat → p1 b sl w o = p2 b sl w o) →
  parse_encrypt_aes256 opts p1 data w o = parse_encrypt_aes256 opts p2 data w o.
Proof.
  intros Hp. unfold parse_encrypt_aes256.
  destruct (password_lookup opts) as [lookup|]; [|done].
  destruct (buffer_uint16 data) as [[ulen b0]|] eqn:E0; [|done].
  apply buffer_uint16_Some in E0 as (x & -> & _). destruct (_ <? _)%nat; [done|].
  destruct (buffer_next b0 _) as [[name b1]|] eqn:E1; [|done]. apply buffer_next_Some in E1 as [-> _].
  destruct (lookup _) as [password|]; [|done].
  destruct (buffer_next b1 16) as [[iv b2]|] eqn:E2; [|done]. apply buffer_next_Some in E2 as [-> _].
  destruct (aes256_decrypt password iv b2) as [b3|] eqn:Ed; [|done].
  destruct (buffer_next b3 20) as [[hash plain]|] eqn:E3; [|done]. apply buffer_next_Some in E3 as [-> _].
  case_bool_decide; [|done]. apply Hp.
  pose proof (decrypt_length _ _ _ _ Ed) as Hlen. rewrite !length_app in *. lia.
Qed.

Lemma parse_loop_fuel f1 : ∀ f2 b sl st w o, (length b < f1)%nat → (length b < f2)%nat →
  parse_loop opts f1 b sl st w o = parse_loop opts f2 b sl st w o.
Proof.
  induction f1 as [|f1 IH]; intros [|f2] b sl st w o H1 H2; try lia. cbn [parse_loop].
  destruct (length b =? 0)%nat; [done|].
  destruct (buffer_uint16 b) as [[ty b1]|] eqn:E1; simpl; [|done].
  apply buffer_uint16_Some in E1 as (x1 & -> & Hx1).
  destruct (buffer_uint16 b1) as [[sz b2]|] eqn:E2; simpl; [|done].
  apply buffer_uint16_Some in E2 as (x2 & -> & Hx2).
  destruct (_ || _); [done|].
  destruct (buffer_next b2 _) as [[payload rest]|] eqn:E3; [|done].
  apply buffer_next_Some in E3 as [-> _]. rewrite !length_app in H1, H2.
  destruct (is_name ty); [destruct (parse_identifier _ _ _); [apply IH; lia|done]|].
  destruct (is_time ty); [destruct (parse_time _ _ _); [apply IH; lia|done]|].
  destruct (ty =? TYPE_VALUES).
  { apply bind_ext; [done|]. intros [vl|] o'; [|done]. repeat case_match; (done || apply IH; lia). }
  destruct (ty =? TYPE_SIGN_SHA256).
  { apply bind_ext; [apply sign_ext; intros; apply IH; lia|].
    intros [[status w']|] o'; [|done]. destruct (negb _); [done|]. apply IH; simpl; lia. }
  destruct (ty =? TYPE_ENCR_AES256); [|done].
  apply bind_ext; [apply encrypt_ext; intros; apply IH; lia|].
  intros [[status w']|] o'; [|done]. destruct (negb _); [done|]. apply IH; lia.
Qed.

(** ** Reading what was written *)

Definition parse_from (b : list ascii) : lcc_security_level_t → lcc_value_list_t →
  list lcc_value_list_t → M result := parse_loop opts (S (length b)) b.

Lemma buffer_next_app a b n : length a = n → buffer_next (a ++ b) n = Some (a, b).
Proof.
  intros <-. unfold buffer_next. rewrite length_app, (proj2 (Nat.ltb_ge _ _)) by lia.
  by rewrite take_app_length, drop_app_length.
Qed.

Lemma buffer_uint16_app z b : 0 ≤ z < 2 ^ 16 → buffer_uint16 (be_bytes 2 z ++ b) = Some (z, b).
Proof.
  intros Hz. unfold buffer_uint16. rewrite buffer_next_app by apply length_be_bytes. simpl.
  unfold be16toh. rewrite <-(length_be_bytes 2 z) at 1. by rewrite swap_read, be_value_bytes.
Qed.

Lemma header_app ty payload rest :
  0 ≤ ty < 2 ^ 16 → Z.of_nat (length payload) < 2 ^ 16 - 4 →
  ('(type, b) ← buffer_uint16 (part ty payload ++ rest); '(sz, b) ← buffer_uint16 b; Some (type, sz, b))
  = Some (ty, 4 + Z.of_nat (length payload), payload ++ rest).
Proof.
  intros Hty Hp. unfold part. rewrite <-!app_assoc. rewrite buffer_uint16_app by done.
  cbn [mbind option_bind]. by rewrite buffer_uint16_app by lia.
Qed.

(** One part: the header is consumed and the payload dispatched on. *)
Lemma parse_from_part ty payload rest sl st w o :
  0 ≤ ty < 2 ^ 16 → 1 ≤ Z.of_nat (length payload) < 2 ^ 16 - 4 →
  parse_from (part ty payload ++ rest) sl st w o =
  (if is_name ty then
     match parse_identifier ty payload st with
     | None => ret (Some (EINVAL, w)) | Some st => parse_from rest sl st w end
   else if is_time ty then
     match parse_time ty payload st with
     | None => ret (Some (EINVAL, w)) | Some st => parse_from rest sl st w end
   else if ty =? TYPE_VALUES then
     let* vl := parse_values payload st in
     match vl with
     | None => ret (Some (EINVAL, w))
     | Some vl =>
         if (level_num (security_level opts) <=? level_num sl)%nat then
           if negb (writer opts w vl =? 0) then ret (Some (writer opts w vl, w ++ [vl]))
           else parse_from rest sl st (w ++ [vl])
         else parse_from rest sl st w
     end
   else parse_from (part ty payload ++ rest) sl st w) o.
Proof.
  intros Hty Hp. destruct (is_name ty) eqn:En; [|destruct (is_time ty) eqn:Et; [|destruct (ty =? TYPE_VALUES) eqn:Ev]];
    [..|done].
  all: unfold parse_from at 1; cbn [parse_loop]; rewrite length_app, length_part, header_app by lia.
  all: destruct (Nat.eqb_spec (4 + length payload + length rest) 0); [lia|].
  all: rewrite (proj2 (Z.ltb_ge _ 5)), (proj2 (Z.ltb_ge _ (_ - 4))) by (rewrite ?length_app; lia).
  all: cbn [orb]; rewrite buffer_next_app by lia; rewrite ?En, ?Et, ?Ev.
  1: destruct (parse_identifier ty payload st); [|done]; apply parse_loop_fuel; lia.
  1: destruct (parse_time ty payload st); [|done]; apply parse_loop_fuel; lia.
  apply bind_ext; [done|]. intros [vl|] o'; [|done].
  repeat case_match; (done || apply parse_loop_fuel; lia).
Qed.
End safety.
