(* ===== verification/LccRoundtrip.v ===== *)
(** * The network protocol end to end

    [LccBuffer] writes packets and [LccParse] reads them.  Here the two are
    composed: what is added to a network buffer, whether the packet is signed
    or not, comes out of the parser value list by value list.  The delta
    encoding is a simulation: the parser's state is the writer's, with the
    times as they survive the trip. *)

From Stdlib Require Import ZArith Lia Ascii String SpecFloat.
From stdpp Require Import base numbers list option.
From S2P Require Import Prelude Double StrBuf CommonStr Wire LccBuffer LccParse.

(** ** What arrives *)

Definition received_time (t : double) : double := of_cdtime (of_Z (default 0 (to_cdtime t))).
Definition received_value (t v : Z) : Z := if t =? LCC_TYPE_GAUGE then htond v else v.
Definition received (vl : lcc_value_list_t) : lcc_value_list_t :=
  {| values := zip_with received_value (values_types vl) (values vl);
     values_types := values_types vl;
     time := received_time (time vl);
     interval := received_time (interval vl);
     identifier := identifier vl |}.

(** The parser's state, after the writer's. *)
Definition sync (r st : lcc_value_list_t) : Prop :=
  values r = [] ∧ values_types r = [] ∧ identifier r = identifier st ∧
  time r = received_time (time st) ∧ interval r = received_time (interval st).

Lemma feq_cases a b : feq a b = true → a = b ∨ ∃ s s', a = S754_zero s ∧ b = S754_zero s'.
Proof.
  unfold feq, SFeqb. destruct a as [sa|sa| |sa ma ea], b as [sb|sb| |sb mb eb]; simpl;
    try (destruct sa; done); try (destruct sb; done); try (destruct sa, sb; done); try done.
  - intros _. right. by eexists _, _.
  - destruct sa, sb; try done; auto.
  - destruct sa, sb; try done; destruct (Z.compare_spec ea eb) as [->| |]; try done;
      rewrite Pos.compare_cont_spec; simpl; destruct (Pos.compare_spec ma mb) as [->| |]; try done; auto.
Qed.

Lemma received_time_feq a b : feq a b = true → received_time a = received_time b.
Proof. intros [->|(s & s' & -> & ->)]%feq_cases; [done|]. by destruct s, s'. Qed.

Section roundtrip.
Context `{GcryptLaws} (opts : lcc_network_parse_options_t).

Lemma parse_string_name s : name_ok s → parse_string (s ++ [NUL]) LCC_NAME_LEN = Some s.
Proof.
  intros [Hl Hn]. unfold parse_string, LCC_NAME_LEN. rewrite last_snoc, length_app.
  rewrite bool_decide_true, (proj2 (Nat.ltb_ge _ 1)), (proj2 (Nat.ltb_ge 64 _)) by (done || simpl; lia).
  cbn [negb orb]. rewrite c_str_app by done. by rewrite take_ge by (simpl; lia).
Qed.

Lemma is_name_type ty : ty ∈ name_types → is_name ty = true.
Proof.
  unfold name_types. rewrite !elem_of_cons, elem_of_nil. intros H'. destruct_or! H'; by subst.
Qed.

Lemma parse_names tys vl i st rest sl w o :
  Forall (λ ty, ty ∈ name_types) tys → id_ok vl → identifier st = i →
  parse_from opts ((enc_names tys vl i).1 ++ rest) sl st w o
  = parse_from opts rest sl (set_identifier (enc_names tys vl i).2 st) w o.
Proof.
  intros Hty Hid. revert i st. induction Hty as [|ty tys Hty _ IH]; intros i st Hi; cbn [enc_names].
  { subst i. by replace (set_identifier _ st) with st by (by destruct st). }
  destruct (name_type_cases ty Hty) as [Hr Hsome].
  destruct (Hsome vl []) as [[src Esrc] _]. destruct (Hsome i []) as [[dst Edst] _].
  rewrite Esrc, Edst. case_bool_decide; [by apply IH|].
  destruct (Hsome i src) as [_ [i' Ei]]. rewrite Ei.
  specialize (IH i'). destruct (enc_names tys vl i') as [bs i'']. cbn [fst snd] in *.
  pose proof (get_name_ok _ _ _ Hid Esrc) as Hok. destruct Hok as [Hlen Hnn].
  rewrite <-app_assoc, parse_from_part; [|done|rewrite length_app; simpl; lia].
  rewrite is_name_type by done. unfold parse_identifier.
  rewrite parse_string_name by (by split). cbn [mbind option_bind]. rewrite Hi, Ei. cbn [mbind option_bind].
  rewrite (IH (set_identifier i' st)) by done. done.
Qed.

Lemma parse_int_be v : in_u64 v → parse_int (be_bytes 8 v) = Some v.
Proof.
  intros Hv. unfold parse_int, be64toh. rewrite length_be_bytes. cbn [Nat.eqb negb].
  rewrite <-(length_be_bytes 8 v) at 1. by rewrite swap_read, be_value_bytes.
Qed.

Lemma parse_time_part ty old new st rest sl w o upd :
  ty = TYPE_TIME_HR ∧ upd = set_time ∨ ty = TYPE_INTERVAL_HR ∧ upd = set_interval →
  is_Some (to_cdtime new) →
  parse_from opts (enc_time ty old new ++ rest) sl st w o
  = parse_from opts rest sl (if feq old new then st else upd (received_time new) st) w o.
Proof.
  intros Hty [z Ez]. unfold enc_time, received_time. destruct (feq old new); [done|].
  rewrite Ez. cbn [default]. pose proof (to_cdtime_range _ _ Ez) as Hz.
  rewrite parse_from_part; [|destruct Hty as [[-> _]|[-> _]]; done|by rewrite length_be_bytes].
  unfold parse_time. rewrite parse_int_be by done. cbn [mbind option_bind].
  destruct Hty as [[-> ->]|[-> ->]]; done.
Qed.

Lemma parse_types_ok ts rest : Forall value_type ts →
  parse_types (length ts) (map byte_of ts ++ rest) = Some (ts, rest).
Proof.
  induction 1 as [|t ts Ht _ IH]; [done|]. cbn [length map app parse_types].
  change (byte_of t :: map byte_of ts ++ rest) with ([byte_of t] ++ map byte_of ts ++ rest).
  rewrite buffer_next_app by done. cbn [mbind option_bind]. rewrite IH. cbn [mbind option_bind].
  do 2 f_equal. destruct Ht as [-> |[-> |[-> | ->]]]; done.
Qed.

Lemma host_value_ok t v : value_type t → in_u64 v →
  host_value t (le_value (value_bytes t v)) = Some (received_value t v).
Proof.
  intros Ht Hv. unfold host_value, value_bytes, received_value.
  destruct (t =? LCC_TYPE_GAUGE) eqn:Eg.
  - f_equal. unfold ntohd. rewrite le_value_bytes, Z.mod_small; [by case_match; breflect|].
    unfold htond. destruct (bits_nan v); [|done]. unfold NAN_BITS. split; done.
  - unfold be64toh. rewrite <-(length_be_bytes 8 v) at 1. rewrite swap_read, be_value_bytes by done.
    destruct Ht as [-> |[-> |[-> | ->]]]; done.
Qed.

Lemma parse_numbers_ok ts vs : length ts = length vs → Forall value_type ts → Forall in_u64 vs →
  parse_numbers ts (concat (zip_with value_bytes ts vs)) = Some (zip_with received_value ts vs).
Proof.
  revert vs. induction ts as [|t ts IH]; intros [|v vs] Hl Hts Hvs; simpl in Hl; try lia; [done|].
  apply Forall_cons_1 in Hts as [Ht Hts]. apply Forall_cons_1 in Hvs as [Hv Hvs].
  cbn [zip_with concat parse_numbers]. rewrite buffer_next_app by apply length_value_bytes.
  cbn [mbind option_bind]. rewrite host_value_ok by done. cbn [mbind option_bind].
  by rewrite IH by (done || lia).
Qed.

Lemma parse_values_ok vl st : vl_ok vl →
  parse_values (values_payload vl) st
  ⇓ Some (set_values (zip_with received_value (values_types vl) (values vl)) (values_types vl) st).
Proof.
  intros [_ Hlen Hnum Hty Hv _ _]. unfold parse_values, values_payload.
  rewrite buffer_uint16_app by lia. rewrite Nat2Z.id, length_app, length_map, length_values_bytes, Hlen by done.
  rewrite (proj2 (Nat.eqb_eq _ _)) by lia. cbn [negb].
  unfold yields, bind, alloc. cbn [andb negb ret]. rewrite <-Hlen, parse_types_ok by done.
  cbn [mbind option_bind]. rewrite parse_numbers_ok by done. done.
Qed.

(** The writer accepts everything and the level is high enough. *)
Definition accepts (sl : lcc_security_level_t) : Prop :=
  (∀ w vl, writer opts w vl = 0) ∧ (level_num (security_level opts) ≤ level_num sl)%nat.

(** One value list: the parser hands it on, and the states stay in step. *)
Lemma parse_encode st vl rest sl r w : accepts sl → vl_ok vl → sync r st →
  ∃ r', sync r' (said st vl) ∧
    parse_from opts (encode st vl ++ rest) sl r w [] = parse_from opts rest sl r' (w ++ [received vl]) [].
Proof.
  intros [Hw Hl] Hok (Hv & Ht & Hi & Htime & Hint). unfold encode. rewrite <-!app_assoc.
  rewrite parse_names by (apply Hok || done || by repeat constructor). rewrite enc_names_all.
  rewrite (parse_time_part _ _ _ _ _ _ _ _ set_time) by (auto || apply Hok).
  rewrite (parse_time_part _ _ _ _ _ _ _ _ set_interval) by (auto || apply Hok).
  set (r1 := set_identifier (identifier vl) r).
  set (r2 := if feq (time st) (time vl) then r1 else _).
  set (r3 := if feq (interval st) (interval vl) then r2 else _).
  assert (time r2 = received_time (time vl) ∧ interval r2 = interval r) as [Et2 Ei2].
  { unfold r2. destruct (feq (time st) (time vl)) eqn:E; [|done]. split; [|done]. simpl.
    rewrite Htime. by apply received_time_feq. }
  assert (time r3 = received_time (time vl) ∧ interval r3 = received_time (interval vl)) as [Et3 Ei3].
  { unfold r3. destruct (feq (interval st) (interval vl)) eqn:E; [|done]. split; [done|].
    rewrite Ei2, Hint. by apply received_time_feq. }
  assert (values r3 = [] ∧ values_types r3 = [] ∧ identifier r3 = identifier vl) as (Ev3 & Ety3 & Eid3).
  { unfold r3, r2, r1. destruct (feq _ _), (feq _ _); done. }
  exists r3. split.
  { unfold sync, said; cbn [values values_types identifier time interval]. split_and!; [done..| |].
    - rewrite Et3. destruct (feq (time st) (time vl)) eqn:E; [|done]. symmetry. by apply received_time_feq.
    - rewrite Ei3. destruct (feq (interval st) (interval vl)) eqn:E; [|done]. symmetry.
      by apply received_time_feq. }
  destruct Hok as [Hid Hlen Hnum Hty Hvs Htm Hin].
  rewrite parse_from_part; [|done|rewrite length_values_payload by done; lia].
  change (is_name TYPE_VALUES) with false. change (is_time TYPE_VALUES) with false.
  change (TYPE_VALUES =? TYPE_VALUES) with true. cbn iota.
  rewrite (yields_bind_eq _ _ _ (parse_values_ok vl r3 ltac:(by split))).
  rewrite (proj2 (Nat.leb_le _ _)), Hw by done. cbn [Z.eqb negb]. do 3 f_equal.
  unfold received, set_values. by rewrite Et3, Ei3, Eid3.
Qed.

(** A sequence of value lists added to a buffer, each with status 0. *)
Inductive adds : lcc_network_buffer_t → list lcc_value_list_t → lcc_network_buffer_t → Prop :=
  | adds_nil nb : adds nb [] nb
  | adds_cons nb nb1 nb2 vl vls :
      lcc_network_buffer_add_value nb vl ⇓ (0, nb1) → adds nb1 vls nb2 → adds nb (vl :: vls) nb2.

Fixpoint encode_all (st : lcc_value_list_t) (vls : list lcc_value_list_t) : list ascii :=
  match vls with [] => [] | vl :: vls => encode st vl ++ encode_all (said st vl) vls end.

Lemma adds_appended nb vls nb' : cu_wf (nb_cur nb) → Forall vl_ok vls → adds nb vls nb' →
  appended (nb_cur nb) (nb_cur nb') (encode_all (nb_state nb) vls) ∧
  nb_seclevel nb' = nb_seclevel nb ∧ nb_password nb' = nb_password nb ∧
  nb_encr_header_len nb' = nb_encr_header_len nb.
Proof.
  intros Hw Hok Hadd. induction Hadd as [nb|nb nb1 nb2 vl vls Hadd _ IH]; [by split; [apply appended_refl|]|].
  apply Forall_cons_1 in Hok as [Hvl Hok]. destruct (add_value_ok nb vl Hw Hvl) as [Hfit Hfull].
  destruct (decide (length (encode (nb_state nb) vl) ≤ cu_free (nb_cur nb))%nat) as [Hle|Hgt].
  - destruct (Hfit Hle) as (c' & E & Ha). rewrite E in Hadd. injection Hadd as <-.
    destruct IH as (IH & Hs); [apply Ha|done|]. split; [|exact Hs].
    cbn [encode_all]. eapply appended_trans; [exact Ha|exact IH].
  - destruct (Hfull ltac:(lia)) as (c' & st' & E & _). rewrite E in Hadd. discriminate Hadd.
Qed.

Lemma parse_all vls : ∀ st r sl w, accepts sl → Forall vl_ok vls → sync r st →
  parse_from opts (encode_all st vls) sl r w [] = Some (Some (0, w ++ map received vls), []).
Proof.
  induction vls as [|vl vls IH]; intros st r sl w Ha Hok Hs.
  { cbn. by rewrite app_nil_r. }
  apply Forall_cons_1 in Hok as [Hvl Hok]. cbn [encode_all map].
  destruct (parse_encode st vl (encode_all (said st vl) vls) sl r w Ha Hvl Hs) as (r' & Hs' & ->).
  rewrite (IH _ _ _ _ Ha Hok Hs'). by rewrite <-app_assoc.
Qed.

Lemma sync_init : sync no_value_list no_value_list.
Proof. by vm_compute. Qed.

(** A buffer that has just been initialised for unsigned packets. *)
Definition fresh (nb : lcc_network_buffer_t) : Prop :=
  cu_wf (nb_cur nb) ∧ cu_ptr (nb_cur nb) = 0%nat ∧ nb_state nb = no_value_list ∧ nb_seclevel nb = NONE.

Lemma get_packet nb : cu_wf (nb_cur nb) → ∀ n, (cu_ptr (nb_cur nb) ≤ n)%nat →
  lcc_network_buffer_get nb n = ret (cu_ptr (nb_cur nb), cu_data (nb_cur nb)).
Proof.
  unfold cu_wf, cu_data. intros Hw n Hn. unfold lcc_network_buffer_get, massert.
  rewrite (proj2 (Nat.leb_le _ _)), bind_ret by lia.
  replace (length (cu_buf (nb_cur nb)) - cu_free (nb_cur nb))%nat with (cu_ptr (nb_cur nb)) by lia.
  rewrite (proj2 (Nat.ltb_ge _ _)) by lia. done.
Qed.

(** C19. Value lists survive the network: whatever sequence of value lists is
    added with success to a fresh unsigned buffer, the packet that [lcc_network_buffer_get] returns is
    parsed by [lcc_network_parse] into exactly these value lists in order, with
    the same names, types and values (a NaN in its standard form) and with the
    times rounded to units of 2^-30 seconds; although most parts of the packet
    are left out because they repeat what came before. *)
Theorem network_roundtrip nb vls nb' n : accepts NONE → Forall vl_ok vls → fresh nb → adds nb vls nb' →
  (cu_ptr (nb_cur nb') ≤ n)%nat →
  ∃ packet, lcc_network_buffer_finalize nb' ⇓ (0, nb') ∧
    lcc_network_buffer_get nb' n ⇓ (length packet, packet) ∧
    lcc_network_parse opts 0 packet ⇓ Some (0, map received vls).
Proof.
  intros Ha Hok (Hw & Hp & Hst & Hsl) Hadds Hn.
  destruct (adds_appended nb vls nb' Hw Hok Hadds) as ((Hw' & Hd & _ & _) & Hsl' & _).
  exists (cu_data (nb_cur nb')). unfold lcc_network_buffer_finalize. rewrite Hsl', Hsl.
  rewrite get_packet, length_cu_data by done. split_and!; [done|done|].
  unfold cu_data in Hd at 2. rewrite Hp, take_0 in Hd. cbn [app] in Hd. rewrite Hd, Hst.
  assert (network_parse opts (encode_all no_value_list vls) NONE [] ⇓ Some (0, map received vls)) as Hn'.
  { unfold yields. change (network_parse opts ?b NONE []) with (parse_from opts b NONE no_value_list []).
    by rewrite (parse_all _ _ _ _ _ Ha Hok sync_init). }
  unfold lcc_network_parse. by destruct (password_lookup opts).
Qed.

(** ** Signed packets *)

Definition sign_header (hash : list ascii) (u : cstr) : list ascii := part TYPE_SIGN_SHA256 (hash ++ u).

Definition sign_hd (u : cstr) : list ascii :=
  be_bytes 2 TYPE_SIGN_SHA256 ++ be_bytes 2 (36 + Z.of_nat (length u)).

Lemma sign_header_hd z u : length z = 32%nat → sign_header z u = sign_hd u ++ z ++ u.
Proof.
  intros Hz. unfold sign_header, part, sign_hd. rewrite length_app, Hz, <-app_assoc. do 3 f_equal. lia.
Qed.

Lemma store_zeros_at k bs a n : length a = n → (length bs ≤ k)%nat →
  store (a ++ replicate k NUL) n bs = ret ((a ++ bs) ++ replicate (k - length bs) NUL).
Proof. intros <-. apply store_zeros. Qed.

Lemma initialize_sign nb iv u : nb_seclevel nb = SIGN → nb_username nb = Some u →
  (36 + length u ≤ length (cu_buf (nb_cur nb)))%nat → Z.of_nat (length u) < 2 ^ 16 - 36 →
  ∃ nb1, lcc_network_buffer_initialize nb iv = ret nb1 ∧
    cu_wf (nb_cur nb1) ∧ cu_data (nb_cur nb1) = sign_header (replicate 32 NUL) u ∧
    cu_ptr (nb_cur nb1) = (36 + length u)%nat ∧ nb_state nb1 = no_value_list ∧
    nb_seclevel nb1 = SIGN ∧ nb_password nb1 = nb_password nb.
Proof.
  intros Hsl Hu Hfit Hlen. unfold lcc_network_buffer_initialize. cbn [with_state with_cur nb_seclevel nb_username].
  rewrite Hsl, Hu. cbn [mopt]. rewrite bind_ret. set (size := length (cu_buf (nb_cur nb))) in *.
  unfold PART_SIGNATURE_SHA256_SIZE, wrap. rewrite (Z.mod_small (Z.of_nat (length u))) by lia.
  cbn [cu_buf]. rewrite memcpys_store by (cbn [concat]; rewrite !length_app, !length_put16, length_replicate; simpl; lia).
  cbn [concat]. rewrite app_nil_r, !put16_be by (done || lia). set (hd := be_bytes 2 _ ++ be_bytes 2 _).
  assert (length hd = 4%nat) as Hhd by (unfold hd; by rewrite length_app, !length_be_bytes).
  rewrite (store_zeros_at size hd []), bind_ret by (done || lia). cbn [app]. rewrite Hhd.
  replace (size - 4)%nat with (32 + (size - 36))%nat by lia. rewrite replicate_add, app_assoc.
  rewrite store_zeros_at, bind_ret by (rewrite ?length_app, ?length_replicate; lia).
  eexists. split; [reflexivity|].
  unfold cu_wf, cu_data; cbn [with_cur nb_cur cu_buf cu_ptr cu_free nb_state with_state nb_seclevel nb_password].
  split_and!; try done.
  - rewrite !length_app, !length_replicate, Hhd. lia.
  - rewrite take_app_le, take_ge by (rewrite !length_app, length_replicate, Hhd; lia).
    unfold sign_header, part. rewrite length_app, length_replicate. rewrite <-!app_assoc.
    unfold hd. rewrite <-!app_assoc. do 3 f_equal. lia.
Qed.

Lemma finalize_sign nb u p body : nb_seclevel nb = SIGN → nb_password nb = Some p →
  cu_wf (nb_cur nb) → cu_data (nb_cur nb) = sign_header (replicate 32 NUL) u ++ body →
  match hmac_sha256 p (u ++ body) with
  | None => lcc_network_buffer_finalize nb = ret (-1, nb)
  | Some h =>
      ∃ nb', lcc_network_buffer_finalize nb = ret (0, nb') ∧ cu_wf (nb_cur nb') ∧
        cu_data (nb_cur nb') = sign_header h u ++ body ∧ cu_ptr (nb_cur nb') = cu_ptr (nb_cur nb)
  end.
Proof.
  intros Hsl Hp Hw Hd. unfold lcc_network_buffer_finalize, nb_add_signature. rewrite Hsl, Hp.
  pose proof (length_cu_data _ Hw) as Hptr. rewrite Hd in Hptr. unfold sign_header in Hptr.
  rewrite length_app, length_part, length_app, length_replicate in Hptr.
  unfold cu_wf, cu_data in *. set (buf := cu_buf (nb_cur nb)) in *. set (ptr := cu_ptr (nb_cur nb)) in *.
  unfold PART_SIGNATURE_SHA256_SIZE, massert. rewrite (proj2 (Nat.leb_le _ _)), bind_ret by lia.
  cbn [mopt]. rewrite bind_ret. replace (length buf - (cu_free (nb_cur nb) + 36))%nat with (ptr - 36)%nat by lia.
  assert (buf = sign_header (replicate 32 NUL) u ++ body ++ drop ptr buf) as Ebuf.
  { rewrite <-(take_drop ptr buf) at 1. by rewrite Hd, <-app_assoc. }
  set (tail := drop ptr buf) in *. clearbody tail.
  rewrite sign_header_hd in Ebuf by apply length_replicate.
  assert (length (sign_hd u) = 4%nat) as Hhd by done.
  assert (slice 36 (ptr - 36) buf = u ++ body) as ->.
  { unfold slice. rewrite Ebuf, <-!app_assoc, app_assoc.
    rewrite drop_app_length' by (rewrite length_app, length_replicate; lia).
    rewrite app_assoc. apply take_app_length'. rewrite length_app. lia. }
  destruct (hmac_sha256 p (u ++ body)) as [h|] eqn:Hh; [|done].
  pose proof (hmac_length _ _ _ Hh) as Hhl. rewrite sign_header_hd, (take_ge h) by lia.
  assert (store buf 4 h = ret ((sign_hd u ++ h ++ u) ++ body ++ tail)) as ->.
  { rewrite Ebuf, <-!app_assoc. rewrite <-Hhd.
    rewrite store_app by (rewrite !length_app, length_replicate; lia).
    by rewrite drop_app_length' by (rewrite length_replicate; lia). }
  rewrite bind_ret. eexists. split; [reflexivity|].
  cbn [with_cur nb_cur cu_buf cu_ptr cu_free].
  split_and!; [|by rewrite app_assoc, take_app_length'; rewrite ?length_app; (done || lia)|done].
  rewrite Ebuf, !length_app, length_replicate in Hw. rewrite !length_app. lia.
Qed.

Lemma parse_signed lookup u p h body ws : password_lookup opts = Some lookup → lookup u = Some p →
  no_nul u → Z.of_nat (length u) < 2 ^ 16 - 36 → hmac_sha256 p (u ++ body) = Some h →
  parse_from opts body SIGN no_value_list [] [] = Some (Some (0, ws), []) →
  parse_from opts (sign_header h u ++ body) NONE no_value_list [] [] = Some (Some (0, ws), []).
Proof.
  intros Hopt Hlk Hn Hlen Hh Hbody. pose proof (hmac_length _ _ _ Hh) as Hhl.
  unfold sign_header, parse_from at 1. cbn [parse_loop].
  rewrite length_app, length_part, length_app, header_app by (rewrite ?length_app; done || lia).
  destruct (Nat.eqb_spec (4 + (length h + length u) + length body) 0); [lia|].
  rewrite (proj2 (Z.ltb_ge _ 5)), (proj2 (Z.ltb_ge _ (_ - 4))) by (rewrite ?length_app; lia).
  cbn [orb]. rewrite buffer_next_app by lia.
  change (is_name TYPE_SIGN_SHA256) with false. change (is_time TYPE_SIGN_SHA256) with false.
  change (TYPE_SIGN_SHA256 =? TYPE_VALUES) with false.
  change (TYPE_SIGN_SHA256 =? TYPE_SIGN_SHA256) with true. cbn iota.
  unfold parse_sign_sha256. rewrite Hopt, buffer_next_app, c_str_app, Hlk by done.
  unfold verify_sha256. rewrite Hh, (take_ge h), bool_decide_true by (done || lia). cbn [Z.eqb negb].
  unfold parse_from in Hbody. unfold bind.
  rewrite (parse_loop_fuel opts _ (S (length body))) by lia. rewrite Hbody. cbn [negb Z.eqb].
  by destruct (4 + _ + _)%nat.
Qed.

(** The same for signed packets: a buffer whose security level was set to
    SIGN with a user's name and password, filled with any sequence of value
    lists and finalised, is accepted by a parser that requires signed packets
    and looks the same password up, and yields exactly these value lists. *)
Theorem network_roundtrip_signed nb0 iv u p lookup nb vls nb' nb'' n :
  (* the parser *)
  accepts SIGN → password_lookup opts = Some lookup → lookup u = Some p →
  (* the writer *)
  no_nul u → Z.of_nat (length u) < 2 ^ 16 - 36 → (36 + length u ≤ length (cu_buf (nb_cur nb0)))%nat →
  lcc_network_buffer_set_security_level true nb0 SIGN u p iv ⇓ (0, nb) →
  Forall vl_ok vls → adds nb vls nb' → lcc_network_buffer_finalize nb' ⇓ (0, nb'') →
  (cu_ptr (nb_cur nb'') ≤ n)%nat →
  ∃ packet, lcc_network_buffer_get nb'' n ⇓ (length packet, packet) ∧
    lcc_network_parse opts 0 packet ⇓ Some (0, map received vls).
Proof.
  intros Ha Hopt Hlk Hn Hlen Hfit Hset Hok Hadds Hfin Hsz.
  unfold lcc_network_buffer_set_security_level in Hset. cbn [negb] in Hset.
  unfold yields in Hset. rewrite !(yields_bind_eq _ _ _ yields_alloc) in Hset. cbn [negb andb] in Hset.
  set (nb1 := Build_lcc_network_buffer_t _ _ SIGN (Some u) _ _ _ _) in Hset.
  destruct (initialize_sign nb1 iv u) as (nb2 & E & Hw & Hd & Hptr & Hst & Hsl & Hpw); [done..|].
  rewrite E, bind_ret in Hset. injection Hset as ->.
  destruct (adds_appended nb vls nb' Hw Hok Hadds) as ((Hw' & Hd' & _ & _) & Hsl' & Hpw' & _).
  rewrite Hd, Hst in Hd'. set (body := encode_all no_value_list vls) in *.
  rewrite Hsl in Hsl'. rewrite Hpw in Hpw'. cbn [nb1 nb_password] in Hpw'.
  pose proof (finalize_sign nb' u p body Hsl' Hpw' Hw' Hd') as Hs.
  destruct (hmac_sha256 p (u ++ body)) as [h|] eqn:Eh; [|rewrite Hs in Hfin; discriminate Hfin].
  destruct Hs as (nb3 & E3 & Hw3 & Hd3 & Hp3). rewrite E3 in Hfin. injection Hfin as ->.
  exists (cu_data (nb_cur nb'')). rewrite get_packet, length_cu_data by done. split; [done|]. rewrite Hd3.
  unfold lcc_network_parse. rewrite Hopt. cbn [negb Z.eqb]. unfold yields.
  change (network_parse opts ?b NONE []) with (parse_from opts b NONE no_value_list []).
  eapply parse_signed; [done..|]. apply parse_all; [done|done|apply sync_init].
Qed.

(** ** Encrypted packets *)

Lemma add_generics_ok chunks : ∀ c, cu_wf c → (length (concat chunks) ≤ cu_free c)%nat →
  ∃ c', add_generics c chunks = ret c' ∧ appended c c' (concat chunks).
Proof.
  induction chunks as [|bs chunks IH]; intros c Hw Hf; cbn [add_generics concat].
  { exists c. split; [done|by apply appended_refl]. }
  cbn [concat] in Hf. rewrite length_app in Hf. unfold cu_wf in Hw.
  unfold add_generic, massert. rewrite (proj2 (Nat.leb_le _ _)), bind_ret by lia.
  rewrite store_at, !bind_ret by lia. set (c1 := Build_cursor _ _ _).
  assert (appended c c1 bs) as Ha.
  { unfold appended, cu_wf, cu_data; cbn [c1 cu_buf cu_ptr cu_free]. rewrite length_blit by lia.
    split_and!; [lia| |done|done]. by apply take_blit; lia. }
  destruct (IH c1) as (c2 & E & Ha2); [apply Ha|cbn [c1 cu_free]; lia|].
  exists c2. split; [done|]. by eapply appended_trans.
Qed.

Lemma initialize_encrypt nb iv u : nb_seclevel nb = ENCRYPT → nb_username nb = Some u → length iv = 16%nat →
  (42 + length u ≤ length (cu_buf (nb_cur nb)))%nat →
  ∃ nb1, lcc_network_buffer_initialize nb iv = ret nb1 ∧ cu_wf (nb_cur nb1) ∧
    cu_ptr (nb_cur nb1) = (42 + length u)%nat ∧ nb_state nb1 = no_value_list ∧ nb_seclevel nb1 = ENCRYPT ∧
    nb_encr_header_len nb1 = (42 + length u)%nat.
Proof.
  intros Hsl Hu Hiv Hfit. unfold lcc_network_buffer_initialize. cbn [with_state with_cur nb_seclevel nb_username].
  rewrite Hsl, Hu. cbn [mopt]. rewrite bind_ret. set (size := length (cu_buf (nb_cur nb))) in *.
  set (c := Build_cursor _ _ _). set (chunks := [_; _; _; _; _; _]).
  assert (length (concat chunks) = (42 + length u)%nat) as Hl.
  { unfold chunks. cbn [concat]. rewrite !length_app, !length_put16, length_replicate. simpl. lia. }
  destruct (add_generics_ok chunks c) as (c' & -> & Ha).
  { unfold cu_wf. cbn [c cu_buf cu_ptr cu_free]. by rewrite length_replicate. }
  { rewrite Hl. cbn [c cu_free]. lia. }
  rewrite bind_ret. destruct Ha as (Hw & _ & Hlb & Hp). rewrite Hl in Hp. cbn [c cu_ptr cu_buf Nat.add] in Hp, Hlb.
  rewrite length_replicate in Hlb. unfold cu_wf in Hw.
  unfold massert, PART_ENCRYPTION_AES256_SIZE. rewrite (proj2 (Nat.eqb_eq _ _)), bind_ret by lia.
  eexists. split; [reflexivity|]. cbn. split_and!; try done; lia.
Qed.

Lemma drop_blit l i bs k : (i + length bs ≤ k)%nat → (i + length bs ≤ length l)%nat →
  drop k (blit l i bs) = drop k l.
Proof.
  intros Hk Hl. unfold blit. rewrite drop_app_ge by (rewrite length_take; lia).
  rewrite drop_app_ge by (rewrite length_take; lia). rewrite drop_drop, length_take. f_equal. lia.
Qed.

Lemma store_inv l i bs (x : list ascii) : store l i bs [] = Some (x, []) →
  x = blit l i bs ∧ (i + length bs ≤ length l)%nat.
Proof. unfold store. destruct (Nat.leb_spec (i + length bs) (length l)); [|done]. by intros [= <-]. Qed.

(** Finalising touches nothing behind offset 42 plus the length of the body. *)
Lemma finalize_encrypt nb nb' n : nb_seclevel nb = ENCRYPT → cu_wf (nb_cur nb) →
  (cu_ptr (nb_cur nb) = nb_encr_header_len nb + n)%nat →
  lcc_network_buffer_finalize nb ⇓ (0, nb') →
  cu_ptr (nb_cur nb') = cu_ptr (nb_cur nb) ∧ length (cu_buf (nb_cur nb')) = length (cu_buf (nb_cur nb)) ∧
  drop (42 + n) (cu_buf (nb_cur nb')) = drop (42 + n) (cu_buf (nb_cur nb)).
Proof.
  intros Hsl Hw Hptr Hfin. unfold lcc_network_buffer_finalize, nb_add_encryption in Hfin. rewrite Hsl in Hfin.
  unfold cu_wf in Hw.
  replace (length (cu_buf (nb_cur nb)) - cu_free (nb_cur nb) - nb_encr_header_len nb)%nat with n in Hfin by lia.
  unfold PART_ENCRYPTION_AES256_SIZE in Hfin. cbn [Nat.sub] in Hfin. unfold yields in Hfin.
  unfold bind at 1 in Hfin. destruct (store _ 2 _ []) as [[b1 o1]|] eqn:E1; [|done].
  assert (o1 = []) as -> by (unfold store in E1; by destruct (_ <=? _)%nat; [injection E1|]).
  apply store_inv in E1 as [-> H1]. rewrite length_put16 in H1.
  unfold bind at 1 in Hfin. destruct (store _ 22 _ []) as [[b2 o2]|] eqn:E2; [|done].
  assert (o2 = []) as -> by (unfold store in E2; by destruct (_ <=? _)%nat; [injection E2|]).
  apply store_inv in E2 as [-> H2]. rewrite length_take, sha1_length in H2. cbn [Nat.min] in H2.
  rewrite length_blit in H2 by (rewrite length_put16; lia).
  destruct (nb_password nb) as [pw|]; [|done]. cbn [mopt] in Hfin. rewrite bind_ret in Hfin.
  destruct (aes256_encrypt _ _ _) as [text|] eqn:Ee; [|discriminate Hfin].
  unfold bind at 1 in Hfin. destruct (store _ 22 text []) as [[b3 o3]|] eqn:E3; [|done].
  assert (o3 = []) as -> by (unfold store in E3; by destruct (_ <=? _)%nat; [injection E3|]).
  apply store_inv in E3 as [-> H3]. injection Hfin as <-.
  cbn [with_cur nb_cur cu_ptr cu_buf].
  assert (length text ≤ n + 20)%nat as Ht.
  { rewrite (encrypt_length _ _ _ _ Ee). unfold slice. rewrite length_take. lia. }
  assert (length (blit (cu_buf (nb_cur nb)) 2 (put16 (Z.of_nat (length (cu_buf (nb_cur nb)) - cu_free (nb_cur nb)))))
    = length (cu_buf (nb_cur nb))) as Hb1 by (apply length_blit; rewrite length_put16; lia).
  assert (∀ h, length (take 20 (sha1 h)) = 20%nat) as Hb2 by (intros; by rewrite length_take, sha1_length).
  split_and!; [done|rewrite !length_blit; rewrite ?Hb2, ?Hb1; (done || lia)|].
  rewrite drop_blit by (done || lia). rewrite drop_blit by (rewrite ?Hb2, ?Hb1; lia).
  apply drop_blit; rewrite length_put16; lia.
Qed.

(** Encryption is incomplete.  [nb_add_encryption] computes the region to
    hash and to encrypt from the fixed part of the header and forgets the user
    name in it, so the region starts as many bytes too early as the name is
    long: whatever was added to the buffer, the last bytes of the packet, as
    many as the user name has, are sent in clear. *)
Theorem network_encryption_clear nb0 iv u p nb vls nb' nb'' :
  length iv = 16%nat → (42 + length u ≤ length (cu_buf (nb_cur nb0)))%nat →
  lcc_network_buffer_set_security_level true nb0 ENCRYPT u p iv ⇓ (0, nb) →
  Forall vl_ok vls → adds nb vls nb' → lcc_network_buffer_finalize nb' ⇓ (0, nb'') →
  let body := encode_all no_value_list vls in
  (length u ≤ length body)%nat →
  length (cu_data (nb_cur nb'')) = (42 + length u + length body)%nat ∧
  drop (42 + length body) (cu_data (nb_cur nb'')) = drop (length body - length u) body.
Proof.
  intros Hiv Hfit Hset Hok Hadds Hfin body Hu.
  unfold lcc_network_buffer_set_security_level in Hset. cbn [negb] in Hset.
  unfold yields in Hset. rewrite !(yields_bind_eq _ _ _ yields_alloc) in Hset. cbn [negb andb] in Hset.
  set (nb1 := Build_lcc_network_buffer_t _ _ ENCRYPT (Some u) _ _ _ _) in Hset.
  destruct (initialize_encrypt nb1 iv u) as (nb2 & E & Hw & Hp & Hst & Hsl & Hhl); [done..|].
  rewrite E, bind_ret in Hset. injection Hset as ->.
  destruct (adds_appended nb vls nb' Hw Hok Hadds) as ((Hw' & Hd' & _ & Hp') & Hsl' & _ & Hhl').
  rewrite Hst in Hd', Hp'. fold body in Hd', Hp'.
  destruct (finalize_encrypt nb' nb'' (length body)) as (Hp'' & Hlen & Hdrop);
    [congruence|done|lia|done|].
  assert (length (cu_data (nb_cur nb'')) = cu_ptr (nb_cur nb'))%nat as Hl.
  { unfold cu_data. rewrite length_take, Hp'', Hlen. unfold cu_wf in Hw'. lia. }
  split; [lia|].
  assert (cu_ptr (nb_cur nb') = 42 + length body + length u)%nat as Hp3 by lia.
  unfold cu_data. rewrite Hp'', Hp3, <-take_drop_commute, Hdrop, take_drop_commute, <-Hp3.
  fold (cu_data (nb_cur nb')). rewrite Hd', drop_app_ge; rewrite length_cu_data; [|done|lia|done].
  f_equal. lia.
Qed.
End roundtrip.

(** ** Runs *)

(** A stand-in for libgcrypt that satisfies its laws. *)
Definition demo_gcrypt : Gcrypt := {|
  hmac_sha256 k d := Some (le_bytes 32 (le_value (k ++ d)));
  sha1 d := le_bytes 20 (le_value d);
  aes256_encrypt _ _ d := Some (rev d);
  aes256_decrypt _ _ d := Some (rev d);
|}.
#[local] Existing Instance demo_gcrypt.

#[local] Instance demo_gcrypt_laws : GcryptLaws.
Proof.
  split; cbn [hmac_sha256 sha1 aes256_encrypt aes256_decrypt demo_gcrypt].
  - intros k d h E. apply (inj Some) in E as <-. apply length_le_bytes.
  - intros d. apply length_le_bytes.
  - intros k iv d p E. injection E as <-. apply length_rev.
  - intros k iv d p E. injection E as <-. apply length_rev.
  - intros k iv d p E. injection E as <-. by rewrite rev_involutive.
Qed.

Definition demo_identifier (h p : cstr) : lcc_identifier_t :=
  {| host := h; plugin := p; plugin_instance := []; type := $"gauge"; type_instance := [] |}.
Definition demo_vl (h p : cstr) (v : Z) : lcc_value_list_t :=
  {| values := [v]; values_types := [LCC_TYPE_COUNTER]; time := of_Z 1439980823; interval := of_Z 10;
     identifier := demo_identifier h p |}.
Definition demo_nb (size : nat) : lcc_network_buffer_t :=
  {| nb_cur := {| cu_buf := replicate size NUL; cu_ptr := 0; cu_free := size |};
     nb_state := no_value_list; nb_seclevel := NONE; nb_username := None; nb_password := None;
     nb_encr_key := None; nb_encr_header_len := 0; nb_encr_iv := replicate 16 NUL |}.
Definition demo_opts (sl : lcc_security_level_t) : lcc_network_parse_options_t :=
  {| writer := λ _ _, 0; password_lookup := Some (λ _, Some $"pw"); security_level := sl |}.

Lemma demo_vl_ok h p v : name_ok h → name_ok p → in_u64 v → vl_ok (demo_vl h p v).
Proof.
  intros Hh Hp Hv. split; simpl.
  - unfold id_ok; simpl. split_and!; try done; split; simpl; try lia; by repeat constructor.
  - done.
  - lia.
  - repeat constructor.
  - apply Forall_cons_2; [exact Hv|apply Forall_nil_2].
  - by vm_compute; eexists.
  - by vm_compute; eexists.
Qed.

(** The buffer after an operation that returns [(0, nb)]. *)
Definition after (m : M (Z * lcc_network_buffer_t)) : lcc_network_buffer_t :=
  match m [] with Some ((_, nb), _) => nb | None => demo_nb 0 end.

Definition demo_u : cstr := $"user".
Definition demo_p : cstr := $"pw".
Definition demo_vls : list lcc_value_list_t :=
  [demo_vl $"h1" $"cpu" 42; demo_vl $"h1" $"cpu" 43; demo_vl $"h1" $"df" (2 ^ 64 - 1)].
Fixpoint demo_add (nb : lcc_network_buffer_t) (vls : list lcc_value_list_t) : lcc_network_buffer_t :=
  match vls with [] => nb | vl :: vls => demo_add (after (lcc_network_buffer_add_value nb vl)) vls end.

Lemma demo_vls_ok : Forall vl_ok demo_vls.
Proof.
  repeat (apply Forall_cons_2 || apply Forall_nil_2); apply demo_vl_ok;
    (split; [simpl; lia|by repeat constructor]) || by split.
Qed.

Lemma network_roundtrip_witness :
  let nb' := demo_add (demo_nb 200) demo_vls in
  ∃ packet, lcc_network_buffer_finalize nb' ⇓ (0, nb') ∧
    lcc_network_buffer_get nb' 200 ⇓ (length packet, packet) ∧
    lcc_network_parse (demo_opts NONE) 0 packet ⇓ Some (0, map received demo_vls).
Proof.
  intros nb'. apply (network_roundtrip (demo_opts NONE) (demo_nb 200) demo_vls nb' 200).
  - by split.
  - apply demo_vls_ok.
  - by repeat split.
  - do 3 (eapply adds_cons; [vm_compute; reflexivity|]). apply adds_nil.
  - apply Nat.leb_le. by vm_compute.
Defined.

Definition demo_signed : lcc_network_buffer_t :=
  after (lcc_network_buffer_set_security_level true (demo_nb 200) SIGN demo_u demo_p (replicate 16 NUL)).
Definition demo_signed' : lcc_network_buffer_t := demo_add demo_signed demo_vls.
Definition demo_signed'' : lcc_network_buffer_t := after (lcc_network_buffer_finalize demo_signed').

Lemma network_roundtrip_signed_witness :
  ∃ packet, lcc_network_buffer_get demo_signed'' 200 ⇓ (length packet, packet) ∧
    lcc_network_parse (demo_opts SIGN) 0 packet ⇓ Some (0, map received demo_vls).
Proof.
  apply (network_roundtrip_signed (demo_opts SIGN) (demo_nb 200) (replicate 16 NUL) demo_u demo_p
    (λ _, Some $"pw") demo_signed demo_vls demo_signed' demo_signed'' 200).
  - by split.
  - done.
  - done.
  - by repeat constructor.
  - done.
  - apply Nat.leb_le. by vm_compute.
  - by vm_compute.
  - apply demo_vls_ok.
  - unfold demo_signed'. do 3 (eapply adds_cons; [vm_compute; reflexivity|]). apply adds_nil.
  - by vm_compute.
  - apply Nat.leb_le. by vm_compute.
Defined.

Definition demo_encr : lcc_network_buffer_t :=
  after (lcc_network_buffer_set_security_level true (demo_nb 200) ENCRYPT demo_u demo_p (replicate 16 NUL)).
Definition demo_encr' : lcc_network_buffer_t := demo_add demo_encr demo_vls.
Definition demo_encr'' : lcc_network_buffer_t := after (lcc_network_buffer_finalize demo_encr').

Lemma network_encryption_clear_witness :
  let body := encode_all no_value_list demo_vls in
  drop (42 + length body) (cu_data (nb_cur demo_encr'')) = drop (length body - length demo_u) body.
Proof.
  apply (network_encryption_clear (demo_nb 200) (replicate 16 NUL) demo_u demo_p
    demo_encr demo_vls demo_encr' demo_encr'').
  - done.
  - apply Nat.leb_le. by vm_compute.
  - by vm_compute.
  - apply demo_vls_ok.
  - unfold demo_encr'. do 3 (eapply adds_cons; [vm_compute; reflexivity|]). apply adds_nil.
  - by vm_compute.
  - apply Nat.leb_le. by vm_compute.
Defined.

Lemma network_parse_authentic_witness :
  wp (network_parse (demo_opts SIGN) (cu_data (nb_cur demo_signed'')) NONE []) (λ r, ∃ status written,
    r = Some (status, written) ∧ Forall (legitimate (demo_opts SIGN) (cu_data (nb_cur demo_signed''))) written).
Proof. apply network_parse_authentic. Defined.

(** ** Two faults of the writer *)

(** A value list that is too long leaves the buffer's state changed although
    nothing was added: the next value list is accepted without the host that
    it shares with the one that failed, and arrives without it. *)
Lemma network_stale_state :
  let long := replicate 60 "x"%char in
  let nb1 := after (lcc_network_buffer_add_value (demo_nb 128) (demo_vl long long 1)) in
  let vl := demo_vl long [] 2 in
  lcc_network_buffer_add_value (demo_nb 128) (demo_vl long long 1) ⇓ (-1, nb1) ∧
  cu_data (nb_cur nb1) = [] ∧
  ∃ nb2 got, lcc_network_buffer_add_value nb1 vl ⇓ (0, nb2) ∧
    lcc_network_parse (demo_opts NONE) 0 (cu_data (nb_cur nb2)) ⇓ Some (0, [got]) ∧
    host (identifier got) = [] ∧ host (identifier vl) = long.
Proof.
  intros long nb1 vl. split_and!; [by vm_compute..|].
  eexists _, _. split_and!; [vm_compute; reflexivity..|]. done.
Qed.

(** A user name that does not fit is copied past the end of the buffer when
    the packet is to be signed. *)
Lemma sign_username_overflow nb u p iv :
  (length (cu_buf (nb_cur nb)) < 36 + length u)%nat → (36 ≤ length (cu_buf (nb_cur nb)))%nat →
  lcc_network_buffer_set_security_level true nb SIGN u p iv [] = None.
Proof.
  intros Hlt Hge. unfold lcc_network_buffer_set_security_level. cbn [negb].
  rewrite !(yields_bind_eq _ _ _ yields_alloc). cbn [negb andb].
  unfold lcc_network_buffer_initialize. cbn [with_state with_cur nb_seclevel nb_username mopt nb_cur cu_buf].
  rewrite bind_ret. set (size := length _) in *. unfold PART_SIGNATURE_SHA256_SIZE.
  set (chunks := [_; _]). assert (length (concat chunks) = 4%nat) as Hl.
  { unfold chunks. cbn [concat]. by rewrite !length_app, !length_put16. }
  rewrite memcpys_store, store_at, bind_ret by (rewrite Hl, length_replicate; lia).
  assert (store (blit (replicate size NUL) 0 (concat chunks)) 36 u = crash) as ->; [|done].
  unfold store. rewrite length_blit, length_replicate by (rewrite Hl, length_replicate; lia).
  by rewrite (proj2 (Nat.leb_gt _ _)) by lia.
Qed.
