(* ===== verification/Values.v ===== *)
(** * Values and identifiers (src/utils/common/common.c)

    The old [value_list_t] interface, which the text protocol still uses:
    identifiers of the form host/plugin-instance/type-instance, values as
    text, conversion between counters and rates, and the translation of a
    value list into a metric family.  [strtod] is a parameter, and so are the
    table of data sets and the clock. *)

From Stdlib Require Import ZArith Lia Ascii String.
From stdpp Require Import base numbers list option strings.
From S2P Require Import Prelude MapSpec Double StrBuf CommonStr Time LabelSet Metric.
From S2P Require MetaData Cache.

(** ** Data *)

Definition DATA_MAX_NAME_LEN : nat := 128.

Definition DS_TYPE_COUNTER : Z := 0.
Definition DS_TYPE_GAUGE : Z := 1.
Definition DS_TYPE_DERIVE : Z := 2.

(** A [char] array of [DATA_MAX_NAME_LEN] bytes is the string it holds. *)
Record value_list_t := mk_vl {
  vl_values : list value_t;
  vl_time : Z;
  vl_interval : Z;
  vl_host : cstr;
  vl_plugin : cstr;
  vl_plugin_instance : cstr;
  vl_type : cstr;
  vl_type_instance : cstr;
  vl_meta : option MetaData.meta_data_t;
}.
Definition VALUE_LIST_INIT : value_list_t := mk_vl [] 0 0 [] [] [] [] [] None.

Record data_source_t := { ds_name : cstr; ds_type : Z; ds_min : double; ds_max : double }.
Record data_set_t := { set_type : cstr; set_ds : list data_source_t }.

Definition set_values (vs : list value_t) (vl : value_list_t) : value_list_t :=
  mk_vl vs (vl_time vl) (vl_interval vl) (vl_host vl) (vl_plugin vl) (vl_plugin_instance vl)
    (vl_type vl) (vl_type_instance vl) (vl_meta vl).
Definition set_vl_time (t : Z) (vl : value_list_t) : value_list_t :=
  mk_vl (vl_values vl) t (vl_interval vl) (vl_host vl) (vl_plugin vl) (vl_plugin_instance vl)
    (vl_type vl) (vl_type_instance vl) (vl_meta vl).
Definition set_vl_interval (t : Z) (vl : value_list_t) : value_list_t :=
  mk_vl (vl_values vl) (vl_time vl) t (vl_host vl) (vl_plugin vl) (vl_plugin_instance vl)
    (vl_type vl) (vl_type_instance vl) (vl_meta vl).
Definition set_vl_host (h : cstr) (vl : value_list_t) : value_list_t :=
  mk_vl (vl_values vl) (vl_time vl) (vl_interval vl) h (vl_plugin vl) (vl_plugin_instance vl)
    (vl_type vl) (vl_type_instance vl) (vl_meta vl).
Definition set_vl_meta (md : option MetaData.meta_data_t) (vl : value_list_t) : value_list_t :=
  mk_vl (vl_values vl) (vl_time vl) (vl_interval vl) (vl_host vl) (vl_plugin vl) (vl_plugin_instance vl)
    (vl_type vl) (vl_type_instance vl) md.
Definition set_names (h p pi t ti : cstr) (vl : value_list_t) : value_list_t :=
  mk_vl (vl_values vl) (vl_time vl) (vl_interval vl) h p pi t ti (vl_meta vl).

(** ** Identifiers *)

Definition instance_pieces (i : option cstr) : list cstr :=
  match i with
  | Some (c :: s) => [$"-"; c :: s]
  | _ => []
  end.

(** The [APPEND]s of [format_name]; [off] is [buffer - ret]. *)
Fixpoint append_pieces (ret_buf : list ascii) (off : nat) (pieces : list cstr) : M (Z * list ascii) :=
  match pieces with
  | [] =>
      let* _ := massert (off <? length ret_buf)%nat in
      let* b := store ret_buf off [NUL] in ret (0, b)
  | s :: pieces =>
      if (length ret_buf - off <=? length s)%nat then ret (ENOBUFS, ret_buf)
      else let* b := store ret_buf off s in append_pieces b (off + length s) pieces
  end.
Definition format_name (ret_buf : list ascii) (hostname plugin : cstr) (plugin_instance : option cstr)
    (type : cstr) (type_instance : option cstr) : M (Z * list ascii) :=
  append_pieces ret_buf 0
    ([hostname; $"/"; plugin] ++ instance_pieces plugin_instance ++
     [$"/"; type] ++ instance_pieces type_instance).

(** The fields that [parse_identifier] cuts at slashes, at most [n]. *)
Fixpoint split_fields (n : nat) (s : cstr) : list cstr :=
  match n with
  | O => []
  | S n =>
      let k := strcspn s $"/" in
      if (k <? length s)%nat then take k s :: split_fields n (drop (S k) s) else [s]
  end.
(** [inl status], or the host ([None]: [default_host] itself), the plugin, the
    type and the data source. *)
Definition parse_identifier (str : cstr) (default_host : option cstr)
    : Z + (option cstr * cstr * cstr * option cstr) :=
  match split_fields 5 str with
  | [h; p; t; d] => inr (Some h, p, t, Some d)
  | [h; p; t] => inr (Some h, p, t, None)
  | [p; t] =>
      match default_host with
      | Some (_ :: _) => inr (None, p, t, None)
      | _ => inl EINVAL
      end
  | _ => inl EINVAL
  end.

(** [sstrncpy] into an array of [n] bytes, and the cut at the first dash. *)
Definition fit (n : nat) (s : cstr) : cstr := take (n - 1) s.
Definition split_dash (s : cstr) : cstr * option cstr :=
  let k := strcspn s $"-" in
  if (k <? length s)%nat then (take k s, Some (drop (S k) s)) else (s, None).

(** [want_ds]: [ret_data_source] is not NULL.  Status, value list and the
    data source that was stored, if any. *)
Definition parse_identifier_vl (str : cstr) (vl : value_list_t) (want_ds : bool)
    : M (Z * value_list_t * option cstr) :=
  let str_copy := fit (6 * DATA_MAX_NAME_LEN) str in
  let default_host := if bool_decide (vl_host vl = []) then None else Some (vl_host vl) in
  match parse_identifier str_copy default_host with
  | inl status => ret (status, vl, None)
  | inr (host, plugin, type, data_source) =>
      if bool_decide (is_Some data_source) && negb want_ds then ret (EINVAL, vl, None)
      else
        let* stored :=
          match data_source with
          | None => ret None
          | Some d => let* ok := alloc in ret (if ok then Some d else None)
          end in
        let '(plugin, plugin_instance) := split_dash plugin in
        let '(type, type_instance) := split_dash type in
        let cp := fit DATA_MAX_NAME_LEN in
        ret (0, set_names (match host with Some h => cp h | None => vl_host vl end)
                  (cp plugin) (match plugin_instance with Some s => cp s | None => vl_plugin_instance vl end)
                  (cp type) (match type_instance with Some s => cp s | None => vl_type_instance vl end) vl,
             stored)
  end.

(** ** Rates *)

Record value_to_rate_state_t := { vr_last_value : value_t; vr_last_time : Z }.
Record rate_to_value_state_t := { rv_last_value : value_t; rv_last_time : Z; rv_residual : double }.
Definition vr_zero : value_to_rate_state_t := {| vr_last_value := v_counter 0; vr_last_time := 0 |}.
Definition rv_zero : rate_to_value_state_t :=
  {| rv_last_value := v_counter 0; rv_last_time := 0; rv_residual := fzero |}.

(** A union is read through the member it was written with. *)
Definition as_derive (v : value_t) : option Z := match v with v_derive d => Some d | _ => None end.

(** Signed arithmetic must not overflow. *)
Definition derive_op (z : Z) : M Z :=
  if (- 2 ^ 63 <=? z) && (z <? 2 ^ 63) then ret z else crash.

Definition value_to_rate (value : value_t) (ty t : Z) (state : value_to_rate_state_t)
    : M (Z * option double * value_to_rate_state_t) :=
  if t <=? vr_last_time state then ret (EINVAL, None, vr_zero)
  else
    let interval := Cache.CDTIME_T_TO_DOUBLE (t - vr_last_time state) in
    if vr_last_time state =? 0
    then ret (EAGAIN, None, {| vr_last_value := value; vr_last_time := t |})
    else
      let next := {| vr_last_value := value; vr_last_time := t |} in
      if ty =? DS_TYPE_DERIVE then
        let* new := mopt (as_derive value) in
        let* old := mopt (as_derive (vr_last_value state)) in
        let* diff := derive_op (new - old) in
        ret (0, Some (fdiv (of_Z diff) interval), next)
      else if ty =? DS_TYPE_GAUGE then
        let* g := mopt (Cache.as_gauge value) in ret (0, Some g, next)
      else if ty =? DS_TYPE_COUNTER then
        let* old := mopt (Cache.as_counter (vr_last_value state)) in
        let* new := mopt (Cache.as_counter value) in
        ret (0, Some (fdiv (of_Z (Cache.counter_diff old new)) interval), next)
      else ret (EINVAL, None, state).

Definition rate_to_value (rate : double) (state : rate_to_value_state_t) (ty t : Z)
    : M (Z * option value_t * rate_to_value_state_t) :=
  if ty =? DS_TYPE_GAUGE then
    let v := v_gauge rate in
    ret (0, Some v, {| rv_last_value := v; rv_last_time := t; rv_residual := rv_residual state |})
  else if flt rate fzero && (ty =? DS_TYPE_COUNTER) then ret (EINVAL, None, rv_zero)
  else if t <=? rv_last_time state then ret (EINVAL, None, rv_zero)
  else
    let delta_t := t - rv_last_time state in
    let delta_gauge := fadd (fmul rate (Cache.CDTIME_T_TO_DOUBLE delta_t)) (rv_residual state) in
    if rv_last_time state =? 0 then
      if ty =? DS_TYPE_DERIVE then
        let* d := mopt (i64_of_trunc rate) in
        ret (EAGAIN, None, {| rv_last_value := v_derive d; rv_last_time := t; rv_residual := fsub rate (of_Z d) |})
      else if ty =? DS_TYPE_COUNTER then
        let* c := mopt (u64_of_trunc rate) in
        ret (EAGAIN, None, {| rv_last_value := v_counter c; rv_last_time := t; rv_residual := fsub rate (of_Z c) |})
      else crash
    else if ty =? DS_TYPE_DERIVE then
      let* delta := mopt (i64_of_trunc delta_gauge) in
      let* old := mopt (as_derive (rv_last_value state)) in
      let* d := derive_op (old + delta) in
      ret (0, Some (v_derive d),
           {| rv_last_value := v_derive d; rv_last_time := t; rv_residual := fsub delta_gauge (of_Z delta) |})
    else if ty =? DS_TYPE_COUNTER then
      let* delta := mopt (u64_of_trunc delta_gauge) in
      let* old := mopt (Cache.as_counter (rv_last_value state)) in
      let c := u64 (old + delta) in
      ret (0, Some (v_counter c),
           {| rv_last_value := v_counter c; rv_last_time := t; rv_residual := fsub delta_gauge (of_Z delta) |})
    else crash.

Definition DOUBLE_TO_CDTIME_T (d : double) : option Z := u64_of_trunc (fmul d (of_Z 1073741824)).

(** ** Values as text *)

(** [strtod]: the number, how many characters it took, and whether [errno]
    was set. *)
Record strtod_result := { sd_value : double; sd_consumed : nat; sd_errno : bool }.
Class Strtod : Type := strtod : cstr → strtod_result.

(** The loop that cuts white space off the end. *)
Definition strip_space (s : cstr) : cstr := rev (drop (span_len isspace (rev s)) (rev s)).

Section text.
Context `{Strtod}.

(** The status and what was stored in [ret_value], if anything. *)
Definition parse_value (value_orig : option cstr) (ty : Z) : M (Z * option value_t) :=
  match value_orig with
  | None => ret (EINVAL, None)
  | Some value_orig =>
      let* ok := alloc in
      if negb ok then ret (ENOMEM, None)
      else
        let value := strip_space value_orig in
        let parsed :=
          if ty =? DS_TYPE_COUNTER then
            let r := strtoull value in Some (v_counter (st_value r), st_consumed r)
          else if ty =? DS_TYPE_GAUGE then
            let r := strtod value in Some (v_gauge (sd_value r), sd_consumed r)
          else if ty =? DS_TYPE_DERIVE then
            let r := strtoll value in Some (v_derive (st_value r), st_consumed r)
          else None in
        match parsed with
        | None => ret (-1, None)
        | Some (v, n) => ret (if (n =? 0)%nat then -1 else 0, Some v)
        end
  end.

(** The loop of [parse_values]; [now] is the answer of [cdtime].  Every token
    takes a character, so the length of the text is enough fuel. *)
Fixpoint parse_values_loop (fuel : nat) (now : Z) (s : cstr) (i : nat) (vl : value_list_t) (ds : data_set_t)
    : M (Z * value_list_t) :=
  match fuel with
  | O => crash
  | S fuel =>
      match strtok $":" s with
      | None => ret (if (i =? 0)%nat then -1 else 0, vl)
      | Some (ptr, s) =>
          if (length (vl_values vl) <=? i)%nat then ret (-1, vl)
          else if vl_time vl =? 0 then
            if strcmp $"N" ptr =? 0 then parse_values_loop fuel now s i (set_vl_time now vl) ds
            else
              let r := strtod ptr in
              if sd_errno r || (sd_consumed r =? 0)%nat || negb (sd_consumed r =? length ptr)%nat
              then ret (-1, vl)
              else
                let* t := mopt (DOUBLE_TO_CDTIME_T (sd_value r)) in
                parse_values_loop fuel now s i (set_vl_time t vl) ds
          else
            let* src := mopt (set_ds ds !! i) in
            if (strcmp $"U" ptr =? 0) && (ds_type src =? DS_TYPE_GAUGE)
            then parse_values_loop fuel now s (S i) (set_values (<[i := v_gauge NAN]> (vl_values vl)) vl) ds
            else
              let* '(status, v) := parse_value (Some ptr) (ds_type src) in
              let vl := match v with Some v => set_values (<[i := v]> (vl_values vl)) vl | None => vl end in
              if negb (status =? 0) then ret (-1, vl)
              else parse_values_loop fuel now s (S i) vl ds
      end
  end.
Definition parse_values (now : Z) (buffer : cstr) (vl : value_list_t) (ds : data_set_t)
    : M (Z * value_list_t) :=
  parse_values_loop (S (length buffer)) now buffer 0 (set_vl_time 0 vl) ds.
End text.

(** ** Value lists as metric families *)

Section families.
Context `{Sysconf}.

(** [status = status || strbuf_print (...)] over the pieces of the name. *)
Definition metric_family_name (buf : strbuf_t) (vl : value_list_t) (dsrc : data_source_t) : M (Z * strbuf_t) :=
  let pr s m := sor m (λ b, strbuf_print b s) in
  let m := strbuf_print buf $"collectd" in
  let m := if strcmp (vl_plugin vl) (vl_type vl) =? 0 then m else pr (vl_plugin vl) (pr $"_" m) in
  let m := pr (vl_type vl) (pr $"_" m) in
  let m := if strcmp $"value" (ds_name dsrc) =? 0 then m else pr (ds_name dsrc) (pr $"_" m) in
  if (ds_type dsrc =? DS_TYPE_COUNTER) || (ds_type dsrc =? DS_TYPE_DERIVE) then pr $"_total" m else m.

(** [status = status || metric_label_set (...)] *)
Definition label_or (m : M (Z * metric_t)) (nm v : cstr) : M (Z * metric_t) :=
  let* '(status, m) := m in
  if negb (status =? 0) then ret (1, m)
  else let* '(status, m) := metric_label_set m nm (Some v) in ret (if negb (status =? 0) then 1 else 0, m).

(** [inl errno], or the family, for value lists and data sets that are not
    NULL. *)
Definition plugin_value_list_to_metric_family (hostname_g : cstr) (vl : value_list_t) (ds : data_set_t)
    (index : nat) : M (Z + metric_family_t) :=
  let* ok := alloc in
  if negb ok then ret (inl ENOMEM)
  else
    let* dsrc := mopt (set_ds ds !! index) in
    let* '(status, name) := metric_family_name STRBUF_CREATE vl dsrc in
    if negb (status =? 0) then ret (inl status)
    else
      let ty := if ds_type dsrc =? DS_TYPE_GAUGE then METRIC_TYPE_GAUGE else METRIC_TYPE_COUNTER in
      let fam := mk_family (c_str <$> ptr name) None ty [] in
      let* v := mopt (vl_values vl !! index) in
      let m := mk_metric [] v (vl_time vl) (vl_interval vl) None in
      let m := metric_label_set m $"instance"
                 (Some (if bool_decide (vl_host vl = []) then hostname_g else vl_host vl)) in
      let m := if bool_decide (vl_plugin_instance vl = []) then m
               else label_or m (vl_plugin vl) (vl_plugin_instance vl) in
      let m := if bool_decide (vl_type_instance vl = []) then m
               else label_or m (if bool_decide (vl_plugin_instance vl = []) then vl_plugin vl else $"type")
                      (vl_type_instance vl) in
      let* '(status, m) := m in
      let* '(status, fam) :=
        if negb (status =? 0) then ret (1, fam)
        else let* '(status, fam) := metric_family_metric_append fam m in
             ret (if negb (status =? 0) then 1 else 0, fam) in
      let* _ := metric_reset m in
      if negb (status =? 0) then let* _ := metric_family_free fam in ret (inl status)
      else ret (inr fam).

(** The last data source of that name, as in the search loop. *)
Fixpoint find_source (nm : cstr) (i : nat) (l : list data_source_t) (found : option nat) : option nat :=
  match l with
  | [] => found
  | d :: l => find_source nm (S i) l (if strcasecmp nm (ds_name d) =? 0 then Some i else found)
  end.

(** [plugin_get_ds] is a lookup in the table of data sets.  The answer is
    [errno], or the family whose only metric is the result. *)
Definition parse_legacy_identifier (hostname_g : cstr) (plugin_get_ds : cstr → option data_set_t) (s : cstr)
    : M (Z + metric_family_t) :=
  let* '(status, vl, data_source) := parse_identifier_vl s VALUE_LIST_INIT true in
  if negb (status =? 0) then ret (inl status)
  else
    match plugin_get_ds (vl_type vl) with
    | None => ret (inl ENOENT)
    | Some ds =>
        if negb (length (set_ds ds) =? 1)%nat && bool_decide (data_source = None) then ret (inl EINVAL)
        else
          let vl := set_values (replicate (length (set_ds ds)) (v_counter 0)) vl in
          match data_source with
          | None => plugin_value_list_to_metric_family hostname_g vl ds 0
          | Some d =>
              match find_source d 0 (set_ds ds) None with
              | None => ret (inl EINVAL)
              | Some i => plugin_value_list_to_metric_family hostname_g vl ds i
              end
          end
    end.
End families.

(** ** Identifiers survive printing *)

Definition lacks (c : ascii) (s : cstr) : Prop := Forall (λ x, x ≠ c) s.
Definition name_text (h p pi t ti : cstr) : cstr :=
  h ++ $"/" ++ p ++ (match pi with [] => [] | _ => $"-" ++ pi end) ++
  $"/" ++ t ++ (match ti with [] => [] | _ => $"-" ++ ti end).

Lemma concat_pieces h p pi t ti :
  concat ([h; $"/"; p] ++ instance_pieces (Some pi) ++ [$"/"; t] ++ instance_pieces (Some ti)) =
  name_text h p pi t ti.
Proof.
  unfold name_text. destruct pi, ti; simpl; rewrite ?app_nil_r; try done.
  all: do 2 f_equal; by rewrite <-?app_assoc.
Qed.

Lemma append_pieces_ok pieces : ∀ a b,
  if decide (length (concat pieces) < length b)%nat
  then append_pieces (a ++ b) (length a) pieces =
       ret (0, a ++ concat pieces ++ NUL :: drop (S (length (concat pieces))) b)
  else pieces ≠ [] → ∃ b', append_pieces (a ++ b) (length a) pieces = ret (ENOBUFS, a ++ b') ∧ length b' = length b.
Proof.
  induction pieces as [|s pieces IH]; intros a b; cbn [concat append_pieces].
  - case_decide as Hl; [|done]. cbn [length] in Hl. rewrite length_app.
    rewrite (proj2 (Nat.ltb_lt _ _)) by lia. cbn [massert]. rewrite bind_ret.
    rewrite store_app by (cbn [length]; lia). done.
  - rewrite (length_app a b), (length_app s (concat pieces)). replace (length a + length b - length a)%nat with (length b) by lia.
    destruct (Nat.leb_spec (length b) (length s)) as [Hs|Hs].
    + rewrite decide_False by lia. intros _. by exists b.
    + rewrite store_app by lia. rewrite bind_ret.
      specialize (IH (a ++ s) (drop (length s) b)). rewrite !length_app, length_drop, <-!app_assoc in IH.
      case_decide as H1; case_decide as H2; try lia.
      * rewrite IH, <-!app_assoc, drop_drop. repeat f_equal. lia.
      * intros _. destruct pieces as [|q pieces]; [cbn in H1; lia|].
        destruct (IH ltac:(done)) as (b' & -> & Hb'). exists (s ++ b').
        rewrite <-app_assoc, length_app. split; [done|lia].
Qed.

Lemma cspn_app c s rest : lacks c s → strcspn (s ++ c :: rest) [c] = length s.
Proof.
  intros Hs. apply span_len_app_stop.
  - eapply list.Forall_impl; [exact Hs|]. intros x Hx. unfold chr_mem.
    rewrite bool_decide_eq_false_2; [done|]. rewrite elem_of_cons, elem_of_nil. naive_solver.
  - unfold chr_mem. rewrite bool_decide_eq_true_2; [done|]. by left.
Qed.
Lemma cspn_all c s : lacks c s → strcspn s [c] = length s.
Proof.
  intros Hs. apply span_len_all. eapply list.Forall_impl; [exact Hs|]. intros x Hx. unfold chr_mem.
  rewrite bool_decide_eq_false_2; [done|]. rewrite elem_of_cons, elem_of_nil. naive_solver.
Qed.

Lemma split_fields_cons n s rest :
  lacks "/" s → split_fields (S n) (s ++ "/"%char :: rest) = s :: split_fields n rest.
Proof.
  intros Hs. cbn [split_fields]. change $"/" with ["/"%char]. rewrite cspn_app by done.
  rewrite length_app. cbn [length]. rewrite (proj2 (Nat.ltb_lt _ _)) by lia.
  rewrite take_app_length. by rewrite drop_app_ge, Nat.sub_succ_l, Nat.sub_diag by lia.
Qed.
Lemma split_fields_last n s : lacks "/" s → split_fields (S n) s = [s].
Proof.
  intros Hs. cbn [split_fields]. change $"/" with ["/"%char]. rewrite cspn_all by done.
  by rewrite Nat.ltb_irrefl.
Qed.

Definition with_instance (s i : cstr) : cstr := s ++ match i with [] => [] | _ => $"-" ++ i end.
Lemma split_dash_instance s i : lacks "-" s →
  split_dash (with_instance s i) = (s, match i with [] => None | _ => Some i end).
Proof.
  intros Hs. unfold split_dash, with_instance. change $"-" with ["-"%char]. destruct i as [|c i].
  - rewrite app_nil_r, cspn_all by done. by rewrite Nat.ltb_irrefl.
  - cbn [app]. rewrite cspn_app by done. rewrite length_app. cbn [length].
    rewrite (proj2 (Nat.ltb_lt _ _)) by lia.
    rewrite take_app_length. by rewrite drop_app_ge, Nat.sub_succ_l, Nat.sub_diag by lia.
Qed.

(** What the fields of an identifier may hold. *)
Record names_ok (h p pi t ti : cstr) : Prop := {
  no_slash : Forall (lacks "/") [h; p; pi; t; ti];
  no_dash : lacks "-" p ∧ lacks "-" t;
  names_nul : Forall no_nul [h; p; pi; t; ti];
  names_fit : Forall (λ s, length s < DATA_MAX_NAME_LEN)%nat [h; p; pi; t; ti];
}.

Lemma name_text_fields h p pi t ti :
  name_text h p pi t ti = h ++ "/"%char :: with_instance p pi ++ "/"%char :: with_instance t ti.
Proof. unfold name_text, with_instance. by rewrite <-!app_assoc. Qed.

Lemma lacks_instance c s i : c ≠ "-"%char → lacks c s → lacks c i → lacks c (with_instance s i).
Proof.
  intros Hc Hs Hi. apply list.Forall_app; split; [done|]. destruct i; [done|].
  by apply Forall_cons_2; [intros [= <-]|].
Qed.

Lemma length_with_instance s i : (length (with_instance s i) ≤ length s + 1 + length i)%nat.
Proof. unfold with_instance. rewrite length_app. destruct i; simpl; lia. Qed.

Lemma fit_id n s : (length s < n)%nat → fit n s = s.
Proof. intros H. apply take_ge. lia. Qed.

(** Undo the bundling of [names_ok]. *)
Ltac names H :=
  destruct H as [?Hsl [?Hd1 ?Hd2] ?Hnn ?Hft]; rewrite !Forall_cons in *; destruct_and!.

Lemma parse_formatted h p pi t ti vl want : names_ok h p pi t ti →
  parse_identifier_vl (name_text h p pi t ti) vl want =
  ret (0, set_names h p (match pi with [] => vl_plugin_instance vl | _ => pi end)
            t (match ti with [] => vl_type_instance vl | _ => ti end) vl, None).
Proof.
  intros Hok. names Hok. unfold parse_identifier_vl.
  rewrite fit_id.
  2: { rewrite name_text_fields, length_app. cbn [length]. rewrite length_app. cbn [length].
       pose proof (length_with_instance p pi). pose proof (length_with_instance t ti).
       unfold DATA_MAX_NAME_LEN in *. lia. }
  unfold parse_identifier. rewrite name_text_fields.
  rewrite split_fields_cons by done.
  rewrite split_fields_cons by (by apply lacks_instance).
  rewrite split_fields_last by (by apply lacks_instance).
  cbn [andb negb]. rewrite bool_decide_eq_false_2 by (by intros []). cbn [andb]. rewrite bind_ret.
  rewrite !split_dash_instance by done. cbv iota. do 2 f_equal.
  rewrite !(fit_id DATA_MAX_NAME_LEN) by done.
  destruct pi, ti; rewrite ?(fit_id DATA_MAX_NAME_LEN) by done; done.
Qed.

Lemma no_nul_name_text h p pi t ti : names_ok h p pi t ti → no_nul (name_text h p pi t ti).
Proof.
  intros Hok. names Hok. rewrite name_text_fields.
  assert (∀ s i, no_nul s → no_nul i → no_nul (with_instance s i)) as Hw by (intros; by apply lacks_instance).
  apply list.Forall_app; split; [done|]. apply Forall_cons_2; [done|].
  apply list.Forall_app; split; [by apply Hw|]. apply Forall_cons_2; [done|]. by apply Hw.
Qed.

(** Identifiers survive printing: [format_name] never writes outside its
    buffer; it answers ENOBUFS exactly when the identifier and its NUL do not
    fit; otherwise [parse_identifier_vl] reads the printed text back into the
    same names, except that an empty instance leaves the instance the value
    list had before. *)
Theorem identifier_roundtrip buf h p pi t ti : names_ok h p pi t ti →
  if decide (length (name_text h p pi t ti) < length buf)%nat then
    ∃ b, format_name buf h p (Some pi) t (Some ti) = ret (0, b) ∧ length b = length buf ∧
      ∀ vl want, parse_identifier_vl (c_str b) vl want =
        ret (0, set_names h p (match pi with [] => vl_plugin_instance vl | _ => pi end)
                  t (match ti with [] => vl_type_instance vl | _ => ti end) vl, None)
  else ∃ b, format_name buf h p (Some pi) t (Some ti) = ret (ENOBUFS, b) ∧ length b = length buf.
Proof.
  intros Hok. pose proof (append_pieces_ok
    ([h; $"/"; p] ++ instance_pieces (Some pi) ++ [$"/"; t] ++ instance_pieces (Some ti)) [] buf) as H.
  rewrite concat_pieces in H. unfold format_name. cbn [length app] in H |- *. case_decide as Hl.
  - eexists. split; [exact H|]. split.
    + rewrite length_app. cbn [length]. rewrite length_drop. lia.
    + intros vl want. rewrite c_str_app by (by apply no_nul_name_text). by apply parse_formatted.
  - destruct (H ltac:(done)) as (b & -> & Hb). by exists b.
Qed.

Lemma identifier_roundtrip_witness :
  if decide (length (name_text $"h" $"cpu" $"0" $"cpu" $"idle") < 32)%nat then
    ∃ b, format_name (replicate 32 NUL) $"h" $"cpu" (Some $"0") $"cpu" (Some $"idle") = ret (0, b) ∧
      length b = length (replicate 32 NUL) ∧
      ∀ vl want, parse_identifier_vl (c_str b) vl want =
        ret (0, set_names $"h" $"cpu" $"0" $"cpu" $"idle" vl, None)
  else False.
Proof.
  rewrite decide_True by (vm_compute; lia).
  apply (identifier_roundtrip (replicate 32 NUL) $"h" $"cpu" $"0" $"cpu" $"idle").
  split; try split; repeat constructor; vm_compute; congruence || lia.
Defined.

(** ** Values survive printing *)

Lemma strtok_first c f rest : f ≠ [] → lacks c f → strtok [c] (f ++ c :: rest) = Some (f, rest).
Proof.
  intros Hne Hf. unfold strtok. assert (strspn (f ++ c :: rest) [c] = 0%nat) as ->.
  { destruct f as [|x f]; [done|]. apply Forall_cons_1 in Hf as [Hx _]. unfold strspn. simpl.
    unfold chr_mem. rewrite bool_decide_eq_false_2; [done|]. rewrite elem_of_cons, elem_of_nil. naive_solver. }
  rewrite drop_0, cspn_app by done. destruct (f ++ c :: rest) eqn:E; [by destruct f|]. rewrite <-E.
  rewrite take_app_length. by rewrite drop_app_ge, Nat.sub_succ_l, Nat.sub_diag by lia.
Qed.
Lemma strtok_last c f : f ≠ [] → lacks c f → strtok [c] f = Some (f, []).
Proof.
  intros Hne Hf. unfold strtok. assert (strspn f [c] = 0%nat) as ->.
  { destruct f as [|x f]; [done|]. apply Forall_cons_1 in Hf as [Hx _]. unfold strspn. simpl.
    unfold chr_mem. rewrite bool_decide_eq_false_2; [done|]. rewrite elem_of_cons, elem_of_nil. naive_solver. }
  rewrite drop_0, cspn_all by done. destruct f; [done|]. by rewrite take_ge, drop_ge by lia.
Qed.

Section values.
Context `{Strtod}.

(** [s] is a text from which the value [v] of a data source of type [ty] is
    read: one that [parse_value] accepts, or the U of an unknown gauge. *)
Definition reads (ty : Z) (s : cstr) (v : value_t) : Prop :=
  s ≠ [] ∧ lacks ":" s ∧
  (s = $"U" ∧ ty = DS_TYPE_GAUGE ∧ v = v_gauge NAN ∨
   s ≠ $"U" ∧ parse_value (Some s) ty ⇓ (0, Some v)).

Lemma strip_digits s d : isspace d = false → strip_space (s ++ [d]) = s ++ [d].
Proof. intros Hd. unfold strip_space. rewrite rev_app_distr. simpl. rewrite Hd. simpl. by rewrite rev_involutive. Qed.

Lemma lacks_digits s : Forall (λ c, isdigit c = true) s → lacks ":" s.
Proof. intros Hs. eapply list.Forall_impl; [exact Hs|]. by intros c Hc ->. Qed.

(** A decimal number with an optional sign ends in a digit. *)
Lemma decimal_last (neg : bool) z : 0 ≤ z →
  let s := (if neg then ["-"%char] else []) ++ decimal z in
  strip_space s = s ∧ lacks ":" s ∧ s ≠ [] ∧ s ≠ $"U".
Proof.
  intros Hz s. destruct (decimal_spec z Hz) as (Hd & _ & (d & t & _ & E & _) & _).
  destruct (scan_decimal neg z Hz) as [_ Hne]. fold s in Hne. split_and!; [| |done|].
  - unfold s. assert (∃ u x, decimal z = u ++ [x]) as (u & x & Ex).
    { rewrite E. destruct (exists_last (l := digit_chr d :: t)) as (u & x & ->); [done|eauto]. }
    rewrite Ex in Hd |- *. apply list.Forall_app in Hd as [_ [Hx _]%Forall_cons_1].
    rewrite app_assoc. apply strip_digits. by apply isdigit_base.
  - apply list.Forall_app. split; [by destruct neg; repeat constructor|by apply lacks_digits].
  - unfold s. rewrite E in *. apply Forall_cons_1 in Hd as [Hd _].
    destruct neg; [done|]. cbn [app]. intros [= Hc _]. by rewrite Hc in Hd.
Qed.

Lemma reads_counter z : in_u64 z → reads DS_TYPE_COUNTER (decimal z) (v_counter z).
Proof.
  intros [Hz Hlt]. destruct (decimal_last false z Hz) as (Hs & Hc & Hne & HU). cbn [app] in *.
  split_and!; [done..|]. right. split; [done|]. unfold parse_value.
  eapply yields_bind; [apply yields_alloc|]. cbn [negb]. rewrite Hs. simpl Z.eqb. cbv iota zeta.
  unfold strtoull. destruct (scan_decimal false z Hz) as [E _]. cbn [app] in E. rewrite E.
  rewrite (proj2 (Z.ltb_lt _ _)) by done. cbn [st_consumed st_value].
  by destruct (decimal z).
Qed.

Lemma reads_derive z : - 2 ^ 63 ≤ z < 2 ^ 63 → reads DS_TYPE_DERIVE (decimal_signed z) (v_derive z).
Proof.
  intros [Hlo Hhi].
  assert (∃ (neg : bool) m, 0 ≤ m ∧ z = (if neg then - m else m) ∧
    decimal_signed z = (if neg then ["-"%char] else []) ++ decimal m) as (neg & m & Hm & Ez & ->).
  { unfold decimal_signed. destruct (Z.ltb_spec z 0); [exists true, (- z)|exists false, z];
      split_and!; [lia|lia|done|lia|lia|done]. }
  destruct (decimal_last neg m Hm) as (Hs & Hc & Hne & HU).
  split_and!; [done..|]. right. split; [done|]. unfold parse_value.
  eapply yields_bind; [apply yields_alloc|]. cbn [negb]. rewrite Hs. simpl Z.eqb. cbv iota zeta.
  unfold strtoll. destruct (scan_decimal neg m Hm) as [-> _]. cbv zeta. rewrite <-Ez.
  rewrite (proj2 (Z.ltb_ge _ _)), (proj2 (Z.leb_gt _ _)) by done. cbn [st_consumed st_value].
  destruct (length _) eqn:El; [by apply nil_length_inv in El|done].
Qed.

(** What [parse_values] leaves in the array of values: the values read, and
    behind them what was there. *)
Lemma insert_prefix {A} (done old : list A) (v : A) : (length done < length old)%nat →
  <[length done := v]> (done ++ drop (length done) old) = (done ++ [v]) ++ drop (length (done ++ [v])) old.
Proof.
  intros Hl. rewrite insert_app_r_alt, Nat.sub_diag by lia. rewrite length_app. cbn [length].
  rewrite <-drop_drop. destruct (drop (length done) old) as [|x l] eqn:E.
  - apply (f_equal length) in E. rewrite length_drop in E. simpl in E. lia.
  - simpl. by rewrite <-app_assoc, drop_0.
Qed.

Lemma values_loop_ok now vl ds old texts : ∀ fuel read vs,
  Forall2 (λ '(src, s) v, reads (ds_type src) s v) (zip (drop (length read) (set_ds ds)) texts) vs →
  Forall (λ s, s ≠ [] ∧ lacks ":" s) texts →
  vl_time vl ≠ 0 → (length read ≤ length old ≤ length (set_ds ds))%nat →
  (length (join $":" texts) < fuel)%nat →
  ∃ vl', let n := (length texts + length read)%nat in
  parse_values_loop fuel now (join $":" texts) (length read) (set_values (read ++ drop (length read) old) vl) ds ⇓
    (if (n =? 0)%nat || (length old <? n)%nat then -1 else 0, vl') ∧
  ((0 < n ≤ length old)%nat → vl' = set_values ((read ++ vs) ++ drop (length (read ++ vs)) old) vl).
Proof.
  induction texts as [|s texts IH]; intros fuel read vs Hr Hs Ht Hlen Hf.
  all: destruct fuel as [|fuel]; [lia|]; cbn [parse_values_loop].
  { rewrite zip_with_nil_r in Hr. apply Forall2_nil_inv_l in Hr as ->. rewrite !app_nil_r.
    eexists. cbn [join length Nat.add]. cbv [strtok strspn span_len drop].
    rewrite (proj2 (Nat.ltb_ge _ _)) by lia. rewrite orb_false_r. by split. }
  cbn [length] in *. apply Forall_cons_1 in Hs as [(Hne & Hc) Hs].
  assert (strtok $":" (join $":" (s :: texts)) = Some (s, join $":" texts)) as ->.
  { destruct texts as [|s' texts]; [by apply strtok_last|]. cbn [join]. by apply strtok_first. }
  cbn [vl_values set_values]. rewrite length_app, length_drop.
  replace (length read + (length old - length read))%nat with (length old) by lia.
  destruct (Nat.leb_spec (length old) (length read)) as [Hfull|Hroom].
  { eexists. cbn [Nat.add Nat.eqb orb]. rewrite (proj2 (Nat.ltb_lt _ _)) by lia. split; [done|lia]. }
  destruct (lookup_lt_is_Some_2 (set_ds ds) (length read)) as [src Hsrc]; [lia|].
  rewrite (drop_S _ _ _ Hsrc) in Hr. cbn [zip zip_with] in Hr.
  apply Forall2_cons_inv_l in Hr as (v & vs' & (_ & _ & Hv) & Hr & ->).
  cbn [vl_time set_values]. rewrite (proj2 (Z.eqb_neq _ _)) by done. rewrite Hsrc. cbn [mopt]. rewrite bind_ret.
  assert (length (join $":" texts) < fuel)%nat as Hf'.
  { destruct texts; cbn [join] in Hf |- *; rewrite ?length_app in Hf; destruct s; simpl in *; try done; lia. }
  rewrite (cons_middle v read vs'), app_assoc. fold (set_values (read ++ drop (length read) old) vl).
  assert (length (read ++ [v]) = S (length read)) as Hl by (rewrite length_app; simpl; lia).
  specialize (IH fuel (read ++ [v]) vs').
  rewrite <-insert_prefix, Hl, <-plus_n_Sm in IH by lia. cbn [Nat.add].
  destruct Hv as [(-> & -> & ->)|(HU & Hp)].
  - cbn [strcmp andb]. rewrite !Z.eqb_refl. cbn [andb]. apply IH; done || lia.
  - destruct (Z.eqb_spec (strcmp $"U" s) 0) as [E%strcmp_eq|_]; [by subst s|]. cbn [andb].
    destruct IH as (vl' & E & Hvl'); [done..|lia|done|].
    exists vl'. split; [|done]. eapply yields_bind; [exact Hp|].
    cbv beta iota zeta. cbn [negb Z.eqb vl_values set_values]. exact E.
Qed.

(** [parse_values] reads a list of values back: after the time (N stands
    for now) as many values as are given are stored in order and the rest keep
    what they held, so that a text with too few values is accepted; a text
    without values or with too many is refused. *)
Theorem parse_values_spec now vl ds texts vs :
  now ≠ 0 → (length (vl_values vl) ≤ length (set_ds ds))%nat →
  Forall (λ s, s ≠ [] ∧ lacks ":" s) texts →
  Forall2 (λ '(src, s) v, reads (ds_type src) s v) (zip (set_ds ds) texts) vs →
  ∃ vl', let n := length texts in
  parse_values now (join $":" ($"N" :: texts)) vl ds ⇓
    (if (n =? 0)%nat || (length (vl_values vl) <? n)%nat then -1 else 0, vl') ∧
  ((0 < n ≤ length (vl_values vl))%nat → vl' = set_values (vs ++ drop n (vl_values vl)) (set_vl_time now vl)).
Proof.
  intros Hnow Hds Hs Hr. unfold parse_values. cbn [parse_values_loop].
  assert (strtok $":" (join $":" ($"N" :: texts)) = Some ($"N", join $":" texts)) as ->.
  { destruct texts as [|s texts]; [done|]. cbn [join]. by apply strtok_first; [|repeat constructor]. }
  cbn [vl_values set_vl_time vl_time]. rewrite Z.eqb_refl. cbn [strcmp]. rewrite Z.eqb_refl.
  destruct (Nat.leb_spec (length (vl_values vl)) 0) as [H0|H0].
  { eexists. split; [|cbv zeta; lia]. destruct (length texts); [done|].
    cbn [Nat.eqb orb]. by rewrite (proj2 (Nat.ltb_lt _ _)) by lia. }
  destruct (values_loop_ok now (set_vl_time now vl) ds (vl_values vl) texts
    (length (join $":" ($"N" :: texts))) [] vs) as (vl' & E & Hvl'); [done..|simpl; lia| |].
  { destruct texts; cbn [join]; rewrite ?length_app; simpl; lia. }
  rewrite Nat.add_0_r in E, Hvl'. exists vl'. split; [exact E|].
  cbv zeta. intros Hn. specialize (Hvl' Hn). cbn [app] in Hvl'.
  apply Forall2_length in Hr. rewrite length_zip_with in Hr. rewrite Hvl'. do 3 f_equal. lia.
Qed.
End values.

(** A stand-in for [strtod] that reads decimal numbers. *)
Definition demo_strtod : Strtod := λ s,
  let n := span_len isdigit s in
  {| sd_value := of_Z (digits_value 10 (take n s)); sd_consumed := n; sd_errno := false |}.

Definition demo_ds : data_set_t :=
  {| set_type := $"if_octets"; set_ds := [{| ds_name := $"rx"; ds_type := DS_TYPE_DERIVE; ds_min := NAN; ds_max := NAN |};
                                          {| ds_name := $"tx"; ds_type := DS_TYPE_COUNTER; ds_min := NAN; ds_max := NAN |}] |}.
Definition demo_vl : value_list_t := set_values [v_derive 0; v_counter 0] VALUE_LIST_INIT.

Lemma parse_values_spec_witness :
  let _ := demo_strtod in
  ∃ vl', parse_values 7 $"N:-5:6" demo_vl demo_ds ⇓ (0, vl') ∧
    ((0 < 2 ≤ 2)%nat → vl' = set_values [v_derive (-5); v_counter 6] (set_vl_time 7 demo_vl)).
Proof.
  intros d. apply (parse_values_spec (H := d) 7 demo_vl demo_ds [$"-5"; $"6"] [v_derive (-5); v_counter 6]).
  - done.
  - simpl; lia.
  - repeat constructor; vm_compute; congruence.
  - constructor; [apply (reads_derive (-5)); lia|].
    constructor; [apply (reads_counter 6); done|constructor].
Defined.

(** A time of zero is not kept: the text that follows it is taken as the
    time. *)
Lemma parse_values_zero_time : let _ := demo_strtod in
  ∃ vl', parse_values 7 $"0:5:6" demo_vl demo_ds ⇓ (0, vl') ∧ vl_time vl' = 5 * 2 ^ 30 ∧
    vl_values vl' = [v_derive 6; v_counter 0].
Proof. eexists. split_and!; vm_compute; reflexivity. Qed.

(** ** Rates *)

(** The cache and [value_to_rate] compute the same rates: an accepted
    update of a counter or a gauge stores in the cache entry the rate that
    [value_to_rate] returns for the same samples, and leaves the two with the
    same last value, while [value_to_rate] asks again for the first sample and
    forgets everything when the time does not advance. *)
Theorem value_to_rate_agrees (ty : metric_type_t) (ds : Z) (m : metric_t) (ce : Cache.cache_entry_t) ce' :
  (ty, ds) ∈ [(METRIC_TYPE_COUNTER, DS_TYPE_COUNTER); (METRIC_TYPE_GAUGE, DS_TYPE_GAUGE)] →
  in_u64 (Cache.last_time ce) → in_u64 (time m) →
  Cache.update_values ty m ce ⇓ (0, ce') →
  let st := {| vr_last_value := tv_value (Cache.values_raw ce); vr_last_time := Cache.last_time ce |} in
  value_to_rate (m_value m) ds (time m) st ⇓
    if decide (time m ≤ Cache.last_time ce) then (EINVAL, None, vr_zero)
    else
      let st' := {| vr_last_value := tv_value (Cache.values_raw ce'); vr_last_time := time m |} in
      if decide (Cache.last_time ce = 0) then (EAGAIN, None, st')
      else (0, Some (Cache.values_gauge ce'), st').
Proof.
  intros Hty Hl Ht Hu st. unfold value_to_rate. cbn [vr_last_time st].
  destruct (Z.leb_spec (time m) (Cache.last_time ce)) as [Hle|Hgt]; [by rewrite decide_True|].
  rewrite decide_False by lia. cbv zeta.
  rewrite !elem_of_cons, elem_of_nil in Hty. destruct Hty as [[= -> ->]|[[= -> ->]|[]]]; simpl in Hu.
  - destruct (Cache.as_counter (tv_value _)) as [old|] eqn:Eo; [|done].
    destruct (Cache.as_counter (m_value m)) as [new|] eqn:En; [|done].
    cbn [mopt] in Hu. unfold yields in Hu. rewrite !bind_ret in Hu. injection Hu as <-. simpl.
    assert (m_value m = v_counter new) as -> by (destruct (m_value m); naive_solver).
    destruct (Z.eqb_spec (Cache.last_time ce) 0) as [E0|E0]; [by rewrite decide_True|].
    rewrite decide_False by done. simpl. rewrite Eo. rewrite u64_small by (unfold in_u64 in *; lia). done.
  - destruct (Cache.as_gauge (m_value m)) as [new|] eqn:En; [|done].
    cbn [mopt] in Hu. unfold yields in Hu. rewrite !bind_ret in Hu. injection Hu as <-. simpl.
    assert (m_value m = v_gauge new) as -> by (destruct (m_value m); naive_solver).
    destruct (Z.eqb_spec (Cache.last_time ce) 0) as [E0|E0]; [by rewrite decide_True|].
    by rewrite decide_False by done.
Qed.

Definition demo_entry (g : double) (v t : Z) : Cache.cache_entry_t :=
  Cache.mk_ce $"m" None g (mk_typed (v_counter v) METRIC_TYPE_COUNTER) t t 0 0 0 None 0 0
    (mk_typed (v_counter v) METRIC_TYPE_COUNTER) t None 0.

Lemma value_to_rate_agrees_witness :
  let m := mk_metric [] (v_counter 8) (3 * 2 ^ 30) 0 None in
  value_to_rate (v_counter 8) DS_TYPE_COUNTER (3 * 2 ^ 30)
    {| vr_last_value := v_counter 5; vr_last_time := 2 ^ 30 |} ⇓
  (0, Some (fdiv (of_Z 3) (of_Z 2)), {| vr_last_value := v_counter 8; vr_last_time := 3 * 2 ^ 30 |}).
Proof.
  intros m. set (g := fdiv (of_Z 3) (of_Z 2)).
  assert (Cache.update_values METRIC_TYPE_COUNTER m (demo_entry fzero 5 (2 ^ 30)) ⇓
    (0, Cache.set_values (demo_entry fzero 5 (2 ^ 30)) g (v_counter 8) None
          (mk_typed (v_counter 5) METRIC_TYPE_COUNTER) (2 ^ 30))) as Hu by (vm_compute; reflexivity).
  apply (value_to_rate_agrees METRIC_TYPE_COUNTER DS_TYPE_COUNTER m (demo_entry fzero 5 (2 ^ 30)) _) in Hu;
    [exact Hu|by left|done|done].
Defined.
