(* ===== verification/Cmds.v ===== *)
(** * Splitting commands (src/utils/cmds/cmds.c, parse_option.c)

    The text protocol cuts a line into fields in place: fields are pointers
    into the line, quotes and backslashes are removed by moving characters to
    the left, and every field is ended by writing a NUL.  A line is the list
    of its bytes, terminating NUL included; pointers are indices. *)

From Stdlib Require Import ZArith Lia Ascii String.
From stdpp Require Import base numbers list option.
From S2P Require Import Prelude StrBuf CommonStr LabelSet.

Inductive cmd_status_t : Type :=
  | CMD_OK | CMD_ERROR | CMD_PARSE_ERROR | CMD_UNKNOWN_COMMAND | CMD_NO_OPTION.
#[export] Instance cmd_status_eq_dec : EqDecision cmd_status_t.
Proof. solve_decision. Defined.


Section split.
Local Open Scope nat_scope.

(** The worst-case estimate of the number of fields. *)
Fixpoint estimate (in_field : bool) (s : cstr) : nat :=
  match s with
  | [] => 0
  | c :: s =>
      if isspace c then estimate false s
      else if in_field then estimate true s else S (estimate true s)
  end.

(** The locals of the main loop: the line, [string], [field], [in_field] (and
    [field] with it), [in_quotes] and the fields stored so far. *)
Record split_state := mk_split {
  sp_buf : list ascii;
  sp_string : nat;
  sp_field : option nat;
  sp_in_quotes : bool;
  sp_fields : list nat;
}.

(** What the loop ends with: the end of the line, a lone backslash, or the
    assertion of [NEW_FIELD]. *)
Inductive split_end : Type :=
  | at_end (s : split_state)
  | lone_backslash
  | assert_failed.

(** [None]: [assert (len < estimate)] fails. *)
Definition NEW_FIELD (est : nat) (s : split_state) : option split_state :=
  if length (sp_fields s) <? est
  then Some (mk_split (sp_buf s) (sp_string s) (Some (S (sp_string s))) (sp_in_quotes s)
               (sp_fields s ++ [sp_string s]))
  else None.
Definition END_FIELD (s : split_state) : M split_state :=
  let* field := mopt (sp_field s) in
  let* b := store (sp_buf s) field [NUL] in
  ret (mk_split b (sp_string s) None (sp_in_quotes s) (sp_fields s)).

Definition next (s : split_state) : split_state :=
  mk_split (sp_buf s) (S (sp_string s)) (sp_field s) (sp_in_quotes s) (sp_fields s).
Definition set_quotes (q : bool) (s : split_state) : split_state :=
  mk_split (sp_buf s) (sp_string s) (sp_field s) q (sp_fields s).

(** The end of the loop body: start a field or append to it. *)
Definition put_char (est : nat) (s : split_state) : M (option split_state) :=
  match sp_field s with
  | None => ret (NEW_FIELD est s)
  | Some field =>
      let* c := load (sp_buf s) (sp_string s) in
      let* b := store (sp_buf s) field [c] in
      ret (Some (mk_split b (sp_string s) (Some (S field)) (sp_in_quotes s) (sp_fields s)))
  end.

Fixpoint split_loop (fuel est : nat) (s : split_state) : M split_end :=
  match fuel with
  | O => crash
  | S fuel =>
      let continue s := split_loop fuel est (next s) in
      let put s :=
        let* r := put_char est s in
        match r with Some s => continue s | None => ret assert_failed end in
      let* c := load (sp_buf s) (sp_string s) in
      if bool_decide (c = NUL) then ret (at_end s)
      else if isspace c && negb (sp_in_quotes s) then
        match sp_field s with
        | Some _ => let* s := END_FIELD s in continue s
        | None => continue s
        end
      else if bool_decide (c = QUOTE) then
        if sp_in_quotes s then
          match (match sp_field s with Some _ => Some s | None => NEW_FIELD est s end) with
          | None => ret assert_failed
          | Some s => let* s := END_FIELD s in continue (set_quotes false s)
          end
        else continue (set_quotes true s)
      else if bool_decide (c = BACKSLASH) && sp_in_quotes s then
        let* d := load (sp_buf s) (S (sp_string s)) in
        if bool_decide (d = NUL) then ret lone_backslash else put (next s)
      else put s
  end.

(** The status, the errors that were reported, the line, and the fields. *)
Definition cmd_split (buffer : list ascii) : M (cmd_status_t * list cmd_status_t * list cstr) :=
  let* n := strlen buffer in
  let est := estimate false (take n buffer) in
  let* ok := alloc in
  if negb ok then ret (CMD_ERROR, [CMD_ERROR], [])
  else
    let* r := split_loop (S n) est (mk_split buffer 0 None false []) in
    match r with
    | assert_failed => crash
    | lone_backslash => ret (CMD_PARSE_ERROR, [CMD_PARSE_ERROR], [])
    | at_end s =>
        if sp_in_quotes s then ret (CMD_PARSE_ERROR, [CMD_PARSE_ERROR], [])
        else ret (CMD_OK, [], map (λ i, c_str (drop i (sp_buf s))) (sp_fields s))
    end.

(** [cmd_parse_option]: status, key and value. *)
Definition is_key_char (c : ascii) : bool := isalnum c || bool_decide (c = "_"%char) || bool_decide (c = ":"%char).
Definition cmd_parse_option (field : cstr) : cmd_status_t * cstr * cstr :=
  let n := span_len is_key_char field in
  if negb (bool_decide (field !! n = Some "="%char)) || (n =? 0) then (CMD_NO_OPTION, [], [])
  else (CMD_OK, take n field, drop (S n) field).

(** ** parse_option.c *)

Fixpoint skip (fuel : nat) (p : ascii → bool) (buf : list ascii) (i : nat) : M nat :=
  match fuel with
  | O => crash
  | S fuel => let* c := load buf i in if p c then skip fuel p buf (S i) else ret i
  end.

(** The loop over a quoted string: [None] is a backslash at the end, else the
    line, [buffer] and [dst]. *)
Fixpoint unquote (fuel : nat) (buf : list ascii) (buffer dst : nat) : M (option (list ascii * nat * nat)) :=
  match fuel with
  | O => crash
  | S fuel =>
      let* c := load buf buffer in
      if bool_decide (c = QUOTE) || bool_decide (c = NUL) then ret (Some (buf, buffer, dst))
      else if bool_decide (c = BACKSLASH) then
        let* d := load buf (S buffer) in
        if bool_decide (d = NUL) then ret None
        else let* b := store buf dst [d] in unquote fuel b (S (S buffer)) (S dst)
      else let* b := store buf dst [c] in unquote fuel b (S buffer) (S dst)
  end.

(** Status, line, and the new [*ret_buffer] and [*ret_string]. *)
Definition parse_string (buf : list ascii) (pos : nat) : M (Z * list ascii * (nat * nat)) :=
  let fuel := S (length buf) in
  let stop st := ret (st, buf, (pos, pos)) in
  let* string := skip fuel isspace buf pos in
  let* c := load buf string in
  if bool_decide (c = NUL) then stop 1%Z
  else
    let* '(status, buf, buffer, string) :=
      if bool_decide (c = QUOTE) then
        let string := S string in
        let* c := load buf string in
        if bool_decide (c = NUL) then ret (1%Z, buf, pos, string)
        else
          let* r := unquote fuel buf string string in
          match r with
          | None => ret ((-1)%Z, buf, pos, string)
          | Some (buf, buffer, dst) =>
              let* c := load buf buffer in
              if bool_decide (c = NUL) then ret ((-1)%Z, buf, pos, string)
              else
                let* b := store buf dst [NUL] in
                let* b := store b buffer [NUL] in
                let* c := load b (S buffer) in
                if negb (bool_decide (c = NUL)) && negb (isspace c) then ret ((-1)%Z, b, pos, string)
                else ret (0%Z, b, S buffer, string)
          end
      else
        let* buffer := skip fuel (λ c, negb (bool_decide (c = NUL)) && negb (isspace c)) buf string in
        let* c := load buf buffer in
        if bool_decide (c = NUL) then ret (0%Z, buf, buffer, string)
        else let* b := store buf buffer [NUL] in ret (0%Z, b, S buffer, string) in
    if negb (status =? 0)%Z then ret (status, buf, (pos, pos))
    else let* buffer := skip fuel isspace buf buffer in ret (0%Z, buf, (buffer, string)).

(** Status, line, [*ret_buffer], [*ret_key] and [*ret_value]. *)
Definition parse_option (buf : list ascii) (pos : nat) : M (Z * list ascii * (nat * nat * nat)) :=
  let fuel := S (length buf) in
  let stop st b := ret (st, b, (pos, pos, pos)) in
  let* key := skip fuel isspace buf pos in
  let* c := load buf key in
  if bool_decide (c = NUL) then stop 1%Z buf
  else
    let* buffer := skip fuel is_key_char buf key in
    let* c := load buf buffer in
    if negb (bool_decide (c = "="%char)) || (buffer =? key) then stop 1%Z buf
    else
      let* buf := store buf buffer [NUL] in
      let buffer := S buffer in
      let* c := load buf buffer in
      if isspace c || bool_decide (c = NUL) then stop (-1)%Z buf
      else
        let* '(status, buf, (buffer, value)) := parse_string buf buffer in
        if negb (status =? 0)%Z then stop (-1)%Z buf
        else ret (0%Z, buf, (buffer, key, value)).
End split.

(** ** Safety: every line is split without leaving it *)

Section safety.
Local Open Scope nat_scope.
Context (n est : nat) (rest : list ascii).

(** The line ends at [n], and what lies behind it is [rest]. *)
Definition line (b : list ascii) : Prop := b !! n = Some NUL ∧ drop (S n) b = rest.

Record split_ok (s : split_state) : Prop := {
  ok_line : line (sp_buf s);
  ok_string : sp_string s ≤ n;
  ok_field : ∀ f, sp_field s = Some f → f ≤ sp_string s;
  ok_fields : Forall (λ i, i < n) (sp_fields s) ∧ length (sp_fields s) ≤ est;
}.

Lemma line_load b i : line b → i ≤ n → ∃ c, b !! i = Some c ∧ (c ≠ NUL → i < n).
Proof.
  intros [Hn _] Hi. destruct (lookup_lt_is_Some_2 b i) as [c Hc].
  { apply lookup_lt_Some in Hn. lia. }
  exists c. split; [done|]. intros Hne. destruct (decide (i = n)) as [->|]; [congruence|lia].
Qed.

Lemma line_store b i c : line b → i < n ∨ i = n ∧ c = NUL →
  ∃ b', store b i [c] = ret b' ∧ line b'.
Proof.
  intros [Hn Hr] Hi. pose proof (lookup_lt_Some _ _ _ Hn) as Hl.
  exists (blit b i [c]). split; [apply store_at; simpl; lia|].
  unfold blit. cbn [length]. split.
  - destruct (decide (i = n)) as [->|].
    + destruct Hi as [?|[_ ->]]; [lia|]. rewrite lookup_app_r; rewrite length_take; [|lia].
      by replace (n - n `min` length b) with 0 by lia.
    + rewrite lookup_app_r; rewrite length_take; [|lia]. replace (n - i `min` length b) with (S (n - S i)) by lia.
      simpl. rewrite lookup_drop. by replace (i + 1 + (n - S i)) with n by lia.
  - rewrite drop_app_ge by (rewrite length_take; lia). rewrite length_take.
    replace (S n - i `min` length b) with (S (n - i)) by lia. simpl. rewrite drop_drop.
    replace (i + 1 + (n - i)) with (S n) by lia. done.
Qed.

Lemma new_field_ok s s' : split_ok s → sp_string s < n → sp_field s = None →
  NEW_FIELD est s = Some s' → line (sp_buf s') ∧ sp_string s' = sp_string s ∧
    sp_field s' = Some (S (sp_string s)) ∧ Forall (λ i, i < n) (sp_fields s') ∧ length (sp_fields s') ≤ est.
Proof.
  intros [Hl Hs Hf [Hfs Hlen]] Hlt Hn. unfold NEW_FIELD. destruct (Nat.ltb_spec (length (sp_fields s)) est); [|done].
  intros [= <-]. cbn. split_and!; [done..| |].
  - apply list.Forall_app; split; [done|by repeat constructor].
  - rewrite length_app. simpl. lia.
Qed.

(** Where a field may be ended: up to one place behind the current one. *)
Lemma end_field_ok s f : line (sp_buf s) → sp_field s = Some f → f ≤ n →
  wp (END_FIELD s) (λ s', line (sp_buf s') ∧ sp_string s' = sp_string s ∧ sp_field s' = None ∧
    sp_in_quotes s' = sp_in_quotes s ∧ sp_fields s' = sp_fields s).
Proof.
  intros Hl Hf Hle. unfold END_FIELD. rewrite Hf. cbn [mopt]. rewrite bind_ret.
  assert (f < n ∨ f = n ∧ NUL = NUL) as Hi by (destruct (decide (f = n)); [by right|left; lia]).
  destruct (line_store (sp_buf s) f NUL Hl Hi) as (b' & -> & Hb'). rewrite bind_ret. by apply wp_ret.
Qed.

Lemma put_char_ok s : split_ok s → sp_string s < n →
  wp (put_char est s) (λ r, match r with Some s' => split_ok (next s') ∧ sp_string s' = sp_string s | None => True end).
Proof.
  intros Hok Hlt. unfold put_char. destruct (sp_field s) as [f|] eqn:Ef.
  - destruct Hok as [Hl Hs Hf [Hfs Hlen]]. specialize (Hf f Ef).
    destruct (line_load _ (sp_string s) Hl Hs) as (c & Hc & _). unfold load at 1. rewrite Hc. cbn [mopt].
    rewrite bind_ret. destruct (line_store (sp_buf s) f c Hl ltac:(left; lia)) as (b' & -> & Hb'). rewrite bind_ret.
    apply wp_ret. split; [|done]. split; cbn; [done|lia| |done]. intros g [= <-]. lia.
  - apply wp_ret. destruct (NEW_FIELD est s) as [s'|] eqn:E; [|done].
    destruct (new_field_ok s s') as (Hl & Hs & Hf & Hfs); [done..|].
    split; [|done]. split; cbn; [done|lia| |done]. rewrite Hf, Hs. intros g [= <-]. lia.
Qed.

Lemma split_loop_safe fuel : ∀ s, split_ok s → n - sp_string s < fuel →
  wp (split_loop fuel est s) (λ r, match r with at_end s' => split_ok s' | _ => True end).
Proof.
  induction fuel as [|fuel IH]; intros s Hok Hf; [lia|]. cbn [split_loop].
  destruct (line_load _ (sp_string s) (ok_line s Hok) (ok_string s Hok)) as (c & Hc & Hn).
  unfold load at 1. rewrite Hc. cbn [mopt]. rewrite bind_ret.
  destruct (bool_decide_reflect (c = NUL)) as [->|Hne]; [by apply wp_ret|]. specialize (Hn Hne).
  assert (∀ s', split_ok s' → sp_string s ≤ sp_string s' → sp_string s' < n →
    wp (let* r := put_char est s' in
        match r with Some s => split_loop fuel est (next s) | None => ret assert_failed end)
      (λ r, match r with at_end s' => split_ok s' | _ => True end)) as Hput.
  { intros s' Hok' Hle Hlt. apply wp_bind. eapply wp_mono; [by apply put_char_ok|].
    intros [s''|]; [intros [Hok'' Hs'']|intros _; by apply wp_ret]. apply IH; [done|]. cbn. lia. }
  assert (∀ s', line (sp_buf s') → sp_string s' = sp_string s → sp_field s' = None →
    Forall (λ i, i < n) (sp_fields s') ∧ length (sp_fields s') ≤ est →
    wp (split_loop fuel est (next s')) (λ r, match r with at_end s' => split_ok s' | _ => True end)) as Hgo.
  { intros s' Hl Hs Hfd Hfs. apply IH; [|cbn; lia]. split; cbn; [done|lia| |done]. rewrite Hfd. done. }
  pose proof Hok as [Hl Hs Hfd Hfs]. destruct (isspace c && negb (sp_in_quotes s)).
  { destruct (sp_field s) as [f|] eqn:Ef; [|by apply Hgo]. apply wp_bind.
    eapply wp_mono; [eapply end_field_ok; [done..|specialize (Hfd f eq_refl); lia]|].
    intros s' (? & ? & ? & _ & E). apply Hgo; [done..|by rewrite E]. }
  destruct (bool_decide (c = QUOTE)).
  - destruct (sp_in_quotes s).
    + destruct (sp_field s) as [f|] eqn:Ef.
      * apply wp_bind. eapply wp_mono; [eapply end_field_ok; [done..|specialize (Hfd f eq_refl); lia]|].
        intros s' (? & ? & ? & _ & E). apply Hgo; cbn; [done..|by rewrite E].
      * destruct (NEW_FIELD est s) as [s'|] eqn:E; [|by apply wp_ret].
        destruct (new_field_ok s s') as (Hl' & Hs' & Hf' & Hfs'); [done..|].
        apply wp_bind. eapply wp_mono; [eapply end_field_ok; [done..|lia]|].
        intros s'' (? & ? & ? & _ & E''). apply Hgo; cbn; [done|lia|done|by rewrite E''].
    + apply IH; [|cbn; lia]. split; cbn; [done|lia| |done]. intros f Ef. specialize (Hfd f Ef). lia.
  - destruct (bool_decide (c = BACKSLASH) && sp_in_quotes s); [|by apply Hput].
    destruct (line_load _ (S (sp_string s)) Hl ltac:(lia)) as (d & Hd & Hn').
    unfold load at 1. rewrite Hd. cbn [mopt]. rewrite bind_ret.
    destruct (bool_decide_reflect (d = NUL)); [by apply wp_ret|].
    specialize (Hn' ltac:(done)). apply Hput; [|cbn; lia|cbn; lia].
    split; cbn; [done|lia| |done]. intros f Ef. specialize (Hfd f Ef). lia.
Qed.
End safety.

(** Splitting a line is memory safe and terminates, whatever the line
    holds: [cmd_split] never reads or writes outside of it, never touches what
    lies behind its NUL, and stores no more fields than the array has room for,
    each of which starts inside the line; unless its assertion fails it returns,
    and every status but CMD_OK is reported once. *)
Theorem cmd_split_safe s rest : no_nul s →
  let n := length s in let est := estimate false s in
  let loop := split_loop (S n) est (mk_split (s ++ NUL :: rest) 0 None false []) in
  wp loop (λ r,
    match r with
    | at_end st => drop (S n) (sp_buf st) = rest ∧ sp_buf st !! n = Some NUL ∧
        (length (sp_fields st) ≤ est)%nat ∧ Forall (λ i, (i < n)%nat) (sp_fields st)
    | _ => True
    end) ∧
  (wp loop (λ r, r ≠ assert_failed) →
   wp (cmd_split (s ++ NUL :: rest)) (λ '(status, errors, fields),
     errors = (if decide (status = CMD_OK) then [] else [status]) ∧ (length fields ≤ est)%nat)).
Proof.
  intros Hs n est loop.
  assert (wp loop (λ r, match r with at_end s' => split_ok n est rest s' | _ => True end)) as Hsafe.
  { apply split_loop_safe; [|cbn; lia]. split; cbn; [|lia|done|split; [constructor|lia]].
    split; [by apply list_lookup_middle|]. rewrite drop_app_ge by (fold n; lia).
    by replace (S n - length s)%nat with 1%nat by (fold n; lia). }
  split.
  - eapply wp_mono; [exact Hsafe|]. intros [st| |]; [|done..]. by intros [[] _ _ []].
  - intros Hna. unfold cmd_split. rewrite strlen_app, bind_ret, take_app_length by done. fold est n loop.
    apply wp_bind, wp_alloc. intros []; cbn [negb]; [|apply wp_ret; simpl; split; [done|lia]].
    apply wp_bind. intros o. destruct (Hsafe o) as (r & o' & E & Hr). destruct (Hna o) as (r' & o'' & E' & Hr').
    assert (r' = r) as -> by congruence. exists r, o'. split; [done|].
    destruct r as [st| |]; [|by apply wp_ret; split; [|simpl; lia]|done].
    destruct Hr as [_ _ _ [_ Hlen]]. destruct (sp_in_quotes st); apply wp_ret; (split; [done|]);
      [simpl; lia|by rewrite length_map].
Qed.

Lemma cmd_split_safe_witness :
  wp (cmd_split ($"PUTVAL" ++ [" "%char; QUOTE] ++ $"a b" ++ QUOTE :: NUL :: []))
    (λ '(status, errors, fields), errors = (if decide (status = CMD_OK) then [] else [status]) ∧
      (length fields ≤ 3)%nat).
Proof.
  apply (cmd_split_safe ($"PUTVAL" ++ [" "%char; QUOTE] ++ $"a b" ++ [QUOTE]) []).
  - repeat constructor; done.
  - intros o. eexists _, o. split; [vm_compute; reflexivity|done].
Defined.

(** ** What well-formed lines are split into *)

(** The texts that stand for [q] between quotes: any character may be
    escaped, quotes and backslashes must be. *)
Inductive enc : cstr → cstr → Prop :=
  | enc_nil : enc [] []
  | enc_plain c q e : c ≠ QUOTE → c ≠ BACKSLASH → c ≠ NUL → enc q e → enc (c :: q) (c :: e)
  | enc_esc c q e : c ≠ NUL → enc q e → enc (c :: q) (BACKSLASH :: c :: e).

(** An argument as it is written: plain characters, then perhaps a quoted
    text, given by what it stands for and by how it is written. *)
Record arg := { a_plain : cstr; a_quoted : option (cstr * cstr) }.
Definition render (a : arg) : cstr :=
  a_plain a ++ match a_quoted a with None => [] | Some (q, e) => QUOTE :: e ++ [QUOTE] end.
Definition arg_text (a : arg) : cstr :=
  a_plain a ++ match a_quoted a with None => [] | Some (q, e) => q end.

Definition plain_char (c : ascii) : Prop := c ≠ NUL ∧ c ≠ QUOTE ∧ isspace c = false.
Definition arg_ok (a : arg) : Prop :=
  Forall plain_char (a_plain a) ∧ (∀ q e, a_quoted a = Some (q, e) → enc q e) ∧ arg_text a ≠ [].

Section runs.
Local Open Scope nat_scope.
Context (N est : nat).

(** One state leads to another, whatever fuel is left. *)
Definition leads (s s' : split_state) : Prop := ∀ fuel, N - sp_string s < fuel →
  ∃ fuel', N - sp_string s' < fuel' ∧ split_loop fuel est s = split_loop fuel' est s'.

Lemma leads_refl s : leads s s.
Proof. intros fuel H. eauto. Qed.
Lemma leads_trans s1 s2 s3 : leads s1 s2 → leads s2 s3 → leads s1 s3.
Proof.
  intros H12 H23 fuel Hf. destruct (H12 fuel Hf) as (f2 & Hf2 & ->).
  destruct (H23 f2 Hf2) as (f3 & Hf3 & ->). eauto.
Qed.

(** Take one step of the loop at [c]. *)
Lemma leads_step s s' c : sp_buf s !! sp_string s = Some c → sp_string s < N → sp_string s < sp_string s' →
  (∀ fuel, split_loop (S fuel) est s = split_loop fuel est s') → leads s s'.
Proof.
  intros Hc Hlt Hs H [|fuel] Hf; [lia|]. rewrite H. exists fuel. split; [lia|done].
Qed.

Lemma load_at P c t (k : ascii → M split_end) : bind (load (P ++ c :: t) (length P)) k = k c.
Proof. by rewrite load_app, bind_ret. Qed.

(** White space between fields is skipped; a field that reaches it is ended
    there. *)
Lemma leads_space P c t fs (fld : bool) : c ≠ NUL → isspace c = true → length P < N →
  leads (mk_split (P ++ c :: t) (length P) (if fld then Some (length P) else None) false fs)
        (mk_split (P ++ (if fld then NUL else c) :: t) (S (length P)) None false fs).
Proof.
  intros Hne Hsp HN. eapply (leads_step _ _ c); [by apply list_lookup_middle|done|cbn; lia|].
  intros fuel. cbn [split_loop sp_buf sp_string sp_field sp_in_quotes]. rewrite load_at.
  rewrite bool_decide_eq_false_2 by done. rewrite Hsp. cbn [negb andb].
  destruct fld; [|done]. unfold END_FIELD. cbn [sp_field mopt sp_buf sp_string]. rewrite !bind_ret.
  rewrite store_app by (simpl; lia). by rewrite !bind_ret.
Qed.

Lemma leads_plain P c t fs : plain_char c → length P < N →
  (length fs < est → leads (mk_split (P ++ c :: t) (length P) None false fs)
     (mk_split (P ++ c :: t) (S (length P)) (Some (S (length P))) false (fs ++ [length P]))) ∧
  leads (mk_split (P ++ c :: t) (length P) (Some (length P)) false fs)
        (mk_split (P ++ c :: t) (S (length P)) (Some (S (length P))) false fs).
Proof.
  intros (Hn & Hq & Hsp) HN.
  split; [intros Hest|]; (eapply (leads_step _ _ c); [by apply list_lookup_middle|done|cbn; lia|]);
    intros fuel; cbn [split_loop sp_buf sp_string sp_field sp_in_quotes]; rewrite load_at;
    rewrite !bool_decide_eq_false_2 by done; rewrite Hsp; cbn [andb]; rewrite andb_false_r;
    unfold put_char; cbn [sp_field sp_buf sp_string].
  - unfold NEW_FIELD. cbn [sp_fields]. by rewrite (proj2 (Nat.ltb_lt _ _)).
  - rewrite load_app, !bind_ret. rewrite store_app by (simpl; lia). by rewrite !bind_ret.
Qed.

Lemma leads_plains p : ∀ P t fs, Forall plain_char p → length P + length p ≤ N →
  leads (mk_split (P ++ p ++ t) (length P) (Some (length P)) false fs)
        (mk_split (P ++ p ++ t) (length P + length p) (Some (length P + length p)) false fs).
Proof.
  induction p as [|c p IH]; intros P t fs Hp HN; cbn [app length].
  - rewrite Nat.add_0_r. apply leads_refl.
  - apply Forall_cons_1 in Hp as [Hc Hp]. cbn [length] in HN.
    eapply leads_trans; [apply leads_plain; [done|lia]|].
    specialize (IH (P ++ [c]) t fs Hp). rewrite length_app, <-!app_assoc in IH. cbn [length app] in IH.
    replace (length P + S (length p)) with (length P + 1 + length p) by lia.
    replace (S (length P)) with (length P + 1) by lia. apply IH. lia.
Qed.

(** Opening a quote. *)
Lemma leads_open P t f fs : length P < N →
  leads (mk_split (P ++ QUOTE :: t) (length P) f false fs)
        (mk_split (P ++ QUOTE :: t) (S (length P)) f true fs).
Proof.
  intros HN. eapply (leads_step _ _ QUOTE); [by apply list_lookup_middle|done|cbn; lia|].
  intros fuel. cbn [split_loop sp_buf sp_string sp_field sp_in_quotes]. by rewrite load_at.
Qed.

(** Closing it, with the field written up to [A]. *)
Lemma leads_close A J t fs : length A + length J < N →
  leads (mk_split (A ++ J ++ QUOTE :: t) (length A + length J) (Some (length A)) true fs)
        (mk_split (A ++ (NUL :: tail (J ++ [QUOTE])) ++ t) (S (length A + length J)) None false fs).
Proof.
  intros HN. rewrite !(app_assoc A J), <-length_app in *.
  eapply (leads_step _ _ QUOTE); [by apply list_lookup_middle|done|cbn; lia|].
  intros fuel. cbn [split_loop sp_buf sp_string sp_field sp_in_quotes].
  rewrite load_at. cbn [bool_decide]. unfold END_FIELD. cbn [sp_field mopt sp_buf sp_string].
  rewrite !bind_ret, <-(app_assoc A J), store_app by (rewrite length_app; simpl; lia). rewrite !bind_ret.
  unfold set_quotes, next. cbn. do 3 f_equal. by destruct J as [|x J]; simpl; rewrite <-?app_assoc.
Qed.

(** A character inside quotes moves down to the end of the field. *)
Lemma put_in_field A K c t q fs :
  put_char est (mk_split (A ++ (K ++ [c]) ++ t) (length A + length K) (Some (length A)) q fs) =
  ret (Some (mk_split ((A ++ [c]) ++ tail (K ++ [c]) ++ t) (length A + length K) (Some (S (length A))) q fs)).
Proof.
  unfold put_char. cbn [sp_field sp_buf sp_string sp_in_quotes sp_fields].
  rewrite <-(app_assoc K), (app_assoc A K), <-length_app. cbn [app]. rewrite load_app, bind_ret, <-(app_assoc A K).
  rewrite store_app by (rewrite length_app; simpl; lia). rewrite bind_ret.
  do 3 f_equal. rewrite <-app_assoc. f_equal. by destruct K as [|x K]; simpl; rewrite <-?app_assoc.
Qed.

Lemma leads_in A J c t fs : c ≠ NUL → c ≠ QUOTE → c ≠ BACKSLASH → length A + length J < N →
  leads (mk_split (A ++ J ++ c :: t) (length A + length J) (Some (length A)) true fs)
        (mk_split ((A ++ [c]) ++ tail (J ++ [c]) ++ t) (S (length A + length J)) (Some (S (length A))) true fs).
Proof.
  intros Hn Hq Hb HN. assert ((A ++ J ++ c :: t) !! (length A + length J) = Some c) as Hc.
  { rewrite app_assoc, <-length_app. by apply list_lookup_middle. }
  eapply (leads_step _ _ c); [done|done|cbn; lia|].
  intros fuel. cbn [split_loop sp_buf sp_string sp_in_quotes]. unfold load at 1. rewrite Hc. cbn [mopt].
  rewrite bind_ret, !bool_decide_eq_false_2 by done. cbn [negb andb]. rewrite andb_false_r.
  rewrite (cons_middle c J t), (app_assoc J [c] t), put_in_field. by rewrite bind_ret.
Qed.

Lemma leads_esc A J c t fs : c ≠ NUL → S (length A + length J) < N →
  leads (mk_split (A ++ J ++ BACKSLASH :: c :: t) (length A + length J) (Some (length A)) true fs)
        (mk_split ((A ++ [c]) ++ tail (J ++ [BACKSLASH; c]) ++ t) (S (S (length A + length J)))
           (Some (S (length A))) true fs).
Proof.
  intros Hn HN. assert ((A ++ J ++ BACKSLASH :: c :: t) !! (length A + length J) = Some BACKSLASH) as Hb.
  { rewrite app_assoc, <-length_app. by apply list_lookup_middle. }
  assert ((A ++ J ++ BACKSLASH :: c :: t) !! S (length A + length J) = Some c) as Hc.
  { rewrite app_assoc, <-length_app, (cons_middle BACKSLASH), app_assoc.
    apply list_lookup_middle. rewrite !length_app. simpl. lia. }
  eapply (leads_step _ _ BACKSLASH); [done|cbn; lia|cbn; lia|].
  intros fuel. cbn [split_loop sp_buf sp_string sp_in_quotes]. unfold load. rewrite Hb, Hc. cbn [mopt].
  rewrite !bind_ret. cbn [negb]. rewrite andb_false_r, (bool_decide_eq_true_2 (BACKSLASH = BACKSLASH)) by done.
  rewrite !bool_decide_eq_false_2 by done. cbn [andb].
  unfold next at 1. cbn [sp_buf sp_string sp_field sp_in_quotes sp_fields].
  replace (A ++ J ++ BACKSLASH :: c :: t) with (A ++ ((J ++ [BACKSLASH]) ++ [c]) ++ t) by (by rewrite <-!app_assoc).
  replace (S (length A + length J)) with (length A + length (J ++ [BACKSLASH])) by (rewrite length_app; simpl; lia).
  rewrite put_in_field, bind_ret. rewrite <-(app_assoc J). done.
Qed.

Lemma length_tail_snoc (J : list ascii) l : l ≠ [] → length (tail (J ++ l)) = length J + length l - 1.
Proof. intros Hl. destruct (J ++ l) eqn:E; apply (f_equal length) in E; rewrite length_app in E; simpl in *; [|lia].
  destruct l; [done|]. simpl in E. lia. Qed.

Lemma leads_quoted q e : enc q e → ∀ A J t fs, length A + length J + length e ≤ N →
  ∃ J', length J' + length q = length J + length e ∧
  leads (mk_split (A ++ J ++ e ++ t) (length A + length J) (Some (length A)) true fs)
        (mk_split ((A ++ q) ++ J' ++ t) (length A + length J + length e) (Some (length (A ++ q))) true fs).
Proof.
  induction 1 as [|c q e Hq Hb Hn He IH|c q e Hn He IH]; intros A J t fs HN; cbn [app length] in *.
  - exists J. rewrite app_nil_r, !Nat.add_0_r. split; [done|]. apply leads_refl.
  - destruct (IH (A ++ [c]) (tail (J ++ [c])) t fs) as (J' & Hl & HJ').
    { rewrite length_app, length_tail_snoc by done. cbn [length]. lia. }
    rewrite length_tail_snoc in Hl by done. rewrite (length_app A [c]), length_tail_snoc in HJ' by done.
    cbn [length] in Hl, HJ'.
    exists J'. split; [lia|]. eapply leads_trans; [apply leads_in; done || lia|].
    rewrite <-(app_assoc A [c] q) in HJ'. cbn [app] in HJ'.
    replace (length A + length J + S (length e)) with (length A + 1 + (length J + 1 - 1) + length e) by lia.
    replace (S (length A + length J)) with (length A + 1 + (length J + 1 - 1)) by lia.
    by replace (S (length A)) with (length A + 1) by lia.
  - destruct (IH (A ++ [c]) (tail (J ++ [BACKSLASH; c])) t fs) as (J' & Hl & HJ').
    { rewrite length_app, length_tail_snoc by done. cbn [length]. lia. }
    rewrite length_tail_snoc in Hl by done. rewrite (length_app A [c]), length_tail_snoc in HJ' by done.
    cbn [length] in Hl, HJ'.
    exists J'. split; [lia|]. eapply leads_trans; [apply leads_esc; done || lia|].
    rewrite <-(app_assoc A [c] q) in HJ'. cbn [app] in HJ'.
    replace (length A + length J + S (S (length e))) with (length A + 1 + (length J + 2 - 1) + length e) by lia.
    replace (S (S (length A + length J))) with (length A + 1 + (length J + 2 - 1)) by lia.
    by replace (S (length A)) with (length A + 1) by lia.
Qed.

(** From inside the quotes to behind the closing one. *)
Lemma leads_to_close A J q e t fs : enc q e → length A + length J + length e < N →
  ∃ v, length q + S (length v) = S (length J + length e) ∧
  leads (mk_split (A ++ J ++ e ++ QUOTE :: t) (length A + length J) (Some (length A)) true fs)
        (mk_split (A ++ (q ++ NUL :: v) ++ t) (S (length A + length J + length e)) None false fs).
Proof.
  intros He HN. destruct (leads_quoted q e He A J (QUOTE :: t) fs) as (J' & Hl & HJ'); [lia|].
  exists (tail (J' ++ [QUOTE])). rewrite length_tail_snoc by done. cbn [length]. split; [lia|].
  eapply leads_trans; [exact HJ'|].
  replace (length A + length J + length e) with (length (A ++ q) + length J') by (rewrite length_app; lia).
  pose proof (leads_close (A ++ q) J' t fs ltac:(rewrite length_app; lia)) as Hc.
  rewrite <-!app_assoc in Hc |- *. exact Hc.
Qed.

(** The first character of a field that starts inside quotes. *)
Lemma leads_first P c t fs : c ≠ NUL → length fs < est →
  (c ≠ QUOTE → c ≠ BACKSLASH → length P < N →
   leads (mk_split (P ++ c :: t) (length P) None true fs)
         (mk_split (P ++ c :: t) (S (length P)) (Some (S (length P))) true (fs ++ [length P]))) ∧
  (S (length P) < N →
   leads (mk_split (P ++ BACKSLASH :: c :: t) (length P) None true fs)
         (mk_split (P ++ BACKSLASH :: c :: t) (S (S (length P))) (Some (S (S (length P)))) true
            (fs ++ [S (length P)]))).
Proof.
  intros Hn Hest. split; [intros Hq Hb HN|intros HN].
  - eapply (leads_step _ _ c); [by apply list_lookup_middle|done|cbn; lia|].
    intros fuel. cbn [split_loop sp_buf sp_string sp_in_quotes]. rewrite load_at.
    rewrite !bool_decide_eq_false_2 by done. cbn [negb andb]. rewrite andb_false_r.
    unfold put_char, NEW_FIELD. cbn [sp_field sp_fields]. by rewrite (proj2 (Nat.ltb_lt _ _)).
  - eapply (leads_step _ _ BACKSLASH); [by apply list_lookup_middle|cbn; lia|cbn; lia|].
    intros fuel. cbn [split_loop sp_buf sp_string sp_in_quotes]. rewrite load_at. cbn [negb].
    rewrite andb_false_r, (bool_decide_eq_true_2 (BACKSLASH = BACKSLASH)) by done.
    rewrite (cons_middle BACKSLASH P), app_assoc.
    replace (S (length P)) with (length (P ++ [BACKSLASH])) by (rewrite length_app; simpl; lia).
    rewrite load_at, !bool_decide_eq_false_2 by done. cbn [andb].
    unfold put_char, NEW_FIELD, next. cbn [sp_field sp_fields sp_string].
    rewrite (proj2 (Nat.ltb_lt _ _)) by done. rewrite bind_ret.
    by replace (length (P ++ [BACKSLASH])) with (S (length P)) by (rewrite length_app; simpl; lia).
Qed.

(** One argument: where its text ends up, and whether it has been ended. *)
Definition placed (P R : list ascii) (a : arg) (fld : option nat) (j : nat) : Prop :=
  (fld = Some (length P + length R) ∧ R = arg_text a ∧ j = length P) ∨
  (fld = None ∧ ∃ u v, R = u ++ arg_text a ++ NUL :: v ∧ j = length P + length u).

Lemma leads_arg_plain P c p t fs : Forall plain_char (c :: p) → length fs < est → length P + S (length p) ≤ N →
  leads (mk_split (P ++ (c :: p) ++ t) (length P) None false fs)
        (mk_split (P ++ (c :: p) ++ t) (length P + S (length p)) (Some (length P + S (length p))) false
           (fs ++ [length P])).
Proof.
  intros [Hc Hp]%Forall_cons_1 Hest HN. cbn [app].
  eapply leads_trans; [apply leads_plain; [done|lia|done]|].
  pose proof (leads_plains p (P ++ [c]) t (fs ++ [length P]) Hp) as Hps.
  rewrite length_app, <-!app_assoc in Hps. cbn [length app] in Hps.
  replace (length P + S (length p)) with (length P + 1 + length p) by lia.
  replace (S (length P)) with (length P + 1) by lia. apply Hps. lia.
Qed.

(** A field that starts inside quotes. *)
Lemma leads_arg_quoted P q e t fs : enc q e → q ≠ [] → length fs < est → length P + S (length e) < N →
  ∃ u v, length (u ++ q ++ NUL :: v) = S (S (length e)) ∧
  leads (mk_split (P ++ QUOTE :: e ++ QUOTE :: t) (length P) None false fs)
        (mk_split (P ++ (u ++ q ++ NUL :: v) ++ t) (length P + S (S (length e))) None false
           (fs ++ [length P + length u])).
Proof.
  intros He Hne Hest HN. inversion He as [|c q' e' Hq Hb Hn He' E1 E2|c q' e' Hn He' E1 E2]; subst; [done| |].
  - destruct (leads_to_close (P ++ [QUOTE; c]) [] q' e' t (fs ++ [S (length P)]) He') as (v & Hl & Hc).
    { rewrite length_app. cbn [length] in *. lia. }
    exists [QUOTE], v. cbn [app length] in *. rewrite length_app. cbn [length]. split; [lia|].
    eapply leads_trans; [apply leads_open; lia|].
    destruct (leads_first (P ++ [QUOTE]) c (e' ++ QUOTE :: t) fs Hn Hest) as [Hf _].
    rewrite length_app, <-app_assoc in Hf. cbn [length app] in Hf. rewrite Nat.add_1_r in *.
    eapply leads_trans; [apply Hf; done || lia|].
    rewrite length_app, <-!app_assoc in Hc. cbn [length app] in Hc. rewrite Nat.add_0_r in Hc.
    replace (S (S (length P))) with (length P + 2) by lia.
    replace (length P + S (S (S (length e')))) with (S (length P + 2 + length e')) by lia.
    rewrite <-app_assoc. exact Hc.
  - destruct (leads_to_close (P ++ [QUOTE; BACKSLASH; c]) [] q' e' t (fs ++ [S (S (length P))]) He') as (v & Hl & Hc).
    { rewrite length_app. cbn [length] in *. lia. }
    exists [QUOTE; BACKSLASH], v. cbn [app length] in *. rewrite length_app. cbn [length]. split; [lia|].
    eapply leads_trans; [apply leads_open; lia|].
    destruct (leads_first (P ++ [QUOTE]) c (e' ++ QUOTE :: t) fs Hn Hest) as [_ Hf].
    rewrite length_app, <-app_assoc in Hf. cbn [length app] in Hf. rewrite Nat.add_1_r in Hf.
    eapply leads_trans; [apply Hf; lia|].
    rewrite length_app, <-!app_assoc in Hc. cbn [length app] in Hc. rewrite Nat.add_0_r in Hc.
    replace (S (S (S (length P)))) with (length P + 3) by lia.
    replace (length P + S (S (S (S (length e'))))) with (S (length P + 3 + length e')) by lia.
    replace (length P + 2) with (S (S (length P))) by lia.
    rewrite <-app_assoc. exact Hc.
Qed.

Lemma leads_arg P a t fs : arg_ok a → length fs < est → length P + length (render a) ≤ N →
  ∃ R fld j, length R = length (render a) ∧ placed P R a fld j ∧
  leads (mk_split (P ++ render a ++ t) (length P) None false fs)
        (mk_split (P ++ R ++ t) (length P + length R) fld false (fs ++ [j])).
Proof.
  destruct a as [p [[q e]|]]; unfold placed, arg_ok, render, arg_text; cbn; intros (Hp & Hq & Hne) Hest HN.
  2: { rewrite app_nil_r in *. destruct p as [|c p]; [done|].
       exists (c :: p), (Some (length P + S (length p))), (length P). split_and!; [done|by left|].
       by apply leads_arg_plain. }
  specialize (Hq q e eq_refl). rewrite length_app in HN. cbn [length] in HN. rewrite length_app in HN. cbn in HN.
  rewrite <-!app_assoc. cbn [app]. rewrite <-app_assoc. cbn [app]. destruct p as [|c p].
  - destruct (leads_arg_quoted P q e t fs Hq Hne Hest) as (u & v & Hl & Hr); [cbn in HN; lia|].
    exists (u ++ q ++ NUL :: v), None, (length P + length u). split_and!; [|right; by eauto|].
    + rewrite Hl. simpl. rewrite length_app. simpl. lia.
    + rewrite Hl. exact Hr.
  - set (A := P ++ c :: p). assert (length A = length P + S (length p)) as HA by (unfold A; by rewrite length_app).
    destruct (leads_to_close A [QUOTE] q e t (fs ++ [length P]) Hq) as (v & Hl & Hc).
    { rewrite HA. cbn [length] in *. lia. }
    exists ((c :: p) ++ q ++ NUL :: v), None, (length P). split_and!.
    + rewrite !length_app. cbn [length] in *. rewrite length_app. simpl. lia.
    + right. split; [done|]. exists [], v. cbn [app length]. rewrite <-app_assoc. split; [done|lia].
    + pose proof (leads_arg_plain P c p (QUOTE :: e ++ QUOTE :: t) fs Hp Hest ltac:(cbn in HN; lia)) as Hpl.
      assert (∀ T, P ++ (c :: p) ++ T = A ++ T) as EA by (intros T; unfold A; by rewrite <-app_assoc).
      eapply leads_trans; [exact Hpl|]. rewrite EA, <-HA.
      eapply leads_trans; [apply leads_open; cbn in HN; lia|].
      cbn [length] in Hc. rewrite Nat.add_1_r in Hc.
      replace (length P + length ((c :: p) ++ q ++ NUL :: v)) with (S (S (length A) + length e)).
      2: { rewrite HA, !length_app. cbn [length] in *. lia. }
      rewrite <-(app_assoc (c :: p)), EA. exact Hc.
Qed.

(** A line: arguments, each followed by white space, which only the last may
    lack. *)
Definition white (s : cstr) : Prop := Forall (λ c, isspace c = true) s.
Definition render_line (l : list (arg * cstr)) : cstr := concat (map (λ '(a, sep), render a ++ sep) l).
Fixpoint line_ok (l : list (arg * cstr)) : Prop :=
  match l with
  | [] => True
  | (a, sep) :: l => arg_ok a ∧ white sep ∧ (sep = [] → l = []) ∧ line_ok l
  end.

Lemma space_nonnul c : isspace c = true → c ≠ NUL.
Proof. by intros H ->. Qed.

Lemma leads_white sep : ∀ P t fs, white sep → length P + length sep ≤ N →
  leads (mk_split (P ++ sep ++ t) (length P) None false fs)
        (mk_split (P ++ sep ++ t) (length P + length sep) None false fs).
Proof.
  induction sep as [|c sep IH]; intros P t fs Hw HN; cbn [app length].
  - rewrite Nat.add_0_r. apply leads_refl.
  - apply Forall_cons_1 in Hw as [Hc Hw]. cbn [length] in HN.
    eapply leads_trans; [apply (leads_space P c (sep ++ t) fs false); [by apply space_nonnul|done|lia]|].
    specialize (IH (P ++ [c]) t fs Hw). rewrite length_app, <-!app_assoc in IH. cbn [length app] in IH.
    replace (length P + S (length sep)) with (length P + 1 + length sep) by lia.
    replace (S (length P)) with (length P + 1) by lia. apply IH. lia.
Qed.

(** The texts [xs] stand in [P], NUL-terminated, at [fs]. *)
Definition finished (P : list ascii) (fs : list nat) (xs : list cstr) : Prop :=
  Forall2 (λ i x, ∃ u v, P = u ++ x ++ NUL :: v ∧ length u = i) fs xs.

Lemma finished_app P Q fs xs : finished P fs xs → finished (P ++ Q) fs xs.
Proof.
  intros H. eapply list.Forall2_impl; [exact H|]. intros i x (u & v & -> & Hu).
  exists u, (v ++ Q). by rewrite <-!app_assoc.
Qed.
Lemma finished_snoc P fs xs i x u v : finished P fs xs → P = u ++ x ++ NUL :: v → length u = i →
  finished P (fs ++ [i]) (xs ++ [x]).
Proof. intros H E Hu. apply Forall2_app; [done|]. repeat constructor. eauto. Qed.

Lemma leads_line l : ∀ P fs xs rest, line_ok l → finished P fs xs → length fs + length l ≤ est →
  length P + length (render_line l) = N →
  ∃ B fld fs', length B = N ∧ finished (B ++ [NUL]) fs' (xs ++ map (λ p, arg_text p.1) l) ∧
  leads (mk_split (P ++ render_line l ++ NUL :: rest) (length P) None false fs)
        (mk_split (B ++ NUL :: rest) N fld false fs').
Proof.
  induction l as [|[a sep] l IH]; intros P fs xs rest Hl Hfin Hest HN.
  { cbn [length] in HN. rewrite Nat.add_0_r in HN. exists P, None, fs. cbn [map]. rewrite app_nil_r.
    split_and!; [done|by apply finished_app|]. cbn [app]. rewrite HN. apply leads_refl. }
  destruct Hl as (Ha & Hw & Hsep & Hl). change (render_line ((a, sep) :: l)) with ((render a ++ sep) ++ render_line l) in *.
  rewrite !length_app in HN. cbn [length] in Hest. rewrite <-!app_assoc.
  destruct (leads_arg P a (sep ++ render_line l ++ NUL :: rest) fs) as (R & fld & j & HR & Hpl & Hrun);
    [done|lia|lia|].
  assert (∀ P2, finished P2 fs xs → (∃ u v, P2 = u ++ arg_text a ++ NUL :: v ∧ length u = j) →
    length P2 = length P + length R + length sep →
    leads (mk_split (P ++ R ++ sep ++ render_line l ++ NUL :: rest) (length P + length R) fld false (fs ++ [j]))
          (mk_split (P2 ++ render_line l ++ NUL :: rest) (length P2) None false (fs ++ [j])) →
    ∃ B fld fs', length B = N ∧ finished (B ++ [NUL]) fs' (xs ++ map (λ p, arg_text p.1) ((a, sep) :: l)) ∧
      leads (mk_split (P ++ render a ++ sep ++ render_line l ++ NUL :: rest) (length P) None false fs)
        (mk_split (B ++ NUL :: rest) N fld false fs')) as Hnext.
  { intros P2 Hfin2 (u & v & E & Hu) Hlen Hlead.
    destruct (IH P2 (fs ++ [j]) (xs ++ [arg_text a]) rest Hl) as (B & fld' & fs' & HB & HfB & Hr).
    - by eapply finished_snoc.
    - rewrite length_app. simpl. lia.
    - lia.
    - exists B, fld', fs'. cbn [map]. rewrite <-app_assoc in HfB. split_and!; [done..|].
      eapply leads_trans; [exact Hrun|]. by eapply leads_trans. }
  destruct Hpl as [(-> & -> & ->)|(-> & u & v & -> & ->)].
  - destruct sep as [|c sep].
    + rewrite (Hsep eq_refl) in *. cbn in HN |- *. exists (P ++ arg_text a), (Some (length P + length (arg_text a))), (fs ++ [length P]).
      rewrite length_app. split_and!; [lia| |].
      * eapply (finished_snoc _ _ _ _ _ P []); [by apply finished_app, finished_app|by rewrite <-app_assoc|done].
      * rewrite <-app_assoc. replace N with (length P + length (arg_text a)) by lia. exact Hrun.
    + apply Forall_cons_1 in Hw as [Hc Hw].
      apply (Hnext (P ++ arg_text a ++ NUL :: sep)).
      * by apply finished_app.
      * by exists P, sep.
      * rewrite !length_app. cbn [length]. lia.
      * cbn [app]. rewrite app_assoc, <-length_app.
        eapply leads_trans; [apply (leads_space (P ++ arg_text a) c _ _ true);
          [by apply space_nonnul|done|rewrite length_app; cbn [length] in HN; lia]|].
        pose proof (leads_white sep (P ++ arg_text a ++ [NUL]) (render_line l ++ NUL :: rest) (fs ++ [length P]) Hw) as Hws.
        rewrite <-!app_assoc in Hws |- *. cbn [app] in Hws |- *. rewrite !length_app in *. cbn [length] in *.
        replace (S (length P + length (arg_text a))) with (length P + (length (arg_text a) + 1)) by lia.
        replace (length P + (length (arg_text a) + S (length sep)))
          with (length P + (length (arg_text a) + 1) + length sep) by lia.
        rewrite <-(app_assoc (arg_text a)). apply Hws. lia.
  - set (R := u ++ arg_text a ++ NUL :: v) in *. apply (Hnext (P ++ R ++ sep)).
    + by apply finished_app.
    + exists (P ++ u), (v ++ sep). rewrite length_app. split; [|done]. unfold R. by rewrite <-!app_assoc.
    + rewrite !length_app. lia.
    + pose proof (leads_white sep (P ++ R) (render_line l ++ NUL :: rest) (fs ++ [length P + length u]) Hw) as Hws.
      rewrite <-!app_assoc in Hws |- *. rewrite !length_app in *. rewrite Nat.add_assoc, <-(app_assoc R). apply Hws. lia.
Qed.
End runs.

(** The estimate is enough for a well-formed line. *)
Lemma estimate_le b s : (estimate b s ≤ estimate false s)%nat.
Proof. destruct s as [|c s]; [done|]. cbn. destruct (isspace c), b; lia. Qed.
Lemma estimate_app s t : ∀ b, (estimate false t ≤ S (estimate b (s ++ t)))%nat ∧
  (∀ c t', t = c :: t' → isspace c = true → (estimate false t ≤ estimate b (s ++ t))%nat).
Proof.
  induction s as [|x s IH]; intros b.
  - split; [|intros c t' -> Hc; cbn; by rewrite Hc]. cbn [app].
    destruct t as [|c t]; [simpl; lia|]. cbn. destruct (isspace c), b; lia.
  - cbn [app estimate]. destruct (isspace x), b; destruct (IH true) as [H1 H2], (IH false) as [H3 H4];
      (split; [lia|intros c t' E Hc]); specialize (H2 c t' E Hc); specialize (H4 c t' E Hc); lia.
Qed.

Lemma render_head a : arg_ok a → ∃ c s, render a = c :: s ∧ isspace c = false.
Proof.
  destruct a as [[|c p] [[q e]|]]; unfold arg_ok, render, arg_text; cbn; intros (Hp & _ & Hne); try done.
  all: eexists _, _; split; [done|]; try done.
  all: apply Forall_cons_1 in Hp as [(_ & _ & Hsp) _]; done.
Qed.

Lemma estimate_line l : line_ok l → (length l ≤ estimate false (render_line l))%nat.
Proof.
  induction l as [|[a sep] l IH]; [simpl; lia|]. intros (Ha & Hw & Hsep & Hl).
  change (render_line ((a, sep) :: l)) with ((render a ++ sep) ++ render_line l).
  destruct (render_head a Ha) as (c & s & -> & Hc). rewrite <-app_assoc. cbn [app estimate length].
  rewrite Hc. specialize (IH Hl). apply le_n_S. destruct sep as [|x sep].
  - rewrite (Hsep eq_refl). simpl. lia.
  - apply Forall_cons_1 in Hw as [Hx Hw].
    destruct (estimate_app s ((x :: sep) ++ render_line l) true) as [_ H2].
    specialize (H2 x (sep ++ render_line l) eq_refl Hx). etrans; [exact IH|]. etrans; [|exact H2].
    cbn [app estimate]. rewrite Hx. clear -Hw. induction sep as [|y sep IH]; [done|].
    apply Forall_cons_1 in Hw as [Hy Hw]. cbn [app estimate]. rewrite Hy. by apply IH.
Qed.

Lemma no_nul_enc q e : enc q e → no_nul e ∧ no_nul q.
Proof.
  induction 1 as [|c q e Hq Hb Hn He [IH1 IH2]|c q e Hn He [IH1 IH2]]; [by split; constructor|..];
    (split; repeat (apply Forall_cons_2; [done|])); done.
Qed.
Lemma no_nul_arg a : arg_ok a → no_nul (render a) ∧ no_nul (arg_text a).
Proof.
  destruct a as [p [[q e]|]]; unfold arg_ok, render, arg_text; cbn; intros (Hp & Hq & _).
  all: assert (no_nul p) as Hpn by (eapply list.Forall_impl; [exact Hp|]; by intros c []).
  2: by rewrite app_nil_r.
  destruct (no_nul_enc q e (Hq q e eq_refl)) as [He Hq']. split; [|by apply list.Forall_app].
  apply list.Forall_app; split; [done|]. apply Forall_cons_2; [done|]. apply list.Forall_app. by repeat constructor.
Qed.
Lemma no_nul_line l : line_ok l → no_nul (render_line l) ∧ Forall (λ p, no_nul (arg_text p.1)) l.
Proof.
  induction l as [|[a sep] l IH]; [by split; constructor|]. intros (Ha & Hw & _ & Hl).
  destruct (IH Hl) as [H1 H2], (no_nul_arg a Ha) as [H3 H4]. split; [|by constructor].
  change (render_line ((a, sep) :: l)) with ((render a ++ sep) ++ render_line l).
  apply list.Forall_app; split; [|done]. apply list.Forall_app; split; [done|].
  eapply list.Forall_impl; [exact Hw|]. apply space_nonnul.
Qed.

Lemma finished_read P fs xs : finished P fs xs → Forall no_nul xs → map (λ i, c_str (drop i P)) fs = xs.
Proof.
  induction 1 as [|i x fs xs (u & v & -> & <-) _ IH]; [done|]. intros [Hx Hxs]%Forall_cons_1. cbn [map].
  f_equal; [|by apply IH]. rewrite drop_app_length. by apply c_str_app.
Qed.

(** [cmd_split] on a well-formed line, with white space in front. *)
Lemma cmd_split_ok sep0 l rest : white sep0 → line_ok l →
  cmd_split (sep0 ++ render_line l ++ NUL :: rest) ⇓ (CMD_OK, [], map (λ p, arg_text p.1) l).
Proof.
  intros Hw Hl. destruct (no_nul_line l Hl) as [Hn Hx]. unfold cmd_split.
  assert (no_nul (sep0 ++ render_line l)) as Hn0.
  { apply list.Forall_app; split; [|done]. eapply list.Forall_impl; [exact Hw|]. apply space_nonnul. }
  rewrite app_assoc, strlen_app, bind_ret, take_app_length by done.
  eapply yields_bind; [apply yields_alloc|]. cbn [negb].
  set (N := length (sep0 ++ render_line l)). set (est := estimate false (sep0 ++ render_line l)).
  assert (length l ≤ est)%nat as Hest.
  { etrans; [by apply estimate_line|]. unfold est. clear -Hw. induction sep0 as [|c sep0 IH]; [done|].
    apply Forall_cons_1 in Hw as [Hc Hw]. cbn [app estimate]. rewrite Hc. by apply IH. }
  rewrite <-app_assoc.
  pose proof (leads_white N est sep0 [] (render_line l ++ NUL :: rest) [] Hw) as Hr1.
  destruct (leads_line N est l sep0 [] [] rest Hl) as (B & fld & fs & HB & Hfin & Hr2).
  { constructor. } { done. } { unfold N. by rewrite length_app. }
  cbn [length app] in Hr1. specialize (Hr1 ltac:(unfold N; rewrite length_app; cbn; lia)).
  destruct (leads_trans _ _ _ _ _ Hr1 Hr2 (S N) ltac:(cbn; lia)) as (fuel & Hf & ->).
  destruct fuel as [|fuel]; [lia|]. eapply yields_bind.
  { cbn [split_loop sp_buf sp_string]. rewrite <-HB, load_at. apply yields_ret. }
  cbn [sp_in_quotes sp_buf sp_fields]. unfold yields, ret. do 3 f_equal. cbn [app] in Hfin.
  apply finished_read; [|by apply Forall_map]. apply (finished_app _ rest) in Hfin.
  by rewrite <-app_assoc in Hfin.
Qed.

(** C22. [cmd_split] undoes the quoting of the protocol: a line of arguments
    that are separated by white space, each written plainly, in quotes with
    backslash escapes, or as a plain part followed by a quoted one, is split
    into exactly the texts that the arguments stand for.  But a line
    that begins with two quotes and nothing between them is one field that
    holds a quote, whatever follows, and two quoted arguments of one character
    that touch, which the code means to accept as two fields, make the assertion
    fail. *)
Theorem cmd_split_fields sep0 l rest : white sep0 → line_ok l →
  cmd_split (sep0 ++ render_line l ++ NUL :: rest) ⇓ (CMD_OK, [], map (λ p, arg_text p.1) l) ∧
  (∀ c t, isspace c = true → no_nul t →
     cmd_split (QUOTE :: QUOTE :: c :: t ++ NUL :: rest) ⇓ (CMD_OK, [], [[QUOTE]])) ∧
  (∀ a b, plain_char a → plain_char b → a ≠ BACKSLASH → b ≠ BACKSLASH →
     cmd_split (QUOTE :: a :: QUOTE :: QUOTE :: b :: QUOTE :: NUL :: rest) [] = None).
Proof.
  intros Hw Hl. split_and!; [by apply cmd_split_ok|..].
  - intros c t Hc Hn. unfold cmd_split.
    change (QUOTE :: QUOTE :: c :: t ++ NUL :: rest) with ((QUOTE :: QUOTE :: c :: t) ++ NUL :: rest).
    rewrite strlen_app, bind_ret.
    2: { repeat (apply Forall_cons_2; [done || by apply space_nonnul|]). done. }
    eapply yields_bind; [apply yields_alloc|]. cbn [negb length].
    assert (∃ est, estimate false (take (S (S (S (length t)))) ((QUOTE :: QUOTE :: c :: t) ++ NUL :: rest)) = S est)
      as [est ->] by (cbn; eauto).
    unfold yields. by destruct c as [[] [] [] [] [] [] [] []].
  - intros a b (Ha1 & Ha2 & Ha3) (Hb1 & Hb2 & Hb3) Ha4 Hb4. unfold cmd_split.
    change (QUOTE :: a :: QUOTE :: QUOTE :: b :: QUOTE :: NUL :: rest)
      with ([QUOTE; a; QUOTE; QUOTE; b; QUOTE] ++ NUL :: rest).
    rewrite strlen_app by by repeat constructor. rewrite bind_ret.
    change (bind alloc ?k []) with (k true []). cbn [negb length take app].
    replace (estimate false _) with 1%nat by (cbn; by rewrite Ha3, Hb3).
    unfold bind.
    destruct (leads_arg_quoted 6 1 [] [a] [a] (QUOTE :: b :: QUOTE :: NUL :: rest) []) as (u & v & Hlen & Hr1).
    { by repeat constructor. } { done. } { simpl; lia. } { simpl; lia. }
    cbn [app length] in Hr1. set (P := u ++ a :: NUL :: v) in *. cbn in Hlen. fold P in Hlen.
    pose proof (leads_open 6 1 P (b :: QUOTE :: NUL :: rest) None [length u]) as Hr2.
    rewrite Hlen in Hr2. specialize (Hr2 ltac:(lia)).
    destruct (leads_trans _ _ _ _ _ Hr1 Hr2 7%nat ltac:(cbn; lia)) as (fuel & Hf & ->).
    destruct fuel as [|fuel]; [cbn in Hf; lia|]. cbn [split_loop sp_buf sp_string sp_in_quotes].
    rewrite (cons_middle QUOTE P), app_assoc. replace 4%nat with (length (P ++ [QUOTE])) by (rewrite length_app, Hlen; done).
    rewrite load_at, !bool_decide_eq_false_2 by done. cbn [negb]. by rewrite andb_false_r.
Qed.

Definition demo_line : list (arg * cstr) :=
  [({| a_plain := $"PUTVAL"; a_quoted := None |}, $" ");
   ({| a_plain := []; a_quoted := Some ($"a b", $"a b") |}, $" ");
   ({| a_plain := $"k="; a_quoted := Some ([QUOTE], [BACKSLASH; QUOTE]) |}, [])].
Lemma cmd_split_fields_witness :
  cmd_split ($"PUTVAL " ++ QUOTE :: $"a b" ++ QUOTE :: $" k=" ++ [QUOTE; BACKSLASH; QUOTE; QUOTE; NUL]) ⇓
    (CMD_OK, [], [$"PUTVAL"; $"a b"; $"k=" ++ [QUOTE]]).
Proof.
  apply (cmd_split_fields [] demo_line []); [constructor|].
  repeat split; try done; repeat constructor; try done; cbn; intros q e [= <- <-].
  - repeat (apply enc_plain; [done..|]). constructor.
  - apply enc_esc; [done|constructor].
Defined.

(** ** [parse_string] undoes [escape_string] *)

Section parse_string.
Local Open Scope nat_scope.

Lemma store_move A K c (t : list ascii) :
  store (A ++ (K ++ [c]) ++ t) (length A) [c] = ret ((A ++ [c]) ++ tail (K ++ [c]) ++ t).
Proof.
  rewrite store_app by (rewrite !length_app; simpl; lia). rewrite <-(app_assoc A [c]). do 2 f_equal.
  by destruct K as [|x K]; simpl; rewrite <-?app_assoc.
Qed.

Lemma unquote_ok q e : enc q e → ∀ fuel A J t, length e < fuel →
  ∃ J', length J' + length q = length J + length e ∧
  unquote fuel (A ++ J ++ e ++ QUOTE :: t) (length A + length J) (length A) =
  ret (Some ((A ++ q) ++ J' ++ QUOTE :: t, length A + length J + length e, length (A ++ q))).
Proof.
  induction 1 as [|c q e Hq Hb Hn He IH|c q e Hn He IH]; intros fuel A J t Hf;
    (destruct fuel as [|fuel]; [simpl in Hf; lia|]); cbn [unquote app].
  - exists J. split; [done|]. rewrite app_nil_r, !app_assoc, <-length_app, load_app, bind_ret, Nat.add_0_r.
    by rewrite <-app_assoc.
  - destruct (IH fuel (A ++ [c]) (tail (J ++ [c])) t) as (J' & Hl & HJ'); [simpl in Hf; lia|].
    rewrite length_tail_snoc in Hl by done. rewrite (length_app A [c]), length_tail_snoc in HJ' by done.
    exists J'. cbn [length] in *. split; [lia|].
    rewrite (app_assoc A), <-length_app, load_app, bind_ret, !bool_decide_eq_false_2 by done. cbn [orb].
    rewrite <-app_assoc, (cons_middle c J), (app_assoc J), store_move, bind_ret, length_app.
    replace (S (length A + length J)) with (length A + 1 + (length J + 1 - 1)) by lia.
    replace (S (length A)) with (length A + 1) by lia. rewrite HJ'. rewrite <-(app_assoc A [c] q). cbn [app].
    do 3 f_equal. f_equal. lia.
  - destruct (IH fuel (A ++ [c]) (tail (J ++ [BACKSLASH; c])) t) as (J' & Hl & HJ'); [simpl in Hf; lia|].
    rewrite length_tail_snoc in Hl by done. rewrite (length_app A [c]), length_tail_snoc in HJ' by done.
    exists J'. cbn [length] in *. split; [lia|].
    rewrite (app_assoc A), <-length_app, load_app, bind_ret.
    rewrite (bool_decide_eq_true_2 (BACKSLASH = BACKSLASH)) by done.
    rewrite !(bool_decide_eq_false_2 (BACKSLASH = _)) by done. cbn [orb].
    rewrite (cons_middle BACKSLASH (A ++ J)), app_assoc.
    replace (S (length (A ++ J))) with (length ((A ++ J) ++ [BACKSLASH])) by (rewrite length_app; simpl; lia).
    rewrite load_app, bind_ret, bool_decide_eq_false_2 by done.
    replace (((A ++ J) ++ [BACKSLASH]) ++ c :: e ++ QUOTE :: t) with (A ++ ((J ++ [BACKSLASH]) ++ [c]) ++ e ++ QUOTE :: t)
      by (by rewrite <-!app_assoc).
    rewrite store_move, bind_ret, <-(app_assoc J). cbn [app].
    replace (S (length ((A ++ J) ++ [BACKSLASH]))) with (length A + 1 + (length J + 2 - 1))
      by (rewrite !length_app; simpl; lia).
    replace (S (length A)) with (length A + 1) by lia. rewrite HJ'. rewrite <-(app_assoc A [c] q). cbn [app].
    rewrite !length_app. do 3 f_equal. f_equal. lia.
Qed.

Lemma skip_run p s : ∀ fuel a c t, Forall (λ x, p x = true) s → p c = false → length s < fuel →
  skip fuel p (a ++ s ++ c :: t) (length a) = ret (length a + length s).
Proof.
  induction s as [|x s IH]; intros fuel a c t Hs Hc Hf; (destruct fuel as [|fuel]; [simpl in Hf; lia|]);
    cbn [skip app].
  - rewrite load_app, bind_ret, Hc. by rewrite Nat.add_0_r.
  - apply Forall_cons_1 in Hs as [Hx Hs]. rewrite load_app, bind_ret, Hx.
    specialize (IH fuel (a ++ [x]) c t Hs Hc). rewrite length_app, <-app_assoc in IH. cbn [app length] in IH.
    replace (S (length a)) with (length a + 1) by lia. rewrite IH by (simpl in Hf; lia). f_equal. simpl. lia.
Qed.

(** The two NULs at the end of a quoted string. *)
Lemma two_nuls (A J k : list ascii) :
  ∃ b w, store (A ++ J ++ QUOTE :: NUL :: k) (length A) [NUL] = ret b ∧
    store b (length A + length J) [NUL] = ret ((A ++ NUL :: w) ++ NUL :: k) ∧ length w = length J.
Proof.
  destruct J as [|y J].
  - exists (A ++ NUL :: NUL :: k), []. cbn [app length].
    rewrite Nat.add_0_r, !store_app by (simpl; lia). by rewrite <-app_assoc.
  - exists (A ++ NUL :: J ++ QUOTE :: NUL :: k), (J ++ [NUL]). cbn [app length].
    rewrite store_app by (simpl; lia). split; [done|].
    pose proof (store_app (A ++ NUL :: J) (QUOTE :: NUL :: k) [NUL]) as Hs. rewrite length_app in Hs. cbn [length] in Hs.
    rewrite <-!app_assoc in Hs |- *. cbn [app] in Hs |- *. rewrite Hs by lia. rewrite length_app. simpl.
    split; [|lia]. by rewrite <-!app_assoc.
Qed.

(** A quoted string: from the opening quote to the NUL behind the closing
    one. *)
Lemma parse_quoted q e k : enc q e → q ≠ [] →
  ∃ buf, parse_string (QUOTE :: e ++ QUOTE :: NUL :: k) 0 = ret (0%Z, buf, (S (S (length e)), 1)) ∧
    c_str (drop 1 buf) = q.
Proof.
  intros He Hne. unfold parse_string. set (buf0 := QUOTE :: e ++ QUOTE :: NUL :: k).
  change (skip (S (length buf0)) isspace buf0 0) with (ret 0 : M nat). rewrite bind_ret.
  change (load buf0 0) with (ret QUOTE). rewrite bind_ret, (bool_decide_eq_false_2 (QUOTE = NUL)) by done.
  rewrite (bool_decide_eq_true_2 (QUOTE = QUOTE)) by done.
  assert (∃ x, load buf0 1 = ret x ∧ x ≠ NUL) as (x & -> & Hx).
  { inversion He; subst; [done|eexists; split; [reflexivity|done]..]. }
  rewrite bind_ret, bool_decide_eq_false_2 by done.
  destruct (unquote_ok q e He (S (length buf0)) [QUOTE] [] (NUL :: k)) as (J & Hl & HJ).
  { unfold buf0. simpl. rewrite length_app. simpl. lia. }
  cbn [app length] in HJ. cbn [length] in Hl. change (1 + 0) with 1 in HJ. fold buf0 in HJ. rewrite HJ, bind_ret.
  set (A := QUOTE :: q) in *. change (QUOTE :: q ++ J ++ QUOTE :: NUL :: k) with (A ++ J ++ QUOTE :: NUL :: k).
  assert (1 + length e = length A + length J) as E1 by (unfold A; simpl; lia).
  destruct (two_nuls A J k) as (b & w & Hb & Hb' & Hw). rewrite E1.
  assert (load (A ++ J ++ QUOTE :: NUL :: k) (length A + length J) = ret QUOTE) as ->.
  { rewrite (app_assoc A), <-length_app. apply load_app. }
  rewrite bind_ret, (bool_decide_eq_false_2 (QUOTE = NUL)) by done. change (S (length q)) with (length A).
  rewrite Hb, bind_ret, Hb', bind_ret.
  assert (S (length A + length J) = length (A ++ NUL :: w)) as E2 by (rewrite length_app; simpl; lia).
  rewrite E2, load_app, bind_ret. cbn [bool_decide negb andb]. rewrite (bool_decide_eq_true_2 (NUL = NUL)) by done.
  cbn [negb andb]. rewrite bind_ret. cbn [Z.eqb negb].
  pose proof (skip_run isspace [] (S (length buf0)) (A ++ NUL :: w) NUL k) as Hsk. cbn [app length] in Hsk.
  rewrite Hsk, bind_ret by (done || lia || constructor).
  exists ((A ++ NUL :: w) ++ NUL :: k). split; [do 3 f_equal; lia|].
  unfold A. cbn [app drop]. rewrite <-app_assoc. cbn [app]. apply c_str_app. by apply no_nul_enc in He as [_ ?].
Qed.

(** An unquoted one, up to the end of the line. *)
Lemma parse_plain s k : s ≠ [] → Forall plain_char s →
  parse_string (s ++ NUL :: k) 0 = ret (0%Z, s ++ NUL :: k, (length s, 0)).
Proof.
  intros Hne Hs. unfold parse_string. destruct s as [|c s]; [done|].
  pose proof Hs as [(Hc1 & Hc2 & Hc3) _]%Forall_cons_1.
  pose proof (skip_run isspace [] (S (length ((c :: s) ++ NUL :: k))) [] c (s ++ NUL :: k)) as H0.
  cbn [app length] in H0. cbv zeta. cbn [app length]. rewrite H0, bind_ret by (done || lia || constructor). clear H0. cbn [Nat.add].
  change (load (c :: s ++ NUL :: k) 0) with (ret c). rewrite bind_ret, !bool_decide_eq_false_2 by done.
  pose proof (skip_run (λ c, negb (bool_decide (c = NUL)) && negb (isspace c)) (c :: s)
    (S (length ((c :: s) ++ NUL :: k))) [] NUL k) as H1. cbn [app length Nat.add] in H1.
  cbn [app length]. rewrite H1, bind_ret.
  2: { eapply list.Forall_impl; [exact Hs|]. intros x (Hx1 & _ & Hx3). by rewrite bool_decide_eq_false_2, Hx3. }
  2: done. 2: rewrite length_app; simpl; lia.
  pose proof (load_app (c :: s) NUL k) as H2. cbn [app length] in H2. rewrite H2, bind_ret.
  rewrite bool_decide_eq_true_2 by done. rewrite bind_ret. cbn [Z.eqb negb].
  pose proof (skip_run isspace [] (S (S (length (s ++ NUL :: k)))) (c :: s) NUL k) as H3. cbn [app length] in H3.
  rewrite H3, bind_ret by (done || lia || constructor). by rewrite Nat.add_0_r.
Qed.
End parse_string.

Lemma enc_escape_quotes s : no_nul s → enc s (escape s).
Proof.
  induction s as [|c s IH]; intros Hs; [constructor|]. apply Forall_cons_1 in Hs as [Hc Hs].
  rewrite escape_cons. unfold quoted.
  destruct (bool_decide_reflect (c = "034"%char)) as [->|Hq]; cbn [orb app]; [by apply enc_esc; [|apply IH]|].
  destruct (bool_decide_reflect (c = "\"%char)) as [->|Hb]; cbn [app]; [by apply enc_esc; [|apply IH]|].
  by apply enc_plain; [..|apply IH].
Qed.

(** [parse_string] undoes [escape_string]: a text that fits its buffer
    with its escapes is read back unchanged, whether it had to be quoted or
    not, as long as a text that is not quoted holds no other white space than
    the blanks and tabs that [escape_string] looks for. *)
Theorem escape_parse_roundtrip s rest : no_nul s → s ≠ [] →
  (length (escape s) + 3 ≤ length (s ++ NUL :: rest))%nat → (4 ≤ length (s ++ NUL :: rest))%nat →
  in_u64 (Z.of_nat (length (s ++ NUL :: rest))) →
  (existsb (chr_mem special) s = false → Forall (λ c, isspace c = false) s) →
  ∃ b b' pos i, escape_string (s ++ NUL :: rest) ⇓ (0, b) ∧ parse_string b 0 ⇓ (0, b', (pos, i)) ∧
    c_str (drop i b') = s.
Proof.
  intros Hn Hne Hroom H4 Hsz Hws. destruct (existsb (chr_mem special) s) eqn:Hsp.
  - destruct (escape_string_run s rest) as (p & k & _ & Hp & _ & Hr); [done..|]. rewrite Hp in Hr by done.
    destruct (parse_quoted s (escape s) (replicate k NUL)) as (b' & Hb' & Hs');
      [by apply enc_escape_quotes|done|].
    eexists _, b', _, 1%nat. split_and!; [unfold yields; rewrite Hr; reflexivity| |done].
    unfold yields. change "034"%char with QUOTE. by rewrite Hb'.
  - exists (s ++ NUL :: rest), (s ++ NUL :: rest), (length s), 0%nat. split_and!.
    + unfold escape_string. rewrite strlen_app, bind_ret, take_app_length, Hsp by done. done.
    + rewrite parse_plain; [done|done|]. specialize (Hws eq_refl). clear -Hn Hws Hsp.
      induction s as [|c s IH]; [done|]. apply Forall_cons_1 in Hn as [Hc Hn]. apply Forall_cons_1 in Hws as [Hc' Hws].
      cbn in Hsp. apply orb_false_iff in Hsp as [Hc3 Hsp]. apply Forall_cons_2; [|by apply IH].
      split_and!; [done| |done]. by intros ->.
    + by apply c_str_app.
Qed.

Lemma escape_parse_roundtrip_witness :
  ∃ b b' pos i, escape_string ($"a b" ++ NUL :: replicate 4 NUL) ⇓ (0, b) ∧ parse_string b 0 ⇓ (0, b', (pos, i)) ∧
    c_str (drop i b') = $"a b".
Proof.
  apply (escape_parse_roundtrip $"a b" (replicate 4 NUL));
    [by repeat constructor|done|simpl; lia|simpl; lia|by split|by intros [=]].
Defined.
