(* ===== verification/Commands.v ===== *)
(** * The commands of the text protocol (src/utils/cmds/)

    [cmd_parse] and the five commands: FLUSH, GETVAL, LISTVAL, PUTVAL and
    PUTMETRIC, with their handlers.  An error handler is modelled by the list
    of the statuses it was called with ([cmd_error]); the texts of the messages
    are left out, and writing to the client is taken to succeed.  What the
    handlers ask the daemon for ([plugin_flush], [plugin_dispatch_values],
    [plugin_get_ds]) are arguments. *)

From Stdlib Require Import ZArith Lia Ascii String.
From stdpp Require Import base numbers list option strings sorting.
From S2P Require Import Prelude MapSpec Double StrBuf CommonStr Time LabelSet Metric Values Cmds.
From S2P Require MetaData Cache.

(** ** Data *)

Inductive cmd_type_t : Type :=
  | CMD_UNKNOWN | CMD_FLUSH | CMD_GETVAL | CMD_LISTVAL | CMD_PUTVAL | CMD_PUTMETRIC.
#[export] Instance cmd_type_eq_dec : EqDecision cmd_type_t.
Proof. solve_decision. Defined.

Record cmd_options_t := { identifier_default_host : option cstr }.
Definition default_options : cmd_options_t := {| identifier_default_host := None |}.

(** [None] as host is the default host itself. *)
Record identifier_t := { id_host : option cstr; id_plugin : cstr; id_type : cstr }.
Record cmd_flush_t := { fl_timeout : double; fl_plugins : list cstr; fl_identifiers : list identifier_t }.

(** The family owns the metric that [metric] points to. *)
Record cmd_getval_t := { gv_raw_identifier : option cstr; gv_family : metric_family_t }.

(** All value lists of a command hold the same pointer to the meta data, if
    they hold one; the object itself is kept once. *)
Record cmd_putval_t := {
  pv_raw_identifier : option cstr;
  pv_vl : list (value_list_t * bool);
  pv_meta : option MetaData.meta_data_t;
}.
Definition no_putval : cmd_putval_t := {| pv_raw_identifier := None; pv_vl := []; pv_meta := None |}.

(** The union of a command and its tag. *)
Inductive cmd_union : Type :=
  | u_zero
  | u_flush (c : cmd_flush_t)
  | u_getval (c : cmd_getval_t)
  | u_putval (c : cmd_putval_t)
  | u_putmetric (c : metric_family_t).
Record cmd_t := { ct_type : cmd_type_t; ct_cmd : cmd_union }.

(** ** PUTVAL *)

Definition strncasecmp_eq (n : nat) (a b : cstr) : bool := strcasecmp (take n a) (take n b) =? 0.

Section putval.
Context `{Strtod}.

(** [set_option] of putval.c: status, value list and meta data. *)
Definition putval_set_option (vl : value_list_t) (meta : option MetaData.meta_data_t) (key value : cstr)
    : M (cmd_status_t * value_list_t * option MetaData.meta_data_t) :=
  if strcasecmp $"interval" key =? 0 then
    let r := strtod value in
    if negb (sd_errno r) && negb (sd_consumed r =? 0)%nat && flt fzero (sd_value r) then
      let* t := mopt (DOUBLE_TO_CDTIME_T (sd_value r)) in ret (CMD_OK, set_vl_interval t vl, meta)
    else ret (CMD_OK, vl, meta)
  else if strncasecmp_eq 5 $"meta:" key then
    let* meta := match meta with Some md => ret (Some md) | None => MetaData.meta_data_create end in
    match meta with
    | None => ret (CMD_ERROR, vl, None)
    | Some md =>
        let* '(status, md) := MetaData.meta_data_add_string md (drop 5 key) value in
        ret (if status =? 0 then CMD_OK else CMD_ERROR, vl, Some md)
    end
  else ret (CMD_ERROR, vl, meta).

(** A freed pointer must not be freed again. *)
Definition cmd_destroy_putval (p : cmd_putval_t) : M cmd_putval_t :=
  let* _ := massert (length (filter (λ e, e.2 = true) (pv_vl p)) <=? 1)%nat in ret no_putval.

(** The loop over the options and value lists: result, errors, and the
    command so far. *)
Fixpoint putval_loop (now : Z) (ds : data_set_t) (argv : list cstr) (vl : value_list_t)
    (meta : option MetaData.meta_data_t) (p : cmd_putval_t) : M (cmd_status_t * list cmd_status_t * cmd_putval_t) :=
  match argv with
  | [] => ret (CMD_OK, [], p)
  | a :: argv =>
      match cmd_parse_option a with
      | (CMD_OK, key, value) =>
          let* '(status, vl, meta) := putval_set_option vl meta key value in
          let p := {| pv_raw_identifier := pv_raw_identifier p; pv_vl := pv_vl p; pv_meta := meta |} in
          if bool_decide (status = CMD_OK) || bool_decide (status = CMD_NO_OPTION)
          then putval_loop now ds argv vl meta p
          else ret (status, [], p)
      | _ =>
          let* ok := alloc in
          if negb ok then ret (CMD_ERROR, [CMD_ERROR], p)
          else
            let* '(status, vl) := parse_values now a (set_values (replicate (length (set_ds ds)) (v_counter 0)) vl) ds in
            if negb (status =? 0) then ret (CMD_PARSE_ERROR, [CMD_PARSE_ERROR], p)
            else
              let* ok := alloc in
              if negb ok then let* p := cmd_destroy_putval p in ret (CMD_ERROR, [CMD_ERROR], p)
              else
                let p := {| pv_raw_identifier := pv_raw_identifier p;
                            pv_vl := pv_vl p ++ [(vl, bool_decide (is_Some meta))]; pv_meta := meta |} in
                putval_loop now ds argv (set_values [] vl) meta p
      end
  end.

Definition cmd_parse_putval (now : Z) (plugin_get_ds : cstr → option data_set_t) (argv : list cstr)
    (opts : cmd_options_t) : M (cmd_status_t * list cmd_status_t * cmd_putval_t) :=
  match argv with
  | identifier :: args =>
      if (length args =? 0)%nat then ret (CMD_PARSE_ERROR, [CMD_PARSE_ERROR], no_putval)
      else
        let vl := match identifier_default_host opts with
                  | Some h => set_vl_host (fit DATA_MAX_NAME_LEN h) VALUE_LIST_INIT
                  | None => VALUE_LIST_INIT
                  end in
        let* '(status, vl, _) := parse_identifier_vl identifier vl false in
        if negb (status =? 0) then ret (CMD_PARSE_ERROR, [CMD_PARSE_ERROR], no_putval)
        else
          match plugin_get_ds (vl_type vl) with
          | None => ret (CMD_PARSE_ERROR, [CMD_PARSE_ERROR], no_putval)
          | Some ds =>
              let* ok := alloc in
              if negb ok then let* p := cmd_destroy_putval no_putval in ret (CMD_ERROR, [CMD_ERROR], p)
              else
                let p := {| pv_raw_identifier := Some identifier; pv_vl := []; pv_meta := None |} in
                let* '(result, errors, p) := putval_loop now ds args vl None p in
                if bool_decide (result = CMD_OK) then ret (result, errors, p)
                else let* p := cmd_destroy_putval p in ret (result, errors, p)
          end
  | [] => ret (CMD_PARSE_ERROR, [CMD_PARSE_ERROR], no_putval)
  end.

(** ** FLUSH *)

Definition finite (d : double) : bool :=
  negb (is_nan d) && negb (feq d INFINITY) && negb (feq d (SpecFloat.SFopp INFINITY)).
Definition no_flush : cmd_flush_t := {| fl_timeout := fzero; fl_plugins := []; fl_identifiers := [] |}.
(** [cmd_destroy_flush] keeps the timeout. *)
Definition cmd_destroy_flush (f : cmd_flush_t) : cmd_flush_t :=
  {| fl_timeout := fl_timeout f; fl_plugins := []; fl_identifiers := [] |}.

Fixpoint cmd_parse_flush_loop (opts : cmd_options_t) (argv : list cstr) (f : cmd_flush_t)
    : M (cmd_status_t * list cmd_status_t * cmd_flush_t) :=
  match argv with
  | [] => ret (CMD_OK, [], f)
  | a :: argv =>
      let fail st f := ret (st, [st], cmd_destroy_flush f) in
      match cmd_parse_option a with
      | (CMD_OK, opt_key, opt_value) =>
          if strcasecmp $"plugin" opt_key =? 0 then
            let* '(_, plugins) := strarray_add (fl_plugins f) (Some opt_value) in
            cmd_parse_flush_loop opts argv
              {| fl_timeout := fl_timeout f; fl_plugins := plugins; fl_identifiers := fl_identifiers f |}
          else if strcasecmp $"identifier" opt_key =? 0 then
            let* ok := alloc in
            if negb ok then fail CMD_ERROR f
            else
              match parse_identifier opt_value (identifier_default_host opts) with
              | inl _ => fail CMD_PARSE_ERROR f
              | inr (h, p, t, _) =>
                  cmd_parse_flush_loop opts argv
                    {| fl_timeout := fl_timeout f; fl_plugins := fl_plugins f;
                       fl_identifiers := fl_identifiers f ++ [{| id_host := h; id_plugin := p; id_type := t |}] |}
              end
          else if strcasecmp $"timeout" opt_key =? 0 then
            let r := strtod opt_value in
            let set t := {| fl_timeout := t; fl_plugins := fl_plugins f; fl_identifiers := fl_identifiers f |} in
            if (sd_consumed r =? 0)%nat || sd_errno r || negb (finite (sd_value r)) then fail CMD_PARSE_ERROR (set (sd_value r))
            else cmd_parse_flush_loop opts argv (set (if flt (sd_value r) fzero then fzero else sd_value r))
          else fail CMD_PARSE_ERROR f
      | _ => fail CMD_PARSE_ERROR f
      end
  end.
Definition cmd_parse_flush (argv : list cstr) (opts : cmd_options_t) :=
  cmd_parse_flush_loop opts argv no_flush.
End putval.

(** ** GETVAL and LISTVAL *)

Section getval.
Context `{Sysconf}.

Definition cmd_parse_getval (hostname_g : cstr) (plugin_get_ds : cstr → option data_set_t) (argv : list cstr)
    : M (cmd_status_t * list cmd_status_t * option cmd_getval_t) :=
  match argv with
  | [a] =>
      let* r := parse_legacy_identifier hostname_g plugin_get_ds a in
      match r with
      | inl _ => ret (CMD_PARSE_ERROR, [], None)
      | inr fam =>
          let* ok := alloc in
          ret (CMD_OK, [], Some {| gv_raw_identifier := if ok then Some a else None; gv_family := fam |})
      end
  | _ => ret (CMD_PARSE_ERROR, [CMD_PARSE_ERROR], None)
  end.
End getval.

Definition cmd_parse_listval (argv : list cstr) : cmd_status_t * list cmd_status_t :=
  match argv with [] => (CMD_OK, []) | _ => (CMD_PARSE_ERROR, [CMD_PARSE_ERROR]) end.

(** ** PUTMETRIC *)

(** A [metric_type_t] passed as a data source type. *)
Definition type_code (ty : metric_type_t) : Z :=
  match ty with
  | METRIC_TYPE_COUNTER => 0 | METRIC_TYPE_GAUGE => 1 | METRIC_TYPE_UNTYPED => 2 | METRIC_TYPE_DISTRIBUTION => 3
  end.

Definition set_type (ty : metric_type_t) (fam : metric_family_t) : metric_family_t :=
  mk_family (fam_name fam) (help fam) ty (metric fam).
Definition set_time (t : Z) (m : metric_t) : metric_t := mk_metric (label m) (m_value m) t (interval m) (meta m).
Definition set_interval (t : Z) (m : metric_t) : metric_t := mk_metric (label m) (m_value m) (time m) t (meta m).
Definition set_value (v : value_t) (m : metric_t) : metric_t :=
  mk_metric (label m) v (time m) (interval m) (meta m).

Section putmetric.
Context `{Strtod}.

(** [set_option] of putmetric.c, on the family and its metric.  Only five
    characters of [label:] are compared, but six are skipped: behind a key of
    five characters begins the value. *)
Definition putmetric_set_option (fam : metric_family_t) (m : metric_t) (key value : cstr)
    : M (cmd_status_t * metric_family_t * metric_t) :=
  let stamp set :=
    let r := strtod value in
    if sd_errno r || negb (sd_consumed r =? length value)%nat || flt (sd_value r) fzero then ret (CMD_ERROR, fam, m)
    else let* t := mopt (DOUBLE_TO_CDTIME_T (sd_value r)) in ret (CMD_OK, fam, set t m) in
  if strcasecmp $"type" key =? 0 then
    if strcasecmp $"GAUGE" value =? 0 then ret (CMD_OK, set_type METRIC_TYPE_GAUGE fam, m)
    else if strcasecmp $"COUNTER" value =? 0 then ret (CMD_OK, set_type METRIC_TYPE_COUNTER fam, m)
    else if strcasecmp $"UNTYPED" value =? 0 then ret (CMD_OK, set_type METRIC_TYPE_UNTYPED fam, m)
    else ret (CMD_ERROR, fam, m)
  else if strcasecmp $"interval" key =? 0 then stamp set_interval
  else if strcasecmp $"time" key =? 0 then stamp set_time
  else if strncasecmp_eq 5 $"label:" key then
    let nm := if (length key =? 5)%nat then value else drop 6 key in
    let* '(status, m) := metric_label_set m nm (Some value) in
    ret (if status =? 0 then CMD_OK else CMD_ERROR, fam, m)
  else ret (CMD_ERROR, fam, m).

Fixpoint putmetric_loop (argv : list cstr) (next_pos : nat) (fam : metric_family_t) (m : metric_t)
    : M (cmd_status_t * list cmd_status_t * nat * metric_family_t * metric_t) :=
  match argv with
  | [] => ret (CMD_OK, [], next_pos, fam, m)
  | a :: argv =>
      match cmd_parse_option a with
      | (CMD_OK, key, value) =>
          let* '(result, fam, m) := putmetric_set_option fam m key value in
          if bool_decide (result = CMD_OK) then putmetric_loop argv next_pos fam m
          else ret (result, [], next_pos, fam, m)
      | _ =>
          match next_pos with
          | 0%nat =>
              let* ok := alloc in
              if negb ok then ret (CMD_ERROR, [CMD_ERROR], next_pos, fam, m)
              else putmetric_loop argv 1 (mk_family (Some a) (help fam) (type fam) (metric fam)) m
          | 1%nat =>
              let* '(status, v) := parse_value (Some a) (type_code (type fam)) in
              let m := match v with Some v => set_value v m | None => m end in
              if negb (status =? 0) then ret (CMD_ERROR, [CMD_ERROR], next_pos, fam, m)
              else putmetric_loop argv 2 fam m
          | S n => putmetric_loop argv (S (S n)) fam m
          end
      end
  end.

Definition cmd_parse_putmetric (argv : list cstr) : M (cmd_status_t * list cmd_status_t * option metric_family_t) :=
  if (length argv <? 2)%nat then ret (CMD_ERROR, [CMD_ERROR], None)
  else
    let* ok := alloc in
    if negb ok then ret (CMD_ERROR, [CMD_ERROR], None)
    else
      let fam := mk_family None None METRIC_TYPE_UNTYPED [] in
      let* '(status, fam) := metric_family_metric_append fam zero_metric in
      if negb (status =? 0) then ret (CMD_ERROR, [], None)
      else
        let* m := mopt (hd_error (metric fam)) in
        let* '(result, errors, next_pos, fam, m) := putmetric_loop argv 0 fam m in
        let fam := set_metrics fam [m] in
        if bool_decide (result = CMD_OK) then
          if (next_pos =? 2)%nat then ret (CMD_OK, errors, Some fam)
          else let* _ := metric_family_free fam in ret (CMD_ERROR, errors ++ [CMD_PARSE_ERROR], None)
        else let* _ := metric_family_free fam in ret (result, errors, None).
End putmetric.

(** ** Dispatch *)

Section parse.
Context `{Sysconf, Strtod} (now : Z) (hostname_g : cstr) (plugin_get_ds : cstr → option data_set_t).

(** A status, the errors reported and the command. *)
Definition cmd_parsev (argv : list cstr) (opts : cmd_options_t)
    : M (cmd_status_t * list cmd_status_t * option cmd_t) :=
  match argv with
  | [] => ret (CMD_ERROR, [CMD_ERROR], None)
  | command :: argv =>
      let done st errs ty u :=
        ret (st, errs, Some {| ct_type := if bool_decide (st = CMD_OK) then ty else CMD_UNKNOWN; ct_cmd := u |}) in
      if strcasecmp $"FLUSH" command =? 0 then
        let* '(st, errs, c) := cmd_parse_flush argv opts in done st errs CMD_FLUSH (u_flush c)
      else if strcasecmp $"GETVAL" command =? 0 then
        let* '(st, errs, c) := cmd_parse_getval hostname_g plugin_get_ds argv in
        done st errs CMD_GETVAL (match c with Some c => u_getval c | None => u_zero end)
      else if strcasecmp $"LISTVAL" command =? 0 then
        let '(st, errs) := cmd_parse_listval argv in done st errs CMD_LISTVAL u_zero
      else if strcasecmp $"PUTVAL" command =? 0 then
        let* '(st, errs, c) := cmd_parse_putval now plugin_get_ds argv opts in done st errs CMD_PUTVAL (u_putval c)
      else if strcasecmp $"PUTMETRIC" command =? 0 then
        let* '(st, errs, c) := cmd_parse_putmetric argv in
        done st errs CMD_PUTMETRIC (match c with Some c => u_putmetric c | None => u_zero end)
      else ret (CMD_UNKNOWN_COMMAND, [CMD_UNKNOWN_COMMAND], Some {| ct_type := CMD_UNKNOWN; ct_cmd := u_zero |})
  end.

Definition cmd_parse (buffer : list ascii) (opts : cmd_options_t)
    : M (cmd_status_t * list cmd_status_t * option cmd_t) :=
  let* '(status, errs, fields) := cmd_split buffer in
  if bool_decide (status = CMD_OK) then cmd_parsev fields opts else ret (status, errs, None).

(** Frees the member that the tag names; another one is undefined. *)
Definition cmd_destroy (cmd : cmd_t) : M unit :=
  match ct_type cmd, ct_cmd cmd with
  | CMD_UNKNOWN, _ | CMD_LISTVAL, _ => ret tt
  | CMD_FLUSH, u_flush _ => ret tt
  | CMD_GETVAL, u_getval c => metric_family_free (gv_family c)
  | CMD_PUTVAL, u_putval c => let* _ := cmd_destroy_putval c in ret tt
  | CMD_PUTMETRIC, u_putmetric fam => metric_family_free fam
  | _, _ => crash
  end.
End parse.

(** ** Formatting *)

Section format.
Context `{Sysconf, MetaData.FormatGauge}.

(** printf's [%.3f]. *)
Class FormatFixed3 : Type := format_fixed3 : double → cstr.
Context `{FormatFixed3}.

(** A printing call whose status is ignored. *)
Definition pr (f : strbuf_t → M (Z * strbuf_t)) (buf : strbuf_t) : M strbuf_t :=
  let* '(_, buf) := f buf in ret buf.

Fixpoint format_labels (buf : strbuf_t) (ls : list label_pair_t) : M strbuf_t :=
  match ls with
  | [] => ret buf
  | l :: ls =>
      let* nm := mopt (LabelSet.name l) in
      let* buf := pr (λ b, strbuf_printf b ($" label:" ++ nm ++ ["="%char; QUOTE])) buf in
      let* v := mopt (LabelSet.value l) in
      let* buf := pr (λ b, strbuf_print_escaped b v marshal_escape BACKSLASH) buf in
      let* buf := pr (λ b, strbuf_print b [QUOTE]) buf in
      format_labels buf ls
  end.

Definition cmd_format_putmetric (buf : strbuf_t) (fam : metric_family_t) (m : metric_t) : M (Z * strbuf_t) :=
  let* buf := pr (λ b, strbuf_print b $"PUTMETRIC ") buf in
  let* buf := match fam_name fam with Some nm => pr (λ b, strbuf_print b nm) buf | None => ret buf end in
  let rest buf :=
    let* buf := if time m =? 0 then ret buf
                else pr (λ b, strbuf_printf b ($" time=" ++ format_fixed3 (Cache.CDTIME_T_TO_DOUBLE (time m)))) buf in
    let* buf := if interval m =? 0 then ret buf
                else pr (λ b, strbuf_printf b ($" interval=" ++ format_fixed3 (Cache.CDTIME_T_TO_DOUBLE (interval m)))) buf in
    let* buf := format_labels buf (label m) in
    let* buf := pr (λ b, strbuf_print b $" ") buf in
    value_marshal_text buf (m_value m) (type fam) in
  match type fam with
  | METRIC_TYPE_UNTYPED => rest buf
  | METRIC_TYPE_COUNTER => let* buf := pr (λ b, strbuf_print b $" type=COUNTER") buf in rest buf
  | METRIC_TYPE_GAUGE => let* buf := pr (λ b, strbuf_print b $" type=GAUGE") buf in rest buf
  | METRIC_TYPE_DISTRIBUTION => ret (EINVAL, buf)
  end.
End format.

(** ** Handlers

    What a handler writes to the client: a status line for every [cmd_error],
    and the texts it prints. *)

Inductive reply : Type :=
  | r_status (st : cmd_status_t)
  | r_text (s : cstr).

Section handlers.
Context `{Sysconf, Strtod, MetaData.FormatGauge, FormatFixed3}.
Context (now : Z) (hostname_g : cstr) (plugin_get_ds : cstr → option data_set_t).

(** Parse, and refuse a command of another type, which [free] says is
    destroyed. *)
Definition handle {A} (want : cmd_type_t) (free : bool) (buffer : list ascii) (err : cmd_status_t → list reply → A)
    (k : cmd_t → M A) : M A :=
  let* '(status, errs, cmd) := cmd_parse now hostname_g plugin_get_ds buffer default_options in
  if negb (bool_decide (status = CMD_OK)) then ret (err status (map r_status errs))
  else
    let* cmd := mopt cmd in
    if negb (bool_decide (ct_type cmd = want)) then
      let* _ := (if free then cmd_destroy cmd else ret tt) in
      ret (err CMD_UNKNOWN_COMMAND [r_status CMD_UNKNOWN_COMMAND])
    else k cmd.

(** The identifier of a flush; [None] is one that is too long. *)
Definition flush_identifier (id : identifier_t) : option cstr :=
  let s := default [] (id_host id) ++ $"/" ++ id_plugin id ++ $"/" ++ id_type id in
  if (1024 <? length s)%nat then None else Some (take 1023 s).

(** The calls of [plugin_flush] (its arguments), with the numbers of successes
    and errors. *)
Definition cmd_handle_flush (plugin_flush : option cstr → Z → option cstr → Z) (buffer : list ascii)
    : M (cmd_status_t * list reply * list (option cstr * Z * option cstr) * (Z * Z)) :=
  handle CMD_FLUSH true buffer (λ st r, (st, r, [], (0, 0))) (λ cmd,
    let* f := mopt (match ct_cmd cmd with u_flush f => Some f | _ => None end) in
    let plugins : list (option cstr) := match fl_plugins f with [] => [None] | l => map Some l end in
    let ids : list (option (option cstr)) :=
      match fl_identifiers f with [] => [Some None] | l => map (λ i, Some <$> flush_identifier i) l end in
    let pairs := concat (map (λ p, map (pair p) ids) plugins) in
    let* timeout := if bool_decide (omap snd pairs = []) then ret 0
                    else mopt (DOUBLE_TO_CDTIME_T (fl_timeout f)) in
    let calls := omap (λ '(p, i), (λ i, (p, timeout, i)) <$> i) pairs in
    let good := Z.of_nat (length (filter (λ '(p, t, i), plugin_flush p t i = 0) calls)) in
    let* _ := cmd_destroy cmd in
    ret (CMD_OK, [r_status CMD_OK], calls, (good, Z.of_nat (length pairs) - good))).

Context {T : Type → Type} `{!KeyedMap cstr T}.

Definition cmd_handle_getval (c : Cache.cache T) (buffer : list ascii)
    : M (cmd_status_t * list reply * Cache.cache T) :=
  handle CMD_GETVAL true buffer (λ st r, (st, r, c)) (λ cmd,
    let* g := mopt (match ct_cmd cmd with u_getval g => Some g | _ => None end) in
    let* m := mopt (hd_error (metric (gv_family g))) in
    let* '(status, value, c) := Cache.uc_get_rate c (gv_family g) m in
    if negb (status =? 0) then
      let* _ := cmd_destroy cmd in ret (CMD_ERROR, [r_status CMD_ERROR], c)
    else
      let* value := mopt value in
      let* _ := cmd_destroy cmd in
      ret (CMD_OK, [r_text $"Value found"; r_text (MetaData.format_gauge value)], c)).

Definition cmd_handle_listval (c : Cache.cache T) (buffer : list ascii)
    : M (cmd_status_t * list reply * Cache.cache T) :=
  handle CMD_LISTVAL false buffer (λ st r, (st, r, c)) (λ cmd,
    let* '(status, names, c) := Cache.uc_get_names c in
    if negb (status =? 0) then ret (CMD_ERROR, [r_status CMD_ERROR], c)
    else
      let names := default [] names in
      let n := length names in
      ret (CMD_OK,
           r_text (decimal (Z.of_nat n) ++ $" Value" ++ (if (n =? 1)%nat then [] else $"s") ++ $" found") ::
           map (λ '(nm, t), r_text (format_fixed3 (Cache.CDTIME_T_TO_DOUBLE t) ++ $" " ++ nm)) names, c)).

(** The value lists given to [plugin_dispatch_values]. *)
Definition cmd_handle_putval (to_stdout : bool) (buffer : list ascii)
    : M (cmd_status_t * list reply * list value_list_t) :=
  handle CMD_PUTVAL true buffer (λ st r, (st, r, [])) (λ cmd,
    let* p := mopt (match ct_cmd cmd with u_putval p => Some p | _ => None end) in
    let sent := map (λ e : value_list_t * bool, if e.2 then set_vl_meta (pv_meta p) e.1 else e.1) (pv_vl p) in
    let* _ := cmd_destroy cmd in
    ret (CMD_OK, if to_stdout then [] else [r_status CMD_OK], sent)).

(** The families given to [plugin_dispatch_metric_family]; the type is
    compared with [CMD_PUTVAL]. *)
Definition cmd_handle_putmetric (to_stdout : bool) (dispatch : metric_family_t → Z) (buffer : list ascii)
    : M (cmd_status_t * list reply * list metric_family_t) :=
  handle CMD_PUTVAL true buffer (λ st r, (st, r, [])) (λ cmd,
    let* fam := mopt (match ct_cmd cmd with u_putmetric fam => Some fam | _ => None end) in
    let status := dispatch fam in
    let* _ := cmd_destroy cmd in
    if negb (status =? 0) then ret (CMD_ERROR, [r_status CMD_ERROR], [fam])
    else ret (CMD_OK, if to_stdout then [] else [r_status CMD_OK], [fam])).
End handlers.

(** ** PUTMETRIC survives printing *)

Section roundtrip.
Context `{Sysconf, Strtod, MetaData.FormatGauge, FormatFixed3}.

Definition stamp_text (nm : cstr) (t : Z) : cstr :=
  if t =? 0 then [] else nm ++ $"=" ++ format_fixed3 (Cache.CDTIME_T_TO_DOUBLE t).
Definition spaced (s : cstr) : cstr := match s with [] => [] | _ => $" " ++ s end.
Definition label_arg (p : cstr * cstr) : arg :=
  {| a_plain := $"label:" ++ p.1 ++ $"=";
     a_quoted := Some (p.2, escape_text marshal_escape BACKSLASH p.2) |}.
Definition putmetric_text (nm : cstr) (t iv : Z) (kv : list (cstr * cstr)) (c : Z) : cstr :=
  $"PUTMETRIC " ++ nm ++ $" type=COUNTER" ++ spaced (stamp_text $"time" t) ++
  spaced (stamp_text $"interval" iv) ++ concat (map (λ p, $" " ++ render (label_arg p)) kv) ++ $" " ++ decimal c.

(** A step that always succeeds and appends [s]. *)
Definition extends (g : strbuf_t → M strbuf_t) (s : cstr) : Prop :=
  ∀ buf, dynamic buf → ∃ b, g buf ⇓ b ∧ dynamic b ∧ text b = text buf ++ s.

Lemma pr_extends f s : appends f s → extends (pr f) s.
Proof.
  intros Hf buf Hb. destruct (Hf buf Hb) as (b & E & Hd & Ht). exists b. split_and!; [|done..].
  by eapply yields_bind; [exact E|].
Qed.
Lemma ret_extends : extends ret [].
Proof. intros b Hb. exists b. split_and!; [done..|by rewrite app_nil_r]. Qed.
Lemma extends_then g k s1 s2 : extends g s1 → appends k s2 → appends (λ b, let* b := g b in k b) (s1 ++ s2).
Proof.
  intros Hg Hk b Hb. destruct (Hg b Hb) as (b1 & E1 & Hb1 & T1). destruct (Hk b1 Hb1) as (b2 & E2 & Hb2 & T2).
  exists b2. split_and!; [by eapply yields_bind|done|by rewrite T2, T1, app_assoc].
Qed.
Lemma extends_seq g k s1 s2 : extends g s1 → extends k s2 → extends (λ b, let* b := g b in k b) (s1 ++ s2).
Proof.
  intros Hg Hk b Hb. destruct (Hg b Hb) as (b1 & E1 & Hb1 & T1). destruct (Hk b1 Hb1) as (b2 & E2 & Hb2 & T2).
  exists b2. split_and!; [by eapply yields_bind|done|by rewrite T2, T1, app_assoc].
Qed.

Lemma format_labels_extends kv :
  extends (λ b, format_labels b (embed kv)) (concat (map (λ p, $" " ++ render (label_arg p)) kv)).
Proof.
  induction kv as [|[k v] kv IH]; [apply ret_extends|]. cbn [embed map format_labels LabelSet.name LabelSet.value concat].
  intros b Hb. cbn [mopt fst snd]. rewrite bind_ret. revert b Hb.
  replace (($" " ++ render (label_arg (k, v))) ++ concat (map (λ p, $" " ++ render (label_arg p)) kv)) with
    (($" label:" ++ k ++ ["="%char; QUOTE]) ++ escape_text marshal_escape BACKSLASH v ++ [QUOTE] ++
     concat (map (λ p, $" " ++ render (label_arg p)) kv))
    by (unfold render; cbn [label_arg a_plain a_quoted fst snd]; change $" label:" with ($" " ++ $"label:");
        change ["="%char; QUOTE] with ($"=" ++ [QUOTE]);
        change (QUOTE :: ?e ++ [QUOTE]) with ([QUOTE] ++ e ++ [QUOTE]); by rewrite <-!app_assoc).
  apply (extends_seq (pr (λ b, strbuf_printf b ($" label:" ++ k ++ ["="%char; QUOTE]))));
    [apply pr_extends, printf_appends|].
  intros b Hb. rewrite bind_ret. revert b Hb.
  apply (extends_seq (pr (λ b, strbuf_print_escaped b v marshal_escape BACKSLASH)));
    [by apply pr_extends, print_escaped_appends|].
  apply (extends_seq (pr (λ b, strbuf_print b [QUOTE]))); [apply pr_extends, print_appends|exact IH].
Qed.

Lemma stamp_extends nm t :
  extends (λ b, if t =? 0 then ret b
                else pr (λ b, strbuf_printf b (($" " ++ nm ++ $"=") ++ format_fixed3 (Cache.CDTIME_T_TO_DOUBLE t))) b)
    (spaced (stamp_text nm t)).
Proof.
  unfold stamp_text. destruct (t =? 0); [apply ret_extends|].
  replace (spaced _) with (($" " ++ nm ++ $"=") ++ format_fixed3 (Cache.CDTIME_T_TO_DOUBLE t)).
  - apply pr_extends, printf_appends.
  - unfold spaced. destruct nm; simpl; by rewrite <-?app_assoc.
Qed.

Lemma format_putmetric_ok fam m nm kv c :
  fam_name fam = Some nm → type fam = METRIC_TYPE_COUNTER → m_value m = v_counter c → label m = embed kv →
  appends (λ b, cmd_format_putmetric b fam m) (putmetric_text nm (time m) (interval m) kv c).
Proof.
  intros Hn Ht Hv Hl. unfold cmd_format_putmetric, putmetric_text. rewrite Hn, Ht, Hv, Hl.
  apply extends_then; [apply pr_extends, print_appends|].
  apply extends_then; [apply pr_extends, print_appends|].
  apply extends_then; [apply pr_extends, print_appends|].
  apply extends_then; [exact (stamp_extends $"time" (time m))|].
  apply extends_then; [exact (stamp_extends $"interval" (interval m))|].
  apply extends_then; [apply format_labels_extends|].
  apply extends_then; [apply pr_extends, print_appends|]. apply printf_appends.
Qed.

(** Arguments separated by single blanks. *)
Fixpoint line_of (l : list arg) : list (arg * cstr) :=
  match l with
  | [] => []
  | [a] => [(a, [])]
  | a :: l => (a, $" ") :: line_of l
  end.
Lemma render_line_of l : render_line (line_of l) = join $" " (map render l).
Proof.
  induction l as [|a [|b l] IH]; [done|by cbn; rewrite !app_nil_r|].
  change (render_line (line_of (a :: b :: l))) with ((render a ++ $" ") ++ render_line (line_of (b :: l))).
  rewrite IH, <-app_assoc. done.
Qed.
Lemma line_of_ok l : Forall arg_ok l → line_ok (line_of l).
Proof.
  induction l as [|a [|b l] IH]; intros Hl; [done|..]; apply Forall_cons_1 in Hl as [Ha Hl].
  - by split_and!; [|constructor|..].
  - split_and!; [done|by repeat constructor|done|by apply IH].
Qed.
Lemma line_of_text l : map (λ p, arg_text p.1) (line_of l) = map arg_text l.
Proof.
  induction l as [|a [|b l] IH]; [done..|].
  change (line_of (a :: b :: l)) with ((a, $" ") :: line_of (b :: l)).
  rewrite (map_cons arg_text), <-IH. done.
Qed.

Definition plain_arg (s : cstr) : arg := {| a_plain := s; a_quoted := None |}.
Definition stamp_args (nm : cstr) (t : Z) : list arg :=
  match stamp_text nm t with [] => [] | s => [plain_arg s] end.
Definition putmetric_args (nm : cstr) (t iv : Z) (kv : list (cstr * cstr)) (c : Z) : list arg :=
  plain_arg $"PUTMETRIC" :: plain_arg nm :: plain_arg $"type=COUNTER" ::
  stamp_args $"time" t ++ stamp_args $"interval" iv ++ map label_arg kv ++ [plain_arg (decimal c)].

Lemma render_plain s : render (plain_arg s) = s.
Proof. apply app_nil_r. Qed.
Lemma stamp_args_text nm t :
  concat (map (λ f, $" " ++ f) (map render (stamp_args nm t))) = spaced (stamp_text nm t).
Proof.
  unfold stamp_args. destruct (stamp_text nm t) as [|x s] eqn:E; [done|]. cbn [map concat].
  by rewrite render_plain, app_nil_r.
Qed.

Lemma putmetric_line nm t iv kv c :
  putmetric_text nm t iv kv c = render_line (line_of (putmetric_args nm t iv kv c)).
Proof.
  rewrite render_line_of. unfold putmetric_args. cbn [map]. rewrite join_cons, !render_plain. cbn [map concat].
  rewrite !map_app, !concat_app, !stamp_args_text, !map_map. cbn [map concat]. rewrite render_plain, app_nil_r.
  unfold putmetric_text. change $"PUTMETRIC " with ($"PUTMETRIC" ++ $" ").
  change $" type=COUNTER" with ($" " ++ $"type=COUNTER"). by rewrite <-!app_assoc.
Qed.

(** The characters of names are harmless. *)
Lemma name_char c : chr_mem VALID_NAME_CHARS c = true → is_key_char c = true ∧ plain_char c.
Proof. unfold plain_char. destruct c as [[] [] [] [] [] [] [] []]; by vm_compute. Qed.
Lemma label_char c : chr_mem VALID_LABEL_CHARS c = true → is_key_char c = true ∧ plain_char c.
Proof. unfold plain_char. destruct c as [[] [] [] [] [] [] [] []]; by vm_compute. Qed.
Lemma digit_char c : isdigit c = true → is_key_char c = true ∧ plain_char c.
Proof. unfold plain_char. destruct c as [[] [] [] [] [] [] [] []]; by vm_compute. Qed.

Lemma parse_option_key k v : k ≠ [] → Forall (λ c, is_key_char c = true) k →
  cmd_parse_option (k ++ "="%char :: v) = (CMD_OK, k, v).
Proof.
  intros Hne Hk. unfold cmd_parse_option. rewrite span_len_app_stop by done.
  rewrite list_lookup_middle, bool_decide_eq_true_2 by done. cbn [negb orb].
  assert ((length k =? 0)%nat = false) as -> by by destruct k.
  rewrite take_app_length, drop_app_ge by lia. by replace (S (length k) - length k)%nat with 1%nat by lia.
Qed.
Lemma parse_option_none s : Forall (λ c, is_key_char c = true) s → cmd_parse_option s = (CMD_NO_OPTION, [], []).
Proof.
  intros Hs. unfold cmd_parse_option. rewrite span_len_all by done. rewrite lookup_ge_None_2 by lia. done.
Qed.

(** A time that can be read back, as [t']. *)
Definition stamp_reads (t t' : Z) : Prop :=
  if t =? 0 then t' = 0
  else
    let s := format_fixed3 (Cache.CDTIME_T_TO_DOUBLE t) in
    ∃ d, Forall plain_char s ∧ strtod s = {| sd_value := d; sd_consumed := length s; sd_errno := false |} ∧
      flt d fzero = false ∧ DOUBLE_TO_CDTIME_T d = Some t'.

(** A label value without the control characters that printing replaces. *)
Definition label_plain (v : cstr) : Prop := Forall (λ c, c ≠ LF ∧ c ≠ CR ∧ c ≠ TAB) v.

Lemma enc_escape v : no_nul v → label_plain v → enc v (escape_text marshal_escape BACKSLASH v).
Proof.
  unfold label_plain, no_nul. induction v as [|c v IH]; intros Hn Hp; [constructor|].
  apply Forall_cons_1 in Hn as [Hc Hn]. apply Forall_cons_1 in Hp as [(Hlf & Hcr & Htab) Hp].
  unfold escape_text. rewrite bind_cons. unfold escape_chr at 1. destruct (chr_mem marshal_escape c) eqn:E; cbn [app].
  - replace (escaped_char BACKSLASH c) with c; [by apply enc_esc; [|apply IH]|].
    unfold escaped_char. change (bool_decide (BACKSLASH = "\"%char)) with true. cbv iota.
    by rewrite !bool_decide_eq_false_2.
  - unfold chr_mem in E. apply bool_decide_eq_false in E.
    unfold marshal_escape in E. rewrite !elem_of_cons in E.
    apply enc_plain; [naive_solver..|by apply IH].
Qed.

Lemma plain_arg_ok s : s ≠ [] → Forall plain_char s → arg_ok (plain_arg s).
Proof. intros Hne Hs. split_and!; [done|done|]. by unfold arg_text; cbn; rewrite app_nil_r. Qed.

Lemma label_arg_ok k v : valid_label k = true → no_nul v → label_plain v → arg_ok (label_arg (k, v)).
Proof.
  intros [Hk0 Hk]%valid_label_chars Hv Hp. split_and!; cbn.
  - repeat (apply Forall_cons_2; [by split_and!|]). apply list.Forall_app; split; [|by repeat constructor].
    eapply list.Forall_impl; [exact Hk|]. intros c. apply label_char.
  - intros q e [= <- <-]. by apply enc_escape.
  - done.
Qed.

Lemma stamp_args_ok (nm : cstr) t t' : nm ≠ [] → Forall plain_char nm → stamp_reads t t' →
  Forall arg_ok (stamp_args nm t).
Proof.
  intros Hne Hnm Ht. unfold stamp_args, stamp_text, stamp_reads in *. destruct (t =? 0); [done|].
  destruct Ht as (d & Hs & _). destruct (nm ++ _) as [|x s] eqn:E; [done|]. rewrite <-E.
  apply Forall_cons_2; [|constructor]. apply plain_arg_ok; [by destruct nm|].
  apply list.Forall_app; split; [done|]. apply Forall_cons_2; [by split_and!|done].
Qed.

(** What the loop does with the arguments. *)
Lemma loop_stamp (nm : cstr) (set : Z → metric_t → metric_t) argv n fam m t t' r :
  (nm = $"time" ∧ set = set_time ∧ time m = 0 ∨ nm = $"interval" ∧ set = set_interval ∧ interval m = 0) →
  stamp_reads t t' →
  putmetric_loop argv n fam (set t' m) ⇓ r →
  putmetric_loop (map arg_text (stamp_args nm t) ++ argv) n fam m ⇓ r.
Proof.
  intros Hnm Ht Hr. unfold stamp_args, stamp_text, stamp_reads in *. destruct (Z.eqb_spec t 0) as [E|E].
  - subst t'. cbn [map app]. by destruct Hnm as [(_ & -> & Hz)|(_ & -> & Hz)], m; cbn in Hz; subst.
  - destruct Ht as (d & Hs & Hd & Hpos & Ht). set (s := format_fixed3 _) in *.
    assert (nm ++ $"=" ++ s ≠ []) as Hne by (by destruct Hnm as [(-> & _)|(-> & _)]).
    destruct (nm ++ $"=" ++ s) as [|x l] eqn:El; [done|]. cbn [map app]. rewrite <-El.
    unfold arg_text. cbn [plain_arg a_plain a_quoted]. rewrite app_nil_r. cbn [putmetric_loop].
    change ($"=" ++ s) with ("="%char :: s).
    destruct Hnm as [(-> & -> & _)|(-> & -> & _)]; rewrite parse_option_key by (done || by repeat constructor).
    1: eapply (yields_bind _ _ (CMD_OK, fam, set_time t' m)); [|exact Hr].
    2: eapply (yields_bind _ _ (CMD_OK, fam, set_interval t' m)); [|exact Hr].
    all: unfold putmetric_set_option; rewrite Hd; cbn [sd_errno sd_consumed sd_value].
    all: rewrite Nat.eqb_refl, Hpos, Ht; done.
Qed.

Lemma loop_labels kv : ∀ acc argv n fam m r, lwf (acc ++ kv) → label m = embed acc →
  putmetric_loop argv n fam (set_label m (embed (acc ++ kv))) ⇓ r →
  putmetric_loop (map arg_text (map label_arg kv) ++ argv) n fam m ⇓ r.
Proof.
  induction kv as [|[k v] kv IH]; intros acc argv n fam m r Hl Hm Hr.
  { rewrite app_nil_r in Hr. destruct m; cbn in *; by subst. }
  cbn [map app putmetric_loop]. rewrite cons_middle, app_assoc in Hl, Hr.
  assert (lwf (acc ++ [(k, v)])) as Hl1.
  { destruct Hl as [Hs Hf']. split; [|by apply list.Forall_app in Hf' as [? _]].
    by apply StronglySorted_app_1_l in Hs. }
  assert (valid_label k = true) as Hk.
  { destruct Hl1 as [_ Hf]. apply list.Forall_app in Hf as [_ Hf]. by apply Forall_cons_1 in Hf as [(? & _) _]. }
  apply valid_label_chars in Hk as [Hk0 Hk].
  replace (arg_text (label_arg (k, v))) with (($"label:" ++ k) ++ "="%char :: v)
    by (unfold arg_text; cbn [label_arg a_plain a_quoted fst snd]; by rewrite <-!app_assoc).
  rewrite parse_option_key; [|done|].
  2: { apply list.Forall_app; split; [by repeat constructor|].
       eapply list.Forall_impl; [exact Hk|]. intros c. apply label_char. }
  assert (putmetric_set_option fam m ($"label:" ++ k) v ⇓ (CMD_OK, fam, set_label m (embed (acc ++ [(k, v)])))) as Ho.
  { unfold putmetric_set_option. cbn [app]. 
    change (strcasecmp $"type" ("l"%char :: ?x) =? 0) with false.
    change (strcasecmp $"interval" ("l"%char :: ?x) =? 0) with false.
    change (strcasecmp $"time" ("l"%char :: ?x) =? 0) with false. cbv iota.
    change (strncasecmp_eq 5 $"label:" ($"label:" ++ k)) with true. cbv iota.
    assert ((length ($"label:" ++ k) =? 5)%nat = false) as -> by done.
    change (drop 6 ($"label:" ++ k)) with (drop 0 k). rewrite drop_0.
    unfold metric_label_set. rewrite Hm.
    eapply yields_bind; [eapply yields_bind; [by apply add_last|apply yields_ret]|]. done. }
  eapply yields_bind; [exact Ho|]. cbv beta iota. rewrite bool_decide_eq_true_2 by done.
  by eapply (IH (acc ++ [(k, v)])).
Qed.

(** The metrics whose commands can be read back. *)
Record putmetric_ok (fam : metric_family_t) (m : metric_t) (nm : cstr) (kv : list (cstr * cstr)) (c t iv : Z) : Prop := {
  po_name : fam_name fam = Some nm;
  po_valid : valid_name nm;
  po_type : type fam = METRIC_TYPE_COUNTER;
  po_value : m_value m = v_counter c;
  po_range : in_u64 c;
  po_labels : label m = embed kv;
  po_lwf : lwf kv;
  po_plain : Forall (λ p, label_plain p.2) kv;
  po_time : stamp_reads (time m) t;
  po_interval : stamp_reads (interval m) iv;
}.

Lemma putmetric_args_ok fam m nm kv c t iv : putmetric_ok fam m nm kv c t iv →
  Forall arg_ok (putmetric_args nm (time m) (interval m) kv c).
Proof.
  intros [_ [Hne Hnm] _ _ [Hc _] _ [_ Hl] Hp Ht Hi]. unfold putmetric_args.
  apply Forall_cons_2; [by apply plain_arg_ok; [|repeat constructor]|].
  apply Forall_cons_2.
  { apply plain_arg_ok; [done|]. eapply list.Forall_impl; [exact Hnm|]. intros x. apply name_char. }
  apply Forall_cons_2; [by apply plain_arg_ok; [|repeat constructor]|].
  apply list.Forall_app; split; [by eapply stamp_args_ok; [|repeat constructor|]|].
  apply list.Forall_app; split; [by eapply stamp_args_ok; [|repeat constructor|]|].
  apply list.Forall_app; split.
  - apply Forall_map. clear -Hl Hp. induction Hl as [|[k v] kv (Hk & _ & Hv) _ IH]; [constructor|].
    apply Forall_cons_1 in Hp as [Hp0 Hp]. apply Forall_cons_2; [by apply label_arg_ok|by apply IH].
  - destruct (decimal_spec c Hc) as (Hd & _ & (d & s & _ & E & _) & _).
    apply Forall_cons_2; [|constructor]. apply plain_arg_ok; [by rewrite E|].
    eapply list.Forall_impl; [exact Hd|]. intros x. apply digit_char.
Qed.

Lemma append_zero fam : metric fam = [] → type fam = METRIC_TYPE_UNTYPED →
  metric_family_metric_append fam zero_metric ⇓ (0, set_metrics fam [zero_metric]).
Proof. intros Hm Ht. unfold metric_family_metric_append. by rewrite Hm, Ht. Qed.

(** The arguments of the command, read back. *)
Lemma parse_putmetric_ok fam m nm kv c t iv : putmetric_ok fam m nm kv c t iv →
  cmd_parse_putmetric (tail (map arg_text (putmetric_args nm (time m) (interval m) kv c))) ⇓
    (CMD_OK, [], Some (mk_family (Some nm) None METRIC_TYPE_COUNTER [mk_metric (embed kv) (v_counter c) t iv None])).
Proof.
  intros [_ [Hne Hnm] _ _ Hc _ Hl _ Ht Hi]. unfold putmetric_args, cmd_parse_putmetric.
  cbn [map tail length]. rewrite length_map, !length_app. cbn [length]. rewrite Nat.ltb_irrefl || idtac.
  assert ((S (S (length (map arg_text (stamp_args $"time" (time m) ++ stamp_args $"interval" (interval m) ++
    map label_arg kv ++ [plain_arg (decimal c)])))) <? 2)%nat = false) as Hlen by (by apply Nat.ltb_ge; lia).
  rewrite length_map, !length_app in Hlen. cbn [length] in Hlen. rewrite Hlen.
  eapply yields_bind; [apply yields_alloc|]. cbn [negb].
  eapply yields_bind; [by apply append_zero|]. cbv beta iota. cbn [Z.eqb negb set_metrics metric hd_error mopt].
  rewrite bind_ret. unfold arg_text at 1 2. cbn [plain_arg a_plain a_quoted]. rewrite !app_nil_r.
  eapply yields_bind; [|].
  { cbn [putmetric_loop]. rewrite parse_option_none.
    2: { eapply list.Forall_impl; [exact Hnm|]. intros x. apply name_char. }
    eapply yields_bind; [apply yields_alloc|]. cbn [negb].
    change (cmd_parse_option $"type=COUNTER") with (CMD_OK, $"type", $"COUNTER"). cbv beta iota.
    eapply (yields_bind _ _ (CMD_OK, mk_family (Some nm) None METRIC_TYPE_COUNTER [zero_metric], zero_metric));
      [by vm_compute|]. cbv beta iota. rewrite bool_decide_eq_true_2 by done.
    rewrite !map_app. eapply (loop_stamp $"time" set_time); [by left|exact Ht|].
    eapply (loop_stamp $"interval" set_interval); [by right|exact Hi|].
    eapply (loop_labels kv []); [done|done|]. cbn [map putmetric_loop].
    unfold arg_text. cbn [plain_arg a_plain a_quoted]. rewrite app_nil_r, parse_option_none.
    2: { destruct Hc as [Hc _]. destruct (decimal_spec c Hc) as (Hd & _).
         eapply list.Forall_impl; [exact Hd|]. intros x. apply digit_char. }
    destruct (reads_counter c Hc) as (_ & _ & [(_ & [=] & _)|(_ & Hpv)]).
    eapply yields_bind; [exact Hpv|]. apply yields_ret. }
  cbv beta iota. rewrite bool_decide_eq_true_2 by done. done.
Qed.

(** C26. Counters survive the text protocol: the command that
    [cmd_format_putmetric] prints for a counter (with any number of labels,
    whose values may hold blanks, quotes and backslashes, but no line breaks or
    tabs, see [putmetric_line_break_lost]) is parsed by [cmd_parse] into a
    family with the same name, type, labels and value, and with the time and
    interval that their texts of three decimals stand for; but
    [cmd_handle_putmetric], which compares the type of the command with
    CMD_PUTVAL, refuses every such command and dispatches nothing. *)
Theorem putmetric_roundtrip now hn get_ds dispatch out fam m nm kv c t iv buf opts rest :
  putmetric_ok fam m nm kv c t iv → dynamic buf → text buf = [] →
  ∃ b, cmd_format_putmetric buf fam m ⇓ (0, b) ∧
  let line := text b ++ NUL :: rest in
  cmd_parse now hn get_ds line opts ⇓ (CMD_OK, [], Some {| ct_type := CMD_PUTMETRIC;
    ct_cmd := u_putmetric (mk_family (Some nm) None METRIC_TYPE_COUNTER
                             [mk_metric (embed kv) (v_counter c) t iv None]) |}) ∧
  cmd_handle_putmetric now hn get_ds out dispatch line ⇓ (CMD_UNKNOWN_COMMAND, [r_status CMD_UNKNOWN_COMMAND], []).
Proof.
  intros Hok Hb Ht0.
  destruct (format_putmetric_ok fam m nm kv c (po_name _ _ _ _ _ _ _ Hok) (po_type _ _ _ _ _ _ _ Hok)
    (po_value _ _ _ _ _ _ _ Hok) (po_labels _ _ _ _ _ _ _ Hok) buf Hb) as (b & Hf & _ & Htb).
  exists b. split; [done|]. rewrite Htb, Ht0. cbn [app]. rewrite putmetric_line. cbv zeta.
  set (line := render_line _ ++ NUL :: rest).
  set (cmd := {| ct_type := CMD_PUTMETRIC; ct_cmd := _ |}).
  assert (∀ opts, cmd_parse now hn get_ds line opts ⇓ (CMD_OK, [], Some cmd)) as Hparse.
  { intros o. unfold cmd_parse.
    eapply yields_bind; [apply (cmd_split_ok [] _ rest); [constructor|by apply line_of_ok, (putmetric_args_ok fam m _ _ _ t iv)]|].
    cbv beta iota. rewrite bool_decide_eq_true_2 by done. rewrite line_of_text.
    pose proof (parse_putmetric_ok fam m nm kv c t iv Hok) as Hp.
    unfold putmetric_args in Hp |- *. cbn [map] in Hp |- *. cbn [tail] in Hp.
    unfold cmd_parsev. change (arg_text (plain_arg $"PUTMETRIC")) with $"PUTMETRIC".
    change (strcasecmp $"FLUSH" $"PUTMETRIC" =? 0) with false. change (strcasecmp $"GETVAL" $"PUTMETRIC" =? 0) with false.
    change (strcasecmp $"LISTVAL" $"PUTMETRIC" =? 0) with false. change (strcasecmp $"PUTVAL" $"PUTMETRIC" =? 0) with false.
    change (strcasecmp $"PUTMETRIC" $"PUTMETRIC" =? 0) with true. cbv iota.
    eapply yields_bind; [exact Hp|]. done. }
  split; [apply Hparse|]. unfold cmd_handle_putmetric, handle.
  eapply yields_bind; [apply Hparse|]. cbv beta iota. rewrite bool_decide_eq_true_2 by done. cbn [negb mopt].
  rewrite bind_ret. cbn [ct_type cmd]. rewrite bool_decide_eq_false_2 by done. cbn [negb].
  eapply (yields_bind _ _ tt); [|done]. cbn [cmd_destroy ct_type ct_cmd cmd]. by eapply free_embed.
Qed.
End roundtrip.

(** Printed times that can be read back: whole seconds. *)
Definition demo_fixed3 : FormatFixed3 := λ d, decimal (default 0 (trunc_Z d)).
Definition demo_page : Sysconf := 4096.
Definition demo_gauge : MetaData.FormatGauge := λ _, $"0".
Definition demo_labels : list (cstr * cstr) := [($"host", $"a b"); ($"path", [BACKSLASH; QUOTE])].
Definition demo_metric : metric_t := mk_metric (embed demo_labels) (v_counter 42) (5 * 2 ^ 30) 0 None.
Definition demo_family : metric_family_t := mk_family (Some $"reqs") None METRIC_TYPE_COUNTER [].

Lemma putmetric_roundtrip_witness :
  let _ := demo_page in let _ := demo_strtod in let _ := demo_gauge in let _ := demo_fixed3 in
  ∃ b, cmd_format_putmetric STRBUF_CREATE demo_family demo_metric ⇓ (0, b) ∧
  let line := text b ++ NUL :: [] in
  cmd_parse 7 $"h" (λ _, None) line default_options ⇓ (CMD_OK, [], Some {| ct_type := CMD_PUTMETRIC;
    ct_cmd := u_putmetric (mk_family (Some $"reqs") None METRIC_TYPE_COUNTER
                             [mk_metric (embed demo_labels) (v_counter 42) (5 * 2 ^ 30) 0 None]) |}) ∧
  cmd_handle_putmetric 7 $"h" (λ _, None) false (λ _, 0) line ⇓
    (CMD_UNKNOWN_COMMAND, [r_status CMD_UNKNOWN_COMMAND], []).
Proof.
  intros p s g f.
  apply (putmetric_roundtrip 7 $"h" (λ _, None) (λ _, 0) false demo_family demo_metric $"reqs" demo_labels 42
    (5 * 2 ^ 30) 0 STRBUF_CREATE default_options []); [|apply dynamic_create|done].
  split; try done.
  - split; [done|]. by repeat constructor.
  - split; [by repeat constructor|]. by repeat constructor.
  - by repeat constructor.
  - exists (of_Z 5). split_and!; [by repeat constructor|by vm_compute..].
Defined.

(** A line break in the value of a label is printed as a backslash and an n,
    and read back as an n. *)
Definition line_break_metric : metric_t := mk_metric (embed [($"host", $"a" ++ LF :: $"b")]) (v_counter 42) (5 * 2 ^ 30) 0 None.
Definition line_break_command :=
  let _ := demo_page in let _ := demo_strtod in let _ := demo_gauge in let _ := demo_fixed3 in
  let* '(_, b) := cmd_format_putmetric STRBUF_CREATE demo_family line_break_metric in
  cmd_parse 7 $"h" (λ _, None) (text b ++ [NUL]) default_options.
Lemma putmetric_line_break_lost : line_break_command ⇓ (CMD_OK, [], Some {| ct_type := CMD_PUTMETRIC;
  ct_cmd := u_putmetric (mk_family (Some $"reqs") None METRIC_TYPE_COUNTER
                           [mk_metric (embed [($"host", $"anb")]) (v_counter 42) (5 * 2 ^ 30) 0 None]) |}).
Proof. by vm_compute. Qed.

(** ** Tags and members *)

Definition cmd_wf (cmd : cmd_t) : Prop :=
  match ct_type cmd, ct_cmd cmd with
  | CMD_UNKNOWN, _ | CMD_LISTVAL, _ | CMD_FLUSH, u_flush _ | CMD_GETVAL, u_getval _
  | CMD_PUTVAL, u_putval _ | CMD_PUTMETRIC, u_putmetric _ => True
  | _, _ => False
  end.

(** Take a run of a computation apart. *)
Lemma bind_inv {A B} (m : M A) (k : A → M B) o b o' :
  bind m k o = Some (b, o') → ∃ a o1, m o = Some (a, o1) ∧ k a o1 = Some (b, o').
Proof. unfold bind. destruct (m o) as [[a o1]|]; [eauto|done]. Qed.

Ltac run_inv :=
  repeat match goal with
  | H : bind _ _ _ = Some _ |- _ => apply bind_inv in H as (? & ? & ? & H)
  | H : ret _ _ = Some _ |- _ => unfold ret in H; simplify_eq
  | H : crash _ = Some _ |- _ => discriminate H
  | H : (match ?x with _ => _ end) _ = Some _ |- _ => destruct x eqn:?
  | H : (match ?x with _ => _ end) = Some _ |- _ => destruct x eqn:?
  end.

Section typed.
Context `{Sysconf, Strtod} (now : Z) (hostname_g : cstr) (plugin_get_ds : cstr → option data_set_t).

Lemma parse_getval_some argv o st errs c o' :
  cmd_parse_getval hostname_g plugin_get_ds argv o = Some ((st, errs, c), o') → st = CMD_OK → is_Some c.
Proof.
  unfold cmd_parse_getval. intros Hr ->. destruct argv as [|a [|]]; run_inv; try congruence; eauto.
Qed.
Lemma parse_putmetric_some argv o st errs c o' :
  cmd_parse_putmetric argv o = Some ((st, errs, c), o') → st = CMD_OK → is_Some c.
Proof.
  unfold cmd_parse_putmetric. intros Hr ->. run_inv; breflect; try congruence; eauto.
Qed.

(** C40. Commands are well typed: whatever line it is given, [cmd_parse]
    leaves a tag that names the member of the union that it has filled in; the
    tag is CMD_UNKNOWN exactly when parsing has failed, so that [cmd_destroy]
    frees nothing then, and without a command (a line that cannot be split)
    there is a status other than CMD_OK. *)
Theorem cmd_parse_typed buffer opts o st errs r o' :
  cmd_parse now hostname_g plugin_get_ds buffer opts o = Some ((st, errs, r), o') →
  match r with
  | Some cmd => cmd_wf cmd ∧ (ct_type cmd = CMD_UNKNOWN ↔ st ≠ CMD_OK)
  | None => st ≠ CMD_OK
  end.
Proof.
  unfold cmd_parse, cmd_parsev. intros Hr. run_inv; breflect; try done.
  all: unfold cmd_wf; cbn [ct_type ct_cmd]; case_bool_decide; simplify_eq; try done.
  all: try (match goal with
    | Hg : cmd_parse_getval _ _ _ _ = Some _ |- _ => destruct (parse_getval_some _ _ _ _ _ _ Hg eq_refl) as [? ->]
    | Hg : cmd_parse_putmetric _ _ = Some _ |- _ => destruct (parse_putmetric_some _ _ _ _ _ _ Hg eq_refl) as [? ->]
    end; split; [done|naive_solver]).
Qed.
End typed.

Lemma cmd_parse_typed_witness :
  let _ := demo_page in let _ := demo_strtod in
  ∃ cmd, cmd_parse 7 $"h" (λ _, None) ($"FLUSH timeout=5" ++ [NUL]) default_options [] = Some ((CMD_OK, [], Some cmd), []) ∧
    cmd_wf cmd ∧ (ct_type cmd = CMD_UNKNOWN ↔ CMD_OK ≠ CMD_OK).
Proof.
  intros p s. eexists. split; [vm_compute; reflexivity|].
  eapply (cmd_parse_typed 7 $"h" (λ _, None) ($"FLUSH timeout=5" ++ [NUL]) default_options [] CMD_OK [] (Some _) []).
  vm_compute. reflexivity.
Defined.

(** ** Two faults of the handlers *)

(** A PUTVAL with meta data and one value list is dispatched, and so is one
    with two value lists and no meta data; but with meta data the two value
    lists share the pointer, and destroying the command frees it twice. *)
Definition demo_sets : cstr → option data_set_t := λ _,
  Some {| Values.set_type := $"cpu"; set_ds := [{| ds_name := $"value"; ds_type := DS_TYPE_DERIVE; ds_min := NAN; ds_max := NAN |}] |}.
Definition demo_putval (s : cstr) : option (cmd_status_t * list reply * nat) :=
  (λ '(st, r, sent, _), (st, r, length sent)) <$>
  cmd_handle_putval (H := demo_page) (H0 := demo_strtod) 7 $"h" demo_sets false (s ++ [NUL]) [].
Lemma putval_meta_freed_twice :
  demo_putval $"PUTVAL h/cpu/cpu meta:k=v N:1" = Some (CMD_OK, [r_status CMD_OK], 1%nat) ∧
  demo_putval $"PUTVAL h/cpu/cpu N:1 N:2" = Some (CMD_OK, [r_status CMD_OK], 2%nat) ∧
  demo_putval $"PUTVAL h/cpu/cpu meta:k=v N:1 N:2" = None.
Proof. split_and!; vm_compute; reflexivity. Qed.

(** A GETVAL whose identifier cannot be parsed is not answered at all. *)
Lemma getval_not_answered `{Sysconf, Strtod, MetaData.FormatGauge} {T : Type → Type} `{!KeyedMap cstr T}
    now hn ds (c : Cache.cache T) a e rest :
  Forall plain_char a → a ≠ [] → parse_legacy_identifier hn ds a ⇓ inl e →
  cmd_handle_getval now hn ds c ($"GETVAL " ++ a ++ NUL :: rest) ⇓ (CMD_PARSE_ERROR, [], c).
Proof.
  intros Ha Hne He. unfold cmd_handle_getval, handle, cmd_parse.
  pose proof (cmd_split_ok [] (line_of [plain_arg $"GETVAL"; plain_arg a]) rest) as Hs.
  rewrite render_line_of, line_of_text in Hs. cbn [map join] in Hs. rewrite !render_plain, <-!app_assoc in Hs.
  eapply yields_bind.
  - eapply yields_bind.
    + apply Hs; [constructor|]. apply line_of_ok. repeat apply Forall_cons_2; [..|constructor];
        apply plain_arg_ok; done || by repeat constructor.
    + cbv beta iota. rewrite bool_decide_eq_true_2 by done. unfold arg_text. cbn [plain_arg a_plain a_quoted].
      rewrite !app_nil_r. unfold cmd_parsev. change (strcasecmp $"FLUSH" $"GETVAL" =? 0) with false.
      change (strcasecmp $"GETVAL" $"GETVAL" =? 0) with true. cbv iota.
      eapply (yields_bind _ _ (CMD_PARSE_ERROR, [], None)); [|apply yields_ret].
      unfold cmd_parse_getval. eapply yields_bind; [exact He|]. done.
  - cbv beta iota. done.
Qed.
