(* ===== verification/OConfig.v ===== *)
(** * Configuration items and options (src/liboconfig/oconfig.c,
      src/daemon/configfile.c)

    The tree of a parsed configuration, its deep copy, the functions that read
    a typed option out of an item ([cf_util_get_*]), and the table of global
    options.  [strtod], [getaddrinfo] and the text of "%lf" are parameters. *)

From Stdlib Require Import ZArith Lia Ascii String SpecFloat.
From stdpp Require Import base numbers option list.
From S2P Require Import Prelude Double CommonStr LabelSet Metric Values.

#[local] Set Warnings "-register-all".

(** ** The tree *)

Inductive oconfig_value_t : Type :=
  | OCONFIG_TYPE_STRING (string : cstr)
  | OCONFIG_TYPE_NUMBER (number : double)
  | OCONFIG_TYPE_BOOLEAN (boolean : bool).

(** [children == NULL] is the empty list. *)
Inductive oconfig_item_t : Type :=
  mk_item { key : cstr; values : list oconfig_value_t; children : list oconfig_item_t }.

Section item_ind.
Context (P : oconfig_item_t → Prop) (Hi : ∀ k vs cs, Forall P cs → P (mk_item k vs cs)).

Fixpoint item_ind (ci : oconfig_item_t) : P ci :=
  match ci with
  | mk_item k vs cs =>
      Hi k vs cs ((fix go cs : Forall P cs :=
        match cs with [] => Forall_nil_2 P | c :: cs => Forall_cons_2 P c cs (item_ind c) (go cs) end) cs)
  end.
End item_ind.

(** The loops of [oconfig_clone] over the values and over the children: they
    stop at the first failing copy. *)
Definition clone_value (v : oconfig_value_t) : M (option oconfig_value_t) :=
  match v with
  | OCONFIG_TYPE_STRING s =>
      let* ok := alloc in ret (if ok : bool then Some (OCONFIG_TYPE_STRING s) else None)
  | v => ret (Some v)
  end.

Fixpoint clone_all {A} (clone : A → M (option A)) (l : list A) : M (option (list A)) :=
  match l with
  | [] => ret (Some [])
  | x :: l =>
      let* y := clone x in
      match y with
      | None => ret None
      | Some y => let* ys := clone_all clone l in ret ((y ::.) <$> ys)
      end
  end.

Definition clone_array {A} (clone : A → M (option A)) (l : list A) : M (option (list A)) :=
  if (length l =? 0)%nat then ret (Some [])
  else let* ok := alloc in if negb ok then ret None else clone_all clone l.

Fixpoint oconfig_clone (ci_orig : oconfig_item_t) : M (option oconfig_item_t) :=
  match ci_orig with
  | mk_item k vs cs =>
      let* ok := alloc in
      if negb ok then ret None else
      let* ok := alloc in
      if negb ok then ret None else
      let* values := clone_array clone_value vs in
      match values with
      | None => ret None
      | Some values =>
          let* children := clone_array oconfig_clone cs in
          ret (match children with Some children => Some (mk_item k values children) | None => None end)
      end
  end.

(** ** Typed options *)

Definition IS_TRUE (s : cstr) : bool :=
  (strcasecmp $"true" s =? 0) || (strcasecmp $"yes" s =? 0) || (strcasecmp $"on" s =? 0).
Definition IS_FALSE (s : cstr) : bool :=
  (strcasecmp $"false" s =? 0) || (strcasecmp $"no" s =? 0) || (strcasecmp $"off" s =? 0).

(** [(int) d] is undefined when the truncated number does not fit. *)
Definition int_of_double (d : double) : M Z :=
  let* z := mopt (trunc_Z d) in
  let* _ := massert ((- 2 ^ 31 <=? z) && (z <? 2 ^ 31)) in ret z.

(** Every function returns its status and the new value of the variable
    behind its result pointer. *)
Definition cf_util_get_string (ci : oconfig_item_t) (ret_string : option cstr) : M (Z * option cstr) :=
  match values ci with
  | [OCONFIG_TYPE_STRING s] =>
      let* ok := alloc in
      if negb ok then ret (-1, ret_string) else ret (0, Some s)
  | _ => ret (-1, ret_string)
  end.

Definition cf_util_get_string_buffer (ci : oconfig_item_t) (buffer : list ascii) : M (Z * list ascii) :=
  if (length buffer <? 1)%nat then ret (EINVAL, buffer)
  else
    match values ci with
    | [OCONFIG_TYPE_STRING s] =>
        let* buffer := CommonStr.strncpy buffer 0 s (length buffer) in
        let* buffer := CommonStr.store buffer (length buffer - 1) [NUL] in
        ret (0, buffer)
    | _ => ret (-1, buffer)
    end.

Definition cf_util_get_int (ci : oconfig_item_t) (ret_value : Z) : M (Z * Z) :=
  match values ci with
  | [OCONFIG_TYPE_NUMBER d] => let* z := int_of_double d in ret (0, z)
  | _ => ret (-1, ret_value)
  end.

Definition cf_util_get_double (ci : oconfig_item_t) (ret_value : double) : Z * double :=
  match values ci with
  | [OCONFIG_TYPE_NUMBER d] => (0, d)
  | _ => (-1, ret_value)
  end.

Definition cf_util_get_boolean (ci : oconfig_item_t) (ret_bool : bool) : Z * bool :=
  match values ci with
  | [OCONFIG_TYPE_BOOLEAN b] => (0, b)
  | [OCONFIG_TYPE_STRING s] =>
      if IS_TRUE s then (0, true) else if IS_FALSE s then (0, false) else (-1, ret_bool)
  | _ => (-1, ret_bool)
  end.

(** [unsigned int] has 32 bits. *)
Definition cf_util_get_flag (ci : oconfig_item_t) (ret_value flag : Z) : Z * Z :=
  let '(status, b) := cf_util_get_boolean ci false in
  if negb (status =? 0) then (status, ret_value)
  else if b then (0, Z.lor ret_value flag) else (0, Z.land ret_value (Z.lxor flag (2 ^ 32 - 1))).

(** [getaddrinfo] for a service: [None] on failure, else the port of every
    address of the list, [None] for an address that is neither IPv4 nor
    IPv6. *)
Class Getaddrinfo : Type := getaddrinfo : cstr → option (list (option Z)).

(** The loop keeps the last port it saw and stops at a positive one. *)
Fixpoint port_loop (service_number : Z) (l : list (option Z)) : Z :=
  match l with
  | [] => service_number
  | a :: l =>
      let service_number := default service_number a in
      if 0 <? service_number then service_number else port_loop service_number l
  end.

Definition service_name_to_port_number `{Getaddrinfo} (service_name : option cstr) : Z :=
  match service_name with
  | None => -1
  | Some service_name =>
      match getaddrinfo service_name with
      | None => -1
      | Some ai_list =>
          let service_number := port_loop (-1) ai_list in
          if 0 <? service_number then service_number else -1
      end
  end.

Definition one_half : double := fdiv (of_Z 1) (of_Z 2).

Definition cf_util_get_port_number `{Getaddrinfo} (ci : oconfig_item_t) : M Z :=
  match values ci with
  | [OCONFIG_TYPE_STRING s] => ret (service_name_to_port_number (Some s))
  | [OCONFIG_TYPE_NUMBER d] =>
      let* tmp := int_of_double (fadd d one_half) in
      if (tmp <? 1) || (65535 <? tmp) then ret (-1) else ret tmp
  | _ => ret (-1)
  end.

Definition cf_util_get_service (ci : oconfig_item_t) (ret_string : option cstr) : M (Z * option cstr) :=
  if negb (length (values ci) =? 1)%nat then ret (-1, ret_string)
  else
    match values ci with
    | [OCONFIG_TYPE_STRING _] => cf_util_get_string ci ret_string
    | _ =>
        let* '(status, port) := cf_util_get_int ci 0 in
        if negb (status =? 0) then ret (status, ret_string)
        else if (port <? 1) || (65535 <? port) then ret (-1, ret_string)
        else
          let* ok := alloc in
          if negb ok then ret (-1, ret_string)
          else
            let* '(_, service) := CommonStr.snprintf (replicate 6 NUL) 0 6 (decimal_signed port) in
            let* n := CommonStr.strlen service in
            ret (0, Some (take n service))
    end.

Definition cf_util_get_cdtime (ci : oconfig_item_t) (ret_value : Z) : M (Z * Z) :=
  match values ci with
  | [OCONFIG_TYPE_NUMBER d] =>
      if flt d fzero then ret (-1, ret_value)
      else let* t := mopt (DOUBLE_TO_CDTIME_T d) in ret (0, t)
  | _ => ret (-1, ret_value)
  end.

Definition cf_util_get_label (ci : oconfig_item_t) (labels : label_set_t) : M (Z * label_set_t) :=
  match values ci with
  | [OCONFIG_TYPE_STRING nm; OCONFIG_TYPE_STRING v] => label_set_create labels nm v
  | _ => ret (-1, labels)
  end.

Definition cf_util_get_metric_type (ci : oconfig_item_t) (ret_metric : metric_type_t) : Z * metric_type_t :=
  match values ci with
  | [OCONFIG_TYPE_STRING s] =>
      if strcasecmp s $"gauge" =? 0 then (0, METRIC_TYPE_GAUGE)
      else if strcasecmp s $"untyped" =? 0 then (0, METRIC_TYPE_UNTYPED)
      else if strcasecmp s $"counter" =? 0 then (0, METRIC_TYPE_COUNTER)
      else (-1, ret_metric)
  | _ => (-1, ret_metric)
  end.

Definition NOTIF_FAILURE : Z := 1.
Definition NOTIF_WARNING : Z := 2.
Definition NOTIF_OKAY : Z := 4.

Definition cf_util_get_severity (ci : oconfig_item_t) (ret_severity : Z) : Z * Z :=
  match values ci with
  | [OCONFIG_TYPE_STRING s] =>
      if strcasecmp $"OK" s =? 0 then (0, NOTIF_OKAY)
      else if strcasecmp $"WARNING" s =? 0 then (0, NOTIF_WARNING)
      else if strcasecmp $"FAILURE" s =? 0 then (0, NOTIF_FAILURE)
      else (-1, ret_severity)
  | _ => (-1, ret_severity)
  end.

(** ** Global options *)

Record cf_global_option_t : Type := mk_option {
  go_key : cstr;
  go_value : option cstr;
  go_from_cli : bool;
  go_def : option cstr;
}.

(** The two paths are fixed when the program is built. *)
Definition cf_global_options (PKGLOCALSTATEDIR PIDFILE : cstr) : list cf_global_option_t :=
  [ mk_option $"BaseDir" None false (Some PKGLOCALSTATEDIR);
    mk_option $"PIDFile" None false (Some PIDFILE);
    mk_option $"Hostname" None false None;
    mk_option $"FQDNLookup" None false (Some $"true");
    mk_option $"Interval" None false None;
    mk_option $"ReadThreads" None false (Some $"5");
    mk_option $"WriteThreads" None false (Some $"5");
    mk_option $"WriteQueueLimitHigh" None false None;
    mk_option $"WriteQueueLimitLow" None false None;
    mk_option $"Timeout" None false (Some $"2");
    mk_option $"AutoLoadPlugin" None false (Some $"false");
    mk_option $"CollectInternalStats" None false (Some $"false");
    mk_option $"PreCacheChain" None false (Some $"PreCache");
    mk_option $"PostCacheChain" None false (Some $"PostCache");
    mk_option $"MaxReadInterval" None false (Some $"86400") ].

Abbreviation options := (list cf_global_option_t).

(** [for (i = 0; i < num; i++) if (strcasecmp (key, option) == 0) break;] *)
Fixpoint find_option (opts : options) (opt : cstr) : nat :=
  match opts with
  | [] => 0
  | o :: opts => if strcasecmp (go_key o) opt =? 0 then 0 else S (find_option opts opt)
  end.

Definition global_option_set (opts : options) (opt : cstr) (value : option cstr) (from_cli : bool) :
    M (Z * options) :=
  match opts !! find_option opts opt with
  | None => ret (-1, opts)
  | Some o =>
      if go_from_cli o && negb from_cli then ret (0, opts)
      else
        let* v :=
          match value with
          | Some s => let* ok := alloc in ret (if ok : bool then Some s else None)
          | None => ret None
          end in
        ret (0, <[find_option opts opt := mk_option (go_key o) v from_cli (go_def o)]> opts)
  end.

Definition option_text (o : cf_global_option_t) : option cstr :=
  match go_value o with Some v => Some v | None => go_def o end.

Definition global_option_get (opts : options) (opt : cstr) : option cstr :=
  match opts !! find_option opts opt with Some o => option_text o | None => None end.

(** [strtol] with base 0; [long] has 64 bits. *)
Definition global_option_get_long (opts : options) (opt : cstr) (default_value : Z) : Z :=
  match global_option_get opts opt with
  | None => default_value
  | Some str => let r := strtoll str in if st_erange r then default_value else st_value r
  end.

Definition global_option_get_time `{Strtod} (opts : options) (name : cstr) (def : Z) : M Z :=
  match global_option_get opts name with
  | None => ret def
  | Some optstr =>
      let r := strtod optstr in
      if negb (sd_consumed r =? length optstr)%nat || sd_errno r then ret def
      else if fle (sd_value r) fzero then ret def
      else mopt (DOUBLE_TO_CDTIME_T (sd_value r))
  end.

Definition COLLECTD_DEFAULT_INTERVAL : double := of_Z 10.

Definition cf_get_default_interval `{Strtod} (opts : options) : M Z :=
  let* def := mopt (DOUBLE_TO_CDTIME_T COLLECTD_DEFAULT_INTERVAL) in
  global_option_get_time opts $"Interval" def.

(** "%lf" *)
Class FormatDouble : Type := format_lf : double → cstr.

(** [ssnprintf (tmp, 128, "%lf", ...)]: the text is cut at 127 bytes. *)
Definition dispatch_global_option `{FormatDouble} (opts : options) (ci : oconfig_item_t) : M (Z * options) :=
  match values ci with
  | [OCONFIG_TYPE_STRING s] => global_option_set opts (key ci) (Some s) false
  | [OCONFIG_TYPE_NUMBER d] => global_option_set opts (key ci) (Some (take 127 (format_lf d))) false
  | [OCONFIG_TYPE_BOOLEAN b] =>
      global_option_set opts (key ci) (Some (if b then $"true" else $"false")) false
  | _ => ret (-1, opts)
  end.

(** ** Theorems *)

(** *** Copies *)

Lemma clone_all_spec {A} (clone : A → M (option A)) l :
  Forall (λ x, wp (clone x) (λ y, y = None ∨ y = Some x)) l →
  wp (clone_all clone l) (λ ys, ys = None ∨ ys = Some l).
Proof.
  induction 1 as [|x l Hx _ IH]; simpl; [by apply wp_ret; right|].
  apply wp_bind. eapply wp_mono; [exact Hx|]. intros y [->| ->]; [by apply wp_ret; left|].
  apply wp_bind. eapply wp_mono; [exact IH|]. intros ys [->| ->]; apply wp_ret; [by left|by right].
Qed.

Lemma clone_array_spec {A} (clone : A → M (option A)) l :
  Forall (λ x, wp (clone x) (λ y, y = None ∨ y = Some x)) l →
  wp (clone_array clone l) (λ ys, ys = None ∨ ys = Some l).
Proof.
  intros H. unfold clone_array. destruct (Nat.eqb_spec (length l) 0) as [E|_].
  { apply nil_length_inv in E as ->. apply wp_ret. by right. }
  apply wp_bind, wp_alloc. intros []; simpl; [by apply clone_all_spec|apply wp_ret; by left].
Qed.

Lemma clone_value_spec v : wp (clone_value v) (λ y, y = None ∨ y = Some v).
Proof. destruct v; simpl; try (apply wp_ret; by right). wp_go; [by right|by left]. Qed.

Lemma clone_array_yields {A} (clone : A → M (option A)) l :
  Forall (λ x, clone x ⇓ Some x) l → clone_array clone l ⇓ Some l.
Proof.
  intros H. unfold clone_array. destruct (Nat.eqb_spec (length l) 0) as [E|_].
  { by apply nil_length_inv in E as ->. }
  eapply yields_bind; [apply yields_alloc|]. simpl.
  induction H as [|x l Hx _ IH]; simpl; [done|]. eapply yields_bind; [exact Hx|].
  simpl. eapply yields_bind; [exact IH|done].
Qed.

(** A copy of a configuration tree is the same tree when memory is
    available; otherwise the answer is NULL or the whole tree, never a part. *)
Theorem oconfig_clone_spec ci :
  oconfig_clone ci ⇓ Some ci ∧ wp (oconfig_clone ci) (λ r, r = None ∨ r = Some ci).
Proof.
  induction ci as [k vs cs IH] using item_ind. cbn [oconfig_clone].
  assert (Forall (λ c, oconfig_clone c ⇓ Some c) cs) as Hy by (eapply list.Forall_impl; [exact IH|by intros ? []]).
  assert (Forall (λ c, wp (oconfig_clone c) (λ r, r = None ∨ r = Some c)) cs) as Hw
    by (eapply list.Forall_impl; [exact IH|by intros ? []]).
  split.
  - do 2 (eapply yields_bind; [apply yields_alloc|]; cbn [negb]).
    eapply yields_bind; [apply clone_array_yields, list.Forall_true; by intros []|]. simpl.
    eapply yields_bind; [by apply clone_array_yields|done].
  - do 2 (apply wp_bind, wp_alloc; intros []; cbn [negb]; [|by apply wp_ret; left]).
    apply wp_bind. eapply wp_mono; [apply clone_array_spec, list.Forall_true, clone_value_spec|].
    intros values [->| ->]; [by apply wp_ret; left|].
    apply wp_bind. eapply wp_mono; [by apply clone_array_spec|].
    intros cs' [->| ->]; apply wp_ret; [by left|by right].
Qed.

(** *** Ports *)

Lemma port_loop_bound l n :
  Forall (λ a, default 0 a ≤ 65535) l → n ≤ 65535 → port_loop n l ≤ 65535.
Proof.
  intros H. revert n. induction H as [|a l Ha _ IH]; intros n Hn; simpl; [done|].
  destruct a as [p|]; simpl in *; case_match; auto.
Qed.

(** [cf_util_get_port_number] answers a port between 1 and 65535 or a
    negative number, whatever the option holds, as long as a numeric argument
    fits an [int] when rounded; a number is rounded to the nearest port. *)
Theorem cf_util_get_port_number_spec `{Getaddrinfo} ci :
  (∀ s l, getaddrinfo s = Some l → Forall (λ a, default 0 a ≤ 65535) l) →
  (∀ d, values ci = [OCONFIG_TYPE_NUMBER d] →
        ∃ z, trunc_Z (fadd d one_half) = Some z ∧ - 2 ^ 31 ≤ z < 2 ^ 31) →
  wp (cf_util_get_port_number ci) (λ r,
    (r = -1 ∨ 1 ≤ r ≤ 65535) ∧
    ∀ d z, values ci = [OCONFIG_TYPE_NUMBER d] → trunc_Z (fadd d one_half) = Some z →
      r = if decide (1 ≤ z ≤ 65535) then z else -1).
Proof.
  intros Hg Hd. unfold cf_util_get_port_number. destruct (values ci) as [|[s|d|b] [|]]; try (apply wp_ret; split; [by left|done]).
  - apply wp_ret. split; [|done]. simpl. destruct (getaddrinfo s) as [l|] eqn:E; [|by left].
    pose proof (port_loop_bound l (-1) (Hg _ _ E)) as Hb. case_match; breflect; [right|by left]. lia.
  - destruct (Hd d eq_refl) as (z & Ez & Hz). unfold int_of_double.
    do 2 apply wp_bind. apply wp_mopt with z; [done|].
    apply wp_bind, wp_massert. { apply andb_true_iff. split; [apply Z.leb_le|apply Z.ltb_lt]; lia. }
    apply wp_ret.
    assert (∀ r, r = (if decide (1 ≤ z ≤ 65535) then z else -1) →
      (r = -1 ∨ 1 ≤ r ≤ 65535) ∧ ∀ d0 z0, [OCONFIG_TYPE_NUMBER d] = [OCONFIG_TYPE_NUMBER d0] →
        trunc_Z (fadd d0 one_half) = Some z0 → r = if decide (1 ≤ z0 ≤ 65535) then z0 else -1) as Hr.
    { intros r ->. split; [case_decide; auto|]. intros d0 z0 [= <-]. rewrite Ez. by intros [= <-]. }
    destruct (Z.ltb_spec z 1), (Z.ltb_spec 65535 z); simpl; apply wp_ret, Hr; case_decide; lia.
Qed.

Definition demo_getaddrinfo : Getaddrinfo := λ s,
  if strcmp s $"https" =? 0 then Some [None; Some 443; Some 443] else None.

Lemma cf_util_get_port_number_spec_witness :
  let _ := demo_getaddrinfo in
  wp (cf_util_get_port_number (mk_item $"Port" [OCONFIG_TYPE_NUMBER (of_Z 25826)] [])) (λ r,
    (r = -1 ∨ 1 ≤ r ≤ 65535) ∧
    ∀ d z, [OCONFIG_TYPE_NUMBER (of_Z 25826)] = [OCONFIG_TYPE_NUMBER d] → trunc_Z (fadd d one_half) = Some z →
      r = if decide (1 ≤ z ≤ 65535) then z else -1).
Proof.
  intros Hg. apply (@cf_util_get_port_number_spec Hg).
  - unfold getaddrinfo, Hg, demo_getaddrinfo. intros s l. case_match; [|done]. intros [= <-].
    repeat constructor; simpl; lia.
  - simpl. intros d [= <-]. exists 25826. split; [by vm_compute|lia].
Defined.

(** *** Precedence of global options *)

Lemma strcasecmp_eq a b : strcasecmp a b = 0 ↔ map tolower a = map tolower b.
Proof. apply strcmp_eq. Qed.

Definition same_name (a b : cstr) : Prop := map tolower a = map tolower b.
#[export] Instance same_name_dec a b : Decision (same_name a b).
Proof. unfold same_name. apply _. Defined.

Lemma find_option_at opts k o : opts !! find_option opts k = Some o → same_name (go_key o) k.
Proof.
  induction opts as [|o' opts IH]; simpl; [done|]. destruct (Z.eqb_spec (strcasecmp (go_key o') k) 0) as [E|_].
  - simpl. intros [= <-]. by apply strcasecmp_eq.
  - apply IH.
Qed.

Lemma find_option_same opts k k' : same_name k k' → find_option opts k = find_option opts k'.
Proof.
  intros H. induction opts as [|o opts IH]; simpl; [done|]. unfold strcasecmp.
  by rewrite H, IH.
Qed.

Lemma find_option_keys opts opts' k : map go_key opts = map go_key opts' → find_option opts k = find_option opts' k.
Proof.
  revert opts'. induction opts as [|o opts IH]; intros [|o' opts']; simpl; try done.
  intros [= -> E]. by rewrite (IH _ E).
Qed.

Definition setting : Type := cstr * option cstr * bool.

Fixpoint run_settings (opts : options) (l : list setting) : M options :=
  match l with
  | [] => ret opts
  | (k, v, cli) :: l => let* '(_, opts) := global_option_set opts k v cli in run_settings opts l
  end.

(** What one setting makes of the option it names. *)
Definition set_one (o : cf_global_option_t) (s : setting) : cf_global_option_t :=
  if go_from_cli o && negb s.2 then o else mk_option (go_key o) s.1.2 s.2 (go_def o).

Lemma global_option_set_yields opts k v cli :
  global_option_set opts k v cli ⇓
    (if decide (find_option opts k < length opts)%nat then 0 else -1,
     alter (λ o, set_one o (k, v, cli)) (find_option opts k) opts).
Proof.
  unfold global_option_set. destruct (opts !! find_option opts k) as [o|] eqn:E.
  - pose proof (lookup_lt_Some _ _ _ E). rewrite decide_True by done.
    assert (alter (λ o, set_one o (k, v, cli)) (find_option opts k) opts
            = <[find_option opts k := set_one o (k, v, cli)]> opts) as ->.
    { apply list_eq. intros j. destruct (decide (j = find_option opts k)) as [->|Hj].
      - by rewrite list_lookup_alter_eq, E, list_lookup_insert_eq.
      - by rewrite list_lookup_alter_ne, list_lookup_insert_ne by done. }
    unfold set_one. simpl. destruct (go_from_cli o && negb cli).
    { by rewrite list_insert_id. }
    destruct v; [|done]. eapply yields_bind; [by eapply yields_bind; [apply yields_alloc|]|done].
  - apply lookup_ge_None in E as Hlen. rewrite decide_False by lia.
    replace (alter _ _ opts) with opts; [done|]. symmetry.
    apply list_eq. intros j. destruct (decide (j = find_option opts k)) as [->|Hj].
    + by rewrite list_lookup_alter_eq, E.
    + by rewrite list_lookup_alter_ne.
Qed.

Lemma map_key_alter opts i s : map go_key (alter (λ o, set_one o s) i opts) = map go_key opts.
Proof.
  revert i. induction opts as [|o opts IH]; intros [|i]; simpl; [done..| |by rewrite <-(IH i)].
  unfold set_one. by case_match.
Qed.

Definition names (k : cstr) (s : setting) : Prop := same_name s.1.1 k.
#[export] Instance names_dec k s : Decision (names k s).
Proof. unfold names. apply _. Defined.

Lemma run_settings_yields k l : ∀ opts o, opts !! find_option opts k = Some o →
  ∃ opts', run_settings opts l ⇓ opts' ∧
    opts' !! find_option opts' k = Some (fold_left set_one (filter (names k) l) o).
Proof.
  induction l as [|[[k' v] cli] l IH]; intros opts o Ho; [by exists opts|].
  set (opts1 := alter (λ o, set_one o (k', v, cli)) (find_option opts k') opts).
  assert (find_option opts1 k = find_option opts k) as Hf by apply find_option_keys, map_key_alter.
  destruct (IH opts1 (if decide (names k (k', v, cli)) then set_one o (k', v, cli) else o)) as (opts' & Hr & Hl).
  - rewrite Hf. unfold opts1. case_decide as Hn.
    + rewrite (find_option_same _ _ _ Hn), list_lookup_alter_eq, Ho. done.
    + rewrite list_lookup_alter_ne; [done|]. intros E. apply Hn. unfold names. simpl.
      apply find_option_at in Ho as H1. rewrite <-E in Ho. apply find_option_at in Ho.
      unfold same_name in *. congruence.
  - exists opts'. split.
    + simpl. eapply yields_bind; [apply global_option_set_yields|]. exact Hr.
    + rewrite Hl, filter_cons. by case_decide.
Qed.

Definition by_cli (s : setting) : Prop := s.2 = true.
#[export] Instance by_cli_dec s : Decision (by_cli s).
Proof. unfold by_cli. apply _. Defined.

(** The setting that counts: the last one of the command line if there is
    one, otherwise the last one. *)
Definition last_setting (l : list setting) : option setting :=
  match last (filter by_cli l) with Some s => Some s | None => last l end.

Definition effective (l : list setting) (o : cf_global_option_t) : option cstr :=
  match last_setting l with Some (_, Some v, _) => Some v | _ => go_def o end.

Lemma fold_set_one l o : go_value o = None → go_from_cli o = false →
  option_text (fold_left set_one l o) = effective l o ∧
  go_def (fold_left set_one l o) = go_def o ∧
  go_from_cli (fold_left set_one l o) = bool_decide (filter by_cli l ≠ []).
Proof.
  intros Hv Hc. induction l as [|[[k v] cli] l IH] using rev_ind.
  { unfold option_text, effective. simpl. rewrite Hv, Hc. done. }
  destruct IH as (Ht & Hd & Hcli). rewrite fold_left_app. cbn [fold_left].
  set (o' := fold_left set_one l o) in *. unfold set_one, effective, last_setting.
  rewrite !filter_app, !filter_cons, !filter_nil, Hcli. cbn [snd fst].
  destruct cli; cbn [negb andb].
  - rewrite andb_false_r, !decide_True, !last_snoc by done. unfold option_text. cbn [go_value go_def go_from_cli].
    rewrite Hd. split_and!; [by destruct v|done|]. rewrite bool_decide_eq_true_2; [done|]. by intros [_ ?]%app_nil.
  - rewrite andb_true_r, !decide_False, !app_nil_r, last_snoc by done. case_bool_decide as Hne.
    + split_and!; [|done|done].
      rewrite Ht. unfold effective, last_setting.
      destruct (last (filter by_cli l)) as [x|] eqn:Ef; [done|].
      by apply last_None in Ef.
    + rewrite Hne. unfold option_text. cbn [go_value go_def go_from_cli last].
      rewrite Hd. split_and!; [by destruct v|done|done].
Qed.

(** Whatever settings are made, in whatever order and with names in
    whatever case, a global option reads as the last value the command line
    gave it; when the command line gave none, as the last value of the
    configuration; otherwise as its default.  An unknown option reads as
    NULL. *)
Theorem global_option_precedence dir pid l k :
  let table := cf_global_options dir pid in
  ∃ opts, run_settings table l ⇓ opts ∧
    global_option_get opts k =
      match table !! find_option table k with
      | Some o => effective (filter (names k) l) o
      | None => None
      end.
Proof.
  intros table. destruct (table !! find_option table k) as [o|] eqn:Ho.
  - destruct (run_settings_yields k l table o Ho) as (opts & Hr & Hl). exists opts. split; [done|].
    unfold global_option_get. rewrite Hl. apply fold_set_one.
    all: apply list_elem_of_lookup_2 in Ho; revert Ho; unfold table, cf_global_options;
      rewrite !elem_of_cons, elem_of_nil; intros Ho; destruct_or!; by subst.
  - clearbody table.
    enough (∃ opts, run_settings table l ⇓ opts ∧ map go_key opts = map go_key table) as (opts & Hr & Hk).
    { exists opts. split; [done|]. unfold global_option_get. rewrite (find_option_keys _ _ _ Hk).
      apply lookup_ge_None in Ho. rewrite (lookup_ge_None_2 opts); [done|].
      apply (f_equal length) in Hk. rewrite !length_map in Hk. lia. }
    clear Ho. revert table. induction l as [|[[k' v] cli] l IH]; intros table; [by exists table|].
    destruct (IH (alter (λ o, set_one o (k', v, cli)) (find_option table k') table)) as (opts & Hr & Hk).
    exists opts. split; [|by rewrite Hk, map_key_alter].
    simpl. eapply yields_bind; [apply global_option_set_yields|exact Hr].
Qed.
