(* ===== verification/FilterChain.v ===== *)
(** * Filter chains (src/daemon/filter_chain.c)

    A chain is a list of rules and of default targets; the chains form a
    linked list in an explicit memory ([LList]), because a failing
    configuration frees a chain that may still be linked.  Matches and targets
    of plugins are functions on the rest of the daemon's state [W]; [D] is
    their user data.  [plugin_write] and [plugin_load] are parameters here;
    Process.v and ConfigFile.v supply them.  Log messages, and with them the
    complaint counters of the write target, are left out. *)

From Stdlib Require Import ZArith Lia Ascii String.
From stdpp Require Import base gmap numbers option fin_maps fin_map_dom list.
From S2P Require Import Prelude LList Metric OConfig.

Definition DATA_MAX_NAME_LEN : nat := 128.
(** [sstrncpy (dest, src, sizeof (dest))] into a name of a structure. *)
Definition copy_name (s : cstr) : cstr := take (DATA_MAX_NAME_LEN - 1) s.

Definition FC_MATCH_NO_MATCH : Z := 0.
Definition FC_MATCH_MATCHES : Z := 1.
Definition FC_TARGET_CONTINUE : Z := 0.
Definition FC_TARGET_STOP : Z := 1.
Definition FC_TARGET_RETURN : Z := 2.

Section types.
Context (W D : Type).

(** What [user_data] points to: the name of a chain (jump), the names of
    write plugins (write), or the data of a plugin. *)
Inductive user_data : Type :=
  | ud_chain (chain_name : cstr)
  | ud_writers (plugin_list : list cstr)
  | ud_plugin (d : D).

Definition create_t : Type := oconfig_item_t → W → M (Z * option user_data * W).
Definition destroy_t : Type := option user_data → W → M W.

Record match_proc_t : Type := mk_match_proc {
  mp_create : option create_t;
  mp_destroy : option destroy_t;
  mp_match : metric_family_t → option user_data → W → M (Z * W);
}.

Inductive invoke_t : Type :=
  | bit_jump_invoke
  | bit_stop_invoke
  | bit_return_invoke
  | bit_write_invoke
  | plugin_invoke (f : metric_family_t → option user_data → W → M (Z * metric_family_t * W)).

Record target_proc_t : Type := mk_target_proc {
  tp_create : option create_t;
  tp_destroy : option destroy_t;
  tp_invoke : invoke_t;
}.

Record fc_match_t : Type := mk_match { m_name : cstr; m_proc : match_proc_t; m_user_data : option user_data }.
Record fc_target_t : Type := mk_target { t_name : cstr; t_proc : target_proc_t; t_user_data : option user_data }.
Record fc_rule_t : Type := mk_rule { r_name : cstr; r_matches : list fc_match_t; r_targets : list fc_target_t }.
Record fc_chain_t : Type := mk_chain { c_name : cstr; c_rules : list fc_rule_t; c_targets : list fc_target_t }.

(** The static variables of the file. *)
Record fc_state : Type := mk_fc {
  match_list_head : list fc_match_t;
  target_list_head : list fc_target_t;
  chains : mem fc_chain_t;
  chain_list_head : option ptr;
  fc_done : bool;
}.
End types.

Arguments ud_chain {_} _.
Arguments ud_writers {_} _.
Arguments ud_plugin {_} _.
Arguments mk_match_proc {_ _} _ _ _.
Arguments mp_create {_ _} _.
Arguments mp_destroy {_ _} _.
Arguments mp_match {_ _} _ _ _ _.
Arguments bit_jump_invoke {_ _}.
Arguments bit_stop_invoke {_ _}.
Arguments bit_return_invoke {_ _}.
Arguments bit_write_invoke {_ _}.
Arguments plugin_invoke {_ _} _.
Arguments mk_target_proc {_ _} _ _ _.
Arguments tp_create {_ _} _.
Arguments tp_destroy {_ _} _.
Arguments tp_invoke {_ _} _.
Arguments mk_match {_ _} _ _ _.
Arguments m_name {_ _} _.
Arguments m_proc {_ _} _.
Arguments m_user_data {_ _} _.
Arguments mk_target {_ _} _ _ _.
Arguments t_name {_ _} _.
Arguments t_proc {_ _} _.
Arguments t_user_data {_ _} _.
Arguments mk_rule {_ _} _ _ _.
Arguments r_name {_ _} _.
Arguments r_matches {_ _} _.
Arguments r_targets {_ _} _.
Arguments mk_chain {_ _} _ _ _.
Arguments c_name {_ _} _.
Arguments c_rules {_ _} _.
Arguments c_targets {_ _} _.
Arguments mk_fc {_ _} _ _ _ _ _.
Arguments match_list_head {_ _} _.
Arguments target_list_head {_ _} _.
Arguments chains {_ _} _.
Arguments chain_list_head {_ _} _.
Arguments fc_done {_ _} _.

Section fc.
Context {W D : Type}.
Abbreviation fc_state := (fc_state W D).
Abbreviation fc_match_t := (fc_match_t W D).
Abbreviation fc_target_t := (fc_target_t W D).
Abbreviation fc_rule_t := (fc_rule_t W D).
Abbreviation fc_chain_t := (fc_chain_t W D).
Abbreviation user_data := (user_data D).
Implicit Types (fc : fc_state) (w : W) (fam : metric_family_t).

Definition set_matches fc l : fc_state :=
  mk_fc l (target_list_head fc) (chains fc) (chain_list_head fc) (fc_done fc).
Definition set_targets fc l : fc_state :=
  mk_fc (match_list_head fc) l (chains fc) (chain_list_head fc) (fc_done fc).
Definition set_chains fc m head : fc_state :=
  mk_fc (match_list_head fc) (target_list_head fc) m head (fc_done fc).
Definition set_done fc : fc_state :=
  mk_fc (match_list_head fc) (target_list_head fc) (chains fc) (chain_list_head fc) true.

(** ** Freeing: the destroy functions run from the front of each list. *)

Fixpoint fc_free_matches (ms : list fc_match_t) w : M W :=
  match ms with
  | [] => ret w
  | m :: ms =>
      let* w := match mp_destroy (m_proc m) with Some destroy => destroy (m_user_data m) w | None => ret w end in
      fc_free_matches ms w
  end.

Fixpoint fc_free_targets (ts : list fc_target_t) w : M W :=
  match ts with
  | [] => ret w
  | t :: ts =>
      let* w := match tp_destroy (t_proc t) with Some destroy => destroy (t_user_data t) w | None => ret w end in
      fc_free_targets ts w
  end.

Fixpoint fc_free_rules (rs : list fc_rule_t) w : M W :=
  match rs with
  | [] => ret w
  | r :: rs =>
      let* w := fc_free_matches (r_matches r) w in
      let* w := fc_free_targets (r_targets r) w in
      fc_free_rules rs w
  end.

Fixpoint fc_free_chains_loop (fuel : nat) (m : mem fc_chain_t) (c : option ptr) w : M (mem fc_chain_t * W) :=
  match c with
  | None => ret (m, w)
  | Some a =>
      match fuel with
      | O => crash
      | S fuel =>
          let* n := mopt (m !! a) in
          let* w := fc_free_rules (c_rules (payload n)) w in
          let* w := fc_free_targets (c_targets (payload n)) w in
          let* '(m, w) := fc_free_chains_loop fuel m (next n) w in
          let* m := mopt (node_free m a) in
          ret (m, w)
      end
  end.

Definition fc_free_chains (m : mem fc_chain_t) (c : option ptr) w : M (mem fc_chain_t * W) :=
  fc_free_chains_loop (traversal m) m c w.

(** ** Registration *)

Definition fc_register_match fc (name : cstr) (proc : match_proc_t W D) : M (Z * fc_state) :=
  let* ok := alloc in
  if negb ok then ret (- ENOMEM, fc)
  else ret (0, set_matches fc (match_list_head fc ++ [mk_match (copy_name name) proc None])).

Definition fc_register_target fc (name : cstr) (proc : target_proc_t W D) : M (Z * fc_state) :=
  let* ok := alloc in
  if negb ok then ret (- ENOMEM, fc)
  else ret (0, set_targets fc (target_list_head fc ++ [mk_target (copy_name name) proc None])).

(** ** Searching: [for (p = head; p != NULL; p = p->next) if (strcasecmp ...) break;] *)

Definition find_match (l : list fc_match_t) (name : cstr) : option fc_match_t :=
  snd <$> list_find (λ m, strcasecmp (m_name m) name = 0) l.
Definition find_target (l : list fc_target_t) (name : cstr) : option fc_target_t :=
  snd <$> list_find (λ t, strcasecmp (t_name t) name = 0) l.

Fixpoint find_chain (fuel : nat) (m : mem fc_chain_t) (c : option ptr) (chain_name : cstr) : M (option ptr) :=
  match c with
  | None => ret None
  | Some a =>
      match fuel with
      | O => crash
      | S fuel =>
          let* n := mopt (m !! a) in
          if strcasecmp chain_name (c_name (payload n)) =? 0 then ret (Some a)
          else find_chain fuel m (next n) chain_name
      end
  end.

Definition fc_chain_get_by_name fc (chain_name : option cstr) : M (option ptr) :=
  match chain_name with
  | None => ret None
  | Some chain_name => find_chain (traversal (chains fc)) (chains fc) (chain_list_head fc) chain_name
  end.

(** ** Built-in targets *)

Definition fc_bit_jump_create : create_t W D := λ ci w,
  match children ci with
  | [ci_chain] =>
      if negb (strcasecmp $"Chain" (key ci_chain) =? 0) then ret (-1, None, w)
      else
        match values ci_chain with
        | [OCONFIG_TYPE_STRING s] =>
            let* ok := alloc in
            if negb ok then ret (-1, None, w) else ret (0, Some (ud_chain s), w)
        | _ => ret (-1, None, w)
        end
  | _ => ret (-1, None, w)
  end.

Definition fc_bit_jump_destroy : destroy_t W D := λ _ w, ret w.

(** The list of plugins so far, [None] while [plugin_list] is NULL.  A name
    whose copy fails is left out, and so is an argument of another type. *)
Fixpoint add_writers (vs : list oconfig_value_t) (plugin_list : option (list cstr)) : M (option (list cstr)) :=
  match vs with
  | [] => ret plugin_list
  | OCONFIG_TYPE_STRING plugin :: vs =>
      let* ok := alloc in
      if negb ok then add_writers vs plugin_list
      else
        let plugin_list := default [] plugin_list in
        let* ok := alloc in
        add_writers vs (Some (if ok : bool then plugin_list ++ [plugin] else plugin_list))
  | _ :: vs => add_writers vs plugin_list
  end.

Fixpoint write_options (cs : list oconfig_item_t) (plugin_list : option (list cstr)) : M (option (list cstr)) :=
  match cs with
  | [] => ret plugin_list
  | child :: cs =>
      if negb (strcasecmp $"Plugin" (key child) =? 0) then write_options cs plugin_list
      else let* plugin_list := add_writers (values child) plugin_list in write_options cs plugin_list
  end.

Definition fc_bit_write_create : create_t W D := λ ci w,
  let* plugin_list := write_options (children ci) None in
  ret (0, ud_writers <$> plugin_list, w).

Definition fc_bit_write_destroy : destroy_t W D := λ _ w, ret w.

Section process.
Context (plugin_write : option cstr → metric_family_t → W → M (Z * W)).

Fixpoint write_each (plugin_list : list cstr) fam w : M W :=
  match plugin_list with
  | [] => ret w
  | plugin :: plugin_list =>
      let* '(status, w) := plugin_write (Some plugin) fam w in write_each plugin_list fam w
  end.

(** The status of a write only decides what is logged.  User data of another
    target behind the pointer is undefined behaviour. *)
Definition fc_bit_write_invoke fam (ud : option user_data) w : M (Z * metric_family_t * W) :=
  match ud with
  | None | Some (ud_writers []) =>
      let* '(status, w) := plugin_write None fam w in ret (FC_TARGET_CONTINUE, fam, w)
  | Some (ud_writers plugin_list) =>
      let* w := write_each plugin_list fam w in ret (FC_TARGET_CONTINUE, fam, w)
  | _ => crash
  end.

(** ** Processing *)

(** The loop over the matches: whether it reached the end of the list, and the
    last status. *)
Fixpoint match_loop (ms : list fc_match_t) (status : Z) fam w : M (bool * Z * W) :=
  match ms with
  | [] => ret (true, status, w)
  | m :: ms =>
      let* '(status, w) := mp_match (m_proc m) fam (m_user_data m) w in
      if status <? 0 then ret (false, status, w)
      else if negb (status =? FC_MATCH_MATCHES) then ret (false, status, w)
      else match_loop ms status fam w
  end.

Definition ends_loop (status : Z) : bool := (status =? FC_TARGET_STOP) || (status =? FC_TARGET_RETURN).

(** The loop over targets, for a rule and for the default targets: the last
    status.  A failing target or an unknown status does not end it. *)
Fixpoint target_loop (invoke : fc_target_t → metric_family_t → W → M (Z * metric_family_t * W))
    (ts : list fc_target_t) (status : Z) fam w : M (Z * metric_family_t * W) :=
  match ts with
  | [] => ret (status, fam, w)
  | t :: ts =>
      let* '(status, fam, w) := invoke t fam w in
      if ends_loop status then ret (status, fam, w) else target_loop invoke ts status fam w
  end.

(** One variable holds the status of the matches and of the targets, so that
    FC_MATCH_MATCHES, which is FC_TARGET_STOP, is left by a rule without
    targets. *)
Fixpoint rule_loop (invoke : fc_target_t → metric_family_t → W → M (Z * metric_family_t * W))
    (rs : list fc_rule_t) (status : Z) fam w : M (Z * metric_family_t * W) :=
  match rs with
  | [] => ret (status, fam, w)
  | r :: rs =>
      let* '(matches, status, w) := match_loop (r_matches r) FC_TARGET_CONTINUE fam w in
      if negb matches then rule_loop invoke rs FC_TARGET_CONTINUE fam w
      else
        let* '(status, fam, w) := target_loop invoke (r_targets r) status fam w in
        if ends_loop status then ret (status, fam, w) else rule_loop invoke rs status fam w
  end.

Definition process_chain (invoke : fc_target_t → metric_family_t → W → M (Z * metric_family_t * W))
    (chain : fc_chain_t) fam w : M (Z * metric_family_t * W) :=
  let* '(status, fam, w) := rule_loop invoke (c_rules chain) FC_TARGET_CONTINUE fam w in
  if ends_loop status then ret (status, fam, w)
  else
    let* '(status, fam, w) := target_loop invoke (c_targets chain) FC_TARGET_CONTINUE fam w in
    ret (if status =? FC_TARGET_STOP then FC_TARGET_STOP else FC_TARGET_CONTINUE, fam, w).

(** [fc_process_chain] and [fc_bit_jump_invoke] call each other; [fuel] bounds
    the depth of the jumps. *)
Fixpoint run_chain (fuel : nat) fc (chain : option ptr) fam w : M (Z * metric_family_t * W) :=
  match chain with
  | None => ret (-1, fam, w)
  | Some a =>
      match fuel with
      | O => crash
      | S fuel =>
          let fc_bit_jump_invoke fam (ud : option user_data) w :=
            match ud with
            | Some (ud_chain chain_name) =>
                let* chain := find_chain (traversal (chains fc)) (chains fc) (chain_list_head fc) chain_name in
                match chain with
                | None => ret (-1, fam, w)
                | Some _ =>
                    let* '(status, fam, w) := run_chain fuel fc chain fam w in
                    if status <? 0 then ret (status, fam, w)
                    else if status =? FC_TARGET_STOP then ret (FC_TARGET_STOP, fam, w)
                    else ret (FC_TARGET_CONTINUE, fam, w)
                end
            | _ => crash
            end in
          let invoke (t : fc_target_t) fam w :=
            match tp_invoke (t_proc t) with
            | bit_jump_invoke => fc_bit_jump_invoke fam (t_user_data t) w
            | bit_stop_invoke => ret (FC_TARGET_STOP, fam, w)
            | bit_return_invoke => ret (FC_TARGET_RETURN, fam, w)
            | bit_write_invoke => fc_bit_write_invoke fam (t_user_data t) w
            | plugin_invoke f => f fam (t_user_data t) w
            end in
          let* n := mopt (chains fc !! a) in
          process_chain invoke (payload n) fam w
      end
  end.

(** Without cycles of jumps no chain is entered twice: the number of chains
    is enough fuel. *)
Definition fc_process_chain fc (chain : option ptr) fam w : M (Z * metric_family_t * W) :=
  run_chain (traversal (chains fc)) fc chain fam w.

Definition fc_default_action fam w : M (Z * metric_family_t * W) := fc_bit_write_invoke fam None w.
End process.

Definition jump_proc : target_proc_t W D :=
  mk_target_proc (Some fc_bit_jump_create) (Some fc_bit_jump_destroy) bit_jump_invoke.
Definition stop_proc : target_proc_t W D := mk_target_proc None None bit_stop_invoke.
Definition return_proc : target_proc_t W D := mk_target_proc None None bit_return_invoke.
Definition write_proc : target_proc_t W D :=
  mk_target_proc (Some fc_bit_write_create) (Some fc_bit_write_destroy) bit_write_invoke.

Definition fc_init_once fc : M (Z * fc_state) :=
  if fc_done fc then ret (0, fc)
  else
    let* '(_, fc) := fc_register_target fc $"jump" jump_proc in
    let* '(_, fc) := fc_register_target fc $"stop" stop_proc in
    let* '(_, fc) := fc_register_target fc $"return" return_proc in
    let* '(_, fc) := fc_register_target fc $"write" write_proc in
    ret (0, set_done fc).

(** ** Configuration *)

(** What a plugin registers when it is loaded. *)
Inductive fc_registration : Type :=
  | reg_match (name : cstr) (proc : match_proc_t W D)
  | reg_target (name : cstr) (proc : target_proc_t W D).

Fixpoint fc_register_all fc (l : list fc_registration) : M fc_state :=
  match l with
  | [] => ret fc
  | reg_match name proc :: l => let* '(_, fc) := fc_register_match fc name proc in fc_register_all fc l
  | reg_target name proc :: l => let* '(_, fc) := fc_register_target fc name proc in fc_register_all fc l
  end.

Section config.
(** [IS_TRUE (global_option_get ("AutoLoadPlugin"))], and [plugin_load] with
    what the plugin registered here. *)
Context (auto_load : W → bool) (plugin_load : cstr → W → M (Z * list fc_registration * W)).

(** [fc_config_add_match] and [fc_config_add_target] look a name up in a list
    of registered procedures, loading the plugin ["match_" name] when it is
    missing.  The answer is [inl] of the status to return. *)
Definition lookup_or_load {A} (find : fc_state → cstr → option A) (prefix name : cstr) fc w :
    M ((Z + A) * fc_state * W) :=
  match find fc name with
  | Some x => ret (inr x, fc, w)
  | None =>
      if auto_load w then
        if (DATA_MAX_NAME_LEN <=? length (prefix ++ name))%nat then ret (inl (-1), fc, w)
        else
          let* '(status, regs, w) := plugin_load (prefix ++ name) w in
          let* fc := fc_register_all fc regs in
          if negb (status =? 0) then ret (inl status, fc, w)
          else ret (match find fc name with Some x => inr x | None => inl (-1) end, fc, w)
      else ret (inl (-1), fc, w)
  end.

Definition fc_config_add_match (matches_head : list fc_match_t) (ci : oconfig_item_t) fc w :
    M (Z * list fc_match_t * fc_state * W) :=
  match values ci with
  | [OCONFIG_TYPE_STRING name] =>
      let* '(found, fc, w) := lookup_or_load (λ fc, find_match (match_list_head fc)) $"match_" name fc w in
      match found with
      | inl status => ret (status, matches_head, fc, w)
      | inr p =>
          let* ok := alloc in
          if negb ok then ret (-1, matches_head, fc, w)
          else
            let* '(status, ud, w) :=
              match mp_create (m_proc p) with Some create => create ci w | None => ret (0, None, w) end in
            let m := mk_match (copy_name (m_name p)) (m_proc p) ud in
            if negb (status =? 0) then
              let* w := fc_free_matches [m] w in ret (-1, matches_head, fc, w)
            else ret (0, matches_head ++ [m], fc, w)
      end
  | _ => ret (-1, matches_head, fc, w)
  end.

Definition fc_config_add_target (targets_head : list fc_target_t) (ci : oconfig_item_t) fc w :
    M (Z * list fc_target_t * fc_state * W) :=
  match values ci with
  | [OCONFIG_TYPE_STRING name] =>
      let* '(found, fc, w) := lookup_or_load (λ fc, find_target (target_list_head fc)) $"target_" name fc w in
      match found with
      | inl status => ret (status, targets_head, fc, w)
      | inr p =>
          let* ok := alloc in
          if negb ok then ret (-1, targets_head, fc, w)
          else
            let* '(status, ud, w) :=
              match tp_create (t_proc p) with Some create => create ci w | None => ret (0, None, w) end in
            let t := mk_target (copy_name (t_name p)) (t_proc p) ud in
            if negb (status =? 0) then
              let* w := fc_free_targets [t] w in ret (-1, targets_head, fc, w)
            else ret (0, targets_head ++ [t], fc, w)
      end
  | _ => ret (-1, targets_head, fc, w)
  end.

(** The loop over the children of a <Rule> block. *)
Fixpoint rule_options (cs : list oconfig_item_t) (rule : fc_rule_t) fc w : M (Z * fc_rule_t * fc_state * W) :=
  match cs with
  | [] => ret (0, rule, fc, w)
  | option :: cs =>
      let* '(status, rule, fc, w) :=
        if strcasecmp $"Match" (key option) =? 0 then
          let* '(status, ms, fc, w) := fc_config_add_match (r_matches rule) option fc w in
          ret (status, mk_rule (r_name rule) ms (r_targets rule), fc, w)
        else if strcasecmp $"Target" (key option) =? 0 then
          let* '(status, ts, fc, w) := fc_config_add_target (r_targets rule) option fc w in
          ret (status, mk_rule (r_name rule) (r_matches rule) ts, fc, w)
        else ret (-1, rule, fc, w) in
      if negb (status =? 0) then ret (status, rule, fc, w) else rule_options cs rule fc w
  end.

Definition rule_argument (ci : oconfig_item_t) : option cstr :=
  match values ci with
  | [] => Some []
  | [OCONFIG_TYPE_STRING s] => Some (copy_name s)
  | _ => None
  end.

Definition update_chain fc (chain : ptr) (f : fc_chain_t → fc_chain_t) : M fc_state :=
  let* n := mopt (chains fc !! chain) in
  ret (set_chains fc (<[chain := mk_node (f (payload n)) (next n)]> (chains fc)) (chain_list_head fc)).

Definition fc_config_add_rule (chain : ptr) (ci : oconfig_item_t) fc w : M (Z * fc_state * W) :=
  match rule_argument ci with
  | None => ret (-1, fc, w)
  | Some name =>
      let* ok := alloc in
      if negb ok then ret (-1, fc, w)
      else
        let* '(status, rule, fc, w) := rule_options (children ci) (mk_rule name [] []) fc w in
        let status := if (status =? 0) && (length (r_targets rule) =? 0)%nat then -1 else status in
        if negb (status =? 0) then
          let* w := fc_free_rules [rule] w in ret (-1, fc, w)
        else
          let* fc := update_chain fc chain (λ c, mk_chain (c_name c) (c_rules c ++ [rule]) (c_targets c)) in
          ret (0, fc, w)
  end.

(** The loop over the children of a <Chain> block. *)
Fixpoint chain_options (cs : list oconfig_item_t) (chain : ptr) fc w : M (Z * fc_state * W) :=
  match cs with
  | [] => ret (0, fc, w)
  | option :: cs =>
      let* '(status, fc, w) :=
        if strcasecmp $"Rule" (key option) =? 0 then fc_config_add_rule chain option fc w
        else if strcasecmp $"Target" (key option) =? 0 then
          let* n := mopt (chains fc !! chain) in
          let* '(status, ts, fc, w) := fc_config_add_target (c_targets (payload n)) option fc w in
          let* fc := update_chain fc chain (λ c, mk_chain (c_name c) (c_rules c) ts) in
          ret (status, fc, w)
        else ret (-1, fc, w) in
      if negb (status =? 0) then ret (status, fc, w) else chain_options cs chain fc w
  end.

(** [while (ptr->next != NULL) ptr = ptr->next;] *)
Fixpoint last_chain (fuel : nat) (m : mem fc_chain_t) (a : ptr) : M ptr :=
  let* n := mopt (m !! a) in
  match next n with
  | None => ret a
  | Some b => match fuel with O => crash | S fuel => last_chain fuel m b end
  end.

Definition append_chain fc (chain : ptr) : M fc_state :=
  match chain_list_head fc with
  | None => ret (set_chains fc (chains fc) (Some chain))
  | Some head =>
      let* a := last_chain (traversal (chains fc)) (chains fc) head in
      let* m := mopt (set_next (chains fc) a (Some chain)) in
      ret (set_chains fc m (Some head))
  end.

Definition fc_config_add_chain (ci : oconfig_item_t) fc w : M (Z * fc_state * W) :=
  match values ci with
  | [OCONFIG_TYPE_STRING name] =>
      let* old :=
        match chain_list_head fc with
        | Some _ => fc_chain_get_by_name fc (Some name)
        | None => ret None
        end in
      let* ok := match old with None => alloc | Some _ => ret true end in
      if negb ok then ret (-1, fc, w)
      else
        let '(chain, fc) :=
          match old with
          | Some chain => (chain, fc)
          | None =>
              let a := fresh (dom (chains fc)) in
              (a, set_chains fc (<[a := mk_node (mk_chain (copy_name name) [] []) None]> (chains fc))
                    (chain_list_head fc))
          end in
        let* '(status, fc, w) := chain_options (children ci) chain fc w in
        if negb (status =? 0) then
          let* '(m, w) := fc_free_chains (chains fc) (Some chain) w in
          ret (-1, set_chains fc m (chain_list_head fc), w)
        else
          match chain_list_head fc, old with
          | Some _, Some _ => ret (0, fc, w)
          | _, _ => let* fc := append_chain fc chain in ret (0, fc, w)
          end
  | _ => ret (-1, fc, w)
  end.

Definition fc_configure (ci : option oconfig_item_t) fc w : M (Z * fc_state * W) :=
  let* '(_, fc) := fc_init_once fc in
  match ci with
  | None => ret (- EINVAL, fc, w)
  | Some ci =>
      if strcasecmp $"Chain" (key ci) =? 0 then fc_config_add_chain ci fc w
      else ret (-1, fc, w)
  end.
End config.
End fc.

(** ** What processing a chain means

    Chains by name, without memory, status codes or fuel.  A configuration is
    a family, the state of the daemon and the allocations to come. *)

Inductive verdict : Type := Continue | Stop | Return.

#[export] Instance verdict_eq_dec : EqDecision verdict.
Proof. solve_decision. Defined.

Definition code (v : verdict) : Z :=
  match v with Continue => FC_TARGET_CONTINUE | Stop => FC_TARGET_STOP | Return => FC_TARGET_RETURN end.

Section meaning.
Context {W D : Type} (plugin_write : option cstr → metric_family_t → W → M (Z * W)).
Context (xs : list (ptr * fc_chain_t W D)).
Implicit Types (t : fc_target_t W D) (ts : list (fc_target_t W D)) (c : fc_chain_t W D).

Definition cfg : Type := metric_family_t * W * list bool.
Implicit Types s : cfg.

(** The first chain of that name, up to case. *)
Definition named (name : cstr) : option (ptr * fc_chain_t W D) :=
  snd <$> list_find (λ x, strcasecmp name (c_name x.2) = 0) xs.

Inductive matches_run : list (fc_match_t W D) → cfg → bool → cfg → Prop :=
  | matches_nil s : matches_run [] s true s
  | matches_next m ms fam w o w1 o1 b s2 :
      mp_match (m_proc m) fam (m_user_data m) w o = Some (FC_MATCH_MATCHES, w1, o1) →
      matches_run ms (fam, w1, o1) b s2 → matches_run (m :: ms) (fam, w, o) b s2
  | matches_fail m ms fam w o st w1 o1 :
      mp_match (m_proc m) fam (m_user_data m) w o = Some (st, w1, o1) → st ≠ FC_MATCH_MATCHES →
      matches_run (m :: ms) (fam, w, o) false (fam, w1, o1).

(** A jump hands on the verdict [Stop]; [Return] only leaves the chain it was
    reached in.  A jump to nowhere fails.  A rule that has matches and no
    targets stops the chain when all of them match. *)
Inductive invokes : fc_target_t W D → cfg → Z → cfg → Prop :=
  | invoke_jump t name a c s v s' :
      tp_invoke (t_proc t) = bit_jump_invoke → t_user_data t = Some (ud_chain name) →
      named name = Some (a, c) → chain_runs c s v s' →
      invokes t s (match v with Stop => FC_TARGET_STOP | _ => FC_TARGET_CONTINUE end) s'
  | invoke_jump_nowhere t name s :
      tp_invoke (t_proc t) = bit_jump_invoke → t_user_data t = Some (ud_chain name) →
      named name = None → invokes t s (-1) s
  | invoke_stop t s : tp_invoke (t_proc t) = bit_stop_invoke → invokes t s FC_TARGET_STOP s
  | invoke_return t s : tp_invoke (t_proc t) = bit_return_invoke → invokes t s FC_TARGET_RETURN s
  | invoke_write t fam w o w1 o1 :
      tp_invoke (t_proc t) = bit_write_invoke →
      fc_bit_write_invoke plugin_write fam (t_user_data t) w o = Some (FC_TARGET_CONTINUE, fam, w1, o1) →
      invokes t (fam, w, o) FC_TARGET_CONTINUE (fam, w1, o1)
  | invoke_plugin t f fam w o st fam1 w1 o1 :
      tp_invoke (t_proc t) = plugin_invoke f →
      f fam (t_user_data t) w o = Some (st, fam1, w1, o1) →
      invokes t (fam, w, o) st (fam1, w1, o1)
with targets_run : list (fc_target_t W D) → cfg → verdict → cfg → Prop :=
  | targets_nil s : targets_run [] s Continue s
  | targets_next t ts s st s1 v s2 :
      invokes t s st s1 → st ≠ FC_TARGET_STOP → st ≠ FC_TARGET_RETURN →
      targets_run ts s1 v s2 → targets_run (t :: ts) s v s2
  | targets_stop t ts s s1 : invokes t s FC_TARGET_STOP s1 → targets_run (t :: ts) s Stop s1
  | targets_return t ts s s1 : invokes t s FC_TARGET_RETURN s1 → targets_run (t :: ts) s Return s1
with rules_run : list (fc_rule_t W D) → cfg → verdict → cfg → Prop :=
  | rules_nil s : rules_run [] s Continue s
  | rules_skip r rs s s1 v s2 :
      matches_run (r_matches r) s false s1 → rules_run rs s1 v s2 → rules_run (r :: rs) s v s2
  | rules_next r rs s s1 s2 v s3 :
      r_matches r = [] ∨ r_targets r ≠ [] →
      matches_run (r_matches r) s true s1 → targets_run (r_targets r) s1 Continue s2 →
      rules_run rs s2 v s3 → rules_run (r :: rs) s v s3
  | rules_end r rs s s1 v s2 :
      matches_run (r_matches r) s true s1 → targets_run (r_targets r) s1 v s2 → v ≠ Continue →
      rules_run (r :: rs) s v s2
  | rules_bare r rs s s1 :
      r_matches r ≠ [] → r_targets r = [] → matches_run (r_matches r) s true s1 → rules_run (r :: rs) s Stop s1
with chain_runs : fc_chain_t W D → cfg → verdict → cfg → Prop :=
  | chain_decided c s v s1 : rules_run (c_rules c) s v s1 → v ≠ Continue → chain_runs c s v s1
  | chain_default c s s1 v s2 :
      rules_run (c_rules c) s Continue s1 → targets_run (c_targets c) s1 v s2 →
      chain_runs c s (match v with Stop => Stop | _ => Continue end) s2.

Scheme invokes_mut := Minimality for invokes Sort Prop
  with targets_mut := Minimality for targets_run Sort Prop
  with rules_mut := Minimality for rules_run Sort Prop
  with chain_mut := Minimality for chain_runs Sort Prop.

Lemma matches_run_det ms s b s1 : matches_run ms s b s1 → ∀ b' s1', matches_run ms s b' s1' → b' = b ∧ s1' = s1.
Proof.
  induction 1; inversion 1; subst; repeat match goal with H1 : ?x = _, H2 : ?x = _ |- _ => rewrite H1 in H2; simplify_eq end;
    naive_solver.
Qed.

(** The rules give one result. *)
Lemma chain_runs_det c s v s1 : chain_runs c s v s1 → ∀ v' s1', chain_runs c s v' s1' → v' = v ∧ s1' = s1.
Proof.
  revert c s v s1.
  simple refine (chain_mut
    (λ t s st s1, ∀ st' s1', invokes t s st' s1' → st' = st ∧ s1' = s1)
    (λ ts s v s1, ∀ v' s1', targets_run ts s v' s1' → v' = v ∧ s1' = s1)
    (λ rs s v s1, ∀ v' s1', rules_run rs s v' s1' → v' = v ∧ s1' = s1)
    (λ c s v s1, ∀ v' s1', chain_runs c s v' s1' → v' = v ∧ s1' = s1)
    _ _ _ _ _ _ _ _ _ _ _ _ _ _ _ _ _).
  all: cbv beta; intros.
  all: match goal with H : _ |- ?v' = _ ∧ ?s1' = _ =>
         match type of H with context [s1'] => inversion H; subst; clear H end end.
  all: repeat match goal with
    | H1 : ?x = _, H2 : ?x = _ |- _ => rewrite H1 in H2; simplify_eq
    | IH : ∀ st' s1', invokes ?t ?s st' s1' → _, H : invokes ?t ?s _ _ |- _ => apply IH in H as [? ?]; subst
    | IH : ∀ v' s1', targets_run ?t ?s v' s1' → _, H : targets_run ?t ?s _ _ |- _ => apply IH in H as [? ?]; subst
    | IH : ∀ v' s1', rules_run ?t ?s v' s1' → _, H : rules_run ?t ?s _ _ |- _ => apply IH in H as [? ?]; subst
    | IH : ∀ v' s1', chain_runs ?t ?s v' s1' → _, H : chain_runs ?t ?s _ _ |- _ => apply IH in H as [? ?]; subst
    | H1 : matches_run ?ms ?s ?b ?s1, H2 : matches_run ?ms ?s ?b' ?s2 |- _ =>
        destruct (matches_run_det _ _ _ _ H1 _ _ H2); clear H2; simplify_eq
    end; try done.
  all: match goal with
    | H : r_targets ?r = [], H2 : targets_run (r_targets ?r) _ _ _ |- _ => rewrite H in H2; by inversion H2; subst
    | H : r_targets ?r = [], IH : ∀ v' s1', targets_run (r_targets ?r) ?s v' s1' → _ |- _ =>
        rewrite H in IH; destruct (IH _ _ (targets_nil s)); by subst
    | _ => naive_solver
    end.
Qed.

(** Types of user data, and actions of plugins that return. *)
Definition invoke_ok (p : target_proc_t W D) (ud : option (user_data D)) : Prop :=
  match tp_invoke p with
  | bit_jump_invoke => ∃ name, ud = Some (ud_chain name)
  | bit_write_invoke => match ud with None | Some (ud_writers _) => True | _ => False end
  | bit_stop_invoke | bit_return_invoke => True
  | plugin_invoke f => ∀ fam w, wp (f fam ud w) (λ _, True)
  end.
Definition target_ok t : Prop := invoke_ok (t_proc t) (t_user_data t).
Definition match_ok (m : fc_match_t W D) : Prop :=
  ∀ fam w, wp (mp_match (m_proc m) fam (m_user_data m) w) (λ _, True).
Definition rule_ok (r : fc_rule_t W D) : Prop := Forall match_ok (r_matches r) ∧ Forall target_ok (r_targets r).
Definition chain_ok c : Prop := Forall rule_ok (c_rules c) ∧ Forall target_ok (c_targets c).

Definition jump_of t : option cstr :=
  match tp_invoke (t_proc t), t_user_data t with
  | bit_jump_invoke, Some (ud_chain name) => Some name
  | _, _ => None
  end.
Definition targets_of c : list (fc_target_t W D) := (c_rules c ≫= r_targets) ++ c_targets c.
Definition jumps_of c : list cstr := omap jump_of (targets_of c).

(** [rank] goes down along every jump: there is no cycle. *)
Definition jumps_descend (rank : ptr → nat) : Prop :=
  ∀ a c name b c', (a, c) ∈ xs → name ∈ jumps_of c → named name = Some (b, c') → (rank b < rank a)%nat.
End meaning.

(** [xs] are the chains of the list, in order; nothing else is allocated. *)
Definition chains_repr {W D} (fc : fc_state W D) (xs : list (ptr * fc_chain_t W D)) : Prop :=
  seg (chains fc) (chain_list_head fc) xs None ∧ NoDup xs.*1 ∧ dom (chains fc) = list_to_set xs.*1.

Section process_lemmas.
Context {W D : Type} (plugin_write : option cstr → metric_family_t → W → M (Z * W)).
Implicit Types (t : fc_target_t W D) (ts : list (fc_target_t W D)) (c : fc_chain_t W D) (s : cfg (W := W)).

Lemma find_chain_spec fuel (m : mem (fc_chain_t W D)) p xs name :
  seg m p xs None → (length xs ≤ fuel)%nat → find_chain fuel m p name = ret (fst <$> named xs name).
Proof.
  revert m p xs. induction fuel as [|fuel IH]; intros m p [|[a c] xs]; simpl; intros Hs Hlen.
  1, 3: by subst.
  - lia.
  - destruct Hs as (-> & n & -> & Hs). simpl. unfold bind at 1, mopt, ret at 1. simpl.
    unfold named. simpl. destruct (Z.eqb_spec (strcasecmp name (c_name c)) 0) as [E|E].
    + by rewrite decide_True.
    + rewrite decide_False by done. rewrite (IH m n xs) by (done || lia). unfold named.
      by destruct (list_find _ xs) as [[]|].
Qed.

Lemma named_elem (xs : list (ptr * fc_chain_t W D)) name x : named xs name = Some x → x ∈ xs.
Proof.
  unfold named. destruct (list_find _ xs) as [[i y]|] eqn:E; [|done]. simpl. intros [= <-].
  apply list_find_Some in E as (? & _). by eapply list_elem_of_lookup_2.
Qed.

Lemma chains_length (fc : fc_state W D) xs : chains_repr fc xs → (length xs ≤ size (chains fc))%nat.
Proof. intros (Hs & Hnd & _). by eapply seg_length. Qed.

(** Both loops, against an invocation that returns what the relation says. *)
Definition invoke_sound xs (invoke : fc_target_t W D → metric_family_t → W → M (Z * metric_family_t * W)) t : Prop :=
  ∀ fam w o, ∃ st fam' w' o', invoke t fam w o = Some (st, fam', w', o') ∧
    invokes plugin_write xs t (fam, w, o) st (fam', w', o').

Lemma match_loop_runs ms fam w o : Forall (match_ok (W := W) (D := D)) ms → ∀ st0,
  ∃ b st w' o', match_loop ms st0 fam w o = Some (b, st, w', o') ∧ matches_run ms (fam, w, o) b (fam, w', o') ∧
    (b = true → st = match ms with [] => st0 | _ => FC_MATCH_MATCHES end).
Proof.
  intros H. revert w o. induction H as [|m ms Hm _ IH]; intros w o st0; simpl.
  { exists true, st0, w, o. split_and!; [done|constructor|done]. }
  destruct (Hm fam w o) as ([st w1] & o1 & E & _). unfold bind. rewrite E. unfold FC_MATCH_MATCHES in *.
  destruct (Z.eqb_spec st 1) as [->|Hne].
  - destruct (IH w1 o1 1) as (b & st & w2 & o2 & E2 & Hr & Hst). exists b, st, w2, o2. split_and!; [done|by econstructor|].
    intros Hb. rewrite (Hst Hb). by destruct ms.
  - exists false, st, w1, o1. split_and!; [by destruct (st <? 0)| |done]. by econstructor.
Qed.

(** The status a loop ends with, and the verdict it stands for. *)
Definition signals (st : Z) (v : verdict) : Prop := if ends_loop st then st = code v ∧ v ≠ Continue else v = Continue.

Lemma target_loop_runs xs invoke ts : Forall (invoke_sound xs invoke) ts → ∀ st0 fam w o,
  ends_loop st0 = false →
  ∃ st v fam' w' o', target_loop invoke ts st0 fam w o = Some (st, fam', w', o') ∧ signals st v ∧
    targets_run plugin_write xs ts (fam, w, o) v (fam', w', o').
Proof.
  induction 1 as [|t ts Ht _ IH]; intros st0 fam w o H0; simpl.
  { exists st0, Continue, fam, w, o. unfold signals. rewrite H0. repeat split. constructor. }
  destruct (Ht fam w o) as (st & fam1 & w1 & o1 & E & Hi). unfold bind. rewrite E.
  destruct (ends_loop st) eqn:Es.
  - unfold ends_loop in Es. apply orb_true_iff in Es as [->%Z.eqb_eq| ->%Z.eqb_eq].
    + exists FC_TARGET_STOP, Stop, fam1, w1, o1. repeat split; [done|]. by apply targets_stop.
    + exists FC_TARGET_RETURN, Return, fam1, w1, o1. repeat split; [done|]. by apply targets_return.
  - destruct (IH st fam1 w1 o1 Es) as (st2 & v & fam2 & w2 & o2 & E2 & Hv & Hr).
    exists st2, v, fam2, w2, o2. split_and!; [done..|]. unfold ends_loop in Es. breflect. by eapply targets_next.
Qed.

(** What the loop over the targets starts with is only seen without targets. *)
Lemma target_loop_start invoke ts st st' fam w : ts ≠ [] → target_loop (W := W) (D := D) invoke ts st fam w = target_loop invoke ts st' fam w.
Proof. by destruct ts. Qed.

(** The targets of a rule whose matches all match. *)
Lemma rule_targets_run xs invoke r st : Forall (invoke_sound xs invoke) (r_targets r) →
  st = match r_matches r with [] => FC_TARGET_CONTINUE | _ => FC_MATCH_MATCHES end → ∀ s fam w o,
  matches_run (r_matches r) s true (fam, w, o) →
  ∃ st' v fam' w' o', target_loop invoke (r_targets r) st fam w o = Some (st', fam', w', o') ∧ signals st' v ∧
    (v ≠ Continue → ∀ rs, rules_run plugin_write xs (r :: rs) s v (fam', w', o')) ∧
    (v = Continue → ∀ rs v2 s2, rules_run plugin_write xs rs (fam', w', o') v2 s2 → rules_run plugin_write xs (r :: rs) s v2 s2).
Proof.
  intros Ht Hst s fam w o Hm. destruct (r_matches r) as [|m ms] eqn:Em; [|destruct (r_targets r) as [|t ts] eqn:Et].
  2: { exists FC_TARGET_STOP, Stop, fam, w, o. subst st. split_and!; [done|done| |done]. intros _ rs.
       eapply rules_bare; rewrite ?Em; done. }
  1: destruct (target_loop_runs xs invoke _ Ht FC_TARGET_CONTINUE fam w o eq_refl) as (st' & v & fam2 & w2 & o2 & E & Hv & Hr).
  2: destruct (target_loop_runs xs invoke (t :: ts) Ht FC_TARGET_CONTINUE fam w o eq_refl) as (st' & v & fam2 & w2 & o2 & E & Hv & Hr).
  all: exists st', v, fam2, w2, o2; split_and!;
    [subst st; first [exact E|by rewrite (target_loop_start _ _ _ FC_TARGET_CONTINUE)]|done
    |intros Hne rs; eapply rules_end; rewrite ?Em, ?Et; done
    |intros -> rs v2 s2 Hrs; eapply rules_next; rewrite ?Em, ?Et; try done; auto].
Qed.

Lemma rule_loop_runs xs invoke rs :
  Forall (λ r, Forall match_ok (r_matches r) ∧ Forall (invoke_sound xs invoke) (r_targets r)) rs → ∀ st0 fam w o,
  ends_loop st0 = false →
  ∃ st v fam' w' o', rule_loop invoke rs st0 fam w o = Some (st, fam', w', o') ∧ signals st v ∧
    rules_run plugin_write xs rs (fam, w, o) v (fam', w', o').
Proof.
  induction 1 as [|r rs [Hm Ht] _ IH]; intros st0 fam w o H0; simpl.
  { exists st0, Continue, fam, w, o. unfold signals. rewrite H0. repeat split. constructor. }
  destruct (match_loop_runs _ fam w o Hm FC_TARGET_CONTINUE) as (b & st1 & w1 & o1 & E1 & Hm1 & Hst1). unfold bind. rewrite E1.
  destruct b; simpl.
  - destruct (rule_targets_run xs invoke r st1 Ht (Hst1 eq_refl) _ fam w1 o1 Hm1) as (st & v & fam2 & w2 & o2 & -> & Hv & Hend & Hgo).
    pose proof Hv as Hv'. unfold signals in Hv. destruct (ends_loop st) eqn:Es.
    + destruct Hv as [-> Hne]. exists (code v), v, fam2, w2, o2. split_and!; [done|done|]. by apply Hend.
    + subst v. destruct (IH st fam2 w2 o2 Es) as (st3 & v & fam3 & w3 & o3 & -> & Hv & Hr3).
      exists st3, v, fam3, w3, o3. split_and!; [done..|]. by apply Hgo.
  - destruct (IH FC_TARGET_CONTINUE fam w1 o1 eq_refl) as (st3 & v & fam3 & w3 & o3 & -> & Hv & Hr3).
    exists st3, v, fam3, w3, o3. split_and!; [done..|]. by eapply rules_skip.
Qed.

Lemma process_chain_runs xs invoke c :
  Forall (λ r, Forall match_ok (r_matches r)) (c_rules c) → Forall (invoke_sound xs invoke) (targets_of c) →
  ∀ fam w o, ∃ v fam' w' o', process_chain invoke c fam w o = Some (code v, fam', w', o') ∧
    chain_runs plugin_write xs c (fam, w, o) v (fam', w', o').
Proof.
  intros Hm [Hr Hd]%list.Forall_app fam w o. unfold process_chain, bind.
  destruct (rule_loop_runs xs invoke (c_rules c)) with (st0 := FC_TARGET_CONTINUE) (fam := fam) (w := w) (o := o)
    as (st & v & fam1 & w1 & o1 & -> & Hv & Hrun); [|done|].
  { apply list.Forall_forall. intros r Hin. split; [by eapply list.Forall_forall in Hm|].
    apply list.Forall_forall. intros t Ht. eapply list.Forall_forall in Hr; [exact Hr|]. apply list_elem_of_bind. by exists r. }
  unfold signals in Hv. destruct (ends_loop st) eqn:Es.
  { destruct Hv as [-> Hne]. exists v, fam1, w1, o1. split; [done|]. by apply chain_decided. }
  subst v. destruct (target_loop_runs xs invoke _ Hd FC_TARGET_CONTINUE fam1 w1 o1 eq_refl)
    as (st2 & v & fam2 & w2 & o2 & -> & Hv & Hrun2).
  exists (match v with Stop => Stop | _ => Continue end), fam2, w2, o2. split; [|by eapply chain_default].
  unfold ret. repeat f_equal. unfold signals in Hv. destruct (ends_loop st2) eqn:Es2.
  - destruct Hv as [-> Hne]. by destruct v.
  - subst v. unfold ends_loop in Es2. breflect. by case_match; breflect.
Qed.
End process_lemmas.

Section process_theorems.
Context {W D : Type} (plugin_write : option cstr → metric_family_t → W → M (Z * W)).
Hypothesis plugin_write_returns : ∀ plugin fam w, wp (plugin_write plugin fam w) (λ _, True).
Implicit Types (t : fc_target_t W D) (c : fc_chain_t W D).

Lemma write_each_returns l fam w : wp (write_each plugin_write l fam w) (λ _, True).
Proof.
  revert w. induction l as [|p l IH]; intros w; simpl; [by apply wp_ret|].
  apply wp_bind. eapply wp_mono; [apply plugin_write_returns|]. intros [st w1] _. apply IH.
Qed.

Lemma write_invoke_returns t fam w :
  tp_invoke (t_proc t) = bit_write_invoke → target_ok t →
  wp (fc_bit_write_invoke plugin_write fam (t_user_data t) w) (λ r, r.1 = (FC_TARGET_CONTINUE, fam)).
Proof.
  unfold target_ok, invoke_ok. intros -> Hok. unfold fc_bit_write_invoke.
  destruct (t_user_data t) as [[| [|p l] |]|]; try done; apply wp_bind.
  1, 3: eapply wp_mono; [apply plugin_write_returns|]; intros [] _; by apply wp_ret.
  eapply wp_mono; [apply write_each_returns|]. intros w1 _. by apply wp_ret.
Qed.

Definition rank_count (xs : list (ptr * fc_chain_t W D)) (rank : ptr → nat) (a : ptr) : nat :=
  length (filter (λ x, (rank x.1 ≤ rank a)%nat) xs).

Lemma length_filter_lt {A} (P Q : A → Prop) `{∀ x, Decision (P x), ∀ x, Decision (Q x)} (l : list A) x :
  (∀ y, P y → Q y) → x ∈ l → Q x → ¬ P x → (length (filter P l) < length (filter Q l))%nat.
Proof.
  intros HPQ Hx Hq Hp.
  assert (∀ l, (length (filter P l) ≤ length (filter Q l))%nat) as Hle.
  { intros l'. induction l' as [|y l' IH]; [done|]. rewrite !filter_cons.
    destruct (decide (P y)), (decide (Q y)); simpl; try lia. exfalso; auto. }
  induction Hx as [z l'|z y l' Hx IH]; rewrite !filter_cons.
  - rewrite decide_False, decide_True by done. simpl. specialize (Hle l'). lia.
  - specialize (IH Hq Hp). destruct (decide (P y)), (decide (Q y)); simpl; try lia. exfalso; auto.
Qed.

Lemma rank_count_lt xs rank a c b :
  (a, c) ∈ xs → (rank b < rank a)%nat → (rank_count xs rank b < rank_count xs rank a)%nat.
Proof. intros Hin Hlt. apply length_filter_lt with (a, c); simpl; [intros []; simpl| | |]; lia || done. Qed.

Lemma run_chain_runs fc xs rank :
  chains_repr fc xs → Forall chain_ok xs.*2 → jumps_descend xs rank →
  ∀ fuel a c, (a, c) ∈ xs → (rank_count xs rank a ≤ fuel)%nat → ∀ fam w o,
  ∃ v fam' w' o', run_chain plugin_write fuel fc (Some a) fam w o = Some (code v, fam', w', o') ∧
    chain_runs plugin_write xs c (fam, w, o) v (fam', w', o').
Proof.
  intros Hrep Hok Hrank fuel. pose proof (chains_length _ _ Hrep) as Hlen. destruct Hrep as (Hs & _ & _).
  induction fuel as [|fuel IH]; intros a c Hac Hcount fam w o.
  { exfalso. assert ((a, c) ∈ filter (λ x, (rank x.1 ≤ rank a)%nat) xs) as Hin
      by (apply list_elem_of_filter; by split).
    unfold rank_count in Hcount. destruct (filter _ xs); [set_solver|simpl in Hcount; lia]. }
  destruct (seg_lookup _ _ _ _ _ _ Hs Hac) as [n Hn]. cbn [run_chain]. rewrite Hn. cbn [mopt].
  rewrite bind_ret. cbn [payload].
  assert (chain_ok c) as [Hr Ht].
  { eapply list.Forall_forall in Hok; [exact Hok|]. apply list_elem_of_fmap. by exists (a, c). }
  assert (Forall target_ok (targets_of c)) as Htok.
  { apply list.Forall_app. split; [|done]. apply list.Forall_forall. intros t (r & Hrt & Hrin)%list_elem_of_bind.
    eapply list.Forall_forall in Hr; [|exact Hrin]. destruct Hr as [_ Hr]. by eapply list.Forall_forall in Hr. }
  apply process_chain_runs; [by eapply list.Forall_impl; [exact Hr|intros ? []]|].
  apply list.Forall_forall. intros t Htin fam1 w1 o1. eapply list.Forall_forall in Htok as Hto; [|exact Htin].
  cbv beta. destruct (tp_invoke (t_proc t)) as [| | | |f] eqn:Ei.
  - unfold target_ok, invoke_ok in Hto. rewrite Ei in Hto. destruct Hto as [name Hud]. rewrite Hud.
    rewrite (find_chain_spec _ _ _ xs) by (done || (unfold traversal; lia)). rewrite bind_ret.
    destruct (named xs name) as [[b c']|] eqn:En; simpl.
    2: { exists (-1), fam1, w1, o1. split; [done|]. by eapply invoke_jump_nowhere. }
    assert (rank b < rank a)%nat as Hlt.
    { eapply Hrank; [done| |done]. apply list_elem_of_omap. exists t. split; [done|].
      unfold jump_of. by rewrite Ei, Hud. }
    pose proof (rank_count_lt xs rank a c b Hac Hlt).
    destruct (IH b c' (named_elem _ _ _ En) ltac:(lia) fam1 w1 o1) as (v & fam2 & w2 & o2 & E & Hrun).
    exists (match v with Stop => FC_TARGET_STOP | _ => FC_TARGET_CONTINUE end), fam2, w2, o2.
    split; [|by eapply invoke_jump]. unfold bind. rewrite E. by destruct v.
  - exists FC_TARGET_STOP, fam1, w1, o1. split; [done|]. by apply invoke_stop.
  - exists FC_TARGET_RETURN, fam1, w1, o1. split; [done|]. by apply invoke_return.
  - destruct (write_invoke_returns t fam1 w1 Ei Hto o1) as ([[st fam2] w2] & o2 & E & Eq). simpl in Eq.
    injection Eq as -> ->. exists FC_TARGET_CONTINUE, fam1, w2, o2. split; [done|]. by apply invoke_write.
  - unfold target_ok, invoke_ok in Hto. rewrite Ei in Hto.
    destruct (Hto fam1 w1 o1) as ([[st fam2] w2] & o2 & E & _).
    exists st, fam2, w2, o2. split; [done|]. by eapply invoke_plugin.
Qed.

Lemma process_runs fc xs rank a c fam w :
  chains_repr fc xs → Forall chain_ok xs.*2 → jumps_descend xs rank → (a, c) ∈ xs →
  ∀ o, ∃ v fam' w' o', fc_process_chain plugin_write fc (Some a) fam w o = Some (code v, fam', w', o') ∧
    chain_runs plugin_write xs c (fam, w, o) v (fam', w', o').
Proof.
  intros Hrep Hok Hrank Hac o. eapply run_chain_runs; [done..|].
  pose proof (chains_length _ _ Hrep). unfold traversal.
  assert (rank_count xs rank a ≤ length xs)%nat by apply length_filter. lia.
Qed.

(** C12. Processing a chain returns, whatever the matches, the targets and the
    allocator answer, when no cycle of jumps exists: it computes the verdict
    and the effects that the rules of [chain_runs] give, and the status is one
    of CONTINUE, STOP and RETURN. *)
Theorem fc_process_chain_spec fc xs rank a c fam w :
  chains_repr fc xs → Forall chain_ok xs.*2 → jumps_descend xs rank → (a, c) ∈ xs →
  ∀ o, ∃ v fam' w' o', fc_process_chain plugin_write fc (Some a) fam w o = Some (code v, fam', w', o') ∧
    chain_runs plugin_write xs c (fam, w, o) v (fam', w', o').
Proof. apply process_runs. Qed.

(** A chain without rules whose first default target jumps to the chain
    itself never returns: the processing exceeds every bound on the depth of
    the calls. *)
Theorem fc_jump_cycle_diverges fc xs a name t ts fuel fam w :
  chains_repr fc xs → named xs name = Some (a, mk_chain name [] (t :: ts)) →
  tp_invoke (t_proc t) = bit_jump_invoke → t_user_data t = Some (ud_chain name) →
  ∀ o, run_chain plugin_write fuel fc (Some a) fam w o = None.
Proof.
  intros Hrep Hn Ht Hud. pose proof (chains_length _ _ Hrep). destruct Hrep as (Hs & _ & _).
  pose proof (named_elem _ _ _ Hn) as Hac.
  revert fam w. induction fuel as [|fuel IH]; intros fam w o; [done|].
  destruct (seg_lookup _ _ _ _ _ _ Hs Hac) as [n En]. cbn [run_chain]. unfold bind at 1. rewrite En.
  cbn [mopt ret payload]. unfold process_chain. cbn [c_rules c_targets rule_loop target_loop]. rewrite bind_ret.
  cbn [ends_loop]. change (ends_loop FC_TARGET_CONTINUE) with false. cbv iota. unfold bind at 1 2.
  rewrite Ht, Hud. rewrite (find_chain_spec _ _ _ xs) by (done || (unfold traversal; lia)).
  rewrite bind_ret, Hn. cbn [fmap option_fmap option_map fst]. unfold bind. by rewrite IH.
Qed.
End process_theorems.

(** ** Configuration keeps the chains well-typed *)

Section config_defs.
Context {W D : Type}.
Implicit Types (fc : fc_state W D) (c : fc_chain_t W D).

Definition destroy_ok (d : option (destroy_t W D)) (ud : option (user_data D)) : Prop :=
  match d with Some f => ∀ w, wp (f ud w) (λ _, True) | None => True end.
Definition run_create (create : option (create_t W D)) (ci : oconfig_item_t) (w : W) :
    M (Z * option (user_data D) * W) :=
  match create with Some create => create ci w | None => ret (0, None, w) end.

(** A registered procedure returns; what it creates can be used and
    destroyed. *)
Definition target_proc_ok (p : target_proc_t W D) : Prop :=
  ∀ ci w, wp (run_create (tp_create p) ci w) (λ r,
    destroy_ok (tp_destroy p) r.1.2 ∧ (r.1.1 = 0 → invoke_ok p r.1.2)).
Definition match_proc_ok (p : match_proc_t W D) : Prop :=
  ∀ ci w, wp (run_create (mp_create p) ci w) (λ r,
    destroy_ok (mp_destroy p) r.1.2 ∧ (r.1.1 = 0 → ∀ fam w, wp (mp_match p fam r.1.2 w) (λ _, True))).
Definition registration_ok (r : fc_registration (W := W) (D := D)) : Prop :=
  match r with reg_match _ p => match_proc_ok p | reg_target _ p => target_proc_ok p end.

Definition match_good (m : fc_match_t W D) : Prop := match_ok m ∧ destroy_ok (mp_destroy (m_proc m)) (m_user_data m).
Definition target_good (t : fc_target_t W D) : Prop := target_ok t ∧ destroy_ok (tp_destroy (t_proc t)) (t_user_data t).
Definition rule_good (r : fc_rule_t W D) : Prop := Forall match_good (r_matches r) ∧ Forall target_good (r_targets r).
Definition chain_good c : Prop := Forall rule_good (c_rules c) ∧ Forall target_good (c_targets c).

Definition registry_ok fc : Prop :=
  Forall (λ m, match_proc_ok (m_proc m)) (match_list_head fc) ∧
  Forall (λ t, target_proc_ok (t_proc t)) (target_list_head fc).

Definition same_chains fc fc' : Prop := chains fc' = chains fc ∧ chain_list_head fc' = chain_list_head fc.

Lemma chain_good_ok c : chain_good c → chain_ok c.
Proof.
  intros [Hr Ht]. split; [|eapply list.Forall_impl; [exact Ht|by intros ? []]].
  eapply list.Forall_impl; [exact Hr|]. intros r [Hm Ht'].
  split; eapply list.Forall_impl; [exact Hm| |exact Ht'|]; by intros ? [].
Qed.

(** *** Freeing returns *)

Lemma free_matches_wp (ms : list (fc_match_t W D)) w :
  Forall (λ m, destroy_ok (mp_destroy (m_proc m)) (m_user_data m)) ms → wp (fc_free_matches ms w) (λ _, True).
Proof.
  intros H. revert w. induction H as [|m ms Hm _ IH]; intros w; simpl; [by apply wp_ret|].
  apply wp_bind. unfold destroy_ok in Hm.
  destruct (mp_destroy (m_proc m)); [eapply wp_mono; [apply Hm|]; intros ? _|apply wp_ret]; apply IH.
Qed.

Lemma free_targets_wp (ts : list (fc_target_t W D)) w :
  Forall (λ t, destroy_ok (tp_destroy (t_proc t)) (t_user_data t)) ts → wp (fc_free_targets ts w) (λ _, True).
Proof.
  intros H. revert w. induction H as [|t ts Ht _ IH]; intros w; simpl; [by apply wp_ret|].
  apply wp_bind. unfold destroy_ok in Ht.
  destruct (tp_destroy (t_proc t)); [eapply wp_mono; [apply Ht|]; intros ? _|apply wp_ret]; apply IH.
Qed.

Lemma free_good_targets (ts : list (fc_target_t W D)) w : Forall target_good ts → wp (fc_free_targets ts w) (λ _, True).
Proof. intros H. apply free_targets_wp. eapply list.Forall_impl; [exact H|by intros ? []]. Qed.

Lemma free_rules_wp (rs : list (fc_rule_t W D)) w : Forall rule_good rs → wp (fc_free_rules rs w) (λ _, True).
Proof.
  intros H. revert w. induction H as [|r rs [Hm Ht] _ IH]; intros w; simpl; [by apply wp_ret|].
  apply wp_bind. eapply wp_mono; [apply free_matches_wp; eapply list.Forall_impl; [exact Hm|by intros ? []]|].
  intros w1 _. apply wp_bind. eapply wp_mono; [by apply free_good_targets|]. intros w2 _. apply IH.
Qed.

(** Freeing from a chain on frees it and everything behind it. *)
Lemma free_chains_wp fuel (m : mem (fc_chain_t W D)) p xs w :
  seg m p xs None → NoDup xs.*1 → Forall chain_good xs.*2 → (length xs ≤ fuel)%nat →
  wp (fc_free_chains_loop fuel m p w) (λ r, r.1 = foldr delete m xs.*1).
Proof.
  revert p xs w. induction fuel as [|fuel IH]; intros p [|[a c] xs] w Hs Hnd Hg Hlen; simpl in *; try lia.
  1, 2: subst p; by apply wp_ret.
  destruct Hs as (-> & n & Ha & Hs). apply NoDup_cons in Hnd as [Hni Hnd]. apply Forall_cons_1 in Hg as [[Hr Ht] Hg].
  apply wp_bind. eapply wp_mopt; [done|]. simpl.
  apply wp_bind. eapply wp_mono; [by apply free_rules_wp|]. intros w1 _.
  apply wp_bind. eapply wp_mono; [by apply free_good_targets|]. intros w2 _.
  apply wp_bind. eapply wp_mono; [apply (IH n xs w2); auto; lia|]. intros [m' w3] Hm. simpl in Hm.
  assert (m' !! a = Some (mk_node c n)) as Ha'.
  { rewrite Hm, lookup_foldr_delete_not_elem_of by done. done. }
  apply wp_bind. eapply wp_mopt; [unfold node_free; by rewrite Ha'|]. apply wp_ret. simpl. by rewrite Hm.
Qed.
End config_defs.

Section config_lemmas.
Context {W D : Type} (auto_load : W → bool) (plugin_load : cstr → W → M (Z * list (fc_registration (W := W) (D := D)) * W)).
Hypothesis plugin_load_returns :
  ∀ name w, wp (plugin_load name w) (λ r, Forall registration_ok r.1.2).
Implicit Types (fc : fc_state W D) (c : fc_chain_t W D) (w : W).

Lemma same_chains_trans fc1 fc2 fc3 : same_chains fc1 fc2 → same_chains fc2 fc3 → same_chains fc1 fc3.
Proof. intros [] []. split; congruence. Qed.

Lemma register_match_wp fc name (p : match_proc_t W D) : registry_ok fc → match_proc_ok p →
  wp (fc_register_match fc name p) (λ r, registry_ok r.2 ∧ same_chains fc r.2).
Proof.
  intros [Hm Ht] Hp. unfold fc_register_match. apply wp_bind, wp_alloc. intros []; apply wp_ret; [|done].
  split; [|done]. split; [|done]. apply list.Forall_app. split; [done|]. by apply Forall_singleton.
Qed.

Lemma register_target_wp fc name (p : target_proc_t W D) : registry_ok fc → target_proc_ok p →
  wp (fc_register_target fc name p) (λ r, registry_ok r.2 ∧ same_chains fc r.2).
Proof.
  intros [Hm Ht] Hp. unfold fc_register_target. apply wp_bind, wp_alloc. intros []; apply wp_ret; [|done].
  split; [|done]. split; [done|]. apply list.Forall_app. split; [done|]. by apply Forall_singleton.
Qed.

Lemma register_all_wp fc l : registry_ok fc → Forall registration_ok l →
  wp (fc_register_all fc l) (λ fc', registry_ok fc' ∧ same_chains fc fc').
Proof.
  intros Hfc Hl. revert fc Hfc. induction Hl as [|[name p|name p] l Hr _ IH]; intros fc Hfc; simpl.
  - by apply wp_ret.
  - apply wp_bind. eapply wp_mono; [by apply register_match_wp|]. intros [st fc1] [H1 H2].
    eapply wp_mono; [by apply IH|]. intros fc2 [? ?]. split; [done|]. by eapply same_chains_trans.
  - apply wp_bind. eapply wp_mono; [by apply register_target_wp|]. intros [st fc1] [H1 H2].
    eapply wp_mono; [by apply IH|]. intros fc2 [? ?]. split; [done|]. by eapply same_chains_trans.
Qed.

(** The built-in targets. *)
Lemma jump_proc_ok : target_proc_ok (W := W) (D := D) jump_proc.
Proof.
  intros ci w. simpl. unfold fc_bit_jump_create.
  assert (∀ st, st ≠ 0 → wp (ret (st, None, w)) (λ r : Z * option (user_data D) * W,
    destroy_ok (W := W) (tp_destroy jump_proc) r.1.2 ∧ (r.1.1 = 0 → invoke_ok (W := W) jump_proc r.1.2))) as Hfail.
  { intros st Hst. apply wp_ret. split; [by intros ?; apply wp_ret|done]. }
  destruct (children ci) as [|ch [|]]; try by apply Hfail. case_match; [by apply Hfail|].
  destruct (values ch) as [|[s| |] [|]]; try by apply Hfail.
  apply wp_bind, wp_alloc. intros []; [|by apply Hfail]. apply wp_ret.
  split; [by intros ?; apply wp_ret|]. intros _. by exists s.
Qed.

Lemma add_writers_wp vs l : wp (add_writers vs l) (λ _, True).
Proof.
  revert l. induction vs as [|[s| |] vs IH]; intros l; simpl; auto; [by apply wp_ret|].
  apply wp_bind, wp_alloc. intros []; [|apply IH]. apply wp_bind, wp_alloc. intros ok. apply IH.
Qed.

Lemma write_proc_ok : target_proc_ok (W := W) (D := D) write_proc.
Proof.
  intros ci w. simpl. unfold fc_bit_write_create. apply wp_bind.
  eapply wp_mono with (P := λ _, True).
  - generalize (@None (list cstr)). induction (children ci) as [|ch cs IH]; intros l; simpl; [by apply wp_ret|].
    case_match; [apply IH|]. apply wp_bind. eapply wp_mono; [apply add_writers_wp|]. intros l' _. apply IH.
  - intros l _. apply wp_ret. split; [by intros ?; apply wp_ret|]. intros _. by destruct l.
Qed.

Lemma stop_proc_ok : target_proc_ok (W := W) (D := D) stop_proc.
Proof. intros ci w. by apply wp_ret. Qed.
Lemma return_proc_ok : target_proc_ok (W := W) (D := D) return_proc.
Proof. intros ci w. by apply wp_ret. Qed.

Lemma init_once_wp fc : registry_ok fc → wp (fc_init_once fc) (λ r, registry_ok r.2 ∧ same_chains fc r.2).
Proof.
  intros Hfc. unfold fc_init_once. destruct (fc_done fc); [by apply wp_ret|].
  apply wp_bind. eapply wp_mono; [apply register_target_wp; [done|apply jump_proc_ok]|]. intros [? fc1] [H1 S1].
  apply wp_bind. eapply wp_mono; [apply register_target_wp; [done|apply stop_proc_ok]|]. intros [? fc2] [H2 S2].
  apply wp_bind. eapply wp_mono; [apply register_target_wp; [done|apply return_proc_ok]|]. intros [? fc3] [H3 S3].
  apply wp_bind. eapply wp_mono; [apply register_target_wp; [done|apply write_proc_ok]|]. intros [? fc4] [H4 S4].
  apply wp_ret. split; [exact H4|]. simpl in *. unfold same_chains in *. simpl. intuition congruence.
Qed.

(** Looking up a procedure, possibly after loading a plugin. *)
Lemma lookup_or_load_wp {A} (P : A → Prop) find prefix name fc w :
  (∀ fc x, registry_ok fc → find fc name = Some x → P x) → registry_ok fc →
  wp (lookup_or_load auto_load plugin_load find prefix name fc w) (λ r,
    registry_ok r.1.2 ∧ same_chains fc r.1.2 ∧
    match r.1.1 with inr x => P x | inl st => st ≠ 0 end).
Proof.
  intros HP Hfc. unfold lookup_or_load. destruct (find fc name) as [x|] eqn:E; [apply wp_ret; split_and!; [done|done|by eapply HP]|].
  case_match; [|by apply wp_ret]. case_match; [by apply wp_ret|].
  apply wp_bind. eapply wp_mono; [apply plugin_load_returns|]. intros [[st regs] w1] Hr. simpl in Hr.
  apply wp_bind. eapply wp_mono; [by apply register_all_wp|]. intros fc1 [H1 S1].
  destruct (Z.eqb_spec st 0); simpl; apply wp_ret; simpl; split_and!; try done.
  destruct (find fc1 name) eqn:E1; [by eapply HP|done].
Qed.

Lemma find_match_ok fc name m : registry_ok fc → find_match (match_list_head fc) name = Some m → match_proc_ok (m_proc m).
Proof.
  unfold find_match. intros [Hm _]. destruct (list_find _ _) as [[i x]|] eqn:E; [|done]. intros [= <-].
  apply list_find_Some in E as (E & _). simpl. by eapply list.Forall_lookup in Hm.
Qed.

Lemma find_target_ok fc name t : registry_ok fc → find_target (target_list_head fc) name = Some t → target_proc_ok (t_proc t).
Proof.
  unfold find_target. intros [_ Ht]. destruct (list_find _ _) as [[i x]|] eqn:E; [|done]. intros [= <-].
  apply list_find_Some in E as (E & _). simpl. by eapply list.Forall_lookup in Ht.
Qed.

Lemma add_match_wp ms ci fc w : registry_ok fc → Forall match_good ms →
  wp (fc_config_add_match auto_load plugin_load ms ci fc w) (λ r,
    registry_ok r.1.2 ∧ same_chains fc r.1.2 ∧ Forall match_good r.1.1.2).
Proof.
  intros Hfc Hms. unfold fc_config_add_match. destruct (values ci) as [|[name| |] [|]]; try by apply wp_ret.
  apply wp_bind. eapply wp_mono.
  { apply lookup_or_load_wp with (P := λ m, match_proc_ok (m_proc m)); [|done]. intros ? ?. apply find_match_ok. }
  intros [[[st|p] fc1] w1] (H1 & S1 & Hp); cbn [fst snd] in *; [by apply wp_ret|].
  apply wp_bind, wp_alloc. intros []; [|by apply wp_ret]. cbn [negb]. apply wp_bind.
  eapply wp_mono; [apply (Hp ci w1)|]. intros [[st ud] w2] [Hd Hu]. cbn [fst snd] in *.
  destruct (Z.eqb_spec st 0); cbn [negb].
  - apply wp_ret. simpl. split_and!; [done..|]. apply list.Forall_app. split; [done|].
    apply Forall_singleton. split; [|done]. intros fam w'. by apply Hu.
  - apply wp_bind. eapply wp_mono; [apply (free_matches_wp [_]); by apply Forall_singleton|].
    intros w3 _. by apply wp_ret.
Qed.

Lemma add_target_wp ts ci fc w : registry_ok fc → Forall target_good ts →
  wp (fc_config_add_target auto_load plugin_load ts ci fc w) (λ r,
    registry_ok r.1.2 ∧ same_chains fc r.1.2 ∧ Forall target_good r.1.1.2).
Proof.
  intros Hfc Hts. unfold fc_config_add_target. destruct (values ci) as [|[name| |] [|]]; try by apply wp_ret.
  apply wp_bind. eapply wp_mono.
  { apply lookup_or_load_wp with (P := λ t, target_proc_ok (t_proc t)); [|done]. intros ? ?. apply find_target_ok. }
  intros [[[st|p] fc1] w1] (H1 & S1 & Hp); cbn [fst snd] in *; [by apply wp_ret|].
  apply wp_bind, wp_alloc. intros []; [|by apply wp_ret]. cbn [negb]. apply wp_bind.
  eapply wp_mono; [apply (Hp ci w1)|]. intros [[st ud] w2] [Hd Hu]. cbn [fst snd] in *.
  destruct (Z.eqb_spec st 0); cbn [negb].
  - apply wp_ret. simpl. split_and!; [done..|]. apply list.Forall_app. split; [done|].
    apply Forall_singleton. split; [|done]. by apply Hu.
  - apply wp_bind. eapply wp_mono; [apply (free_targets_wp [_]); by apply Forall_singleton|].
    intros w3 _. by apply wp_ret.
Qed.

Lemma rule_options_wp cs rule fc w : registry_ok fc → rule_good rule →
  wp (rule_options auto_load plugin_load cs rule fc w) (λ r,
    registry_ok r.1.2 ∧ same_chains fc r.1.2 ∧ rule_good r.1.1.2).
Proof.
  revert rule fc w. induction cs as [|opt cs IH]; intros rule fc w Hfc [Hm Ht]; simpl; [by apply wp_ret|].
  apply wp_bind. eapply wp_mono with (P := λ r, registry_ok r.1.2 ∧ same_chains fc r.1.2 ∧ rule_good r.1.1.2).
  - case_match; [|case_match; [|by apply wp_ret]]; apply wp_bind.
    + eapply wp_mono; [by apply add_match_wp|]. intros [[[st ms] fc1] w1] (H1 & S1 & Hg). by apply wp_ret.
    + eapply wp_mono; [by apply add_target_wp|]. intros [[[st ts] fc1] w1] (H1 & S1 & Hg). by apply wp_ret.
  - intros [[[st rule1] fc1] w1] (H1 & S1 & Hg). simpl in *. case_match; [by apply wp_ret|].
    eapply wp_mono; [by apply IH|]. intros r (? & ? & ?). split_and!; [done| |done]. by eapply same_chains_trans.
Qed.

(** A step of the configuration of the chain at [a]: the chain, its name
    unchanged, is the only thing in memory that is written. *)
Definition chain_step (a : ptr) (n : node (fc_chain_t W D)) fc fc' : Prop :=
  registry_ok fc' ∧ chain_list_head fc' = chain_list_head fc ∧
  ∃ c', chains fc' = <[a := mk_node c' (next n)]> (chains fc) ∧ chain_good c' ∧ c_name c' = c_name (payload n).

Lemma chain_step_id a n fc fc' : chains fc !! a = Some n → chain_good (payload n) → registry_ok fc' →
  same_chains fc fc' → chain_step a n fc fc'.
Proof.
  intros Ha Hg Hr [Hc Hh]. split_and!; [done|done|]. exists (payload n). split_and!; [|done..].
  rewrite Hc, insert_id; [done|]. by destruct n.
Qed.

Lemma chain_step_trans a n n' fc1 fc2 fc3 :
  next n' = next n → c_name (payload n') = c_name (payload n) →
  chain_step a n fc1 fc2 → chain_step a n' fc2 fc3 → chain_step a n fc1 fc3.
Proof.
  intros Hn Hnm (_ & H1 & c1 & E1 & _) (R & H2 & c2 & E2 & G & N). split_and!; [done|congruence|].
  exists c2. split_and!; [|done|congruence]. rewrite E2, E1, insert_insert_eq. by rewrite Hn.
Qed.

Lemma update_chain_wp a n fc f : registry_ok fc → chains fc !! a = Some n → chain_good (f (payload n)) →
  c_name (f (payload n)) = c_name (payload n) →
  wp (update_chain fc a f) (λ fc', chain_step a n fc fc').
Proof.
  intros Hr Ha Hg Hn. unfold update_chain. apply wp_bind. eapply wp_mopt; [done|]. apply wp_ret.
  split_and!; [exact Hr|done|]. by exists (f (payload n)).
Qed.

Lemma add_rule_wp a n ci fc w : registry_ok fc → chains fc !! a = Some n → chain_good (payload n) →
  wp (fc_config_add_rule auto_load plugin_load a ci fc w) (λ r, chain_step a n fc r.1.2).
Proof.
  intros Hr Ha Hg. unfold fc_config_add_rule.
  assert (∀ fc' st w', registry_ok fc' → same_chains fc fc' →
    wp (ret (st, fc', w')) (λ r : Z * fc_state W D * W, chain_step a n fc r.1.2)) as Hfail.
  { intros fc' st w' H S. apply wp_ret. by apply chain_step_id. }
  destruct (rule_argument ci) as [name|]; [|by apply Hfail].
  apply wp_bind, wp_alloc. intros []; [|by apply Hfail]. cbn [negb]. apply wp_bind.
  eapply wp_mono; [apply rule_options_wp; [done|by split; constructor]|].
  intros [[[st rule] fc1] w1] (H1 & S1 & Hrule). cbn [fst snd] in *. case_match.
  - apply wp_bind. eapply wp_mono; [apply free_rules_wp; by apply Forall_singleton|]. intros w2 _. by apply Hfail.
  - apply wp_bind. eapply wp_mono; [apply update_chain_wp with (n := n)|]; [done|by destruct S1 as [-> _]| |done|].
    { destruct Hg as [Hg1 Hg2]. split; [|done]. apply list.Forall_app. split; [done|]. by apply Forall_singleton. }
    intros fc2 Hs. apply wp_ret. eapply chain_step_trans; [| |by apply chain_step_id|exact Hs]; done.
Qed.

Lemma chain_options_wp cs a n fc w : registry_ok fc → chains fc !! a = Some n → chain_good (payload n) →
  wp (chain_options auto_load plugin_load cs a fc w) (λ r, chain_step a n fc r.1.2).
Proof.
  revert n fc w. induction cs as [|opt cs IH]; intros n fc w Hr Ha Hg; simpl.
  { apply wp_ret. by apply chain_step_id. }
  apply wp_bind. eapply wp_mono with (P := λ r, chain_step a n fc r.1.2).
  - case_match; [by apply add_rule_wp|]. case_match; [|apply wp_ret; by apply chain_step_id].
    destruct Hg as [Hg1 Hg2]. apply wp_bind. eapply wp_mopt; [done|]. apply wp_bind.
    eapply wp_mono; [by apply add_target_wp|]. intros [[[st ts] fc1] w1] (H1 & S1 & Ht). cbn [fst snd] in *.
    apply wp_bind. eapply wp_mono; [apply update_chain_wp with (n := n)|]; [done|by destruct S1 as [-> _]|by split|done|].
    intros fc2 Hs. apply wp_ret. eapply chain_step_trans; [| |by apply chain_step_id|exact Hs]; done.
  - intros [[st fc1] w1] Hs. cbn [fst snd] in Hs. case_match; [by apply wp_ret|].
    pose proof Hs as (H1 & _ & c1 & E1 & G1 & N1).
    eapply wp_mono; [apply IH with (n := mk_node c1 (next n)); [done|by rewrite E1, lookup_insert_eq|done]|].
    intros r Hs'. by eapply chain_step_trans; [| |exact Hs|exact Hs'].
Qed.

Lemma named_split (xs : list (ptr * fc_chain_t W D)) name a c : named xs name = Some (a, c) →
  ∃ pre post, xs = pre ++ (a, c) :: post.
Proof. intros H%named_elem. by apply list_elem_of_split in H. Qed.

Lemma last_chain_spec fuel (m : mem (fc_chain_t W D)) p pre b c :
  seg m (Some p) (pre ++ [(b, c)]) None → (length pre ≤ fuel)%nat → last_chain fuel m p = ret b.
Proof.
  revert fuel p. induction pre as [|[x cx] pre IH]; intros fuel p; simpl.
  - intros ([= ->] & n & E & ->) _. destruct fuel; simpl; by rewrite E.
  - intros ([= ->] & n & E & Hs) Hlen. destruct fuel as [|fuel]; [lia|].
    simpl. rewrite E. cbn [mopt]. rewrite bind_ret. cbn [next].
    pose proof (seg_head _ _ _ _ Hs) as Hh. destruct n as [q|]; [|by destruct pre as [|[]]].
    apply IH; [done|lia].
Qed.

(** Linking a new chain. *)
Lemma append_chain_wp fc xs a c : seg (chains fc) (chain_list_head fc) xs None → NoDup (xs ++ [(a, c)]).*1 →
  chains fc !! a = Some (mk_node c None) → dom (chains fc) = list_to_set (xs ++ [(a, c)]).*1 → registry_ok fc →
  wp (append_chain fc a) (λ fc', registry_ok fc' ∧ chains_repr fc' (xs ++ [(a, c)])).
Proof.
  intros Hs Hnd Ha Hdom Hr. pose proof (nodup_fst_app _ _ Hnd) as (Hnd1 & _ & Hdis).
  unfold append_chain. destruct (chain_list_head fc) as [h|] eqn:Eh.
  - destruct xs as [|[b cb] pre _] using rev_ind; [done|].
    rewrite (last_chain_spec _ _ _ pre b cb); [|done|].
    2: { pose proof (seg_length _ _ _ _ Hs Hnd1) as Hl. rewrite length_app in Hl. unfold traversal. simpl in Hl. lia. }
    rewrite bind_ret. destruct (seg_lookup _ _ _ _ b cb Hs) as [nb Eb]; [set_solver|].
    apply wp_bind. eapply wp_mopt; [unfold set_next; by rewrite Eb|]. apply wp_ret.
    split; [exact Hr|]. split_and!; simpl.
    + apply seg_app. exists (Some a). split; [by eapply seg_set_last|]. simpl. split; [done|]. exists None.
      split; [|done]. rewrite lookup_insert_ne; [done|]. specialize (Hdis b). set_solver.
    + done.
    + rewrite dom_insert_lookup_L by eauto. done.
  - destruct xs as [|[b cb] xs]; [|by destruct Hs]. apply wp_ret. split; [exact Hr|].
    split_and!; [|done|done]. simpl. split; [done|]. eauto.
Qed.

(** The chain being configured is a new one, or the one of that name. *)
Definition configured (xs xs' : list (ptr * fc_chain_t W D)) (name : cstr) : Prop :=
  c_name <$> xs'.*2 = (c_name <$> xs.*2) ++ match named xs name with Some _ => [] | None => [copy_name name] end.

(** A chain that is still linked was freed, with every chain behind it. *)
Definition dangling fc xs a : Prop :=
  ∃ pre c post, xs = pre ++ (a, c) :: post ∧ seg (chains fc) (chain_list_head fc) pre (Some a) ∧
    dom (chains fc) = list_to_set pre.*1.

Lemma configure_new fc xs name ci w :
  registry_ok fc → chains_repr fc xs → Forall chain_good xs.*2 → named xs name = None →
  let a := fresh (dom (chains fc)) in
  let fc1 := set_chains fc (<[a := mk_node (mk_chain (copy_name name) [] []) None]> (chains fc)) (chain_list_head fc) in
  wp (chain_options auto_load plugin_load (children ci) a fc1 w) (λ '(status, fc, w),
    wp (if negb (status =? 0) then
          let* '(m, w) := fc_free_chains (chains fc) (Some a) w in
          ret (-1, set_chains fc m (chain_list_head fc), w)
        else let* fc := append_chain fc a in ret (0, fc, w)) (λ '(st, fc', w'), registry_ok fc' ∧
      (st = 0 ∧ (∃ xs', chains_repr fc' xs' ∧ Forall chain_good xs'.*2 ∧ configured xs xs' name) ∨
       st = -1 ∧ chains_repr fc' xs))).
Proof.
  intros Hr (Hs & Hnd & Hdom) Hg Hn a fc1.
  assert (a ∉ xs.*1) as Hax. { pose proof (is_fresh (dom (chains fc))) as Hf. rewrite Hdom in Hf at 2. set_solver. }
  assert (chains fc !! a = None) as Ha. { apply not_elem_of_dom. apply is_fresh. }
  eapply wp_mono.
  { apply chain_options_wp with (n := mk_node (mk_chain (copy_name name) [] []) None);
      [exact Hr|apply lookup_insert_eq|by split; constructor]. }
  intros [[st fc2] w2] (R2 & H2 & c2 & E2 & G2 & N2). cbn [fst snd next payload c_name fc1 chain_list_head set_chains chains] in *.
  rewrite insert_insert_eq in E2.
  assert (seg (chains fc2) (chain_list_head fc2) xs None) as Hs2.
  { rewrite H2, E2. eapply seg_frame; [done|]. intros b Hb. rewrite lookup_insert_ne; [done|]. by intros <-. }
  case_match.
  - apply wp_bind. unfold fc_free_chains. eapply wp_mono; [apply free_chains_wp with (xs := [(a, c2)])|].
    + simpl. split; [done|]. exists None. split; [by rewrite E2, lookup_insert_eq|done].
    + apply NoDup_singleton.
    + by apply Forall_singleton.
    + unfold traversal. simpl. lia.
    + intros [m w3]. simpl. intros ->. apply wp_ret. split; [exact R2|]. right. split; [done|].
      rewrite E2, delete_insert_id by done. split_and!; simpl; [by rewrite H2|done|done].
  - apply wp_bind. eapply wp_mono; [apply append_chain_wp with (xs := xs) (c := c2)|].
    + done.
    + rewrite fmap_app. apply list.NoDup_app. split_and!; [done|set_solver|apply NoDup_singleton].
    + by rewrite E2, lookup_insert_eq.
    + rewrite E2, dom_insert_L, Hdom, fmap_app. set_solver.
    + done.
    + intros fc3 [R3 Hrep]. apply wp_ret. split; [done|]. left. split; [done|]. eexists. split; [done|].
      split; [rewrite fmap_app; apply list.Forall_app; split; [done|by apply Forall_singleton]|].
      unfold configured. rewrite Hn, !fmap_app. simpl. by rewrite N2.
Qed.

Lemma foldr_delete_insert (m : mem (fc_chain_t W D)) a n l : a ∈ l → foldr delete (<[a := n]> m) l = foldr delete m l.
Proof.
  intros Ha. apply map_eq. intros i. destruct (decide (i ∈ l)) as [Hi|Hi].
  - by rewrite !lookup_foldr_delete.
  - rewrite !lookup_foldr_delete_not_elem_of by done. rewrite lookup_insert_ne; [done|]. by intros ->.
Qed.

Lemma configure_old fc xs name a c ci w :
  registry_ok fc → chains_repr fc xs → Forall chain_good xs.*2 → named xs name = Some (a, c) →
  wp (chain_options auto_load plugin_load (children ci) a fc w) (λ '(status, fc, w),
    wp (if negb (status =? 0) then
          let* '(m, w) := fc_free_chains (chains fc) (Some a) w in
          ret (-1, set_chains fc m (chain_list_head fc), w)
        else ret (0, fc, w)) (λ '(st, fc', w'), registry_ok fc' ∧
      (st = 0 ∧ (∃ xs', chains_repr fc' xs' ∧ Forall chain_good xs'.*2 ∧ configured xs xs' name) ∨
       st = -1 ∧ dangling fc' xs a))).
Proof.
  intros Hr (Hs & Hnd & Hdom) Hg Hn. destruct (named_split _ _ _ _ Hn) as (pre & post & Exs).
  pose proof Hs as Hs0. rewrite Exs in Hs0. apply seg_app in Hs0 as (q & Hpre & -> & n & Ea & Hpost).
  assert (NoDup (pre.*1 ++ a :: post.*1)) as (Hnd1 & Hdis & [Hap Hnd2]%NoDup_cons)%list.NoDup_app
    by (by rewrite Exs, fmap_app in Hnd).
  rewrite Exs, fmap_app in Hg. apply list.Forall_app in Hg as [Hg1 [Hgc Hg2]%Forall_cons_1].
  eapply wp_mono; [by apply chain_options_wp with (n := mk_node c n)|].
  intros [[st fc2] w2] (R2 & H2 & c2 & E2 & G2 & N2). cbn [fst snd next payload] in *.
  assert (∀ b, b ∈ pre.*1 → chains fc2 !! b = chains fc !! b) as Hf1.
  { intros b Hb. rewrite E2, lookup_insert_ne; [done|]. intros <-. apply (Hdis a Hb). set_solver. }
  assert (∀ b, b ∈ post.*1 → chains fc2 !! b = chains fc !! b) as Hf2.
  { intros b Hb. rewrite E2, lookup_insert_ne; [done|]. by intros <-. }
  assert (seg (chains fc2) (Some a) ((a, c2) :: post) None) as Hsa.
  { simpl. split; [done|]. exists n. split; [by rewrite E2, lookup_insert_eq|]. by eapply seg_frame. }
  assert (seg (chains fc2) (chain_list_head fc2) pre (Some a)) as Hsp by (rewrite H2; by eapply seg_frame).
  case_match.
  - apply wp_bind. unfold fc_free_chains.
    assert (NoDup ((a, c2) :: post).*1) as Hnd3 by (simpl; by apply NoDup_cons).
    eapply wp_mono; [apply (free_chains_wp _ _ _ _ _ Hsa Hnd3)|].
    + simpl. by apply Forall_cons_2.
    + pose proof (seg_length _ _ _ _ Hsa Hnd3). unfold traversal. lia.
    + intros [m w3] Hm. cbn [fst] in Hm. rewrite fmap_cons in Hm. cbn [fst] in Hm. apply wp_ret. split; [exact R2|].
      right. split; [done|]. exists pre, c, post. split; [done|]. cbn [chains chain_list_head set_chains]. rewrite Hm. split.
      * eapply seg_frame; [exact Hsp|]. intros b Hb.
        apply lookup_foldr_delete_not_elem_of. by apply Hdis.
      * apply set_eq. intros b. rewrite elem_of_list_to_set, E2, foldr_delete_insert by set_solver.
        split.
        -- intros [x Hx]%elem_of_dom. assert (b ∈ xs.*1) as Hb.
           { rewrite <-(elem_of_list_to_set (C := gset ptr)), <-Hdom. apply elem_of_dom.
             destruct (decide (b ∈ a :: post.*1)); [by rewrite lookup_foldr_delete in Hx|].
             rewrite lookup_foldr_delete_not_elem_of in Hx by done. by exists x. }
           rewrite Exs, fmap_app in Hb. apply elem_of_app in Hb as [Hb|Hb]; [done|].
           by rewrite lookup_foldr_delete in Hx.
        -- intros Hb. apply elem_of_dom. rewrite lookup_foldr_delete_not_elem_of by (by apply Hdis).
           exact (seg_alloc _ _ _ _ _ Hpre Hb).
  - apply wp_ret. split; [done|]. left. split; [done|]. exists (pre ++ (a, c2) :: post). split_and!.
    + split_and!; [apply seg_app; by exists (Some a)| |].
      * rewrite fmap_app. simpl. apply list.NoDup_app. split_and!; [done|done|by apply NoDup_cons].
      * rewrite E2, dom_insert_lookup_L, Hdom, Exs, !fmap_app by eauto. done.
    + rewrite fmap_app. apply list.Forall_app. split; [done|]. by apply Forall_cons_2.
    + unfold configured. rewrite Hn, Exs, !fmap_app, app_nil_r. simpl. by rewrite N2.
Qed.

Lemma add_chain_wp fc xs name ci w :
  registry_ok fc → chains_repr fc xs → Forall chain_good xs.*2 → values ci = [OCONFIG_TYPE_STRING name] →
  wp (fc_config_add_chain auto_load plugin_load ci fc w) (λ '(st, fc', w'), registry_ok fc' ∧
    (st = 0 ∧ (∃ xs', chains_repr fc' xs' ∧ Forall chain_good xs'.*2 ∧ configured xs xs' name) ∨
     st = -1 ∧ match named xs name with None => chains_repr fc' xs | Some (a, _) =>  dangling fc' xs a end)).
Proof.
  intros Hr Hrep Hg Hv. pose proof Hrep as (Hs & Hnd & Hdom). pose proof (chains_length _ _ Hrep) as Hlen.
  unfold fc_config_add_chain. rewrite Hv.
  assert (match chain_list_head fc with Some _ => fc_chain_get_by_name fc (Some name) | None => ret None end
          = ret (fst <$> named xs name)) as ->.
  { destruct (chain_list_head fc) as [h|] eqn:Eh.
    - unfold fc_chain_get_by_name. rewrite Eh. apply find_chain_spec; [done|unfold traversal; lia].
    - by destruct xs as [|[]]; [|destruct Hs]. }
  rewrite bind_ret. destruct (named xs name) as [[a c]|] eqn:En; cbn [fmap option_fmap option_map fst].
  - rewrite bind_ret. cbn [negb]. apply wp_bind. eapply wp_mono; [by apply (configure_old fc xs name a c ci w)|].
    intros [[st fc2] w2] H. destruct (negb (st =? 0)); [exact H|].
    destruct (chain_list_head fc2) eqn:Eh; [exact H|].
    exfalso. destruct (H []) as ([[st' fc'] w'] & o' & E & R & Hor). unfold ret in E. injection E as <- <- <- <-.
    destruct Hor as [[_ (xs' & (Hs' & _) & _ & Hc)]|[? _]]; [|done]. rewrite Eh in Hs'. destruct xs' as [|[]]; [|by destruct Hs'].
    unfold configured in Hc. rewrite En, app_nil_r in Hc. apply named_split in En as (pre & post & ->).
    rewrite !fmap_app in Hc. by destruct pre.
  - apply wp_bind, wp_alloc. intros []; simpl negb; cbv iota.
    + apply wp_bind. eapply wp_mono; [by apply (configure_new fc xs name ci w)|].
      intros [[st fc2] w2] H. destruct (negb (st =? 0)); [exact H|]. by destruct (chain_list_head fc2).
    + apply wp_ret. split; [done|]. right. done.
Qed.

(** C13. Configuring a <Chain> block is free of undefined behaviour and keeps
    the chains well-typed: on success the block's chain is extended in place or
    appended under its (truncated) name, every other chain keeps its place, and
    every target that was created can be run; on failure the status is -1, a
    new chain leaves no trace, but an existing chain of that name is freed,
    with all chains behind it, while the list still points to it. *)
Theorem fc_configure_spec fc xs name ci w :
  registry_ok fc → chains_repr fc xs → Forall chain_good xs.*2 →
  strcasecmp $"Chain" (key ci) = 0 → values ci = [OCONFIG_TYPE_STRING name] →
  wp (fc_configure auto_load plugin_load (Some ci) fc w) (λ '(st, fc', w'), registry_ok fc' ∧
    (st = 0 ∧ (∃ xs', chains_repr fc' xs' ∧ Forall chain_good xs'.*2 ∧ configured xs xs' name) ∨
     st = -1 ∧ match named xs name with None => chains_repr fc' xs | Some (a, _) => dangling fc' xs a end)).
Proof.
  intros Hr Hrep Hg Hk Hv. unfold fc_configure. apply wp_bind. eapply wp_mono; [by apply init_once_wp|].
  intros [st fc1] [R1 [Ec Eh]]. cbn [snd] in *. rewrite Hk. simpl.
  apply add_chain_wp; [done| |done|done]. unfold chains_repr. by rewrite Ec, Eh.
Qed.

End config_lemmas.

(** After such a failure, looking up any name that is not found before
    the freed chain reads freed memory. *)
Theorem fc_failed_configuration_dangles {W D} (fc : fc_state W D) xs a name :
  NoDup xs.*1 → dangling fc xs a → (∀ pre x post, xs = pre ++ x :: post → x.1 = a → named pre name = None) →
  ∀ o, fc_chain_get_by_name fc (Some name) o = None.
Proof.
  intros Hnd (pre & c & post & -> & Hs & Hdom) Hno o. specialize (Hno pre (a, c) post eq_refl eq_refl).
  rewrite fmap_app in Hnd. apply list.NoDup_app in Hnd as (Hnd & Hdis & _).
  assert (chains fc !! a = None) as Ha.
  { apply not_elem_of_dom. rewrite Hdom, elem_of_list_to_set. intros Hin. apply (Hdis a Hin). set_solver. }
  pose proof (seg_length _ _ _ _ Hs Hnd) as Hlen. unfold fc_chain_get_by_name, traversal. clear Hdom Hdis Hnd.
  revert Hs Hno Hlen. generalize (chain_list_head fc). generalize (size (chains fc)).
  induction pre as [|[b cb] pre IH]; intros n q Hs Hno Hlen; simpl in Hs.
  - subst q. cbn [find_chain]. unfold bind. by rewrite Ha.
  - destruct Hs as (-> & nb & Eb & Hs). cbn [find_chain]. unfold bind. rewrite Eb. cbn [mopt ret payload next].
    unfold named in Hno. simpl in Hno. destruct (Z.eqb_spec (strcasecmp name (c_name cb)) 0) as [E|E].
    + by rewrite decide_True in Hno.
    + rewrite decide_False in Hno by done. simpl in Hlen. destruct n as [|n]; [lia|].
      apply IH; [done| |lia]. unfold named. by destruct (list_find _ pre) as [[]|].
Qed.

(** ** Examples

    The state of the daemon is a log of writes. *)

Definition demo_write (plugin : option cstr) (fam : metric_family_t) (w : list cstr) : M (Z * list cstr) :=
  ret (0, w ++ [default $"all" plugin]).
Definition demo_load (name : cstr) (w : list cstr) :
    M (Z * list (fc_registration (W := list cstr) (D := unit)) * list cstr) := ret (1, [], w).
Definition demo_fam : metric_family_t := mk_family (Some $"cpu") None METRIC_TYPE_GAUGE [].

Definition demo_target (name : cstr) (p : target_proc_t (list cstr) unit) ud : fc_target_t (list cstr) unit :=
  mk_target name p ud.
Definition sub_chain : fc_chain_t (list cstr) unit :=
  mk_chain $"Sub" [] [demo_target $"write" write_proc (Some (ud_writers [$"csv"])); demo_target $"stop" stop_proc None].
Definition main_chain : fc_chain_t (list cstr) unit :=
  mk_chain $"PreCache" [mk_rule [] [] [demo_target $"jump" jump_proc (Some (ud_chain $"SUB"))]]
    [demo_target $"write" write_proc None].
Definition demo_chains : list (ptr * fc_chain_t (list cstr) unit) := [(1%positive, main_chain); (2%positive, sub_chain)].
Definition demo_fc : fc_state (list cstr) unit :=
  mk_fc [] [] (<[1%positive := mk_node main_chain (Some 2%positive)]> {[2%positive := mk_node sub_chain None]})
    (Some 1%positive) true.

Example demo_process : fc_process_chain demo_write demo_fc (Some 1%positive) demo_fam [] ⇓
  (FC_TARGET_STOP, demo_fam, [$"csv"]).
Proof. by vm_compute. Qed.

Lemma demo_chains_repr : chains_repr demo_fc demo_chains.
Proof.
  split_and!.
  - simpl. split; [done|]. eexists. split; [reflexivity|]. split; [done|]. eexists. split; reflexivity.
  - by apply (bool_decide_unpack _).
  - by apply (bool_decide_unpack _).
Qed.

Lemma demo_write_returns plugin fam w : wp (demo_write plugin fam w) (λ _, True).
Proof. by apply wp_ret. Qed.

Lemma demo_chains_ok : Forall chain_ok demo_chains.*2.
Proof.
  apply Forall_cons_2; [|apply Forall_singleton]; split; simpl.
  - apply Forall_singleton. split; [constructor|]. apply Forall_singleton. by eexists.
  - by apply Forall_singleton.
  - constructor.
  - by apply Forall_cons_2; [|apply Forall_singleton].
Qed.

Lemma demo_descend : jumps_descend demo_chains (λ a, if bool_decide (a = 1%positive) then 1%nat else 0%nat).
Proof.
  intros a c name b c' [[= -> ->]|[[= -> ->]|[]%elem_of_nil]%elem_of_cons]%elem_of_cons; simpl.
  - intros ->%list_elem_of_singleton. vm_compute. intros [= <- _]. lia.
  - by intros ?%elem_of_nil.
Qed.

Lemma fc_process_chain_spec_witness :
  ∃ v fam' w' o', fc_process_chain demo_write demo_fc (Some 1%positive) demo_fam [] [] = Some (code v, fam', w', o') ∧
    chain_runs demo_write demo_chains main_chain (demo_fam, [], []) v (fam', w', o').
Proof.
  apply (fc_process_chain_spec demo_write demo_write_returns demo_fc demo_chains _ 1%positive main_chain demo_fam []
    demo_chains_repr demo_chains_ok demo_descend). by left.
Defined.

(** A chain that jumps to itself. *)
Definition loop_chain : fc_chain_t (list cstr) unit :=
  mk_chain $"Loop" [] [demo_target $"jump" jump_proc (Some (ud_chain $"Loop"))].
Definition loop_fc : fc_state (list cstr) unit :=
  mk_fc [] [] {[1%positive := mk_node loop_chain None]} (Some 1%positive) true.

Lemma loop_repr : chains_repr loop_fc [(1%positive, loop_chain)].
Proof.
  split_and!; [|by apply (bool_decide_unpack _)..]. simpl. split; [done|]. eexists. split; reflexivity.
Qed.

Lemma fc_jump_cycle_diverges_witness :
  run_chain demo_write 1000 loop_fc (Some 1%positive) demo_fam [] [] = None.
Proof.
  apply (fc_jump_cycle_diverges demo_write loop_fc [(1%positive, loop_chain)] 1%positive $"Loop"
    (demo_target $"jump" jump_proc (Some (ud_chain $"Loop"))) [] 1000 demo_fam [] loop_repr); reflexivity.
Defined.

Definition string_item (k v : cstr) (cs : list oconfig_item_t) : oconfig_item_t :=
  mk_item k [OCONFIG_TYPE_STRING v] cs.
Definition good_block : oconfig_item_t := string_item $"Chain" $"PreCache" [string_item $"Target" $"write" []].
Definition bad_block : oconfig_item_t := string_item $"Chain" $"PreCache" [string_item $"Target" $"nosuch" []].
Definition empty_fc : fc_state (list cstr) unit := mk_fc [] [] ∅ None false.

Lemma demo_load_returns name w : wp (demo_load name w) (λ r, Forall registration_ok r.1.2).
Proof. by apply wp_ret. Qed.

Lemma empty_registry : registry_ok empty_fc.
Proof. split; constructor. Qed.

Lemma empty_repr : chains_repr empty_fc [].
Proof. split_and!; [done|constructor|done]. Qed.

Lemma fc_configure_spec_witness :
  wp (fc_configure (λ _, true) demo_load (Some good_block) empty_fc []) (λ '(st, fc', w'), registry_ok fc' ∧
    (st = 0 ∧ (∃ xs', chains_repr fc' xs' ∧ Forall chain_good xs'.*2 ∧ configured [] xs' $"PreCache") ∨
     st = -1 ∧ chains_repr fc' [])).
Proof.
  apply (fc_configure_spec (λ _, true) demo_load demo_load_returns empty_fc [] $"PreCache" good_block []
    empty_registry empty_repr); [constructor|reflexivity..].
Defined.

Lemma fc_failed_configuration_dangles_witness :
  fc_chain_get_by_name (mk_fc (W := list cstr) (D := unit) [] [] ∅ (Some 1%positive) true) (Some $"PreCache") [] = None.
Proof.
  apply (fc_failed_configuration_dangles _ [(1%positive, main_chain)] 1%positive $"PreCache").
  - apply NoDup_singleton.
  - exists [], main_chain, []. by split_and!.
  - intros [|? [|]] x post ?; simplify_eq; done.
Defined.

(** The whole sequence: a good block, then a bad one for the same chain, then
    a lookup. *)
Example failed_configuration : 
  (let* '(st1, fc, w) := fc_configure (λ _, false) demo_load (Some good_block) empty_fc [] in
   let* '(st2, fc, w) := fc_configure (λ _, false) demo_load (Some bad_block) fc w in
   fc_chain_get_by_name fc (Some $"PreCache")) [] = None.
Proof. by vm_compute. Qed.
