(* ===== verification/ConfigRead.v ===== *)
(** * Reading configuration files (src/daemon/configfile.c)

    cf_read_generic, cf_read_file, cf_read_dir and the inlining of <Include>
    blocks.  The file system, [wordexp], [fnmatch] and the generated parser
    are a parameter ([ConfigFS]).  The functions call each other; [fuel] bounds
    the calls and the rounds of the include loop, and the theorem on
    cf_read_generic shows that some amount is enough.  Version with
    HAVE_WORDEXP_H, HAVE_FNMATCH_H and HAVE_LIBGEN_H. *)

From Stdlib Require Import ZArith Lia Ascii String.
From stdpp Require Import base numbers option sorting list.
From S2P Require Import Prelude OConfig.

Inductive file_type : Type := S_IFREG | S_IFDIR | S_IFOTHER.

Class ConfigFS : Type := {
  wordexp : cstr → option (list cstr);
  stat : cstr → option file_type;
  readdir : cstr → option (list cstr); (* None: opendir fails *)
  oconfig_parse_file : cstr → option (list oconfig_item_t); (* the children of the root *)
  fnmatch : cstr → cstr → bool; (* pattern, string *)
}.

(** [strcmp] as the order of [qsort]; equal strings are the same, so the
    sorted array is unique. *)
Definition str_le (a b : cstr) : Prop := strcmp a b ≤ 0.
#[export] Instance str_le_dec a b : Decision (str_le a b).
Proof. unfold str_le. apply _. Defined.
Definition qsort (l : list cstr) : list cstr := merge_sort str_le l.

(** [basename (3)] of POSIX. *)
Definition is_slash (c : ascii) : bool := bool_decide (c = "/"%char).
Definition basename (path : cstr) : cstr :=
  match path with
  | [] => $"."
  | _ =>
      let r := rev path in
      match drop (span_len is_slash r) r with
      | [] => $"/"
      | r => rev (take (span_len (λ c, negb (is_slash c)) r) r)
      end
  end.

(** ** Arrays of children *)

(** The slots of an array; the slots [realloc] adds are not initialised. *)
Abbreviation slots := (list (option oconfig_item_t)).

Definition resize (l : slots) (n : nat) : slots := take n l ++ replicate (n - length l) None.

(** [memmove (l + dst, l + src, n)] *)
Definition memmove (l : slots) (dst src n : nat) : M slots :=
  if ((dst + n <=? length l) && (src + n <=? length l))%nat
  then ret (take dst l ++ take n (drop src l) ++ drop (dst + n) l) else crash.

Definition memcpy (l : slots) (dst : nat) (src : list oconfig_item_t) : M slots :=
  if (dst + length src <=? length l)%nat
  then ret (take dst l ++ (Some <$> src) ++ drop (dst + length src) l) else crash.

(** The first [n] slots as items; reading one that is not initialised is
    undefined. *)
Definition items (l : slots) (n : nat) : M (list oconfig_item_t) := mopt (mapM id (take n l)).

(** cf_ci_replace_child (dst, src, offset): the new children, or [None] for
    the status -1. *)
Definition cf_ci_replace_child (dst src : list oconfig_item_t) (offset : nat) : M (option (list oconfig_item_t)) :=
  let* _ := massert (offset <? length dst)%nat in
  let children := Some <$> dst in
  let* children :=
    if ((length src =? 0) && (offset <? length dst - 1))%nat
    then memmove children offset (offset + 1) (length dst - (offset + 1))
    else ret children in
  if (length dst + length src - 1 =? 0)%nat then ret (Some [])
  else
    let* ok := alloc in
    if negb ok then ret None
    else
      let children := resize children (length dst + length src - 1) in
      let* children :=
        if ((0 <? length src) && (0 <? length dst - (offset + 1)))%nat
        then memmove children (offset + length src) (offset + 1) (length dst - (offset + 1))
        else ret children in
      let* children := if (0 <? length src)%nat then memcpy children offset src else ret children in
      let* children := items children (length dst + length src - 1) in
      ret (Some children).

(** The status is ignored by the callers. *)
Definition cf_ci_append_children (dst src : list oconfig_item_t) : M (list oconfig_item_t) :=
  if (length src =? 0)%nat then ret dst
  else let* ok := alloc in if negb ok then ret dst else ret (dst ++ src).

(** ** The readers *)

Section read.
Context `{ConfigFS}.

Definition CF_MAX_DEPTH : nat := 8.

(** The options of an <Include> block. *)
Fixpoint include_pattern (cs : list oconfig_item_t) (pattern : option cstr) : M (option cstr) :=
  match cs with
  | [] => ret pattern
  | child :: cs =>
      if strcasecmp (key child) $"Filter" =? 0 then
        let* '(_, pattern) := cf_util_get_string child pattern in include_pattern cs pattern
      else include_pattern cs pattern
  end.

Section open_recursion.
Context (generic : cstr → option cstr → nat → M (option (list oconfig_item_t))).

(** The loop of cf_include_all from child [i] on: the new children, [None] for
    the status -1.  When a replacement fails the included child has lost its
    values while [values_num] still counts them, and [oconfig_free] in
    cf_read_file dereferences NULL. *)
Fixpoint cf_include_all (fuel : nat) (i : nat) (children : list oconfig_item_t) (depth : nat) :
    M (option (list oconfig_item_t)) :=
  match fuel with
  | O => crash
  | S fuel =>
      match children !! i with
      | None => ret (Some children)
      | Some old =>
          if negb (strcasecmp (key old) $"Include" =? 0) then cf_include_all fuel (S i) children depth
          else
            match values old with
            | [OCONFIG_TYPE_STRING path] =>
                let* pattern := include_pattern (OConfig.children old) None in
                let* new := generic path pattern (S depth) in
                match new with
                | None => ret None
                | Some new =>
                    let* r := cf_ci_replace_child children new i in
                    match r with
                    | None => crash
                    | Some children => cf_include_all fuel i children depth
                    end
                end
            | _ => cf_include_all fuel (S i) children depth
            end
      end
  end.

(** [sstrdup] ends the process when memory is short. *)
Definition cf_read_file (fuel : nat) (file : cstr) (pattern : option cstr) (depth : nat) :
    M (option (list oconfig_item_t)) :=
  let* _ := massert (depth <? CF_MAX_DEPTH)%nat in
  let* skip :=
    match pattern with
    | Some pattern => let* ok := alloc in let* _ := massert ok in ret (negb (fnmatch pattern (basename file)))
    | None => ret false
    end in
  if skip then ret None
  else
    match oconfig_parse_file file with
    | None => ret None
    | Some root => cf_include_all fuel 0 root depth
    end.

(** The names to read, or [None] when the function gives up. *)
Fixpoint dir_names (dir : cstr) (entries : list cstr) (filenames : list cstr) : M (option (list cstr)) :=
  match entries with
  | [] => ret (Some filenames)
  | d_name :: entries =>
      if match d_name with [] => true | c :: _ => bool_decide (c = "."%char) end then dir_names dir entries filenames
      else
        let name := dir ++ $"/" ++ d_name in
        if (1024 <=? length name)%nat then ret None
        else
          let* ok := alloc in
          if negb ok then ret None
          else
            let* ok := alloc in
            let* _ := massert ok in
            dir_names dir entries (filenames ++ [name])
  end.

Fixpoint read_names (names : list cstr) (pattern : option cstr) (depth : nat) (root : list oconfig_item_t) :
    M (list oconfig_item_t) :=
  match names with
  | [] => ret root
  | name :: names =>
      let* temp := generic name pattern depth in
      match temp with
      | None => read_names names pattern depth root
      | Some temp => let* root := cf_ci_append_children root temp in read_names names pattern depth root
      end
  end.

Definition cf_read_dir (dir : cstr) (pattern : option cstr) (depth : nat) : M (option (list oconfig_item_t)) :=
  let* _ := massert (depth <? CF_MAX_DEPTH)%nat in
  match readdir dir with
  | None => ret None
  | Some entries =>
      let* ok := alloc in
      if negb ok then ret None
      else
        let* filenames := dir_names dir entries [] in
        match filenames with
        | None => ret None
        | Some filenames => let* root := read_names (qsort filenames) pattern depth [] in ret (Some root)
        end
  end.

Fixpoint read_paths (fuel : nat) (paths : list cstr) (pattern : option cstr) (depth : nat)
    (root : list oconfig_item_t) : M (option (list oconfig_item_t)) :=
  match paths with
  | [] => ret (Some root)
  | path_ptr :: paths =>
      let next temp :=
        match temp with
        | None => ret None
        | Some temp =>
            let* root := cf_ci_append_children root temp in read_paths fuel paths pattern depth root
        end in
      match stat path_ptr with
      | Some S_IFREG => let* temp := cf_read_file fuel path_ptr pattern depth in next temp
      | Some S_IFDIR => let* temp := cf_read_dir path_ptr pattern depth in next temp
      | _ => read_paths fuel paths pattern depth root
      end
  end.
End open_recursion.

Fixpoint cf_read_generic (fuel : nat) (path : cstr) (pattern : option cstr) (depth : nat) :
    M (option (list oconfig_item_t)) :=
  match fuel with
  | O => crash
  | S fuel =>
      if (CF_MAX_DEPTH <=? depth)%nat then ret None
      else
        match wordexp path with
        | None => ret None
        | Some we =>
            let* ok := alloc in
            if negb ok then ret None
            else read_paths (cf_read_generic fuel) fuel (qsort we) pattern depth []
        end
  end.
End read.

(** ** Theorems *)

Lemma mapM_id_fmap {A} (l : list A) : mapM id (Some <$> l) = Some l.
Proof. induction l as [|x l IH]; [done|]. rewrite fmap_cons. simpl. by rewrite IH. Qed.

Lemma items_fmap l n : n = length l → items (Some <$> l) n = ret l.
Proof. intros ->. unfold items. rewrite take_ge by (by rewrite length_fmap). by rewrite mapM_id_fmap. Qed.

(** The slots after growing: the old children, then garbage. *)
Lemma resize_grow (pre post src : list oconfig_item_t) x : src ≠ [] →
  resize (Some <$> (pre ++ x :: post)) (length (pre ++ x :: post) + length src - 1)
  = (Some <$> (pre ++ x :: post)) ++ replicate (length src - 1) None.
Proof.
  intros Hs. unfold resize. rewrite length_fmap, take_ge.
  - do 2 f_equal. destruct src; [done|]. simpl. lia.
  - rewrite length_fmap. destruct src; [done|]. simpl. lia.
Qed.

(** Moving the children behind the gap and filling it. *)
Lemma grow_and_fill (pre post src : list oconfig_item_t) x : src ≠ [] →
  ∃ c, (if ((0 <? length src) && (0 <? length (pre ++ x :: post) - (length pre + 1)))%nat
        then memmove ((Some <$> (pre ++ x :: post)) ++ replicate (length src - 1) None)
               (length pre + length src) (length pre + 1) (length (pre ++ x :: post) - (length pre + 1))
        else ret ((Some <$> (pre ++ x :: post)) ++ replicate (length src - 1) None)) = ret c ∧
    (if (0 <? length src)%nat then memcpy c (length pre) src else ret c) = ret (Some <$> (pre ++ src ++ post)).
Proof.
  intros Hs. assert (0 < length src)%nat by (destruct src; [done|simpl; lia]).
  destruct (Nat.ltb_spec 0 (length src)); [|lia]. cbn [andb].
  assert (length (pre ++ x :: post) - (length pre + 1) = length post)%nat as -> by (rewrite length_app; simpl; lia).
  assert ((Some <$> pre ++ x :: post) ++ replicate (length src - 1) None
          = (Some <$> pre) ++ ((Some x :: (Some <$> post)) ++ replicate (length src - 1) None)) as ->
    by (rewrite fmap_app, fmap_cons; by rewrite <-app_assoc).
  set (P := Some <$> pre). set (T := Some <$> post). set (G := replicate (length src - 1) (None (A := oconfig_item_t))).
  assert (length P = length pre) as HP by apply length_fmap.
  assert (length T = length post) as HT by apply length_fmap.
  assert (length G = length src - 1)%nat as HG by apply length_replicate.
  assert (∃ mid, length mid = length src ∧
    (if (0 <? length post)%nat then memmove (P ++ (Some x :: T) ++ G) (length pre + length src) (length pre + 1) (length post)
     else ret (P ++ (Some x :: T) ++ G)) = ret (P ++ mid ++ T)) as (mid & Hmid & ->).
  { destruct (Nat.ltb_spec 0 (length post)) as [Hp|Hp].
    - exists (take (length src) ((Some x :: T) ++ G)). split.
      { rewrite length_take, length_app. simpl. rewrite HT, HG. lia. }
      unfold memmove. rewrite !length_app. cbn [length]. rewrite HP, HT, HG.
      destruct (Nat.leb_spec (length pre + length src + length post) (length pre + (S (length post) + (length src - 1)))); [|lia].
      destruct (Nat.leb_spec (length pre + 1 + length post) (length pre + (S (length post) + (length src - 1)))); [|lia].
      cbn [andb]. f_equal. rewrite <-HP at 1. rewrite take_app_add. rewrite <-app_assoc. do 2 f_equal.
      rewrite <-HP at 1. rewrite drop_app_add. cbn [app drop]. rewrite drop_0.
      rewrite take_app_length' by done. rewrite drop_ge; [by rewrite app_nil_r|].
      rewrite !length_app. cbn [length]. rewrite length_app. lia.
    - assert (T = []) as HTn by (apply nil_length_inv; lia). rewrite HTn. exists (Some x :: G).
      split; [simpl; lia|]. by rewrite app_nil_r. }
  eexists. split; [done|]. unfold memcpy. rewrite !length_app, HP, HT, Hmid.
  destruct (Nat.leb_spec (length pre + length src) (length pre + (length src + length post))); [|lia].
  f_equal. rewrite <-HP, take_app_length, drop_app_add, drop_app_length' by done.
  by rewrite !fmap_app.
Qed.

Lemma shrink_one (pre post : list oconfig_item_t) x :
  ∃ c, (if (length pre <? length (pre ++ x :: post) - 1)%nat
        then memmove (Some <$> (pre ++ x :: post)) (length pre) (length pre + 1) (length (pre ++ x :: post) - (length pre + 1))
        else ret (Some <$> (pre ++ x :: post))) = ret c ∧
    resize c (length (pre ++ x :: post) - 1) = Some <$> (pre ++ post).
Proof.
  assert (length (pre ++ x :: post) = length pre + S (length post))%nat as Hl by (rewrite length_app; simpl; lia).
  rewrite Hl. replace (length pre + S (length post) - 1)%nat with (length pre + length post)%nat by lia.
  replace (length pre + S (length post) - (length pre + 1))%nat with (length post) by lia.
  set (P := Some <$> pre). set (T := Some <$> post).
  assert (Some <$> pre ++ x :: post = P ++ Some x :: T) as -> by (by rewrite fmap_app).
  assert (length P = length pre) as HP by apply length_fmap. assert (length T = length post) as HT by apply length_fmap.
  assert (∀ y, resize (P ++ T ++ y) (length pre + length post) = P ++ T) as Hres.
  { intros y. unfold resize. rewrite app_assoc, take_app_length' by (rewrite length_app; lia).
    rewrite !length_app. replace (_ - _)%nat with 0%nat by lia. by rewrite app_nil_r. }
  destruct (Nat.ltb_spec (length pre) (length pre + length post)) as [Hp|Hp].
  - unfold memmove. rewrite length_app. cbn [length]. rewrite HP, HT.
    destruct (Nat.leb_spec (length pre + length post) (length pre + S (length post))); [|lia].
    destruct (Nat.leb_spec (length pre + 1 + length post) (length pre + S (length post))); [|lia].
    cbn [andb]. eexists. split; [done|]. rewrite <-HP at 1. rewrite take_app_length.
    rewrite <-HP at 1. rewrite drop_app_add. cbn [drop]. rewrite drop_0, take_ge by lia.
    rewrite Hres. by rewrite fmap_app.
  - eexists. split; [done|]. assert (T = []) as E by (apply nil_length_inv; lia).
    specialize (Hres [Some x]). rewrite E in *. simpl in Hres. rewrite Hres. rewrite fmap_app. fold P T. by rewrite E.
Qed.

(** Replacing a child by the children of an included file is a splice: the
    moves within the array and the copy give the children before it, the new
    ones and those behind it, for every number of new children, and stay
    inside the array. *)
Theorem cf_ci_replace_child_spec dst src offset :
  (offset < length dst)%nat →
  let spliced := take offset dst ++ src ++ drop (S offset) dst in
  cf_ci_replace_child dst src offset ⇓ Some spliced ∧
  wp (cf_ci_replace_child dst src offset) (λ r, r = None ∨ r = Some spliced).
Proof.
  intros Hoff spliced. unfold spliced. clear spliced.
  destruct (lookup_lt_is_Some_2 dst offset Hoff) as [x Hx].
  pose proof (take_drop_middle _ _ _ Hx) as Hdst.
  assert (length (take offset dst) = offset) as Hlen by (rewrite length_take; lia).
  set (pre := take offset dst) in *. set (post := drop (S offset) dst) in *. clearbody pre post. subst dst offset. clear Hx.
  assert (length (pre ++ x :: post) = length pre + S (length post))%nat as Hl by (rewrite length_app; simpl; lia).
  enough (∀ o, cf_ci_replace_child (pre ++ x :: post) src (length pre) o =
    (if (length (pre ++ x :: post) + length src - 1 =? 0)%nat then ret (Some (pre ++ src ++ post))
     else let* ok := alloc in ret (if ok : bool then Some (pre ++ src ++ post) else None)) o) as E.
  { split; [unfold yields; rewrite E; by case_match|].
    intros o. rewrite E. clear E. revert o. change (wp (if (length (pre ++ x :: post) + length src - 1 =? 0)%nat
      then ret (Some (pre ++ src ++ post)) else let* ok := alloc in ret (if ok : bool then Some (pre ++ src ++ post) else None))
      (λ r, r = None ∨ r = Some (pre ++ src ++ post))).
    case_match; [apply wp_ret; by right|]. apply wp_bind, wp_alloc. intros []; apply wp_ret; auto. }
  intros o. unfold cf_ci_replace_child. destruct (Nat.ltb_spec (length pre) (length (pre ++ x :: post))); [|lia].
  cbn [massert]. rewrite bind_ret. destruct src as [|c src].
  - destruct (shrink_one pre post x) as (c & E & Hres). cbn [length Nat.eqb andb app] in *. rewrite E, bind_ret.
    rewrite Nat.add_0_r. destruct (Nat.eqb_spec (length (pre ++ x :: post) - 1) 0) as [E0|_].
    + destruct pre, post; simpl in Hl, E0; (done || lia).
    + apply bind_ext; [done|]. intros [] o'; cbn [negb Nat.ltb Nat.leb andb]; [|done].
      rewrite !bind_ret, Hres, items_fmap, bind_ret by (rewrite Hl, length_app; lia). done.
  - destruct (grow_and_fill pre post (c :: src) x) as (d & E & Hd); [done|].
    change ((length (c :: src) =? 0) && _)%nat with false. cbv iota. rewrite bind_ret.
    destruct (Nat.eqb_spec (length (pre ++ x :: post) + length (c :: src) - 1) 0) as [E0|_];
      [rewrite Hl in E0; simpl in E0; lia|].
    apply bind_ext; [done|]. intros [] o'; cbn [negb]; [|done].
    cbv zeta. rewrite resize_grow by done. rewrite E, bind_ret, Hd, bind_ret, items_fmap, bind_ret; [done|].
    rewrite Hl, !length_app. simpl. lia.
Qed.

Lemma cf_ci_replace_child_spec_witness :
  let it k := mk_item k [] [] in
  cf_ci_replace_child [it $"a"; it $"Include"; it $"b"] [it $"c"; it $"d"] 1 ⇓ Some [it $"a"; it $"c"; it $"d"; it $"b"] ∧
  wp (cf_ci_replace_child [it $"a"; it $"Include"; it $"b"] [it $"c"; it $"d"] 1) (λ r,
    r = None ∨ r = Some [it $"a"; it $"c"; it $"d"; it $"b"]).
Proof. apply cf_ci_replace_child_spec. simpl. lia. Defined.

(** *** Termination *)

Definition is_include (c : oconfig_item_t) : Prop :=
  strcasecmp (key c) $"Include" = 0 ∧ ∃ path, values c = [OCONFIG_TYPE_STRING path].

(** What reading leaves: nothing, or items without an <Include> that could be
    followed. *)
Definition inlined (r : option (list oconfig_item_t)) : Prop :=
  match r with Some cs => Forall (λ c, ¬ is_include c) cs | None => True end.

Section termination.
Context `{ConfigFS}.

Lemma include_pattern_yields cs pattern : ∃ p, include_pattern cs pattern ⇓ p.
Proof.
  revert pattern. induction cs as [|c cs IH]; intros pattern; simpl; [by eexists|].
  case_match; [|apply IH].
  assert (∃ r, cf_util_get_string c pattern ⇓ r) as [[st p] E].
  { unfold cf_util_get_string. repeat case_match; by eexists. }
  destruct (IH p) as [p' E']. exists p'. by eapply yields_bind.
Qed.

(** The family of readers, one for each amount of fuel. *)
Implicit Type G : nat → cstr → option cstr → nat → M (option (list oconfig_item_t)).

Lemma include_step G i children depth c :
  children !! i = Some c → ¬ is_include c → ∀ k,
  cf_include_all (G (S k)) (S k) i children depth = cf_include_all (G (S k)) k (S i) children depth.
Proof.
  intros Hc Hn k. cbn [cf_include_all]. rewrite Hc. destruct (Z.eqb_spec (strcasecmp (key c) $"Include") 0) as [E|E]; [|done].
  cbn [negb]. destruct (values c) as [|[p| |] [|]] eqn:Ev; try done. exfalso. apply Hn. split; eauto.
Qed.

Definition reads G (depth : nat) : Prop := ∀ path pattern, settles (λ k, G k path pattern depth) inlined.

Lemma reads_shift G depth : reads G depth → reads (λ k, G (S k)) depth.
Proof. intros HG path pattern. apply (settles_shift (λ k, G k path pattern depth)), HG. Qed.

(** Items that are not included are stepped over. *)
Lemma include_skip depth d pre new rest : Forall (λ c, ¬ is_include c) new →
  (∀ G, reads G d → settles (λ k, cf_include_all (G k) k (length (pre ++ new)) (pre ++ new ++ rest) depth) inlined) →
  ∀ G, reads G d → settles (λ k, cf_include_all (G k) k (length pre) (pre ++ new ++ rest) depth) inlined.
Proof.
  intros Hnew. revert pre. induction Hnew as [|c new Hc _ IH]; intros pre Hk G HG.
  { specialize (Hk G HG). by rewrite app_nil_r in Hk. }
  apply (settles_S (λ k, cf_include_all (G (S k)) k (length (pre ++ [c])) (pre ++ c :: new ++ rest) depth)).
  { intros k. rewrite (include_step G _ _ _ c) by (done || by apply list_lookup_middle).
    rewrite length_app. simpl. by rewrite Nat.add_1_r. }
  replace (pre ++ c :: new ++ rest) with ((pre ++ [c]) ++ new ++ rest) by (by rewrite <-app_assoc). apply (IH (pre ++ [c])) with (G := λ k, G (S k)).
  - intros G' HG'. specialize (Hk G' HG'). by rewrite <-!app_assoc.
  - by apply reads_shift.
Qed.

Lemma include_all_settles depth pre rest :
  Forall (λ c, ¬ is_include c) pre → ∀ G, reads G (S depth) →
  settles (λ k, cf_include_all (G k) k (length pre) (pre ++ rest) depth) inlined.
Proof.
  revert pre. induction rest as [|old rest IH]; intros pre Hpre G HG.
  { rewrite app_nil_r. eapply settles_S with (f := λ _, ret (Some pre)).
    - intros k. cbn [cf_include_all]. by rewrite lookup_ge_None_2.
    - by apply settles_yields with (Some pre). }
  destruct (decide (strcasecmp (key old) $"Include" = 0)) as [Hk|Hk].
  2: { apply (include_skip depth (S depth) pre [old] rest); [by apply Forall_singleton; intros []| |done].
       intros G' HG'. rewrite (app_assoc pre [old]). apply IH; [|done]. apply list.Forall_app. split; [done|].
       apply Forall_singleton. by intros []. }
  assert ((∃ path, values old = [OCONFIG_TYPE_STRING path]) ∨ ¬ is_include old) as [[path Hp]|Hn].
  { unfold is_include. destruct (values old) as [|[p| |] [|]]; try (right; intros (_ & ? & ?); done). left. eauto. }
  2: { apply (include_skip depth (S depth) pre [old] rest); [by apply Forall_singleton| |done].
       intros G' HG'. rewrite (app_assoc pre [old]). apply IH; [|done]. apply list.Forall_app. split; [done|].
       by apply Forall_singleton. }
  destruct (include_pattern_yields (children old) None) as [pattern Epat].
  eapply settles_S.
  { intros k. cbn [cf_include_all]. rewrite list_lookup_middle by done. rewrite Hk, Hp. reflexivity. }
  apply settles_bind with (P := λ p, p = pattern); [by apply settles_yields with pattern|]. intros ? ->.
  apply settles_bind with (P := inlined); [apply (reads_shift G), HG|].
  intros [new|] Hnew; [|by apply settles_yields with None].
  pose proof (cf_ci_replace_child_spec (pre ++ old :: rest) new (length pre)) as Hrep.
  destruct Hrep as [Erep _]; [rewrite length_app; simpl; lia|].
  rewrite take_app_length in Erep. replace (S (length pre)) with (length pre + 1)%nat in Erep by lia.
  rewrite drop_app_add in Erep. cbn [drop] in Erep. rewrite drop_0 in Erep.
  eapply settles_bind with (P := λ r, r = Some (pre ++ new ++ rest)); [by eapply settles_yields|]. intros ? ->.
  apply (include_skip depth (S depth) pre new rest Hnew) with (G := λ k, G (S k)); [|by apply reads_shift].
  intros G' HG'. rewrite app_assoc. apply IH; [|done]. by apply list.Forall_app.
Qed.

Lemma append_children_settles (dst src : list oconfig_item_t) : Forall (λ c, ¬ is_include c) dst → Forall (λ c, ¬ is_include c) src →
  settles (λ _, cf_ci_append_children dst src) (Forall (λ c, ¬ is_include c)).
Proof.
  intros Hd Hs. unfold cf_ci_append_children. destruct (Nat.eqb_spec (length src) 0) as [E|_].
  - by apply settles_yields with dst.
  - apply settles_yields with (dst ++ src); [done|]. by apply list.Forall_app.
Qed.

Lemma read_file_settles G file pattern depth : (depth < CF_MAX_DEPTH)%nat → reads G (S depth) →
  settles (λ k, cf_read_file (G k) k file pattern depth) inlined.
Proof.
  intros Hd HG. unfold cf_read_file. destruct (Nat.ltb_spec depth CF_MAX_DEPTH); [|lia]. cbn [massert].
  apply settles_bind with (P := λ _, True); [by apply settles_yields with tt|]. intros [] _.
  apply settles_bind with (P := λ _, True).
  { destruct pattern as [p|]; by eapply settles_yields. }
  intros [] _; [by apply settles_yields with None|].
  destruct (oconfig_parse_file file) as [root|]; [|by apply settles_yields with None].
  apply (include_all_settles depth [] root); [constructor|done].
Qed.

Lemma dir_names_yields dir entries names : ∃ r, dir_names dir entries names ⇓ r ∧
  match r with Some l => ∀ n, n ∈ l → n ∈ names ∨ ∃ e, e ∈ entries ∧ n = dir ++ $"/" ++ e | None => True end.
Proof.
  revert names. induction entries as [|e entries IH]; intros names; cbn [dir_names].
  { exists (Some names). split; [done|]. auto. }
  destruct (match e with [] => true | c :: _ => bool_decide (c = "."%char) end).
  - destruct (IH names) as (r & E & Hr). exists r. split; [done|]. destruct r; [|done].
    intros n Hn. destruct (Hr n Hn) as [?|(e' & ? & ?)]; [by left|]. right. exists e'. split; [by right|done].
  - destruct (1024 <=? _)%nat; [by exists None|]. destruct (IH (names ++ [dir ++ $"/" ++ e])) as (r & E & Hr).
    exists r. split; [exact E|]. destruct r; [|done]. intros n Hn.
    destruct (Hr n Hn) as [[?| ->%list_elem_of_singleton]%elem_of_app|(e' & ? & ?)]; [by left| |].
    + right. exists e. split; [by left|done].
    + right. exists e'. split; [by right|done].
Qed.

Lemma read_names_settles G names pattern depth root :
  (∀ n, n ∈ names → settles (λ k, G k n pattern depth) inlined) → Forall (λ c, ¬ is_include c) root →
  settles (λ k, read_names (G k) names pattern depth root) (Forall (λ c, ¬ is_include c)).
Proof.
  revert root. induction names as [|n names IH]; intros root HG Hr; cbn [read_names].
  { by apply settles_yields with root. }
  eapply settles_bind; [apply HG; by left|]. intros [temp|] Ht.
  - eapply settles_bind; [by apply append_children_settles|]. intros root' Hr'. apply IH; [|done].
    intros n' Hn'. apply HG. by right.
  - apply IH; [|done]. intros n' Hn'. apply HG. by right.
Qed.

Lemma qsort_elem l x : x ∈ qsort l → x ∈ l.
Proof. unfold qsort. by rewrite merge_sort_Permutation. Qed.

Lemma read_dir_settles G dir pattern depth : (depth < CF_MAX_DEPTH)%nat →
  (∀ es e, readdir dir = Some es → e ∈ es → settles (λ k, G k (dir ++ $"/" ++ e) pattern depth) inlined) →
  settles (λ k, cf_read_dir (G k) dir pattern depth) inlined.
Proof.
  intros Hd HG. unfold cf_read_dir. destruct (Nat.ltb_spec depth CF_MAX_DEPTH); [|lia]. cbn [massert].
  apply settles_bind with (P := λ _, True); [by apply settles_yields with tt|]. intros [] _.
  destruct (readdir dir) as [es|] eqn:Ed; [|by apply settles_yields with None].
  apply settles_bind with (P := λ b, b = true); [by apply settles_yields with true|]. intros ? ->. cbn [negb].
  destruct (dir_names_yields dir es []) as (r & Er & Hr).
  apply settles_bind with (P := λ x, x = r); [by apply settles_yields with r|]. intros ? ->.
  destruct r as [names|]; [|by apply settles_yields with None].
  eapply settles_bind.
  - apply read_names_settles; [|constructor]. intros n Hn%qsort_elem.
    destruct (Hr n Hn) as [?%elem_of_nil|(e & He & ->)]; [done|]. by eapply HG.
  - intros root Hroot. by apply settles_yields with (Some root).
Qed.

Lemma read_paths_settles G paths pattern depth root : (depth < CF_MAX_DEPTH)%nat → reads G (S depth) →
  (∀ p es e, p ∈ paths → stat p = Some S_IFDIR → readdir p = Some es → e ∈ es →
     settles (λ k, G k (p ++ $"/" ++ e) pattern depth) inlined) →
  Forall (λ c, ¬ is_include c) root →
  settles (λ k, read_paths (G k) k paths pattern depth root) inlined.
Proof.
  intros Hd HG. revert root. induction paths as [|p paths IH]; intros root Hdir Hr; cbn [read_paths].
  { by apply settles_yields with (Some root). }
  assert (∀ root, Forall (λ c, ¬ is_include c) root →
    settles (λ k, read_paths (G k) k paths pattern depth root) inlined) as Hrest.
  { intros root' Hr'. apply IH; [|done]. intros p' es e Hp'. apply Hdir. by right. }
  destruct (stat p) as [[]|] eqn:Es; [| |by apply Hrest|by apply Hrest].
  - eapply settles_bind; [by apply read_file_settles|]. intros [temp|] Ht; [|by apply settles_yields with None].
    eapply settles_bind; [by apply append_children_settles|]. exact Hrest.
  - eapply settles_bind; [apply read_dir_settles; [done|]|].
    + intros es e. apply Hdir; [by left|done].
    + intros [temp|] Ht; [|by apply settles_yields with None].
      eapply settles_bind; [by apply append_children_settles|]. exact Hrest.
Qed.

(** C15. Reading a configuration terminates, however files include each
    other, when directories are not nested without bound ([height] of a path
    goes down from a directory to its entries): with enough fuel, and memory
    available, cf_read_generic answers NULL or items among which no <Include>
    is left to follow, and none of its assertions fails.  A cycle of includes
    ends at the depth limit. *)
Theorem cf_read_generic_terminates (height : cstr → nat) (bound : nat) path pattern depth :
  (∀ path, (height path ≤ bound)%nat) →
  (∀ path we p es e, wordexp path = Some we → p ∈ we → stat p = Some S_IFDIR → readdir p = Some es → e ∈ es →
     (height (p ++ $"/" ++ e) < height path)%nat) →
  settles (λ fuel, cf_read_generic fuel path pattern depth) inlined.
Proof.
  intros Hb Hh. remember ((CF_MAX_DEPTH - depth) * S bound + height path)%nat as m eqn:Em.
  revert path pattern depth Em. induction (lt_wf m) as [m _ IH]. intros path pattern depth ->.
  destruct (Nat.leb_spec CF_MAX_DEPTH depth) as [Hd|Hd].
  { apply settles_S with (f := λ _, ret None); [|by apply settles_yields with None].
    intros k. cbn [cf_read_generic]. by destruct (Nat.leb_spec CF_MAX_DEPTH depth); [|lia]. }
  eapply settles_S.
  { intros k. cbn [cf_read_generic]. destruct (Nat.leb_spec CF_MAX_DEPTH depth); [lia|]. reflexivity. }
  destruct (wordexp path) as [we|] eqn:Ew; [|by apply settles_yields with None].
  apply settles_bind with (P := λ b, b = true); [by apply settles_yields with true|]. intros ? ->. cbn [negb].
  apply (read_paths_settles cf_read_generic); [done| | |constructor].
  - intros path' pattern'. eapply IH; [|reflexivity]. specialize (Hb path').
    replace (CF_MAX_DEPTH - depth)%nat with (S (CF_MAX_DEPTH - S depth)) by lia. lia.
  - intros p es e Hp%qsort_elem Hs He Hin. eapply IH; [|reflexivity].
    specialize (Hh _ _ _ _ _ Ew Hp Hs He Hin). lia.
Qed.
End termination.

(** ** Examples: a directory with one file, and a file that includes itself. *)

Definition demo_fs : ConfigFS := {|
  wordexp := λ p, Some [p];
  stat := λ p, if decide (p = $"/d") then Some S_IFDIR
               else if decide (p = $"/main" ∨ p = $"/loop" ∨ p = $"/d/x") then Some S_IFREG else None;
  readdir := λ p, if decide (p = $"/d") then Some [$"."; $"x"; $"y"] else None;
  oconfig_parse_file := λ p,
    if decide (p = $"/main") then
      Some [mk_item $"Interval" [OCONFIG_TYPE_STRING $"10"] [];
            mk_item $"include" [OCONFIG_TYPE_STRING $"/d"] []]
    else if decide (p = $"/loop") then Some [mk_item $"Include" [OCONFIG_TYPE_STRING $"/loop"] []]
    else Some [mk_item $"LoadPlugin" [OCONFIG_TYPE_STRING $"cpu"] []];
  fnmatch := λ _ _, true;
|}.

Lemma cf_read_generic_terminates_witness :
  let _ := demo_fs in settles (λ fuel, cf_read_generic fuel $"/main" None 0) inlined.
Proof.
  intros fs. apply (@cf_read_generic_terminates fs (λ p, if decide (p = $"/d") then 1%nat else 0%nat) 1).
  - intros p. case_decide; lia.
  - intros path we p es e [= <-] ->%list_elem_of_singleton. simpl. unfold fs, demo_fs. simpl.
    destruct (decide (path = $"/d")) as [->|Hne]; [|case_match; intros; simplify_eq].
    intros _ [= <-] He. rewrite decide_False; [by rewrite decide_True; [lia|]|]. intros E. by apply (f_equal length) in E.
Defined.

Example read_main : let _ := demo_fs in
  cf_read_generic 10 $"/main" None 0 ⇓
    Some [mk_item $"Interval" [OCONFIG_TYPE_STRING $"10"] []; mk_item $"LoadPlugin" [OCONFIG_TYPE_STRING $"cpu"] []].
Proof. by vm_compute. Qed.

(** A file that includes itself is not read up to the limit but rejected. *)
Example read_loop : let _ := demo_fs in cf_read_generic 20 $"/loop" None 0 ⇓ None.
Proof. by vm_compute. Qed.
