(* ===== verification/ConfigFile.v ===== *)
(** * Configuration callbacks, loading of plugins and dispatch
      (src/daemon/configfile.c, src/daemon/plugin.c)

    The registry of configuration callbacks, [plugin_load], the dispatch of
    options and blocks, and [cf_read].  Parameters: the directory of plugins,
    [dlopen] with what a module registers, the answers of the callbacks, the
    types database, and those of OConfig.v and ConfigRead.v.  The calls that
    leave the file are recorded in [trace].  The thread's plugin context is a
    field of the state.  A name in [plugins_loaded] is stored in lower case:
    the tree of the code compares with [strcasecmp]. *)

From Stdlib Require Import ZArith Lia Ascii String SpecFloat.
From stdpp Require Import base gmap numbers option list.
From S2P Require Import Prelude Double Plugin OConfig Values FilterChain ConfigRead.

Section types.
Context (CB CX : Type).

Record cf_callback_t : Type := mk_cb {
  cb_type : cstr;
  cb_callback : CB;
  cb_keys : list (option cstr);
  cb_ctx : plugin_ctx_t;
}.

Record cf_complex_callback_t : Type := mk_cx {
  cx_type : cstr;
  cx_callback : CX;
  cx_ctx : plugin_ctx_t;
}.

Inductive cf_event : Type :=
  | ev_module (file : cstr) (global : bool) (* module_register of a shared object *)
  | ev_option (callback : CB) (key value : cstr) (ctx : plugin_ctx_t)
  | ev_complex (callback : CX) (ci : oconfig_item_t) (ctx : plugin_ctx_t)
  | ev_types (file : cstr).

(** The static variables of configfile.c and of the loader, the context and
    the record of calls. *)
Record cf_state : Type := mk_cf_state {
  first_callback : list cf_callback_t;
  complex_callback_head : list cf_complex_callback_t;
  global_options : options;
  cf_default_typesdb : bool;
  plugindir : option cstr;
  plugins_loaded : option (gset cstr); (* None: the tree does not exist yet *)
  ctx : plugin_ctx_t;
  trace : list cf_event;
}.
End types.

Arguments mk_cb {_} _ _ _ _.
Arguments cb_type {_} _.
Arguments cb_callback {_} _.
Arguments cb_keys {_} _.
Arguments cb_ctx {_} _.
Arguments mk_cx {_} _ _ _.
Arguments cx_type {_} _.
Arguments cx_callback {_} _.
Arguments cx_ctx {_} _.
Arguments ev_module {_ _} _ _.
Arguments ev_option {_ _} _ _ _ _.
Arguments ev_complex {_ _} _ _ _.
Arguments ev_types {_ _} _.
Arguments mk_cf_state {_ _} _ _ _ _ _ _ _ _.
Arguments first_callback {_ _} _.
Arguments complex_callback_head {_ _} _.
Arguments global_options {_ _} _.
Arguments cf_default_typesdb {_ _} _.
Arguments plugindir {_ _} _.
Arguments plugins_loaded {_ _} _.
Arguments ctx {_ _} _.
Arguments trace {_ _} _.

Section configfile.
Context {CB CX D : Type}.
Abbreviation W := (cf_state CB CX).
Abbreviation fc_state := (FilterChain.fc_state W D).
Implicit Types (w : W) (fc : fc_state).

Definition set_callbacks w l : W :=
  mk_cf_state l (complex_callback_head w) (global_options w) (cf_default_typesdb w) (plugindir w)
    (plugins_loaded w) (ctx w) (trace w).
Definition set_complex w l : W :=
  mk_cf_state (first_callback w) l (global_options w) (cf_default_typesdb w) (plugindir w)
    (plugins_loaded w) (ctx w) (trace w).
Definition set_options w o : W :=
  mk_cf_state (first_callback w) (complex_callback_head w) o (cf_default_typesdb w) (plugindir w)
    (plugins_loaded w) (ctx w) (trace w).
Definition set_typesdb w b : W :=
  mk_cf_state (first_callback w) (complex_callback_head w) (global_options w) b (plugindir w)
    (plugins_loaded w) (ctx w) (trace w).
Definition set_dir w d : W :=
  mk_cf_state (first_callback w) (complex_callback_head w) (global_options w) (cf_default_typesdb w) d
    (plugins_loaded w) (ctx w) (trace w).
Definition set_loaded w s : W :=
  mk_cf_state (first_callback w) (complex_callback_head w) (global_options w) (cf_default_typesdb w) (plugindir w)
    s (ctx w) (trace w).
Definition plugin_set_ctx w c : W :=
  mk_cf_state (first_callback w) (complex_callback_head w) (global_options w) (cf_default_typesdb w) (plugindir w)
    (plugins_loaded w) c (trace w).
Definition log w e : W :=
  mk_cf_state (first_callback w) (complex_callback_head w) (global_options w) (cf_default_typesdb w) (plugindir w)
    (plugins_loaded w) (ctx w) (trace w ++ [e]).

(** ** Registration of callbacks *)

Definition cf_search w (type : option cstr) : option (cf_callback_t CB) :=
  match type with
  | None => None
  | Some type => snd <$> list_find (λ cb, strcasecmp (cb_type cb) type = 0) (first_callback w)
  end.

(** The loops that unlink the first node of that type. *)
Fixpoint unlink {A} (type_of : A → cstr) (type : cstr) (l : list A) : list A :=
  match l with
  | [] => []
  | x :: l => if strcasecmp (type_of x) type =? 0 then l else x :: unlink type_of type l
  end.

Definition cf_unregister w (type : cstr) : W := set_callbacks w (unlink cb_type type (first_callback w)).
Definition cf_unregister_complex w (type : cstr) : W :=
  set_complex w (unlink cx_type type (complex_callback_head w)).

Definition cf_register w (type : cstr) (callback : CB) (keys : list (option cstr)) : M W :=
  let w := cf_unregister w type in
  let* ok := alloc in
  if negb ok then ret w else ret (set_callbacks w (mk_cb type callback keys (ctx w) :: first_callback w)).

Definition cf_register_complex w (type : cstr) (callback : CX) : M (Z * W) :=
  let* ok := alloc in
  if negb ok then ret (-1, w)
  else
    let* ok := alloc in
    if negb ok then ret (-1, w)
    else ret (0, set_complex w (complex_callback_head w ++ [mk_cx type callback (ctx w)])).

(** ** Loading plugins *)

(** What [module_register] does to the state of this file and of the filter
    chains. *)
Inductive registration : Type :=
  | reg_config (type : cstr) (callback : CB) (keys : list (option cstr))
  | reg_complex (type : cstr) (callback : CX)
  | reg_filter (r : fc_registration (W := W) (D := D)).

Class Modules : Type := {
  PLUGINDIR : cstr;
  opendir : cstr → option (list cstr);
  lstat_is_reg : cstr → option bool; (* None: lstat fails *)
  dlopen : cstr → bool → option (list registration); (* None: no library or no module_register *)
}.
Context `{Modules}.

Fixpoint run_registrations w (l : list registration) : M (list (fc_registration (W := W) (D := D)) * W) :=
  match l with
  | [] => ret ([], w)
  | reg_config type callback keys :: l => let* w := cf_register w type callback keys in run_registrations w l
  | reg_complex type callback :: l => let* '(_, w) := cf_register_complex w type callback in run_registrations w l
  | reg_filter r :: l => let* '(rs, w) := run_registrations w l in ret (r :: rs, w)
  end.

Definition plugin_get_dir w : cstr := default PLUGINDIR (plugindir w).

Definition plugin_set_dir w (dir : option cstr) : M W :=
  match dir with
  | None => ret (set_dir w None)
  | Some dir => let* ok := alloc in ret (set_dir w (if ok : bool then Some dir else None))
  end.

Definition plugin_is_loaded w (name : cstr) : M (bool * W) :=
  let* '(s, w) :=
    match plugins_loaded w with
    | Some s => ret (s, w)
    | None => let* ok := alloc in let* _ := massert ok in ret (∅, set_loaded w (Some ∅))
    end in
  ret (bool_decide (map tolower name ∈ s), w).

(** The copy of the name and the node of the tree are allocated; inserting a
    name that is there answers EEXIST. *)
Definition plugin_mark_loaded w (name : cstr) : M (Z * W) :=
  let* ok := alloc in
  if negb ok then ret (ENOMEM, w)
  else
    let* s := mopt (plugins_loaded w) in
    let* ok := alloc in
    if negb ok then ret (ENOMEM, w)
    else if bool_decide (map tolower name ∈ s) then ret (EEXIST, w)
    else ret (0, set_loaded w (Some ({[map tolower name]} ∪ s))).

(** The names are taken out one by one, then the tree is freed. *)
Definition plugin_free_loaded w : W := set_loaded w None.

Definition plugin_load_file w (file : cstr) (global : bool) :
    M (Z * list (fc_registration (W := W) (D := D)) * W) :=
  match dlopen file global with
  | None => ret (ENOENT, [], w)
  | Some regs =>
      let* '(rs, w) := run_registrations (log w (ev_module file global)) regs in ret (0, rs, w)
  end.

Definition BUFSIZE : nat := 512.

(** The loop over the directory. *)
Fixpoint load_loop w (plugin_name typename dir : cstr) (global : bool) (entries : list cstr) :
    M (Z * list (fc_registration (W := W) (D := D)) * W) :=
  match entries with
  | [] => ret (1, [], w)
  | d_name :: entries =>
      let filename := dir ++ $"/" ++ d_name in
      if negb (strcasecmp d_name typename =? 0) || (BUFSIZE <=? length filename)%nat then
        load_loop w plugin_name typename dir global entries
      else
        match lstat_is_reg filename with
        | Some true =>
            let* '(status, rs, w) := plugin_load_file w filename global in
            if status =? 0 then
              let* '(_, w) := plugin_mark_loaded w plugin_name in ret (0, rs, w)
            else load_loop w plugin_name typename dir global entries
        | _ => load_loop w plugin_name typename dir global entries
        end
  end.

Definition plugin_load w (plugin_name : option cstr) (global : bool) :
    M (Z * list (fc_registration (W := W) (D := D)) * W) :=
  match plugin_name with
  | None => ret (EINVAL, [], w)
  | Some plugin_name =>
      let* '(loaded, w) := plugin_is_loaded w plugin_name in
      if loaded then ret (0, [], w)
      else
        let dir := plugin_get_dir w in
        let global :=
          if (strcasecmp $"perl" plugin_name =? 0) || (strcasecmp $"python" plugin_name =? 0) then true else global in
        let typename := plugin_name ++ $".so" in
        if (BUFSIZE <=? length typename)%nat then ret (-1, [], w)
        else
          match opendir dir with
          | None => ret (-1, [], w)
          | Some entries => load_loop w plugin_name typename dir global entries
          end
  end.

(** ** Dispatch *)

Class Callbacks : Type := {
  config_answer : CB → cstr → cstr → Z;
  complex_answer : CX → oconfig_item_t → Z;
  read_types_list : cstr → Z;
}.
Context `{Callbacks} `{Strtod} `{FormatDouble}.

Definition value_text (v : oconfig_value_t) : cstr :=
  match v with
  | OCONFIG_TYPE_STRING s => $" " ++ s
  | OCONFIG_TYPE_NUMBER d => $" " ++ format_lf d
  | OCONFIG_TYPE_BOOLEAN b => $" " ++ (if b then $"true" else $"false")
  end.

(** The text in the buffer of 4096 bytes, [None] when it does not fit. *)
Fixpoint option_buffer (vs : list oconfig_value_t) (buffer : cstr) : option cstr :=
  match vs with
  | [] => Some buffer
  | v :: vs =>
      if (4096 - length buffer <=? length (value_text v))%nat then None
      else option_buffer vs (buffer ++ value_text v)
  end.

(** Without values the buffer is not initialised and reading it undefined. *)
Definition cf_dispatch_option (cf_cb : cf_callback_t CB) (ci : oconfig_item_t) w : M (Z * W) :=
  match option_buffer (values ci) [] with
  | None => ret (-1, w)
  | Some [] => crash
  | Some (_ :: orig_value) =>
      let* ok := alloc in
      if negb ok then ret (1, w)
      else
        let* ok := alloc in
        if negb ok then ret (2, w)
        else
          let known := existsb (λ k, match k with Some k => strcasecmp k (key ci) =? 0 | None => false end) (cb_keys cf_cb) in
          if known then
            ret (config_answer (cb_callback cf_cb) (key ci) orig_value,
                 log w (ev_option (cb_callback cf_cb) (key ci) orig_value (cb_ctx cf_cb)))
          else ret (-1, w)
  end.

Fixpoint types_loop (vs : list oconfig_value_t) w : W :=
  match vs with
  | [] => w
  | OCONFIG_TYPE_STRING s :: vs => types_loop vs (log w (ev_types s))
  | _ :: vs => types_loop vs w
  end.

Definition dispatch_value_typesdb (ci : oconfig_item_t) w : M (Z * W) :=
  let* _ := massert (strcasecmp (key ci) $"TypesDB" =? 0) in
  let w := set_typesdb w false in
  if (length (values ci) <? 1)%nat then ret (-1, w) else ret (0, types_loop (values ci) w).

Definition dispatch_value_plugindir (ci : oconfig_item_t) w : M (Z * W) :=
  let* _ := massert (strcasecmp (key ci) $"PluginDir" =? 0) in
  match values ci with
  | [OCONFIG_TYPE_STRING s] => let* w := plugin_set_dir w (Some s) in ret (0, w)
  | _ => ret (-1, w)
  end.

(** [plugin_load] for the callers in this file: what a plugin registers with
    the filter chains takes effect at once. *)
Definition load_plugin (name : cstr) (global : bool) fc w : M (Z * fc_state * W) :=
  let* '(status, regs, w) := plugin_load w (Some name) global in
  let* fc := fc_register_all fc regs in
  ret (status, fc, w).

(** The loop over the options of a <LoadPlugin> block. *)
Fixpoint loadplugin_options (cs : list oconfig_item_t) (global : bool) (c : plugin_ctx_t) : M (bool * plugin_ctx_t) :=
  match cs with
  | [] => ret (global, c)
  | child :: cs =>
      if strcasecmp $"Globals" (key child) =? 0 then
        loadplugin_options cs (cf_util_get_boolean child global).2 c
      else if strcasecmp $"Interval" (key child) =? 0 then
        let* '(_, t) := cf_util_get_cdtime child (ctx_interval c) in
        loadplugin_options cs global (mk_ctx (ctx_name c) t (ctx_flush_interval c) (ctx_flush_timeout c))
      else if strcasecmp $"FlushInterval" (key child) =? 0 then
        let* '(_, t) := cf_util_get_cdtime child (ctx_flush_interval c) in
        loadplugin_options cs global (mk_ctx (ctx_name c) (ctx_interval c) t (ctx_flush_timeout c))
      else if strcasecmp $"FlushTimeout" (key child) =? 0 then
        let* '(_, t) := cf_util_get_cdtime child (ctx_flush_timeout c) in
        loadplugin_options cs global (mk_ctx (ctx_name c) (ctx_interval c) (ctx_flush_interval c) t)
      else loadplugin_options cs global c
  end.

Definition dispatch_loadplugin (ci : oconfig_item_t) fc w : M (Z * fc_state * W) :=
  let* _ := massert (strcasecmp (key ci) $"LoadPlugin" =? 0) in
  match values ci with
  | [OCONFIG_TYPE_STRING name] =>
      let name := if strcmp $"libvirt" name =? 0 then $"virt" else name in
      let* interval := cf_get_default_interval (global_options w) in
      let* ok := alloc in
      if negb ok then ret (ENOMEM, fc, w)
      else
        let* '(global, c) := loadplugin_options (children ci) false (mk_ctx (Some name) interval 0 0) in
        let old_ctx := ctx w in
        let* '(ret_val, fc, w) := load_plugin name global fc (plugin_set_ctx w c) in
        ret (ret_val, fc, plugin_set_ctx w old_ctx)
  | _ => ret (-1, fc, w)
  end.

(** [IS_TRUE (global_option_get ("AutoLoadPlugin"))]; the option has a
    default. *)
Definition auto_load w : bool :=
  match global_option_get (global_options w) $"AutoLoadPlugin" with Some s => IS_TRUE s | None => false end.

Fixpoint dispatch_children (cf_cb : cf_callback_t CB) (cs : list oconfig_item_t) w : M (Z * W) :=
  match cs with
  | [] => ret (0, w)
  | child :: cs =>
      match children child with
      | [] =>
          let* '(status, w) := cf_dispatch_option cf_cb child w in
          if negb (status =? 0) then ret (status, w) else dispatch_children cf_cb cs w
      | _ => dispatch_children cf_cb cs w
      end
  end.

Definition dispatch_block_plugin (ci : oconfig_item_t) fc w : M (Z * fc_state * W) :=
  let* _ := massert (strcasecmp (key ci) $"Plugin" =? 0) in
  match values ci with
  | OCONFIG_TYPE_STRING plugin_name :: _ =>
      let* '(loaded, w) := plugin_is_loaded w plugin_name in
      let* '(status, loaded, fc, w) :=
        if loaded then ret (0, true, fc, w)
        else if auto_load w then
          let* interval := cf_get_default_interval (global_options w) in
          let* ok := alloc in
          let old_ctx := ctx w in
          let c := mk_ctx (if ok : bool then Some plugin_name else None) interval 0 0 in
          let* '(status, fc, w) := load_plugin plugin_name false fc (plugin_set_ctx w c) in
          ret (status, true, fc, plugin_set_ctx w old_ctx)
        else ret (0, false, fc, w) in
      if negb (status =? 0) then ret (status, fc, w)
      else if negb loaded then ret (0, fc, w)
      else
        match list_find (λ cb, strcasecmp plugin_name (cx_type cb) = 0) (complex_callback_head w) with
        | Some (_, cb) =>
            ret (complex_answer (cx_callback cb) ci, fc, log w (ev_complex (cx_callback cb) ci (cx_ctx cb)))
        | None =>
            match children ci with
            | [] => ret (0, fc, w)
            | cs =>
                match cf_search w (Some plugin_name) with
                | None => ret (-1, fc, w)
                | Some cf_cb => let* '(status, w) := dispatch_children cf_cb cs w in ret (status, fc, w)
                end
            end
        end
  | _ => ret (-1, fc, w)
  end.

(** [cf_value_map]: which function handles an option. *)
Definition value_func (k : cstr) : option (oconfig_item_t → fc_state → W → M (Z * fc_state * W)) :=
  if strcasecmp $"TypesDB" k =? 0 then
    Some (λ ci fc w, let* '(status, w) := dispatch_value_typesdb ci w in ret (status, fc, w))
  else if strcasecmp $"PluginDir" k =? 0 then
    Some (λ ci fc w, let* '(status, w) := dispatch_value_plugindir ci w in ret (status, fc, w))
  else if strcasecmp $"LoadPlugin" k =? 0 then Some dispatch_loadplugin
  else if strcasecmp $"Plugin" k =? 0 then Some dispatch_block_plugin
  else None.

Definition dispatch_value (ci : oconfig_item_t) fc w : M (Z * fc_state * W) :=
  let* '(status, fc, w) :=
    match value_func (key ci) with Some func => func ci fc w | None => ret (0, fc, w) end in
  if negb (status =? 0) then ret (status, fc, w)
  else
    match global_options w !! find_option (global_options w) (key ci) with
    | Some _ =>
        let* '(status, opts) := dispatch_global_option (global_options w) ci in
        ret (status, fc, set_options w opts)
    | None => ret (status, fc, w)
    end.

Definition dispatch_block (ci : oconfig_item_t) fc w : M (Z * fc_state * W) :=
  if strcasecmp (key ci) $"LoadPlugin" =? 0 then dispatch_loadplugin ci fc w
  else if strcasecmp (key ci) $"Plugin" =? 0 then dispatch_block_plugin ci fc w
  else if strcasecmp (key ci) $"Chain" =? 0 then
    fc_configure auto_load (λ name w, plugin_load w (Some name) false) (Some ci) fc w
  else ret (0, fc, w).

Definition dispatch_item (ci : oconfig_item_t) fc w : M (Z * fc_state * W) :=
  match children ci with [] => dispatch_value ci fc w | _ => dispatch_block ci fc w end.

Fixpoint dispatch_all (cs : list oconfig_item_t) (r : Z) fc w : M (Z * fc_state * W) :=
  match cs with
  | [] => ret (r, fc, w)
  | ci :: cs =>
      let* '(status, fc, w) := dispatch_item ci fc w in
      dispatch_all cs (if status =? 0 then r else -1) fc w
  end.

(** cf_read (filename); [types_db] is PKGDATADIR "/types.db". *)
Definition cf_read `{ConfigFS} (fuel : nat) (types_db filename : cstr) fc w : M (Z * fc_state * W) :=
  let* conf := cf_read_generic fuel filename None 0 in
  match conf with
  | None | Some [] => ret (-1, fc, w)
  | Some conf =>
      let* '(r, fc, w) := dispatch_all conf 0 fc w in
      if cf_default_typesdb w then
        ret (if read_types_list types_db =? 0 then r else -1, fc, log w (ev_types types_db))
      else ret (r, fc, w)
  end.
End configfile.

(** ** Theorems *)

Section loading.
Context {CB CX D : Type} `{!Modules (CB := CB) (CX := CX) (D := D)}.
Implicit Types (w : cf_state CB CX).

(** Everything but the lists of callbacks. *)
Definition same_but_callbacks w w' : Prop :=
  global_options w' = global_options w ∧ plugindir w' = plugindir w ∧
  plugins_loaded w' = plugins_loaded w ∧ ctx w' = ctx w ∧ trace w' = trace w.

Lemma run_registrations_yields l w : ∃ rs w', run_registrations (D := D) w l ⇓ (rs, w') ∧ same_but_callbacks w w'.
Proof.
  revert w. induction l as [|[type cb keys|type cb|r] l IH]; intros w; cbn [run_registrations].
  - exists [], w. split; [done|]. by split_and!.
  - destruct (IH (set_callbacks (cf_unregister w type) (mk_cb type cb keys (ctx w) ::
      first_callback (cf_unregister w type)))) as (rs & w' & E & Hs).
    exists rs, w'. split; [|done]. eapply yields_bind; [|exact E]. done.
  - destruct (IH (set_complex w (complex_callback_head w ++ [mk_cx type cb (ctx w)]))) as (rs & w' & E & Hs).
    exists rs, w'. split; [|done]. by eapply yields_bind.
  - destruct (IH w) as (rs & w' & E & Hs). exists (r :: rs), w'. split; [|done]. by eapply yields_bind.
Qed.

Definition loaded w : gset cstr := default ∅ (plugins_loaded w).

(** A module that could be loaded for a plugin name, as the directory is
    now. *)
Definition module_file w (name : cstr) (global : bool) (file : cstr) : Prop :=
  ∃ entries d_name regs, opendir (plugin_get_dir w) = Some entries ∧ d_name ∈ entries ∧
    same_name d_name (name ++ $".so") ∧ file = plugin_get_dir w ++ $"/" ++ d_name ∧
    lstat_is_reg file = Some true ∧ dlopen file global = Some regs.

Lemma load_loop_yields w (name dir : cstr) (global : bool) (entries : list cstr) (s : gset cstr) :
  plugins_loaded w = Some s → map tolower name ∉ s →
  ∃ st rs w', load_loop w name (name ++ $".so") dir global entries ⇓ (st, rs, w') ∧
    (st = 0 ∧ plugins_loaded w' = Some ({[map tolower name]} ∪ s) ∧
       (∃ d_name regs, d_name ∈ entries ∧ same_name d_name (name ++ $".so") ∧
          lstat_is_reg (dir ++ $"/" ++ d_name) = Some true ∧ dlopen (dir ++ $"/" ++ d_name) global = Some regs ∧
          trace w' = trace w ++ [ev_module (dir ++ $"/" ++ d_name) global]) ∨
     st = 1 ∧ rs = [] ∧ w' = w).
Proof.
  intros Hs Hn. induction entries as [|d entries IH]; cbn [load_loop].
  { exists 1, [], w. split; [done|]. by right. }
  destruct IH as (st & rs & w' & E & Hr).
  assert (∃ st rs w', load_loop w name (name ++ $".so") dir global entries ⇓ (st, rs, w') ∧
    (st = 0 ∧ plugins_loaded w' = Some ({[map tolower name]} ∪ s) ∧
       (∃ d_name regs, d_name ∈ d :: entries ∧ same_name d_name (name ++ $".so") ∧
          lstat_is_reg (dir ++ $"/" ++ d_name) = Some true ∧ dlopen (dir ++ $"/" ++ d_name) global = Some regs ∧
          trace w' = trace w ++ [ev_module (dir ++ $"/" ++ d_name) global]) ∨
     st = 1 ∧ rs = [] ∧ w' = w)) as Hnext.
  { exists st, rs, w'. split; [done|]. destruct Hr as [(? & ? & d' & regs & ? & ?)|?]; [|by right].
    left. split_and!; [done..|]. exists d', regs. split; [by right|done]. }
  clear st rs w' E Hr. destruct (Z.eqb_spec (strcasecmp d (name ++ $".so")) 0) as [Ed|_]; [|exact Hnext]. cbn [negb orb].
  destruct (BUFSIZE <=? _)%nat; [exact Hnext|].
  destruct (lstat_is_reg (dir ++ $"/" ++ d)) as [[]|] eqn:El; [|exact Hnext..]. unfold plugin_load_file.
  destruct (dlopen (dir ++ $"/" ++ d) global) as [regs|] eqn:Edl.
  - destruct (run_registrations_yields regs (log w (ev_module (dir ++ $"/" ++ d) global)))
      as (rs & w' & Er & (Ho & Hp & Hl & Hc & Ht)).
    assert (plugins_loaded w' = Some s) as Hl' by (by rewrite Hl).
    exists 0, rs, (set_loaded w' (Some ({[map tolower name]} ∪ s))). split.
    + eapply yields_bind; [eapply yields_bind; [exact Er|done]|]. cbn [Z.eqb].
      eapply (yields_bind _ _ (0, set_loaded w' (Some ({[map tolower name]} ∪ s)))); [|done]. unfold plugin_mark_loaded. eapply yields_bind; [apply yields_alloc|]. cbn [negb].
      rewrite Hl'. cbn [mopt]. rewrite bind_ret. eapply yields_bind; [apply yields_alloc|]. cbn [negb].
      by rewrite bool_decide_eq_false_2.
    + left. split_and!; [done|done|]. exists d, regs. split_and!; [by left|by apply strcasecmp_eq|done|done|].
      simpl. by rewrite Ht.
  - destruct Hnext as (st & rs & w' & E & Hr). exists st, rs, w'. split; [|done]. rewrite bind_ret. exact E.
Qed.

Definition wants_globals (name : cstr) (global : bool) : bool :=
  if (strcasecmp $"perl" name =? 0) || (strcasecmp $"python" name =? 0) then true else global.

(** C17. A plugin is loaded at most once, whatever the case of its name: loading
    a loaded plugin succeeds and runs nothing; loading another one runs one
    registration function, that of a regular file named like the plugin, and
    marks the plugin, or it fails and changes nothing else. *)
Theorem plugin_load_spec w name global :
  ∃ st regs w', plugin_load w (Some name) global ⇓ (st, regs, w') ∧
    if decide (map tolower name ∈ loaded w) then
      st = 0 ∧ regs = [] ∧ loaded w' = loaded w ∧ trace w' = trace w
    else
      st = 0 ∧ loaded w' = {[map tolower name]} ∪ loaded w ∧
        (∃ file, module_file w name (wants_globals name global) file ∧
           trace w' = trace w ++ [ev_module file (wants_globals name global)]) ∨
      st ≠ 0 ∧ regs = [] ∧ loaded w' = loaded w ∧ trace w' = trace w ∧
        first_callback w' = first_callback w ∧ complex_callback_head w' = complex_callback_head w.
Proof.
  set (w1 := match plugins_loaded w with Some _ => w | None => set_loaded w (Some ∅) end).
  assert (plugin_is_loaded w name ⇓ (bool_decide (map tolower name ∈ loaded w), w1)) as Eis.
  { unfold plugin_is_loaded, w1, loaded. by destruct (plugins_loaded w). }
  assert (plugins_loaded w1 = Some (loaded w)) as Hl by (unfold w1, loaded; destruct (plugins_loaded w) eqn:E; done).
  assert (loaded w1 = loaded w ∧ trace w1 = trace w ∧ first_callback w1 = first_callback w ∧
          complex_callback_head w1 = complex_callback_head w ∧ plugin_get_dir w1 = plugin_get_dir w)
    as (H1 & H2 & H3 & H4 & H5) by (unfold w1, loaded; destruct (plugins_loaded w) eqn:E; rewrite ?E; done).
  cbn [plugin_load]. case_decide as Hin.
  { exists 0, [], w1. split; [|done]. eapply yields_bind; [exact Eis|]. by rewrite bool_decide_eq_true_2. }
  rewrite bool_decide_eq_false_2 in Eis by done.
  assert (∀ (k : bool * cf_state CB CX → M (Z * list (fc_registration (W := cf_state CB CX) (D := D)) * cf_state CB CX)) st,
    st ≠ 0 → k (false, w1) ⇓ (st, [], w1) → ∃ st regs w', bind (plugin_is_loaded w name) k ⇓ (st, regs, w') ∧
      (st = 0 ∧ loaded w' = {[map tolower name]} ∪ loaded w ∧
        (∃ file, module_file w name (wants_globals name global) file ∧
           trace w' = trace w ++ [ev_module file (wants_globals name global)]) ∨
      st ≠ 0 ∧ regs = [] ∧ loaded w' = loaded w ∧ trace w' = trace w ∧
        first_callback w' = first_callback w ∧ complex_callback_head w' = complex_callback_head w)) as Hfail.
  { intros k st Hst E. exists st, [], w1. split; [by eapply yields_bind|]. by right. }
  destruct (BUFSIZE <=? length (name ++ $".so"))%nat eqn:Eb; [by apply (Hfail _ (-1))|].
  destruct (opendir (plugin_get_dir w1)) as [es|] eqn:Eo;
    [|apply (Hfail _ (-1)); [done|]; cbv beta iota zeta; by rewrite Eo].
  destruct (load_loop_yields w1 name (plugin_get_dir w1) (wants_globals name global) es (loaded w) Hl Hin)
    as (st & rs & w' & E & [(-> & Hl' & d & regs & Hd & Hsn & Hreg & Hdl & Ht)|(-> & -> & ->)]).
  - exists 0, rs, w'. split; [eapply yields_bind; [exact Eis|]; cbv beta iota zeta; by rewrite Eo|].
    left. split; [done|]. split; [unfold loaded at 1; by rewrite Hl'|].
    exists (plugin_get_dir w ++ $"/" ++ d). rewrite H5 in *. split; [by exists es, d, regs|]. by rewrite Ht, H2.
  - apply (Hfail _ 1); [done|]. cbv beta iota zeta. rewrite Eo. exact E.
Qed.
End loading.
