(* ===== verification/Process.v ===== *)
(** * From the write queue to the cache and the write plugins
      (src/daemon/plugin.c, plugin_dispatch_metric_internal)

    The composition of the filter chains (FilterChain.v), the value cache
    (Cache.v) and the registry of write callbacks (Plugin.v), as a write thread
    runs it for each family it takes from the queue.  The state is the cache,
    the cache events and the calls of write callbacks; the registry does not
    change while a family is processed.  [answer] is what a write callback
    returns for a family. *)

From Stdlib Require Import ZArith Lia Ascii String Sorted.
From stdpp Require Import base gmap numbers option sets list.
From S2P Require Import Prelude MapSpec Double LList Metric Plugin FilterChain.
From S2P Require Import Cache.
From S2P Require Avl LabelSet StrBuf.

Section process.
Context {T : Type → Type} `{!KeyedMap cstr T} `{!StrBuf.Sysconf} {CB U D : Type}.

Record pstate : Type := mk_pstate {
  p_cache : cache T;
  p_events : list event;
  p_writes : list (call * metric_family_t);
}.
Implicit Types (w : pstate) (fam : metric_family_t).

Section dispatch.
Context (r : registry CB U) (c : plugin_ctx_t) (answer : callback_func_t CB U → metric_family_t → Z).

Definition process_write (plugin : option cstr) fam w : M (Z * pstate) :=
  let* '(status, calls) := plugin_write r c (λ cf, answer cf fam) plugin in
  ret (status, mk_pstate (p_cache w) (p_events w) (p_writes w ++ map (λ x, (x, fam)) calls)).

(** A failing chain is only logged. *)
Definition plugin_dispatch_metric_internal (now : Z) (fc : fc_state pstate D)
    (pre_cache_chain post_cache_chain : option ptr) (fam : option metric_family_t) w : M (Z * pstate) :=
  match fam with
  | None => ret (EINVAL, w)
  | Some fam =>
      let* '(stop, fam, w) :=
        match pre_cache_chain with
        | Some _ =>
            let* '(status, fam, w) := fc_process_chain process_write fc pre_cache_chain fam w in
            ret (status =? FC_TARGET_STOP, fam, w)
        | None => ret (false, fam, w)
        end in
      if stop then ret (0, w)
      else
        let* '(_, ev, cache) := uc_update now (p_cache w) fam in
        let w := mk_pstate cache (p_events w ++ ev) (p_writes w) in
        match post_cache_chain with
        | Some _ =>
            let* '(_, _, w) := fc_process_chain process_write fc post_cache_chain fam w in ret (0, w)
        | None => let* '(_, _, w) := fc_default_action (D := D) process_write fam w in ret (0, w)
        end
  end.
End dispatch.
End process.
Arguments pstate : clear implicits.

(** ** Updating the cache with a whole family *)

Section update_family.
Context {T : Type → Type} `{!KeyedMap cstr T} `{!KeyedMapLaws cstr T} `{!StrBuf.Sysconf}.
Implicit Types (c : cache T) (ce : cache_entry_t) (l : list (cstr * cache_entry_t)).

(** An entry that values of the type can be added to. *)
Definition fits (ty : metric_type_t) ce : Prop :=
  history_ok ce ∧
  match ty with
  | METRIC_TYPE_COUNTER => ∃ n, tv_value (values_raw ce) = v_counter n
  | METRIC_TYPE_GAUGE | METRIC_TYPE_UNTYPED => True
  | METRIC_TYPE_DISTRIBUTION => False
  end.

Definition fits_cache (fam : metric_family_t) l (m : metric_t) : Prop :=
  type fam ≠ METRIC_TYPE_DISTRIBUTION ∧ value_ok (type fam) (m_value m) ∧
  ∃ key, keyed fam m key ∧ ∀ ce, Spec.get key l = Some ce → fits (type fam) ce.

(** [l'] has, for the metric, an entry that is not older, and keeps every
    other name. *)
Definition at_least (fam : metric_family_t) l' (m : metric_t) : Prop :=
  ∃ key ce, keyed fam m key ∧ Spec.get key l' = Some ce ∧ time m ≤ last_time ce.

Lemma keyed_fun fam m key key' : keyed fam m key → keyed fam m key' → key = key'.
Proof.
  intros (nm & kv & E1 & E2 & _ & _ & ->) (nm' & kv' & E1' & E2' & _ & _ & ->).
  rewrite E1 in E1'. rewrite E2 in E2'. injection E1' as ->. apply embed_inj in E2' as ->. done.
Qed.

Lemma update_values_fits ty m ce : fits ty ce → value_ok ty (m_value m) →
  ∃ ce1, update_values ty m ce ⇓ (0, ce1) ∧ fits ty ce1.
Proof.
  intros [Hh Hf] Hv. destruct ty; simpl in *; try done.
  - destruct Hf as [n Hn], Hv as [n' Hv]. rewrite Hn, Hv. cbn [as_counter mopt]. eexists. split; [done|].
    split; [exact Hh|]. by eexists.
  - destruct Hv as [g Hv]. rewrite Hv. cbn [as_gauge mopt]. eexists. split; [done|]. by split.
  - destruct Hv as [g Hv]. rewrite Hv. cbn [as_gauge mopt]. eexists. split; [done|]. by split.
Qed.
Lemma stamped_fits now ty m ce : fits ty ce → fits ty (stamped now m ce).
Proof.
  intros [Hh Hf]. split; [|by destruct ty]. unfold history_ok, stamped in *. simpl.
  destruct (history ce) as [h|]; simpl in *; [|done]. destruct Hh as [Hl Hi]. rewrite length_insert. split; [done|].
  apply Nat.mod_upper_bound. lia.
Qed.

Lemma new_fits now ty m key : value_ok ty (m_value m) → ty ≠ METRIC_TYPE_DISTRIBUTION →
  fits ty (new_entry now ty m key).
Proof. intros Hv Ht. split; [done|]. by destruct ty. Qed.

(** One metric: what changes, and what does not. *)
Definition steps (fam : metric_family_t) l l' (m : metric_t) : Prop :=
  at_least fam l' m ∧
  (∀ key ce, Spec.get key l = Some ce → ∃ ce', Spec.get key l' = Some ce' ∧ last_time ce ≤ last_time ce') ∧
  (∀ key, ¬ keyed fam m key → Spec.get key l' = Spec.get key l) ∧
  (∀ key ce, keyed fam m key → Spec.get key l' = Some ce → fits (type fam) ce).

Lemma compare_cstr_eq (a b : cstr) : (compare a b =? 0) = bool_decide (a = b).
Proof. apply eq_true_iff_eq. rewrite Z.eqb_eq, bool_decide_eq_true. apply compare_eq. Qed.

Lemma update_one now c l fam m : holds c l → fits_cache fam l m →
  ∃ st ev c' l', uc_update_metric now c fam m ⇓ (st, ev, c') ∧ holds c' l' ∧ steps fam l l' m.
Proof.
  intros Hc (Hty & Hv & key & Hk & Hf). pose proof (holds_sorted _ _ Hc) as Hs.
  assert (∀ key', keyed fam m key' → key' = key) as Hfun by (intros key' Hk'; by eapply keyed_fun).
  destruct (Spec.get key l) as [ce|] eqn:Eg.
  - specialize (Hf ce eq_refl). destruct (Z.le_gt_cases (time m) (last_time ce)) as [Hle|Hgt].
    + exists (-1), [], c, l. split_and!; [by eapply update_stale|done|]. split_and!; [by exists key, ce| |done|].
      * intros k e Ek. exists e. split; [done|lia].
      * intros k e ->%Hfun Ek. congruence.
    + destruct (update_values_fits (type fam) m ce Hf Hv) as (ce1 & Hu & Hf1).
      destruct (update_existing now c l fam m key ce ce1) as (c' & E & Hc'); [done..|by destruct Hf1|].
      exists 0, (update_events key m (callbacks_mask ce1)), c', (Spec.update key (λ _, stamped now m ce1) l).
      split_and!; [done..|]. split_and!.
      * exists key, (stamped now m ce1). rewrite spec_get_update, compare_refl, Eg. split_and!; [done..|]. simpl. lia.
      * intros k e Ek. rewrite spec_get_update, compare_cstr_eq. case_bool_decide as Hkk; [|exists e; split; [done|lia]].
        subst k. rewrite Ek. simpl. eexists. split; [done|]. simpl. assert (e = ce) as -> by congruence. lia.
      * intros k Hnk. rewrite spec_get_update, compare_cstr_eq. rewrite bool_decide_eq_false_2; [done|]. by intros ->.
      * intros k e ->%Hfun. rewrite spec_get_update, compare_refl, Eg. simpl. intros [= <-]. by apply stamped_fits.
  - destruct (update_new now c l fam m key) as (c' & E & Hc'); [done..|].
    exists 0, [CE_VALUE_NEW key m], c', (Spec.insert key (new_entry now (type fam) m key) l). split_and!; [done..|].
    assert (∀ k, Spec.get k (Spec.insert key (new_entry now (type fam) m key) l)
                 = if bool_decide (k = key) then Some (new_entry now (type fam) m key) else Spec.get k l) as Hget.
    { intros k. by rewrite spec_get_insert, compare_cstr_eq. }
    split_and!.
    + exists key, (new_entry now (type fam) m key). rewrite Hget, bool_decide_eq_true_2 by done. split_and!; [done..|]. simpl. lia.
    + intros k e Ek. rewrite Hget. case_bool_decide as Hkk; [congruence|]. exists e. split; [done|lia].
    + intros k Hnk. rewrite Hget, bool_decide_eq_false_2; [done|]. by intros ->.
    + intros k e ->%Hfun. rewrite Hget, bool_decide_eq_true_2 by done. intros [= <-]. by apply new_fits.
Qed.

(** [uc_update] of a family that is not a distribution: every metric ends up
    in the cache with a value at least as new, and no other name is touched. *)
Lemma update_family now fam ms : ∀ c l r, holds c l → Forall (fits_cache fam l) ms →
  ∃ r' ev c' l', update_loop now c fam ms r ⇓ (r', ev, c') ∧ holds c' l' ∧ Forall (at_least fam l') ms ∧
    (∀ key ce, Spec.get key l = Some ce → ∃ ce', Spec.get key l' = Some ce' ∧ last_time ce ≤ last_time ce') ∧
    (∀ key, Forall (λ m, ¬ keyed fam m key) ms → Spec.get key l' = Spec.get key l).
Proof.
  induction ms as [|m ms IH]; intros c l r Hc Hf; cbn [update_loop].
  { exists r, [], c, l. split_and!; try done. intros k e Ek. exists e. split; [done|lia]. }
  apply Forall_cons_1 in Hf as [Hm Hms].
  destruct (update_one now c l fam m Hc Hm) as (st & ev & c1 & l1 & E1 & Hc1 & Hat & Hmono & Hother & Hfit).
  destruct (IH c1 l1 (if negb (st =? 0) then 1 else r) Hc1) as (r' & ev' & c2 & l2 & E2 & Hc2 & Hat2 & Hmono2 & Hother2).
  { eapply list.Forall_impl; [exact Hms|]. intros m2 (Hty & Hv2 & key2 & Hk2 & Hf2). split_and!; [done..|].
    exists key2. split; [done|]. intros ce Hce. destruct Hm as (_ & _ & key & Hk & _).
    destruct (decide (key2 = key)) as [->|Hne]; [by eapply Hfit|]. apply Hf2. rewrite <-(Hother key2); [done|].
    intros Hk'. apply Hne. by eapply keyed_fun. }
  exists r', (ev ++ ev'), c2, l2. split_and!; [|done| | |].
  - eapply yields_bind; [exact E1|]. cbv beta iota zeta. eapply yields_bind; [exact E2|]. done.
  - apply Forall_cons_2; [|done]. destruct Hat as (key & ce & Hk & Hg & Ht).
    destruct (Hmono2 key ce Hg) as (ce' & Hg' & Ht'). exists key, ce'. split_and!; [done..|lia].
  - intros k e Ek. destruct (Hmono k e Ek) as (e1 & Ek1 & Ht1). destruct (Hmono2 k e1 Ek1) as (e2 & Ek2 & Ht2).
    exists e2. split; [done|lia].
  - intros k [Hk Hks]%Forall_cons_1. by rewrite Hother2, Hother.
Qed.
End update_family.

(** ** Claims *)

Section claims.
Context {T : Type → Type} `{!KeyedMap cstr T} `{!KeyedMapLaws cstr T} `{!StrBuf.Sysconf} {CB U D : Type}.
Context (r : registry CB U) (kv : list (cstr * callback_func_t CB U)) (c : plugin_ctx_t)
  (answer : callback_func_t CB U → metric_family_t → Z).
Hypothesis r_repr : reg_repr r kv.
Implicit Types (w : pstate T) (fc : fc_state (pstate T) D).

Lemma process_write_returns plugin fam w : wp (process_write r c answer plugin fam w) (λ _, True).
Proof.
  unfold process_write. apply wp_bind. eapply wp_mono; [by eapply plugin_write_returns|]. intros [] _. by apply wp_ret.
Qed.

(** C11. A family that a write thread takes from the queue, when no filter
    chain is configured and it holds no distributions ([fits_cache]): the cache
    ends up with a value at least as new for each of its metrics and keeps every
    other name, its lock is free, and every write callback is called once, in
    the order of registration, with the family. *)
Theorem plugin_dispatch_metric_internal_spec fc now fam w l :
  r_list r ≠ None → holds (p_cache w) l → Forall (fits_cache fam l) (metric fam) →
  ∃ ev cache l',
    plugin_dispatch_metric_internal r c answer now fc None None (Some fam) w ⇓
      (0, mk_pstate cache (p_events w ++ ev)
            (p_writes w ++ map (λ x, (x.1, with_name c (ctx_name (cf_ctx x.2)), fam)) kv)) ∧
    holds cache l' ∧ Forall (at_least fam l') (metric fam) ∧
    ∀ key, Forall (λ m, ¬ keyed fam m key) (metric fam) → Spec.get key l' = Spec.get key l.
Proof.
  intros Hl Hc Hf. destruct (update_family now fam (metric fam) (p_cache w) l 0 Hc Hf)
    as (r' & ev & cache & l' & E & Hc' & Hat & _ & Hother).
  exists ev, cache, l'. split; [|by split_and!]. unfold plugin_dispatch_metric_internal. rewrite bind_ret. cbv beta iota.
  eapply yields_bind; [exact E|]. cbv beta iota zeta.
  unfold fc_default_action, fc_bit_write_invoke, process_write.
  rewrite (write_all_ret r kv) by done. repeat (rewrite bind_ret; cbv beta iota).
  unfold yields, ret. repeat f_equal. by rewrite map_map.
Qed.

(** C9. With filter chains before and after the cache: the pre-cache chain
    decides by its rules; [Stop] ends the processing and leaves the cache and
    the write plugins to what the chain did, any other verdict hands the family
    as the chain left it to the cache, and then to the post-cache chain, whose
    verdict does not matter. *)
Theorem plugin_dispatch_filtered_spec fc xs rank now a ca b cb fam w o :
  chains_repr fc xs → Forall chain_ok xs.*2 → jumps_descend xs rank → (a, ca) ∈ xs → (b, cb) ∈ xs →
  let write := process_write r c answer in
  let result := plugin_dispatch_metric_internal r c answer now fc (Some a) (Some b) (Some fam) w o in
  ∃ v fam1 w1 o1, chain_runs write xs ca (fam, w, o) v (fam1, w1, o1) ∧
    if decide (v = Stop) then result = Some (0, w1, o1)
    else ∀ st ev cache o2, uc_update now (p_cache w1) fam1 o1 = Some (st, ev, cache, o2) →
      ∃ v2 fam3 w3 o3,
        chain_runs write xs cb (fam1, mk_pstate cache (p_events w1 ++ ev) (p_writes w1), o2) v2 (fam3, w3, o3) ∧
        result = Some (0, w3, o3).
Proof.
  intros Hrep Hok Hrank Ha Hb write result.
  pose proof (λ x cx fam w, process_runs write process_write_returns fc xs rank x cx fam w Hrep Hok Hrank) as Hrun.
  destruct (Hrun a ca fam w Ha o) as (v & fam1 & w1 & o1 & E1 & Hr1). exists v, fam1, w1, o1. split; [done|].
  unfold result, plugin_dispatch_metric_internal. fold write.
  rewrite (bind_run _ _ o (code v =? FC_TARGET_STOP, fam1, w1) o1); [|by rewrite (bind_run _ _ _ _ _ E1)].
  destruct (decide (v = Stop)) as [->|Hv]; [done|].
  replace (code v =? FC_TARGET_STOP) with false by (by destruct v). intros st ev cache o2 Eu.
  rewrite (bind_run _ _ _ _ _ Eu). cbv beta iota zeta.
  destruct (Hrun b cb fam1 (mk_pstate cache (p_events w1 ++ ev) (p_writes w1)) Hb o2) as (v2 & fam3 & w3 & o3 & E3 & Hr3).
  exists v2, fam3, w3, o3. split; [done|]. by rewrite (bind_run _ _ _ _ _ E3).
Qed.
End claims.

(** ** Witnesses *)

Definition demo_pstate : pstate (Avl.c_avl_tree cstr) := mk_pstate (avl_cache $"m" counter_entry) [] [].
Definition two_counters : metric_family_t :=
  mk_family (Some $"m") None METRIC_TYPE_COUNTER [counter_metric 2 9; counter_metric 1 8].
Definition no_chains : fc_state (pstate (Avl.c_avl_tree cstr)) unit := mk_fc [] [] ∅ None true.
Definition demo_answer (cf : callback_func_t Z Z) (fam : metric_family_t) : Z := cf_callback cf - 1.

Lemma counter_fits t n : fits_cache two_counters [($"m", counter_entry)] (counter_metric t n).
Proof.
  split; [discriminate|]. split; [by eexists|]. exists $"m". split; [apply counter_keyed|].
  simpl. intros ce [= <-]. split; [done|by eexists].
Qed.

Lemma plugin_dispatch_metric_internal_spec_witness :
  ∃ ev cache l',
    plugin_dispatch_metric_internal (H:=4096) demo_reg (demo_ctx $"cpu") demo_answer 9 no_chains None None
      (Some two_counters) demo_pstate ⇓
      (0, mk_pstate cache ev
            [($"csv", demo_ctx $"csv", two_counters); ($"Log", demo_ctx $"log", two_counters)]) ∧
    holds cache l' ∧ Forall (at_least two_counters l') (metric two_counters) ∧
    ∀ key, Forall (λ m, ¬ keyed two_counters m key) (metric two_counters) →
      Spec.get key l' = Spec.get key [($"m", counter_entry)].
Proof.
  apply (plugin_dispatch_metric_internal_spec (H:=4096) demo_reg demo_kv (demo_ctx $"cpu") demo_answer demo_repr
           no_chains 9 two_counters demo_pstate [($"m", counter_entry)]); [discriminate|apply avl_cache_holds|].
  by apply Forall_cons_2, Forall_cons_2; [apply counter_fits..|].
Defined.

(** A pre-cache chain that lets everything pass and a post-cache chain that
    writes to the plugin [log]. *)
Definition pre_chain : fc_chain_t (pstate (Avl.c_avl_tree cstr)) unit := mk_chain $"PreCache" [] [].
Definition post_chain : fc_chain_t (pstate (Avl.c_avl_tree cstr)) unit :=
  mk_chain $"PostCache" [] [mk_target $"write" write_proc (Some (ud_writers [$"log"]))].
Definition two_chains : list (ptr * fc_chain_t (pstate (Avl.c_avl_tree cstr)) unit) :=
  [(1%positive, pre_chain); (2%positive, post_chain)].
Definition chains_fc : fc_state (pstate (Avl.c_avl_tree cstr)) unit :=
  mk_fc [] [] (<[1%positive := mk_node pre_chain (Some 2%positive)]> (<[2%positive := mk_node post_chain None]> ∅))
    (Some 1%positive) true.

Lemma two_chains_repr : chains_repr chains_fc two_chains.
Proof.
  split_and!; [simpl; by eauto 10|by apply (bool_decide_unpack _); vm_compute|]. by vm_compute.
Qed.

Lemma two_chains_ok : Forall chain_ok two_chains.*2.
Proof. apply Forall_cons_2, Forall_singleton; split; simpl; by rewrite ?Forall_singleton, ?list.Forall_nil. Qed.

Lemma two_chains_descend : jumps_descend two_chains (λ _, 0%nat).
Proof.
  intros a c name b c' Hac Hj _. exfalso. revert Hj.
  apply elem_of_cons in Hac as [[= -> ->]|[[= -> ->]|[]%elem_of_nil]%elem_of_cons]; by intros []%elem_of_nil.
Qed.

Lemma plugin_dispatch_filtered_spec_witness :
  let write := process_write demo_reg (demo_ctx $"cpu") demo_answer in
  let result := plugin_dispatch_metric_internal (H:=4096) demo_reg (demo_ctx $"cpu") demo_answer 9 chains_fc
      (Some 1%positive) (Some 2%positive) (Some two_counters) demo_pstate [] in
  ∃ v fam1 w1 o1, chain_runs write two_chains pre_chain (two_counters, demo_pstate, []) v (fam1, w1, o1) ∧
    if decide (v = Stop) then result = Some (0, w1, o1)
    else ∀ st ev cache o2, uc_update (H:=4096) 9 (p_cache w1) fam1 o1 = Some (st, ev, cache, o2) →
      ∃ v2 fam3 w3 o3,
        chain_runs write two_chains post_chain
          (fam1, mk_pstate cache (p_events w1 ++ ev) (p_writes w1), o2) v2 (fam3, w3, o3) ∧
        result = Some (0, w3, o3).
Proof.
  apply (plugin_dispatch_filtered_spec (H:=4096) demo_reg demo_kv (demo_ctx $"cpu") demo_answer demo_repr
           chains_fc two_chains (λ _, 0%nat) 9 1%positive pre_chain 2%positive post_chain two_counters demo_pstate []);
    [apply two_chains_repr|apply two_chains_ok|apply two_chains_descend|constructor|do 2 constructor].
Defined.

Example filtered_writes :
  ∃ w, plugin_dispatch_metric_internal (H:=4096) demo_reg (demo_ctx $"cpu") demo_answer 9 chains_fc
      (Some 1%positive) (Some 2%positive) (Some two_counters) demo_pstate ⇓ (0, w) ∧
    p_writes w = [($"Log", demo_ctx $"cpu", two_counters)] ∧ p_events w = [].
Proof. eexists. by split_and!; [vm_compute; reflexivity|..]. Qed.
