(* ===== verification/Rounding.v ===== *)
(** * Bounds on rounded doubles

    What the operations of [Double] do to positive numbers, as bounds on their
    values: rounding is monotone with respect to representable numbers.  [val]
    is the value of a positive number in units of 2 ^ -1100. *)

From Stdlib Require Import ZArith Lia SpecFloat.
From stdpp Require Import base numbers option.
From S2P Require Import Prelude Double.

Definition val (m e : Z) : Z := m * 2 ^ (e + 1100).

(** A positive number between [lo] and [hi]. *)
Definition within (lo hi : Z) (x : double) : Prop :=
  ∃ m e, x = S754_finite false m e ∧ -1074 ≤ e ≤ 971 ∧ Z.pos m < 2 ^ 53 ∧ lo ≤ val (Z.pos m) e ≤ hi.

Lemma digits_log2 (m : positive) : Z.pos (digits2_pos m) = Z.log2 (Z.pos m) + 1.
Proof.
  induction m as [m IH|m IH|]; cbn [digits2_pos]; [..|done]; rewrite Pos2Z.inj_succ, IH.
  - rewrite Pos2Z.inj_xI, Z.log2_succ_double by lia. lia.
  - rewrite Pos2Z.inj_xO, Z.log2_double by lia. lia.
Qed.

Lemma shr_1_m mrs : 0 ≤ shr_m mrs → shr_m (shr_1 mrs) = shr_m mrs / 2.
Proof.
  destruct mrs as [m r s]. cbn [shr_m]. intros Hm. rewrite <-Z.div2_div. by destruct m as [|[m|m|]|m].
Qed.

Lemma shr_iter_m p mrs : 0 ≤ shr_m mrs → shr_m (SpecFloat.iter_pos shr_1 p mrs) = shr_m mrs / 2 ^ Z.pos p.
Proof.
  assert (∀ x n, 0 ≤ x → 0 ≤ x / 2 ^ Z.pos n) as Hpos by (intros; apply Z.div_pos; lia).
  revert mrs. induction p as [p IH|p IH|]; intros mrs Hm; cbn [SpecFloat.iter_pos].
  - assert (0 ≤ shr_m mrs / 2) as H1 by (apply Z.div_pos; lia). pose proof (shr_1_m mrs Hm) as E1.
    pose proof (IH (shr_1 mrs) ltac:(lia)) as E2. rewrite (IH (SpecFloat.iter_pos shr_1 p _)) by (rewrite E2; apply Hpos; lia).
    rewrite E2, E1, !Z.div_div by lia. f_equal. replace (Z.pos p~1) with (1 + Z.pos p + Z.pos p) by lia.
    rewrite !Z.pow_add_r by lia. lia.
  - pose proof (IH mrs Hm) as E2. rewrite (IH (SpecFloat.iter_pos shr_1 p _)) by (rewrite E2; apply Hpos; lia).
    rewrite E2, Z.div_div by lia. f_equal. replace (Z.pos p~0) with (Z.pos p + Z.pos p) by lia.
    rewrite Z.pow_add_r by lia. lia.
  - by apply shr_1_m.
Qed.

Lemma shr_m_of_loc m l : shr_m (shr_record_of_loc m l) = m.
Proof. by destruct l as [|[]]. Qed.

(** Numbers in the normal range are shifted to 53 digits. *)
Lemma shr_fexp_m m e l : 0 < m → -1021 ≤ Z.log2 m + 1 + e →
  let n := Z.max 0 (Z.log2 m - 52) in
  shr_m (shr_fexp prec emax m e l).1 = m / 2 ^ n ∧ (shr_fexp prec emax m e l).2 = e + n.
Proof.
  intros Hm He n. unfold shr_fexp. destruct m as [|m|m]; [lia| |lia]. cbn [Zdigits2]. rewrite digits_log2.
  replace (fexp prec emax (Z.log2 (Z.pos m) + 1 + e) - e) with (Z.log2 (Z.pos m) - 52)
    by (unfold fexp, emin, prec, emax; lia).
  unfold n. destruct (Z.log2 (Z.pos m) - 52) as [|p|p] eqn:E; cbn [shr fst snd].
  - rewrite shr_m_of_loc, Z.max_id, Z.div_1_r. lia.
  - rewrite shr_iter_m, shr_m_of_loc by (rewrite shr_m_of_loc; lia). by rewrite Z.max_r by lia.
  - rewrite shr_m_of_loc, Z.max_l, Z.div_1_r by lia. lia.
Qed.

Lemma val_shift m e n : 0 ≤ n → -1100 ≤ e → val m (e + n) = val (m * 2 ^ n) e.
Proof. intros. unfold val. replace (e + n + 1100) with (n + (e + 1100)) by lia. rewrite Z.pow_add_r by lia. lia. Qed.

Lemma val_le m m' e : m ≤ m' → val m e ≤ val m' e.
Proof. intros. unfold val. apply Z.mul_le_mono_nonneg_r; [|done]. apply Z.pow_nonneg. lia. Qed.

(** Cutting off digits keeps a representable lower bound. *)
Lemma cut_lower m e t s : 0 < m → -1100 ≤ e → 0 < t < 2 ^ 53 → -1100 ≤ s → val t s ≤ val m e →
  let n := Z.max 0 (Z.log2 m - 52) in val t s ≤ val (m / 2 ^ n) (e + n).
Proof.
  intros Hm He Ht Hs Hle n. destruct (Z.le_gt_cases (Z.log2 m) 52) as [Hl|Hl].
  { unfold n. by rewrite Z.max_l, Z.div_1_r, Z.add_0_r by lia. }
  assert (n = Z.log2 m - 52) as En by lia. assert (0 < 2 ^ n) as Hn by (apply Z.pow_pos_nonneg; lia).
  pose proof (Z.log2_spec m Hm) as [Hlo _].
  assert (2 ^ 52 ≤ m / 2 ^ n) as H52.
  { apply Z.div_le_lower_bound; [done|]. rewrite <-Z.pow_add_r by lia. by replace (n + 52) with (Z.log2 m) by lia. }
  destruct (Z.le_gt_cases (e + n) s) as [Hse|Hse].
  - replace s with (e + n + (s - e - n)) by lia. rewrite val_shift by lia. apply val_le.
    apply Z.div_le_lower_bound; [done|]. revert Hle. replace s with (e + n + (s - e - n)) at 1 by lia.
    rewrite !val_shift by lia. unfold val. intros Hle%Z.mul_le_mono_pos_r; [lia|]. apply Z.pow_pos_nonneg; lia.
  - transitivity (val (2 ^ 52) (e + n)); [|by apply val_le].
    replace (e + n) with (s + 1 + (e + n - s - 1)) by lia. rewrite !val_shift by lia. apply val_le.
    assert (1 ≤ 2 ^ (e + n - s - 1)) by (apply Z.lt_pred_le, Z.pow_pos_nonneg; lia).
    change (2 ^ 53) with (2 ^ 52 * 2) in Ht. nia.
Qed.

Lemma nearest_even_bounds m l : m ≤ round_nearest_even m l ≤ m + 1.
Proof. destruct l as [|[]]; simpl; try lia. destruct (Z.even m); lia. Qed.

Lemma round_bounds m e l : 0 < m → -1074 ≤ e → -1021 ≤ Z.log2 m + 1 + e ≤ 900 →
  let n := Z.max 0 (Z.log2 m - 52) in
  ∃ m' e', binary_round_aux prec emax false m e l = S754_finite false m' e' ∧ -1074 ≤ e' ≤ 971 ∧
    Z.pos m' < 2 ^ 53 ∧ val (m / 2 ^ n) (e + n) ≤ val (Z.pos m') e' ≤ val (m / 2 ^ n + 1) (e + n).
Proof.
  intros Hm He Hr n. unfold binary_round_aux. pose proof (shr_fexp_m m e l Hm ltac:(lia)) as [E1 E2].
  fold n in E1, E2. destruct (shr_fexp prec emax m e l) as [mrs e1]. cbn [fst snd] in E1, E2. subst e1. rewrite E1.
  set (m1 := m / 2 ^ n) in *. pose proof (Z.log2_spec m Hm) as [Hlo Hhi].
  assert (0 < m1 < 2 ^ 53 ∧ (2 ^ 52 ≤ m1 ∨ n = 0) ∧ -1021 ≤ Z.log2 m1 + 1 + (e + n)) as (H1 & Hn & He1).
  { unfold m1, n. destruct (Z.max_spec 0 (Z.log2 m - 52)) as [[? ->]|[? ->]].
    - assert (2 ^ 52 ≤ m / 2 ^ (Z.log2 m - 52)).
      { apply Z.div_le_lower_bound; [apply Z.pow_pos_nonneg; lia|]. rewrite <-Z.pow_add_r by lia.
        by replace (Z.log2 m - 52 + 52) with (Z.log2 m) by lia. }
      assert (m / 2 ^ (Z.log2 m - 52) < 2 ^ 53).
      { apply Z.div_lt_upper_bound; [apply Z.pow_pos_nonneg; lia|]. rewrite <-Z.pow_add_r by lia.
        by replace (Z.log2 m - 52 + 53) with (Z.succ (Z.log2 m)) by lia. }
      pose proof (Z.log2_le_mono (2 ^ 52) (m / 2 ^ (Z.log2 m - 52)) ltac:(done)) as Hlog.
      rewrite Z.log2_pow2 in Hlog by lia. lia.
    - rewrite Z.pow_0_r, Z.div_1_r. assert (m < 2 ^ 53) by (eapply Z.lt_le_trans; [exact Hhi|]; apply Z.pow_le_mono_r; lia). lia. }
  set (m2 := round_nearest_even m1 _). pose proof (nearest_even_bounds m1 (loc_of_shr_record mrs)) as Hm2. fold m2 in Hm2.
  assert (Z.log2 m1 ≤ Z.log2 m2) by (apply Z.log2_le_mono; lia).
  pose proof (shr_fexp_m m2 (e + n) loc_Exact ltac:(lia) ltac:(lia)) as [E1' E2'].
  destruct (shr_fexp prec emax m2 (e + n) loc_Exact) as [mrs2 e2]. cbn [fst snd] in E1', E2'. subst e2. rewrite E1'.
  assert (∃ m3 e3, m2 / 2 ^ Z.max 0 (Z.log2 m2 - 52) = Z.pos m3 ∧ e + n + Z.max 0 (Z.log2 m2 - 52) = e3 ∧
    Z.pos m3 < 2 ^ 53 ∧ val (Z.pos m3) e3 = val m2 (e + n) ∧ e + n ≤ e3 ≤ e + n + 1) as (m3 & e3 & -> & -> & Hm3 & Hv & He3).
  { destruct (Z.eq_dec m2 (2 ^ 53)) as [->|Hne].
    - exists (2 ^ 52)%positive, (e + n + 1). split_and!; [done..| |lia|lia]. rewrite val_shift by lia. done.
    - assert (Z.log2 m2 ≤ 52) by (apply Z.lt_succ_r, Z.log2_lt_pow2; lia). rewrite Z.max_l, Z.div_1_r by lia.
      destruct m2 as [|m2|]; [lia| |lia]. exists m2, (e + n). rewrite Z.add_0_r. split_and!; lia || done. }
  exists m3, e3. assert (e + n ≤ 900). { pose proof (Z.log2_nonneg m). subst n. lia. }
  replace (e3 <=? emax - prec) with true by (symmetry; apply Z.leb_le; unfold emax, prec; lia).
  split_and!; [done|lia|lia|done| |]; rewrite Hv; apply val_le; lia.
Qed.

(** Cutting off digits and adding one stays below a representable upper
    bound. *)
Lemma cut_upper m e t s : 0 < m → -1100 ≤ e → 0 < t ≤ 2 ^ 53 → -1100 ≤ s → val (m + 1) e ≤ val t s →
  let n := Z.max 0 (Z.log2 m - 52) in val (m / 2 ^ n + 1) (e + n) ≤ val t s.
Proof.
  intros Hm He Ht Hs Hle n. destruct (Z.le_gt_cases (Z.log2 m) 52) as [Hl|Hl].
  { unfold n. by rewrite Z.max_l, Z.div_1_r, Z.add_0_r by lia. }
  assert (n = Z.log2 m - 52) as En by lia. assert (0 < 2 ^ n) as Hn by (apply Z.pow_pos_nonneg; lia).
  assert (0 < 2 ^ (e + 1100)) as He' by (apply Z.pow_pos_nonneg; lia).
  destruct (Z.le_gt_cases (e + n) s) as [Hse|Hse].
  - revert Hle. replace s with (e + n + (s - e - n)) by lia. rewrite !val_shift by lia.
    unfold val. intros Hle%Z.mul_le_mono_pos_r; [|done]. apply Z.mul_le_mono_nonneg_r; [lia|].
    apply Z.mul_le_mono_nonneg_r; [lia|]. apply Z.le_succ_l, Z.div_lt_upper_bound; lia.
  - exfalso. pose proof (Z.log2_spec m Hm) as [Hlo _].
    assert (val t s ≤ val (2 ^ Z.log2 m) e) as Hv.
    { replace (Z.log2 m) with (52 + n) by lia. rewrite Z.pow_add_r, <-val_shift by lia.
      replace (e + n) with (s + (e + n - s)) by lia. rewrite val_shift by lia. apply val_le.
      assert (2 ≤ 2 ^ (e + n - s)) by (apply (Z.pow_le_mono_r 2 1); lia). change (2 ^ 53) with (2 ^ 52 * 2) in Ht. nia. }
    revert Hle Hv. unfold val. nia.
Qed.

Lemma round_within m e l t s t' s' : 0 < m → -1074 ≤ e → -1021 ≤ Z.log2 m + 1 + e ≤ 900 →
  0 < t < 2 ^ 53 → -1100 ≤ s → 0 < t' ≤ 2 ^ 53 → -1100 ≤ s' →
  val t s ≤ val m e → val (m + 1) e ≤ val t' s' →
  within (val t s) (val t' s') (binary_round_aux prec emax false m e l).
Proof.
  intros Hm He Hr Ht Hs Ht' Hs' Hlo Hhi. destruct (round_bounds m e l Hm He Hr) as (m' & e' & E & He' & Hm' & Hv).
  exists m', e'. split_and!; [done|lia|lia|done| |].
  - transitivity (val (m / 2 ^ Z.max 0 (Z.log2 m - 52)) (e + Z.max 0 (Z.log2 m - 52))); [|lia].
    apply cut_lower; lia || done.
  - transitivity (val (m / 2 ^ Z.max 0 (Z.log2 m - 52) + 1) (e + Z.max 0 (Z.log2 m - 52))); [lia|].
    apply cut_upper; lia || done.
Qed.

Lemma iter_xO m d : Z.pos (Pos.iter xO m d) = Z.pos m * 2 ^ Z.pos d.
Proof.
  induction d as [|d IH] using Pos.peano_ind; [simpl; lia|].
  rewrite Pos.iter_succ, Pos2Z.inj_xO, IH, Pos2Z.inj_succ, Z.pow_succ_r by lia. lia.
Qed.

(** The conversion of an integer. *)
Lemma of_Z_within n t s t' s' : 0 < n < 2 ^ 64 → 0 < t < 2 ^ 53 → -1100 ≤ s → 0 < t' ≤ 2 ^ 53 → -1100 ≤ s' →
  val t s ≤ val n 0 → val (n + 1) 0 ≤ val t' s' → within (val t s) (val t' s') (of_Z n).
Proof.
  intros Hn Ht Hs Ht' Hs' Hlo Hhi. destruct n as [|n|]; [lia| |lia]. unfold of_Z, binary_normalize, binary_round, shl_align.
  rewrite digits_log2.
  replace (fexp prec emax (Z.log2 (Z.pos n) + 1 + 0) - 0) with (Z.log2 (Z.pos n) - 52)
    by (unfold fexp, emin, prec, emax; pose proof (Z.log2_nonneg (Z.pos n)); lia).
  assert (Z.log2 (Z.pos n) < 64) by (apply Z.log2_lt_pow2; lia). pose proof (Z.log2_nonneg (Z.pos n)).
  destruct (Z.log2 (Z.pos n) - 52) as [|p|p] eqn:E; try (apply round_within; lia || done).
  replace (fexp prec emax (Z.log2 (Z.pos n) + 1 + 0)) with (Z.neg p) by (unfold fexp, emin, prec, emax; lia).
  assert (Z.log2 (Z.pos (Pos.iter xO n p)) = Z.log2 (Z.pos n) + Z.pos p) as El.
  { rewrite iter_xO, Z.log2_mul_pow2 by lia. lia. }
  assert (0 < 2 ^ Z.pos p) as Hp by (apply Z.pow_pos_nonneg; lia).
  apply round_within; try (rewrite ?El; lia || done).
  - rewrite iter_xO, <-val_shift by lia. by replace (Z.neg p + Z.pos p) with 0 by lia.
  - transitivity (val (Z.pos n + 1) 0); [|done]. replace 0 with (Z.neg p + Z.pos p) by lia. rewrite val_shift by lia.
    apply val_le. rewrite iter_xO. lia.
Qed.

(** The quotient of two numbers, before rounding. *)
Lemma div_core_quot m1 e1 m2 e2 : 0 < m1 < 2 ^ 53 → 0 < m2 < 2 ^ 53 →
  let g1 := Z.log2 m1 in let g2 := Z.log2 m2 in
  -900 ≤ g1 + e1 - g2 - e2 → g2 = 52 →
  let e := g1 + e1 - g2 - e2 - 53 in
  ∃ l, SFdiv_core_binary prec emax m1 e1 m2 e2 = (m1 * 2 ^ (e1 - e2 - e) / m2, e, l).
Proof.
  intros Hm1 Hm2 g1 g2 Hr Hg2 e. assert (0 ≤ g1 < 53) by (split; [apply Z.log2_nonneg|apply Z.log2_lt_pow2; lia]).
  unfold SFdiv_core_binary. destruct m1 as [|m1|], m2 as [|m2|]; try lia. cbn [Zdigits2]. rewrite !digits_log2. fold g1 g2.
  replace (Z.min (fexp prec emax (g1 + 1 + e1 - (g2 + 1 + e2))) (e1 - e2)) with e
    by (unfold fexp, emin, prec, emax; lia).
  destruct (e1 - e2 - e) as [|p|p] eqn:E; [lia| |lia]. rewrite Z.shiftl_mul_pow2 by lia. unfold Z.div.
  destruct (Z.div_eucl _ _). by eexists.
Qed.

Lemma val_log2 m e lo hi : 0 < m → -1100 ≤ e → -1100 ≤ lo → -1100 ≤ hi → val 1 lo ≤ val m e → val m e < val 1 hi →
  lo ≤ Z.log2 m + e < hi.
Proof.
  intros Hm He Hlo Hhi H1 H2. pose proof (Z.log2_nonneg m). pose proof (Z.log2_spec m Hm) as [Hg1 Hg2]. unfold val in *.
  assert (0 < 2 ^ (e + 1100)) by (apply Z.pow_pos_nonneg; lia). split.
  - assert (2 ^ (lo + 1100) < 2 ^ (Z.log2 m + 1 + (e + 1100))) as Hlt%Z.pow_lt_mono_r_iff; [|lia..].
    rewrite (Z.pow_add_r 2 (Z.log2 m + 1)) by lia. eapply Z.le_lt_trans; [|apply Z.mul_lt_mono_pos_r; [done|exact Hg2]]. lia.
  - assert (2 ^ (Z.log2 m + (e + 1100)) < 2 ^ (hi + 1100)) as Hlt%Z.pow_lt_mono_r_iff; [|lia..].
    rewrite (Z.pow_add_r 2 (Z.log2 m)) by lia. eapply Z.le_lt_trans; [apply Z.mul_le_mono_pos_r; [done|exact Hg1]|]. lia.
Qed.

(** [(double) n / 1000.0]: a lower bound that is a double of few digits, and an
    upper bound for 63-bit numbers. *)
Lemma div_1000_within n t a : 0 < t < 2 ^ 40 → 2 ≤ a → 2 ^ 20 ≤ t * 2 ^ a → 1000 * t * 2 ^ a ≤ n ≤ 2 ^ 63 →
  within (val t a) (val (2 ^ 20 - 1) 34) (fdiv (of_Z n) (of_Z 1000)).
Proof.
  intros Ht Ha0 Ha Hn. assert (0 < 2 ^ a) by (apply Z.pow_pos_nonneg; lia).
  assert (a < 63) by (apply (Z.pow_lt_mono_r_iff 2); nia).
  destruct (of_Z_within n (1000 * t) a (2 ^ 43 + 1) 20) as (m & e & -> & He & Hm & Hlo & Hhi); try (unfold val; lia).
  { replace a with (0 + a) by lia. rewrite val_shift by lia. apply val_le. lia. }
  assert (29 ≤ Z.log2 (Z.pos m) + e < 64) as Hge.
  { apply val_log2; try lia; [|eapply Z.le_lt_trans; [exact Hhi|done]]. transitivity (val (1000 * t) a); [|done].
    transitivity (val 1000 20); [done|]. replace a with (0 + a) by lia. replace 20 with (0 + 20) by lia.
    rewrite !val_shift by lia. apply val_le. lia. }
  change (of_Z 1000) with (S754_finite false 8796093022208000 (-43)). unfold fdiv, SFdiv.
  destruct (div_core_quot (Z.pos m) e 8796093022208000 (-43)) as [l E]; [lia|lia|change (Z.log2 8796093022208000) with 52; lia|done|].
  cbv zeta in E. change (Z.log2 8796093022208000) with 52 in E. rewrite E. clear E. cbn [xorb].
  set (g := Z.log2 (Z.pos m)) in *. replace (g + e - 52 - -43 - 53) with (g + e - 62) by lia.
  replace (e - -43 - (g + e - 62)) with (62 - g + 43) by lia.
  pose proof (Z.log2_spec (Z.pos m) ltac:(lia)) as [Hg1 Hg2]. fold g in Hg1, Hg2.
  assert (0 ≤ g < 53) as Hg by (split; [apply Z.log2_nonneg|apply Z.log2_lt_pow2; lia]).
  rewrite Z.pow_add_r, Z.mul_assoc by lia. change 8796093022208000 with (1000 * 2 ^ 43).
  rewrite Z.div_mul_cancel_r by lia. set (X := Z.pos m * 2 ^ (62 - g)). remember (g + e - 62) as u eqn:Hu.
  assert (2 ^ 62 ≤ X < 2 ^ 63) as HX.
  { unfold X. replace (2 ^ 62) with (2 ^ g * 2 ^ (62 - g)) by (rewrite <-Z.pow_add_r by lia; f_equal; lia).
    replace (2 ^ 63) with (2 ^ Z.succ g * 2 ^ (62 - g)) by (rewrite <-Z.pow_add_r by lia; f_equal; lia).
    assert (0 < 2 ^ (62 - g)) by (apply Z.pow_pos_nonneg; lia). split; [nia|by apply Z.mul_lt_mono_pos_r]. }
  assert (val (Z.pos m) e = val X u) as Ev.
  { unfold X. rewrite <-val_shift by lia. f_equal. lia. }
  rewrite Ev in Hlo, Hhi. pose proof (Z.div_mod X 1000 ltac:(lia)). pose proof (Z.mod_pos_bound X 1000 ltac:(lia)).
  set (q := X / 1000) in *. assert (2 ^ 52 ≤ q < 2 ^ 54) as Hq by lia.
  assert (52 ≤ Z.log2 q < 54) by (split; [apply Z.log2_le_pow2|apply Z.log2_lt_pow2]; lia).
  apply round_within; try lia.
  - revert Hlo. replace a with (u + (a - u)) by lia. rewrite !val_shift by lia. intros Hlo. apply val_le.
    unfold val in Hlo. apply Z.mul_le_mono_pos_r in Hlo; [lia|]. apply Z.pow_pos_nonneg; lia.
  - unfold val in *. assert (2 ^ (u + 1100) ≤ 2 ^ (1 + 1100)) by (apply Z.pow_le_mono_r; lia).
    assert (0 < 2 ^ (u + 1100)) by (apply Z.pow_pos_nonneg; lia).
    assert (1000 * q * 2 ^ (u + 1100) ≤ X * 2 ^ (u + 1100)) by (apply Z.mul_le_mono_pos_r; lia). lia.
Qed.

(** ** Exact results *)

Lemma shr_iter_exact p m : 0 < m →
  SpecFloat.iter_pos shr_1 p (Build_shr_record (m * 2 ^ Z.pos p) false false) = Build_shr_record m false false.
Proof.
  revert m. induction p as [p IH|p IH|]; intros m Hm; cbn [SpecFloat.iter_pos].
  - assert (shr_1 (Build_shr_record (m * 2 ^ Z.pos p~1) false false)
            = Build_shr_record (m * 2 ^ Z.pos p * 2 ^ Z.pos p) false false) as ->.
    { replace (m * 2 ^ Z.pos p~1) with (2 * (m * 2 ^ Z.pos p * 2 ^ Z.pos p)).
      - assert (0 < m * 2 ^ Z.pos p * 2 ^ Z.pos p) by (repeat apply Z.mul_pos_pos; (apply Z.pow_pos_nonneg || idtac); lia).
        destruct (m * 2 ^ Z.pos p * 2 ^ Z.pos p); done || lia.
      - replace (Z.pos p~1) with (1 + Z.pos p + Z.pos p) by lia. rewrite !Z.pow_add_r by lia. lia. }
    rewrite IH by (apply Z.mul_pos_pos; [done|]; apply Z.pow_pos_nonneg; lia). by apply IH.
  - replace (m * 2 ^ Z.pos p~0) with (m * 2 ^ Z.pos p * 2 ^ Z.pos p).
    + rewrite IH by (apply Z.mul_pos_pos; [done|]; apply Z.pow_pos_nonneg; lia). by apply IH.
    + replace (Z.pos p~0) with (Z.pos p + Z.pos p) by lia. rewrite Z.pow_add_r by lia. lia.
  - destruct m; try lia. by rewrite Z.mul_comm.
Qed.

Lemma shr_fexp_exact m n e : 2 ^ 52 ≤ m < 2 ^ 53 → 0 ≤ n → -1074 ≤ e + n →
  shr_fexp prec emax (m * 2 ^ n) e loc_Exact = (Build_shr_record m false false, e + n).
Proof.
  intros Hm Hn He. assert (Z.log2 m = 52) as Hl by (apply Z.log2_unique; lia).
  assert (Z.log2 (m * 2 ^ n) = n + 52) as Hl' by (rewrite Z.log2_mul_pow2, Hl by lia; lia).
  assert (0 < m * 2 ^ n) by (apply Z.mul_pos_pos; [lia|apply Z.pow_pos_nonneg; lia]).
  unfold shr_fexp. replace (Zdigits2 (m * 2 ^ n)) with (n + 53).
  2: { destruct (m * 2 ^ n) as [|q|]; [lia| |lia]. cbn [Zdigits2]. rewrite digits_log2. lia. }
  replace (fexp prec emax (n + 53 + e) - e) with n by (unfold fexp, emin, prec, emax; lia).
  destruct n as [|p|]; [|cbn [shr shr_record_of_loc]; by rewrite shr_iter_exact by lia|lia].
  cbn [shr shr_record_of_loc]. rewrite Z.pow_0_r, Z.mul_1_r, Z.add_0_r. done.
Qed.

(** A mantissa of 53 digits followed by zeros is not rounded. *)
Lemma round_exact m n e : 2 ^ 52 ≤ m < 2 ^ 53 → 0 ≤ n → -1074 ≤ e + n ≤ 971 →
  binary_round_aux prec emax false (m * 2 ^ n) e loc_Exact = S754_finite false (Z.to_pos m) (e + n).
Proof.
  intros Hm Hn He. unfold binary_round_aux. rewrite shr_fexp_exact by lia. cbn [shr_m loc_of_shr_record round_nearest_even].
  rewrite <-(Z.mul_1_r m) at 1. rewrite (shr_fexp_exact m 0) by lia. cbn [shr_m]. destruct m as [|m|]; [lia| |lia].
  rewrite Z.add_0_r. replace (e + n <=? emax - prec) with true; [done|]. symmetry. apply Z.leb_le. unfold emax, prec. lia.
Qed.

Lemma mantissa_bounds i : 0 < i < 2 ^ 53 →
  0 ≤ Z.log2 i < 53 ∧ 2 ^ 52 ≤ i * 2 ^ (52 - Z.log2 i) < 2 ^ 53.
Proof.
  intros Hi. assert (0 ≤ Z.log2 i < 53) as Hg by (split; [apply Z.log2_nonneg|apply Z.log2_lt_pow2; lia]).
  split; [done|]. pose proof (Z.log2_spec i ltac:(lia)) as [Hlo Hhi]. set (g := Z.log2 i) in *.
  assert (0 < 2 ^ (52 - g)) by (apply Z.pow_pos_nonneg; lia).
  replace (2 ^ 52) with (2 ^ g * 2 ^ (52 - g)) by (rewrite <-Z.pow_add_r by lia; f_equal; lia).
  replace (2 ^ 53) with (2 ^ Z.succ g * 2 ^ (52 - g)) by (rewrite <-Z.pow_add_r by lia; f_equal; lia).
  split; [by apply Z.mul_le_mono_pos_r|by apply Z.mul_lt_mono_pos_r].
Qed.

Lemma of_Z_exact i : 0 < i < 2 ^ 53 →
  of_Z i = S754_finite false (Z.to_pos (i * 2 ^ (52 - Z.log2 i))) (Z.log2 i - 52).
Proof.
  intros Hi. destruct i as [|i|]; [lia| |lia]. unfold of_Z, binary_normalize, binary_round, shl_align. rewrite digits_log2.
  destruct (mantissa_bounds (Z.pos i) Hi) as [Hg Hm]. set (g := Z.log2 (Z.pos i)) in *.
  replace (fexp prec emax (g + 1 + 0)) with (g - 52) by (unfold fexp, emin, prec, emax; lia).
  rewrite Z.sub_0_r. destruct (g - 52) as [|p|p] eqn:E; [|lia|].
  - replace (52 - g) with 0 in * by lia. rewrite Z.pow_0_r, Z.mul_1_r in *.
    pose proof (round_exact (Z.pos i) 0 0) as R. rewrite Z.mul_1_r in R. apply R; lia.
  - rewrite iter_xO. replace (52 - g) with (Z.pos p) in * by lia.
    pose proof (round_exact (Z.pos i * 2 ^ Z.pos p) 0 (Z.neg p)) as R. rewrite Z.mul_1_r, Z.add_0_r in R. apply R; lia.
Qed.

(** Division of a small integer by a power of two, truncated. *)
Lemma scaled_trunc i k : 0 ≤ i < 2 ^ 53 → 0 ≤ k ≤ 900 →
  u64_of_trunc (fmul (of_Z i) (S754_finite false (2 ^ 52) (- 52 - k))) = Some (i / 2 ^ k).
Proof.
  intros Hi Hk. destruct (Z.eq_dec i 0) as [->|Hne]; [done|]. rewrite of_Z_exact by lia.
  destruct (mantissa_bounds i ltac:(lia)) as [Hg Hm]. set (g := Z.log2 i) in *. set (m := i * 2 ^ (52 - g)) in *.
  unfold fmul, SFmul. cbn [xorb]. rewrite Pos2Z.inj_mul, Z2Pos.id by lia. change (Z.pos (2 ^ 52)) with (2 ^ 52).
  rewrite round_exact by lia. unfold u64_of_trunc, trunc_Z. rewrite Z2Pos.id by lia.
  assert ((if g - 52 + (-52 - k) + 52 >=? 0 then m * 2 ^ (g - 52 + (-52 - k) + 52)
           else m / 2 ^ (- (g - 52 + (-52 - k) + 52))) = i / 2 ^ k) as ->.
  { replace (g - 52 + (-52 - k) + 52) with (g - 52 - k) by lia. unfold m. destruct (Z.geb_spec (g - 52 - k) 0).
    - replace k with 0 by lia. replace g with 52 by lia. rewrite !Z.pow_0_r, Z.div_1_r. lia.
    - replace (- (g - 52 - k)) with (k + (52 - g)) by lia. rewrite Z.pow_add_r by lia.
      assert (2 ^ (52 - g) ≠ 0) by (apply Z.pow_nonzero; lia). assert (2 ^ k ≠ 0) by (apply Z.pow_nonzero; lia).
      by rewrite Z.div_mul_cancel_r. }
  assert (0 ≤ i / 2 ^ k ≤ i).
  { assert (0 < 2 ^ k) by (apply Z.pow_pos_nonneg; lia). split; [apply Z.div_pos; lia|apply Z.div_le_upper_bound; nia]. }
  simpl. replace (0 <=? i / 2 ^ k) with true by (symmetry; lia). by replace (i / 2 ^ k <? 2 ^ 64) with true by (symmetry; lia).
Qed.
