(* ===== verification/Latency.v ===== *)
(** * Latency counters (src/utils/latency/latency.c, latency_config.c)

    A histogram of 1000 bins whose width doubles when a latency does not fit.
    [log] and [pow] of libm are parameters; [LibmLaws] is what the choice of a
    new width relies on.  The clock is an argument.  Counts are [int]s whose
    overflow is undefined; [cdtime_t] is an unsigned 64-bit number. *)

From Stdlib Require Import ZArith Lia SpecFloat Ascii String.
From stdpp Require Import base numbers option list.
From S2P Require Import Prelude Double Rounding Cache Values OConfig.

Class LibmLog : Type := log : double → double.

Definition HISTOGRAM_NUM_BINS : Z := 1000.
Definition HISTOGRAM_DEFAULT_BIN_WIDTH : Z := 1048576.
Definition REDUCE_THRESHOLD : Z := 4.
Definition LLONG_MAX : Z := 2 ^ 63 - 1.

Record latency_counter_t : Type := mk_lc {
  start_time : Z;
  lc_sum : Z;
  num : Z;
  lc_min : Z;
  lc_max : Z;
  bin_width : Z;
  histogram : list Z;
}.
Implicit Types lc : latency_counter_t.

Definition set_histogram lc (h : list Z) : latency_counter_t :=
  mk_lc (start_time lc) (lc_sum lc) (num lc) (lc_min lc) (lc_max lc) (bin_width lc) h.
Definition set_bin_width lc (w : Z) : latency_counter_t :=
  mk_lc (start_time lc) (lc_sum lc) (num lc) (lc_min lc) (lc_max lc) w (histogram lc).

(** An [int], and the division of unsigned numbers. *)
Definition int (z : Z) : M Z := let* _ := massert ((- 2 ^ 31 <=? z) && (z <? 2 ^ 31)) in ret z.
Definition udiv (a b : Z) : M Z := let* _ := massert (negb (b =? 0)) in ret (a / b).
Definition bin_of (h : list Z) (i : Z) : M Z := mopt (h !! Z.to_nat i).

(** [ceil] of libm, which returns a double. *)
Definition fceil (x : double) : double :=
  match x, ceil_Z x with
  | S754_finite s _ _, Some 0 => S754_zero s
  | S754_finite _ _ _, Some z => of_Z z
  | _, _ => x
  end.
Definition half : double := fdiv (of_Z 1) (of_Z 2).

Section latency.
Context `{Libm} `{LibmLog}.

Definition required_bin_width (latency : Z) : double :=
  fdiv (of_Z (u64 (latency + 1))) (of_Z HISTOGRAM_NUM_BINS).

(** A power of two, when [log] and [pow] are accurate. *)
Definition new_bin_width (latency : Z) : option Z :=
  let required_bin_width_logbase2 := fdiv (log (required_bin_width latency)) (log (of_Z 2)) in
  u64_of_trunc (fadd (pow (of_Z 2) (fceil required_bin_width_logbase2)) half).

(** The loop that moves the counts of the bins from [i] on. *)
Fixpoint move_bins (n : nat) (i : Z) (width_change_ratio : double) (h : list Z) : M (list Z) :=
  match n with
  | O => ret h
  | S n =>
      let* new_bin := mopt (u64_of_trunc (fmul (of_Z i) width_change_ratio)) in
      if i =? new_bin then move_bins n (i + 1) width_change_ratio h
      else
        let* _ := massert (new_bin <? i) in
        let* a := bin_of h new_bin in
        let* b := bin_of h i in
        let* s := int (a + b) in
        move_bins n (i + 1) width_change_ratio (<[Z.to_nat i := 0]> (<[Z.to_nat new_bin := s]> h))
  end.

Definition change_bin_width lc (latency : Z) : M latency_counter_t :=
  let* new_bin_width := mopt (new_bin_width latency) in
  let old_bin_width := bin_width lc in
  let lc := set_bin_width lc new_bin_width in
  if 0 <? num lc then
    let width_change_ratio := fdiv (of_Z old_bin_width) (of_Z new_bin_width) in
    let* h := move_bins (Z.to_nat HISTOGRAM_NUM_BINS) 0 width_change_ratio (histogram lc) in
    ret (set_histogram lc h)
  else ret lc.

Definition latency_counter_reset lc (now : Z) : M latency_counter_t :=
  let* max_bin := udiv (u64 (lc_max lc - 1)) (bin_width lc) in
  let w :=
    if (0 <? num lc) && (HISTOGRAM_DEFAULT_BIN_WIDTH * 2 <=? bin_width lc)
       && (max_bin <? HISTOGRAM_NUM_BINS / REDUCE_THRESHOLD)
    then bin_width lc / 2 else bin_width lc in
  ret (mk_lc now 0 0 0 0 w (replicate (Z.to_nat HISTOGRAM_NUM_BINS) 0)).

Definition latency_counter_create (now : Z) : M (option latency_counter_t) :=
  let* ok := alloc in
  if negb ok then ret None
  else
    let lc := mk_lc 0 0 0 0 0 HISTOGRAM_DEFAULT_BIN_WIDTH (replicate (Z.to_nat HISTOGRAM_NUM_BINS) 0) in
    let* lc := latency_counter_reset lc now in ret (Some lc).

Definition count_bin lc (bin : Z) : M latency_counter_t :=
  let* c := bin_of (histogram lc) bin in
  let* c := int (c + 1) in
  ret (set_histogram lc (<[Z.to_nat bin := c]> (histogram lc))).

Definition latency_counter_add lc (latency : Z) : M latency_counter_t :=
  if (latency =? 0) || (LLONG_MAX <? latency) then ret lc
  else
    let '(mn, mx) := if (lc_min lc =? 0) && (lc_max lc =? 0) then (latency, latency) else (lc_min lc, lc_max lc) in
    let mn := if latency <? mn then latency else mn in
    let mx := if mx <? latency then latency else mx in
    let lc := mk_lc (start_time lc) (u64 (lc_sum lc + latency)) (u64 (num lc + 1)) mn mx (bin_width lc) (histogram lc) in
    let* bin := udiv (latency - 1) (bin_width lc) in
    if HISTOGRAM_NUM_BINS <=? bin then
      let* lc := change_bin_width lc latency in
      let* bin := udiv (latency - 1) (bin_width lc) in
      if HISTOGRAM_NUM_BINS <=? bin then ret lc else count_bin lc bin
    else count_bin lc bin.

Definition latency_counter_get_min lc : Z := lc_min lc.
Definition latency_counter_get_max lc : Z := lc_max lc.
Definition latency_counter_get_sum lc : Z := lc_sum lc.
Definition latency_counter_get_num lc : Z := num lc.

Definition latency_counter_get_average lc : M Z :=
  if num lc =? 0 then ret 0
  else mopt (DOUBLE_TO_CDTIME_T (fdiv (CDTIME_T_TO_DOUBLE (lc_sum lc)) (of_Z (num lc)))).

(** The search for the bin of a percentile: the index, [percent_lower] and
    [percent_upper] where the loop ends; an index of 1000 when no bin is
    reached. *)
Fixpoint find_percentile (bins : list Z) (i sum : Z) (total percent percent_lower percent_upper : double) :
    M (Z * double * double) :=
  match bins with
  | [] => ret (i, percent_lower, percent_upper)
  | c :: bins =>
      let percent_lower := percent_upper in
      let* sum := int (sum + c) in
      let percent_upper := if sum =? 0 then fzero else fdiv (fmul (of_Z 100) (of_Z sum)) total in
      if fle percent percent_upper then ret (i, percent_lower, percent_upper)
      else find_percentile bins (i + 1) sum total percent percent_lower percent_upper
  end.

Definition latency_counter_get_percentile lc (percent : double) : M Z :=
  if (num lc =? 0) || negb (flt fzero percent && flt percent (of_Z 100)) then ret 0
  else
    let* '(i, percent_lower, percent_upper) :=
      find_percentile (histogram lc) 0 0 (of_Z (num lc)) percent fzero fzero in
    if HISTOGRAM_NUM_BINS <=? i then ret 0
    else
      let* _ := massert (fle percent percent_upper) in
      let* _ := massert (flt percent_lower percent) in
      if i =? 0 then ret (bin_width lc)
      else
        let latency_lower := u64 (i * bin_width lc) in
        let p := fdiv (fsub percent percent_lower) (fsub percent_upper percent_lower) in
        let* d := mopt (DOUBLE_TO_CDTIME_T (fmul p (CDTIME_T_TO_DOUBLE (bin_width lc)))) in
        ret (u64 (latency_lower + d)).

(** The sum over the bins, in a double. *)
Fixpoint sum_bins (n : nat) (i : Z) (h : list Z) (sum : double) : M double :=
  match n with
  | O => ret sum
  | S n => let* c := bin_of h i in sum_bins n (i + 1) h (fadd sum (of_Z c))
  end.

Definition latency_counter_get_rate lc (lower upper now : Z) : M double :=
  if num lc =? 0 then ret NAN
  else if negb (upper =? 0) && (upper <? lower) then ret NAN
  else if lower =? upper then ret fzero
  else
    let* lower_bin := if negb (lower =? 0) then udiv (u64 (u64 (lower + 1) - 1)) (bin_width lc) else ret 0 in
    if HISTOGRAM_NUM_BINS <=? lower_bin then ret fzero
    else
      let* upper_bin :=
        if negb (upper =? 0) then udiv (upper - 1) (bin_width lc) else ret (HISTOGRAM_NUM_BINS - 1) in
      let '(upper_bin, upper) :=
        if HISTOGRAM_NUM_BINS <=? upper_bin then (HISTOGRAM_NUM_BINS - 1, 0) else (upper_bin, upper) in
      let* sum := sum_bins (Z.to_nat (upper_bin + 1 - lower_bin)) lower_bin (histogram lc) fzero in
      let* sum :=
        if negb (lower =? 0) then
          let lower_bin_boundary := u64 (lower_bin * bin_width lc) in
          let* _ := massert (lower_bin_boundary <=? lower) in
          let lower_ratio := fdiv (of_Z (lower - lower_bin_boundary)) (of_Z (bin_width lc)) in
          let* c := bin_of (histogram lc) lower_bin in
          ret (fsub sum (fmul lower_ratio (of_Z c)))
        else ret sum in
      let* sum :=
        if negb (upper =? 0) then
          let upper_bin_boundary := u64 ((upper_bin + 1) * bin_width lc) in
          let* _ := massert (upper <=? upper_bin_boundary) in
          let ratio := fdiv (of_Z (upper_bin_boundary - upper)) (of_Z (bin_width lc)) in
          let* c := bin_of (histogram lc) upper_bin in
          ret (fsub sum (fmul ratio (of_Z c)))
        else ret sum in
      ret (fdiv sum (CDTIME_T_TO_DOUBLE (u64 (now - start_time lc)))).
End latency.

(** ** What is relied on *)

(** [pow] is exact on powers of two.  [log (x) / log (2.0)], rounded up, is at
    least [k] when [x] is at least 2 ^ [k], more when [x] is above it by a
    relative difference of 2 ^ -18, and at most [k'] when [x] is below
    2 ^ [k'] by one of 2 ^ -20. *)
Class LibmLaws `{Libm} `{LibmLog} : Prop := {
  pow_two n : 0 ≤ n ≤ 63 → pow (of_Z 2) (of_Z n) = of_Z (2 ^ n);
  log_two x k k' : 0 ≤ k → 20 ≤ k' ≤ 63 → within (val 1 k) (val (2 ^ 20 - 1) (k' - 20)) x →
    ∃ n, fceil (fdiv (log x) (log (of_Z 2))) = of_Z n ∧ k ≤ n ≤ k';
  log_above x k k' : 0 ≤ k → 20 ≤ k' ≤ 63 → within (val (2 ^ 18 + 1) (k - 18)) (val (2 ^ 20 - 1) (k' - 20)) x →
    ∃ n, fceil (fdiv (log x) (log (of_Z 2))) = of_Z n ∧ k < n ≤ k';
}.

(** ** Powers of two in doubles, by computation *)

#[local] Instance double_eq_dec : EqDecision double.
Proof. unfold double. solve_decision. Defined.

Definition zseq (a : Z) (n : nat) : list Z := map (λ i, a + Z.of_nat i) (seq 0 n).

Lemma zseq_forall (a b : Z) (P : Z → bool) :
  forallb P (zseq a (Z.to_nat (b + 1 - a))) = true → ∀ z, a ≤ z ≤ b → P z = true.
Proof.
  rewrite forallb_forall. intros H z Hz. apply H. unfold zseq. apply in_map_iff.
  exists (Z.to_nat (z - a)). split; [lia|]. apply in_seq. lia.
Qed.

Lemma width_exact n : 0 ≤ n ≤ 54 → u64_of_trunc (fadd (of_Z (2 ^ n)) half) = Some (2 ^ n).
Proof.
  intros Hn. apply (bool_decide_eq_true_1 (u64_of_trunc (fadd (of_Z (2 ^ n)) half) = Some (2 ^ n))).
  revert n Hn. apply zseq_forall. by vm_compute.
Qed.

Lemma ratio_exact a k : 20 ≤ a ≤ 54 → 0 ≤ k ≤ 34 →
  fdiv (of_Z (2 ^ a)) (of_Z (2 ^ (a + k))) = fdiv (of_Z 1) (of_Z (2 ^ k)).
Proof.
  intros Ha Hk. apply (bool_decide_eq_true_1 (fdiv (of_Z (2 ^ a)) (of_Z (2 ^ (a + k))) = fdiv (of_Z 1) (of_Z (2 ^ k)))).
  revert k Hk. apply zseq_forall. revert a Ha. apply zseq_forall. by vm_compute.
Qed.

Lemma ratio_mantissa k : 0 ≤ k ≤ 34 → fdiv (of_Z 1) (of_Z (2 ^ k)) = S754_finite false (2 ^ 52) (- 52 - k).
Proof.
  intros Hk. apply (bool_decide_eq_true_1 (fdiv (of_Z 1) (of_Z (2 ^ k)) = S754_finite false (2 ^ 52) (- 52 - k))).
  revert k Hk. apply zseq_forall. by vm_compute.
Qed.

(** Bin [i] goes to bin [i / 2 ^ k] when the width grows by 2 ^ [k]. *)
Lemma bin_exact i a k : 0 ≤ i ≤ 999 → 20 ≤ a ≤ 54 → 0 ≤ k ≤ 34 →
  u64_of_trunc (fmul (of_Z i) (fdiv (of_Z (2 ^ a)) (of_Z (2 ^ (a + k))))) = Some (i / 2 ^ k).
Proof. intros. rewrite ratio_exact, ratio_mantissa by lia. apply scaled_trunc; lia. Qed.

(** ** The histogram of a list of latencies *)

Definition bin (w l : Z) : Z := (l - 1) / w.

(** How many latencies [f] puts into bin [j]. *)
Fixpoint cnt (f : Z → Z) (rs : list Z) (j : Z) : Z :=
  match rs with [] => 0 | l :: rs => (if f l =? j then 1 else 0) + cnt f rs j end.

Definition shows (h : list Z) (f : Z → Z) (rs : list Z) : Prop :=
  length h = 1000%nat ∧ ∀ j, 0 ≤ j < 1000 → h !! Z.to_nat j = Some (cnt f rs j).

Definition recordable (w l : Z) : Prop := 0 < l ∧ bin w l < 1000.

Lemma cnt_bound f rs j : 0 ≤ cnt f rs j ≤ Z.of_nat (length rs).
Proof. induction rs as [|l rs IH]; simpl; [lia|]. case_match; lia. Qed.

Lemma cnt_ext f g rs j : Forall (λ l, f l = g l) rs → cnt f rs j = cnt g rs j.
Proof. induction 1 as [|l rs E _ IH]; simpl; [done|]. by rewrite E, IH. Qed.

(** Moving everything of bin [i] to bin [nb]. *)
Lemma cnt_move f g rs i nb : nb ≠ i → Forall (λ l, g l = if f l =? i then nb else f l) rs →
  (∀ j, cnt g rs j = if j =? i then 0 else if j =? nb then cnt f rs nb + cnt f rs i else cnt f rs j) ∧
  cnt f rs nb + cnt f rs i ≤ Z.of_nat (length rs).
Proof.
  intros Hne. induction 1 as [|l rs E _ [IH1 IH2]]; simpl; [split; [intros j; by repeat case_match|lia]|]. split.
  - intros j. rewrite IH1, E. repeat case_match; breflect; lia.
  - repeat case_match; breflect; lia.
Qed.

Lemma div_pow_le i k : 0 ≤ i → 0 ≤ k → 0 ≤ i / 2 ^ k ≤ i.
Proof.
  intros. assert (0 < 2 ^ k) by (apply Z.pow_pos_nonneg; lia). split; [apply Z.div_pos|apply Z.div_le_upper_bound]; nia.
Qed.

Lemma bin_nonneg w l : 0 < w → 0 < l → 0 ≤ bin w l.
Proof. intros. apply Z.div_pos; lia. Qed.

Lemma bin_double a k l : 0 ≤ a → 0 ≤ k → bin (2 ^ a) l / 2 ^ k = bin (2 ^ (a + k)) l.
Proof.
  intros. unfold bin. rewrite Z.div_div, <-Z.pow_add_r by (lia || (apply Z.pow_nonzero; lia) || (apply Z.pow_pos_nonneg; lia)). done.
Qed.

(** Where the loop has the latencies before step [i]. *)
Definition moved (a k i l : Z) : Z :=
  let b := bin (2 ^ a) l in if b <? i then b / 2 ^ k else b.

Lemma moved_step a k i l : 0 ≤ a → 0 ≤ k → 0 ≤ i → 0 < l →
  moved a k (i + 1) l = if moved a k i l =? i then i / 2 ^ k else moved a k i l.
Proof.
  intros Ha Hk Hi Hl. unfold moved.
  pose proof (bin_nonneg (2 ^ a) l ltac:(apply Z.pow_pos_nonneg; lia) Hl). set (b := bin (2 ^ a) l) in *. cbv zeta.
  pose proof (div_pow_le b k ltac:(lia) Hk).
  destruct (Z.ltb_spec b (i + 1)), (Z.ltb_spec b i); try lia.
  - by replace (b / 2 ^ k =? i) with false by (symmetry; lia).
  - replace b with i by lia. by rewrite Z.eqb_refl.
  - by replace (b =? i) with false by (symmetry; lia).
Qed.

Lemma int_small z : - 2 ^ 31 ≤ z < 2 ^ 31 → int z = ret z.
Proof. intros. unfold int. by replace ((- 2 ^ 31 <=? z) && (z <? 2 ^ 31)) with true by (symmetry; lia). Qed.

Lemma shows_bin h f rs j : shows h f rs → 0 ≤ j < 1000 → bin_of h j = ret (cnt f rs j).
Proof. intros [_ Hh] Hj. unfold bin_of. by rewrite Hh. Qed.

(** One assignment to a bin. *)
Lemma shows_lookup_insert (h : list Z) i j v : length h = 1000%nat → 0 ≤ i < 1000 → 0 ≤ j →
  <[Z.to_nat i := v]> h !! Z.to_nat j = if j =? i then Some v else h !! Z.to_nat j.
Proof.
  intros Hl Hi Hj. destruct (Z.eqb_spec j i) as [->|Hne].
  - apply list_lookup_insert_eq. lia.
  - apply list_lookup_insert_ne. lia.
Qed.

Lemma move_bins_spec rs a k n : ∀ i h, 20 ≤ a ≤ 54 → 0 ≤ k ≤ 34 → Z.of_nat n + i = 1000 → 0 ≤ i →
  Forall (λ l, 0 < l) rs → Z.of_nat (length rs) < 2 ^ 31 → shows h (moved a k i) rs →
  ∃ h', move_bins n i (fdiv (of_Z (2 ^ a)) (of_Z (2 ^ (a + k)))) h = ret h' ∧ shows h' (moved a k 1000) rs.
Proof.
  induction n as [|n IH]; intros i h Ha Hk Hn Hi Hrs Hlen Hh; cbn [move_bins].
  { exists h. by replace 1000 with i by lia. }
  rewrite bin_exact by lia. cbn [mopt]. rewrite bind_ret.
  assert (Forall (λ l, moved a k (i + 1) l = if moved a k i l =? i then i / 2 ^ k else moved a k i l) rs) as Hstep.
  { eapply list.Forall_impl; [exact Hrs|]. cbv beta; intros l Hl. apply moved_step; lia. }
  pose proof (div_pow_le i k Hi ltac:(lia)) as Hnb.
  destruct (Z.eqb_spec i (i / 2 ^ k)) as [E|Hne].
  - apply IH; try lia; [done..|]. destruct Hh as [Hl Hh]. split; [done|]. intros j Hj. rewrite Hh by done.
    f_equal. apply cnt_ext. eapply list.Forall_impl; [exact Hstep|]. intros l ->. case_match; breflect; lia.
  - destruct (cnt_move (moved a k i) (moved a k (i + 1)) rs i (i / 2 ^ k)) as [Hcnt Hsum]; [lia|done|].
    pose proof (cnt_bound (moved a k i) rs i). pose proof (cnt_bound (moved a k i) rs (i / 2 ^ k)).
    replace (i / 2 ^ k <? i) with true by (symmetry; lia). cbn [massert]. rewrite bind_ret.
    rewrite (shows_bin _ _ _ _ Hh), bind_ret, (shows_bin _ _ _ _ Hh), bind_ret, int_small, bind_ret by lia.
    apply IH; try lia; [done..|]. destruct Hh as [Hl Hh]. split; [by rewrite !length_insert|].
    intros j Hj. rewrite !shows_lookup_insert by (rewrite ?length_insert; lia). rewrite Hcnt, Hh by done.
    by repeat case_match.
Qed.

Lemma moved_first a k rs : Forall (λ l, 0 < l) rs → 0 ≤ a → ∀ j, cnt (moved a k 0) rs j = cnt (bin (2 ^ a)) rs j.
Proof.
  intros Hrs Ha j. apply cnt_ext. eapply list.Forall_impl; [exact Hrs|]. cbv beta. intros l Hl. unfold moved.
  pose proof (bin_nonneg (2 ^ a) l ltac:(apply Z.pow_pos_nonneg; lia) Hl).
  by replace (bin (2 ^ a) l <? 0) with false by (symmetry; lia).
Qed.

Lemma moved_last a k rs : Forall (recordable (2 ^ a)) rs → 0 ≤ a → 0 ≤ k →
  ∀ j, cnt (moved a k 1000) rs j = cnt (bin (2 ^ (a + k))) rs j.
Proof.
  intros Hrs Ha Hk j. apply cnt_ext. eapply list.Forall_impl; [exact Hrs|]. intros l [_ Hl]. unfold moved. cbv zeta.
  replace (bin (2 ^ a) l <? 1000) with true by (symmetry; lia). by apply bin_double.
Qed.

(** A latency that is above a thousand times a power of two by less than one
    part in 2 ^ 18: rounding may hide the difference, so that it does not fit
    into the bins of the width chosen for it. *)
Definition marginal (l : Z) : Prop := ∃ k, 20 ≤ k ≤ 54 ∧ 1000 * 2 ^ k < l ∧ 2 ^ 18 * (l + 1) < 1000 * 2 ^ k * (2 ^ 18 + 1).

Lemma beyond_bins a l : 0 ≤ a → 1000 ≤ bin (2 ^ a) l → 1000 * 2 ^ a < l.
Proof.
  intros Ha Hb. unfold bin in Hb. assert (0 < 2 ^ a) by (apply Z.pow_pos_nonneg; lia).
  pose proof (Z.mul_div_le (l - 1) (2 ^ a) ltac:(lia)). nia.
Qed.

Lemma of_Z_small_inj m n : 0 ≤ m ≤ 63 → 0 ≤ n ≤ 63 → of_Z m = of_Z n → m = n.
Proof.
  intros Hm Hn E. apply (bool_decide_eq_true_1 (of_Z m = of_Z n → m = n)); [|done]. clear E. revert n Hn. apply zseq_forall.
  revert m Hm. apply zseq_forall. by vm_compute.
Qed.

(** The new width: a power of two that is not smaller, and wide enough but for
    marginal latencies. *)
Lemma new_width `{LibmLaws} a l : 20 ≤ a ≤ 54 → 1000 ≤ bin (2 ^ a) l → l < 2 ^ 63 →
  ∃ k, new_bin_width l = Some (2 ^ (a + k)) ∧ 0 ≤ k ∧ a + k ≤ 54 ∧ (1000 ≤ bin (2 ^ (a + k)) l → marginal l).
Proof.
  intros Ha Hb Hl. pose proof (beyond_bins a l ltac:(lia) Hb) as Hlo.
  assert (u64 (l + 1) = l + 1) as Hu by (assert (0 < 2 ^ a) by (apply Z.pow_pos_nonneg; lia); apply u64_small; unfold in_u64; lia).
  assert (2 ^ 20 ≤ 2 ^ a) by (apply Z.pow_le_mono_r; lia).
  destruct (log_two (required_bin_width l) a 54) as (n & E & Hn); [lia|lia| |].
  { unfold required_bin_width. rewrite Hu. apply div_1000_within; lia. }
  exists (n - a). unfold new_bin_width. cbv zeta. rewrite E, pow_two by lia.
  replace (a + (n - a)) with n by lia. rewrite width_exact by lia. split_and!; [done|lia|lia|].
  intros Hbn. pose proof (beyond_bins n l ltac:(lia) Hbn). exists n. split_and!; [lia|lia|done|].
  apply Z.nle_gt. intros Hge. destruct (log_above (required_bin_width l) n 54) as (n' & E' & Hn'); [lia|lia| |].
  - unfold required_bin_width. rewrite Hu. assert (2 ^ n = 2 ^ (n - 18) * 2 ^ 18) as Ep.
    { rewrite <-Z.pow_add_r by lia. f_equal. lia. }
    assert (2 ^ 2 ≤ 2 ^ (n - 18)) by (apply Z.pow_le_mono_r; lia). apply div_1000_within; lia.
  - rewrite E in E'. apply of_Z_small_inj in E'; lia.
Qed.

(** ** The counter as a list of latencies *)

Definition smallest (ls : list Z) : Z := match ls with [] => 0 | _ => foldr Z.min (2 ^ 64) ls end.
Definition largest (ls : list Z) : Z := foldr Z.max 0 ls.
Definition total (ls : list Z) : Z := foldr Z.add 0 ls.

(** The latencies that the histogram has: all but marginal ones. *)
Inductive counted : list Z → list Z → Prop :=
  | counted_nil : counted [] []
  | counted_bin l ls rs : counted ls rs → counted (l :: ls) (l :: rs)
  | counted_not l ls rs : marginal l → counted ls rs → counted (l :: ls) rs.

Lemma counted_length ls rs : counted ls rs → (length rs ≤ length ls)%nat.
Proof. induction 1; simpl; lia. Qed.
Lemma counted_all ls rs : counted ls rs → Forall (λ l, ¬ marginal l) ls → rs = ls.
Proof. induction 1 as [|l ls rs _ IH|l ls rs Hm _ IH]; intros Hf; [done|apply Forall_cons_1 in Hf as [? ?]..]; [f_equal; auto|done]. Qed.

(** [ls] are the latencies since the last reset, newest first, [rs] those that
    the histogram has.  The sum wraps around. *)
Record lc_repr lc (a : Z) (ls rs : list Z) : Prop := {
  lr_exp : 20 ≤ a ≤ 54;
  lr_width : bin_width lc = 2 ^ a;
  lr_num : num lc = Z.of_nat (length ls);
  lr_sum : lc_sum lc = u64 (total ls);
  lr_min : lc_min lc = smallest ls;
  lr_max : lc_max lc = largest ls;
  lr_hist : shows (histogram lc) (bin (2 ^ a)) rs;
  lr_rec : Forall (recordable (2 ^ a)) rs;
  lr_counted : counted ls rs;
  lr_ok : Forall (λ l, 0 < l < 2 ^ 63) ls;
}.

Lemma minmax_spec l ls : 0 < l < 2 ^ 63 → Forall (λ l, 0 < l < 2 ^ 63) ls →
  let '(mn, mx) := if (smallest ls =? 0) && (largest ls =? 0) then (l, l) else (smallest ls, largest ls) in
  (if l <? mn then l else mn) = smallest (l :: ls) ∧ (if mx <? l then l else mx) = largest (l :: ls).
Proof.
  intros Hl Hls. destruct ls as [|l1 ls]; [simpl; rewrite !Z.ltb_irrefl; lia|].
  assert (0 < largest (l1 :: ls)) as Hpos by (apply Forall_cons_1 in Hls as [? _]; simpl; lia).
  replace ((smallest (l1 :: ls) =? 0) && (largest (l1 :: ls) =? 0)) with false by (symmetry; lia).
  unfold smallest, largest in *. cbn [foldr] in *. split.
  - destruct (Z.ltb_spec l (l1 `min` foldr Z.min (2 ^ 64) ls)); lia.
  - destruct (Z.ltb_spec (l1 `max` foldr Z.max 0 ls) l); lia.
Qed.

Lemma sum_step ls l : u64 (u64 (total ls) + l) = u64 (total (l :: ls)).
Proof. unfold u64, wrap. cbn [total foldr]. rewrite Zplus_mod_idemp_l. f_equal. unfold total. lia. Qed.

Lemma udiv_pow x a : 0 ≤ a → udiv x (2 ^ a) = ret (x / 2 ^ a).
Proof.
  intros. assert (0 < 2 ^ a) by (apply Z.pow_pos_nonneg; lia). unfold udiv.
  by replace (2 ^ a =? 0) with false by (symmetry; lia).
Qed.

Lemma count_bin_spec lc f rs l : shows (histogram lc) f rs → 0 ≤ f l < 1000 → Z.of_nat (length rs) < 2 ^ 31 - 1 →
  ∃ h, count_bin lc (f l) = ret (set_histogram lc h) ∧ shows h f (l :: rs).
Proof.
  intros Hh Hf Hlen. pose proof (cnt_bound f rs (f l)). eexists. unfold count_bin.
  rewrite (shows_bin _ _ _ _ Hh), bind_ret, int_small, bind_ret by lia. split; [done|].
  destruct Hh as [Hl Hh]. split; [by rewrite length_insert|]. intros j Hj. cbn [cnt].
  rewrite shows_lookup_insert, Hh by lia. rewrite (Z.eqb_sym j). destruct (Z.eqb_spec (f l) j) as [<-|]; [f_equal; lia|done].
Qed.

Lemma recordable_wider a k l : 0 ≤ a → 0 ≤ k → recordable (2 ^ a) l → recordable (2 ^ (a + k)) l.
Proof.
  intros Ha Hk [H1 H2]. split; [done|]. rewrite <-bin_double by done.
  assert (0 < 2 ^ a) as Hw by (apply Z.pow_pos_nonneg; lia).
  pose proof (div_pow_le (bin (2 ^ a) l) k (bin_nonneg _ _ Hw H1) Hk). lia.
Qed.

(** The width changes to a larger power of two, and the histogram is that of
    the same latencies. *)
Lemma change_width_spec `{LibmLaws} lc a l rs : 20 ≤ a ≤ 54 → bin_width lc = 2 ^ a → 0 < num lc →
  1000 ≤ bin (2 ^ a) l → l < 2 ^ 63 → shows (histogram lc) (bin (2 ^ a)) rs → Forall (recordable (2 ^ a)) rs →
  Z.of_nat (length rs) < 2 ^ 31 →
  ∃ k h, change_bin_width lc l = ret (set_histogram (set_bin_width lc (2 ^ (a + k))) h) ∧ 0 ≤ k ∧ a + k ≤ 54 ∧
    shows h (bin (2 ^ (a + k))) rs ∧ Forall (recordable (2 ^ (a + k))) rs ∧ (1000 ≤ bin (2 ^ (a + k)) l → marginal l).
Proof.
  intros Ha Hw Hnum Hb Hl Hh Hrs Hlen. destruct (new_width a l Ha Hb Hl) as (k & E & Hk & Hk' & Hmarg).
  assert (Forall (λ l, 0 < l) rs) as Hpos by (eapply list.Forall_impl; [exact Hrs|]; intros ? [? _]; done).
  destruct (move_bins_spec rs a k 1000 0 (histogram lc)) as (h & Em & Hm); try lia; [done|..].
  { destruct Hh as [Hl1 Hh]. split; [done|]. intros j Hj. rewrite moved_first by (done || lia). by apply Hh. }
  exists k, h. split_and!; [|lia|lia| | |exact Hmarg].
  - unfold change_bin_width. rewrite E. cbn [mopt]. rewrite bind_ret. cbn [num set_bin_width histogram].
    replace (0 <? num lc) with true by (symmetry; lia). rewrite Hw. change (Z.to_nat HISTOGRAM_NUM_BINS) with 1000%nat.
    by rewrite Em, bind_ret.
  - destruct Hm as [Hl1 Hm]. split; [done|]. intros j Hj. rewrite <-(moved_last a k) by (done || lia). by apply Hm.
  - eapply list.Forall_impl; [exact Hrs|]. intros x. apply recordable_wider; lia.
Qed.

Section counter.
Context `{LibmLaws}.

Lemma counter_add_repr lc a ls rs l : lc_repr lc a ls rs → 0 < l < 2 ^ 63 → Z.of_nat (length ls) < 2 ^ 31 - 1 →
  ∃ lc' a', latency_counter_add lc l = ret lc' ∧ a ≤ a' ∧ (bin (2 ^ a) l < 1000 → a' = a) ∧
    lc_repr lc' a' (l :: ls) (if bin (2 ^ a') l <? 1000 then l :: rs else rs).
Proof.
  intros [Ha Hw Hnum Hsum Hmin Hmax Hh Hrs Hsub Hok] Hl Hlen. pose proof (counted_length _ _ Hsub) as Hle.
  assert (0 ≤ bin (2 ^ a) l) as Hb0 by (apply bin_nonneg; [apply Z.pow_pos_nonneg; lia|lia]).
  unfold latency_counter_add. replace ((l =? 0) || (LLONG_MAX <? l)) with false by (symmetry; unfold LLONG_MAX; lia).
  pose proof (minmax_spec l ls Hl Hok) as Hmm. rewrite Hmin, Hmax, Hsum, Hnum, Hw, sum_step.
  rewrite (u64_small (Z.of_nat (length ls) + 1)) by (unfold in_u64; lia).
  destruct (if (smallest ls =? 0) && (largest ls =? 0) then (l, l) else (smallest ls, largest ls)) as [mn mx].
  destruct Hmm as [-> ->]. cbv beta zeta iota.
  set (lc1 := mk_lc _ _ _ _ _ _ _). cbn [bin_width lc1]. rewrite udiv_pow, bind_ret by lia. fold (bin (2 ^ a) l).
  change HISTOGRAM_NUM_BINS with 1000. destruct (Z.leb_spec 1000 (bin (2 ^ a) l)) as [Hge|Hlt].
  - destruct (change_width_spec lc1 a l rs) as (k & h & E & Hk & Hk' & Hh' & Hrs' & Hmarg); try done; try lia; [simpl; lia|].
    rewrite E, bind_ret. cbn [bin_width set_histogram set_bin_width lc1]. rewrite udiv_pow, bind_ret by lia.
    fold (bin (2 ^ (a + k)) l).
    assert (0 ≤ bin (2 ^ (a + k)) l) as Hb1 by (apply bin_nonneg; [apply Z.pow_pos_nonneg; lia|lia]).
    destruct (Z.leb_spec 1000 (bin (2 ^ (a + k)) l)) as [Hge'|Hlt'].
    + eexists _, (a + k). split_and!; [done|lia|lia|]. replace (_ <? 1000) with false by (symmetry; lia).
      split; try done; [lia|simpl; lia|by apply counted_not; [apply Hmarg|]|by apply Forall_cons_2].
    + edestruct (count_bin_spec (set_histogram (set_bin_width lc1 (2 ^ (a + k))) h) (bin (2 ^ (a + k))) rs l)
        as (h' & E' & Hh''); [exact Hh'|lia|lia|]. cbn [lc1 set_histogram set_bin_width histogram] in E'. rewrite E'.
      eexists _, (a + k). split_and!; [done|lia|lia|]. replace (_ <? 1000) with true by (symmetry; lia).
      split; try done; [lia|simpl; lia|apply Forall_cons_2; [split; lia|done]|by apply counted_bin|by apply Forall_cons_2].
  - destruct (count_bin_spec lc1 (bin (2 ^ a)) rs l Hh ltac:(lia) ltac:(lia)) as (h' & E' & Hh''). rewrite E'.
    eexists _, a. split_and!; [done|lia|done|]. replace (_ <? 1000) with true by (symmetry; lia).
    split; try done; [simpl; lia|apply Forall_cons_2; [split; lia|done]|by apply counted_bin|by apply Forall_cons_2].
Qed.

Lemma cnt_nil_shows f : shows (replicate 1000 0) f [].
Proof. split; [apply length_replicate|]. intros j Hj. apply lookup_replicate_2. lia. Qed.

Lemma counter_reset_repr lc a ls rs now : lc_repr lc a ls rs →
  ∃ lc', latency_counter_reset lc now = ret lc' ∧ start_time lc' = now ∧
    lc_repr lc' (if decide (0 < num lc ∧ 21 ≤ a ∧ bin (2 ^ a) (largest ls) < 250) then a - 1 else a) [] [].
Proof.
  intros [Ha Hw Hnum Hsum Hmin Hmax Hh Hrs Hsub Hok]. eexists. unfold latency_counter_reset.
  rewrite Hw, Hmax, udiv_pow, bind_ret by lia. split; [done|]. split; [done|].
  assert ((HISTOGRAM_DEFAULT_BIN_WIDTH * 2 <=? 2 ^ a) = bool_decide (21 ≤ a)) as ->.
  { change (HISTOGRAM_DEFAULT_BIN_WIDTH * 2) with (2 ^ 21). apply eq_true_iff_eq. rewrite bool_decide_eq_true, Z.leb_le.
    split; [intros Hp%Z.pow_le_mono_r_iff; lia|intros; apply Z.pow_le_mono_r; lia]. }
  change (HISTOGRAM_NUM_BINS / REDUCE_THRESHOLD) with 250.
  assert (0 < num lc → u64 (largest ls - 1) = largest ls - 1) as Hu.
  { intros Hn. apply u64_small. destruct ls as [|l ls]; [simpl in Hnum; lia|]. unfold in_u64.
    assert (∀ xs, Forall (λ l, 0 < l < 2 ^ 63) xs → largest xs < 2 ^ 63) as Hb by (induction 1; simpl in *; lia).
    pose proof (Hb _ Hok). apply Forall_cons_1 in Hok as [? _]. simpl in *. lia. }
  split; try done; cbn [bin_width histogram num lc_sum lc_min lc_max].
  - case_decide; lia.
  - case_decide as Hd.
    + destruct Hd as (Hd1 & Hd2 & Hd3). rewrite Hu by done. unfold bin in Hd3. rewrite bool_decide_eq_true_2 by done.
      replace (0 <? num lc) with true by (symmetry; lia). replace (_ <? 250) with true by (symmetry; lia). cbn [andb].
      replace (2 ^ a) with (2 ^ (a - 1) * 2) by (rewrite Z.mul_comm, <-Z.pow_succ_r by lia; f_equal; lia).
      by rewrite Z.div_mul.
    + destruct (Z.ltb_spec 0 (num lc)) as [Hn|]; [|done]. cbn [andb]. rewrite Hu by done. case_bool_decide; [|done].
      cbn [andb]. destruct (Z.ltb_spec ((largest ls - 1) / 2 ^ a) 250); [|done]. exfalso. by apply Hd.
  - apply cnt_nil_shows.
  - constructor.
Qed.

(** ** Sequences of operations *)

Inductive op : Type := Add (latency : Z) | Reset (now : Z).

Definition step lc (o : op) : M latency_counter_t :=
  match o with Add l => latency_counter_add lc l | Reset now => latency_counter_reset lc now end.

Fixpoint run lc (os : list op) : M latency_counter_t :=
  match os with [] => ret lc | o :: os => let* lc := step lc o in run lc os end.

(** The latencies that count, since the last reset. *)
Definition track (ls : list Z) (o : op) : list Z :=
  match o with
  | Add l => if decide (0 < l < 2 ^ 63) then l :: ls else ls
  | Reset _ => []
  end.
Definition since (os : list op) : list Z := foldl track [] os.

Definition op_ok (o : op) : Prop := match o with Add l => in_u64 l | Reset _ => True end.

Lemma counter_run_repr os : ∀ lc a ls rs, lc_repr lc a ls rs → Forall op_ok os →
  Z.of_nat (length ls + length os) < 2 ^ 31 →
  ∃ lc' a' rs', run lc os = ret lc' ∧ lc_repr lc' a' (foldl track ls os) rs'.
Proof.
  induction os as [|o os IH]; intros lc a ls rs Hr Hok Hlen; [by exists lc, a, rs|]. cbn [run foldl].
  apply Forall_cons_1 in Hok as [Ho Hok]. cbn [length] in Hlen. destruct o as [l|now]; cbn [step track].
  - case_decide as Hl.
    + destruct (counter_add_repr lc a ls rs l Hr Hl ltac:(lia)) as (lc' & a' & E & _ & _ & Hr'). rewrite E, bind_ret.
      eapply IH; [exact Hr'|done|simpl; lia].
    + unfold latency_counter_add. replace ((l =? 0) || (LLONG_MAX <? l)) with true
        by (symmetry; unfold LLONG_MAX; simpl in Ho; unfold in_u64 in Ho; lia).
      rewrite bind_ret. eapply IH; [exact Hr|done|lia].
  - destruct (counter_reset_repr lc a ls rs now Hr) as (lc' & E & _ & Hr'). rewrite E, bind_ret.
    eapply IH; [exact Hr'|done|simpl; lia].
Qed.

Lemma counter_create_repr now : ∃ lc, latency_counter_create now ⇓ Some lc ∧ lc_repr lc 20 [] [].
Proof.
  exists (mk_lc now 0 0 0 0 HISTOGRAM_DEFAULT_BIN_WIDTH (replicate (Z.to_nat HISTOGRAM_NUM_BINS) 0)).
  split; [done|]. split; try done; [apply cnt_nil_shows|constructor].
Qed.


Lemma sum_bins_ret f rs h n : ∀ i s, shows h f rs → 0 ≤ i → i + Z.of_nat n ≤ 1000 → ∃ d, sum_bins n i h s = ret d.
Proof.
  induction n as [|n IH]; intros i s Hh Hi Hn; cbn [sum_bins]; [by eexists|].
  rewrite (shows_bin _ _ _ _ Hh), bind_ret by lia. apply IH; [done|lia..].
Qed.

(** Reading a rate stays inside the histogram and no assertion fails,
    whatever the bounds. *)
Theorem latency_rate_safe lc a ls rs lower upper now : lc_repr lc a ls rs → in_u64 lower → in_u64 upper →
  ∃ d, latency_counter_get_rate lc lower upper now = ret d.
Proof.
  intros [Ha Hw _ _ _ _ Hh _ _ _] Hlo Hup. unfold in_u64 in Hlo, Hup.
  assert (0 < 2 ^ a ≤ 2 ^ 54) as Hp by (split; [apply Z.pow_pos_nonneg|apply Z.pow_le_mono_r]; lia).
  unfold latency_counter_get_rate. repeat (case_match; [by eexists|]). rewrite Hw. change HISTOGRAM_NUM_BINS with 1000.
  assert (u64 (u64 (lower + 1) - 1) = lower) as ->.
  { unfold u64, wrap. rewrite Zminus_mod_idemp_l. replace (lower + 1 - 1) with lower by lia. by apply Z.mod_small. }
  assert ((if negb (lower =? 0) then udiv lower (2 ^ a) else ret 0) = ret (lower / 2 ^ a)) as ->.
  { destruct (Z.eqb_spec lower 0) as [->|]; [done|]. apply udiv_pow. lia. }
  rewrite bind_ret. pose proof (Z.div_pos lower (2 ^ a) ltac:(lia) ltac:(lia)) as Hb.
  pose proof (Z.mul_div_le lower (2 ^ a) ltac:(lia)) as Hlb. set (lb := lower / 2 ^ a) in *.
  destruct (Z.leb_spec 1000 lb); [by eexists|].
  assert (∃ ub, (if negb (upper =? 0) then udiv (upper - 1) (2 ^ a) else ret 999) = ret ub ∧ 0 ≤ ub ∧
    (upper ≠ 0 → upper ≤ (ub + 1) * 2 ^ a)) as (ub & Eub & Hub & Hbound).
  { destruct (Z.eqb_spec upper 0) as [->|]; [by exists 999|]. exists ((upper - 1) / 2 ^ a).
    split; [apply udiv_pow; lia|]. split; [apply Z.div_pos; lia|].
    pose proof (Z.mod_pos_bound (upper - 1) (2 ^ a) ltac:(lia)). pose proof (Z.div_mod (upper - 1) (2 ^ a) ltac:(lia)). lia. }
  change (1000 - 1) with 999. rewrite Eub, bind_ret. clear Eub.
  assert (∃ ub' up', (if 1000 <=? ub then (999, 0) else (ub, upper)) = (ub', up') ∧ 0 ≤ ub' < 1000 ∧ (up' = 0 ∨ up' = upper ∧ ub' = ub))
    as (ub' & up' & -> & Hub' & Hup') by (destruct (Z.leb_spec 1000 ub); eexists _, _; (split; [done|lia])).
  destruct (sum_bins_ret _ _ _ (Z.to_nat (ub' + 1 - lb)) lb fzero Hh) as [d ->]; [lia|lia|]. rewrite bind_ret.
  assert (lb * 2 ^ a ≤ lower ∧ 0 ≤ lb * 2 ^ a) as [Hlb1 Hlb2] by nia. rewrite (u64_small (lb * 2 ^ a)) by (unfold in_u64; lia).
  replace (lb * 2 ^ a <=? lower) with true by (symmetry; lia). cbn [massert]. rewrite (shows_bin _ _ _ lb Hh) by lia.
  rewrite (shows_bin _ _ _ ub' Hh), (u64_small ((ub' + 1) * 2 ^ a)) by (unfold in_u64; nia || lia).
  destruct Hup' as [->|[-> ->]]; [by destruct (lower =? 0); eexists|].
  destruct (Z.eqb_spec upper 0) as [->|Hu]; [by destruct (lower =? 0); eexists|].
  specialize (Hbound Hu). replace (upper <=? (ub + 1) * 2 ^ a) with true by (symmetry; lia).
  by destruct (lower =? 0); eexists.
Qed.
End counter.

(** ** Configuration (latency_config.c) *)

Record latency_bucket_t : Type := mk_bucket_bounds { lower_bound : Z; upper_bound : Z }.
Record latency_config_t : Type := mk_latency_config {
  percentile : list double;
  buckets : list latency_bucket_t;
  bucket_type : option cstr;
}.
Implicit Types conf : latency_config_t.

(** [percent] is only read when the option has one. *)
Definition latency_config_add_percentile conf (ci : oconfig_item_t) : M (Z * latency_config_t) :=
  let '(status, percent) := cf_util_get_double ci NAN in
  if negb (status =? 0) then ret (status, conf)
  else if fle percent fzero || fle (of_Z 100) percent then ret (ERANGE, conf)
  else
    let* ok := alloc in
    if negb ok then ret (ENOMEM, conf)
    else ret (0, mk_latency_config (percentile conf ++ [percent]) (buckets conf) (bucket_type conf)).

Definition latency_config_add_bucket conf (ci : oconfig_item_t) : M (Z * latency_config_t) :=
  match values ci with
  | [OCONFIG_TYPE_NUMBER lo; OCONFIG_TYPE_NUMBER hi] =>
      if negb (feq hi fzero) && fle hi lo then ret (ERANGE, conf)
      else if flt lo fzero then ret (ERANGE, conf)
      else
        let* ok := alloc in
        if negb ok then ret (ENOMEM, conf)
        else
          let* l := mopt (DOUBLE_TO_CDTIME_T lo) in
          let* u := mopt (DOUBLE_TO_CDTIME_T hi) in
          ret (0, mk_latency_config (percentile conf) (buckets conf ++ [mk_bucket_bounds l u]) (bucket_type conf))
  | _ => ret (EINVAL, conf)
  end.

Fixpoint latency_options (cs : list oconfig_item_t) conf : M (Z * latency_config_t) :=
  match cs with
  | [] => ret (0, conf)
  | child :: cs =>
      let* '(status, conf) :=
        if strcasecmp $"Percentile" (key child) =? 0 then latency_config_add_percentile conf child
        else if strcasecmp $"Bucket" (key child) =? 0 then latency_config_add_bucket conf child
        else if strcasecmp $"BucketType" (key child) =? 0 then
          let* '(status, t) := cf_util_get_string child (bucket_type conf) in
          ret (status, mk_latency_config (percentile conf) (buckets conf) t)
        else ret (0, conf) in
      if negb (status =? 0) then ret (status, conf) else latency_options cs conf
  end.

Definition latency_config conf (ci : oconfig_item_t) : M (Z * latency_config_t) :=
  let* '(status, conf) := latency_options (children ci) conf in
  if negb (status =? 0) then ret (status, conf)
  else match percentile conf, buckets conf with [], [] => ret (EINVAL, conf) | _, _ => ret (0, conf) end.

(** Two arrays and the string are allocated; a failure frees them all. *)
Definition latency_config_copy (src : latency_config_t) : M (Z * option latency_config_t) :=
  let* ok1 := alloc in
  let* ok2 := alloc in
  if negb ok1 || negb ok2 then ret (ENOMEM, None)
  else
    match bucket_type src with
    | None => ret (0, Some (mk_latency_config (percentile src) (buckets src) None))
    | Some t =>
        let* ok := alloc in
        if negb ok then ret (ENOMEM, None)
        else ret (0, Some (mk_latency_config (percentile src) (buckets src) (Some t)))
    end.

(** ** A concrete libm, and witnesses *)

(** The logarithm to base two, rounded up, and powers of integers. *)
#[local] Instance demo_log : LibmLog := λ x,
  match x with S754_finite false m e => of_Z (Z.log2_up (Z.pos m) + e) | _ => NAN end.
#[local] Instance demo_pow : Libm := λ x y,
  match trunc_Z x, trunc_Z y with Some a, Some b => of_Z (a ^ b) | _, _ => NAN end.

Lemma demo_ceil n : 0 ≤ n ≤ 63 → fceil (fdiv (of_Z n) (log (of_Z 2))) = of_Z n.
Proof.
  intros Hn. apply (bool_decide_eq_true_1 (fceil (fdiv (of_Z n) (log (of_Z 2))) = of_Z n)).
  revert n Hn. apply zseq_forall. by vm_compute.
Qed.

Lemma demo_laws : LibmLaws.
Proof.
  split.
  - intros n Hn. apply (bool_decide_eq_true_1 (pow (of_Z 2) (of_Z n) = of_Z (2 ^ n))).
    revert n Hn. apply zseq_forall. by vm_compute.
  - intros x k k' Hk Hk' (m & e & -> & He & Hm & Hlo & Hhi). exists (Z.log2_up (Z.pos m) + e).
    pose proof (Z.le_log2_log2_up (Z.pos m)). pose proof (Z.le_log2_up_succ_log2 (Z.pos m)).
    assert (k ≤ Z.log2 (Z.pos m) + e < k') as Hr.
    { apply val_log2; try lia. eapply Z.le_lt_trans; [exact Hhi|]. replace k' with (k' - 20 + 20) at 2 by lia.
      rewrite val_shift by lia. unfold val. apply Z.mul_lt_mono_pos_r; [apply Z.pow_pos_nonneg|]; lia. }
    split; [apply demo_ceil; lia|lia].
  - intros x k k' Hk Hk' (m & e & -> & He & Hm & Hlo & Hhi). exists (Z.log2_up (Z.pos m) + e).
    pose proof (Z.le_log2_log2_up (Z.pos m)). pose proof (Z.le_log2_up_succ_log2 (Z.pos m)).
    assert (val 1 k < val (Z.pos m) e) as Hlo'.
    { eapply Z.lt_le_trans; [|exact Hlo]. replace k with (k - 18 + 18) at 1 by lia. rewrite val_shift by lia.
      unfold val. apply Z.mul_lt_mono_pos_r; [apply Z.pow_pos_nonneg|]; lia. }
    assert (k ≤ Z.log2 (Z.pos m) + e < k') as Hr.
    { apply val_log2; try lia. eapply Z.le_lt_trans; [exact Hhi|]. replace k' with (k' - 20 + 20) at 2 by lia.
      rewrite val_shift by lia. unfold val. apply Z.mul_lt_mono_pos_r; [apply Z.pow_pos_nonneg|]; lia. }
    split; [apply demo_ceil; lia|]. split; [|lia]. apply Z.nle_gt. intros Hle.
    assert (Z.pos m ≤ 2 ^ Z.log2_up (Z.pos m)) as Hup.
    { destruct (Z.eq_dec (Z.pos m) 1) as [->|]; [done|]. apply Z.log2_up_spec. lia. }
    revert Hlo'. apply Z.le_ngt. transitivity (val (2 ^ Z.log2_up (Z.pos m)) e); [by apply val_le|].
    pose proof (Z.log2_up_nonneg (Z.pos m)). rewrite <-(Z.mul_1_l (2 ^ _)), <-val_shift by lia. unfold val.
    rewrite !Z.mul_1_l. apply Z.pow_le_mono_r; lia.
Qed.

(** Three latencies, the last of which does not fit into 1000 bins of the
    default width. *)
Definition demo_ops : list op := [Add 1; Reset 5; Add 3000000; Add 3000000000; Add (2 ^ 32)].


Example demo_histogram :
  ∃ lc, (let* lc := latency_counter_create 1 in match lc with Some lc => run lc demo_ops | None => crash end) ⇓ lc ∧
    bin_width lc = 2 ^ 23 ∧ histogram lc !! 0%nat = Some 1 ∧ histogram lc !! 357%nat = Some 1 ∧
    histogram lc !! 511%nat = Some 1.
Proof. eexists. split; [vm_compute; reflexivity|]. by split_and!. Qed.
