(* ===== verification/Subst.v ===== *)
(** * String substitution (src/daemon/utils_subst.c)

    Buffers are byte arrays, as in CommonStr.v; a function that is given a
    buffer and its size is given the list of its bytes. *)

From Stdlib Require Import ZArith Lia Ascii String.
From stdpp Require Import base numbers option list.
From S2P Require Import Prelude StrBuf CommonStr.

Local Open Scope nat_scope.

(** The lengths of the three parts, and the length of the text plus one. *)
Definition part_lengths (buflen front_len replacement_len back_len : nat) : nat * nat * nat * nat :=
  if buflen <=? front_len then (buflen - 1, 0, 0, buflen)
  else if buflen <=? front_len + replacement_len then (front_len, buflen - (front_len + 1), 0, buflen)
  else if buflen <=? front_len + replacement_len + back_len then
    (front_len, replacement_len, buflen - (front_len + replacement_len + 1), buflen)
  else (front_len, replacement_len, back_len, front_len + replacement_len + back_len + 1).

(** A copy of [len] bytes, which is skipped when there are none. *)
Definition copy_part (buf : list ascii) (out : nat) (src : cstr) (len : nat) : M (list ascii) :=
  if len =? 0 then ret buf else sstrncpy buf out src (len + 1).

(** [None] is NULL: the arguments are rejected. *)
Definition subst (buf : list ascii) (string : cstr) (off1 off2 : nat) (replacement : cstr) : M (option (list ascii)) :=
  if length buf =? 0 then ret None
  else if (length string <? off1) || (length string <? off2) || (off2 <? off1) then ret None
  else
    let back := drop off2 string in
    let '(front_len, replacement_len, back_len, buflen) :=
      part_lengths (length buf) off1 (length replacement) (length back) in
    let* _ := massert (front_len + replacement_len + back_len =? buflen - 1) in
    let* buf := copy_part buf 0 string front_len in
    let* buf := copy_part buf front_len replacement replacement_len in
    let* buf := copy_part buf (front_len + replacement_len) back back_len in
    let* buf := store buf (front_len + replacement_len + back_len) [NUL] in
    ret (Some buf).

(** [strstr], as the offset of the first occurrence. *)
Definition starts_with (needle s : cstr) : bool := bool_decide (take (length needle) s = needle).
Fixpoint strstr (s needle : cstr) : option nat :=
  if starts_with needle s then Some 0
  else match s with [] => None | _ :: s => S <$> strstr s needle end.

(** The loop; [temp] is the uninitialised array. *)
Fixpoint subst_loop (n : nat) (buf : list ascii) (needle replacement : cstr) (temp : list ascii) : M (list ascii) :=
  match n with
  | O => ret buf
  | S n =>
      match strstr (c_str buf) needle with
      | None => ret buf
      | Some begin =>
          let* r := subst temp (c_str buf) begin (begin + length needle) replacement in
          match r with
          | None => ret buf
          | Some temp' =>
              let* buf := strncpy buf 0 (c_str temp') (length buf) in
              subst_loop n buf needle replacement temp
          end
      end
  end.

Definition subst_string (buf : list ascii) (string needle replacement : cstr) (temp : list ascii) : M (list ascii) :=
  let* buf := sstrncpy buf 0 string (length buf) in
  subst_loop (length buf) buf needle replacement temp.

(** ** What they compute *)

(** The text with [off1, off2) replaced, cut off to fit. *)
Definition spliced (size : nat) (string : cstr) (off1 off2 : nat) (replacement : cstr) : cstr :=
  take (size - 1) (take off1 string ++ replacement ++ drop off2 string).

(** One copy behind what is there already. *)
Lemma copy_part_app a b src len : len < length b → len ≤ length src →
  ∃ c, copy_part (a ++ b) (length a) src len = ret ((a ++ take len src) ++ c :: drop (len + 1) b).
Proof.
  intros Hl Hs. unfold copy_part. destruct (Nat.eqb_spec len 0) as [->|Hne].
  - destruct b as [|c b]; [simpl in Hl; lia|]. exists c. simpl. by rewrite app_nil_r, drop_0.
  - exists NUL. rewrite sstrncpy_at by lia. replace (len + 1 - 1) with len by lia.
    replace (len + 1 - len `min` length src) with 1 by lia. by rewrite <-app_assoc.
Qed.

Lemma take_min (n : nat) (l : cstr) : take n l = take (n `min` length l) l.
Proof. destruct (Nat.le_gt_cases n (length l)); [by rewrite Nat.min_l|]. by rewrite Nat.min_r, !take_ge by lia. Qed.

Lemma part_lengths_spec n f r b : 0 < n →
  ∃ f' r' b', part_lengths n f r b = (f', r', b', f' + r' + b' + 1) ∧ f' + r' + b' < n ∧
    f' = f `min` (n - 1) ∧ r' = r `min` (n - 1 - f') ∧ b' = b `min` (n - 1 - f' - r').
Proof.
  intros Hn. unfold part_lengths.
  destruct (Nat.leb_spec n f); [eexists _, _, _; split; [repeat f_equal; lia|lia]|].
  destruct (Nat.leb_spec n (f + r)); [eexists _, _, _; split; [repeat f_equal; lia|lia]|].
  destruct (Nat.leb_spec n (f + r + b)); eexists _, _, _; (split; [repeat f_equal; lia|lia]).
Qed.

(** [subst] writes the text with the region replaced, cut off to fit into
    the buffer, and a NUL, and leaves the bytes behind it alone; it rejects
    offsets outside of the string. *)
Theorem subst_spec buf string off1 off2 replacement : 0 < length buf →
  subst buf string off1 off2 replacement
  = ret (if decide (off1 ≤ off2 ≤ length string) then
           let t := spliced (length buf) string off1 off2 replacement in
           Some (t ++ NUL :: drop (S (length t)) buf)
         else None).
Proof.
  intros Hb. unfold subst. rewrite (proj2 (Nat.eqb_neq _ _)) by lia.
  assert ((length string <? off1) || (length string <? off2) || (off2 <? off1)
          = negb (bool_decide (off1 ≤ off2 ≤ length string))) as ->.
  { case_bool_decide; destruct (Nat.ltb_spec (length string) off1), (Nat.ltb_spec (length string) off2),
      (Nat.ltb_spec off2 off1); done || lia. }
  case_decide as Hoff; [rewrite bool_decide_eq_true_2 by done|by rewrite bool_decide_eq_false_2]. cbn [negb].
  destruct (part_lengths_spec (length buf) off1 (length replacement) (length (drop off2 string)) Hb)
    as (f & r & b & -> & Hlt & Hf & Hr & Hbk). cbv beta iota zeta.
  rewrite (proj2 (Nat.eqb_eq _ _)) by lia. cbn [massert]. rewrite bind_ret.
  destruct (copy_part_app [] buf string f) as [c1 E1]; [lia|lia|]. cbn [app length] in E1. rewrite E1, bind_ret.
  destruct (copy_part_app (take f string) (c1 :: drop (f + 1) buf) replacement r) as [c2 E2];
    [simpl; rewrite length_drop; lia|lia|]. rewrite length_take, Nat.min_l in E2 by lia. rewrite E2, bind_ret.
  destruct (copy_part_app (take f string ++ take r replacement) (c2 :: drop (r + 1) (c1 :: drop (f + 1) buf)) (drop off2 string) b)
    as [c3 E3]; [simpl; rewrite !length_drop; simpl; rewrite ?length_drop; lia|lia|].
  rewrite length_app, !length_take, !Nat.min_l in E3 by lia. rewrite E3, bind_ret.
  set (t := (take f string ++ take r replacement) ++ take b (drop off2 string)) in *.
  assert (length t = f + r + b) as Ht by (unfold t; rewrite !length_app, !length_take; lia).
  rewrite <-Ht, store_app, bind_ret by (simpl; lia).
  assert (spliced (length buf) string off1 off2 replacement = t) as ->.
  { unfold spliced, t. rewrite !take_app, take_take, !length_take. rewrite <-app_assoc. f_equal; [f_equal; lia|].
    rewrite (take_min _ replacement), (take_min _ (drop off2 string)). f_equal; f_equal; lia. }
  f_equal. f_equal. f_equal. cbn [length app drop]. f_equal. rewrite Ht, !Nat.add_1_r. cbn [drop].
  rewrite !drop_drop. f_equal. lia.
Qed.

(** Replace the first occurrence, at most [n] times. *)
Fixpoint replace_all (n size : nat) (s needle replacement : cstr) : cstr :=
  match n with
  | O => s
  | S n =>
      match strstr s needle with
      | None => s
      | Some b => replace_all n size (spliced size s b (b + length needle) replacement) needle replacement
      end
  end.

Lemma strstr_split s needle b : strstr s needle = Some b →
  ∃ back, s = take b s ++ needle ++ back ∧ drop (b + length needle) s = back ∧ b + length needle ≤ length s.
Proof.
  assert (∀ s b, starts_with needle s = true → b = 0 →
    ∃ back, s = take b s ++ needle ++ back ∧ drop (b + length needle) s = back ∧ b + length needle ≤ length s) as H0.
  { intros s' ? Hs ->. apply bool_decide_eq_true in Hs. exists (drop (length needle) s'). split_and!; [|done|].
    - rewrite <-Hs at 1. by rewrite take_0, (take_drop (length needle) s').
    - rewrite <-Hs, length_take. lia. }
  revert b. induction s as [|c s IH]; intros b; cbn [strstr].
  - destruct (starts_with needle []) eqn:E; [|done]. intros [= <-]. by apply H0.
  - destruct (starts_with needle (c :: s)) eqn:E; [intros [= <-]; by apply H0|].
    destruct (strstr s needle) as [b'|]; [|done]. intros [= <-]. destruct (IH b' eq_refl) as (back & E1 & E2 & Hle).
    exists back. cbn [take app Nat.add drop length]. split_and!; [by rewrite <-E1|done|lia].
Qed.

Lemma spliced_no_nul size s o1 o2 r : no_nul s → no_nul r → no_nul (spliced size s o1 o2 r).
Proof.
  intros Hs Hr. apply Forall_take, list.Forall_app; split; [by apply Forall_take|].
  apply list.Forall_app; split; [done|by apply Forall_drop].
Qed.

Lemma subst_loop_spec n needle r temp : ∀ s rest, no_nul s → no_nul r → length (s ++ NUL :: rest) = length temp →
  ∃ rest', subst_loop n (s ++ NUL :: rest) needle r temp = ret (replace_all n (length temp) s needle r ++ NUL :: rest') ∧
    length (replace_all n (length temp) s needle r ++ NUL :: rest') = length temp ∧
    no_nul (replace_all n (length temp) s needle r).
Proof.
  induction n as [|n IH]; intros s rest Hs Hr Hlen; cbn [subst_loop replace_all]; [by exists rest|].
  assert (length s < length temp) as Hlt by (rewrite <-Hlen, length_app; simpl; lia).
  rewrite c_str_app by done. destruct (strstr s needle) as [b|] eqn:Eb; [|by exists rest].
  destruct (strstr_split _ _ _ Eb) as (back & Es & Ed & Hle).
  rewrite subst_spec, bind_ret by lia. rewrite decide_True by lia. cbv beta iota zeta.
  pose proof (spliced_no_nul (length temp) s b (b + length needle) r Hs Hr) as Ht.
  set (t := spliced (length temp) s b (b + length needle) r) in *.
  assert (length t < length temp) as Htl by (unfold t, spliced; rewrite length_take; lia).
  rewrite c_str_app by done. unfold strncpy. rewrite Hlen, take_ge by lia.
  assert (length (t ++ replicate (length temp - length t) NUL) = length temp) as Hl2
    by (rewrite length_app, length_replicate; lia).
  pose proof (store_app [] (s ++ NUL :: rest) (t ++ replicate (length temp - length t) NUL)) as Est. cbn [app length] in Est.
  rewrite Est, bind_ret by (rewrite Hl2, Hlen; done). rewrite Hl2, drop_ge, app_nil_r by (rewrite Hlen; done).
  replace (length temp - length t) with (S (length temp - length t - 1)) by lia. cbn [replicate].
  apply IH; [done|done|]. rewrite length_app. cbn [length]. rewrite length_replicate. lia.
Qed.

(** Something that every replacement uses up bounds their number. *)
Lemma replace_all_done (μ : cstr → nat) size needle r n : ∀ s,
  (∀ s b, strstr s needle = Some b → μ (spliced size s b (b + length needle) r) < μ s) → μ s ≤ n →
  strstr (replace_all (S n) size s needle r) needle = None.
Proof.
  induction n as [|n IH]; intros s Hμ Hs; cbn [replace_all]; destruct (strstr s needle) as [b|] eqn:Eb; try done.
  - pose proof (Hμ s b Eb). lia.
  - pose proof (Hμ s b Eb). apply IH; [done|lia].
Qed.

Lemma filter_take_le (P : ascii → Prop) `{∀ x, Decision (P x)} n (l : cstr) :
  length (filter P (take n l)) ≤ length (filter P l).
Proof. rewrite <-(take_drop n l) at 2. rewrite filter_app, length_app. lia. Qed.

Lemma spliced_uses_char c needle r size s b : c ∈ needle → c ∉ r → strstr s needle = Some b →
  length (filter (λ x, x = c) (spliced size s b (b + length needle) r)) < length (filter (λ x, x = c) s).
Proof.
  intros Hc Hr Eb. destruct (strstr_split _ _ _ Eb) as (back & Es & Ed & Hle). rewrite Es at 2. unfold spliced. rewrite Ed.
  eapply Nat.le_lt_trans; [apply filter_take_le|]. rewrite !filter_app, !length_app.
  assert (filter (λ x, x = c) r = []) as ->. { destruct (filter (λ x, x = c) r) as [|x l] eqn:E; [done|].
    assert (x ∈ filter (λ x, x = c) r) as [-> ?]%list_elem_of_filter by (rewrite E; constructor). done. }
  assert (c ∈ filter (λ x, x = c) needle) as Hin by (by apply list_elem_of_filter).
  destruct (filter (λ x, x = c) needle); [by apply elem_of_nil in Hin|]. simpl. lia.
Qed.

Lemma spliced_shorter needle r size s b : length r < length needle → strstr s needle = Some b →
  length (spliced size s b (b + length needle) r) < length s.
Proof.
  intros Hr Eb. destruct (strstr_split _ _ _ Eb) as (back & Es & Ed & Hle). unfold spliced.
  rewrite length_take, !length_app, length_take, length_drop. lia.
Qed.

(** [subst_string] repeatedly replaces the first occurrence, each time cut
    off to the size of the buffer, and stops after as many rounds as the buffer
    has bytes; the buffer ends up terminated.  When the replacement is shorter
    than the needle, or lacks one of its characters, the rounds are enough: no
    occurrence is left. *)
Theorem subst_string_spec buf string needle replacement temp :
  0 < length buf → length temp = length buf → no_nul string → no_nul replacement →
  let t := replace_all (length buf) (length buf) (take (length buf - 1) string) needle replacement in
  (∃ rest, subst_string buf string needle replacement temp = ret (t ++ NUL :: rest) ∧
     length (t ++ NUL :: rest) = length buf ∧ no_nul t) ∧
  (length replacement < length needle ∨ (∃ c, c ∈ needle ∧ c ∉ replacement) → strstr t needle = None).
Proof.
  intros Hb Htemp Hs Hr t. set (s0 := take (length buf - 1) string) in *.
  assert (length s0 < length buf) as Hs0 by (unfold s0; rewrite length_take; lia). split.
  - unfold subst_string. pose proof (sstrncpy_at [] buf string (length buf) ltac:(lia)) as E. cbn [app length] in E.
    rewrite E, bind_ret, drop_ge, app_nil_r by lia. fold s0. clear E.
    replace (length buf - (length buf - 1) `min` length string) with (S (length buf - 1 - length s0))
      by (unfold s0; rewrite length_take; lia). cbn [replicate].
    assert (length (s0 ++ NUL :: replicate (length buf - 1 - length s0) NUL) = length temp) as Hl
      by (rewrite length_app; cbn [length]; rewrite length_replicate; lia).
    rewrite Hl. destruct (subst_loop_spec (length temp) needle replacement temp s0
      (replicate (length buf - 1 - length s0) NUL)) as (rest & -> & Hlen & Hn); [by apply Forall_take|done|done|].
    unfold t. rewrite Htemp in *. by exists rest.
  - intros Hdone. unfold t. replace (length buf) with (S (length buf - 1)) at 1 by lia. destruct Hdone as [Hlen|(c & Hc & Hnc)].
    + apply (replace_all_done length); [|lia]. intros s b. by apply spliced_shorter.
    + apply (replace_all_done (λ s, length (filter (λ x, x = c) s))); [intros s b; by apply spliced_uses_char|].
      pose proof (length_filter (λ x, x = c) s0). lia.
Qed.

Lemma subst_spec_witness :
  subst (replicate 8 "x"%char) $"foobar" 3 4 $"xyz" = ret (Some ($"fooxyza" ++ [NUL])).
Proof. apply (subst_spec (replicate 8 "x"%char) $"foobar" 3 4 $"xyz"). simpl. lia. Defined.

Lemma subst_string_spec_witness :
  let t := replace_all 8 8 $"a%h-%h" $"%h" $"b" in
  (∃ rest, subst_string (replicate 8 "x"%char) $"a%h-%h" $"%h" $"b" (replicate 8 "y"%char) = ret (t ++ NUL :: rest) ∧
     length (t ++ NUL :: rest) = 8 ∧ no_nul t) ∧ strstr t $"%h" = None.
Proof.
  destruct (subst_string_spec (replicate 8 "x"%char) $"a%h-%h" $"%h" $"b" (replicate 8 "y"%char)) as [H1 H2];
    [simpl; lia|done|by apply (bool_decide_unpack _); vm_compute..|].
  split; [exact H1|]. apply H2. left. simpl. lia.
Defined.

Example replace_all_text : replace_all 8 8 $"a%h-%h" $"%h" $"b" = $"ab-b".
Proof. done. Qed.
