(* ===== verification/Complain.v ===== *)
(** * Throttling of complaints (src/daemon/utils_complain.c)

    The clock and [plugin_get_interval] are arguments.  A function returns
    whether it logs its message; the message itself is left out. *)

From Stdlib Require Import ZArith Lia.
From stdpp Require Import base numbers option list.
From S2P Require Import Prelude.

Record c_complain_t : Type := mk_complain { last : Z; interval : Z; complained_once : bool }.
Implicit Types c : c_complain_t.

Definition C_COMPLAIN_INIT_STATIC : c_complain_t := mk_complain 0 0 false.

(** [TIME_T_TO_CDTIME_T (86400)] *)
Definition DAY : Z := Z.shiftl 86400 30.

Definition vcomplain (now plugin_interval : Z) c : bool * c_complain_t :=
  if now <? u64 (last c + interval c) then (false, c)
  else
    let i := if interval c <? plugin_interval then plugin_interval else u64 (interval c * 2) in
    let i := if DAY <? i then DAY else i in
    (true, mk_complain now i (complained_once c)).

Definition set_once c : c_complain_t := mk_complain (last c) (interval c) true.

Definition c_complain (now plugin_interval : Z) c : bool * c_complain_t :=
  let '(reported, c) := vcomplain now plugin_interval c in (reported, if reported : bool then set_once c else c).

Definition c_complain_once (now plugin_interval : Z) c : bool * c_complain_t :=
  if complained_once c then (false, c) else c_complain now plugin_interval c.

Definition c_would_release c : bool := negb (interval c =? 0).

Definition c_do_release c : bool * c_complain_t :=
  if interval c =? 0 then (false, c) else (true, mk_complain (last c) 0 false).

(** The macro that saves the call. *)
Definition c_release c : bool * c_complain_t := if c_would_release c then c_do_release c else (false, c).

Lemma DAY_bounds : 0 < DAY < 2 ^ 62.
Proof. done. Qed.

(** ** Back-off *)

Section backoff.
Context (p : Z).

(** The complaints that are logged, of those at the times [ts]. *)
Fixpoint complaints c (ts : list Z) : list Z :=
  match ts with
  | [] => []
  | t :: ts => let '(reported, c) := c_complain t p c in if reported : bool then t :: complaints c ts else complaints c ts
  end.

(** The pause after the report number [k], from zero. *)
Definition pause (k : nat) : Z := Z.min (p * 2 ^ Z.of_nat k) DAY.

(** Nothing before [next]; after the report number [k] the pause [pause k]. *)
Fixpoint backoff (k : nat) (next : Z) (ts : list Z) : list Z :=
  match ts with
  | [] => []
  | t :: ts => if t <? next then backoff k next ts else t :: backoff (S k) (t + pause k) ts
  end.

Hypothesis p_pos : 0 < p < 2 ^ 63.

Lemma pause_pos k : 0 < pause k ≤ DAY.
Proof.
  pose proof DAY_bounds. unfold pause. assert (0 < 2 ^ Z.of_nat k) by (apply Z.pow_pos_nonneg; lia). nia.
Qed.

(** One step of the interval, before and after. *)
Lemma interval_step k i : (k = 0%nat ∧ i = 0) ∨ (∃ k', k = S k' ∧ i = pause k') →
  (let j := if i <? p then p else u64 (i * 2) in if DAY <? j then DAY else j) = pause k.
Proof.
  pose proof DAY_bounds as HD. intros [[-> ->]|(k' & -> & ->)].
  - unfold pause. rewrite Z.pow_0_r, Z.mul_1_r. replace (0 <? p) with true by (symmetry; lia). cbv zeta.
    destruct (Z.ltb_spec DAY p); lia.
  - pose proof (pause_pos k') as Hp. rewrite u64_small by (unfold in_u64; lia). unfold pause in *.
    rewrite Nat2Z.inj_succ, Z.pow_succ_r by lia. assert (0 < 2 ^ Z.of_nat k') by (apply Z.pow_pos_nonneg; lia).
    assert (p ≤ p * 2 ^ Z.of_nat k') as Hle by nia. revert Hp Hle. rewrite (Z.mul_comm 2), Z.mul_assoc.
    generalize (p * 2 ^ Z.of_nat k'). intros q Hp Hle. cbv zeta. destruct (Z.ltb_spec (Z.min q DAY) p).
    + destruct (Z.ltb_spec DAY p); lia.
    + destruct (Z.ltb_spec DAY (Z.min q DAY * 2)); lia.
Qed.

Lemma complaints_backoff ts : ∀ k c, Forall (λ t, 0 ≤ t < 2 ^ 63) ts → 0 ≤ last c < 2 ^ 63 →
  (k = 0%nat ∧ interval c = 0) ∨ (∃ k', k = S k' ∧ interval c = pause k') →
  complaints c ts = backoff k (last c + interval c) ts.
Proof.
  induction ts as [|t ts IH]; intros k c Hts Hl Hi; [done|]. apply Forall_cons_1 in Hts as [Ht Hts].
  pose proof DAY_bounds as HD. assert (0 ≤ interval c ≤ DAY) as Hd.
  { destruct Hi as [[_ ->]|(k' & _ & ->)]; [lia|]. pose proof (pause_pos k'). lia. }
  cbn [complaints backoff]. unfold c_complain, vcomplain.
  rewrite (u64_small (last c + interval c)) by (unfold in_u64; lia). destruct (t <? last c + interval c); [by apply IH|].
  pose proof (interval_step k (interval c) Hi) as E. cbv zeta in E |- *. rewrite E. cbn [set_once last interval].
  f_equal. rewrite (IH (S k)); cbn [last interval]; [done|done|exact Ht|right; by exists k].
Qed.

Lemma backoff_gap ts : ∀ k next j t t', backoff k next ts !! j = Some t → backoff k next ts !! S j = Some t' →
  t + pause (k + j) ≤ t'.
Proof.
  induction ts as [|x ts IH]; intros k next j t t'; cbn [backoff]; [done|]. destruct (x <? next); [by apply IH|].
  destruct j as [|j]; cbn [lookup list_lookup].
  - intros [= <-]. rewrite Nat.add_0_r. clear IH. generalize (x + pause k). intros n.
    induction ts as [|y ts IH]; cbn [backoff]; [done|]. destruct (Z.ltb_spec y n); [by apply IH|]. intros [= <-]. lia.
  - intros H1 H2. replace (k + S j)%nat with (S k + j)%nat by lia. by eapply IH.
Qed.
End backoff.

(** C38. Complaints back off exponentially: from a complaint that is not
    active, the messages that are logged are those that come once the pause
    after the last logged one is over, the pause after the message number k
    being 2 ^ k intervals of the plugin, but at most a day; in particular two
    consecutive messages are that far apart. *)
Theorem complain_backoff p c ts :
  0 < p < 2 ^ 63 → Forall (λ t, 0 ≤ t < 2 ^ 63) ts → 0 ≤ last c < 2 ^ 63 → interval c = 0 →
  complaints p c ts = backoff p 0 (last c) ts ∧
  ∀ (k : nat) (t t' : Z), complaints p c ts !! k = Some t → complaints p c ts !! S k = Some t' →
    Z.min (p * 2 ^ Z.of_nat k) DAY ≤ t' - t.
Proof.
  intros Hp Hts Hl Hi. assert (complaints p c ts = backoff p 0 (last c) ts) as E.
  { rewrite (complaints_backoff p Hp ts 0 c Hts Hl) by (by left). by rewrite Hi, Z.add_0_r. }
  split; [done|]. rewrite E. intros k t t' H1 H2. pose proof (backoff_gap p ts 0 _ k t t' H1 H2) as Hg.
  unfold pause in Hg. simpl in Hg. lia.
Qed.

(** A complaint that was logged silences [c_complain_once] until it is
    released, after which the next complaint is logged. *)
Theorem complain_once_spec now p c : 0 < p → (c_complain now p c).1 = true →
  let c' := (c_complain now p c).2 in
  (∀ now' p', c_complain_once now' p' c' = (false, c')) ∧
  (0 < interval c' → ∀ now' p', u64 now ≤ now' → (c_complain_once now' p' (c_release c').2).1 = true).
Proof.
  intros Hp. unfold c_complain, vcomplain. destruct (now <? u64 (last c + interval c)); [done|]. intros _. cbv zeta.
  set (i := if DAY <? _ then _ else _). cbn [fst snd set_once last interval complained_once]. split; [done|].
  intros Hi now' p' Hnow. unfold c_release, c_would_release, c_do_release, set_once. cbn [last interval complained_once].
  replace (i =? 0) with false by (symmetry; cbn [interval] in Hi; lia). cbn [negb snd].
  unfold c_complain_once, c_complain, vcomplain. cbn [complained_once last interval]. rewrite Z.add_0_r.
  by replace (now' <? u64 now) with false by (symmetry; lia).
Qed.

Lemma complain_backoff_witness :
  complaints 10 C_COMPLAIN_INIT_STATIC [5; 6; 14; 15; 34; 35; 70; 75] = [5; 15; 35; 75] ∧ DAY = 92771293593600.
Proof.
  destruct (complain_backoff 10 C_COMPLAIN_INIT_STATIC [5; 6; 14; 15; 34; 35; 70; 75]) as [E _]; [lia| |simpl; lia|done|].
  - repeat (apply Forall_cons_2; [lia|]). done.
  - split; [exact E|reflexivity].
Defined.

Lemma complain_once_spec_witness :
  c_complain_once 100 7 (c_complain 3 10 C_COMPLAIN_INIT_STATIC).2 = (false, (c_complain 3 10 C_COMPLAIN_INIT_STATIC).2).
Proof. apply (complain_once_spec 3 10 C_COMPLAIN_INIT_STATIC); [lia|done]. Defined.
