(* ===== verification/IgnoreList.v ===== *)
(** * Ignore lists (src/utils/ignorelist/ignorelist.c)

    A list of strings and regular expressions, newest first, and whether what
    matches is ignored or selected.  [regcomp] and [regexec] are parameters.
    [sstrdup] ends the process when memory is out, so it has no failing
    branch here.  A NULL list is [None]. *)

From Stdlib Require Import ZArith Lia Ascii String.
From stdpp Require Import base numbers option list.
From S2P Require Import Prelude.

Class Regex : Type := {
  regex_t : Type;
  regcomp : cstr → Z + regex_t; (* inl: the error code *)
  regexec : regex_t → cstr → bool; (* whether it matches *)
}.

Section ignorelist.
Context `{Regex}.

Record ignorelist_item_t : Type := mk_item { rmatch : option regex_t; smatch : option cstr }.
Record ignorelist_t : Type := mk_ignorelist { ignore : Z; head : list ignorelist_item_t }.
Implicit Types (il : ignorelist_t) (item : ignorelist_item_t).

Definition ignorelist_append il item : ignorelist_t := mk_ignorelist (ignore il) (item :: head il).

Definition ignorelist_append_regex il (re_str : cstr) : M (Z * ignorelist_t) :=
  let* ok := alloc in
  if negb ok then ret (ENOMEM, il)
  else
    match regcomp re_str with
    | inl status => ret (status, il)
    | inr re =>
        let* ok := alloc in
        if negb ok then ret (ENOMEM, il) else ret (0, ignorelist_append il (mk_item (Some re) None))
    end.

Definition ignorelist_append_string il (entry : cstr) : M (Z * ignorelist_t) :=
  let* ok := alloc in
  if negb ok then ret (1, il) else ret (0, ignorelist_append il (mk_item None (Some entry))).

Definition ignorelist_match_regex item (entry : cstr) : M Z :=
  let* re := mopt (rmatch item) in
  let* _ := massert (0 <? length entry)%nat in
  ret (if regexec re entry then 1 else 0).

Definition ignorelist_match_string item (entry : cstr) : M Z :=
  let* s := mopt (smatch item) in
  let* _ := massert (0 <? length entry)%nat in
  ret (if strcmp entry s =? 0 then 1 else 0).

Definition ignorelist_create (invert : bool) : M (option ignorelist_t) :=
  let* ok := alloc in
  ret (if ok : bool then Some (mk_ignorelist (if invert then 0 else 1) []) else None).

Definition ignorelist_set_invert il (invert : bool) : ignorelist_t := mk_ignorelist (if invert then 0 else 1) (head il).

Definition is_slash (c : option ascii) : bool := bool_decide (c = Some "/"%char).

Definition ignorelist_add il (entry : cstr) : M (Z * ignorelist_t) :=
  let len := length entry in
  if (len =? 0)%nat then ret (1, il)
  else if (2 <? len)%nat && is_slash (entry !! 0%nat) && is_slash (entry !! (len - 1)%nat) then
    let* ok := alloc in
    if negb ok then ret (ENOMEM, il)
    else
      let copy := drop 1 entry in
      ignorelist_append_regex il (take (length copy - 1) copy)
  else ignorelist_append_string il entry.

(** The loop that unlinks the first entry with that string. *)
Fixpoint unlink_string (entry : cstr) (l : list ignorelist_item_t) : option (list ignorelist_item_t) :=
  match l with
  | [] => None
  | item :: l =>
      match smatch item with
      | Some s => if strcmp s entry =? 0 then Some l else (cons item) <$> unlink_string entry l
      | None => (cons item) <$> unlink_string entry l
      end
  end.

Definition ignorelist_remove (il : option ignorelist_t) (entry : option cstr) : Z * option ignorelist_t :=
  match il, entry with
  | Some il, Some (c :: s) =>
      match head il with
      | [] => (1, Some il)
      | l =>
          match unlink_string (c :: s) l with
          | Some l => (0, Some (mk_ignorelist (ignore il) l))
          | None => (1, Some il)
          end
      end
  | _, _ => (1, il)
  end.

Fixpoint match_items (ignore : Z) (l : list ignorelist_item_t) (entry : cstr) : M Z :=
  match l with
  | [] => ret (1 - ignore)
  | item :: l =>
      let* m := match rmatch item with
                | Some _ => ignorelist_match_regex item entry
                | None => ignorelist_match_string item entry
                end in
      if negb (m =? 0) then ret ignore else match_items ignore l entry
  end.

Definition ignorelist_match (il : option ignorelist_t) (entry : option cstr) : M Z :=
  match il with
  | None => ret 0
  | Some il =>
      match head il, entry with
      | [], _ | _, None | _, Some [] => ret 0
      | l, Some entry => match_items (ignore il) l entry
      end
  end.

(** ** The specification: a list of rules *)

Inductive rule : Type := Text (s : cstr) | Pattern (re : regex_t).

Definition applies (x : cstr) (r : rule) : bool :=
  match r with Text s => bool_decide (s = x) | Pattern re => regexec re x end.

(** The text between the slashes of "/.../". *)
Definition pattern_of (entry : cstr) : option cstr :=
  match entry with
  | c :: (_ :: _ :: _) as s => if bool_decide (c = "/"%char) && is_slash (last s) then Some (removelast s) else None
  | _ => None
  end.

(** What an entry means; an empty one and one that does not compile mean
    nothing. *)
Definition rule_of (entry : cstr) : option rule :=
  match entry with
  | [] => None
  | _ =>
      match pattern_of entry with
      | Some re_str => match regcomp re_str with inl _ => None | inr re => Some (Pattern re) end
      | None => Some (Text entry)
      end
  end.

Fixpoint forget (entry : cstr) (rs : list rule) : list rule :=
  match rs with
  | [] => []
  | Text s :: rs => if bool_decide (s = entry) then rs else Text s :: forget entry rs
  | r :: rs => r :: forget entry rs
  end.

Inductive op : Type := Add (entry : cstr) | Remove (entry : cstr) | SetInvert (invert : bool).

Definition spec_step (st : bool * list rule) (o : op) : bool * list rule :=
  match o with
  | Add e => (st.1, match rule_of e with Some r => r :: st.2 | None => st.2 end)
  | Remove e => (st.1, forget e st.2)
  | SetInvert b => (b, st.2)
  end.

(** Whether an entry is ignored: nothing is without rules. *)
Definition verdict (st : bool * list rule) (x : cstr) : bool :=
  match st.2, x with
  | [], _ | _, [] => false
  | rs, _ => if st.1 then negb (existsb (applies x) rs) else existsb (applies x) rs
  end.

Definition step il (o : op) : M ignorelist_t :=
  match o with
  | Add e => let* '(_, il) := ignorelist_add il e in ret il
  | Remove e => ret (default il (ignorelist_remove (Some il) (Some e)).2)
  | SetInvert b => ret (ignorelist_set_invert il b)
  end.

Fixpoint run il (os : list op) : M ignorelist_t :=
  match os with [] => ret il | o :: os => let* il := step il o in run il os end.

Definition item_of (r : rule) : ignorelist_item_t :=
  match r with Text s => mk_item None (Some s) | Pattern re => mk_item (Some re) None end.

Definition repr il (st : bool * list rule) : Prop :=
  il = mk_ignorelist (if st.1 then 0 else 1) (map item_of st.2).

Lemma pattern_of_code (e : cstr) : e ≠ [] →
  pattern_of e = if (2 <? length e)%nat && is_slash (e !! 0%nat) && is_slash (e !! (length e - 1)%nat)
                 then Some (take (length (drop 1 e) - 1) (drop 1 e)) else None.
Proof.
  intros Hne. destruct e as [|c [|c1 [|c2 s]]]; [done..|]. unfold pattern_of.
  set (t := c1 :: c2 :: s). assert (is_slash (last t) = is_slash ((c :: t) !! (length (c :: t) - 1)%nat)) as ->.
  { rewrite last_lookup. done. }
  assert (is_slash ((c :: t) !! 0%nat) = bool_decide (c = "/"%char)) as ->.
  { unfold is_slash. simpl. apply bool_decide_ext. split; congruence. }
  rewrite (proj2 (Nat.ltb_lt 2 (length (c :: t)))) by (unfold t; simpl; lia). cbn [andb drop].
  case_match; [|done]. f_equal. by rewrite removelast_firstn_len.
Qed.

Lemma rule_add_repr il st e : repr il st → ∃ s il', ignorelist_add il e ⇓ (s, il') ∧ repr il' (spec_step st (Add e)).
Proof.
  intros ->. unfold ignorelist_add, spec_step, rule_of. destruct (decide (e = [])) as [->|Hne]; [by eexists _, _|].
  rewrite (proj2 (Nat.eqb_neq _ _)) by (destruct e; simpl; done || lia).
  assert (∀ A (x y : A), match e with [] => x | _ => y end = y) as -> by (by destruct e).
  rewrite pattern_of_code by done. destruct (_ && _ && _).
  - unfold ignorelist_append_regex. cbv zeta. destruct (regcomp _) as [status|re].
    + eexists _, _. split; [by repeat (eapply yields_bind; [apply yields_alloc|]; cbn [negb])|done].
    + eexists _, _. split; [by repeat (eapply yields_bind; [apply yields_alloc|]; cbn [negb])|done].
  - eexists _, _. split; [by eapply yields_bind; [apply yields_alloc|]|done].
Qed.

Lemma unlink_forget e rs : unlink_string e (map item_of rs) = None ∧ forget e rs = rs ∨
  unlink_string e (map item_of rs) = Some (map item_of (forget e rs)).
Proof.
  induction rs as [|[s|re] rs IH]; [by left|..]; cbn [map item_of unlink_string smatch forget].
  - destruct (Z.eqb_spec (strcmp s e) 0) as [->%strcmp_eq|Hne]; [right; by rewrite bool_decide_eq_true_2|].
    rewrite bool_decide_eq_false_2 by (intros ->; by apply Hne, strcmp_eq).
    destruct IH as [[-> ->]| ->]; [by left|by right].
  - destruct IH as [[-> ->]| ->]; [by left|by right].
Qed.

Lemma remove_repr il st e : e ≠ [] → repr il st →
  repr (default il (ignorelist_remove (Some il) (Some e)).2) (spec_step st (Remove e)).
Proof.
  intros He ->. destruct e as [|c e]; [done|]. destruct st as [b [|r rs]]; [done|]. unfold ignorelist_remove.
  cbn [head map snd]. change (item_of r :: map item_of rs) with (map item_of (r :: rs)).
  destruct (unlink_forget (c :: e) (r :: rs)) as [[-> E]| ->]; [|done]. unfold repr. cbn [spec_step fst snd default]. by rewrite E.
Qed.

Definition op_ok (o : op) : Prop := match o with Remove e => e ≠ [] | _ => True end.

Lemma rules_run_repr os : ∀ il st, repr il st → Forall op_ok os →
  ∃ il', run il os ⇓ il' ∧ repr il' (foldl spec_step st os).
Proof.
  induction os as [|o os IH]; intros il st Hr Hok; cbn [run foldl]; [by exists il|]. apply Forall_cons_1 in Hok as [Ho Hok].
  assert (∃ il', step il o ⇓ il' ∧ repr il' (spec_step st o)) as (il1 & E1 & Hr1).
  { destruct o as [e|e|b]; cbn [step].
    - destruct (rule_add_repr il st e Hr) as (s & il' & E & Hr'). exists il'. split; [by eapply yields_bind|done].
    - eexists. split; [done|]. by apply remove_repr.
    - eexists. split; [done|]. unfold repr in *. by subst il. }
  destruct (IH il1 _ Hr1 Hok) as (il' & E & Hr'). exists il'. split; [by eapply yields_bind|done].
Qed.

Lemma match_items_spec i rs x : x ≠ [] →
  match_items i (map item_of rs) x = ret (if existsb (applies x) rs then i else 1 - i).
Proof.
  intros Hx. induction rs as [|[s|re] rs IH]; [done|..]; cbn [map item_of match_items existsb applies rmatch smatch].
  - unfold ignorelist_match_string. cbn [smatch mopt]. rewrite bind_ret.
    rewrite (proj2 (Nat.ltb_lt _ _)) by (destruct x; simpl; done || lia). cbn [massert]. rewrite !bind_ret.
    destruct (Z.eqb_spec (strcmp x s) 0) as [->%strcmp_eq|Hne]; [by rewrite bool_decide_eq_true_2|].
    rewrite bool_decide_eq_false_2 by (intros ->; by apply Hne, strcmp_eq). exact IH.
  - unfold ignorelist_match_regex. cbn [rmatch mopt]. rewrite bind_ret.
    rewrite (proj2 (Nat.ltb_lt _ _)) by (destruct x; simpl; done || lia). cbn [massert]. rewrite !bind_ret.
    by destruct (regexec re x).
Qed.

Lemma match_repr il st x : repr il st → ignorelist_match (Some il) (Some x) = ret (if verdict st x then 1 else 0).
Proof.
  intros ->. destruct st as [b [|r rs]]; [done|]. unfold ignorelist_match, verdict. cbn [head ignore fst snd].
  destruct (decide (x = [])) as [->|Hx]; [done|]. destruct x as [|c x]; [done|]. cbn [map].
  change (item_of r :: map item_of rs) with (map item_of (r :: rs)). rewrite match_items_spec by done.
  by destruct b, (existsb _ _).
Qed.

(** C37. After any sequence of additions, removals and inversions, an ignore
    list answers as the list of rules that the entries mean: an entry is
    ignored when a rule applies to it, or, for an inverted list, when none
    does; without rules nothing is ignored.  Entries "/.../" are regular
    expressions; entries that are empty or do not compile add nothing, and only
    plain entries can be removed. *)
Theorem ignorelist_spec invert os x : Forall op_ok os →
  ∃ il0 il, ignorelist_create invert ⇓ Some il0 ∧ run il0 os ⇓ il ∧
    ignorelist_match (Some il) (Some x) ⇓ (if verdict (foldl spec_step (invert, []) os) x then 1 else 0).
Proof.
  intros Hok. destruct (rules_run_repr os (mk_ignorelist (if invert then 0 else 1) []) (invert, []) eq_refl Hok) as (il & E & Hr).
  eexists _, il. split_and!; [done|exact E|]. by rewrite (match_repr il _ x Hr).
Qed.
End ignorelist.

(** A toy matcher: a pattern matches the strings that start with it. *)
#[local] Instance prefix_regex : Regex :=
  {| regex_t := cstr; regcomp := λ s, inr s; regexec := λ re x, bool_decide (take (length re) x = re) |}.

Lemma ignorelist_spec_witness :
  ∃ il0 il, ignorelist_create false ⇓ Some il0 ∧
    run il0 [Add $"eth0"; Add $"/veth/"; Add []; Add $"lo"; Remove $"lo"] ⇓ il ∧
    ignorelist_match (Some il) (Some $"veth7") ⇓ 1.
Proof.
  destruct (ignorelist_spec false [Add $"eth0"; Add $"/veth/"; Add []; Add $"lo"; Remove $"lo"] $"veth7")
    as (il0 & il & E1 & E2 & E3); [repeat (apply Forall_cons_2; [done|]); done|].
  exists il0, il. split; [exact E1|]. split; [exact E2|].
  assert (verdict (foldl spec_step (false, []) [Add $"eth0"; Add $"/veth/"; Add []; Add $"lo"; Remove $"lo"]) $"veth7"
          = true) as Hv by (vm_compute; reflexivity).
  rewrite Hv in E3. exact E3.
Defined.
