(* ===== verification/TypesDb.v ===== *)
(** * Data sets and types.db (src/daemon/types_list.c, src/daemon/plugin.c)

    The tree of data sets is a [KeyedMap]; it exists after the first
    registration.  A file is the list of its bytes; opening it is a parameter.
    [atof] is the value of [strtod]. *)

From Stdlib Require Import ZArith Lia Ascii String.
From stdpp Require Import base numbers option list.
From S2P Require Import Prelude MapSpec Double StrBuf CommonStr Values FilterChain.
From S2P Require Avl.

Section data_sets.
Context {T : Type → Type} `{!KeyedMap cstr T}.

(** The variable [data_sets]. *)
Abbreviation data_sets := (option (T data_set_t)).
Implicit Types s : data_sets.

Definition plugin_unregister_data_set s (name : cstr) : M (Z * data_sets) :=
  match s with
  | None => ret (-1, s)
  | Some t =>
      let* '(status, _, t) := mopt (km_remove t name) in
      ret (if status =? 0 then 0 else -1, Some t)
  end.

(** What is inserted is a copy of the data set and of its sources. *)
Definition plugin_register_data_set s (ds : data_set_t) : M (Z * data_sets) :=
  let* '(failed, s) :=
    match s with
    | Some t =>
        if (km_get t (set_type ds)).1 =? 0 then
          let* '(_, s) := plugin_unregister_data_set s (set_type ds) in ret (false, s)
        else ret (false, s)
    | None => let* ok := alloc in ret (if ok : bool then (false, Some km_create) else (true, None))
    end in
  if failed : bool then ret (-1, s)
  else
    let* ok := alloc in
    if negb ok then ret (-1, s)
    else
      let* ok := alloc in
      if negb ok then ret (-1, s)
      else
        let* t := mopt s in
        let* ok := alloc in
        let* '(status, t) := mopt (km_insert ok t (set_type ds) ds) in
        ret (status, Some t).

(** [while (c_avl_pick (data_sets, ...) == 0)] *)
Fixpoint pick_sets (fuel : nat) (t : T data_set_t) : M unit :=
  match fuel with
  | O => crash
  | S fuel =>
      let* '(status, _, t) := mopt (km_pick t) in
      if status =? 0 then pick_sets fuel t else ret tt
  end.
Definition plugin_free_data_sets s : M data_sets :=
  match s with
  | None => ret None
  | Some t => let* _ := pick_sets (S (Z.to_nat (km_size t))) t in ret None
  end.

Definition plugin_get_ds s (name : cstr) : option data_set_t :=
  match s with
  | None => None
  | Some t => match km_get t name with (0, ds) => ds | _ => None end
  end.

(** ** Parsing *)

Section parse.
Context `{Strtod}.

Definition atof (s : cstr) : double := sd_value (strtod s).

Definition colon : cstr := $":".

(** The loop over [strtok_r]: at most [n] fields. *)
Fixpoint tokens (n : nat) (s : cstr) : list cstr :=
  match n with
  | O => []
  | S n => match strtok colon s with None => [] | Some (f, s) => f :: tokens n s end
  end.

Definition ends_with_comma (buf : cstr) : bool := bool_decide (last buf = Some ","%char).

Definition type_of_name (f : cstr) : option Z :=
  if strcasecmp f $"GAUGE" =? 0 then Some DS_TYPE_GAUGE
  else if strcasecmp f $"COUNTER" =? 0 then Some DS_TYPE_COUNTER
  else if strcasecmp f $"DERIVE" =? 0 then Some DS_TYPE_DERIVE
  else None.

Definition parse_bound (f : cstr) : double := if strcasecmp f $"U" =? 0 then NAN else atof f.

(** [None] is the status -1. *)
Definition parse_ds (buf : cstr) : option data_source_t :=
  if (length buf <? 11)%nat then None
  else
    let buf := if ends_with_comma buf then removelast buf else buf in
    match tokens 8 buf with
    | [f0; f1; f2; f3] =>
        ty ← type_of_name f1;
        Some {| ds_name := copy_name f0; ds_type := ty; ds_min := parse_bound f2; ds_max := parse_bound f3 |}
    | _ => None
    end.

Definition parse_line (buf : cstr) s : M data_sets :=
  match strsplit buf 64 with
  | ty :: ((_ :: _) as fields) =>
      if bool_decide (head ty = Some "#"%char) then ret s
      else
        let* ok := alloc in
        if negb ok then ret s
        else
          match mapM parse_ds fields with
          | None => ret s
          | Some dss =>
              let* '(_, s) := plugin_register_data_set s {| set_type := copy_name ty; set_ds := dss |} in ret s
          end
  | _ => ret s
  end.

(** [fgets] into a buffer of [size] bytes: up to a newline, at most
    [size - 1] bytes.  [None] at the end of the file. *)
Definition newline : ascii := "010"%char.
Definition fgets (size : nat) (fh : list ascii) : option (list ascii * list ascii) :=
  match fh with
  | [] => None
  | _ =>
      let n := Nat.min (size - 1) (S (span_len (λ c, negb (bool_decide (c = newline))) fh)) in
      Some (take n fh, drop n fh)
  end.

Definition is_eol (c : ascii) : bool := bool_decide (c = newline) || bool_decide (c = "013"%char).
(** The loop that cuts newlines off the end. *)
Definition strip_eol (buf : cstr) : cstr := rev (drop (span_len is_eol (rev buf)) (rev buf)).

(** The inner loop, which skips the rest of a long line. *)
Fixpoint skip_line (fuel : nat) (fh : list ascii) : M (list ascii) :=
  match fuel with
  | O => crash
  | S fuel =>
      match fgets 4096 fh with
      | None => ret fh
      | Some (buf, fh) => if (4095 <=? length (c_str buf))%nat then skip_line fuel fh else ret fh
      end
  end.

Fixpoint parse_file (fuel : nat) (fh : list ascii) s : M data_sets :=
  match fuel with
  | O => crash
  | S fuel =>
      match fgets 4096 fh with
      | None => ret s
      | Some (buf, fh) =>
          let buf := c_str buf in
          if (4095 <=? length buf)%nat then
            let* fh := skip_line (S (length fh)) fh in parse_file fuel fh s
          else if bool_decide (buf = []) || bool_decide (head buf = Some "#"%char) then parse_file fuel fh s
          else
            let buf := strip_eol buf in
            if bool_decide (buf = []) then parse_file fuel fh s
            else let* s := parse_line buf s in parse_file fuel fh s
      end
  end.

(** [fopen] is a parameter: the content of the file. *)
Definition read_types_list (fopen : cstr → option (list ascii)) (file : option cstr) s : M (Z * data_sets) :=
  match file with
  | None => ret (-1, s)
  | Some file =>
      match fopen file with
      | None => ret (-1, s)
      | Some fh => let* s := parse_file (S (length fh)) fh s in ret (0, s)
      end
  end.
End parse.
End data_sets.

(** ** The registry as a finite map *)

Section registry.
Context {T : Type → Type} `{!KeyedMap cstr T} `{!KeyedMapLaws cstr T}.

Definition sets_ok (s : option (T data_set_t)) : Prop := match s with None => True | Some t => km_ok t end.

(** Freeing the data sets ends, and none is left. *)
Lemma free_data_sets_ret (s : option (T data_set_t)) : sets_ok s → plugin_free_data_sets s = ret None.
Proof.
  destruct s as [t|]; intros Hok; [|done]. cbn in Hok. unfold plugin_free_data_sets. rewrite km_size_ok by done.
  rewrite Nat2Z.id. generalize (Nat.lt_succ_diag_r (length (km_iterate t))). generalize (S (length (km_iterate t))). intros fuel.
  assert ((length (km_iterate t) < fuel)%nat → pick_sets fuel t = ret tt) as Hp; [|by intros Hf; rewrite Hp].
  revert t Hok. induction fuel as [|fuel IH]; intros t Hok Hf; [lia|]. cbn [pick_sets].
  destruct (km_iterate t) as [|e l] eqn:E; [by rewrite km_pick_empty|].
  destruct (km_pick_some t Hok) as (k & v & t' & -> & Hok' & Hg & Hi); [by rewrite E|]. cbn [mopt]. rewrite bind_ret. cbn beta iota.
  apply IH; [done|]. rewrite Hi. pose proof (spec_remove_length k v _ Hg). rewrite E in *. cbn [length] in *. lia.
Qed.

Lemma get_ds_spec (t : T data_set_t) k : km_ok t → plugin_get_ds (Some t) k = Spec.get k (km_iterate t).
Proof. intros Ht. unfold plugin_get_ds. rewrite km_get_ok by done. by destruct (Spec.get k _). Qed.

Lemma cstr_compare_eqb (a b : cstr) : (compare a b =? 0) = bool_decide (a = b).
Proof. apply eq_true_iff_eq. rewrite Z.eqb_eq, bool_decide_eq_true. apply compare_eq. Qed.

(** A registration binds the type, whether or not it was known. *)
Lemma register_get s ds : sets_ok s →
  ∃ s', plugin_register_data_set s ds ⇓ (0, s') ∧ sets_ok s' ∧
    ∀ k, plugin_get_ds s' k = if bool_decide (k = set_type ds) then Some ds else plugin_get_ds s k.
Proof.
  intros Hs.
  assert (∃ t, (∀ k, k ≠ set_type ds → Spec.get k (km_iterate t) = plugin_get_ds s k) ∧ km_ok t ∧
    Spec.get (set_type ds) (km_iterate t) = None ∧
    match s with
    | Some t => if (km_get t (set_type ds)).1 =? 0 then
          let* '(_, s) := plugin_unregister_data_set s (set_type ds) in ret (false, s) else ret (false, s)
    | None => let* ok := alloc in ret (if ok : bool then (false, Some km_create) else (true, None))
    end ⇓ (false, Some t)) as (t & Hother & Ht & Hnone & E).
  { destruct s as [t|]; simpl in Hs.
    - rewrite km_get_ok by done. destruct (Spec.get (set_type ds) (km_iterate t)) as [old|] eqn:Eg; cbn [fst].
      + destruct (km_remove_found t (set_type ds) old Hs Eg) as (t' & Er & Ht' & Hi). exists t'. split_and!; [|done| |].
        * intros k Hk. rewrite Hi, spec_get_remove, cstr_compare_eqb by (by apply km_sorted).
          rewrite bool_decide_eq_false_2 by done. by rewrite get_ds_spec.
        * rewrite Hi, spec_get_remove, compare_refl by (by apply km_sorted). done.
        * unfold plugin_unregister_data_set. rewrite Er. done.
      + exists t. split_and!; [intros; by rewrite get_ds_spec|done|done|done].
    - exists km_create. destruct (km_create_ok (K := cstr) (T := T) (V := data_set_t)) as [Hc Hi]. rewrite Hi. by split_and!. }
  destruct (km_insert_new t (set_type ds) ds Ht Hnone) as (t' & Ei & Ht' & Hi). exists (Some t'). split_and!; [|done|].
  - unfold plugin_register_data_set. eapply yields_bind; [exact E|]. cbv beta iota.
    do 2 (eapply yields_bind; [apply yields_alloc|]; cbn [negb]). cbn [mopt]. rewrite bind_ret.
    eapply yields_bind; [apply yields_alloc|]. rewrite Ei. done.
  - intros k. rewrite get_ds_spec, Hi, spec_get_insert, cstr_compare_eqb by (done || by apply km_sorted).
    case_bool_decide; [done|]. by apply Hother.
Qed.
End registry.

(** ** The text of data sets *)

Section text.
Context `{Strtod}.

(** A source as it is written: four fields separated by colons. *)
Record source_text : Type := mk_src { st_name : cstr; st_type : cstr; st_min : cstr; st_max : cstr }.

Definition print_source (x : source_text) : cstr :=
  st_name x ++ colon ++ st_type x ++ colon ++ st_min x ++ colon ++ st_max x.
Fixpoint print_sources (xs : list source_text) : cstr :=
  match xs with
  | [] => []
  | [x] => print_source x
  | x :: xs => (print_source x ++ $",") ++ " "%char :: print_sources xs
  end.
Definition print_set (e : cstr * list source_text) : cstr := e.1 ++ "009"%char :: print_sources e.2.
Definition print_file (es : list (cstr * list source_text)) : list ascii := concat (map (λ e, print_set e ++ [newline]) es).

(** What it means. *)
Definition denote_source (x : source_text) : option data_source_t :=
  ty ← type_of_name (st_type x);
  Some {| ds_name := copy_name (st_name x); ds_type := ty;
          ds_min := parse_bound (st_min x); ds_max := parse_bound (st_max x) |}.

Definition plain (c : ascii) : Prop := (c ∉ [":"%char; ","%char; NUL]) ∧ blank c = false.
Definition word (w : cstr) : Prop := w ≠ [] ∧ Forall plain w.
Definition source_ok (x : source_text) : Prop :=
  word (st_name x) ∧ word (st_type x) ∧ word (st_min x) ∧ word (st_max x) ∧ is_Some (type_of_name (st_type x)).
Definition set_ok (e : cstr * list source_text) : Prop :=
  word e.1 ∧ head e.1 ≠ Some "#"%char ∧ (1 ≤ length e.2 ≤ 63)%nat ∧ Forall source_ok e.2 ∧
  (length (print_set e) < 4094)%nat.

Lemma drop_past (l : cstr) d s : drop (S (length l)) (l ++ d :: s) = s.
Proof. induction l as [|c l IH]; [done|]. exact IH. Qed.

Lemma strtok_word delims (w : cstr) d s : w ≠ [] → Forall (λ c, c ∉ delims) w → d ∈ delims →
  strtok delims (w ++ d :: s) = Some (w, s).
Proof.
  intros Hne Hw Hd. destruct w as [|c w]; [done|]. unfold strtok, strspn. cbn [app span_len].
  apply Forall_cons_1 in Hw as [Hc Hw]. assert (chr_mem delims c = false) as -> by (by apply bool_decide_eq_false_2).
  cbn [drop]. cbv beta iota zeta.
  assert (strcspn (c :: w ++ d :: s) delims = length (c :: w)) as ->.
  { unfold strcspn. rewrite (app_comm_cons w (d :: s) c). apply span_len_app_stop.
    - apply Forall_cons_2; [unfold chr_mem; by rewrite bool_decide_eq_false_2|]. eapply list.Forall_impl; [exact Hw|].
      cbv beta. intros x Hx. unfold chr_mem. by rewrite bool_decide_eq_false_2.
    - unfold chr_mem. by rewrite bool_decide_eq_true_2. }
  rewrite (app_comm_cons w (d :: s) c), take_app_length. f_equal. f_equal.
  by apply drop_past.
Qed.

Lemma strtok_end delims (w : cstr) : w ≠ [] → Forall (λ c, c ∉ delims) w → strtok delims w = Some (w, []).
Proof.
  intros Hne Hw. destruct w as [|c w]; [done|]. unfold strtok, strspn. cbn [span_len].
  pose proof Hw as [Hc _]%Forall_cons_1. assert (chr_mem delims c = false) as -> by (by apply bool_decide_eq_false_2).
  cbn [drop]. cbv beta iota zeta.
  assert (strcspn (c :: w) delims = length (c :: w)) as ->.
  { unfold strcspn. apply span_len_all. eapply list.Forall_impl; [exact Hw|]. cbv beta. intros x Hx. unfold chr_mem.
    by rewrite bool_decide_eq_false_2. }
  by rewrite take_ge, drop_ge by (cbn [length]; lia).
Qed.

Lemma word_no_colon w : word w → w ≠ [] ∧ Forall (λ c, c ∉ colon) w.
Proof.
  intros [Hne Hw]. split; [done|]. eapply list.Forall_impl; [exact Hw|]. cbv beta. intros c [Hc _] Hin. apply Hc.
  apply list_elem_of_singleton in Hin as ->. by left.
Qed.

Lemma tokens_source x : source_ok x → tokens 8 (print_source x) = [st_name x; st_type x; st_min x; st_max x].
Proof.
  intros ([Hn1 Hn2]%word_no_colon & [Ht1 Ht2]%word_no_colon & [Hm1 Hm2]%word_no_colon & [Hx1 Hx2]%word_no_colon & _).
  unfold print_source. change colon with [":"%char] in *. cbn [app tokens]. change colon with [":"%char].
  do 3 (rewrite strtok_word by (done || by left)). rewrite strtok_end by done. done.
Qed.

Lemma last_app_ne {A} (a b : list A) : b ≠ [] → last (a ++ b) = last b.
Proof. intros Hb. rewrite last_app. destruct b as [|c b] using rev_ind; [done|]. by rewrite last_snoc. Qed.

Lemma source_no_comma x : source_ok x → ends_with_comma (print_source x) = false.
Proof.
  intros (_ & _ & _ & [Hne Hw] & _). unfold ends_with_comma, print_source. apply bool_decide_eq_false_2.
  rewrite !app_assoc, last_app_ne by done. intros E%last_Some_elem_of. eapply list.Forall_forall in Hw; [|exact E].
  destruct Hw as [Hc _]. apply Hc. right. by left.
Qed.

Lemma type_name_length f : is_Some (type_of_name f) → (5 ≤ length f)%nat.
Proof.
  unfold type_of_name. intros Hs.
  assert (∀ g, strcasecmp f g = 0 → length f = length g) as Hlen.
  { intros g E%strcmp_eq. apply (f_equal length) in E. by rewrite !length_map in E. }
  destruct (Z.eqb_spec (strcasecmp f $"GAUGE") 0) as [E|_]; [by rewrite (Hlen _ E)|].
  destruct (Z.eqb_spec (strcasecmp f $"COUNTER") 0) as [E|_]; [rewrite (Hlen _ E); simpl; lia|].
  destruct (Z.eqb_spec (strcasecmp f $"DERIVE") 0) as [E|_]; [rewrite (Hlen _ E); simpl; lia|]. by destruct Hs.
Qed.

Lemma source_length x : source_ok x → (11 ≤ length (print_source x))%nat.
Proof.
  intros ([Hn _] & _ & [Hm _] & [Hx _] & Ht%type_name_length). unfold print_source. rewrite !length_app.
  destruct (st_name x), (st_min x), (st_max x); simpl; done || lia.
Qed.

(** With and without the comma. *)
Lemma parse_source x : source_ok x →
  parse_ds (print_source x) = denote_source x ∧ parse_ds (print_source x ++ $",") = denote_source x.
Proof.
  intros Hx. pose proof (source_length x Hx) as Hl. unfold parse_ds. split.
  - rewrite (proj2 (Nat.ltb_ge _ _)) by done. by rewrite source_no_comma, tokens_source.
  - rewrite (proj2 (Nat.ltb_ge _ _)) by (rewrite length_app; lia).
    assert (ends_with_comma (print_source x ++ $",") = true) as ->.
    { apply bool_decide_eq_true_2. change $"," with [","%char]. by rewrite last_snoc. }
    change $"," with [","%char]. by rewrite removelast_last, tokens_source.
Qed.

Definition unblank (w : cstr) : Prop := Forall (λ c, blank c = false) w.

Lemma words_cons w b s : w ≠ [] → unblank w → blank b = true → words (w ++ b :: s) = w :: words s.
Proof.
  intros Hne Hw Hb. unfold words. rewrite words_acc_run by done. rewrite app_nil_r. cbn [words_acc]. rewrite Hb.
  destruct (rev w) as [|c r] eqn:E; [|by rewrite <-E, rev_involutive].
  by apply (f_equal (@rev _)) in E; rewrite rev_involutive in E.
Qed.

Lemma words_one w : w ≠ [] → unblank w → words w = [w].
Proof.
  intros Hne Hw. unfold words. rewrite <-(app_nil_r w) at 1. rewrite words_acc_run by done. rewrite app_nil_r. cbn [words_acc].
  destruct (rev w) as [|c r] eqn:E; [|by rewrite <-E, rev_involutive].
  by apply (f_equal (@rev _)) in E; rewrite rev_involutive in E.
Qed.

Lemma word_unblank w : word w → unblank w.
Proof. intros [_ Hw]. eapply list.Forall_impl; [exact Hw|]. by intros c [_ ?]. Qed.

Lemma source_unblank x : source_ok x → unblank (print_source x).
Proof.
  intros (Hn%word_unblank & Ht%word_unblank & Hm%word_unblank & Hx%word_unblank & _). unfold print_source, unblank.
  change colon with [":"%char]. rewrite !list.Forall_app. split_and!; first [done|by apply Forall_singleton].
Qed.

Lemma source_ne x : source_ok x → print_source x ≠ [].
Proof. intros Hx%source_length E. rewrite E in Hx. simpl in Hx. lia. Qed.

(** The fields of the line, after the type. *)
Lemma sources_parsed xs : xs ≠ [] → Forall source_ok xs →
  mapM parse_ds (words (print_sources xs)) = mapM denote_source xs ∧ length (words (print_sources xs)) = length xs.
Proof.
  intros Hne Hok. induction Hok as [|x xs Hx Hxs IH]; [done|]. destruct (parse_source x Hx) as [E1 E2].
  pose proof (source_ne x Hx) as Hxne. pose proof (source_unblank x Hx) as Hxu. destruct xs as [|y xs].
  - cbn [print_sources]. rewrite words_one by done. cbn [mapM length]. by rewrite E1.
  - change (print_sources (x :: y :: xs)) with ((print_source x ++ $",") ++ " "%char :: print_sources (y :: xs)).
    rewrite words_cons; [|by destruct (print_source x)|apply list.Forall_app; split; [done|by apply (Forall_singleton _ ","%char)]|done].
    destruct (IH ltac:(done)) as [IH1 IH2]. split; [|cbn [length]; by rewrite IH2].
    change (mapM parse_ds ((print_source x ++ $",") :: words (print_sources (y :: xs))))
      with (z ← parse_ds (print_source x ++ $","); k ← mapM parse_ds (words (print_sources (y :: xs))); Some (z :: k)).
    by rewrite E2, IH1.
Qed.

Definition denote_set (e : cstr * list source_text) : option data_set_t :=
  dss ← mapM denote_source e.2; Some {| set_type := copy_name e.1; set_ds := dss |}.

Lemma denote_some e : set_ok e → is_Some (denote_set e).
Proof.
  intros (_ & _ & _ & Hok & _). unfold denote_set.
  assert (is_Some (mapM denote_source e.2)) as [dss ->]; [|by eexists]. apply mapM_is_Some_2.
  eapply list.Forall_impl; [exact Hok|]. intros x (_ & _ & _ & _ & [ty Hty]). unfold compose, denote_source. rewrite Hty. by eexists.
Qed.
End text.

Section files.
Context {T : Type → Type} `{!KeyedMap cstr T} `{!KeyedMapLaws cstr T} `{Strtod}.

Lemma parse_line_spec (s : option (T data_set_t)) e ds : sets_ok s → set_ok e → denote_set e = Some ds →
  ∃ s', parse_line (print_set e) s ⇓ s' ∧ sets_ok s' ∧
    ∀ k, plugin_get_ds s' k = if bool_decide (k = set_type ds) then Some ds else plugin_get_ds s k.
Proof.
  intros Hs (Hw & Hh & Hlen & Hok & _) Hds. destruct (register_get s ds Hs) as (s' & E & Hs' & Hget).
  exists s'. split; [|done]. destruct e as [ty xs]. cbn [fst snd] in *. unfold parse_line. rewrite strsplit_words.
  unfold print_set. cbn [fst snd]. rewrite words_cons by (done || by apply word_unblank || by destruct Hw).
  assert (xs ≠ []) as Hne by (by intros ->; simpl in Hlen; lia).
  destruct (sources_parsed xs Hne Hok) as [Em El]. rewrite take_ge by (cbn [length]; lia).
  destruct (words (print_sources xs)) as [|f fs]; [simpl in El; destruct xs; done|].
  rewrite bool_decide_eq_false_2 by done. eapply yields_bind; [apply yields_alloc|]. cbn [negb]. rewrite Em.
  unfold denote_set in Hds. cbn [fst snd] in Hds. destruct (mapM denote_source xs) as [dss|]; [|done].
  injection Hds as <-. by eapply yields_bind.
Qed.

Definition liney (c : ascii) : Prop := is_eol c = false ∧ c ≠ NUL.

Lemma plain_liney w : word w → Forall liney w.
Proof.
  intros [_ Hw]. eapply list.Forall_impl; [exact Hw|]. intros c [Hc Hb]. split.
  - unfold is_eol. apply orb_false_iff. split; apply bool_decide_eq_false_2; intros ->; by vm_compute in Hb.
  - intros ->. apply Hc. do 2 right. by left.
Qed.

Lemma source_liney x : source_ok x → Forall liney (print_source x).
Proof.
  intros (Hn%plain_liney & Ht%plain_liney & Hm%plain_liney & Hx%plain_liney & _). unfold print_source.
  assert (Forall liney colon) by (by apply (Forall_singleton _ ":"%char)). rewrite !list.Forall_app. by split_and!.
Qed.

Lemma sources_liney xs : Forall source_ok xs → Forall liney (print_sources xs).
Proof.
  induction 1 as [|x xs Hx Hxs IH]; [constructor|]. destruct xs as [|y xs]; [by apply source_liney|].
  change (print_sources (x :: y :: xs)) with ((print_source x ++ $",") ++ " "%char :: print_sources (y :: xs)).
  rewrite !list.Forall_app. split_and!; [by apply source_liney|by apply (Forall_singleton _ ","%char)|].
  apply Forall_cons_2; [done|exact IH].
Qed.

Lemma set_liney e : set_ok e → Forall liney (print_set e).
Proof.
  intros (Hw & _ & _ & Hok & _). unfold print_set. apply list.Forall_app. split; [by apply plain_liney|].
  apply Forall_cons_2; [done|]. by apply sources_liney.
Qed.

Lemma fgets_newline size line rest : Forall (λ c, c ≠ newline) line → (length line < size - 1)%nat →
  fgets size (line ++ newline :: rest) = Some (line ++ [newline], rest).
Proof.
  intros Hl Hlen. unfold fgets. assert (∀ A (x y : A), match line ++ newline :: rest with [] => x | _ => y end = y) as ->
    by (by destruct line).
  rewrite span_len_app_stop; [|eapply list.Forall_impl; [exact Hl|]|by apply negb_false_iff, bool_decide_eq_true_2].
  2: { cbv beta. intros c Hc. by rewrite bool_decide_eq_false_2. }
  rewrite Nat.min_r by lia. cbv zeta. rewrite drop_past. f_equal. f_equal.
  change (newline :: rest) with ([newline] ++ rest). rewrite app_assoc.
  replace (S (length line)) with (length (line ++ [newline])) by (rewrite length_app; simpl; lia). by rewrite take_app_length.
Qed.

Lemma fgets_line size line rest : Forall liney line → (length line < size - 1)%nat →
  fgets size (line ++ newline :: rest) = Some (line ++ [newline], rest).
Proof.
  intros Hl. apply fgets_newline. eapply list.Forall_impl; [exact Hl|]. intros c [Hc _] ->. by vm_compute in Hc.
Qed.

Lemma strip_eol_line line : Forall liney line → strip_eol (line ++ [newline]) = line.
Proof.
  intros Hl. unfold strip_eol. rewrite rev_app_distr. cbn [rev app span_len]. change (is_eol newline) with true. cbv iota. cbn [drop].
  assert (span_len is_eol (rev line) = 0%nat) as ->; [|by rewrite drop_0, rev_involutive].
  destruct (rev line) as [|c r] eqn:E; [done|]. cbn [span_len].
  assert (c ∈ line) as Hin. { apply list_elem_of_In, in_rev. rewrite E. by left. }
  eapply list.Forall_forall in Hl; [|exact Hin]. destruct Hl as [-> _]. done.
Qed.

Lemma c_str_line line : Forall liney line → c_str (line ++ [newline]) = line ++ [newline].
Proof.
  intros Hl. unfold c_str. rewrite span_len_all; [by rewrite take_ge|]. apply list.Forall_app. split; [|by apply Forall_singleton].
  eapply list.Forall_impl; [exact Hl|]. cbv beta. intros c [_ Hc]. by rewrite bool_decide_eq_false_2.
Qed.

(** The data set that the last line of that type defines. *)
Fixpoint defined (k : cstr) (es : list (cstr * list source_text)) : option data_set_t :=
  match es with
  | [] => None
  | e :: es =>
      match defined k es with
      | Some ds => Some ds
      | None => if bool_decide (k = copy_name e.1) then denote_set e else None
      end
  end.

Lemma denote_type e ds : denote_set e = Some ds → set_type ds = copy_name e.1.
Proof. unfold denote_set. destruct (mapM _ _); [|done]. by intros [= <-]. Qed.

Lemma parse_file_spec es : ∀ fuel (s : option (T data_set_t)), sets_ok s → Forall set_ok es → (length es < fuel)%nat →
  ∃ s', parse_file fuel (print_file es) s ⇓ s' ∧ sets_ok s' ∧
    ∀ k, plugin_get_ds s' k = match defined k es with Some ds => Some ds | None => plugin_get_ds s k end.
Proof.
  induction es as [|e es IH]; intros fuel s Hs Hok Hf; (destruct fuel as [|fuel]; [simpl in Hf; lia|]); [by exists s|].
  apply Forall_cons_1 in Hok as [He Hok]. destruct (denote_some e He) as [ds Hds].
  destruct (parse_line_spec s e ds Hs He Hds) as (s1 & E1 & Hs1 & Hget1).
  destruct (IH fuel s1 Hs1 Hok ltac:(simpl in Hf; lia)) as (s2 & E2 & Hs2 & Hget2).
  exists s2. split_and!; [|done|].
  - pose proof (set_liney e He) as Hl. destruct He as ([Hne _] & Hh & _ & _ & Hlen).
    change (print_file (e :: es)) with ((print_set e ++ [newline]) ++ print_file es). rewrite <-app_assoc. cbn [app parse_file].
    rewrite fgets_line by (done || lia). cbv beta iota zeta.
    rewrite c_str_line by done. rewrite (proj2 (Nat.leb_gt _ _)) by (rewrite length_app; simpl; lia).
    rewrite strip_eol_line by done. destruct e as [[|c ty] xs]; [done|]. unfold print_set in *. cbn [fst snd app head] in *.
    rewrite !bool_decide_eq_false_2 by done. cbn [orb]. by eapply yields_bind.
  - intros k. rewrite Hget2. cbn [defined]. destruct (defined k es); [done|]. rewrite Hget1.
    rewrite (denote_type e ds Hds), Hds. by case_bool_decide.
Qed.

(** C36. A types.db of well-formed lines: reading it returns success, and
    afterwards every data set is known by its type as its last line defines
    it, with the sources in order, their types and their bounds; nothing else
    is known. *)
Theorem types_db_roundtrip fopen file es : Forall set_ok es → fopen file = Some (print_file es) →
  ∃ s : option (T data_set_t), read_types_list fopen (Some file) None ⇓ (0, s) ∧
    ∀ k, plugin_get_ds s k = defined k es.
Proof.
  intros Hok Ef. destruct (parse_file_spec es (S (length (print_file es))) None I Hok) as (s & E & _ & Hget).
  { apply Nat.lt_succ_r. unfold print_file. clear. induction es as [|e es IH]; [done|]. cbn [map concat length].
    rewrite !length_app. simpl. lia. }
  exists s. split; [unfold read_types_list; rewrite Ef; by eapply yields_bind|]. intros k. rewrite Hget. by destruct (defined k es).
Qed.

(** Two lines are lost when the first has exactly 4094 characters: the skipping
    of a long line starts with the next one. *)
Theorem long_line_skips_next fopen file line e : Forall liney line → length line = 4094%nat → set_ok e →
  fopen file = Some (line ++ newline :: print_set e ++ [newline]) →
  read_types_list fopen (Some file) (None : option (T data_set_t)) ⇓ (0, None).
Proof.
  intros Hl Hlen He Ef. unfold read_types_list. rewrite Ef. eapply (yields_bind _ _ None); [|done].
  set (fh := line ++ _). assert (∃ n, S (length fh) = S (S n)) as [n ->].
  { exists (length fh - 1)%nat. unfold fh. rewrite length_app, Hlen. simpl. lia. }
  unfold fh. cbn [parse_file]. rewrite fgets_line by (done || lia). cbv beta iota zeta.
  rewrite c_str_line by done. rewrite (proj2 (Nat.leb_le _ _)) by (rewrite length_app, Hlen; simpl; lia).
  cbn [skip_line]. pose proof (set_liney e He) as Hle. destruct He as (_ & _ & _ & _ & Hlen2).
  rewrite fgets_line by (done || lia). cbv beta iota zeta. rewrite c_str_line by done.
  rewrite (proj2 (Nat.leb_gt _ _)) by (rewrite length_app; simpl; lia). by rewrite bind_ret.
Qed.
End files.

(** ** Witnesses *)

#[local] Existing Instances Avl.avl_map Avl.avl_laws.

Definition u_source (nm ty : cstr) : source_text := mk_src nm ty $"0" $"U".
Definition demo_entries : list (cstr * list source_text) :=
  [($"cpu", [u_source $"value" $"GAUGE"]); ($"if_octets", [u_source $"rx" $"DERIVE"; u_source $"tx" $"derive"]);
   ($"cpu", [u_source $"value" $"COUNTER"])].

#[global] Instance word_dec w : Decision (word w).
Proof. unfold word, plain. apply _. Defined.
#[global] Instance source_ok_dec x : Decision (source_ok x).
Proof. unfold source_ok. apply _. Defined.
#[global] Instance set_ok_dec e : Decision (set_ok e).
Proof. unfold set_ok. apply _. Defined.

Lemma types_db_roundtrip_witness :
  let _ := demo_strtod in
  ∃ s : option (Avl.c_avl_tree cstr data_set_t),
    read_types_list (λ _, Some (print_file demo_entries)) (Some $"types.db") None ⇓ (0, s) ∧
    ∀ k, plugin_get_ds s k = defined k demo_entries.
Proof.
  intros sd. apply (types_db_roundtrip (λ _, Some (print_file demo_entries)) $"types.db" demo_entries); [|done].
  apply (bool_decide_unpack _). by vm_compute.
Defined.

Example demo_defined :
  let _ := demo_strtod in
  defined $"cpu" demo_entries
  = Some {| set_type := $"cpu"; set_ds := [{| ds_name := $"value"; ds_type := DS_TYPE_COUNTER; ds_min := fzero; ds_max := NAN |}] |}.
Proof. by vm_compute. Qed.

Lemma long_line_skips_next_witness :
  let _ := demo_strtod in
  read_types_list (λ _, Some (replicate 4094 "x"%char ++ newline :: print_set ($"cpu", [u_source $"value" $"GAUGE"]) ++ [newline]))
    (Some $"types.db") (None : option (Avl.c_avl_tree cstr data_set_t)) ⇓ (0, None).
Proof.
  intros sd. apply (long_line_skips_next _ $"types.db" (replicate 4094 "x"%char) ($"cpu", [u_source $"value" $"GAUGE"]));
    [by apply Forall_replicate|apply length_replicate|by apply (bool_decide_unpack _); vm_compute|done].
Defined.
