(* ===== verification/Notification.v ===== *)
(** * Notifications (src/daemon/notification.c, src/daemon/plugin.c)

    A notification borrows its name from the family it was made for; labels and
    annotations are its own.  Its text is a name and two label sets, so the
    printing and parsing of LabelSet.v is used; printf's [%.3f] is a
    parameter. *)

From Stdlib Require Import ZArith Lia Ascii String.
From stdpp Require Import base gmap numbers option list.
From S2P Require Import Prelude MapSpec Double LList StrBuf LabelSet Metric Cache Plugin OConfig Commands.
From S2P Require MetaData.

Record notification_t : Type := mk_notif {
  severity : Z;
  n_time : Z;
  n_name : option cstr;
  n_label : label_set_t;
  annotation : label_set_t;
  n_meta : option MetaData.meta_data_t;
}.

Definition zero_notification : notification_t := mk_notif 0 0 None [] [] None.
Implicit Types n : notification_t.

Definition set_labels n (l : label_set_t) : notification_t :=
  mk_notif (severity n) (n_time n) (n_name n) l (annotation n) (n_meta n).
Definition set_annotations n (l : label_set_t) : notification_t :=
  mk_notif (severity n) (n_time n) (n_name n) (n_label n) l (n_meta n).

(** ** Fields *)

Definition notification_init_metric n (sev : Z) (fam : metric_family_t) (m : metric_t) : M (Z * notification_t) :=
  let n := mk_notif sev (time m) (fam_name fam) (n_label n) (annotation n) (n_meta n) in
  let* '(status, l) := label_set_clone (n_label n) (label m) in
  ret (status, if status =? 0 then set_labels n l else n).

(** The value pointer of the pair with this name, or NULL. *)
Definition read_value (ls : label_set_t) (nm : cstr) : M (option cstr) :=
  let* i := label_set_read ls nm in
  match i with
  | None => ret None
  | Some i => let* p := mopt (ls !! i) in ret (LabelSet.value p)
  end.

Definition notification_label_get n (nm : cstr) : M (option cstr) := read_value (n_label n) nm.
Definition notification_annotation_get n (nm : cstr) : M (option cstr) := read_value (annotation n) nm.

Definition notification_label_set n (nm : cstr) (v : option cstr) : M (Z * notification_t) :=
  let* '(status, l) := label_set_add (n_label n) nm v in ret (status, set_labels n l).
Definition notification_annotation_set n (nm : cstr) (v : option cstr) : M (Z * notification_t) :=
  let* '(status, l) := label_set_add (annotation n) nm v in ret (status, set_annotations n l).

(** [free] of the labels and annotations. *)
Definition notification_reset n : M (Z * notification_t) :=
  let* _ := label_set_reset (n_label n) in
  let* _ := label_set_reset (annotation n) in
  ret (0, zero_notification).

Definition notification_free n : M unit :=
  let* _ := label_set_reset (n_label n) in
  let* _ := label_set_reset (annotation n) in
  ret tt.

(** [None] is NULL.  The meta data that was copied without error is freed with
    the copy; [sstrdup] does not return when memory is short. *)
Definition notification_clone (src : notification_t) : M (option notification_t) :=
  let* ok := alloc in
  if negb ok then ret None
  else
    let dest := zero_notification in
    let* '(status, l) := label_set_clone (n_label dest) (n_label src) in
    if negb (status =? 0) then ret None
    else
      let dest := set_labels dest l in
      let* '(status, a) := label_set_clone (annotation dest) (annotation src) in
      if negb (status =? 0) then let* _ := notification_free dest in ret None
      else
        let dest := set_annotations dest a in
        let* copied :=
          match n_meta src with
          | None => ret false
          | Some _ => let* md := Metric.meta_data_clone (n_meta src) in ret (bool_decide (is_Some md))
          end in
        if copied : bool then let* _ := notification_free dest in ret None
        else
          match n_name src with
          | None => let* _ := notification_free dest in ret None
          | Some nm =>
              ret (Some (mk_notif (severity src) (n_time src) (Some nm) (n_label dest) (annotation dest) None))
          end.

(** ** Text *)

Section text.
Context `{Sysconf, FormatFixed3}.

(** [strbuf_print (buf, NULL)] is EINVAL. *)
Definition print_name n (buf : strbuf_t) : M (Z * strbuf_t) :=
  match n_name n with None => ret (EINVAL, buf) | Some nm => strbuf_print buf nm end.

Definition notification_identity (buf : strbuf_t) n : M (Z * strbuf_t) :=
  if (length (n_label n) =? 0)%nat then print_name n buf
  else sor (print_name n buf) (λ b, label_set_marshal b (n_label n)).

Definition severity_text (sev : Z) : cstr :=
  if sev =? NOTIF_WARNING then $" WARNING " else if sev =? NOTIF_OKAY then $" OKAY " else $" FAILURE ".

Definition notification_marshal (buf : strbuf_t) n : M (Z * strbuf_t) :=
  let m := print_name n buf in
  let m := sor m (λ b, label_set_marshal b (n_label n)) in
  let m := sor m (λ b, label_set_marshal b (annotation n)) in
  let m := sor m (λ b, strbuf_print b (severity_text (severity n))) in
  sor m (λ b, strbuf_printf b (format_fixed3 (CDTIME_T_TO_DOUBLE (n_time n)) ++ [LF])).

(** The name of the function is the source's. *)
Definition notitication_unmarshal n (buf : cstr) : M (Z * notification_t) :=
  let name_len := strspn buf VALID_NAME_CHARS in
  if (name_len =? 0)%nat then ret (EINVAL, n)
  else
    let nm := take name_len buf in
    let p := drop name_len buf in
    let* ok := alloc in
    if negb ok then ret (ENOMEM, mk_notif (severity n) (n_time n) None (n_label n) (annotation n) (n_meta n))
    else
      let n := mk_notif (severity n) (n_time n) (Some nm) (n_label n) (annotation n) (n_meta n) in
      let* '(st, l, p) := label_set_unmarshal (n_label n) p in
      let n := set_labels n l in
      if negb (st =? 0) then ret (st, n)
      else
        let* '(st, a, p) := label_set_unmarshal (annotation n) p in
        let n := set_annotations n a in
        if negb (st =? 0) then ret (st, n)
        else
          match p with
          | c :: p =>
              if bool_decide (c = "}"%char) && (bool_decide (p = []) || bool_decide (head p = Some " "%char))
              then ret (0, n) else ret (EINVAL, n)
          | [] => ret (EINVAL, n)
          end.
End text.

(** ** Dispatch

    Every callback is called in the context of the caller, with the copy (or
    NULL) of the notification. *)

Section dispatch.
Context {CB D : Type}.
Implicit Types r : registry CB D.

Definition plugin_dispatch_notification r (ctx : plugin_ctx_t) (notif : notification_t) :
    M (Z * list (call * option notification_t)) :=
  match r_list r with
  | None => ret (-1, [])
  | Some _ =>
      let* n := notification_clone notif in
      let* calls := each_of r (λ calls key cf, (calls ++ [((key, ctx), n)], true)) [] in ret (0, calls)
  end.
End dispatch.

(** ** Copies *)

Lemma reset_embed kv : label_set_reset (embed kv) = ret [].
Proof.
  unfold label_set_reset. replace (forallb _ (embed kv)) with true; [done|]. symmetry.
  induction kv; [done|]. by simpl.
Qed.

(** A notification with valid parts. *)
Definition plain_notification n (nm : cstr) (kv an : list (cstr * cstr)) : Prop :=
  n_name n = Some nm ∧ n_label n = embed kv ∧ annotation n = embed an ∧ plain_meta (n_meta n).

Lemma notif_free_embed n kv an : n_label n = embed kv → annotation n = embed an → notification_free n = ret tt.
Proof. intros Hl Ha. unfold notification_free. by rewrite Hl, Ha, !reset_embed, !bind_ret. Qed.

(** A copy is equal to the notification when that has no meta data; with meta
    data there is none, because the copy of the meta data is taken for a
    failure. *)
Theorem notification_clone_spec n nm kv an : plain_notification n nm kv an →
  notification_clone n ⇓ if decide (n_meta n = None) then Some n else None.
Proof.
  intros (Hn & Hl & Ha & Hm). unfold notification_clone. eapply yields_bind; [apply yields_alloc|]. cbn [negb].
  rewrite Hl. eapply yields_bind; [apply clone_labels_ok|]. cbv beta iota. cbn [negb Z.eqb annotation set_labels].
  rewrite Ha. eapply yields_bind; [apply clone_labels_ok|]. cbv beta iota. cbn [negb Z.eqb].
  destruct (n_meta n) as [md|] eqn:E.
  - case_decide; [done|]. eapply (yields_bind _ _ true).
    { eapply yields_bind; [by apply clone_meta_ok|]. by rewrite bool_decide_eq_true_2 by eauto. }
    by rewrite (notif_free_embed _ kv an), bind_ret by done.
  - rewrite decide_True by done. rewrite bind_ret, Hn. cbn. rewrite <-Hl, <-Ha, <-Hn, <-E. by destruct n.
Qed.

Section dispatch_spec.
Context {CB D : Type}.
Implicit Types r : registry CB D.

Lemma fold_calls (ctx : plugin_ctx_t) (x : option notification_t) (kv : list (cstr * callback_func_t CB D)) l :
  fold_each (λ calls key _, (calls ++ [((key, ctx), x)], true)) l kv = l ++ map (λ e, ((e.1, ctx), x)) kv.
Proof.
  revert l. induction kv as [|[k cf] kv IH]; intros l; simpl; [by rewrite app_nil_r|]. by rewrite IH, <-app_assoc.
Qed.

(** Every notification callback is called once, in the order of the list, with
    a copy of the notification; but with NULL when the notification carries
    meta data. *)
Theorem plugin_dispatch_notification_spec r ctx n nm kv an cbs : reg_repr r cbs → is_Some (r_list r) →
  plain_notification n nm kv an →
  plugin_dispatch_notification r ctx n ⇓
    (0, map (λ e, ((e.1, ctx), if decide (n_meta n = None) then Some n else None)) cbs).
Proof.
  intros Hr [l Hl] Hn. unfold plugin_dispatch_notification. rewrite Hl.
  eapply yields_bind; [by eapply notification_clone_spec|]. cbv beta.
  rewrite (each_of_ret (λ calls key _, (calls ++ [((key, ctx), _)], true)) r cbs) by done.
  by rewrite bind_ret, fold_calls.
Qed.
End dispatch_spec.

(** ** Text *)

Section marshal.
Context `{Sysconf, FormatFixed3}.

Definition notification_text n (nm : cstr) (kv an : list (cstr * cstr)) : cstr :=
  nm ++ labels_text kv ++ labels_text an ++ severity_text (severity n) ++
  format_fixed3 (CDTIME_T_TO_DOUBLE (n_time n)) ++ [LF].

Lemma notification_appends n nm kv an : plain_notification n nm kv an →
  appends (λ b, notification_marshal b n) (notification_text n nm kv an).
Proof.
  intros (Hn & Hl & Ha & _). unfold notification_marshal, notification_text, print_name. rewrite Hn, Hl, Ha.
  rewrite !app_assoc. rewrite <-(app_assoc _ (format_fixed3 _)).
  apply (sor_appends (λ b, sor (sor (sor _ _) _) _)); [|apply printf_appends].
  apply (sor_appends (λ b, sor (sor _ _) _)); [|apply print_appends].
  apply (sor_appends (λ b, sor _ _)); [|apply marshal_appends].
  apply (sor_appends (λ b, strbuf_print b nm)); [apply print_appends|apply marshal_appends].
Qed.

Lemma unmarshal_empty_labels rest : label_set_unmarshal [] (labels_text [] ++ rest) ⇓ (EINVAL, [], labels_text [] ++ rest).
Proof. done. Qed.

(** The text of a notification is what [notification_marshal] documents, and
    [notitication_unmarshal] refuses every such text: it has no reading of an
    empty label set, and after the annotations it expects a second closing
    brace. *)
Theorem notification_text_rejected n nm kv an n0 : plain_notification n nm kv an → valid_name nm → lwf kv → lwf an →
  n_label n0 = [] → annotation n0 = [] →
  ∃ b n', notification_marshal STRBUF_CREATE n ⇓ (0, b) ∧ text b = notification_text n nm kv an ∧
    notitication_unmarshal n0 (text b) ⇓ (EINVAL, n').
Proof.
  intros Hn Hv Hkv Han Hl0 Ha0. pose proof dynamic_create as [Hdyn Htxt].
  destruct (notification_appends n nm kv an Hn _ Hdyn) as (b & Hb & _ & Ht). rewrite Htxt in Ht. simpl in Ht.
  exists b. rewrite Ht. cut (∃ n', notitication_unmarshal n0 (notification_text n nm kv an) ⇓ (EINVAL, n')).
  { intros [n' E]. by exists n'. }
  clear Ht. unfold notitication_unmarshal, notification_text.
  set (rest := severity_text _ ++ _). destruct (labels_text_head kv) as [s0 Hs0].
  assert (strspn (nm ++ labels_text kv ++ labels_text an ++ rest) VALID_NAME_CHARS = length nm) as ->.
  { rewrite Hs0. by apply name_span. }
  destruct (Nat.eqb_spec (length nm) 0) as [E|_]; [by destruct Hv, nm|].
  rewrite take_app_length, drop_app_length. cbn [n_label annotation]. rewrite Hl0.
  assert (∃ sv, rest = " "%char :: sv) as [sv Hsv].
  { unfold rest, severity_text. destruct (_ =? _); [by eexists|]. destruct (_ =? _); by eexists. }
  destruct (decide (kv = [])) as [->|Hkne].
  { eexists. eapply yields_bind; [apply yields_alloc|]. cbn [negb].
    eapply yields_bind; [apply unmarshal_empty_labels|]. done. }
  destruct (decide (an = [])) as [->|Hane].
  { eexists. eapply yields_bind; [apply yields_alloc|]. cbn [negb].
    eapply yields_bind; [by apply unmarshal_labels_text|]. cbv beta iota. cbn [negb Z.eqb annotation set_labels].
    rewrite Ha0. eapply yields_bind; [apply unmarshal_empty_labels|]. done. }
  eexists. eapply yields_bind; [apply yields_alloc|]. cbn [negb].
  eapply yields_bind; [by apply unmarshal_labels_text|]. cbv beta iota. cbn [negb Z.eqb annotation set_labels].
  rewrite Ha0. eapply yields_bind; [by apply unmarshal_labels_text|]. cbv beta iota. cbn [negb Z.eqb].
  rewrite Hsv. done.
Qed.
End marshal.

(** ** Witnesses *)

Definition demo_notification : notification_t :=
  mk_notif NOTIF_WARNING 0 (Some $"load") (embed [($"host", $"a")]) (embed [($"summary", $"x")]) None.
Definition demo_meta_notification : notification_t :=
  mk_notif NOTIF_WARNING 0 (Some $"load") (embed [($"host", $"a")]) (embed [($"summary", $"x")])
    (Some (MetaData.mk_md [] false)).

Lemma demo_plain : plain_notification demo_notification $"load" [($"host", $"a")] [($"summary", $"x")].
Proof. done. Qed.
Lemma demo_meta_plain : plain_notification demo_meta_notification $"load" [($"host", $"a")] [($"summary", $"x")].
Proof. split_and!; [done..|]. split; [done|]. constructor. Qed.

Lemma notification_clone_spec_witness :
  notification_clone demo_meta_notification ⇓ None ∧ notification_clone demo_notification ⇓ Some demo_notification.
Proof.
  split; [apply (notification_clone_spec _ _ _ _ demo_meta_plain)|apply (notification_clone_spec _ _ _ _ demo_plain)].
Defined.

Lemma plugin_dispatch_notification_spec_witness :
  plugin_dispatch_notification demo_reg (demo_ctx $"x") demo_meta_notification ⇓
    (0, map (λ e, ((e.1, demo_ctx $"x"), None)) demo_kv).
Proof.
  refine (plugin_dispatch_notification_spec demo_reg (demo_ctx $"x") demo_meta_notification _ _ _ demo_kv demo_repr _
            demo_meta_plain). by eexists.
Defined.

Lemma notification_text_rejected_witness :
  ∃ b n', notification_marshal (H := 4096) (H0 := λ _, $"0.000") STRBUF_CREATE demo_notification ⇓ (0, b) ∧
    text b = notification_text (H0 := λ _, $"0.000") demo_notification $"load" [($"host", $"a")] [($"summary", $"x")] ∧
    notitication_unmarshal (H := 4096) zero_notification (text b) ⇓ (EINVAL, n').
Proof.
  apply (notification_text_rejected (H := 4096) (H0 := λ _, $"0.000") _ _ _ _ zero_notification demo_plain);
    [split; [done|by apply (bool_decide_unpack _)]|..]; try done;
    (split; [repeat constructor|]; repeat constructor; by apply (bool_decide_unpack _)).
Defined.
