(* ===== verification/Threshold.v ===== *)
(** * Thresholds (src/plugins/threshold/threshold.c, src/daemon/utils_threshold.c)

    The plugin keeps, for each family name, the list of its thresholds in the
    order of the configuration; the tree is a [KeyedMap] and the chain of
    [next] pointers of its values is a list.  A check reads the rate of each
    metric from the cache, compares it with the thresholds whose labels match,
    and reports the worst result: the last state and the number of hits are
    kept in the cache entry.  Notifications that are dispatched are returned.
    The text of numbers is a parameter. *)

From Stdlib Require Import ZArith Lia Ascii String Sorted.
From stdpp Require Import base gmap numbers option list.
From S2P Require Import Prelude MapSpec Double LList StrBuf LabelSet Metric Cache Plugin OConfig Commands Notification.
From S2P Require MetaData Avl.

Definition UT_FLAG_INVERT : Z := 1.
Definition UT_FLAG_PERSIST : Z := 2.
Definition UT_FLAG_INTERESTING : Z := 4.
Definition UT_FLAG_PERSIST_OK : Z := 8.

Record threshold_t : Type := mk_th {
  th_name : cstr;
  th_labels : label_set_t;
  warning_min : double;
  warning_max : double;
  failure_min : double;
  failure_max : double;
  hysteresis : double;
  flags : Z;
  th_hits : Z;
}.
Implicit Types (th : threshold_t) (ths : list threshold_t).

Definition flag th (f : Z) : bool := negb (Z.land (flags th) f =? 0).

Definition set_th_labels th l := mk_th (th_name th) l (warning_min th) (warning_max th) (failure_min th) (failure_max th) (hysteresis th) (flags th) (th_hits th).
Definition set_warning_min th x := mk_th (th_name th) (th_labels th) x (warning_max th) (failure_min th) (failure_max th) (hysteresis th) (flags th) (th_hits th).
Definition set_warning_max th x := mk_th (th_name th) (th_labels th) (warning_min th) x (failure_min th) (failure_max th) (hysteresis th) (flags th) (th_hits th).
Definition set_failure_min th x := mk_th (th_name th) (th_labels th) (warning_min th) (warning_max th) x (failure_max th) (hysteresis th) (flags th) (th_hits th).
Definition set_failure_max th x := mk_th (th_name th) (th_labels th) (warning_min th) (warning_max th) (failure_min th) x (hysteresis th) (flags th) (th_hits th).
Definition set_hysteresis th x := mk_th (th_name th) (th_labels th) (warning_min th) (warning_max th) (failure_min th) (failure_max th) x (flags th) (th_hits th).
Definition set_flags th x := mk_th (th_name th) (th_labels th) (warning_min th) (warning_max th) (failure_min th) (failure_max th) (hysteresis th) x (th_hits th).
Definition set_th_hits th x := mk_th (th_name th) (th_labels th) (warning_min th) (warning_max th) (failure_min th) (failure_max th) (hysteresis th) (flags th) x.

Section threshold.
Context {T : Type → Type} `{!KeyedMap cstr T} `{Sysconf, MetaData.FormatGauge, FormatDouble, FormatFixed3}.
Implicit Types (t : T (list threshold_t)) (c : cache T) (fam : metric_family_t) (m : metric_t).

(** ** The tree of thresholds *)

(** [[]] is NULL. *)
Definition threshold_get t (metric_name : cstr) : list threshold_t :=
  match km_get t metric_name with (0, Some ths) => ths | _ => [] end.

Definition ut_threshold_free th : M unit :=
  let* _ := label_set_reset (th_labels th) in ret tt.

Definition ut_threshold_add t th : M (Z * T (list threshold_t)) :=
  let* name_copy := alloc in
  if negb name_copy then ret (-1, t)
  else
    match threshold_get t (th_name th) with
    | [] => let* ok := alloc in mopt (km_insert ok t (th_name th) [th])
    | _ => ret (0, km_update t (th_name th) (λ ths, ths ++ [th]))
    end.

(** ** Configuration *)

Definition is_key (s : cstr) (option : oconfig_item_t) : bool := strcasecmp s (key option) =? 0.

Definition metric_option (option : oconfig_item_t) th : M (Z * threshold_t) :=
  if is_key $"Label" option then
    let* '(status, l) := cf_util_get_label option (th_labels th) in ret (status, set_th_labels th l)
  else if is_key $"WarningMax" option then
    let '(status, x) := cf_util_get_double option (warning_max th) in ret (status, set_warning_max th x)
  else if is_key $"FailureMax" option then
    let '(status, x) := cf_util_get_double option (failure_max th) in ret (status, set_failure_max th x)
  else if is_key $"WarningMin" option then
    let '(status, x) := cf_util_get_double option (warning_min th) in ret (status, set_warning_min th x)
  else if is_key $"FailureMin" option then
    let '(status, x) := cf_util_get_double option (failure_min th) in ret (status, set_failure_min th x)
  else if is_key $"Interesting" option then
    let '(status, x) := cf_util_get_flag option (flags th) UT_FLAG_INTERESTING in ret (status, set_flags th x)
  else if is_key $"Invert" option then
    let '(status, x) := cf_util_get_flag option (flags th) UT_FLAG_INVERT in ret (status, set_flags th x)
  else if is_key $"Persist" option then
    let '(status, x) := cf_util_get_flag option (flags th) UT_FLAG_PERSIST in ret (status, set_flags th x)
  else if is_key $"PersistOK" option then
    let '(status, x) := cf_util_get_flag option (flags th) UT_FLAG_PERSIST_OK in ret (status, set_flags th x)
  else if is_key $"Hits" option then
    let* '(status, x) := cf_util_get_int option (th_hits th) in ret (status, set_th_hits th x)
  else if is_key $"Hysteresis" option then
    let '(status, x) := cf_util_get_double option (hysteresis th) in ret (status, set_hysteresis th x)
  else ret (-1, th).

Fixpoint metric_options (options : list oconfig_item_t) th : M (Z * threshold_t) :=
  match options with
  | [] => ret (0, th)
  | option :: options =>
      let* '(status, th) := metric_option option th in
      if negb (status =? 0) then ret (status, th) else metric_options options th
  end.

Definition new_threshold (name : cstr) : threshold_t := mk_th name [] NAN NAN NAN NAN fzero UT_FLAG_INTERESTING 0.

Definition ut_config_metric t (ci : oconfig_item_t) : M (Z * T (list threshold_t)) :=
  match values ci with
  | [OCONFIG_TYPE_STRING name] =>
      if (length (children ci) <? 1)%nat then ret (-1, t)
      else
        let* ok := alloc in
        if negb ok then ret (-1, t)
        else
          let* ok := alloc in
          if negb ok then ret (-1, t)
          else
            let* '(status, th) := metric_options (children ci) (new_threshold name) in
            let* '(status, t) := if status =? 0 then ut_threshold_add t th else ret (status, t) in
            if negb (status =? 0) then let* _ := ut_threshold_free th in ret (status, t)
            else ret (status, t)
  | _ => ret (-1, t)
  end.

Fixpoint config_loop t (options : list oconfig_item_t) (status : Z) : M (Z * T (list threshold_t)) :=
  match options with
  | [] => ret (status, t)
  | option :: options =>
      let* '(status, t) := if is_key $"Metric" option then ut_config_metric t option else ret (-1, t) in
      if negb (status =? 0) then ret (status, t) else config_loop t options status
  end.

Section config.
Context {CB D : Type} (ctx : plugin_ctx_t) (missing_cb write_cb : CB).

(** The tree and the lists of callbacks it registers in. *)
Record ut_state : Type := mk_ut {
  threshold_tree : option (T (list threshold_t));
  list_missing : registry CB D;
  list_write : registry CB D;
}.
Implicit Types s : ut_state.

Definition tree_size s : Z := match threshold_tree s with None => 0 | Some t => km_size t end.

Definition ut_config s (ci : oconfig_item_t) : M (Z * ut_state) :=
  let old_size := tree_size s in
  let* tree :=
    match threshold_tree s with
    | Some t => ret (Some t)
    | None => let* ok := alloc in ret (if ok : bool then Some km_create else None)
    end in
  match tree with
  | None => ret (-1, s)
  | Some t =>
      let* '(status, t) := config_loop t (children ci) 0 in
      if (old_size =? 0) && (0 <? km_size t) then
        let* '(_, lm) := create_register_callback (list_missing s) ctx (Some $"threshold") (Some missing_cb) None in
        let* '(_, lw) := create_register_callback (list_write s) ctx (Some $"threshold") (Some write_cb) None in
        ret (status, mk_ut (Some t) lm lw)
      else ret (status, mk_ut (Some t) (list_missing s) (list_write s))
  end.
End config.

(** ** Checks *)

Definition report_severity (st : Z) : Z :=
  if st =? STATE_OKAY then NOTIF_OKAY else if st =? STATE_WARNING then NOTIF_WARNING else NOTIF_FAILURE.

(** [snprintf (number, sizeof (number), GAUGE_FORMAT, x)] and the annotation. *)
Definition annotate_number (nm : cstr) (x : double) (n : notification_t) : M notification_t :=
  let* '(_, n) := notification_annotation_set n nm (Some (take 63 (MetaData.format_gauge x))) in ret n.

Definition summary_text th (value : double) (st state_old : Z) : cstr :=
  if st =? STATE_OKAY then
    if state_old =? STATE_MISSING then $": Value is no longer missing."
    else $": All data sources are within range again. Current value is " ++ format_lf value ++ $"."
  else
    let min := if st =? STATE_ERROR then failure_min th else warning_min th in
    let max := if st =? STATE_ERROR then failure_max th else warning_max th in
    let what := if st =? STATE_ERROR then $"failure" else $"warning" in
    $": Current value is " ++ format_lf value ++ $". That is " ++
    if flag th UT_FLAG_INVERT then
      if negb (is_nan min) && negb (is_nan max) then
        $"within the " ++ what ++ $" region of " ++ format_lf min ++ $" and " ++ format_lf max ++ $"."
      else
        (if is_nan min then $"below" else $"above") ++ $" the " ++ what ++ $" threshold of " ++
        format_lf (if is_nan min then max else min) ++ $"."
    else
      (if flt value min then $"below" else $"above") ++ $" the " ++ what ++ $" threshold of " ++
      format_lf (if flt value min then min else max) ++ $".".

Definition report_notification fam m (name : cstr) th (value : double) (st state_old : Z) : M (list notification_t) :=
  let* '(_, n) := notification_init_metric zero_notification NOTIF_FAILURE fam m in
  let n := mk_notif (report_severity st) (time m) (n_name n) (n_label n) (annotation n) (n_meta n) in
  let* n := annotate_number $"current_value" value n in
  let* n := annotate_number $"warning_min" (warning_min th) n in
  let* n := annotate_number $"warning_max" (warning_max th) n in
  let* n := annotate_number $"failure_min" (failure_min th) n in
  let* n := annotate_number $"failure_max" (failure_max th) n in
  let* '(_, buf) := strbuf_print STRBUF_CREATE name in
  if negb (st =? STATE_OKAY) && (st =? STATE_UNKNOWN) then ret []
  else
    let* '(_, buf) := strbuf_printf buf (summary_text th value st state_old) in
    let* '(_, n) := notification_annotation_set n $"summary" (c_str <$> ptr buf) in
    let* _ := notification_reset n in
    ret [n].

(** The hits: whether to go on, and the cache. *)
Definition count_hits c (name : cstr) th (st : Z) : M (bool * cache T) :=
  if negb (th_hits th =? 0) then
    let* '(hits, c) := uc_get_hits_by_name c name in
    if ((st =? STATE_OKAY) && negb (flag th UT_FLAG_PERSIST_OK)) || (th_hits th <? hits) then
      let* '(_, c) := uc_set_hits_by_name c name 0 in ret (true, c)
    else let* '(_, c) := uc_inc_hits_by_name c name 1 in ret (false, c)
  else ret (true, c).

Definition ut_report_state c fam m (name : cstr) th (value : double) (st : Z) : M (Z * list notification_t * cache T) :=
  let* '(go, c) := count_hits c name th st in
  if negb go then ret (0, [], c)
  else
    let* '(state_old, c) := uc_get_state_by_name c name in
    if (st =? state_old) &&
       ((st =? STATE_UNKNOWN) || negb (flag th UT_FLAG_PERSIST) ||
        ((st =? STATE_OKAY) && negb (flag th UT_FLAG_PERSIST_OK)))
    then ret (0, [], c)
    else
      let* c :=
        if negb (st =? state_old) then let* '(_, c) := uc_set_state_by_name c name st in ret c else ret c in
      let* ns := report_notification fam m name th value st state_old in
      ret (0, ns, c).

(** Outside of a range whose missing ends are NaN, and of one narrowed by a
    hysteresis. *)
Definition outside (min max value : double) : bool :=
  (negb (is_nan min) && flt value min) || (negb (is_nan max) && flt max value).
Definition outside_narrowed (min max hyst value : double) : bool :=
  (negb (is_nan min) && flt value (fadd min hyst)) || (negb (is_nan max) && flt (fsub max hyst) value).

Definition ut_check_one_threshold c (name : cstr) th (value : double) : M (Z * cache T) :=
  let start := if flag th UT_FLAG_INVERT then -1 else 0 in
  let* '(failure, warning, c) :=
    if flt fzero (hysteresis th) then
      let* '(prev_state, c) := uc_get_state_by_name c name in
      let for_warning := if prev_state =? STATE_WARNING then hysteresis th else fzero in
      let for_failure := if prev_state =? STATE_ERROR then hysteresis th else fzero in
      ret (outside_narrowed (failure_min th) (failure_max th) for_failure value,
           outside_narrowed (warning_min th) (warning_max th) for_warning value, c)
    else
      ret (outside (failure_min th) (failure_max th) value, outside (warning_min th) (warning_max th) value, c) in
  let is_failure := start + if failure : bool then 1 else 0 in
  let is_warning := start + if warning : bool then 1 else 0 in
  ret (if negb (is_failure =? 0) then STATE_ERROR
       else if negb (is_warning =? 0) then STATE_WARNING else STATE_OKAY, c).

(** The loop over the labels of a threshold. *)
Fixpoint labels_match m (ls : label_set_t) : M bool :=
  match ls with
  | [] => ret true
  | p :: ls =>
      match LabelSet.name p with
      | None => ret false
      | Some nm =>
          let* value := metric_label_get m nm in
          match value with
          | None => ret false
          | Some value =>
              let* want := mopt (LabelSet.value p) in
              if negb (strcmp want value =? 0) then ret false else labels_match m ls
          end
      end
  end.

(** The loop over the thresholds: the worst state, the first threshold with
    it, and whether any matched. *)
Fixpoint check_loop c (name : cstr) m (value : double) ths (worst_state : Z) (worst_th : option threshold_t)
    (nmatches : Z) : M (Z * Z * option threshold_t * Z * cache T) :=
  match ths with
  | [] => ret (0, worst_state, worst_th, nmatches, c)
  | th :: ths =>
      let* ok := labels_match m (th_labels th) in
      if ok : bool then
        let* '(status, c) := ut_check_one_threshold c name th value in
        if status <? 0 then ret (-1, worst_state, worst_th, nmatches, c)
        else if worst_state <? status then check_loop c name m value ths status (Some th) (nmatches + 1)
        else check_loop c name m value ths worst_state worst_th (nmatches + 1)
      else check_loop c name m value ths worst_state worst_th nmatches
  end.

Definition ut_check_metric_threshold c fam m ths : M (Z * list notification_t * cache T) :=
  let* '(status, buf) := metric_identity STRBUF_CREATE (Some fam) m in
  if negb (status =? 0) then ret (status, [], c)
  else
    let* name := mopt (c_str <$> ptr buf) in
    let* '(status, value, c) := uc_get_rate_by_name c name in
    if negb (status =? 0) then ret (0, [], c)
    else
      let* value := mopt value in
      let* '(status, worst_state, worst_th, nmatches, c) := check_loop c name m value ths (-1) None 0 in
      if status <? 0 then ret (-1, [], c)
      else if 0 <? nmatches then
        let* worst_th := mopt worst_th in
        let* '(status, ns, c) := ut_report_state c fam m name worst_th value worst_state in
        ret (if negb (status =? 0) then -1 else 0, ns, c)
      else ret (0, [], c).

Fixpoint check_metrics c fam (ms : list metric_t) ths : M (list notification_t * cache T) :=
  match ms with
  | [] => ret ([], c)
  | m :: ms =>
      let* '(_, ns, c) := ut_check_metric_threshold c fam m ths in
      let* '(ns', c) := check_metrics c fam ms ths in ret (ns ++ ns', c)
  end.

Definition ut_check_threshold (tree : option (T (list threshold_t))) c fam : M (Z * list notification_t * cache T) :=
  match tree with
  | None => ret (0, [], c)
  | Some t =>
      let* nm := mopt (fam_name fam) in
      match threshold_get t nm with
      | [] => ret (0, [], c)
      | ths => let* '(ns, c) := check_metrics c fam (metric fam) ths in ret (0, ns, c)
      end
  end.

(** ** Missing metrics *)

Fixpoint interesting_loop m ths : M bool :=
  match ths with
  | [] => ret false
  | th :: ths =>
      let* ok := labels_match m (th_labels th) in
      if ok && flag th UT_FLAG_INTERESTING then ret true else interesting_loop m ths
  end.

Definition ut_metric_missing (now : Z) fam m ths : M (list notification_t) :=
  let* found_interesting := interesting_loop m ths in
  if negb found_interesting then ret []
  else
    let missing_time := u64 (now - time m) in
    let* '(status, buf) := metric_identity STRBUF_CREATE (Some fam) m in
    if negb (status =? 0) then ret []
    else
      let* name := mopt (c_str <$> ptr buf) in
      let* '(_, n) := notification_init_metric zero_notification NOTIF_FAILURE fam m in
      let* '(_, buf_summary) :=
        strbuf_printf STRBUF_CREATE
          (name ++ $" has not been updated for " ++ format_fixed3 (CDTIME_T_TO_DOUBLE missing_time) ++ $" seconds.") in
      let* '(_, n) := notification_annotation_set n $"summary" (c_str <$> ptr buf_summary) in
      let n := mk_notif (severity n) now (n_name n) (n_label n) (annotation n) (n_meta n) in
      let* _ := notification_reset n in
      ret [n].

Fixpoint missing_metrics (now : Z) fam (ms : list metric_t) ths : M (list notification_t) :=
  match ms with
  | [] => ret []
  | m :: ms =>
      let* ns := ut_metric_missing now fam m ths in
      let* ns' := missing_metrics now fam ms ths in ret (ns ++ ns')
  end.

Definition ut_missing (now : Z) (tree : option (T (list threshold_t))) fam : M (Z * list notification_t) :=
  match tree with
  | None => ret (0, [])
  | Some t =>
      let* nm := mopt (fam_name fam) in
      let* ns := missing_metrics now fam (metric fam) (threshold_get t nm) in ret (0, ns)
  end.
End threshold.
Arguments ut_state : clear implicits.

(** What is used of printf: a formatted number is a non-empty string. *)
Class FormatLaws `{MetaData.FormatGauge, FormatDouble} : Prop := {
  gauge_text x : MetaData.format_gauge x ≠ [] ∧ no_nul (MetaData.format_gauge x);
  lf_text x : no_nul (format_lf x);
}.

Section laws.
Context {T : Type → Type} `{!KeyedMap cstr T} `{!KeyedMapLaws cstr T} `{Sysconf, MetaData.FormatGauge, FormatDouble}
  `{!FormatLaws}.
Implicit Types (c : cache T) (ce : cache_entry_t) (l : list (cstr * cache_entry_t)) (fam : metric_family_t)
  (m : metric_t) (nm : cstr).

(** ** State and hits of a cache entry *)

Lemma get_state_ok c l nm ce : holds c l → Spec.get nm l = Some ce → uc_get_state_by_name c nm ⇓ (state ce, c).
Proof.
  intros Hh Hg. unfold uc_get_state_by_name. destruct (lock_ok c l Hh) as (c1 & -> & Hheld & Hback).
  destruct (unlock_ok c1 _ Hheld) as [Hun _]. rewrite bind_ret, (get_entry_ok c1 l nm Hheld), Hg, bind_ret.
  cbn [Z.eqb mopt]. by rewrite !bind_ret, Hun, bind_ret, Hback.
Qed.

Lemma get_hits_ok c l nm ce : holds c l → Spec.get nm l = Some ce → uc_get_hits_by_name c nm ⇓ (hits ce, c).
Proof.
  intros Hh Hg. unfold uc_get_hits_by_name. destruct (lock_ok c l Hh) as (c1 & -> & Hheld & Hback).
  destruct (unlock_ok c1 _ Hheld) as [Hun _]. rewrite bind_ret, (get_entry_ok c1 l nm Hheld), Hg, bind_ret.
  cbn [Z.eqb mopt]. by rewrite !bind_ret, Hun, bind_ret, Hback.
Qed.

Lemma set_state_ok c l nm ce s : holds c l → Spec.get nm l = Some ce →
  ∃ c', uc_set_state_by_name c nm s ⇓ (state ce, c') ∧ holds c' (Spec.update nm (set_state s) l).
Proof.
  intros Hh Hg. unfold uc_set_state_by_name. destruct (lock_ok c l Hh) as (c1 & -> & Hheld & Hback).
  destruct (put_entry_ok c1 l nm (set_state s) Hheld) as (c2 & Hp & Hheld2). destruct (unlock_ok c2 _ Hheld2) as [Hun Hfin].
  eexists. split; [|exact Hfin]. rewrite bind_ret, (get_entry_ok c1 l nm Hheld), Hg, bind_ret.
  cbn [Z.eqb mopt]. by rewrite !bind_ret, Hp, !bind_ret, Hun, bind_ret.
Qed.

Lemma set_hits_ok c l nm ce h : holds c l → Spec.get nm l = Some ce →
  ∃ c', uc_set_hits_by_name c nm h ⇓ (hits ce, c') ∧ holds c' (Spec.update nm (set_hits h) l).
Proof.
  intros Hh Hg. unfold uc_set_hits_by_name. destruct (lock_ok c l Hh) as (c1 & -> & Hheld & Hback).
  destruct (put_entry_ok c1 l nm (set_hits h) Hheld) as (c2 & Hp & Hheld2). destruct (unlock_ok c2 _ Hheld2) as [Hun Hfin].
  eexists. split; [|exact Hfin]. rewrite bind_ret, (get_entry_ok c1 l nm Hheld), Hg, bind_ret.
  cbn [Z.eqb mopt]. by rewrite !bind_ret, Hp, !bind_ret, Hun, bind_ret.
Qed.

Lemma inc_hits_ok c l nm ce : holds c l → Spec.get nm l = Some ce → 0 ≤ hits ce < 2 ^ 31 - 1 →
  ∃ c', uc_inc_hits_by_name c nm 1 ⇓ (hits ce, c') ∧ holds c' (Spec.update nm (set_hits (hits ce + 1)) l).
Proof.
  intros Hh Hg Hb. unfold uc_inc_hits_by_name. destruct (lock_ok c l Hh) as (c1 & -> & Hheld & Hback).
  destruct (put_entry_ok c1 l nm (set_hits (hits ce + 1)) Hheld) as (c2 & Hp & Hheld2).
  destruct (unlock_ok c2 _ Hheld2) as [Hun Hfin].
  eexists. split; [|exact Hfin]. rewrite bind_ret, (get_entry_ok c1 l nm Hheld), Hg, bind_ret.
  cbn [Z.eqb mopt]. rewrite bind_ret. rewrite (proj2 (Z.leb_le _ _)), (proj2 (Z.ltb_lt _ _)) by lia.
  cbn [andb massert]. by rewrite !bind_ret, Hp, !bind_ret, Hun, bind_ret.
Qed.

(** ** Comparing a value with a threshold *)

Definition narrowed th (prev : Z) (st : Z) : double := if prev =? st then hysteresis th else fzero.
Definition fails (min max h value : double) (hyst : bool) : bool :=
  if hyst then outside_narrowed min max h value else outside min max value.

(** The state of a value: [Invert] exchanges the inside and the outside of
    both ranges. *)
Definition classify th (prev : Z) (value : double) : Z :=
  let hyst := flt fzero (hysteresis th) in
  if xorb (flag th UT_FLAG_INVERT) (fails (failure_min th) (failure_max th) (narrowed th prev STATE_ERROR) value hyst)
  then STATE_ERROR
  else if xorb (flag th UT_FLAG_INVERT) (fails (warning_min th) (warning_max th) (narrowed th prev STATE_WARNING) value hyst)
  then STATE_WARNING else STATE_OKAY.

Lemma check_one_ok c l nm ce th v : holds c l → Spec.get nm l = Some ce →
  ut_check_one_threshold c nm th v ⇓ (classify th (state ce) v, c).
Proof.
  intros Hh Hg. unfold ut_check_one_threshold, classify, fails, narrowed.
  destruct (flt fzero (hysteresis th)).
  - eapply yields_bind; [eapply yields_bind; [by eapply get_state_ok|apply yields_ret]|]. cbv beta iota.
    by destruct (flag th UT_FLAG_INVERT), (outside_narrowed (failure_min th) _ _ _), (outside_narrowed (warning_min th) _ _ _).
  - rewrite bind_ret. by destruct (flag th UT_FLAG_INVERT), (outside (failure_min th) _ _), (outside (warning_min th) _ _).
Qed.

Lemma classify_cases th prev v :
  classify th prev v = STATE_OKAY ∨ classify th prev v = STATE_WARNING ∨ classify th prev v = STATE_ERROR.
Proof. unfold classify. destruct (xorb _ _); [auto|]. destruct (xorb _ _); auto. Qed.

(** ** Matching labels *)

Definition pair_matches (kv : list (cstr * cstr)) (p : label_pair_t) : bool :=
  match LabelSet.name p, LabelSet.value p with
  | Some k, Some v => bool_decide (Spec.get k kv = Some v)
  | _, _ => false
  end.
Definition matches (kv : list (cstr * cstr)) th : bool := forallb (pair_matches kv) (th_labels th).

Lemma label_get_ok m kv nm : label m = embed kv → Spec.sorted kv → metric_label_get m nm = ret (Spec.get nm kv).
Proof.
  intros Hl Hs. unfold metric_label_get. rewrite Hl. destruct (Spec.get nm kv) as [v|] eqn:Hg.
  - destruct (read_present kv nm v Hs Hg) as (i & -> & Hi). rewrite bind_ret, embed_lookup, Hi. simpl. by rewrite bind_ret.
  - by rewrite read_absent, bind_ret.
Qed.

Lemma labels_match_ok m kv ls : label m = embed kv → Spec.sorted kv → Forall (λ p, is_Some (LabelSet.value p)) ls →
  labels_match m ls = ret (forallb (pair_matches kv) ls).
Proof.
  intros Hl Hs. induction 1 as [|[[k|] v] ls [w Hw] _ IH]; [done| |done]. cbn in Hw. subst v.
  cbn [labels_match LabelSet.name LabelSet.value forallb]. rewrite (label_get_ok m kv k Hl Hs), bind_ret.
  unfold pair_matches at 1. cbn [LabelSet.name LabelSet.value].
  destruct (Spec.get k kv) as [x|]; [|by rewrite bool_decide_false].
  cbn [mopt]. rewrite bind_ret. destruct (Z.eqb_spec (strcmp w x) 0) as [->%strcmp_eq|Hne]; cbn [negb].
  - by rewrite bool_decide_true.
  - rewrite bool_decide_false; [done|]. intros [= ->]. apply Hne. by apply strcmp_eq.
Qed.

(** ** Reporting a state *)

(** [l'] is [l] with the entry of one name changed. *)
Definition entry_set nm ce' l l' : Prop :=
  Spec.get nm l' = Some ce' ∧ ∀ k, k ≠ nm → Spec.get k l' = Spec.get k l.

Lemma entry_update nm ce f l : Spec.get nm l = Some ce → entry_set nm (f ce) l (Spec.update nm f l).
Proof.
  intros Hg. split; [by rewrite spec_get_update, compare_refl, Hg|]. intros k Hk. rewrite spec_get_update.
  destruct (Z.eqb_spec (compare k nm) 0) as [E|]; [|done]. by apply (compare_eq k nm) in E.
Qed.
Lemma entry_trans nm ce1 ce2 l1 l2 l3 : entry_set nm ce1 l1 l2 → entry_set nm ce2 l2 l3 → entry_set nm ce2 l1 l3.
Proof. intros [_ E1] [E E2]. split; [done|]. intros k Hk. by rewrite E2, E1. Qed.

(** Whether a check of state [new] goes on to report, and the hits after it. *)
Definition hits_step th (h new : Z) : bool * Z :=
  if th_hits th =? 0 then (true, h)
  else if ((new =? STATE_OKAY) && negb (flag th UT_FLAG_PERSIST_OK)) || (th_hits th <? h) then (true, 0)
  else (false, h + 1).
Definition repeats th (new : Z) : bool :=
  flag th UT_FLAG_PERSIST && negb ((new =? STATE_OKAY) && negb (flag th UT_FLAG_PERSIST_OK)).
(** Whether a notification is sent, the new state and the new hits. *)
Definition report th (st h new : Z) : bool * Z * Z :=
  match hits_step th h new with
  | (false, h) => (false, st, h)
  | (true, h) => if new =? st then (repeats th new, st, h) else (true, new, h)
  end.

Lemma count_hits_ok c l nm ce th new : holds c l → Spec.get nm l = Some ce → 0 ≤ hits ce → th_hits th < 2 ^ 31 - 1 →
  ∃ c' l', count_hits c nm th new ⇓ ((hits_step th (hits ce) new).1, c') ∧ holds c' l' ∧
    entry_set nm (set_hits (hits_step th (hits ce) new).2 ce) l l'.
Proof.
  intros Hh Hg Hpos Hb. unfold count_hits, hits_step. destruct (Z.eqb_spec (th_hits th) 0) as [Hz|Hz]; cbn [negb].
  { exists c, l. split_and!; [done|done|]. split; [|done]. rewrite Hg. by destruct ce. }
  destruct (_ || _) eqn:E.
  - destruct (set_hits_ok c l nm ce 0 Hh Hg) as (c' & Hs & Hh'). eexists c', _. split_and!; [|done|by apply entry_update].
    eapply yields_bind; [by eapply get_hits_ok|]. cbv beta iota. rewrite E. by eapply yields_bind.
  - apply orb_false_iff in E as E2. destruct E2 as [_ Hle%Z.ltb_ge].
    destruct (inc_hits_ok c l nm ce Hh Hg) as (c' & Hs & Hh'); [lia|].
    eexists c', _. split_and!; [|done|by apply (entry_update nm ce (set_hits (hits ce + 1)))].
    eapply yields_bind; [by eapply get_hits_ok|]. cbv beta iota. rewrite E. by eapply yields_bind.
Qed.

(** *** The notification *)

Definition put (an : list (cstr * cstr)) (k v : cstr) : list (cstr * cstr) := (add_spec an k v).2.

Lemma add_spec_valid an k v : valid_label k = true → v ≠ [] → (add_spec an k v).1 = 0.
Proof.
  intros Hk Hv. unfold add_spec. destruct (Spec.get k an) eqn:E; [done|]. destruct v; [done|].
  unfold create_spec. rewrite Hk. cbn [negb]. by rewrite E.
Qed.

Lemma annotation_set_ok n an k v :
  annotation n = embed an → lwf an → valid_label k = true → v ≠ [] → no_nul v →
  notification_annotation_set n k (Some v) ⇓ (0, set_annotations n (embed (put an k v))) ∧ lwf (put an k v) ∧
  ∀ k', Spec.get k' (put an k v) = if compare k' k =? 0 then Some v else Spec.get k' an.
Proof.
  intros Ha Hl Hk Hv Hn. pose proof (add_spec_valid an k v Hk Hv) as Hst. split_and!.
  - unfold notification_annotation_set. rewrite Ha. eapply yields_bind; [by apply add_ok|]. by rewrite Hst.
  - by apply add_spec_lwf.
  - intros k'. by apply add_spec_get.
Qed.

Definition number_text (x : double) : cstr := take 63 (MetaData.format_gauge x).

Lemma annotate_ok n an k x : annotation n = embed an → lwf an → valid_label k = true →
  annotate_number k x n ⇓ set_annotations n (embed (put an k (number_text x))) ∧ lwf (put an k (number_text x)) ∧
  ∀ k', Spec.get k' (put an k (number_text x)) = if compare k' k =? 0 then Some (number_text x) else Spec.get k' an.
Proof.
  intros Ha Hl Hk. destruct (gauge_text x) as [Hne Hnul].
  destruct (annotation_set_ok n an k (number_text x) Ha Hl Hk) as (Hs & ?); [| |].
  - unfold number_text. by destruct (MetaData.format_gauge x).
  - by apply Forall_take.
  - split; [|done]. unfold annotate_number. by eapply yields_bind.
Qed.

Lemma summary_no_nul th v new old : no_nul (summary_text th v new old).
Proof.
  assert (∀ a b : cstr, no_nul a → no_nul b → no_nul (a ++ b)) as Happ by (intros; by apply Forall_app).
  unfold summary_text. repeat case_match; repeat (apply Happ || apply lf_text); by apply (bool_decide_unpack _).
Qed.

Lemma key_no_nul fam m key : keyed fam m key → key ≠ [] ∧ no_nul key.
Proof.
  intros (nm & kv & _ & _ & Hv & Hw & ->). split; [|by apply identity_no_nul].
  unfold identity_text. by destruct Hv as [? _], nm.
Qed.

Definition annotations th (v : double) (summary : cstr) : list (cstr * cstr) :=
  put (put (put (put (put (put [] $"current_value" (number_text v)) $"warning_min" (number_text (warning_min th)))
    $"warning_max" (number_text (warning_max th))) $"failure_min" (number_text (failure_min th)))
    $"failure_max" (number_text (failure_max th))) $"summary" summary.

(** What is dispatched. *)
Definition reported fam m key th (v : double) (new old : Z) : notification_t :=
  mk_notif (report_severity new) (time m) (fam_name fam) (label m)
    (embed (annotations th v (key ++ summary_text th v new old))) None.

Lemma init_metric_ok sev fam m kv : label m = embed kv →
  notification_init_metric zero_notification sev fam m ⇓ (0, mk_notif sev (time m) (fam_name fam) (label m) [] None).
Proof.
  intros Hl. unfold notification_init_metric. cbn [n_label zero_notification annotation n_meta]. rewrite Hl.
  eapply yields_bind; [apply clone_labels_ok|]. done.
Qed.

Lemma annotate_bind {A} n an k x (f : notification_t → M A) r : annotation n = embed an → lwf an → valid_label k = true →
  (lwf (put an k (number_text x)) → f (set_annotations n (embed (put an k (number_text x)))) ⇓ r) →
  bind (annotate_number k x n) f ⇓ r.
Proof. intros Ha Hl Hk Hf. destruct (annotate_ok n an k x Ha Hl Hk) as (E & L & _). eapply yields_bind; [exact E|auto]. Qed.

Lemma annotation_bind {A} n an k v (f : Z * notification_t → M A) r :
  annotation n = embed an → lwf an → valid_label k = true → v ≠ [] → no_nul v →
  (lwf (put an k v) → f (0, set_annotations n (embed (put an k v))) ⇓ r) → bind (notification_annotation_set n k (Some v)) f ⇓ r.
Proof.
  intros Ha Hl Hk Hv Hn Hf. destruct (annotation_set_ok n an k v Ha Hl Hk Hv Hn) as (E & L & _).
  eapply yields_bind; [exact E|auto].
Qed.

Lemma report_notification_ok fam m key th v new old : keyed fam m key → new ≠ STATE_UNKNOWN →
  report_notification fam m key th v new old ⇓ [reported fam m key th v new old].
Proof.
  intros Hk Hnew. destruct (key_no_nul _ _ _ Hk) as [Hkne Hknul]. destruct Hk as (nm & kv & _ & Hl & _ & Hw & _).
  unfold report_notification. eapply yields_bind; [by eapply init_metric_ok|]. cbv beta iota zeta.
  cbn [n_name n_label annotation n_meta].
  apply (annotate_bind _ []); [done|by split; constructor|done|]. intros L1.
  do 4 (eapply annotate_bind; [reflexivity|done|done|]; clear L1; intros L1).
  destruct (print_appends key _ (proj1 dynamic_create)) as (b1 & E1 & D1 & T1). eapply yields_bind; [exact E1|].
  cbv beta iota. rewrite (proj2 (Z.eqb_neq _ _) Hnew), andb_false_r.
  destruct (printf_appends (summary_text th v new old) _ D1) as (b2 & E2 & D2 & T2). eapply yields_bind; [exact E2|].
  cbv beta iota. rewrite T1 in T2. cbn [app] in T2. rewrite (proj2 dynamic_create) in T2. cbn [app] in T2.
  assert (key ++ summary_text th v new old ≠ []) as Hsne by by destruct key.
  assert (no_nul (key ++ summary_text th v new old)) as Hsn by (apply Forall_app; split; [done|apply summary_no_nul]).
  rewrite (dynamic_c_str b2), T2 by (done || by rewrite T2).
  eapply annotation_bind; [reflexivity|done..|]. intros _. cbv beta iota. unfold notification_reset, reported.
  cbn [n_label annotation set_annotations]. by rewrite Hl, !reset_embed, !bind_ret.
Qed.

Lemma report_state_ok c l fam m key ce th v new : holds c l → keyed fam m key → Spec.get key l = Some ce →
  0 ≤ hits ce → th_hits th < 2 ^ 31 - 1 → new ≠ STATE_UNKNOWN →
  let '(b, st, h) := report th (state ce) (hits ce) new in
  ∃ c' l', ut_report_state c fam m key th v new ⇓ (0, if b then [reported fam m key th v new (state ce)] else [], c') ∧
    holds c' l' ∧ entry_set key (set_state st (set_hits h ce)) l l'.
Proof.
  intros Hh Hk Hg Hpos Hb Hnew. destruct (count_hits_ok c l key ce th new Hh Hg Hpos Hb) as (c1 & l1 & E1 & Hh1 & S1).
  unfold ut_report_state, report. destruct (hits_step th (hits ce) new) as [[] h] eqn:Eh; cbn [fst snd] in *; cycle 1.
  { exists c1, l1. split_and!; [by eapply yields_bind|done|]. by destruct ce. }
  assert (state (set_hits h ce) = state ce) as Est by done.
  pose proof (get_state_ok c1 l1 key (set_hits h ce) Hh1 (proj1 S1)) as Hgs. rewrite Est in Hgs.
  rewrite (proj2 (Z.eqb_neq _ _) Hnew). cbn [orb].
  replace (negb (flag th UT_FLAG_PERSIST) || _) with (negb (repeats th new)); last first.
  { unfold repeats. by destruct (flag th UT_FLAG_PERSIST), ((_ =? _) && _). }
  destruct (Z.eqb_spec new (state ce)) as [->|Hne]; [destruct (repeats th (state ce)) eqn:Er|].
  - exists c1, l1. split_and!; [|done|by destruct ce]. eapply yields_bind; [exact E1|]. cbn [negb].
    eapply yields_bind; [exact Hgs|]. cbv beta iota. rewrite Z.eqb_refl. cbn [negb andb]. rewrite bind_ret.
    by eapply yields_bind; [by apply report_notification_ok|].
  - exists c1, l1. split_and!; [|done|by destruct ce]. eapply yields_bind; [exact E1|]. cbn [negb].
    eapply yields_bind; [exact Hgs|]. cbv beta iota. by rewrite Z.eqb_refl.
  - destruct (set_state_ok c1 l1 key _ new Hh1 (proj1 S1)) as (c2 & E2 & Hh2). eexists c2, _.
    split_and!; [|exact Hh2|eapply entry_trans; [exact S1|by apply (entry_update key _ (set_state new)), S1]].
    eapply yields_bind; [exact E1|]. cbn [negb]. eapply yields_bind; [exact Hgs|]. cbv beta iota.
    rewrite (proj2 (Z.eqb_neq _ _) Hne). cbn [negb andb]. eapply yields_bind; [by eapply yields_bind|]. cbv beta.
    by eapply yields_bind; [by apply report_notification_ok|].
Qed.

(** ** Checking a metric *)

(** The first of the thresholds with the worst state. *)
Definition worse (prev : Z) (v : double) (best : option threshold_t) th : option threshold_t :=
  match best with
  | None => Some th
  | Some b => if classify b prev v <? classify th prev v then Some th else best
  end.
Definition worst (prev : Z) (v : double) ths : option threshold_t := foldl (worse prev v) None ths.
Definition score (prev : Z) (v : double) (best : option threshold_t) : Z :=
  match best with None => -1 | Some b => classify b prev v end.

Definition th_ok th : Prop := th_hits th < 2 ^ 31 - 1 ∧ Forall (λ p, is_Some (LabelSet.value p)) (th_labels th).

Lemma classify_pos th prev v : 0 < classify th prev v.
Proof. by destruct (classify_cases th prev v) as [->|[->| ->]]. Qed.

Lemma check_loop_ok c l m kv key ce v ths : ∀ best k, holds c l → Spec.get key l = Some ce → label m = embed kv →
  Spec.sorted kv → Forall th_ok ths →
  let best' := foldl (worse (state ce) v) best (filter (λ th, matches kv th = true) ths) in
  check_loop c key m v ths (score (state ce) v best) best k ⇓
    (0, score (state ce) v best', best', k + Z.of_nat (length (filter (λ th, matches kv th = true) ths)), c).
Proof.
  induction ths as [|th ths IH]; intros best k Hh Hg Hl Hs Hok; cbv zeta; [by rewrite Z.add_0_r|].
  apply Forall_cons_1 in Hok as [[_ Hth] Hok]. cbn [check_loop]. rewrite (labels_match_ok m kv) by done. rewrite bind_ret.
  fold (matches kv th). destruct (matches kv th) eqn:Em.
  - rewrite filter_cons_True by done. cbn [foldl length]. eapply yields_bind; [by eapply check_one_ok|]. cbv beta iota.
    pose proof (classify_pos th (state ce) v). rewrite (proj2 (Z.ltb_ge _ _)) by lia.
    replace (k + Z.of_nat (S _)) with ((k + 1) + Z.of_nat (length (filter (λ th, matches kv th = true) ths))) by lia.
    assert (score (state ce) v (worse (state ce) v best th) =
      if score (state ce) v best <? classify th (state ce) v then classify th (state ce) v else score (state ce) v best) as Esc.
    { destruct best as [b|]; simpl; [by destruct (_ <? _)|]. by rewrite (proj2 (Z.ltb_lt _ _)) by lia. }
    assert (worse (state ce) v best th = if score (state ce) v best <? classify th (state ce) v then Some th else best) as Ew.
    { destruct best as [b|]; simpl; [done|]. by rewrite (proj2 (Z.ltb_lt _ _)) by lia. }
    specialize (IH (worse (state ce) v best th) (k + 1) Hh Hg Hl Hs Hok). cbv zeta in IH.
    rewrite Esc in IH at 1. rewrite Ew in IH at 1. by destruct (_ <? _).
  - rewrite filter_cons_False by (by rewrite Em). by apply IH.
Qed.

(** What one check does: the threshold and the state of the notification, if
    one is sent, and the state and hits after it. *)
Definition observe ths (s : Z * Z) (v : double) : option (threshold_t * Z) * (Z * Z) :=
  match worst s.1 v ths with
  | None => (None, s)
  | Some th =>
      let new := classify th s.1 v in
      match report th s.1 s.2 new with
      | (b, st, h) => (if b then Some (th, new) else None, (st, h))
      end
  end.

Definition sent fam m key (v : double) (old : Z) (o : option (threshold_t * Z)) : list notification_t :=
  match o with None => [] | Some (th, new) => [reported fam m key th v new old] end.

Lemma worst_in prev v ths : ∀ best th, foldl (worse prev v) best ths = Some th → best = Some th ∨ th ∈ ths.
Proof.
  induction ths as [|x ths IH]; intros best th; simpl; [auto|]. intros [E|?]%IH; [|right; by constructor].
  destruct best as [b|]; simpl in E; [destruct (_ <? _)|]; [|by left|]; injection E as ->; right; constructor.
Qed.

Lemma worst_none prev v ths : ∀ best, foldl (worse prev v) best ths = None → ths = [].
Proof.
  destruct ths as [|x ths]; [done|]. intros best. cut (∀ b, foldl (worse prev v) (Some b) ths ≠ None).
  { intros Hn. simpl. destruct best as [b|]; simpl; [destruct (_ <? _)|]; intros E; by destruct (Hn _ E). }
  induction ths as [|y ths IH]; intros b; simpl; [done|]. destruct (_ <? _); apply IH.
Qed.

Definition keyed_by fam m (kv : list (cstr * cstr)) key : Prop := keyed fam m key ∧ label m = embed kv ∧ lwf kv.

Lemma check_metric_ok c l fam m kv key ce ths : holds c l → keyed_by fam m kv key → Spec.get key l = Some ce →
  state ce ≠ STATE_MISSING → tv_type (values_raw ce) ≠ METRIC_TYPE_DISTRIBUTION → 0 ≤ hits ce → Forall th_ok ths →
  let '(o, s) := observe (filter (λ th, matches kv th = true) ths) (state ce, hits ce) (values_gauge ce) in
  ∃ c' l', ut_check_metric_threshold c fam m ths ⇓ (0, sent fam m key (values_gauge ce) (state ce) o, c') ∧
    holds c' l' ∧ entry_set key (set_state s.1 (set_hits s.2 ce)) l l'.
Proof.
  intros Hh (Hk & Hl & [Hs _]) Hg Hst Hty Hpos Hok. unfold observe. cbn [fst snd].
  pose proof (check_loop_ok c l m kv key ce (values_gauge ce) ths None 0 Hh Hg Hl Hs Hok) as Hloop. cbv zeta in Hloop.
  fold (worst (state ce) (values_gauge ce) (filter (λ th, matches kv th = true) ths)) in Hloop.
  assert (∀ r, (let* '(status, worst_state, worst_th, nmatches, c) :=
      check_loop c key m (values_gauge ce) ths (-1) None 0 in
    if status <? 0 then ret (-1, [], c) else if 0 <? nmatches then
      let* worst_th := mopt worst_th in
      let* '(status, ns, c) := ut_report_state c fam m key worst_th (values_gauge ce) worst_state in
      ret (if negb (status =? 0) then -1 else 0, ns, c) else ret (0, [], c)) ⇓ r →
    ut_check_metric_threshold c fam m ths ⇓ r) as Hrun.
  { intros r Hr. unfold ut_check_metric_threshold. apply (key_of fam m key); [done|]. intros b Hb. cbn [negb Z.eqb].
    rewrite Hb. cbn [mopt]. rewrite bind_ret. eapply yields_bind; [by eapply get_rate_ok|]. cbv beta iota.
    cbn [negb Z.eqb mopt]. by rewrite bind_ret. }
  destruct (worst _ _ _) as [th|] eqn:Ew; cycle 1.
  { exists c, l. split_and!; [|done|]; [|split; [|done]; rewrite Hg; by destruct ce].
    apply Hrun. eapply yields_bind; [exact Hloop|]. unfold worst in Ew. apply worst_none in Ew. by rewrite Ew. }
  assert (th ∈ filter (λ th, matches kv th = true) ths) as Hin.
  { unfold worst in Ew. by apply worst_in in Ew as [?|?]. }
  assert (th_hits th < 2 ^ 31 - 1) as Hb.
  { apply list_elem_of_filter in Hin as [_ Hin]. by destruct (proj1 (Forall_forall _ _) Hok th Hin). }
  pose proof (report_state_ok c l fam m key ce th (values_gauge ce) (classify th (state ce) (values_gauge ce))
    Hh Hk Hg Hpos Hb) as Hrep. destruct (report _ _ _ _) as [[b st] h].
  destruct Hrep as (c' & l' & E & Hh' & Hset). { pose proof (classify_pos th (state ce) (values_gauge ce)). unfold STATE_UNKNOWN. lia. }
  exists c', l'. split_and!; [|done|done]. apply Hrun. eapply yields_bind; [exact Hloop|]. cbv beta iota.
  match goal with |- context [0 <? (0 + ?x)] => assert (0 < 0 + x) as Hlt end.
  { destruct (filter _ ths); [by apply not_elem_of_nil in Hin|]. rewrite length_cons. lia. }
  apply Z.ltb_lt in Hlt. rewrite Hlt.
  cbn [Z.ltb Z.compare mopt score]. rewrite bind_ret. eapply yields_bind; [exact E|]. by destruct b.
Qed.

(** ** A sequence of values

    [feed] is what happens to one metric after another of a family: the value
    goes into the cache and the family to the write callback. *)

Definition set_one fam m : metric_family_t := set_metrics fam [m].
Fixpoint feed (tree : option (T (list threshold_t))) (now : Z) c fam (ms : list metric_t) :
    M (list notification_t * cache T) :=
  match ms with
  | [] => ret ([], c)
  | m :: ms =>
      let* '(_, _, c) := uc_update now c (set_one fam m) in
      let* '(_, ns, c) := ut_check_threshold tree c (set_one fam m) in
      let* '(ns', c) := feed tree now c fam ms in ret (ns ++ ns', c)
  end.

(** The entry of a gauge. *)
Definition gauge_ok ce : Prop := history_ok ce ∧ tv_type (values_raw ce) = METRIC_TYPE_GAUGE.
Definition old_state (o : option cache_entry_t) : Z * Z :=
  match o with None => (STATE_UNKNOWN, 0) | Some ce => (state ce, hits ce) end.

Lemma entry_insert nm ce l : Spec.sorted l → Spec.get nm l = None → entry_set nm ce l (Spec.insert nm ce l).
Proof.
  intros Hs Hg. split; [by rewrite spec_get_insert, compare_refl by done|]. intros k Hk. rewrite spec_get_insert by done.
  destruct (Z.eqb_spec (compare k nm) 0) as [E|]; [|done]. by apply (compare_eq k nm) in E.
Qed.

Lemma stamped_gauge now m ce : gauge_ok ce → gauge_ok (stamped now m ce).
Proof.
  intros [Hh Ht]. split; [|done]. unfold history_ok, stamped in *. simpl. destruct (history ce) as [h|]; simpl in *; [|done].
  destruct Hh as [Hl Hi]. rewrite length_insert. split; [done|]. apply Nat.mod_upper_bound. lia.
Qed.

Lemma gauge_update now c l fam m key g : holds c l → keyed fam m key → type fam = METRIC_TYPE_GAUGE → m_value m = v_gauge g →
  (∀ ce, Spec.get key l = Some ce → gauge_ok ce ∧ last_time ce < time m) →
  ∃ c' l' ce' ev, uc_update now c (set_one fam m) ⇓ (0, ev, c') ∧ holds c' l' ∧ entry_set key ce' l l' ∧
    values_gauge ce' = g ∧ last_time ce' = time m ∧ gauge_ok ce' ∧ (state ce', hits ce') = old_state (Spec.get key l).
Proof.
  intros Hh Hk Ht Hv Hce.
  assert (∀ ev c', uc_update_metric now c (set_one fam m) m ⇓ (0, ev, c') →
    uc_update now c (set_one fam m) ⇓ (0, ev ++ [], c')) as Hrun.
  { intros ev c' E. unfold uc_update. cbn [metric set_one set_metrics update_loop]. by eapply yields_bind. }
  destruct (Spec.get key l) as [ce|] eqn:Hg.
  - destruct (Hce ce eq_refl) as [Hok Hlt].
    set (ce1 := set_values ce g (v_gauge g) (distribution_increase ce) (start_value ce) (start_time ce)).
    assert (update_values (type (set_one fam m)) m ce ⇓ (0, ce1)) as Hu.
    { cbn [type set_one set_metrics]. rewrite Ht. cbn [update_values]. by rewrite Hv. }
    assert (gauge_ok ce1) as Hok1 by exact Hok.
    destruct (update_existing now c l (set_one fam m) m key ce ce1 Hh Hk Hg Hlt Hu (proj1 Hok1)) as (c' & E & Hh').
    eexists c', _, _, _. split_and!; [by apply Hrun|exact Hh'|by apply (entry_update key ce (λ _, stamped now m ce1))|done..| |done].
    by apply stamped_gauge.
  - destruct (update_new now c l (set_one fam m) m key Hh Hk Hg) as (c' & E & Hh').
    { cbn [type set_one set_metrics]. rewrite Ht. by exists g. }
    eexists c', _, _, _. split_and!; [by apply Hrun|exact Hh'|apply entry_insert; [by eapply holds_sorted|done]|..];
      cbn [type set_one set_metrics]; rewrite Ht; try done. simpl. by rewrite Hv.
Qed.

(** The times and severities of the notifications for a sequence of times and
    values, from the state and hits [s]. *)
Fixpoint notified ths (s : Z * Z) (tvs : list (Z * double)) : list (Z * Z) :=
  match tvs with
  | [] => []
  | (t, v) :: tvs =>
      match observe ths s v with
      | (o, s) => match o with None => [] | Some (_, new) => [(t, report_severity new)] end ++ notified ths s tvs
      end
  end.

Lemma observe_inv ths s v : s.1 ≠ STATE_MISSING → 0 ≤ s.2 →
  (observe ths s v).2.1 ≠ STATE_MISSING ∧ 0 ≤ (observe ths s v).2.2.
Proof.
  intros Hs Hh. unfold observe. destruct (worst _ _ _) as [th|]; [|done]. unfold report, hits_step.
  destruct (classify_cases th s.1 v) as [->|[->| ->]]; repeat case_match; simplify_eq/=; (done || lia).
Qed.

Definition tree_has (tree : option (T (list threshold_t))) nm ths : Prop :=
  ∃ t, tree = Some t ∧ km_ok t ∧ Spec.get nm (km_iterate t) = Some ths ∧ ths ≠ [].

Lemma check_threshold_ok tree c fam nm m ths ns c' : tree_has tree nm ths → fam_name fam = Some nm →
  ut_check_metric_threshold c (set_one fam m) m ths ⇓ (0, ns, c') →
  ut_check_threshold tree c (set_one fam m) ⇓ (0, ns, c').
Proof.
  intros (t & -> & Hok & Hg & Hne) Hn E. unfold ut_check_threshold, threshold_get. cbn [fam_name set_one set_metrics].
  rewrite Hn. cbn [mopt]. rewrite bind_ret, km_get_ok, Hg by done. destruct ths as [|th ths]; [done|].
  cbn [metric set_one set_metrics check_metrics]. eapply (yields_bind _ _ (ns, c')); [|done].
  eapply yields_bind; [exact E|]. cbv beta iota. by rewrite bind_ret, app_nil_r.
Qed.

Definition sample (kv : list (cstr * cstr)) m (tv : Z * double) : Prop :=
  label m = embed kv ∧ time m = tv.1 ∧ m_value m = v_gauge tv.2.
Definition before (a b : Z * double) : Prop := a.1 < b.1.
Definition entry_ok (tvs : list (Z * double)) ce : Prop :=
  gauge_ok ce ∧ state ce ≠ STATE_MISSING ∧ 0 ≤ hits ce ∧ Forall (λ tv, last_time ce < tv.1) tvs.
Definition stamp (n : notification_t) : Z * Z := (n_time n, severity n).
Definition about fam (kv : list (cstr * cstr)) (n : notification_t) : Prop := n_name n = fam_name fam ∧ n_label n = embed kv.

Section feed.
Context (tree : option (T (list threshold_t))) (fam : metric_family_t) (nm : cstr) (kv : list (cstr * cstr))
  (ths : list threshold_t) (Htree : tree_has tree nm ths) (Hok : Forall th_ok ths)
  (Hname : fam_name fam = Some nm) (Hvalid : valid_name nm) (Hkv : lwf kv) (Htype : type fam = METRIC_TYPE_GAUGE).

Lemma feed_ok now tvs : ∀ ms c l, holds c l → Forall2 (sample kv) ms tvs → StronglySorted before tvs →
  (∀ ce, Spec.get (identity_text nm kv) l = Some ce → entry_ok tvs ce) →
  ∃ ns c', feed tree now c fam ms ⇓ (ns, c') ∧ Forall (about fam kv) ns ∧
    map stamp ns = notified (filter (λ th, matches kv th = true) ths) (old_state (Spec.get (identity_text nm kv) l)) tvs.
Proof.
  set (key := identity_text nm kv).
  induction tvs as [|[t v] tvs IH]; intros ms c l Hh Hms Hsort Hce; inversion Hms as [|m ? ms' ? [Hl [Ht Hv]] Hms']; subst;
    [by exists [], c|]. cbn [fst snd] in *. apply StronglySorted_inv in Hsort as [Hsort Hlt].
  assert (keyed fam m key) as Hk by by exists nm, kv.
  destruct (gauge_update now c l fam m key v Hh Hk Htype Hv) as (c1 & l1 & ce1 & ev & E1 & Hh1 & [Hg1 _] & Hv1 & Ht1 & Hok1 & Hst1).
  { intros ce Hg. destruct (Hce ce Hg) as (Hg1 & _ & _ & [Hlt1 _]%Forall_cons_1). split; [done|]. rewrite Ht. exact Hlt1. }
  assert (state ce1 ≠ STATE_MISSING ∧ 0 ≤ hits ce1) as [Hm1 Hp1].
  { destruct (Spec.get key l) as [ce|] eqn:Hg; injection Hst1 as -> ->; [|done]. by destruct (Hce ce eq_refl) as (_ & ? & ? & _). }
  assert (tv_type (values_raw ce1) ≠ METRIC_TYPE_DISTRIBUTION) as Hty1 by by rewrite (proj2 Hok1).
  pose proof (check_metric_ok c1 l1 (set_one fam m) m kv key ce1 ths Hh1 (conj Hk (conj Hl Hkv)) Hg1 Hm1 Hty1 Hp1 Hok) as Hcheck.
  cbn [notified]. rewrite <-Hst1. rewrite Hv1 in Hcheck.
  pose proof (observe_inv (filter (λ th, matches kv th = true) ths) (state ce1, hits ce1) v Hm1 Hp1) as Hinv.
  destruct (observe _ _ _) as [o s]. destruct Hcheck as (c2 & l2 & E2 & Hh2 & [Hg2 _]).
  destruct (IH ms' c2 l2 Hh2 Hms' Hsort) as (ns & c3 & E3 & Hab & Hns).
  { intros ce. rewrite Hg2. intros [= <-]. split_and!; [exact Hok1|apply Hinv|apply Hinv|]. cbn [last_time set_state set_hits].
    rewrite Ht1, Ht. exact Hlt. }
  exists (sent (set_one fam m) m key v (state ce1) o ++ ns), c3. split_and!.
  - cbn [feed]. eapply yields_bind; [exact E1|]. cbv beta iota.
    eapply yields_bind; [by eapply check_threshold_ok|]. cbv beta iota. by eapply yields_bind.
  - apply Forall_app. split; [|done]. destruct o as [[th new]|]; [|constructor]. apply Forall_singleton. done.
  - rewrite map_app, Hns, Hg2. destruct o as [[th new]|]; [|by destruct s]. cbn [sent map app]. unfold stamp at 1.
    cbn [n_time severity reported]. rewrite Ht. by destruct s.
Qed.

End feed.

(** *** One threshold *)

(** The state of every value, each seen from the one before. *)
Fixpoint states th (prev : Z) (tvs : list (Z * double)) : list (Z * Z) :=
  match tvs with
  | [] => []
  | (t, v) :: tvs => let s := classify th prev v in (t, s) :: states th s tvs
  end.
(** The times and severities where it changes. *)
Fixpoint changes (prev : Z) (l : list (Z * Z)) : list (Z * Z) :=
  match l with
  | [] => []
  | (t, s) :: l => if s =? prev then changes prev l else (t, report_severity s) :: changes s l
  end.

Lemma notified_changes th st h tvs : th_hits th = 0 → flag th UT_FLAG_PERSIST = false →
  notified [th] (st, h) tvs = changes st (states th st tvs).
Proof.
  intros Hz Hp. revert st. induction tvs as [|[t v] tvs IH]; intros st; [done|].
  cbn [notified states changes]. unfold observe, worst, report, hits_step, repeats. cbn [foldl worse fst snd].
  rewrite Hz, Hp. cbn [Z.eqb andb]. destruct (Z.eqb_spec (classify th st v) st) as [->|]; simpl; by rewrite IH.
Qed.

(** Values that are not okay, before enough hits: nothing is sent. *)
Lemma notified_waits th pre : ∀ h rest, 0 ≤ h → th_hits th ≠ 0 →
  Forall (λ tv, classify th STATE_UNKNOWN tv.2 ≠ STATE_OKAY) pre → h + Z.of_nat (length pre) ≤ th_hits th + 1 →
  notified [th] (STATE_UNKNOWN, h) (pre ++ rest) = notified [th] (STATE_UNKNOWN, h + Z.of_nat (length pre)) rest.
Proof.
  induction pre as [|[t v] pre IH]; intros h rest Hh Hz Hbad Hlen; [by rewrite Z.add_0_r|].
  apply Forall_cons_1 in Hbad as [Hv Hbad]. rewrite length_cons in Hlen |- *. cbn [app notified].
  unfold observe, worst, report, hits_step. cbn [foldl worse fst snd] in *.
  rewrite (proj2 (Z.eqb_neq _ _) Hz), (proj2 (Z.eqb_neq _ _) Hv), (proj2 (Z.ltb_ge (th_hits th) h)) by lia. cbn [andb orb app].
  rewrite IH by (done || lia). do 2 f_equal. lia.
Qed.

Section one.
Context (tree : option (T (list threshold_t))) (fam : metric_family_t) (nm : cstr) (kv : list (cstr * cstr))
  (th : threshold_t) (Htree : tree_has tree nm [th]) (Hok : th_ok th) (Hmatch : matches kv th = true)
  (Hname : fam_name fam = Some nm) (Hvalid : valid_name nm) (Hkv : lwf kv) (Htype : type fam = METRIC_TYPE_GAUGE).

Lemma feed_new now tvs ms c l : holds c l → Spec.get (identity_text nm kv) l = None →
  Forall2 (sample kv) ms tvs → StronglySorted before tvs →
  ∃ ns c', feed tree now c fam ms ⇓ (ns, c') ∧ Forall (about fam kv) ns ∧ map stamp ns = notified [th] (STATE_UNKNOWN, 0) tvs.
Proof.
  intros Hh Hg Hms Hs. destruct (feed_ok tree fam nm kv [th] Htree) with (now := now) (tvs := tvs) (ms := ms) (c := c) (l := l)
    as (ns & c' & E & Ha & Hn); try done; [by apply Forall_singleton|by rewrite Hg|].
  exists ns, c'. split_and!; [done..|]. by rewrite Hn, Hg, filter_cons_True by done.
Qed.

(** A threshold without Hits and Persist notifies exactly when the state
    of a new metric changes (first from unknown), with hysteresis or without. *)
Theorem threshold_notifies_changes now tvs ms c l : th_hits th = 0 → flag th UT_FLAG_PERSIST = false →
  holds c l → Spec.get (identity_text nm kv) l = None → Forall2 (sample kv) ms tvs → StronglySorted before tvs →
  ∃ ns c', feed tree now c fam ms ⇓ (ns, c') ∧ Forall (about fam kv) ns ∧
    map stamp ns = changes STATE_UNKNOWN (states th STATE_UNKNOWN tvs).
Proof. intros Hz Hp Hh Hg Hms Hs. rewrite <-(notified_changes th STATE_UNKNOWN 0) by done. by apply feed_new with l. Qed.

(** Values in the acceptable range give a single notification when Persist is
    off, PersistOK or not: PersistOK has no effect of its own, while the manual
    says that it gives a notification for each of them. *)
Theorem persist_ok_alone now t v tvs ms c l : th_hits th = 0 → flag th UT_FLAG_PERSIST = false →
  Forall (λ tv, ∀ prev, classify th prev tv.2 = STATE_OKAY) ((t, v) :: tvs) →
  holds c l → Spec.get (identity_text nm kv) l = None → Forall2 (sample kv) ms ((t, v) :: tvs) → StronglySorted before ((t, v) :: tvs) →
  ∃ ns c', feed tree now c fam ms ⇓ (ns, c') ∧ map stamp ns = [(t, report_severity STATE_OKAY)].
Proof.
  intros Hz Hp Hin Hc Hg Hms Hs. destruct (feed_new now _ ms c l Hc Hg Hms Hs) as (ns & c' & E & _ & Hn).
  exists ns, c'. split; [done|]. rewrite Hn, notified_changes by done. apply Forall_cons_1 in Hin as [Hv Hin]. cbn [snd] in Hv.
  cbn [states changes]. rewrite Hv.
  assert (changes STATE_OKAY (states th STATE_OKAY tvs) = []) as ->; [|done].
  clear -Hin. induction Hin as [|[t v] tvs Hv _ IH]; [done|]. cbn [states changes]. by rewrite Hv, IH.
Qed.

(** With [Hits h], [h + 1] values that are not okay pass without a
    notification and the next one gives the first: not the [h]-th, as the
    manual says. *)
Theorem threshold_hits_delay now pre t v ms c l : 0 < th_hits th → Z.of_nat (length pre) = th_hits th + 1 →
  Forall (λ tv, classify th STATE_UNKNOWN tv.2 ≠ STATE_OKAY) (pre ++ [(t, v)]) →
  holds c l → Spec.get (identity_text nm kv) l = None → Forall2 (sample kv) ms (pre ++ [(t, v)]) →
  StronglySorted before (pre ++ [(t, v)]) →
  ∃ ns c', feed tree now c fam ms ⇓ (ns, c') ∧ map stamp ns = [(t, report_severity (classify th STATE_UNKNOWN v))].
Proof.
  intros Hh Hlen Hbad Hc Hg Hms Hs. destruct (feed_new now _ ms c l Hc Hg Hms Hs) as (ns & c' & E & _ & Hn).
  exists ns, c'. split; [done|]. rewrite Hn. apply Forall_app in Hbad as [Hpre [Hv _]%Forall_cons_1]. cbn [snd] in Hv.
  rewrite notified_waits by (done || lia). cbn [notified]. unfold observe, worst, report, hits_step. cbn [foldl worse fst snd].
  rewrite (proj2 (Z.eqb_neq (th_hits th) 0)), (proj2 (Z.eqb_neq _ _) Hv), (proj2 (Z.ltb_lt (th_hits th) _)) by lia.
  cbn [andb orb]. pose proof (classify_pos th STATE_UNKNOWN v).
  rewrite (proj2 (Z.eqb_neq _ STATE_UNKNOWN)) by (unfold STATE_UNKNOWN in *; lia). done.
Qed.
End one.

(** With [Invert] and no failure range every value fails: the manual inverts
    only the ranges that are given. *)
Theorem invert_without_failure_range c l key ce th v : holds c l → Spec.get key l = Some ce →
  flag th UT_FLAG_INVERT = true → failure_min th = NAN → failure_max th = NAN →
  ut_check_one_threshold c key th v ⇓ (STATE_ERROR, c).
Proof.
  intros Hh Hg Hi Hmin Hmax. replace STATE_ERROR with (classify th (state ce) v); [by eapply check_one_ok|].
  unfold classify, fails, outside, outside_narrowed. rewrite Hi, Hmin, Hmax. by destruct (flt fzero _).
Qed.

(** ** The configuration *)

Definition tree_ok (t : T (list threshold_t)) : Prop :=
  km_ok t ∧ ∀ k ths, Spec.get k (km_iterate t) = Some ths → ths ≠ [].

Lemma threshold_get_ok (t : T (list threshold_t)) k : km_ok t → threshold_get t k = default [] (Spec.get k (km_iterate t)).
Proof. intros Hok. unfold threshold_get. rewrite km_get_ok by done. by destruct (Spec.get k _). Qed.

Lemma compare_dec (a b : cstr) : (compare a b =? 0) = bool_decide (a = b).
Proof. apply eq_true_iff_eq. rewrite Z.eqb_eq, bool_decide_eq_true. apply compare_eq. Qed.

Lemma threshold_add_ok (t : T (list threshold_t)) th : tree_ok t →
  ∃ t', ut_threshold_add t th ⇓ (0, t') ∧ tree_ok t' ∧
    ∀ k, threshold_get t' k = threshold_get t k ++ if decide (th_name th = k) then [th] else [].
Proof.
  intros [Hok Hne]. unfold ut_threshold_add. rewrite threshold_get_ok by done.
  destruct (Spec.get (th_name th) (km_iterate t)) as [ths|] eqn:Hg.
  - destruct (km_update_ok t (th_name th) (λ ths, ths ++ [th]) Hok) as [Hok' Hit].
    exists (km_update t (th_name th) (λ ths, ths ++ [th])). split; [|split; [split; [done|]|]].
    + eapply yields_bind; [apply yields_alloc|]. simpl. pose proof (Hne _ _ Hg). by destruct ths.
    + intros k x. rewrite Hit, spec_get_update. destruct (_ =? _); [|apply Hne]. intros (y & _ & ->)%fmap_Some. by destruct y.
    + intros k. rewrite !threshold_get_ok, Hit, spec_get_update, compare_dec by done. case_bool_decide as E.
      * subst k. by rewrite Hg, decide_True by done.
      * by rewrite decide_False, app_nil_r by congruence.
  - destruct (km_insert_new t (th_name th) [th] Hok Hg) as (t' & Hi & Hok' & Hit).
    pose proof (km_sorted t Hok) as Hs. exists t'. split; [|split; [split; [done|]|]].
    + eapply yields_bind; [apply yields_alloc|]. simpl. eapply yields_bind; [apply yields_alloc|]. by rewrite Hi.
    + intros k x. rewrite Hit, spec_get_insert by done. destruct (_ =? _); [by intros [= <-]|apply Hne].
    + intros k. rewrite !threshold_get_ok, Hit, spec_get_insert, compare_dec by done. case_bool_decide as E.
      * subst k. by rewrite Hg, decide_True by done.
      * by rewrite decide_False, app_nil_r by congruence.
Qed.

(** A block [Metric] whose options describe the threshold. *)
Definition describes (block : oconfig_item_t) th : Prop :=
  strcasecmp $"Metric" (key block) = 0 ∧ values block = [OCONFIG_TYPE_STRING (th_name th)] ∧ children block ≠ [] ∧
  metric_options (children block) (new_threshold (th_name th)) ⇓ (0, th).

Lemma config_metric_ok (t : T (list threshold_t)) block th t' : describes block th → ut_threshold_add t th ⇓ (0, t') →
  ut_config_metric t block ⇓ (0, t').
Proof.
  intros (_ & Hv & Hc & Ho) Ha. unfold ut_config_metric. rewrite Hv.
  destruct (children block) as [|x xs] eqn:E; [done|]. cbn [length Nat.ltb Nat.leb].
  do 2 (eapply yields_bind; [apply yields_alloc|]; cbn [negb]).
  eapply yields_bind; [exact Ho|]. cbv beta iota. cbn [Z.eqb]. by eapply yields_bind.
Qed.

Lemma config_loop_ok blocks ths : Forall2 describes blocks ths → ∀ t : T (list threshold_t), tree_ok t →
  ∃ t', config_loop t blocks 0 ⇓ (0, t') ∧ tree_ok t' ∧
    ∀ k, threshold_get t' k = threshold_get t k ++ filter (λ th, th_name th = k) ths.
Proof.
  induction 1 as [|block th blocks ths Hb _ IH]; intros t Hok.
  { exists t. split_and!; [done|done|]. intros k. by rewrite app_nil_r. }
  destruct (threshold_add_ok t th Hok) as (t1 & E1 & Hok1 & Hg1). destruct (IH t1 Hok1) as (t2 & E2 & Hok2 & Hg2).
  exists t2. split_and!; [|done|].
  - cbn [config_loop]. unfold is_key. rewrite (proj1 Hb). cbn [Z.eqb].
    eapply yields_bind; [by eapply config_metric_ok|]. exact E2.
  - intros k. rewrite Hg2, Hg1, filter_cons, <-app_assoc. by case_decide.
Qed.

Lemma tree_ok_create : tree_ok (km_create (V := list threshold_t)) ∧ ∀ k, threshold_get (km_create (V := list threshold_t)) k = [].
Proof.
  destruct (km_create_ok (T := T) (V := list threshold_t)) as [Hok Hi]. split; [split; [done|]|]; [by rewrite Hi|].
  intros k. by rewrite threshold_get_ok, Hi.
Qed.

Section config.
Context {CB D : Type}.
Implicit Types r : registry CB D.

Lemma registers r ctx name cb kv : reg_repr r kv →
  ∃ r', create_register_callback r ctx (Some name) (Some cb) None ⇓ (0, r') ∧
    reg_repr r' (upsert name (mk_cf cb (mk_ud None false) ctx) kv).
Proof.
  intros Hr. destruct (create_register_ok r ctx name cb None kv Hr) as [r' Hy]. exists r'. split; [done|].
  by pose proof (wp_at _ _ _ (create_register_wp r ctx name cb None kv Hr) Hy) as (_ & ? & _).
Qed.

(** The first configuration with well-formed blocks keeps, for every family
    name, exactly its thresholds in the order of the file, and registers the
    two callbacks of the plugin. *)
Theorem ut_config_spec ctx missing_cb write_cb (s : ut_state T CB D) ci ths km kw :
  threshold_tree s = None → Forall2 describes (children ci) ths → ths ≠ [] →
  reg_repr (list_missing s) km → reg_repr (list_write s) kw →
  ∃ t lm lw, ut_config ctx missing_cb write_cb s ci ⇓ (0, mk_ut (Some t) lm lw) ∧
    (∀ k, threshold_get t k = filter (λ th, th_name th = k) ths) ∧
    reg_repr lm (upsert $"threshold" (mk_cf missing_cb (mk_ud None false) ctx) km) ∧
    reg_repr lw (upsert $"threshold" (mk_cf write_cb (mk_ud None false) ctx) kw).
Proof.
  intros Ht Hb Hne Hm Hw. destruct tree_ok_create as [Hok0 Hg0].
  destruct (config_loop_ok _ _ Hb _ Hok0) as (t & E & [Hok _] & Hg).
  destruct (registers _ ctx $"threshold" missing_cb _ Hm) as (lm & Em & Hm').
  destruct (registers _ ctx $"threshold" write_cb _ Hw) as (lw & Ew & Hw').
  assert (∀ k, threshold_get t k = filter (λ th, th_name th = k) ths) as Hall by (intros k; by rewrite Hg, Hg0).
  exists t, lm, lw. split_and!; [|done..]. unfold ut_config, tree_size. rewrite Ht. eapply yields_bind; [exact eq_refl|].
  cbv beta iota. eapply yields_bind; [exact E|]. cbv beta iota. cbn [Z.eqb andb].
  assert (0 < km_size t) as Hlt%Z.ltb_lt.
  { rewrite km_size_ok by done. destruct ths as [|th ths]; [done|]. specialize (Hall (th_name th)).
    rewrite threshold_get_ok, filter_cons_True in Hall by done. destruct (km_iterate t); [done|]. rewrite length_cons. lia. }
  rewrite Hlt. eapply yields_bind; [exact Em|]. cbv beta iota. by eapply yields_bind.
Qed.
End config.

(** ** Missing metrics *)

Section missing.
Context `{FormatFixed3} (Hfix : ∀ x, no_nul (format_fixed3 x)).

Definition missing_text (now : Z) m key : cstr :=
  key ++ $" has not been updated for " ++ format_fixed3 (CDTIME_T_TO_DOUBLE (u64 (now - time m))) ++ $" seconds.".
Definition missing_reported (now : Z) fam m key : notification_t :=
  mk_notif NOTIF_FAILURE now (fam_name fam) (label m) (embed (put [] $"summary" (missing_text now m key))) None.

Definition interesting (kv : list (cstr * cstr)) th : bool := matches kv th && flag th UT_FLAG_INTERESTING.

Lemma interesting_loop_ok m kv ths : label m = embed kv → Spec.sorted kv → Forall th_ok ths →
  interesting_loop m ths = ret (existsb (interesting kv) ths).
Proof.
  intros Hl Hs. induction 1 as [|th ths [_ Hth] _ IH]; [done|]. cbn [interesting_loop existsb].
  rewrite (labels_match_ok m kv) by done. rewrite bind_ret. fold (matches kv th). fold (interesting kv th).
  by destruct (interesting kv th).
Qed.

Definition missing_sent (now : Z) fam nm ths m kv : list notification_t :=
  if existsb (interesting kv) ths then [missing_reported now fam m (identity_text nm kv)] else [].

Lemma metric_missing_ok now fam nm m kv ths : fam_name fam = Some nm → valid_name nm → label m = embed kv → lwf kv →
  Forall th_ok ths → ut_metric_missing now fam m ths ⇓ missing_sent now fam nm ths m kv.
Proof.
  intros Hn Hv Hl Hw Hok. unfold ut_metric_missing, missing_sent. rewrite (interesting_loop_ok m kv), bind_ret by (done || apply Hw).
  destruct (existsb _ _); [|done]. cbn [negb]. set (key := identity_text nm kv).
  assert (keyed fam m key) as Hk by by exists nm, kv. destruct (key_no_nul _ _ _ Hk) as [Hkne Hknul].
  apply (key_of fam m key); [done|]. intros b Hb. cbn [negb Z.eqb]. rewrite Hb. cbn [mopt]. rewrite bind_ret.
  eapply yields_bind; [by eapply init_metric_ok|]. cbv beta iota. fold (missing_text now m key).
  assert (missing_text now m key ≠ []) as Hsne by (unfold missing_text; by destruct key).
  assert (no_nul (missing_text now m key)) as Hsn.
  { unfold missing_text. apply Forall_app; split; [done|]. apply Forall_app; split; [by apply (bool_decide_unpack _)|].
    apply Forall_app; split; [apply Hfix|by apply (bool_decide_unpack _)]. }
  destruct (printf_appends (missing_text now m key) _ (proj1 dynamic_create)) as (b2 & E2 & D2 & T2).
  eapply yields_bind; [exact E2|]. cbv beta iota. rewrite (proj2 dynamic_create) in T2. cbn [app] in T2.
  rewrite (dynamic_c_str b2), T2 by (done || by rewrite T2).
  apply (annotation_bind _ []); [done|by split; constructor|done|done|done|]. intros _. cbv beta iota zeta.
  unfold notification_reset, missing_reported. cbn [n_label annotation set_annotations severity n_name n_meta].
  by rewrite Hl, !reset_embed, !bind_ret.
Qed.

(** When metrics go missing, one failure notification is sent for each that
    an interesting threshold of the family matches, and for no other. *)
Theorem ut_missing_spec now (t : T (list threshold_t)) fam nm kvs : km_ok t → Forall th_ok (threshold_get t nm) →
  fam_name fam = Some nm → valid_name nm → Forall2 (λ m kv, label m = embed kv ∧ lwf kv) (metric fam) kvs →
  ut_missing now (Some t) fam ⇓ (0, concat (zip_with (missing_sent now fam nm (threshold_get t nm)) (metric fam) kvs)).
Proof.
  intros Hok Hths Hn Hv Hms. unfold ut_missing. rewrite Hn. cbn [mopt]. rewrite bind_ret.
  eapply yields_bind; [|done]. generalize dependent (metric fam). intros ms Hms.
  induction Hms as [|m kv ms kvs [Hl Hw] _ IH]; [done|]. cbn [missing_metrics zip_with concat].
  eapply yields_bind; [by apply metric_missing_ok|]. by eapply yields_bind.
Qed.
End missing.
End laws.

(** ** Witnesses *)

#[local] Existing Instances Avl.avl_map Avl.avl_laws.
#[local] Instance demo_sysconf : Sysconf := 4096.
#[local] Instance demo_format_gauge : MetaData.FormatGauge := λ _, $"0".
#[local] Instance demo_format_lf : FormatDouble := λ _, $"0".
#[local] Instance demo_fixed3 : FormatFixed3 := λ _, $"1.000".
#[local] Instance demo_format_laws : FormatLaws.
Proof. constructor; intros x; [split; [done|]|]; by apply (bool_decide_unpack _). Qed.

(** Blocks of the configuration, and their thresholds. *)
Definition number_option (k : cstr) (z : Z) : oconfig_item_t := mk_item k [OCONFIG_TYPE_NUMBER (of_Z z)] [].
Definition load_block : oconfig_item_t :=
  mk_item $"metric" [OCONFIG_TYPE_STRING $"load"]
    [number_option $"WarningMax" 4; number_option $"failuremax" 10; number_option $"Hysteresis" 1].
Definition hits_block : oconfig_item_t :=
  mk_item $"Metric" [OCONFIG_TYPE_STRING $"load"] [number_option $"WarningMax" 4; number_option $"Hits" 1].
Definition load_threshold : threshold_t :=
  mk_th $"load" [] NAN (of_Z 4) NAN (of_Z 10) (of_Z 1) UT_FLAG_INTERESTING 0.
Definition hits_threshold : threshold_t :=
  mk_th $"load" [] NAN (of_Z 4) NAN NAN fzero UT_FLAG_INTERESTING 1.

Lemma load_described : describes load_block load_threshold.
Proof. by split_and!. Qed.
Lemma hits_described : describes hits_block hits_threshold.
Proof. by split_and!. Qed.
Lemma load_th_ok : th_ok load_threshold.
Proof. split; [done|constructor]. Qed.
Lemma hits_th_ok : th_ok hits_threshold.
Proof. split; [done|constructor]. Qed.

Definition load_family : metric_family_t := mk_family (Some $"load") None METRIC_TYPE_GAUGE [].
Definition load_metric (tv : Z * double) : metric_t := mk_metric [] (v_gauge tv.2) tv.1 10 None.
Definition load_values : list (Z * double) := [(1, of_Z 1); (2, of_Z 12); (3, of_Z 11); (4, of_Z 8); (5, of_Z 3)].

Lemma load_samples tvs : Forall2 (sample []) (map load_metric tvs) tvs.
Proof. induction tvs; by constructor. Qed.
Lemma load_name : valid_name $"load".
Proof. split; [done|by apply (bool_decide_unpack _)]. Qed.

Definition tree_of ths : Avl.c_avl_tree cstr (list threshold_t) := Avl.mk_avl (Avl.Node $"load" ths 1 Avl.Null Avl.Null) 1.
Lemma tree_of_has ths : ths ≠ [] → tree_has (Some (tree_of ths)) $"load" ths.
Proof.
  intros Hne. exists (tree_of ths). split_and!; [done| |done|done]. split; [by vm_compute|repeat constructor|done].
Qed.
Definition no_entries : cache (Avl.c_avl_tree cstr) := mk_cache (Some Avl.c_avl_create) false.
Lemma no_entries_hold : holds no_entries [].
Proof. exists Avl.c_avl_create. split_and!; [done| |done|done]. by split; [|constructor|]. Qed.


Lemma threshold_notifies_changes_witness :
  ∃ ns c', feed (Some (tree_of [load_threshold])) 0 no_entries load_family (map load_metric load_values) ⇓ (ns, c') ∧
    Forall (about load_family []) ns ∧
    map stamp ns = [(1, NOTIF_OKAY); (2, NOTIF_FAILURE); (4, NOTIF_WARNING); (5, NOTIF_OKAY)].
Proof.
  apply (threshold_notifies_changes (Some (tree_of [load_threshold])) load_family $"load" [] load_threshold) with (tvs := load_values) (l := []);
    try done; [by apply tree_of_has|..].
  - apply load_name.
  - apply lwf_nil.
  - apply no_entries_hold.
  - apply load_samples.
  - repeat constructor.
Defined.

Definition persist_ok_threshold : threshold_t := set_flags load_threshold (Z.lor UT_FLAG_INTERESTING UT_FLAG_PERSIST_OK).
Definition okay_values : list (Z * double) := [(1, of_Z 1); (2, of_Z 2); (3, of_Z 1)].
Lemma persist_ok_alone_witness : flag persist_ok_threshold UT_FLAG_PERSIST_OK = true ∧
  ∃ ns c', feed (Some (tree_of [persist_ok_threshold])) 0 no_entries load_family (map load_metric okay_values) ⇓ (ns, c') ∧
    map stamp ns = [(1, NOTIF_OKAY)].
Proof.
  split; [done|].
  apply (persist_ok_alone (Some (tree_of [persist_ok_threshold])) load_family $"load" [] persist_ok_threshold) with (v := of_Z 1)
    (tvs := [(2, of_Z 2); (3, of_Z 1)]) (l := []);
    try done; [by apply tree_of_has|..].
  - apply load_name.
  - apply lwf_nil.
  - assert (∀ prev n, n = 1 ∨ n = 2 → classify persist_ok_threshold prev (of_Z n) = STATE_OKAY) as Hc.
    { intros prev n [-> | ->]; unfold classify, narrowed; by destruct (prev =? STATE_ERROR), (prev =? STATE_WARNING). }
    apply Forall_cons_2; [|apply Forall_cons_2; [|apply Forall_cons_2; [|constructor]]]; intros prev; cbn [snd]; apply Hc; lia.
  - apply no_entries_hold.
  - apply (load_samples okay_values).
  - repeat constructor.
Defined.

Definition high_values : list (Z * double) := [(1, of_Z 5); (2, of_Z 6); (3, of_Z 7)].
Lemma threshold_hits_delay_witness :
  ∃ ns c', feed (Some (tree_of [hits_threshold])) 0 no_entries load_family (map load_metric high_values) ⇓ (ns, c') ∧
    map stamp ns = [(3, NOTIF_WARNING)].
Proof.
  apply (threshold_hits_delay (Some (tree_of [hits_threshold])) load_family $"load" [] hits_threshold)
    with (pre := take 2 high_values) (v := of_Z 7) (l := []); try done; [by apply tree_of_has|..].
  - apply load_name.
  - apply lwf_nil.
  - by repeat constructor.
  - apply no_entries_hold.
  - apply (load_samples high_values).
  - repeat constructor.
Defined.

Lemma invert_without_failure_range_witness :
  ut_check_one_threshold (avl_cache $"m" gauge_entry) $"m" (set_flags hits_threshold UT_FLAG_INVERT) fzero
    ⇓ (STATE_ERROR, avl_cache $"m" gauge_entry).
Proof. by apply (invert_without_failure_range _ _ _ gauge_entry _ _ (avl_cache_holds $"m" gauge_entry)). Defined.

Definition empty_registry : registry Z Z := mk_reg ∅ None [].
Lemma empty_registry_repr : reg_repr empty_registry [].
Proof. split; [constructor|]. by exists []. Qed.

Lemma ut_config_spec_witness :
  ∃ t lm lw, ut_config (demo_ctx $"x") 1 2 (mk_ut (T := Avl.c_avl_tree cstr) None empty_registry empty_registry)
      (mk_item $"Plugin" [] [load_block; hits_block]) ⇓ (0, mk_ut (Some t) lm lw) ∧
    (∀ k, threshold_get t k = filter (λ th, th_name th = k) [load_threshold; hits_threshold]) ∧
    reg_repr lm (upsert $"threshold" (mk_cf 1 (mk_ud None false) (demo_ctx $"x")) []) ∧
    reg_repr lw (upsert $"threshold" (mk_cf 2 (mk_ud None false) (demo_ctx $"x")) []).
Proof.
  apply (ut_config_spec (demo_ctx $"x") 1 2); try done; [|apply empty_registry_repr..].
  constructor; [apply load_described|]. constructor; [apply hits_described|constructor].
Defined.

Lemma ut_missing_spec_witness :
  ut_missing 7 (Some (tree_of [load_threshold])) (set_one load_family (load_metric (3, of_Z 1))) ⇓
    (0, [missing_reported 7 load_family (load_metric (3, of_Z 1)) $"load"]).
Proof.
  refine (ut_missing_spec _ 7 (tree_of [load_threshold]) (set_one load_family (load_metric (3, of_Z 1)))
    $"load" [[]] _ _ _ load_name _).
  - intros x. by apply (bool_decide_unpack _).
  - destruct (tree_of_has [load_threshold]) as (t & [= <-] & Hok & _); [done|exact Hok].
  - apply Forall_singleton, load_th_ok.
  - done.
  - constructor; [|constructor]. split; [done|apply lwf_nil].
Defined.
