(* ===== verification/Formats.v ===== *)
(** * Text formats (src/utils/format_graphite/format_graphite.c,
      src/utils/format_openmetrics/format_openmetrics.c)

    Printers on [StrBuf]; rates come from [Cache].  Reading the gauge of a
    value that holds a counter reinterprets its 64 bits, as the union does.
    The text of a gauge is the parameter of MetaData.v. *)

From Stdlib Require Import ZArith Lia Ascii String SpecFloat.
From stdpp Require Import base gmap numbers option list.
From S2P Require Import Prelude MapSpec Double StrBuf LabelSet Metric Cache Commands.
From S2P Require CommonStr Time MetaData Avl.

(** The double with these bits. *)
Definition double_of_bits (b : Z) : double :=
  let s := Z.testbit b 63 in
  let e := Z.land (Z.shiftr b 52) 0x7ff in
  let m := Z.land b 0xfffffffffffff in
  if e =? 0x7ff then if m =? 0 then S754_infinity s else S754_nan
  else if e =? 0 then match m with Z.pos p => S754_finite s p (-1074) | _ => S754_zero s end
  else match m + 2 ^ 52 with Z.pos p => S754_finite s p (e - 1075) | _ => S754_nan end.

(** [value.gauge]; the bits of a pointer are unknown. *)
Definition union_gauge (v : value_t) : M double :=
  match v with
  | v_gauge g => ret g
  | v_counter c => ret (double_of_bits c)
  | v_derive d => ret (double_of_bits (u64 d))
  | v_distribution _ => crash
  end.

(** ** Graphite *)

Definition GRAPHITE_STORE_RATES : Z := 1.
Definition GRAPHITE_SEPARATE_INSTANCES : Z := 2.

Definition GRAPHITE_FORBIDDEN : cstr :=
  [" "%char; TAB; QUOTE; BACKSLASH; ":"%char; "!"%char; ","%char; "/"%char; "("%char; ")"%char; LF; CR].

Section graphite.
Context {T : Type → Type} `{!KeyedMap cstr T} `{Sysconf, MetaData.FormatGauge}.

Definition gr_format_values (buf : strbuf_t) (fam : metric_family_t) (m : metric_t) (rate : double) (store_rate : bool) :
    M (Z * strbuf_t) :=
  let* '(rate, store_rate) :=
    if negb store_rate && (bool_decide (type fam = METRIC_TYPE_GAUGE) || bool_decide (type fam = METRIC_TYPE_UNTYPED))
    then let* g := union_gauge (m_value m) in ret (g, true)
    else ret (rate, store_rate) in
  if store_rate : bool then
    if is_nan rate then strbuf_print buf $"nan"
    else let* g := union_gauge (m_value m) in strbuf_printf buf (MetaData.format_gauge g)
  else if bool_decide (type fam = METRIC_TYPE_COUNTER) then
    let* c := mopt (as_counter (m_value m)) in strbuf_printf buf (CommonStr.decimal c)
  else ret (EINVAL, buf).

(** The loop; [fuel] is the length of the string. *)
Fixpoint print_escaped (fuel : nat) (buf : strbuf_t) (s : cstr) (escape_char : ascii) : M (Z * strbuf_t) :=
  match s with
  | [] => ret (0, buf)
  | _ :: s' =>
      match fuel with
      | O => crash
      | S fuel =>
          let valid_len := strcspn s GRAPHITE_FORBIDDEN in
          if (valid_len =? length s)%nat then strbuf_print buf s
          else if negb (valid_len =? 0)%nat then
            let* '(status, buf) := strbuf_print buf (take valid_len s) in
            if negb (status =? 0) then ret (status, buf) else print_escaped fuel buf (drop valid_len s) escape_char
          else
            let* '(status, buf) := strbuf_print buf (c_str [escape_char]) in
            if negb (status =? 0) then ret (status, buf) else print_escaped fuel buf s' escape_char
      end
  end.

Definition graphite_print_escaped (buf : strbuf_t) (s : option cstr) (escape_char : ascii) : M (Z * strbuf_t) :=
  match s with
  | None => ret (EINVAL, buf)
  | Some s => print_escaped (length s) buf s escape_char
  end.

(** The loop over the labels. *)
Fixpoint graphite_labels (buf : strbuf_t) (ls : label_set_t) (escape_char : ascii) (flags : Z) : M strbuf_t :=
  match ls with
  | [] => ret buf
  | l :: ls =>
      let* buf := pr (λ b, strbuf_print b $".") buf in
      let* buf := pr (λ b, graphite_print_escaped b (LabelSet.name l) escape_char) buf in
      let* buf := pr (λ b, strbuf_print b (if negb (Z.land flags GRAPHITE_SEPARATE_INSTANCES =? 0) then $"." else $"=")) buf in
      let* buf := pr (λ b, graphite_print_escaped b (LabelSet.value l) escape_char) buf in
      graphite_labels buf ls escape_char flags
  end.

Definition print_opt (s : option cstr) (buf : strbuf_t) : M strbuf_t :=
  match s with None => ret buf | Some s => pr (λ b, strbuf_print b s) buf end.

Definition gr_format_name (buf : strbuf_t) (fam : metric_family_t) (m : metric_t) (prefix suffix : option cstr)
    (escape_char : ascii) (flags : Z) : M strbuf_t :=
  let* buf := print_opt prefix buf in
  let* buf := pr (λ b, graphite_print_escaped b (fam_name fam) escape_char) buf in
  let* buf := print_opt suffix buf in
  graphite_labels buf (label m) escape_char flags.

Definition format_graphite (c : cache T) (buf : strbuf_t) (fam : metric_family_t) (m : metric_t)
    (prefix postfix : option cstr) (escape_char : ascii) (flags : Z) : M (Z * strbuf_t * cache T) :=
  let* '(status, rate, store_rate, c) :=
    if negb (Z.land flags GRAPHITE_STORE_RATES =? 0) then
      let* '(status, rate, c) := uc_get_rate c fam m in ret (status, default NAN rate, true, c)
    else ret (0, NAN, false, c) in
  if negb (status =? 0) then ret (-1, buf, c)
  else
    let* buf := gr_format_name buf fam m prefix postfix escape_char flags in
    let* buf := pr (λ b, strbuf_print b $" ") buf in
    let* '(status, buf) := gr_format_values buf fam m rate store_rate in
    if negb (status =? 0) then ret (status, buf, c)
    else
      let* '(status, buf) :=
        strbuf_printf buf ($" " ++ CommonStr.decimal (u64 (Time.CDTIME_T_TO_TIME_T (time m))) ++ [CR; LF]) in
      ret (status, buf, c).
End graphite.

(** ** OpenMetrics *)

Section openmetrics.
Context `{Sysconf, MetaData.FormatGauge}.

(** [status = status | f (buf)] *)
Definition also (f : strbuf_t → M (Z * strbuf_t)) (sb : Z * strbuf_t) : M (Z * strbuf_t) :=
  let* '(st, buf) := f sb.2 in ret (Z.lor sb.1 st, buf).

Definition type_name (ty : metric_type_t) : option cstr :=
  match ty with
  | METRIC_TYPE_GAUGE => Some $"gauge"
  | METRIC_TYPE_COUNTER => Some $"counter"
  | METRIC_TYPE_UNTYPED => Some $"untyped"
  | METRIC_TYPE_DISTRIBUTION => None
  end.

Fixpoint openmetrics_loop (fam : metric_family_t) (ms : list metric_t) (sb : Z * strbuf_t) : M (Z * strbuf_t) :=
  match ms with
  | [] => ret sb
  | m :: ms =>
      let* sb := also (λ b, metric_identity b (Some fam) m) sb in
      let* sb :=
        if bool_decide (type fam = METRIC_TYPE_COUNTER) then
          let* c := mopt (as_counter (m_value m)) in also (λ b, strbuf_printf b ($" " ++ CommonStr.decimal c)) sb
        else let* g := union_gauge (m_value m) in also (λ b, strbuf_printf b ($" " ++ MetaData.format_gauge g)) sb in
      let* sb :=
        if 0 <? time m then
          also (λ b, strbuf_printf b ($" " ++ CommonStr.decimal_signed (i64 (Time.CDTIME_T_TO_MS (time m))) ++ [LF])) sb
        else also (λ b, strbuf_printf b [LF]) sb in
      openmetrics_loop fam ms sb
  end.

(** The name is not NULL. *)
Definition format_openmetrics_metric_family (buf : strbuf_t) (fam : metric_family_t) : M (Z * strbuf_t) :=
  if (length (metric fam) =? 0)%nat then ret (0, buf)
  else
    match type_name (type fam) with
    | None => ret (EINVAL, buf)
    | Some ty =>
        let* nm := mopt (fam_name fam) in
        let* sb :=
          match help fam with
          | None => also (λ b, strbuf_printf b ($"# HELP " ++ nm ++ [LF])) (0, buf)
          | Some h => also (λ b, strbuf_printf b ($"# HELP " ++ nm ++ $" " ++ h ++ [LF])) (0, buf)
          end in
        let* sb := also (λ b, strbuf_printf b ($"# TYPE " ++ nm ++ $" " ++ ty ++ [LF])) sb in
        openmetrics_loop fam (metric fam) sb
    end.
End openmetrics.

(** ** Graphite: one line *)

Definition gr_escape (e : ascii) (s : cstr) : cstr := map (λ c, if chr_mem GRAPHITE_FORBIDDEN c then e else c) s.

Lemma gr_escape_plain e s : Forall (λ c, negb (chr_mem GRAPHITE_FORBIDDEN c) = true) s → gr_escape e s = s.
Proof.
  induction 1 as [|c s Hc _ IH]; [done|]. apply negb_true_iff in Hc. unfold gr_escape in *. simpl. by rewrite Hc, IH.
Qed.

Section graphite_spec.
Context {T : Type → Type} `{!KeyedMap cstr T} `{!KeyedMapLaws cstr T} `{Sysconf, MetaData.FormatGauge}.
Implicit Types (c : cache T) (fam : metric_family_t) (m : metric_t).

Lemma status_appends f g s1 s2 : appends f s1 → appends g s2 →
  appends (λ b, let* '(st, b) := f b in if negb (st =? 0) then ret (st, b) else g b) (s1 ++ s2).
Proof.
  intros Hf Hg b Hb. destruct (Hf b Hb) as (b1 & E1 & Hb1 & T1).
  destruct (Hg b1 Hb1) as (b2 & E2 & Hb2 & T2). exists b2. split_and!; [|done|by rewrite T2, T1, app_assoc].
  by eapply yields_bind; [exact E1|].
Qed.

Lemma graphite_escaped_appends e fuel : e ≠ NUL → ∀ s, (length s ≤ fuel)%nat → appends (λ b, print_escaped fuel b s e) (gr_escape e s).
Proof.
  intros He. induction fuel as [|fuel IH]; intros s Hlen; (destruct s as [|c s]; [apply ret_appends|]); [simpl in Hlen; lia|].
  cbn [print_escaped]. pose proof (span_len_take (λ x, negb (chr_mem GRAPHITE_FORBIDDEN x)) (c :: s)) as Htake.
  pose proof (span_len_le (λ x, negb (chr_mem GRAPHITE_FORBIDDEN x)) (c :: s)) as Hle.
  fold (strcspn (c :: s) GRAPHITE_FORBIDDEN) in Htake, Hle. set (n := strcspn _ _) in *.
  destruct (Nat.eqb_spec n (length (c :: s))) as [En|En].
  { rewrite take_ge in Htake by lia. rewrite gr_escape_plain by done. apply print_appends. }
  destruct (Nat.eqb_spec n 0) as [E0|E0]; cbn [negb].
  - assert (chr_mem GRAPHITE_FORBIDDEN c = true) as Hc.
    { unfold n, strcspn in E0. cbn [span_len] in E0. by destruct (chr_mem GRAPHITE_FORBIDDEN c). }
    assert (c_str [e] = [e]) as -> by (unfold c_str; cbn [span_len]; by rewrite bool_decide_eq_false_2).
    unfold gr_escape. cbn [map]. rewrite Hc. apply (status_appends (λ b, strbuf_print b [e]) _ [e]); [apply print_appends|].
    apply IH. simpl in Hlen. lia.
  - assert (gr_escape e (c :: s) = take n (c :: s) ++ gr_escape e (drop n (c :: s))) as ->.
    { rewrite <-(gr_escape_plain e (take n (c :: s))) by done. unfold gr_escape. by rewrite <-map_app, take_drop. }
    apply (status_appends (λ b, strbuf_print b (take n (c :: s)))); [apply print_appends|].
    apply IH. rewrite length_drop. lia.
Qed.

Definition gr_label (e : ascii) (flags : Z) (p : cstr * cstr) : cstr :=
  $"." ++ gr_escape e p.1 ++ (if negb (Z.land flags GRAPHITE_SEPARATE_INSTANCES =? 0) then $"." else $"=") ++ gr_escape e p.2.
(** The name of a metric in Graphite. *)
Definition gr_path (prefix suffix : option cstr) (e : ascii) (flags : Z) (nm : cstr) (kv : list (cstr * cstr)) : cstr :=
  default [] prefix ++ gr_escape e nm ++ default [] suffix ++ concat (map (gr_label e flags) kv).

Lemma graphite_labels_extends e flags kv : e ≠ NUL →
  extends (λ b, graphite_labels b (embed kv) e flags) (concat (map (gr_label e flags) kv)).
Proof.
  intros He. induction kv as [|[k v] kv IH]; [apply ret_extends|].
  change (embed ((k, v) :: kv)) with (mk_pair (Some k) (Some v) :: embed kv).
  cbn [graphite_labels LabelSet.name LabelSet.value map concat]. unfold gr_label at 1. cbn [fst snd]. rewrite <-!app_assoc.
  repeat (apply extends_seq; [apply pr_extends; first [apply print_appends|by apply graphite_escaped_appends]|]). exact IH.
Qed.

Lemma print_opt_extends s : extends (print_opt s) (default [] s).
Proof. destruct s; [apply pr_extends, print_appends|apply ret_extends]. Qed.

Lemma gr_name_extends fam m nm kv prefix suffix e flags : fam_name fam = Some nm → label m = embed kv → e ≠ NUL →
  extends (λ b, gr_format_name b fam m prefix suffix e flags) (gr_path prefix suffix e flags nm kv).
Proof.
  intros Hn Hl He. unfold gr_format_name, gr_path. rewrite Hn, Hl.
  apply extends_seq; [apply print_opt_extends|]. apply extends_seq; [by apply pr_extends, graphite_escaped_appends|].
  apply extends_seq; [apply print_opt_extends|by apply graphite_labels_extends].
Qed.

(** The value without rates. *)
Definition gr_value fam m (w : cstr) : Prop :=
  (∃ g, (type fam = METRIC_TYPE_GAUGE ∨ type fam = METRIC_TYPE_UNTYPED) ∧ m_value m = v_gauge g ∧
        w = if is_nan g then $"nan" else MetaData.format_gauge g) ∨
  (∃ n, type fam = METRIC_TYPE_COUNTER ∧ m_value m = v_counter n ∧ w = CommonStr.decimal n).

Lemma gr_values_appends fam m w : gr_value fam m w → appends (λ b, gr_format_values b fam m NAN false) w.
Proof.
  intros [(g & Hty & Hv & ->)|(n & Hty & Hv & ->)] b Hb; unfold gr_format_values; rewrite Hv.
  - replace (bool_decide (type fam = METRIC_TYPE_GAUGE) || bool_decide (type fam = METRIC_TYPE_UNTYPED)) with true
      by (destruct Hty as [-> | ->]; done).
    cbn [negb andb union_gauge]. rewrite !bind_ret. destruct (is_nan g); [by apply print_appends|].
    by apply printf_appends.
  - rewrite Hty. cbn [negb andb orb bool_decide]. cbn. by apply printf_appends.
Qed.

Definition gr_line (path w : cstr) (t : Z) : cstr :=
  path ++ $" " ++ w ++ $" " ++ CommonStr.decimal (u64 (Time.CDTIME_T_TO_TIME_T t)) ++ [CR; LF].
Definition clean (s : cstr) : Prop := Forall (λ x, chr_mem GRAPHITE_FORBIDDEN x = false) s.

Lemma gr_escape_clean e s : chr_mem GRAPHITE_FORBIDDEN e = false → clean (gr_escape e s).
Proof.
  intros He. unfold clean, gr_escape. induction s as [|c s IH]; simpl; constructor; [|done].
  by destruct (chr_mem GRAPHITE_FORBIDDEN c) eqn:E.
Qed.

Lemma gr_path_clean prefix suffix e flags nm kv : chr_mem GRAPHITE_FORBIDDEN e = false → clean (default [] prefix) →
  clean (default [] suffix) → clean (gr_path prefix suffix e flags nm kv).
Proof.
  intros He Hp Hs. unfold gr_path, clean. rewrite !list.Forall_app. split_and!; [done|by apply gr_escape_clean|done|].
  induction kv as [|[k v] kv IH]; [constructor|]. cbn [map concat]. apply list.Forall_app. split; [|done].
  unfold gr_label. rewrite !list.Forall_app. split_and!; [by repeat constructor|by apply gr_escape_clean| |by apply gr_escape_clean].
  destruct (negb _); by repeat constructor.
Qed.

(** A metric of a known type becomes one Graphite line: the escaped name
    and labels, the value and the seconds; when prefix, suffix and escape
    character are harmless, no character of the name can end a field or the
    line, whatever the labels are. *)
Theorem format_graphite_spec c buf fam m nm kv w prefix suffix e flags : dynamic buf → fam_name fam = Some nm →
  label m = embed kv → e ≠ NUL → Z.land flags GRAPHITE_STORE_RATES = 0 → gr_value fam m w →
  ∃ b, format_graphite c buf fam m prefix suffix e flags ⇓ (0, b, c) ∧
    text b = text buf ++ gr_line (gr_path prefix suffix e flags nm kv) w (time m) ∧
    (chr_mem GRAPHITE_FORBIDDEN e = false → clean (default [] prefix) → clean (default [] suffix) →
     clean (gr_path prefix suffix e flags nm kv)).
Proof.
  intros Hb Hn Hl He Hf Hw. unfold format_graphite. rewrite Hf. cbn [Z.eqb negb].
  destruct (gr_name_extends fam m nm kv prefix suffix e flags Hn Hl He buf Hb) as (b1 & E1 & D1 & T1).
  destruct (pr_extends _ _ (print_appends $" ") b1 D1) as (b2 & E2 & D2 & T2).
  destruct (gr_values_appends fam m w Hw b2 D2) as (b3 & E3 & D3 & T3).
  destruct (printf_appends ($" " ++ CommonStr.decimal (u64 (Time.CDTIME_T_TO_TIME_T (time m))) ++ [CR; LF]) b3 D3)
    as (b4 & E4 & D4 & T4).
  exists b4. split_and!; [| |by apply gr_path_clean].
  - rewrite bind_ret. cbn [negb Z.eqb]. eapply yields_bind; [exact E1|]. cbv beta. eapply yields_bind; [exact E2|]. cbv beta.
    eapply yields_bind; [exact E3|]. cbv beta iota. by eapply yields_bind.
  - rewrite T4, T3, T2, T1. unfold gr_line. by rewrite <-!app_assoc.
Qed.
(** With StoreRates, a counter is printed as the double that its bits encode,
    not as its rate: the rate is only compared with NaN. *)
Theorem graphite_rate_not_printed c l buf fam m nm kv n ce prefix suffix e flags : holds c l → dynamic buf →
  fam_name fam = Some nm → valid_name nm → label m = embed kv → lwf kv → e ≠ NUL →
  Z.land flags GRAPHITE_STORE_RATES ≠ 0 → type fam = METRIC_TYPE_COUNTER → m_value m = v_counter n →
  Spec.get (identity_text nm kv) l = Some ce → state ce ≠ STATE_MISSING →
  tv_type (values_raw ce) ≠ METRIC_TYPE_DISTRIBUTION → is_nan (values_gauge ce) = false →
  ∃ b, format_graphite c buf fam m prefix suffix e flags ⇓ (0, b, c) ∧
    text b = text buf ++ gr_line (gr_path prefix suffix e flags nm kv) (MetaData.format_gauge (double_of_bits n)) (time m).
Proof.
  intros Hh Hb Hn Hv Hl Hkv He Hf Hty Hm Hg Hst Hdist Hnan. unfold format_graphite. rewrite (proj2 (Z.eqb_neq _ _) Hf). cbn [negb].
  assert (uc_get_rate c fam m ⇓ (0, Some (values_gauge ce), c)) as Hrate.
  { unfold uc_get_rate. eapply by_identity_ok; [by exists nm, kv|]. rewrite Hty. cbn. by eapply get_rate_ok. }
  destruct (gr_name_extends fam m nm kv prefix suffix e flags Hn Hl He buf Hb) as (b1 & E1 & D1 & T1).
  destruct (pr_extends _ _ (print_appends $" ") b1 D1) as (b2 & E2 & D2 & T2).
  destruct (printf_appends (MetaData.format_gauge (double_of_bits n)) b2 D2) as (b3 & E3 & D3 & T3).
  destruct (printf_appends ($" " ++ CommonStr.decimal (u64 (Time.CDTIME_T_TO_TIME_T (time m))) ++ [CR; LF]) b3 D3)
    as (b4 & E4 & D4 & T4).
  exists b4. split; [|rewrite T4, T3, T2, T1; unfold gr_line; by rewrite <-!app_assoc].
  eapply yields_bind; [eapply yields_bind; [exact Hrate|apply yields_ret]|]. cbv beta iota. cbn [negb Z.eqb].
  eapply yields_bind; [exact E1|]. cbv beta. eapply yields_bind; [exact E2|]. cbv beta.
  assert (gr_format_values b2 fam m (values_gauge ce) true ⇓ (0, b3)) as Hvals.
  { unfold gr_format_values. cbn [negb andb]. rewrite bind_ret, Hnan, Hm. cbn [union_gauge]. by rewrite bind_ret. }
  eapply yields_bind; [exact Hvals|]. cbv beta iota. by eapply yields_bind.
Qed.
End graphite_spec.

(** ** OpenMetrics: one line per metric *)

Section openmetrics_spec.
Context `{Sysconf, MetaData.FormatGauge}.

Definition no_lf (s : cstr) : Prop := Forall (λ x, x ≠ LF) s.

Lemma chars_no_lf set s : LF ∉ set → Forall (λ x, chr_mem set x = true) s → no_lf s.
Proof.
  intros Hn Hs. eapply list.Forall_impl; [exact Hs|]. intros x Hx ->. by apply bool_decide_eq_true in Hx.
Qed.

Lemma escaped_no_lf s : no_lf (escape_text marshal_escape BACKSLASH s).
Proof.
  unfold no_lf, escape_text. induction s as [|x s IH]; [constructor|]. rewrite bind_cons. apply list.Forall_app. split; [|done].
  unfold escape_chr. destruct (chr_mem marshal_escape x) eqn:E.
  - repeat constructor; [done|]. unfold escaped_char. by repeat case_bool_decide.
  - repeat constructor. intros ->. by vm_compute in E.
Qed.

Lemma pairs_no_lf i kv : lwf kv → no_lf (pairs_text i kv).
Proof.
  intros [_ Hf]. revert i. unfold no_lf. induction Hf as [|[k v] kv (Hk & Hv & Hn) _ IH]; intros i; [constructor|].
  simpl in *. rewrite pairs_text_cons. unfold pair_text. simpl. rewrite !list.Forall_app.
  apply valid_label_chars in Hk as [_ Hk]. split; [|apply IH].
  split; [destruct (i =? 0)%nat; by repeat constructor|]. split; [|repeat constructor; try done].
  { eapply chars_no_lf; [|exact Hk]. by apply (bool_decide_unpack _). }
  apply list.Forall_app. split; [apply escaped_no_lf|by repeat constructor].
Qed.

Lemma name_no_lf nm : valid_name nm → no_lf nm.
Proof. intros [_ Hn]. eapply chars_no_lf; [|exact Hn]. by apply (bool_decide_unpack _). Qed.

Lemma identity_no_lf nm kv : valid_name nm → lwf kv → no_lf (identity_text nm kv).
Proof.
  intros Hn Hw. unfold identity_text, no_lf. apply list.Forall_app. split; [by apply name_no_lf|].
  destruct kv as [|p kv]; [constructor|]. unfold labels_text. rewrite !list.Forall_app.
  split_and!; [by repeat constructor|by apply pairs_no_lf|by repeat constructor].
Qed.

Lemma decimal_no_lf z : 0 ≤ z → no_lf (CommonStr.decimal z).
Proof.
  intros Hz. destruct (CommonStr.decimal_spec z Hz) as [Hd _]. eapply list.Forall_impl; [exact Hd|]. intros x Hx ->. by vm_compute in Hx.
Qed.
Lemma decimal_signed_no_lf z : no_lf (CommonStr.decimal_signed z).
Proof.
  unfold CommonStr.decimal_signed. destruct (Z.ltb_spec z 0); [constructor; [done|]|]; apply decimal_no_lf; lia.
Qed.

(** The text of a value. *)
Definition om_value (ty : metric_type_t) (v : value_t) : option cstr :=
  match ty, v with
  | METRIC_TYPE_COUNTER, v_counter n => Some (CommonStr.decimal n)
  | METRIC_TYPE_GAUGE, v_gauge g | METRIC_TYPE_UNTYPED, v_gauge g => Some (MetaData.format_gauge g)
  | _, _ => None
  end.
Definition om_time (t : Z) : cstr :=
  if 0 <? t then $" " ++ CommonStr.decimal_signed (i64 (Time.CDTIME_T_TO_MS t)) else [].
Definition om_line (nm : cstr) (kv : list (cstr * cstr)) (w : cstr) (t : Z) : cstr :=
  identity_text nm kv ++ $" " ++ w ++ om_time t.
Definition om_head (nm : cstr) (hlp : option cstr) (ty : cstr) : list cstr :=
  [$"# HELP " ++ nm ++ match hlp with None => [] | Some h => $" " ++ h end; $"# TYPE " ++ nm ++ $" " ++ ty].
Definition unlines (ls : list cstr) : cstr := concat (map (λ l, l ++ [LF]) ls).

(** A metric and its line. *)
Definition om_shows (fam : metric_family_t) (nm : cstr) (m : metric_t) (line : cstr) : Prop :=
  ∃ kv w, label m = embed kv ∧ lwf kv ∧ om_value (type fam) (m_value m) = Some w ∧ line = om_line nm kv w (time m).

Lemma also_appends f s buf : appends f s → dynamic buf → ∃ b, also f (0, buf) ⇓ (0, b) ∧ dynamic b ∧ text b = text buf ++ s.
Proof.
  intros Hf Hb. destruct (Hf buf Hb) as (b & E & Hd & Ht). exists b. split_and!; [|done..].
  unfold also. cbn [fst snd]. by eapply yields_bind.
Qed.

Lemma openmetrics_loop_ok fam nm ms lines : fam_name fam = Some nm → Forall2 (om_shows fam nm) ms lines →
  ∀ buf, dynamic buf → ∃ b, openmetrics_loop fam ms (0, buf) ⇓ (0, b) ∧ dynamic b ∧ text b = text buf ++ unlines lines.
Proof.
  intros Hn Hms. induction Hms as [|m line ms lines (kv & w & Hl & Hkv & Hw & ->) _ IH]; intros buf Hb.
  { exists buf. split_and!; [done..|by rewrite app_nil_r]. }
  cbn [openmetrics_loop]. destruct (also_appends _ _ buf (identity_appends fam m nm kv Hn Hl) Hb) as (b1 & E1 & D1 & T1).
  destruct (also_appends _ _ b1 (printf_appends ($" " ++ w)) D1) as (b2 & E2 & D2 & T2).
  destruct (also_appends _ _ b2 (printf_appends (om_time (time m) ++ [LF])) D2) as (b3 & E3 & D3 & T3).
  destruct (IH b3 D3) as (b4 & E4 & D4 & T4). exists b4. split_and!; [|done|].
  - eapply yields_bind; [exact E1|]. cbv beta. eapply (yields_bind _ _ (0, b2)).
    { unfold om_value in Hw. destruct (type fam), (m_value m); simplify_eq/=; exact E2. }
    cbv beta. eapply (yields_bind _ _ (0, b3)); [|done]. unfold om_time in E3.
    destruct (0 <? time m); [|exact E3]. by rewrite <-app_assoc in E3.
  - rewrite T4, T3, T2, T1. unfold unlines, om_line. cbn [map concat]. by rewrite <-!app_assoc.
Qed.

(** A family is printed as its help line, its type line and one line per
    metric, in order, each with the identity of the metric; no line but the
    help line can contain a line break, whatever names and labels are. *)
Theorem format_openmetrics_spec buf fam nm ty lines : dynamic buf → fam_name fam = Some nm → valid_name nm →
  type_name (type fam) = Some ty → metric fam ≠ [] → Forall2 (om_shows fam nm) (metric fam) lines →
  (∀ g, no_lf (MetaData.format_gauge g)) → Forall (λ m, ∀ n, m_value m = v_counter n → 0 ≤ n) (metric fam) →
  ∃ b, format_openmetrics_metric_family buf fam ⇓ (0, b) ∧
    text b = text buf ++ unlines (om_head nm (help fam) ty ++ lines) ∧
    Forall no_lf lines ∧ (no_lf (default [] (help fam)) → Forall no_lf (om_head nm (help fam) ty)).
Proof.
  intros Hb Hn Hv Hty Hne Hms Hg Hpos. unfold format_openmetrics_metric_family.
  destruct (Nat.eqb_spec (length (metric fam)) 0) as [E|_]; [by destruct (metric fam)|].
  set (h := $"# HELP " ++ nm ++ match help fam with None => [] | Some h => $" " ++ h end).
  destruct (also_appends _ _ buf (printf_appends (h ++ [LF])) Hb) as (b1 & E1 & D1 & T1).
  destruct (also_appends _ _ b1 (printf_appends ($"# TYPE " ++ nm ++ $" " ++ ty ++ [LF])) D1) as (b2 & E2 & D2 & T2).
  destruct (openmetrics_loop_ok fam nm (metric fam) lines Hn Hms b2 D2) as (b3 & E3 & D3 & T3).
  exists b3. split_and!.
  - rewrite Hty, Hn. cbn [mopt]. rewrite bind_ret. eapply (yields_bind _ _ (0, b1)).
    { unfold h in E1. destruct (help fam); by rewrite <-!app_assoc in E1. }
    cbv beta. by eapply yields_bind.
  - rewrite T3, T2, T1. unfold om_head, unlines. cbn [app map concat]. fold h. by rewrite <-!app_assoc.
  - clear -Hms Hv Hg Hpos. induction Hms as [|m line ms lines (kv & w & Hl & Hkv & Hw & ->) _ IH]; [constructor|].
    apply Forall_cons_1 in Hpos as [Hm Hpos]. constructor; [|by apply IH]. unfold om_line, no_lf. rewrite !list.Forall_app.
    split_and!; [by apply identity_no_lf|by repeat constructor| |].
    + unfold om_value in Hw. destruct (type fam), (m_value m) as [n|g|d|d]; simplify_eq/=; try apply Hg. by apply decimal_no_lf, Hm.
    + unfold om_time. destruct (0 <? time m); [|constructor]. apply list.Forall_app. split; [by repeat constructor|apply decimal_signed_no_lf].
  - intros Hh. unfold om_head. constructor; [|constructor; [|constructor]]; unfold no_lf; rewrite !list.Forall_app.
    + split_and!; [by repeat constructor|by apply name_no_lf|]. destruct (help fam); [|constructor].
      apply list.Forall_app. split; [by repeat constructor|done].
    + split_and!; [by repeat constructor|by apply name_no_lf|by repeat constructor|]. destruct (type fam); simplify_eq/=; by repeat constructor.
Qed.
End openmetrics_spec.

(** ** Witnesses *)

#[local] Existing Instances Avl.avl_map Avl.avl_laws.
#[local] Instance demo_sysconf : Sysconf := 4096.
#[local] Instance demo_format_gauge : MetaData.FormatGauge := λ _, $"1.5".

Definition no_entries : cache (Avl.c_avl_tree cstr) := mk_cache (Some Avl.c_avl_create) false.
Definition disk_labels : list (cstr * cstr) := [($"disk", $"/dev/sd a"); ($"dir", $"x")].
Definition disk_gauge : metric_family_t :=
  mk_family (Some $"io") None METRIC_TYPE_GAUGE [mk_metric (embed [($"disk", $"a")]) (v_gauge (of_Z 1)) (2 ^ 30) 10 None].

Lemma format_graphite_spec_witness :
  ∃ b, format_graphite no_entries STRBUF_CREATE disk_gauge (mk_metric (embed disk_labels) (v_gauge (of_Z 1)) (2 ^ 30) 10 None)
         (Some $"p.") None "_"%char 0 ⇓ (0, b, no_entries) ∧
    text b = $"p.io.disk=_dev_sd_a.dir=x 1.5 1" ++ [CR; LF].
Proof.
  destruct (format_graphite_spec no_entries STRBUF_CREATE disk_gauge
    (mk_metric (embed disk_labels) (v_gauge (of_Z 1)) (2 ^ 30) 10 None) $"io" disk_labels $"1.5" (Some $"p.") None "_"%char 0)
    as (b & E & Ht & _); [apply dynamic_create|done..| |exists b; split; [exact E|by rewrite Ht]].
  left. exists (of_Z 1). by split; [left|].
Defined.

Lemma graphite_rate_not_printed_witness :
  ∃ b, format_graphite (avl_cache $"m" gauge_entry) STRBUF_CREATE counter_family (counter_metric 0 7) None None "_"%char 1
         ⇓ (0, b, avl_cache $"m" gauge_entry) ∧
    text b = text STRBUF_CREATE ++ gr_line (gr_path None None "_"%char 1 $"m" []) (MetaData.format_gauge (double_of_bits 7)) 0.
Proof.
  refine (graphite_rate_not_printed _ _ STRBUF_CREATE counter_family (counter_metric 0 7) $"m" [] 7 gauge_entry None None "_"%char 1
    (avl_cache_holds $"m" gauge_entry) _ _ test_name_valid _ lwf_nil _ _ _ _ _ _ _ _); try done. apply dynamic_create.
Defined.

Lemma format_openmetrics_spec_witness :
  ∃ b, format_openmetrics_metric_family STRBUF_CREATE disk_gauge ⇓ (0, b) ∧
    text b = unlines [$"# HELP io"; $"# TYPE io gauge"; $"io{disk=" ++ QUOTE :: $"a" ++ QUOTE :: $"} 1.5 1000"].
Proof.
  destruct (format_openmetrics_spec STRBUF_CREATE disk_gauge $"io" $"gauge" [om_line $"io" [($"disk", $"a")] $"1.5" (2 ^ 30)])
    as (b & E & Ht & _); [apply dynamic_create|done|split; [done|by apply (bool_decide_unpack _)]|done|done| | | |].
  - constructor; [|constructor]. exists [($"disk", $"a")], $"1.5". split_and!; [done| |done|done].
    split; [repeat constructor|]. repeat constructor; by apply (bool_decide_unpack _).
  - intros g. by apply (bool_decide_unpack _).
  - by repeat constructor.
  - exists b. split; [exact E|]. rewrite Ht. by vm_compute.
Defined.
