(* ===== verification/Json.v ===== *)
(** * JSON formats (src/utils/format_json/format_json.c,
      src/utils/format_kairosdb/format_kairosdb.c)

    The JSON generator is yajl, which is not part of the sources: the class
    [Yajl] gives the status of a call after the calls made before, and the text
    of a sequence of calls.  Its laws are the documented ones: calls that
    follow the grammar of JSON succeed, as long as numbers are finite and the
    nesting is below YAJL_MAX_DEPTH, and an array is printed as its elements
    between brackets, separated by commas.  The state of a generator is the
    list of the calls that succeeded.  Without COLLECT_DEBUG the generators are
    not configured to check the encoding of strings or to beautify. *)

From Stdlib Require Import ZArith Lia Ascii String.
From stdpp Require Import base gmap numbers option list.
From S2P Require Import Prelude MapSpec Double StrBuf LabelSet Metric Cache OConfig Commands Notification.
From S2P Require CommonStr Time MetaData Distribution Formats Avl.

Inductive tok : Type :=
  | t_map_open | t_map_close | t_array_open | t_array_close
  | t_null | t_string (s : cstr) | t_integer (z : Z) | t_double (d : double).

Class Yajl : Type := {
  gen_status : list tok → tok → Z;
  gen_buf : list tok → Z * list ascii;
}.

Abbreviation gen := (list tok).

Section json.
Context {T : Type → Type} `{!KeyedMap cstr T} `{Sysconf, MetaData.FormatGauge, Yajl}.
Implicit Types (g : gen) (fam : metric_family_t) (m : metric_t) (n : notification_t).

Definition yajl_gen (t : tok) g : M (Z * gen) :=
  let st := gen_status g t in ret (st, if st =? 0 then g ++ [t] else g).

(** [CHECK (f); k] *)
Definition CHECK (f k : gen → M (Z * gen)) g : M (Z * gen) :=
  let* '(status, g) := f g in if negb (status =? 0) then ret (status, g) else k g.

Definition json_add_string (str : option cstr) : gen → M (Z * gen) :=
  match str with
  | None => yajl_gen t_null
  | Some s => yajl_gen (t_string s)
  end.

Definition ok g : M (Z * gen) := ret (0, g).

(** The loops over labels and annotations; [skip] are names to leave out. *)
Fixpoint add_pairs (skip : list cstr) (ls : label_set_t) : gen → M (Z * gen) :=
  match ls with
  | [] => ok
  | l :: ls => λ g,
      let* nm := (if bool_decide (skip = []) then ret [] else mopt (LabelSet.name l)) in
      if bool_decide (nm ∈ skip) then add_pairs skip ls g
      else CHECK (json_add_string (LabelSet.name l)) (CHECK (json_add_string (LabelSet.value l)) (add_pairs skip ls)) g
  end.

(** ** format_json.c *)

Definition format_time (t : Z) g : M (Z * gen) :=
  let* '(status, buffer) := Time.rfc3339nano (replicate Time.RFC3339NANO_SIZE NUL) t in
  if negb (status =? 0) then ret (-1, g) else CHECK (json_add_string (Some (c_str buffer))) ok g.

Fixpoint add_buckets (bs : list Distribution.bucket_t) : gen → M (Z * gen) :=
  match bs with
  | [] => ok
  | b :: bs =>
      CHECK (json_add_string (Some (take 31 (MetaData.format_gauge (Distribution.maximum b)))))
        (CHECK (json_add_string (Some (take 31 (CommonStr.decimal (Distribution.bucket_counter b))))) (add_buckets bs))
  end.

(** The text that a fresh or reset buffer holds after printing, or NULL. *)
Definition printed_text (buf : strbuf_t) (s : cstr) : M (option cstr * strbuf_t) :=
  let* '(_, buf) := strbuf_printf buf s in ret (c_str <$> ptr buf, buf).

Definition format_metric_distribution (buf : strbuf_t) (d : Distribution.distribution_t) : gen → M (Z * gen) :=
  CHECK (json_add_string (Some $"buckets")) (CHECK (yajl_gen t_map_open) (λ g,
    let* calloc := alloc in
    let* '(bs, _) := mopt (Distribution.get_buckets calloc d) in
    CHECK (add_buckets bs) (CHECK (yajl_gen t_map_close) (λ g,
      let* n := mopt (Distribution.distribution_total_counter d) in
      let* '(count, buf) := printed_text buf (CommonStr.decimal n) in
      CHECK (json_add_string (Some $"count")) (CHECK (json_add_string count) (λ g,
        let* buf := strbuf_reset buf in
        let* '(sum, _) := printed_text buf (MetaData.format_gauge (Distribution.distribution_total_sum d)) in
        CHECK (json_add_string (Some $"sum")) (CHECK (json_add_string sum) ok) g)) g)) g)).

(** The value of a metric; the status of a distribution is not checked. *)
Definition add_value fam m g : M (Z * gen) :=
  if bool_decide (type fam = METRIC_TYPE_DISTRIBUTION) then
    let* d := mopt (as_distribution (m_value m)) in
    let* d := mopt d in
    let* '(_, g) := format_metric_distribution STRBUF_CREATE d g in
    yajl_gen t_map_close g
  else
    let* '(status, buf) := value_marshal_text STRBUF_CREATE (m_value m) (type fam) in
    if negb (status =? 0) then ret (status, g)
    else
      CHECK (json_add_string (Some $"value")) (CHECK (json_add_string (c_str <$> ptr buf)) (CHECK (yajl_gen t_map_close) ok)) g.

Definition format_metric fam m : gen → M (Z * gen) :=
  CHECK (yajl_gen t_map_open) (
    CHECK (if (length (label m) =? 0)%nat then ok
           else CHECK (json_add_string (Some $"labels")) (CHECK (yajl_gen t_map_open)
                  (CHECK (add_pairs [] (label m)) (CHECK (yajl_gen t_map_close) ok)))) (
    CHECK (if time m =? 0 then ok
           else CHECK (json_add_string (Some $"timestamp_ms"))
                  (CHECK (json_add_string (Some (CommonStr.decimal (Time.CDTIME_T_TO_MS (time m))))) ok))
      (add_value fam m))).

Definition json_type_name (ty : metric_type_t) : cstr :=
  match ty with
  | METRIC_TYPE_GAUGE => $"GAUGE"
  | METRIC_TYPE_COUNTER => $"COUNTER"
  | METRIC_TYPE_UNTYPED => $"UNTYPED"
  | METRIC_TYPE_DISTRIBUTION => $"DISTRIBUTION"
  end.

Fixpoint format_metrics fam (ms : list metric_t) : gen → M (Z * gen) :=
  match ms with [] => ok | m :: ms => CHECK (format_metric fam m) (format_metrics fam ms) end.

Definition json_metric_family fam : gen → M (Z * gen) :=
  CHECK (yajl_gen t_map_open) (
  CHECK (json_add_string (Some $"name")) (CHECK (json_add_string (fam_name fam)) (
  CHECK (json_add_string (Some $"type")) (CHECK (json_add_string (Some (json_type_name (type fam)))) (
  CHECK (json_add_string (Some $"metrics")) (CHECK (yajl_gen t_array_open) (
  CHECK (format_metrics fam (metric fam)) (CHECK (yajl_gen t_array_close) (CHECK (yajl_gen t_map_close) ok))))))))).

(** The end of both formatters: [out] is appended to the buffer, its opening
    bracket merged with the closing bracket that is there. *)
Definition append_array (buf : strbuf_t) (out : list ascii) : M (Z * strbuf_t) :=
  let avail := if (bufsize buf =? 0)%nat then 0%nat else (bufsize buf - (pos buf + 1))%nat in
  if fixed buf && (avail <? length out)%nat then ret (ENOBUFS, buf)
  else
    let* '(buf, out) :=
      if (pos buf =? 0)%nat then ret (buf, out)
      else
        let* p := mopt (ptr buf) in
        let* last := mopt (p !! (pos buf - 1)%nat) in
        let* _ := massert (bool_decide (last = "]"%char)) in
        let* first := mopt (head out) in
        let* _ := massert (bool_decide (first = "["%char)) in
        ret (mk_strbuf (Some (<[(pos buf - 1)%nat := ","%char]> p)) (pos buf) (bufsize buf) (fixed buf), tail out) in
    strbuf_print buf (c_str out).

(** The flag [store_rates] is not used. *)
Definition format_json_metric_family (buf : strbuf_t) fam : M (Z * strbuf_t) :=
  let* g_ok := alloc in
  if negb g_ok then ret (-1, buf)
  else
    let* '(_, g) := yajl_gen t_array_open [] in
    let* '(status, g) := json_metric_family fam g in
    if negb (status =? 0) then ret (status, buf)
    else
      let* '(_, g) := yajl_gen t_array_close g in
      let '(status, out) := gen_buf g in
      if negb (status =? 0) then ret (-1, buf) else append_array buf out.

Definition alert_severity (sev : Z) : cstr :=
  if sev =? NOTIF_FAILURE then $"FAILURE" else if sev =? NOTIF_WARNING then $"WARNING"
  else if sev =? NOTIF_OKAY then $"OKAY" else $"UNKNOWN".

Definition alert_names : list cstr := [$"alertname"; $"service"; $"severity"].

Definition format_alert n : gen → M (Z * gen) :=
  CHECK (yajl_gen t_array_open) (CHECK (yajl_gen t_map_open) (
  CHECK (json_add_string (Some $"labels")) (CHECK (yajl_gen t_map_open) (
  CHECK (json_add_string (Some $"alertname")) (CHECK (json_add_string (n_name n)) (
  CHECK (add_pairs alert_names (n_label n)) (
  CHECK (json_add_string (Some $"severity")) (CHECK (json_add_string (Some (alert_severity (severity n)))) (
  CHECK (json_add_string (Some $"service")) (CHECK (json_add_string (Some $"collectd")) (
  CHECK (yajl_gen t_map_close) (
  CHECK (json_add_string (Some $"annotations")) (CHECK (yajl_gen t_map_open) (
  CHECK (add_pairs [] (annotation n)) (CHECK (yajl_gen t_map_close) (
  CHECK (json_add_string (Some $"startsAt")) (λ g,
    let* '(status, g) := format_time (n_time n) g in
    if negb (status =? 0) then ret (-1, g)
    else CHECK (yajl_gen t_map_close) (CHECK (yajl_gen t_array_close) ok) g))))))))))))))))).

Definition format_json_notification (buffer : list ascii) n : M (Z * list ascii) :=
  let* g_ok := alloc in
  if negb g_ok then ret (-1, buffer)
  else
    let* '(status, g) := format_alert n [] in
    if negb (status =? 0) then ret (-1, buffer)
    else
      let '(status, out) := gen_buf g in
      if negb (status =? 0) then ret (-1, buffer)
      else let* buffer := CommonStr.sstrncpy buffer 0 (c_str out) (length buffer) in ret (0, buffer).

(** ** format_kairosdb.c *)

Record format_kairosdb_opts_t : Type := mk_opts { store_rates : bool; ttl_secs : Z; metrics_prefix : option cstr }.
Implicit Types opts : option format_kairosdb_opts_t.

Definition isfinite (d : double) : bool :=
  match d with SpecFloat.S754_nan | SpecFloat.S754_infinity _ => false | _ => true end.
Definition add_number (d : double) : gen → M (Z * gen) := if isfinite d then yajl_gen (t_double d) else yajl_gen t_null.

Definition json_add_value (c : cache T) fam m opts g : M (Z * gen * cache T) :=
  let* '(r, c) :=
    if bool_decide (type fam = METRIC_TYPE_GAUGE) || bool_decide (type fam = METRIC_TYPE_UNTYPED) then
      let* v := Formats.union_gauge (m_value m) in let* r := CHECK (add_number v) ok g in ret (r, c)
    else if match opts with Some o => store_rates o | None => false end then
      let* '(_, rate, c) := uc_get_rate c fam m in
      let* r := CHECK (add_number (default NAN rate)) ok g in ret (r, c)
    else if bool_decide (type fam = METRIC_TYPE_COUNTER) then
      let* n := mopt (as_counter (m_value m)) in let* r := CHECK (yajl_gen (t_integer (i64 n))) ok g in ret (r, c)
    else let* r := CHECK (yajl_gen t_null) ok g in ret (r, c) in
  ret (r, c).

(** The name; it goes through a string buffer when there is a prefix. *)
Definition add_name fam opts : gen → M (Z * gen) :=
  match opts with
  | Some {| metrics_prefix := Some p |} => λ g,
      let* buf := pr (λ b, strbuf_print b p) STRBUF_CREATE in
      let* buf := match fam_name fam with None => ret buf | Some nm => pr (λ b, strbuf_print b nm) buf end in
      json_add_string (c_str <$> ptr buf) g
  | _ => json_add_string (fam_name fam)
  end.

Definition add_ttl opts : gen → M (Z * gen) :=
  match opts with
  | Some o => if ttl_secs o =? 0 then ok else CHECK (json_add_string (Some $"ttl")) (CHECK (yajl_gen (t_integer (ttl_secs o))) ok)
  | None => ok
  end.

Definition add_tags m : gen → M (Z * gen) :=
  if (length (label m) =? 0)%nat then ok
  else CHECK (json_add_string (Some $"tags")) (CHECK (yajl_gen t_map_open)
         (CHECK (add_pairs [] (label m)) (CHECK (yajl_gen t_map_close) ok))).

Definition json_add_metric (c : cache T) fam m opts g : M (Z * gen * cache T) :=
  let* '(status, g) :=
    CHECK (yajl_gen t_map_open) (CHECK (json_add_string (Some $"name")) (CHECK (add_name fam opts) (
    CHECK (json_add_string (Some $"timestamp")) (CHECK (yajl_gen (t_integer (i64 (Time.CDTIME_T_TO_MS (time m))))) (
    CHECK (json_add_string (Some $"value")) ok))))) g in
  if negb (status =? 0) then ret (status, g, c)
  else
    let* '(status, g, c) := json_add_value c fam m opts g in
    if negb (status =? 0) then ret (status, g, c)
    else
      let* '(status, g) := CHECK (add_ttl opts) (CHECK (add_tags m) (CHECK (yajl_gen t_map_close) ok)) g in
      ret (status, g, c).

Fixpoint kairosdb_metrics (c : cache T) fam (ms : list metric_t) opts g : M (Z * gen * cache T) :=
  match ms with
  | [] => ret (0, g, c)
  | m :: ms =>
      let* '(status, g, c) := json_add_metric c fam m opts g in
      if negb (status =? 0) then ret (status, g, c) else kairosdb_metrics c fam ms opts g
  end.

Definition kairosdb_metric_family (c : cache T) fam opts g : M (Z * gen * cache T) :=
  let* '(status, g) := yajl_gen t_array_open g in
  if negb (status =? 0) then ret (status, g, c)
  else
    let* '(status, g, c) := kairosdb_metrics c fam (metric fam) opts g in
    if negb (status =? 0) then ret (status, g, c)
    else let* '(status, g) := CHECK (yajl_gen t_array_close) ok g in ret (status, g, c).

Definition format_kairosdb_metric_family (c : cache T) (buf : strbuf_t) fam opts : M (Z * strbuf_t * cache T) :=
  let* g_ok := alloc in
  if negb g_ok then ret (ENOMEM, buf, c)
  else
    let* '(status, g, c) := kairosdb_metric_family c fam opts [] in
    if negb (status =? 0) then ret (status, buf, c)
    else
      let '(status, out) := gen_buf g in
      if negb (status =? 0) then ret (status, buf, c)
      else let* '(status, buf) := append_array buf out in ret (status, buf, c).
End json.

(** ** JSON values *)

Inductive json : Type :=
  | j_null | j_str (s : cstr) | j_int (z : Z) | j_num (d : double)
  | j_arr (js : list json) | j_obj (ms : list (cstr * json)).

(** The calls that generate a value. *)
Fixpoint tokens (j : json) : list tok :=
  match j with
  | j_null => [t_null]
  | j_str s => [t_string s]
  | j_int z => [t_integer z]
  | j_num d => [t_double d]
  | j_arr js => t_array_open :: concat (map tokens js) ++ [t_array_close]
  | j_obj ms => t_map_open :: concat (map (λ p, t_string p.1 :: tokens p.2) ms) ++ [t_map_close]
  end.
Definition members (ms : list (cstr * json)) : list tok := concat (map (λ p, t_string p.1 :: tokens p.2) ms).

Fixpoint join (l : list cstr) : cstr :=
  match l with
  | [] => []
  | [s] => s
  | s :: l => s ++ $"," ++ join l
  end.

(** Values that the generator accepts: no number is NaN or infinite
    (yajl_gen_invalid_number), and at most [d] levels of arrays and maps. *)
Fixpoint sound (d : nat) (j : json) : Prop :=
  match j, d with
  | j_num x, _ => isfinite x = true
  | j_arr js, S d => Forall (sound d) js
  | j_obj ms, S d => Forall (λ p, sound d p.2) ms
  | j_arr _, O | j_obj _, O => False
  | _, _ => True
  end.
(** YAJL_MAX_DEPTH is 128, and the nesting must stay below it. *)
Definition max_depth : nat := 127.
Abbreviation vjson := { j : json | sound max_depth j }.

Class YajlLaws `{Yajl} (render : json → cstr) : Prop := {
  gen_ok g t rest j : sound max_depth j → g ++ t :: rest = tokens j → gen_status g t = 0;
  gen_text j : sound max_depth j → gen_buf (tokens j) = (0, render j);
  render_arr js : render (j_arr js) = $"[" ++ join (map render js) ++ $"]";
  render_no_nul j : no_nul (render j);
}.

Section laws.
Context {T : Type → Type} `{!KeyedMap cstr T} `{!KeyedMapLaws cstr T} `{Sysconf, MetaData.FormatGauge, Yajl} {render : json → cstr}
  `{!YajlLaws render}.
Implicit Types (g : gen) (fam : metric_family_t) (m : metric_t) (n : notification_t) (j : json).

(** [f] makes the calls [ts], wherever they fit into a value. *)
Definition emits (f : gen → M (Z * gen)) (ts : list tok) : Prop :=
  ∀ g rest (j : vjson), g ++ ts ++ rest = tokens (`j) → f g ⇓ (0, g ++ ts).

Lemma gen_emits t : emits (yajl_gen t) [t].
Proof. intros g rest [j Hj] E. unfold yajl_gen. by rewrite (gen_ok g t rest j Hj E). Qed.
Lemma ok_emits : emits ok [].
Proof. intros g rest j _. unfold ok. by rewrite app_nil_r. Qed.
Lemma check_emits f k a b : emits f a → emits k b → emits (CHECK f k) (a ++ b).
Proof.
  intros Hf Hk g rest j E. unfold CHECK. rewrite <-app_assoc in E. eapply yields_bind; [by eapply Hf|]. cbn [negb Z.eqb].
  rewrite app_assoc. eapply Hk. by rewrite <-app_assoc.
Qed.
Lemma string_emits s : emits (json_add_string (Some s)) [t_string s].
Proof. apply gen_emits. Qed.
Lemma emits_eq f a b : a = b → emits f a → emits f b.
Proof. by intros ->. Qed.
Lemma emits_bind {A} (x : M A) a f ts : x ⇓ a → emits (f a) ts → emits (λ g, let* y := x in f y g) ts.
Proof. intros Hx Hf g rest j E. eapply yields_bind; [exact Hx|]. by eapply Hf. Qed.

Lemma pairs_emits kv : emits (add_pairs [] (embed kv)) (members (map (λ p, (p.1, j_str p.2)) kv)).
Proof.
  induction kv as [|[k v] kv IH]; [apply ok_emits|].
  change (embed ((k, v) :: kv)) with (mk_pair (Some k) (Some v) :: embed kv). cbn [add_pairs LabelSet.name LabelSet.value].
  eapply (emits_eq _ ([t_string k] ++ [t_string v] ++ members (map (λ p, (p.1, j_str p.2)) kv))); [done|].
  intros g rest j E. rewrite bool_decide_eq_true_2, bind_ret by done. rewrite bool_decide_eq_false_2 by apply not_elem_of_nil.
  revert g rest j E. apply check_emits; [apply string_emits|]. apply check_emits; [apply string_emits|exact IH].
Qed.

Lemma skipped_emits skip kv : skip ≠ [] → emits (add_pairs skip (embed kv))
  (members (map (λ p, (p.1, j_str p.2)) (filter (λ p, p.1 ∉ skip) kv))).
Proof.
  intros Hs. induction kv as [|[k v] kv IH]; [apply ok_emits|].
  change (embed ((k, v) :: kv)) with (mk_pair (Some k) (Some v) :: embed kv). cbn [add_pairs LabelSet.name LabelSet.value].
  intros g rest j E. rewrite bool_decide_eq_false_2 by done. cbn [mopt]. rewrite bind_ret.
  destruct (decide (k ∈ skip)) as [Hk|Hk].
  - rewrite bool_decide_eq_true_2 by done. rewrite filter_cons_False in E |- * by (cbn; auto). by eapply IH.
  - rewrite bool_decide_eq_false_2 by done. rewrite filter_cons_True in E |- * by done. revert g rest j E.
    apply (check_emits _ _ [t_string k] (t_string v :: _)); [apply string_emits|].
    apply (check_emits _ _ [t_string v]); [apply string_emits|exact IH].
Qed.
(** ** The array in the buffer *)

Lemma join_app l1 l2 : l1 ≠ [] → l2 ≠ [] → join (l1 ++ l2) = join l1 ++ $"," ++ join l2.
Proof.
  intros Hl1 Hl2. induction l1 as [|s l1 IH]; [done|]. destruct l1 as [|s' l1]; [by destruct l2|].
  cbn [app join] in IH |- *. rewrite IH by done. by rewrite <-!app_assoc.
Qed.

(** The text of a buffer that holds these elements; none at first. *)
Definition array_text (js : list json) : cstr := match js with [] => [] | _ => render (j_arr js) end.

Lemma array_body js : ∃ body, render (j_arr js) = $"[" ++ body ++ $"]" ∧ body = join (map render js).
Proof. eexists. split; [apply render_arr|done]. Qed.

Lemma c_str_no_nul s : no_nul s → c_str s = s.
Proof.
  intros Hs. unfold c_str. rewrite span_len_all; [by apply take_ge|]. eapply list.Forall_impl; [exact Hs|].
  intros x Hx. by rewrite bool_decide_eq_false_2.
Qed.

(** The last character of the text becomes a comma. *)
Lemma comma_ok buf s : dynamic buf → text buf = s ++ $"]" →
  ∃ p, ptr buf = Some p ∧ p !! (pos buf - 1)%nat = Some "]"%char ∧ pos buf ≠ 0%nat ∧
    let b := mk_strbuf (Some (<[(pos buf - 1)%nat := ","%char]> p)) (pos buf) (bufsize buf) (fixed buf) in
    dynamic b ∧ text b = s ++ $",".
Proof.
  intros (Hw & Hf & Ht) Htext. pose proof (text_length buf Hw) as Hpos. rewrite Htext, length_app in Hpos. simpl in Hpos.
  unfold text in Htext. destruct (ptr buf) as [p|] eqn:Ep;
    [change (default [] (Some p)) with p in Htext|cbn in Htext; rewrite take_nil in Htext; by destruct s].
  exists p. assert (p !! (pos buf - 1)%nat = Some "]"%char) as Hlast.
  { rewrite <-(lookup_take_lt p (pos buf)) by lia. rewrite Htext. replace (pos buf - 1)%nat with (length s + 0)%nat by lia.
    by rewrite lookup_app_r, Nat.add_comm, Nat.add_sub by lia. }
  split_and!; [done|done|lia|]. cbv zeta. unfold dynamic, strbuf_wf, terminated, text in *. cbn [ptr pos bufsize fixed].
  rewrite Ep in Hw, Ht. rewrite length_insert. split; [split; [exact Hw|split; [done|]]|].
  - destruct Ht as [?|(l & Hl & Hnul)]; [done|]. right. injection Hl as <-. eexists. split; [done|].
    rewrite list_lookup_insert_ne by lia. done.
  - match goal with |- take _ (default [] (Some ?x)) = _ => change (default [] (Some x)) with x end. rewrite take_insert_lt by lia. rewrite Htext. replace (pos buf - 1)%nat with (length s + 0)%nat by lia.
    rewrite insert_app_r. done.
Qed.

(** What is added to an array in the buffer; nothing is wrong with it unless
    an empty array is added to one that has elements. *)
Lemma append_array_ok buf js ks : dynamic buf → text buf = array_text js →
  ∃ b, append_array buf (render (j_arr ks)) ⇓ (0, b) ∧ dynamic b ∧
    text b = if decide (js ≠ [] ∧ ks = []) then $"[" ++ join (map render js) ++ $",]" else render (j_arr (js ++ ks)).
Proof.
  intros Hb Ht. pose proof Hb as (Hw & Hf & _). unfold append_array. rewrite Hf. cbn [andb].
  pose proof (text_length buf Hw) as Hpos. destruct js as [|j js].
  - rewrite Ht in Hpos. rewrite (proj2 (Nat.eqb_eq (pos buf) 0)) by (by rewrite <-Hpos). rewrite bind_ret, c_str_no_nul by apply render_no_nul.
    destruct (print_appends (render (j_arr ks)) buf Hb) as (b & E & Hd & Htx). exists b. split_and!; [done..|].
    rewrite decide_False by naive_solver. by rewrite Htx, Ht.
  - destruct (comma_ok buf ($"[" ++ join (map render (j :: js))) Hb) as (p & Ep & Hlast & Hne & Hd & Htx).
    { rewrite Ht. cbn [array_text]. by rewrite render_arr, app_assoc. }
    rewrite (proj2 (Nat.eqb_neq _ _) Hne), Ep. cbn [mopt]. rewrite bind_ret, Hlast. cbn [mopt]. rewrite bind_ret.
    rewrite bool_decide_eq_true_2 by done. cbn [massert]. rewrite bind_ret.
    destruct (array_body ks) as (body & Er & Hbody). pose proof (render_no_nul (j_arr ks)) as Hnn. rewrite Er in Hnn |- *.
    change ($"[" ++ body ++ $"]") with ("["%char :: body ++ $"]") in *. cbn [head mopt].
    rewrite bind_ret. rewrite bool_decide_eq_true_2 by done. cbn [massert]. rewrite !bind_ret. cbn [tail].
    apply Forall_cons_1 in Hnn as [_ Hnn]. rewrite c_str_no_nul by exact Hnn. rewrite Hf in Hd, Htx.
    destruct (print_appends (body ++ $"]") _ Hd) as (b & E & Hd' & Htx'). exists b. split_and!; [exact E|done|]. rewrite Htx', Htx.
    case_decide as Hk; [destruct Hk as [_ ->]; rewrite Hbody; simpl; by rewrite <-!app_assoc|].
    assert (ks ≠ []) as Hks by naive_solver. rewrite render_arr, map_app, join_app, Hbody by (by destruct ks). by rewrite <-!app_assoc.
Qed.
(** ** Families *)

Section families.
Context (Hgauge : ∀ x, MetaData.format_gauge x ≠ [] ∧ no_nul (MetaData.format_gauge x)).

Definition value_text (ty : metric_type_t) (v : value_t) : option cstr :=
  match ty, v with
  | METRIC_TYPE_COUNTER, v_counter c => if 0 <=? c then Some (CommonStr.decimal c) else None
  | METRIC_TYPE_GAUGE, v_gauge x | METRIC_TYPE_UNTYPED, v_gauge x => Some (MetaData.format_gauge x)
  | _, _ => None
  end.

Definition bucket_member (b : Distribution.bucket_t) : cstr * json :=
  (take 31 (MetaData.format_gauge (Distribution.maximum b)), j_str (take 31 (CommonStr.decimal (Distribution.bucket_counter b)))).

(** The members that show the value of a metric. *)
Definition shows_value fam m (ms : list (cstr * json)) : Prop :=
  (∃ w, value_text (type fam) (m_value m) = Some w ∧ ms = [($"value", j_str w)]) ∨
  (∃ d bs d' k, type fam = METRIC_TYPE_DISTRIBUTION ∧ m_value m = v_distribution (Some d) ∧
     Distribution.get_buckets true d = Some (bs, d') ∧ Distribution.distribution_total_counter d = Some k ∧ 0 ≤ k ∧
     ms = [($"buckets", j_obj (map bucket_member bs)); ($"count", j_str (CommonStr.decimal k));
           ($"sum", j_str (MetaData.format_gauge (Distribution.distribution_total_sum d)))]).

Definition label_members (kv : list (cstr * cstr)) : list (cstr * json) :=
  match kv with [] => [] | _ => [($"labels", j_obj (map (λ p, (p.1, j_str p.2)) kv))] end.
Definition time_members (t : Z) : list (cstr * json) :=
  if t =? 0 then [] else [($"timestamp_ms", j_str (CommonStr.decimal (Time.CDTIME_T_TO_MS t)))].
Definition shows_metric fam m j : Prop :=
  ∃ kv ms, label m = embed kv ∧ shows_value fam m ms ∧ j = j_obj (label_members kv ++ time_members (time m) ++ ms).

Definition family_json (nm : cstr) (ty : metric_type_t) (js : list json) : json :=
  j_obj [($"name", j_str nm); ($"type", j_str (json_type_name ty)); ($"metrics", j_arr js)].

Lemma decimal_text z : 0 ≤ z → CommonStr.decimal z ≠ [] ∧ no_nul (CommonStr.decimal z).
Proof.
  intros Hz. destruct (CommonStr.decimal_spec z Hz) as (Hd & _ & (d & t & _ & E & _) & _).
  split; [by rewrite E|].
  eapply list.Forall_impl; [exact Hd|]. intros x Hx ->. by vm_compute in Hx.
Qed.

Lemma printed_ok buf s : dynamic buf → text buf = [] → s ≠ [] → no_nul s →
  ∃ b, printed_text buf s ⇓ (Some s, b) ∧ dynamic b.
Proof.
  intros Hb Ht Hs Hn. destruct (printf_appends s buf Hb) as (b & E & Hd & Htx). rewrite Ht in Htx. cbn [app] in Htx. exists b.
  split; [|done]. unfold printed_text. eapply yields_bind; [exact E|]. cbv beta iota.
  by rewrite (dynamic_c_str b), Htx by (done || by rewrite Htx).
Qed.

Lemma marshal_value_text ty v w : value_text ty v = Some w →
  ∃ b, value_marshal_text STRBUF_CREATE v ty ⇓ (0, b) ∧ c_str <$> ptr b = Some w.
Proof.
  intros Hw. assert (w ≠ [] ∧ no_nul w ∧ value_marshal_text STRBUF_CREATE v ty = strbuf_printf STRBUF_CREATE w) as (Hne & Hnn & ->).
  { unfold value_text in Hw. destruct ty, v as [c|x|d|d]; simplify_eq/=; try (by destruct (Hgauge x)).
    destruct (Z.leb_spec 0 c); simplify_eq. by destruct (decimal_text c). }
  destruct (printf_appends w _ (proj1 dynamic_create)) as (b & E & Hd & Htx). rewrite (proj2 dynamic_create) in Htx. cbn [app] in Htx.
  exists b. split; [done|]. by rewrite (dynamic_c_str b), Htx by (done || by rewrite Htx).
Qed.

Lemma buckets_emits bs : emits (add_buckets bs) (members (map bucket_member bs)).
Proof.
  induction bs as [|b bs IH]; [apply ok_emits|]. cbn [add_buckets].
  apply (check_emits _ _ [_] (_ :: _)); [apply string_emits|]. apply (check_emits _ _ [_]); [apply string_emits|exact IH].
Qed.

Lemma distribution_emits d bs d' k : Distribution.get_buckets true d = Some (bs, d') →
  Distribution.distribution_total_counter d = Some k → 0 ≤ k →
  emits (format_metric_distribution STRBUF_CREATE d)
    (members [($"buckets", j_obj (map bucket_member bs)); ($"count", j_str (CommonStr.decimal k));
              ($"sum", j_str (MetaData.format_gauge (Distribution.distribution_total_sum d)))]).
Proof.
  intros Hbs Hk Hpos. destruct (decimal_text k Hpos) as [Hne Hnn].
  destruct (printed_ok STRBUF_CREATE _ (proj1 dynamic_create) (proj2 dynamic_create) Hne Hnn) as (b1 & E1 & D1).
  destruct (reset_yields b1 D1) as (b2 & E2 & D2 & T2).
  destruct (Hgauge (Distribution.distribution_total_sum d)) as [Hgne Hgnn]. destruct (printed_ok b2 _ D2 T2 Hgne Hgnn) as (b3 & E3 & D3).
  eapply (emits_eq _ ([_] ++ [_] ++ members (map bucket_member bs) ++ [_] ++ [_] ++ [_] ++ [_] ++ [_] ++ [])).
  { unfold members. cbn [map concat tokens fst snd app]. by rewrite <-!app_assoc. }
  unfold format_metric_distribution. apply check_emits; [apply string_emits|]. apply check_emits; [apply gen_emits|].
  apply (emits_bind alloc true); [apply yields_alloc|]. intros g rest j E. rewrite Hbs. cbn [mopt]. rewrite bind_ret. revert g rest j E.
  apply check_emits; [apply buckets_emits|]. apply check_emits; [apply gen_emits|].
  intros g rest j E. rewrite Hk. cbn [mopt]. rewrite bind_ret. eapply yields_bind; [exact E1|]. revert g rest j E.
  apply check_emits; [apply string_emits|]. apply check_emits; [apply string_emits|].
  intros g rest j E. eapply yields_bind; [exact E2|]. cbv beta. eapply yields_bind; [exact E3|]. revert g rest j E.
  apply check_emits; [apply string_emits|]. apply check_emits; [apply string_emits|apply ok_emits].
Qed.

Lemma value_emits fam m ms : shows_value fam m ms → emits (add_value fam m) (members ms ++ [t_map_close]).
Proof.
  intros [(w & Hw & ->)|(d & bs & d' & k & Hty & Hv & Hbs & Hk & Hpos & ->)].
  - destruct (marshal_value_text _ _ _ Hw) as (b & E & Hb). intros g rest j Eg. unfold add_value.
    rewrite bool_decide_eq_false_2 by (intros Hd; by rewrite Hd in Hw). eapply yields_bind; [exact E|]. cbn [negb Z.eqb]. rewrite Hb.
    revert g rest j Eg. apply (check_emits _ _ [_] [_; _]); [apply string_emits|].
    apply (check_emits _ _ [_] [_]); [apply string_emits|]. apply (check_emits _ _ [_] []); [apply gen_emits|apply ok_emits].
  - pose proof (distribution_emits d bs d' k Hbs Hk Hpos) as Hd. intros g rest j E. unfold add_value.
    rewrite bool_decide_eq_true_2 by done. rewrite Hv. cbn [as_distribution mopt]. rewrite bind_ret. cbn [mopt]. rewrite bind_ret. rewrite <-app_assoc in E.
    eapply yields_bind; [by eapply Hd|]. cbv beta iota. rewrite (app_assoc g). eapply gen_emits. rewrite <-app_assoc. exact E.
Qed.

Lemma metric_emits fam m j : shows_metric fam m j → emits (format_metric fam m) (tokens j).
Proof.
  intros (kv & ms & Hl & Hv & ->). unfold format_metric. cbn [tokens]. fold (members ms).
  eapply (emits_eq _ ([t_map_open] ++ members (label_members kv) ++ members (time_members (time m)) ++ (members ms ++ [t_map_close]))).
  { unfold members. rewrite !map_app, !concat_app. cbn [app]. by rewrite <-!app_assoc. }
  apply check_emits; [apply gen_emits|]. apply check_emits; [|apply check_emits; [|by apply value_emits]].
  - rewrite Hl, length_embed. destruct kv as [|p kv]; [apply ok_emits|]. simpl Nat.eqb. cbv iota.
    eapply (emits_eq _ ([_] ++ [_] ++ members (map (λ p, (p.1, j_str p.2)) (p :: kv)) ++ [t_map_close] ++ [])).
    { unfold members, label_members. cbn [map concat tokens fst snd app]. rewrite !app_nil_r. done. }
    apply check_emits; [apply string_emits|]. apply check_emits; [apply gen_emits|].
    apply check_emits; [apply pairs_emits|]. apply check_emits; [apply gen_emits|apply ok_emits].
  - unfold time_members. destruct (time m =? 0); [apply ok_emits|]. apply (check_emits _ _ [_] [_]); [apply string_emits|].
    apply (check_emits _ _ [_] []); [apply string_emits|apply ok_emits].
Qed.

Lemma family_emits fam nm js : fam_name fam = Some nm → Forall2 (shows_metric fam) (metric fam) js →
  emits (json_metric_family fam) (tokens (family_json nm (type fam) js)).
Proof.
  intros Hn Hms. assert (∀ ms, Forall2 (shows_metric fam) ms js → emits (format_metrics fam ms) (concat (map tokens js))) as Hloop.
  { clear Hms. intros ms. induction 1 as [|m j ms js Hm _ IH]; [apply ok_emits|]. cbn [format_metrics map concat].
    apply check_emits; [by apply metric_emits|done]. }
  unfold json_metric_family. rewrite Hn.
  eapply (emits_eq _ ([_] ++ [_] ++ [_] ++ [_] ++ [_] ++ [_] ++ [_] ++ concat (map tokens js) ++ [_] ++ [_] ++ [])).
  { cbn [tokens family_json map concat fst snd app]. by rewrite <-!app_assoc. }
  repeat (apply check_emits; [first [apply string_emits|apply gen_emits|by apply Hloop]|]). apply ok_emits.
Qed.

Lemma sound_arr d js : sound (S d) (j_arr js) = Forall (sound d) js.
Proof. done. Qed.
Lemma sound_obj d ms : sound (S d) (j_obj ms) = Forall (λ p, sound d p.2) ms.
Proof. done. Qed.
Lemma strings_sound d (kv : list (cstr * cstr)) : Forall (λ p : cstr * json, sound d p.2) (map (λ p, (p.1, j_str p.2)) kv).
Proof. apply list.Forall_forall. intros x (p & -> & _)%list_elem_of_fmap. by destruct d. Qed.

(** A metric has at most three levels, and numbers are written as strings. *)
Lemma metric_sound d fam m j : shows_metric fam m j → sound (S (S d)) j.
Proof.
  intros (kv & ms & _ & Hv & ->). cbn [sound]. rewrite !list.Forall_app. split_and!.
  - destruct kv; [constructor|]. apply Forall_cons_2; [|constructor]. apply strings_sound.
  - unfold time_members. case_match; [constructor|]. by repeat constructor.
  - destruct Hv as [(w & _ & ->)|(dist & bs & d' & k & _ & _ & _ & _ & _ & ->)]; [by repeat constructor|].
    apply Forall_cons_2; [|by repeat constructor]. cbn [snd sound]. apply list.Forall_forall.
    intros x (b & -> & _)%list_elem_of_fmap. by destruct d.
Qed.
Lemma family_sound d fam nm js : Forall2 (shows_metric fam) (metric fam) js →
  sound (S (S (S (S (S d))))) (j_arr [family_json nm (type fam) js]).
Proof.
  intros Hms. cbn [sound family_json]. apply Forall_cons_2; [|constructor].
  apply Forall_cons_2; [done|]. apply Forall_cons_2; [done|]. apply Forall_cons_2; [|constructor]. cbn [snd sound].
  induction Hms; constructor; [by eapply metric_sound|done].
Qed.

(** C24. The buffer holds one JSON array: formatting a family appends its
    object, with name, type, labels, times and values of all metrics, to the
    elements that are there.  The generator is only called in the order that
    the grammar allows, and only with values that it accepts: numbers go in as
    texts, and the nesting stays far below the depth that yajl documents
    ([sound], [family_sound]). *)
Theorem format_json_spec buf fam nm js ms : dynamic buf → text buf = array_text js → fam_name fam = Some nm →
  Forall2 (shows_metric fam) (metric fam) ms →
  ∃ b, format_json_metric_family buf fam ⇓ (0, b) ∧ dynamic b ∧
    text b = array_text (js ++ [family_json nm (type fam) ms]).
Proof.
  intros Hb Ht Hn Hms. set (j := family_json nm (type fam) ms).
  destruct (append_array_ok buf js [j] Hb Ht) as (b & E & Hd & Htx). rewrite decide_False in Htx by naive_solver.
  exists b. split_and!; [|done|]; [|rewrite Htx; by destruct js]. unfold format_json_metric_family.
  eapply yields_bind; [apply yields_alloc|]. cbn [negb].
  assert (sound max_depth (j_arr [j])) as Hsound by exact (family_sound 122 fam nm ms Hms). set (v := exist _ (j_arr [j]) Hsound : vjson).
  assert (tokens (`v) = [t_array_open] ++ tokens j ++ [t_array_close]) as Htok by (cbn [tokens map concat proj1_sig v]; by rewrite app_nil_r).
  eapply yields_bind; [eapply (gen_emits t_array_open [] _ v); by rewrite Htok|]. cbv beta iota. cbn [app].
  eapply yields_bind; [eapply (family_emits fam nm ms Hn Hms [t_array_open] _ v); by rewrite Htok|]. cbn [negb Z.eqb].
  eapply yields_bind; [eapply (gen_emits t_array_close ([t_array_open] ++ tokens j) [] v); by rewrite Htok, <-app_assoc|].
  cbv beta iota. fold j. rewrite <-app_assoc, <-Htok, gen_text by done. cbn [negb Z.eqb]. exact E.
Qed.
End families.

(** ** KairosDB *)

Implicit Types (c : cache T) (opts : option format_kairosdb_opts_t).

Definition number_json (x : double) : json := if isfinite x then j_num x else j_null.
Definition with_rates opts : bool := match opts with Some o => store_rates o | None => false end.

(** The value of a metric; a rate is what the cache answers. *)
Definition kairos_value c fam m opts j : Prop :=
  match type fam with
  | METRIC_TYPE_GAUGE | METRIC_TYPE_UNTYPED => ∃ x, m_value m = v_gauge x ∧ j = number_json x
  | METRIC_TYPE_COUNTER =>
      if with_rates opts then ∃ st rate, uc_get_rate c fam m ⇓ (st, rate, c) ∧ j = number_json (default NAN rate)
      else ∃ k, m_value m = v_counter k ∧ j = j_int (i64 k)
  | METRIC_TYPE_DISTRIBUTION =>
      if with_rates opts then ∃ st rate, uc_get_rate c fam m ⇓ (st, rate, c) ∧ j = number_json (default NAN rate)
      else j = j_null
  end.
Definition kairos_name opts (nm : cstr) : cstr :=
  match opts with Some {| metrics_prefix := Some p |} => p ++ nm | _ => nm end.
Definition ttl_members opts : list (cstr * json) :=
  match opts with Some o => if ttl_secs o =? 0 then [] else [($"ttl", j_int (ttl_secs o))] | None => [] end.
Definition tag_members (kv : list (cstr * cstr)) : list (cstr * json) :=
  match kv with [] => [] | _ => [($"tags", j_obj (map (λ p, (p.1, j_str p.2)) kv))] end.

Definition kairos_metric c fam opts (nm : cstr) m j : Prop :=
  ∃ kv v, label m = embed kv ∧ kairos_value c fam m opts v ∧
    j = j_obj ([($"name", j_str (kairos_name opts nm)); ($"timestamp", j_int (i64 (Time.CDTIME_T_TO_MS (time m)))); ($"value", v)] ++
               ttl_members opts ++ tag_members kv).

Lemma number_emits x : emits (CHECK (add_number x) ok) (tokens (number_json x)).
Proof.
  unfold add_number, number_json. destruct (isfinite x); (apply (check_emits _ _ [_] []); [apply gen_emits|apply ok_emits]).
Qed.

Lemma kairos_value_emits c fam m opts v g rest (j : vjson) : kairos_value c fam m opts v → g ++ tokens v ++ rest = tokens (`j) →
  json_add_value c fam m opts g ⇓ (0, g ++ tokens v, c).
Proof.
  intros Hv E. unfold json_add_value, kairos_value, with_rates in *. eapply (yields_bind _ _ (0, g ++ tokens v, c)); [|done].
  assert (∀ k, tokens v = [k] → (let* r := CHECK (yajl_gen k) ok g in ret (r, c)) ⇓ (0, g ++ tokens v, c)) as Htok.
  { intros k Ek. rewrite Ek in E |- *. eapply yields_bind; [eapply (check_emits _ _ [k] [] (gen_emits k) ok_emits); exact E|done]. }
  assert (∀ x, v = number_json x → (let* r := CHECK (add_number x) ok g in ret (r, c)) ⇓ (0, g ++ tokens v, c)) as Hnum.
  { intros x ->. eapply yields_bind; [by eapply number_emits|done]. }
  destruct (type fam); cbn [bool_decide orb] in *.
  - destruct (match opts with Some o => store_rates o | None => false end) eqn:Eo.
    + destruct Hv as (st & rate & Hr & Ej). cbn. eapply yields_bind; [exact Hr|]. by apply Hnum.
    + destruct Hv as (k & Hm & ->). cbn. rewrite Hm. cbn [as_counter mopt]. rewrite bind_ret. by apply Htok.
  - destruct Hv as (x & Hm & Ej). cbn. rewrite Hm. cbn [Formats.union_gauge]. rewrite bind_ret. by apply Hnum.
  - destruct Hv as (x & Hm & Ej). cbn. rewrite Hm. cbn [Formats.union_gauge]. rewrite bind_ret. by apply Hnum.
  - destruct (match opts with Some o => store_rates o | None => false end) eqn:Eo.
    + destruct Hv as (st & rate & Hr & Ej). cbn. eapply yields_bind; [exact Hr|]. by apply Hnum.
    + subst v. cbn. by apply Htok.
Qed.

Lemma name_emits fam opts nm : fam_name fam = Some nm → nm ≠ [] → no_nul (kairos_name opts nm) →
  emits (add_name fam opts) [t_string (kairos_name opts nm)].
Proof.
  intros Hn Hne Hnn. unfold add_name, kairos_name in *. rewrite Hn. destruct opts as [[sr ttl [p|]]|]; try apply string_emits.
  destruct (pr_extends _ _ (print_appends p) _ (proj1 dynamic_create)) as (b1 & E1 & D1 & T1).
  destruct (pr_extends _ _ (print_appends nm) b1 D1) as (b2 & E2 & D2 & T2).
  rewrite T1, (proj2 dynamic_create) in T2. cbn [app] in T2. assert (p ++ nm ≠ []) as Hpn by (by destruct p).
  intros g rest j E. eapply yields_bind; [exact E1|]. cbv beta. eapply yields_bind; [exact E2|]. cbv beta.
  rewrite (dynamic_c_str b2), T2 by (done || by rewrite T2). by eapply string_emits.
Qed.

Lemma ttl_emits opts : emits (add_ttl opts) (members (ttl_members opts)).
Proof.
  unfold add_ttl, ttl_members. destruct opts as [o|]; [|apply ok_emits]. destruct (ttl_secs o =? 0); [apply ok_emits|].
  apply (check_emits _ _ [_] [_]); [apply string_emits|]. apply (check_emits _ _ [_] []); [apply gen_emits|apply ok_emits].
Qed.

Lemma tags_emits m kv : label m = embed kv → emits (add_tags m) (members (tag_members kv)).
Proof.
  intros Hl. unfold add_tags. rewrite Hl, length_embed. destruct kv as [|p kv]; [apply ok_emits|]. simpl Nat.eqb. cbv iota.
  eapply (emits_eq _ ([_] ++ [_] ++ members (map (λ p, (p.1, j_str p.2)) (p :: kv)) ++ [t_map_close] ++ [])).
  { unfold members, tag_members. cbn [map concat tokens fst snd app]. rewrite !app_nil_r. done. }
  apply check_emits; [apply string_emits|]. apply check_emits; [apply gen_emits|].
  apply check_emits; [apply pairs_emits|]. apply check_emits; [apply gen_emits|apply ok_emits].
Qed.

Lemma kairos_metric_emits c fam opts nm m v g rest (j : vjson) : fam_name fam = Some nm → nm ≠ [] → no_nul (kairos_name opts nm) →
  kairos_metric c fam opts nm m v → g ++ tokens v ++ rest = tokens (`j) → json_add_metric c fam m opts g ⇓ (0, g ++ tokens v, c).
Proof.
  intros Hn Hne Hnn (kv & x & Hl & Hx & ->) E. unfold json_add_metric.
  set (a := [t_map_open] ++ [t_string $"name"] ++ [t_string (kairos_name opts nm)] ++ [t_string $"timestamp"] ++
    [t_integer (i64 (Time.CDTIME_T_TO_MS (time m)))] ++ [t_string $"value"] ++ []).
  set (z := members (ttl_members opts) ++ members (tag_members kv) ++ [t_map_close] ++ []).
  assert (tokens (j_obj ([($"name", j_str (kairos_name opts nm)); ($"timestamp", j_int (i64 (Time.CDTIME_T_TO_MS (time m))));
    ($"value", x)] ++ ttl_members opts ++ tag_members kv)) = a ++ tokens x ++ z) as Htok.
  { unfold a, z, members. cbn [tokens]. rewrite !map_app, !concat_app. cbn [map concat tokens fst snd app].
    rewrite !app_nil_r. by rewrite <-!app_assoc. }
  rewrite Htok in E |- *. rewrite <-!app_assoc in E.
  assert (emits (CHECK (yajl_gen t_map_open) (CHECK (json_add_string (Some $"name")) (CHECK (add_name fam opts) (
    CHECK (json_add_string (Some $"timestamp")) (CHECK (yajl_gen (t_integer (i64 (Time.CDTIME_T_TO_MS (time m))))) (
    CHECK (json_add_string (Some $"value")) ok)))))) a) as Ha.
  { unfold a. repeat (apply check_emits; [first [apply gen_emits|apply string_emits|by apply name_emits]|]). apply ok_emits. }
  assert (emits (CHECK (add_ttl opts) (CHECK (add_tags m) (CHECK (yajl_gen t_map_close) ok))) z) as Hz.
  { unfold z. apply check_emits; [apply ttl_emits|]. apply check_emits; [by apply tags_emits|].
    apply check_emits; [apply gen_emits|apply ok_emits]. }
  eapply yields_bind; [by eapply Ha|]. cbn [negb Z.eqb].
  eapply yields_bind; [eapply (kairos_value_emits _ _ _ _ _ _ (z ++ rest)); [done|by rewrite <-app_assoc]|]. cbn [negb Z.eqb].
  eapply yields_bind; [eapply (Hz _ rest j); by rewrite <-!app_assoc|]. cbv beta iota. by rewrite <-!app_assoc.
Qed.

Lemma kairos_metric_sound d c fam opts nm m v : kairos_metric c fam opts nm m v → sound (S (S d)) v.
Proof.
  intros (kv & x & _ & Hx & ->). cbn [sound]. rewrite !list.Forall_app.
  assert (∀ y, sound (S d) (number_json y)) as Hnum by (intros y; unfold number_json; by destruct (isfinite y) eqn:Ey).
  split_and!.
  - apply Forall_cons_2; [done|]. apply Forall_cons_2; [done|]. apply Forall_cons_2; [|constructor]. cbn [snd]. unfold kairos_value in Hx.
    destruct (type fam), (with_rates opts);
      first [destruct Hx as (? & ? & _ & ->); apply Hnum|destruct Hx as (? & _ & ->); first [apply Hnum|done]|by subst x].
  - unfold ttl_members. repeat case_match; by repeat constructor.
  - destruct kv; [constructor|]. apply Forall_cons_2; [|constructor]. apply strings_sound.
Qed.

Lemma kairos_sound d c fam opts nm ms ks : Forall2 (kairos_metric c fam opts nm) ms ks → sound (S (S (S d))) (j_arr ks).
Proof. intros Hms. cbn [sound]. induction Hms; constructor; [by eapply kairos_metric_sound|done]. Qed.

(** KairosDB: formatting a family with metrics appends one object for each
    to the array in the buffer; but a family without metrics leaves text that
    is no JSON in a buffer that holds elements. *)
Theorem format_kairosdb_spec c buf fam opts nm js ks : dynamic buf → text buf = array_text js →
  fam_name fam = Some nm → nm ≠ [] → no_nul (kairos_name opts nm) → Forall2 (kairos_metric c fam opts nm) (metric fam) ks →
  ∃ b, format_kairosdb_metric_family c buf fam opts ⇓ (0, b, c) ∧
    text b = if decide (js ≠ [] ∧ metric fam = []) then $"[" ++ join (map render js) ++ $",]" else render (j_arr (js ++ ks)).
Proof.
  intros Hb Ht Hn Hne Hnn Hms. destruct (append_array_ok buf js ks Hb Ht) as (b & E & _ & Htx).
  exists b. split; cycle 1.
  { rewrite Htx. apply Forall2_length in Hms. assert (metric fam = [] ↔ ks = []) as Hiff by (by destruct (metric fam), ks).
    do 2 case_decide; naive_solver. }
  assert (∀ ms ks g rest (j : vjson), Forall2 (kairos_metric c fam opts nm) ms ks → g ++ concat (map tokens ks) ++ rest = tokens (`j) →
    kairosdb_metrics c fam ms opts g ⇓ (0, g ++ concat (map tokens ks), c)) as Hloop.
  { clear ks Hms E Htx. intros ms ks g rest j Hms. revert g. induction Hms as [|m k ms ks Hm _ IH]; intros g Eg.
    - cbn [kairosdb_metrics map concat]. by rewrite app_nil_r.
    - cbn [kairosdb_metrics map concat] in *. rewrite <-app_assoc in Eg.
      eapply yields_bind; [by eapply kairos_metric_emits|]. cbn [negb Z.eqb]. rewrite app_assoc. apply IH. by rewrite <-app_assoc. }
  assert (sound max_depth (j_arr ks)) as Hsound by exact (kairos_sound 124 c fam opts nm _ ks Hms).
  set (v := exist _ (j_arr ks) Hsound : vjson).
  unfold format_kairosdb_metric_family. eapply yields_bind; [apply yields_alloc|]. cbn [negb].
  eapply (yields_bind _ _ (0, tokens (j_arr ks), c)).
  - unfold kairosdb_metric_family. eapply yields_bind; [by eapply (gen_emits t_array_open [] _ v)|]. cbn [negb Z.eqb app].
    eapply yields_bind; [by eapply (Hloop _ _ [t_array_open] _ v)|]. cbn [negb Z.eqb].
    eapply yields_bind; [by eapply (check_emits _ _ [t_array_close] [] (gen_emits _) ok_emits ([t_array_open] ++ concat (map tokens ks)) [] v)|].
    cbv beta iota. by rewrite app_nil_r.
  - cbv beta iota. cbn [negb Z.eqb]. rewrite gen_text by done. cbn [negb Z.eqb]. by eapply yields_bind.
Qed.

(** ** Notifications *)

Definition alert_json (nm : cstr) (kv an : list (cstr * cstr)) (sev : Z) (starts : cstr) : json :=
  j_arr [j_obj [
    ($"labels", j_obj (($"alertname", j_str nm) ::
       map (λ p, (p.1, j_str p.2)) (filter (λ p, p.1 ∉ alert_names) kv) ++
       [($"severity", j_str (alert_severity sev)); ($"service", j_str $"collectd")]));
    ($"annotations", j_obj (map (λ p, (p.1, j_str p.2)) an));
    ($"startsAt", j_str starts)]].

Lemma alert_emits n nm kv an starts : n_name n = Some nm → n_label n = embed kv → annotation n = embed an →
  emits (format_time (n_time n)) [t_string starts] →
  emits (format_alert n) (tokens (alert_json nm kv an (severity n) starts)).
Proof.
  intros Hn Hl Ha Ht. unfold format_alert. rewrite Hn, Hl, Ha.
  eapply (emits_eq _ ([_] ++ [_] ++ [_] ++ [_] ++ [_] ++ [_] ++
    members (map (λ p, (p.1, j_str p.2)) (filter (λ p, p.1 ∉ alert_names) kv)) ++ [_] ++ [_] ++ [_] ++ [_] ++ [_] ++ [_] ++ [_] ++
    members (map (λ p, (p.1, j_str p.2)) an) ++ [_] ++ [_] ++ ([t_string starts] ++ [_] ++ [_] ++ []))).
  { unfold alert_json, members. cbn [tokens map concat fst snd]. rewrite map_app, concat_app. cbn [map concat tokens fst snd app].
    rewrite !app_nil_r. by repeat (cbn [app]; rewrite <-?app_assoc). }
  repeat (apply check_emits; [first [apply string_emits|apply gen_emits|by apply skipped_emits|apply pairs_emits]|]).
  intros g rest j E. rewrite <-app_assoc in E. eapply yields_bind; [by eapply Ht|]. cbn [negb Z.eqb]. rewrite (app_assoc g).
  eapply (check_emits _ _ [_] ([_] ++ []) (gen_emits _)); [|by rewrite <-app_assoc].
  apply check_emits; [apply gen_emits|apply ok_emits].
Qed.

Lemma time_emits t : in_u64 t → ∃ starts, emits (format_time t) [t_string starts].
Proof.
  intros Ht. destruct (Time.rfc3339_spec (replicate Time.RFC3339NANO_SIZE NUL) t Ht) as (_ & _ & _ & Hnano).
  destruct Hnano as (txt & k & E & _); [by rewrite length_replicate; unfold Time.RFC3339NANO_SIZE|].
  eexists. intros g rest j Eg. unfold format_time. rewrite E, bind_ret. cbn [negb Z.eqb].
  eapply (check_emits _ _ [_] [] (string_emits _) ok_emits). exact Eg.
Qed.

Lemma alert_sound d nm kv an sev starts : sound (S (S (S (S d)))) (alert_json nm kv an sev starts).
Proof.
  unfold alert_json. rewrite sound_arr. apply Forall_cons_2; [|constructor]. rewrite sound_obj, !list.Forall_cons. cbn [snd].
  rewrite !sound_obj, list.Forall_cons, list.Forall_app. split_and!; [done|apply strings_sound|by repeat constructor|apply strings_sound|done|constructor].
Qed.

(** A notification is written as an alert: an array of one object, cut to the
    size of the buffer without an error. *)
Theorem format_json_notification_spec n nm kv an buffer : n_name n = Some nm → n_label n = embed kv → annotation n = embed an →
  in_u64 (n_time n) → (1 ≤ length buffer)%nat →
  ∃ starts k, format_json_notification buffer n ⇓
    (0, take (length buffer - 1) (render (alert_json nm kv an (severity n) starts)) ++ replicate k NUL) ∧ (1 ≤ k)%nat.
Proof.
  intros Hn Hl Ha Ht Hb. destruct (time_emits (n_time n) Ht) as [starts Hs]. exists starts.
  set (j := alert_json nm kv an (severity n) starts). set (out := render j).
  exists (length buffer - (length buffer - 1) `min` length out)%nat. split; [|lia]. unfold format_json_notification.
  eapply yields_bind; [apply yields_alloc|]. cbn [negb].
  assert (sound max_depth j) as Hsound by exact (alert_sound 123 nm kv an (severity n) starts).
  eapply yields_bind; [by eapply (alert_emits n nm kv an starts Hn Hl Ha Hs [] [] (exist _ j Hsound : vjson)); rewrite app_nil_r|].
  cbn [negb Z.eqb app]. fold j. rewrite gen_text by done. cbn [negb Z.eqb]. rewrite c_str_no_nul by apply render_no_nul. fold out.
  pose proof (CommonStr.sstrncpy_at [] buffer out (length buffer) ltac:(lia)) as Hcp. cbn [app length] in Hcp.
  rewrite Hcp, bind_ret, drop_all, app_nil_r. done.
Qed.
End laws.

(** ** A generator that satisfies the laws

    The text is made call by call, with the stack of open arrays and maps and
    the number of their parts. *)

Module Demo.
Definition sep (o : bool) (k : nat) : cstr :=
  if o then if Nat.odd k then $":" else match k with O => [] | _ => $"," end
  else match k with O => [] | _ => $"," end.
Definition quoted (s : cstr) : cstr := QUOTE :: filter (λ x, x ≠ NUL) s ++ [QUOTE].
Definition scalar (t : tok) : cstr :=
  match t with
  | t_null => $"null"
  | t_string s => quoted s
  | t_integer z => CommonStr.decimal_signed z
  | t_double _ => $"0.5"
  | _ => []
  end.

Fixpoint text_of (st : list (bool * nat)) (ts : list tok) : cstr :=
  match ts, st with
  | t :: ts, (o, k) :: st =>
      match t with
      | t_map_open => sep o k ++ $"{" ++ text_of ((true, 0%nat) :: (o, S k) :: st) ts
      | t_array_open => sep o k ++ $"[" ++ text_of ((false, 0%nat) :: (o, S k) :: st) ts
      | t_map_close => $"}" ++ text_of st ts
      | t_array_close => $"]" ++ text_of st ts
      | _ => sep o k ++ scalar t ++ text_of ((o, S k) :: st) ts
      end
  | _, _ => []
  end.

Fixpoint render (j : json) : cstr :=
  match j with
  | j_null => scalar t_null
  | j_str s => scalar (t_string s)
  | j_int z => scalar (t_integer z)
  | j_num d => scalar (t_double d)
  | j_arr js => $"[" ++ join (map render js) ++ $"]"
  | j_obj ms => $"{" ++ join (map (λ p, quoted p.1 ++ $":" ++ render p.2) ms) ++ $"}"
  end.

Section json_rect.
Context (P : json → Prop) (Hn : P j_null) (Hs : ∀ s, P (j_str s)) (Hi : ∀ z, P (j_int z)) (Hd : ∀ d, P (j_num d))
  (Ha : ∀ js, Forall P js → P (j_arr js)) (Ho : ∀ ms, Forall (λ p : cstr * json, P p.2) ms → P (j_obj ms)).
Fixpoint json_induct (j : json) : P j :=
  match j with
  | j_null => Hn | j_str s => Hs s | j_int z => Hi z | j_num d => Hd d
  | j_arr js => Ha js ((fix go js : Forall P js :=
      match js with [] => Forall_nil_2 P | j :: js => Forall_cons_2 P j js (json_induct j) (go js) end) js)
  | j_obj ms => Ho ms ((fix go ms : Forall (λ p : cstr * json, P p.2) ms :=
      match ms with [] => Forall_nil_2 _ | p :: ms => Forall_cons_2 _ p ms (json_induct p.2) (go ms) end) ms)
  end.
End json_rect.

Lemma join_concat s l : join (s :: l) = s ++ concat (map (λ x, $"," ++ x) l).
Proof.
  revert s. induction l as [|x l IH]; intros s; [cbn; by rewrite app_nil_r|].
  change (join (s :: x :: l)) with (s ++ $"," ++ join (x :: l)). rewrite IH. cbn [map concat]. by rewrite <-app_assoc.
Qed.

Definition spells (j : json) : Prop := ∀ o k st rest,
  text_of ((o, k) :: st) (tokens j ++ rest) = sep o k ++ render j ++ text_of ((o, S k) :: st) rest.

Lemma text_of_elements js st rest : Forall spells js → ∀ i,
  text_of ((false, S i) :: st) (concat (map tokens js) ++ t_array_close :: rest)
  = concat (map (λ x, $"," ++ x) (map render js)) ++ $"]" ++ text_of st rest.
Proof.
  induction 1 as [|j js Hj _ IH]; intros i; [done|]. cbn [map concat]. rewrite <-!app_assoc, Hj, IH. done.
Qed.

Definition member_text (p : cstr * json) : cstr := quoted p.1 ++ $":" ++ render p.2.

Lemma text_of_member key v i st rest : spells v → Nat.odd i = false →
  text_of ((true, i) :: st) (t_string key :: tokens v ++ rest)
  = match i with O => [] | _ => $"," end ++ member_text (key, v) ++ text_of ((true, S (S i)) :: st) rest.
Proof.
  intros Hv Hi. cbn [text_of]. rewrite Hv. unfold sep, member_text. rewrite Hi. cbn [fst snd scalar].
  assert (Nat.odd (S i) = true) as -> by (rewrite Nat.odd_succ; unfold Nat.odd in Hi; by apply negb_false_iff in Hi).
  by rewrite <-!app_assoc.
Qed.

Lemma text_of_members ms st rest : Forall (λ p : cstr * json, spells p.2) ms → ∀ i, Nat.odd i = false →
  text_of ((true, S (S i)) :: st) (concat (map (λ p, t_string p.1 :: tokens p.2) ms) ++ t_map_close :: rest)
  = concat (map (λ x, $"," ++ x) (map member_text ms)) ++ $"}" ++ text_of st rest.
Proof.
  induction 1 as [|[key v] ms Hv _ IH]; intros i Hi; [done|]. assert (Nat.odd (S (S i)) = false) as Hi2 by done.
  cbn [map concat fst snd app]. rewrite <-!app_assoc, text_of_member, IH by done. done.
Qed.

Lemma text_of_value j : spells j.
Proof.
  induction j as [| | | |js IH|ms IH] using json_induct; intros o k st rest; try done.
  - cbn [tokens app text_of render]. rewrite <-!app_assoc. do 2 f_equal. cbn [app].
    destruct IH as [|j js Hj Hjs]; [done|]. cbn [map concat]. rewrite join_concat, <-!app_assoc, Hj, text_of_elements by done. done.
  - cbn [tokens app text_of render]. rewrite <-!app_assoc. do 2 f_equal. cbn [app].
    destruct IH as [|[key v] ms Hv Hms]; [done|]. fold member_text. cbn [map concat fst snd app].
    rewrite <-!app_assoc, text_of_member, text_of_members by done. rewrite join_concat, <-!app_assoc. done.
Qed.

Lemma quoted_no_nul s : no_nul (quoted s).
Proof.
  unfold quoted, no_nul. constructor; [done|]. apply list.Forall_app. split; [|by repeat constructor].
  apply list.Forall_forall. intros x Hx. by apply list_elem_of_filter in Hx as [? _].
Qed.

Lemma join_no_nul l : Forall no_nul l → no_nul (join l).
Proof.
  intros Hl. destruct Hl as [|s l Hs Hl]; [constructor|]. rewrite join_concat. unfold no_nul in *. apply list.Forall_app. split; [done|].
  induction Hl as [|x l Hx _ IH]; [constructor|]. cbn [map concat]. rewrite !list.Forall_app. split_and!; [by repeat constructor|done|done].
Qed.

Lemma int_no_nul z : no_nul (CommonStr.decimal_signed z).
Proof.
  assert (∀ k, 0 ≤ k → no_nul (CommonStr.decimal k)) as Hd.
  { intros k Hk. destruct (CommonStr.decimal_spec k Hk) as [Hdig _]. eapply list.Forall_impl; [exact Hdig|]. intros x Hx ->. by vm_compute in Hx. }
  unfold CommonStr.decimal_signed. destruct (Z.ltb_spec z 0); [constructor; [done|]|]; apply Hd; lia.
Qed.

Lemma demo_no_nul j : no_nul (render j).
Proof.
  induction j as [|s|z|d|js IH|ms IH] using json_induct; cbn [render scalar].
  - by apply (bool_decide_unpack _).
  - apply quoted_no_nul.
  - apply int_no_nul.
  - by apply (bool_decide_unpack _).
  - unfold no_nul. rewrite !list.Forall_app. split_and!; [by repeat constructor| |by repeat constructor].
    apply join_no_nul. induction IH; constructor; done.
  - unfold no_nul. rewrite !list.Forall_app. split_and!; [by repeat constructor| |by repeat constructor].
    apply join_no_nul. induction IH as [|[key v] ms Hv _ IHms]; constructor; [|done]. unfold no_nul. rewrite !list.Forall_app.
    split_and!; [apply quoted_no_nul|by repeat constructor|done].
Qed.

#[local] Instance yajl : Yajl := {| gen_status _ _ := 0; gen_buf ts := (0, text_of [(false, 0%nat)] ts) |}.
#[local] Instance yajl_laws : YajlLaws render.
Proof.
  constructor.
  - done.
  - intros j _. cbn [gen_buf yajl]. pose proof (text_of_value j false 0%nat [] []) as E. rewrite app_nil_r in E. rewrite E.
    cbn. by rewrite app_nil_r.
  - done.
  - apply demo_no_nul.
Qed.
End Demo.

(** ** Witnesses *)

#[local] Existing Instances Demo.yajl Demo.yajl_laws Avl.avl_map Avl.avl_laws.
#[local] Instance demo_sysconf : Sysconf := 4096.
#[local] Instance demo_format_gauge : MetaData.FormatGauge := λ _, $"1.5".
Lemma demo_gauge_text (x : double) : MetaData.format_gauge x ≠ [] ∧ no_nul (MetaData.format_gauge x).
Proof. split; [done|]. by apply (bool_decide_unpack _). Qed.

Definition demo_metric : metric_t := mk_metric (embed [($"cpu", $"0")]) (v_gauge (of_Z 1)) (2 ^ 30) 10 None.
Definition demo_family : metric_family_t := mk_family (Some $"load") None METRIC_TYPE_GAUGE [demo_metric].
Definition demo_metric_json : json :=
  j_obj [($"labels", j_obj [($"cpu", j_str $"0")]); ($"timestamp_ms", j_str $"1000"); ($"value", j_str $"1.5")].

Lemma demo_shows : shows_metric demo_family demo_metric demo_metric_json.
Proof.
  exists [($"cpu", $"0")], [($"value", j_str $"1.5")]. split_and!; [done| |done]. left. by exists $"1.5".
Qed.

Lemma format_json_spec_witness :
  ∃ b, format_json_metric_family STRBUF_CREATE demo_family ⇓ (0, b) ∧ dynamic b ∧
    text b = array_text (render := Demo.render) ([] ++ [family_json $"load" METRIC_TYPE_GAUGE [demo_metric_json]]).
Proof.
  apply (format_json_spec (render := Demo.render) demo_gauge_text STRBUF_CREATE demo_family $"load" []); [apply dynamic_create|done|done|].
  constructor; [apply demo_shows|constructor].
Defined.

Definition demo_opts : option format_kairosdb_opts_t := Some (mk_opts false 300 (Some $"x.")).
Definition demo_kairos_json : json :=
  j_obj [($"name", j_str $"x.load"); ($"timestamp", j_int 1000); ($"value", j_num (of_Z 1)); ($"ttl", j_int 300);
         ($"tags", j_obj [($"cpu", j_str $"0")])].
Definition empty_cache : cache (Avl.c_avl_tree cstr) := mk_cache (Some Avl.c_avl_create) false.

Lemma format_kairosdb_spec_witness :
  ∃ b, format_kairosdb_metric_family empty_cache STRBUF_CREATE demo_family demo_opts ⇓ (0, b, empty_cache) ∧
    text b = Demo.render (j_arr [demo_kairos_json]).
Proof.
  apply (format_kairosdb_spec (render := Demo.render) empty_cache STRBUF_CREATE demo_family demo_opts $"load" [] [demo_kairos_json]);
    [apply dynamic_create|done|done|done|by apply (bool_decide_unpack _)|].
  constructor; [|constructor]. exists [($"cpu", $"0")], (j_num (of_Z 1)). split_and!; [done| |done]. by exists (of_Z 1).
Defined.

Lemma format_json_notification_spec_witness :
  ∃ starts k, format_json_notification (replicate 8 NUL) demo_notification ⇓
    (0, take 7 (Demo.render (alert_json $"load" [($"host", $"a")] [($"summary", $"x")] NOTIF_WARNING starts)) ++ replicate k NUL) ∧
    (1 ≤ k)%nat.
Proof.
  apply (format_json_notification_spec (render := Demo.render) demo_notification $"load" [($"host", $"a")] [($"summary", $"x")]
    (replicate 8 NUL)); [done|done|done|by split|simpl; lia].
Defined.
