(* ===== verification/Prometheus.v ===== *)
(** * The Prometheus exporter (src/plugins/write_prometheus/write_prometheus.c)

    The plugin keeps the last sample of every metric it was handed in a
    search tree of families, each family an array sorted by [prom_metric_cmp],
    and serves them as one page.  The tree is the interface of MapSpec.v, the
    array SortedArray.v.  The mutex is a boolean: a thread that locks a held
    mutex never continues, so the model has no result then.  A family that was
    freed is [None]; touching it has no result either.  libmicrohttpd, the
    socket and the log (with the complaint about long intervals) are outside:
    whether the server starts and whether it accepts a response are arguments.
    A distribution is copied here where the code copies its pointer; the
    theorems are about the other types. *)

From Stdlib Require Import ZArith Lia Ascii String Sorted.
From stdpp Require Import base gmap numbers option list.
From S2P Require Import Prelude MapSpec Double StrBuf SortedArray LabelSet Metric Cache OConfig Commands Formats.
From S2P Require CommonStr Time MetaData Avl.

(** ** The order of the metrics of a family *)

Fixpoint cmp_values (a b : label_set_t) : M Z :=
  match a with
  | [] => ret 0
  | x :: a =>
      match b with
      | [] => crash
      | y :: b =>
          let* v := mopt (LabelSet.value x) in
          let* w := mopt (LabelSet.value y) in
          let status := strcmp v w in
          if negb (status =? 0) then ret status else cmp_values a b
      end
  end.
Definition prom_metric_cmp (a b : metric_t) : M Z :=
  if (length (label a) <? length (label b))%nat then ret (-1)
  else if (length (label b) <? length (label a))%nat then ret 1
  else cmp_values (label a) (label b).

Definition PROMETHEUS_DEFAULT_STALENESS_DELTA : Z := Z.shiftl 300 30.

Section prom.
Context {T : Type → Type} `{!KeyedMap cstr T} `{Sysconf, MetaData.FormatGauge}.

(** The static variables of the file. *)
Record prom_state : Type := mk_prom {
  prom_metrics : option (T metric_family_t);
  prom_metrics_lock : bool;
  httpd_host : option cstr;
  httpd_port : Z;
  httpd : bool; (* whether the server runs *)
  staleness_delta : Z;
}.
Implicit Types (s : prom_state) (fam : metric_family_t) (m : metric_t).

Definition prom_initial : prom_state := mk_prom None false None 9103 false PROMETHEUS_DEFAULT_STALENESS_DELTA.

Definition set_tree s (t : option (T metric_family_t)) : prom_state :=
  mk_prom t (prom_metrics_lock s) (httpd_host s) (httpd_port s) (httpd s) (staleness_delta s).
Definition set_lock s (b : bool) : prom_state :=
  mk_prom (prom_metrics s) b (httpd_host s) (httpd_port s) (httpd s) (staleness_delta s).
Definition set_httpd s (b : bool) : prom_state :=
  mk_prom (prom_metrics s) (prom_metrics_lock s) (httpd_host s) (httpd_port s) b (staleness_delta s).
Definition set_options s (host : option cstr) (port delta : Z) : prom_state :=
  mk_prom (prom_metrics s) (prom_metrics_lock s) host port (httpd s) delta.

Definition lock s : M prom_state := let* _ := massert (negb (prom_metrics_lock s)) in ret (set_lock s true).
Definition unlock s : M prom_state := let* _ := massert (prom_metrics_lock s) in ret (set_lock s false).

(** ** Writing *)

(** The loop over the metrics of the family that was handed over. *)
Fixpoint write_loop (delta : Z) (ms : list metric_t) (prom_fam : metric_family_t) : M metric_family_t :=
  match ms with
  | [] => ret prom_fam
  | m :: ms =>
      let* mmatch := bsearch (prom_metric_cmp m) (metric prom_fam) in
      match mmatch with
      | None =>
          let* '(_, prom_fam) := metric_family_metric_append prom_fam m in
          let* sorted := qsort prom_metric_cmp (metric prom_fam) in
          write_loop delta ms (set_metrics prom_fam sorted)
      | Some i =>
          let* mmatch := mopt (metric prom_fam !! i) in
          let t := if delta <? interval m then 0 else time m in
          let mmatch := mk_metric (label mmatch) (m_value m) t (interval mmatch) (meta mmatch) in
          write_loop delta ms (set_metrics prom_fam (<[i := mmatch]> (metric prom_fam)))
      end
  end.

(** A name whose copy failed is a NULL key. *)
Definition prom_write fam s : M (Z * prom_state) :=
  let* s := lock s in
  let* t := mopt (prom_metrics s) in
  let* nm := mopt (fam_name fam) in
  match km_get t nm with
  | (0, Some prom_fam) =>
      let* prom_fam := write_loop (staleness_delta s) (metric fam) prom_fam in
      let* s := unlock (set_tree s (Some (km_update t nm (λ _, prom_fam)))) in
      ret (0, s)
  | _ =>
      let* copy := metric_family_clone fam in
      match copy with
      | inl _ => let* s := unlock s in ret (-1, s)
      | inr prom_fam =>
          let* sorted := qsort prom_metric_cmp (metric prom_fam) in
          let prom_fam := set_metrics prom_fam sorted in
          let* key := mopt (fam_name prom_fam) in
          let* ok := alloc in
          let* '(status, t) := mopt (km_insert ok t key prom_fam) in
          let s := set_tree s (Some t) in
          if negb (status =? 0) then
            let* _ := metric_family_free prom_fam in
            let* s := unlock s in ret (-1, s)
          else let* s := unlock s in ret (0, s)
      end
  end.

(** ** Missing metrics *)

(** The first loop of [prom_metric_family_metric_delete]. *)
Fixpoint find_metric (m : metric_t) (l : list metric_t) (i : nat) : M nat :=
  match l with
  | [] => ret i
  | x :: l => let* c := prom_metric_cmp m x in if c =? 0 then ret i else find_metric m l (S i)
  end.

Definition prom_metric_family_metric_delete fam m : M (Z * metric_family_t) :=
  let* i := find_metric m (metric fam) 0 in
  if (length (metric fam) <=? i)%nat then ret (ENOENT, fam)
  else
    let* x := mopt (metric fam !! i) in
    let* _ := metric_reset x in
    let fam := set_metrics fam (delete i (metric fam)) in
    if (length (metric fam) =? 0)%nat then ret (0, fam)
    else let* _ := alloc in ret (0, fam). (* [realloc] to the smaller size *)

(** The loop over the missing metrics; [prom_fam] is [None] once it is freed. *)
Fixpoint missing_loop (nm : cstr) (ms : list metric_t) (t : T metric_family_t) (prom_fam : option metric_family_t) :
    M (T metric_family_t) :=
  match ms with
  | [] => ret t
  | m :: ms =>
      let* pf := mopt prom_fam in
      let* mmatch := bsearch (prom_metric_cmp m) (metric pf) in
      match mmatch with
      | None => missing_loop nm ms t (Some pf)
      | Some _ =>
          let* '(status, pf) := prom_metric_family_metric_delete pf m in
          let t := km_update t nm (λ _, pf) in
          if negb (status =? 0) then missing_loop nm ms t (Some pf)
          else if (length (metric pf) =? 0)%nat then
            let* key := mopt (fam_name pf) in
            let* '(status, _, t) := mopt (km_remove t key) in
            if negb (status =? 0) then missing_loop nm ms t (Some pf)
            else let* _ := metric_family_free pf in missing_loop nm ms t None
          else missing_loop nm ms t (Some pf)
      end
  end.

Definition prom_missing fam s : M (Z * prom_state) :=
  let* s := lock s in
  let* t := mopt (prom_metrics s) in
  let* nm := mopt (fam_name fam) in
  match km_get t nm with
  | (0, Some prom_fam) =>
      let* t := missing_loop nm (metric fam) t (Some prom_fam) in
      let* s := unlock (set_tree s (Some t)) in
      ret (0, s)
  | _ => ret (0, s)
  end.

(** ** The page *)

Definition prom_type (ty : metric_type_t) : option cstr :=
  match ty with
  | METRIC_TYPE_GAUGE => Some $"gauge"
  | METRIC_TYPE_COUNTER => Some $"counter"
  | METRIC_TYPE_UNTYPED => Some $"untyped"
  | METRIC_TYPE_DISTRIBUTION => None
  end.

Fixpoint format_metrics (fam : metric_family_t) (ms : list metric_t) (buf : strbuf_t) : M strbuf_t :=
  match ms with
  | [] => ret buf
  | m :: ms =>
      let* buf := pr (λ b, metric_identity b (Some fam) m) buf in
      let* buf :=
        if bool_decide (type fam = METRIC_TYPE_COUNTER) then
          let* c := mopt (as_counter (m_value m)) in pr (λ b, strbuf_printf b ($" " ++ CommonStr.decimal c)) buf
        else let* g := union_gauge (m_value m) in pr (λ b, strbuf_printf b ($" " ++ MetaData.format_gauge g)) buf in
      let* buf :=
        if 0 <? time m then
          pr (λ b, strbuf_printf b ($" " ++ CommonStr.decimal_signed (i64 (Time.CDTIME_T_TO_MS (time m))) ++ [LF])) buf
        else pr (λ b, strbuf_printf b [LF]) buf in
      format_metrics fam ms buf
  end.

Fixpoint format_families (l : list (cstr * metric_family_t)) (buf : strbuf_t) : M strbuf_t :=
  match l with
  | [] => ret buf
  | (_, prom_fam) :: l =>
      if (length (metric prom_fam) =? 0)%nat then format_families l buf
      else
        match prom_type (type prom_fam) with
        | None => format_families l buf
        | Some ty =>
            let* nm := mopt (fam_name prom_fam) in
            let* buf :=
              match help prom_fam with
              | None => pr (λ b, strbuf_printf b ($"# HELP " ++ nm ++ [LF])) buf
              | Some h => pr (λ b, strbuf_printf b ($"# HELP " ++ nm ++ $" " ++ h ++ [LF])) buf
              end in
            let* buf := pr (λ b, strbuf_printf b ($"# TYPE " ++ nm ++ $" " ++ ty ++ [LF])) buf in
            let* buf := format_metrics prom_fam (metric prom_fam) buf in
            format_families l buf
        end
  end.

Section page.
Context (PACKAGE_VERSION hostname_g : cstr).

(** Without memory for the iterator no family is listed. *)
Definition format_text (buf : strbuf_t) s : M (strbuf_t * prom_state) :=
  let* s := lock s in
  let* ok := alloc in
  let l := match prom_metrics s with Some t => if ok : bool then km_iterate t else [] | None => [] end in
  let* buf := format_families l buf in
  let* buf :=
    pr (λ b, strbuf_printf b
          (LF :: $"# ncollectd/write_prometheus " ++ PACKAGE_VERSION ++ $" at " ++ hostname_g ++ [LF])) buf in
  let* s := unlock s in
  ret (buf, s).

(** The answer to the library, whether the connection now has a state, and the
    body of the response. *)
Definition http_handler (MHD_queue_response : cstr → bool) (method : cstr) (connection_state : bool) s :
    M (bool * bool * option cstr * prom_state) :=
  if negb (strcmp method $"GET" =? 0) then ret (false, connection_state, None, s)
  else if negb connection_state then ret (true, true, None, s)
  else
    let* '(buf, s) := format_text STRBUF_CREATE s in
    ret (MHD_queue_response (text buf), connection_state, Some (text buf), s).
End page.

(** ** Configuration, start and shutdown *)

Fixpoint prom_options `{Getaddrinfo} (cs : list oconfig_item_t) s : M prom_state :=
  match cs with
  | [] => ret s
  | child :: cs =>
      let* s :=
        if strcasecmp $"Host" (key child) =? 0 then
          let* '(_, host) := cf_util_get_string child (httpd_host s) in
          ret (set_options s host (httpd_port s) (staleness_delta s))
        else if strcasecmp $"Port" (key child) =? 0 then
          let* status := cf_util_get_port_number child in
          ret (if 0 <? status then set_options s (httpd_host s) (status mod 2 ^ 16) (staleness_delta s) else s)
        else if strcasecmp $"StalenessDelta" (key child) =? 0 then
          let* '(_, delta) := cf_util_get_cdtime child (staleness_delta s) in
          ret (set_options s (httpd_host s) (httpd_port s) delta)
        else ret s in
      prom_options cs s
  end.
Definition prom_config `{Getaddrinfo} (ci : oconfig_item_t) s : M (Z * prom_state) :=
  let* s := prom_options (children ci) s in ret (0, s).

(** [started]: whether [prom_start_daemon] gives a server. *)
Definition prom_init (started : bool) s : M (Z * prom_state) :=
  let* '(ok, s) :=
    match prom_metrics s with
    | Some _ => ret (true, s)
    | None => let* ok := alloc in ret (ok, if ok : bool then set_tree s (Some km_create) else s)
    end in
  if negb ok then ret (-1, s)
  else if httpd s then ret (0, s)
  else if started then ret (0, set_httpd s true) else ret (-1, s).

Fixpoint pick_loop (fuel : nat) (t : T metric_family_t) : M unit :=
  match fuel with
  | O => crash
  | S fuel =>
      let* '(status, e, t) := mopt (km_pick t) in
      if status =? 0 then
        let* '(_, prom_fam) := mopt e in
        let* _ := metric_family_free prom_fam in pick_loop fuel t
      else ret tt
  end.
Definition prom_shutdown s : M (Z * prom_state) :=
  let s := set_httpd s false in
  let* s := lock s in
  let* s :=
    match prom_metrics s with
    | None => ret s
    | Some t => let* _ := pick_loop (S (Z.to_nat (km_size t))) t in ret (set_tree s None)
    end in
  let* s := unlock s in
  ret (0, set_options s None (httpd_port s) (staleness_delta s)).
End prom.
Arguments prom_state _ : clear implicits.

(** ** The order of label values *)

Fixpoint lex (a b : list cstr) : Z :=
  match a, b with
  | x :: a, y :: b => if negb (strcmp x y =? 0) then strcmp x y else lex a b
  | _, _ => 0
  end.
(** Shorter lists first, then the first difference. *)
#[export] Instance values_comparator : Comparator (list cstr) := λ a b,
  if (length a <? length b)%nat then -1 else if (length b <? length a)%nat then 1 else lex a b.

Lemma lex_eq a : ∀ b, length a = length b → lex a b = 0 ↔ a = b.
Proof.
  induction a as [|x a IH]; intros [|y b] Hl; simpl in *; try done; try lia.
  destruct (Z.eqb_spec (strcmp x y) 0) as [E|E]; cbn [negb].
  - apply strcmp_eq in E as ->. rewrite IH by lia. naive_solver.
  - split; [lia|]. intros [= -> ->]. by destruct E; apply strcmp_eq.
Qed.

Lemma lex_flip a : ∀ b, lex a b < 0 ↔ 0 < lex b a.
Proof.
  induction a as [|x a IH]; intros [|y b]; simpl; try lia. pose proof (strcmp_flip x y). pose proof (strcmp_flip y x).
  destruct (Z.eqb_spec (strcmp x y) 0), (Z.eqb_spec (strcmp y x) 0); cbn [negb]; try lia. apply IH.
Qed.

Lemma lex_trans a : ∀ b c, length a = length b → length b = length c → lex a b ≤ 0 → lex b c ≤ 0 → lex a c ≤ 0.
Proof.
  induction a as [|x a IH]; intros [|y b] [|z c] H1 H2; simpl in *; try lia.
  pose proof (compare_flip x y) as F1. pose proof (compare_le_trans x y z) as Ft.
  pose proof (compare_eq x y) as E1. pose proof (compare_eq y z) as E2. pose proof (compare_eq x z) as E3.
  unfold compare, cstr_comparator in *.
  destruct (Z.eqb_spec (strcmp x y) 0) as [Exy|Exy], (Z.eqb_spec (strcmp y z) 0) as [Eyz|Eyz]; cbn [negb]; intros Ha Hb.
  - apply E1 in Exy as ->. rewrite (proj2 (Z.eqb_eq _ _) Eyz). cbn [negb]. eapply IH; [| |exact Ha|exact Hb]; lia.
  - apply E1 in Exy as ->. by rewrite (proj2 (Z.eqb_neq _ _) Eyz).
  - apply E2 in Eyz as ->. by rewrite (proj2 (Z.eqb_neq _ _) Exy).
  - destruct (Z.eqb_spec (strcmp x z) 0) as [Exz|]; cbn [negb]; [|by apply Ft].
    apply E3 in Exz as ->. pose proof (compare_flip y z) as F2. unfold compare, cstr_comparator in F2. lia.
Qed.

#[export] Instance values_strict : StrictCompare (list cstr).
Proof.
  split; [split|]; unfold compare, values_comparator.
  - intros a b. destruct (Nat.ltb_spec (length a) (length b)), (Nat.ltb_spec (length b) (length a)); try lia. apply lex_flip.
  - intros a b c. repeat (case_match; rewrite ?Nat.ltb_lt, ?Nat.ltb_ge in *; try lia). apply lex_trans; lia.
  - intros a b. destruct (Nat.ltb_spec (length a) (length b)); [split; [lia|intros ->; lia]|].
    destruct (Nat.ltb_spec (length b) (length a)); [split; [lia|intros ->; lia]|]. apply lex_eq. lia.
Qed.

(** What identifies a metric within its family here: the values of its labels. *)
Definition label_values (m : metric_t) : list cstr := omap LabelSet.value (label m).

Lemma label_values_embed m kv : label m = embed kv → label_values m = kv.*2.
Proof. unfold label_values. intros ->. induction kv as [|p kv IH]; [done|]. cbn. f_equal. exact IH. Qed.

Definition labelled (m : metric_t) : Prop := ∃ kv, label m = embed kv.

Lemma prom_metric_cmp_ok m n : labelled m → labelled n → prom_metric_cmp m n = ret (compare (label_values m) (label_values n)).
Proof.
  intros [kv Hm] [kv' Hn]. rewrite (label_values_embed _ _ Hm), (label_values_embed _ _ Hn). unfold prom_metric_cmp, compare, values_comparator.
  rewrite Hm, Hn, !length_embed, !length_fmap.
  destruct (Nat.ltb_spec (length kv) (length kv')); [done|]. destruct (Nat.ltb_spec (length kv') (length kv)); [done|].
  assert (length kv = length kv') as E by lia. clear -E. revert kv' E.
  induction kv as [|p kv IH]; intros [|q kv'] E; simpl in *; try done. cbn [mopt]. rewrite !bind_ret.
  destruct (negb (strcmp p.2 q.2 =? 0)); [done|]. apply IH. lia.
Qed.

(** ** What one write does to the samples of a family *)

(** Value and time of a sample. *)
Definition sample : Type := value_t * Z.
Definition sample_of (m : metric_t) : sample := (m_value m, time m).
(** The sample with these label values in a family of the store. *)
Definition fam_series (pf : metric_family_t) (k : list cstr) : option sample :=
  sample_of <$> arr_get label_values k (metric pf).
(** The first metric with these label values. *)
Definition find_series (k : list cstr) (ms : list metric_t) : option metric_t :=
  snd <$> list_find (λ m, label_values m = k) ms.
(** A sample that replaces another loses its time when its interval is
    longer than the staleness delta. *)
Definition written (delta : Z) (old : option sample) (m : metric_t) : sample :=
  (m_value m, if bool_decide (is_Some old) && (delta <? interval m) then 0 else time m).

Definition fam_good (nm : cstr) (pf : metric_family_t) : Prop :=
  fam_name pf = Some nm ∧ type pf ≠ METRIC_TYPE_DISTRIBUTION ∧ metric pf ≠ [] ∧
  Forall (plain_metric (type pf)) (metric pf) ∧ arr_sorted label_values (metric pf).

Lemma find_series_cons k m ms :
  find_series k (m :: ms) = if decide (label_values m = k) then Some m else find_series k ms.
Proof.
  unfold find_series. simpl. case_decide; [done|]. by destruct (list_find _ ms) as [[]|].
Qed.

Lemma find_series_none k ms : k ∉ map label_values ms → find_series k ms = None.
Proof.
  intros Hk. unfold find_series. destruct (list_find _ ms) as [[i m]|] eqn:E; [|done].
  apply list_find_Some in E as (Hi & <- & _). destruct Hk. by apply list_elem_of_fmap_2, list_elem_of_lookup_2 with i.
Qed.

Lemma compare_bool (k k' : list cstr) : (compare k k' =? 0) = bool_decide (k = k').
Proof.
  destruct (Z.eqb_spec (compare k k') 0) as [E|E]; symmetry; [by apply bool_decide_eq_true, compare_eq|].
  apply bool_decide_eq_false. intros ->. by rewrite compare_refl in E.
Qed.

Lemma plain_labelled ty m : plain_metric ty m → labelled m.
Proof. by intros (? & _). Qed.

Lemma all_compare ms : Forall labelled ms → ∀ m n, m ∈ ms → n ∈ ms → prom_metric_cmp m n = ret (compare (label_values m) (label_values n)).
Proof. intros Hf m n Hm Hn. by apply prom_metric_cmp_ok; eapply list.Forall_forall. Qed.

Lemma all_compare_one m ms : labelled m → Forall labelled ms → ∀ n, n ∈ ms → prom_metric_cmp m n = ret (compare (label_values m) (label_values n)).
Proof. intros Hm Hf n Hn. apply prom_metric_cmp_ok; [done|]. by eapply list.Forall_forall. Qed.

(** One round of the loop. *)
Lemma write_one nm delta m ms pf : fam_good nm pf → plain_metric (type pf) m →
  ∃ pf', write_loop delta (m :: ms) pf [] = write_loop delta ms pf' [] ∧ fam_good nm pf' ∧ type pf' = type pf ∧ help pf' = help pf ∧
    ∀ k, fam_series pf' k = if bool_decide (k = label_values m) then Some (written delta (fam_series pf k) m) else fam_series pf k.
Proof.
  intros (Hn & Hty & Hne & Hpl & Hs) Hm. cbn [write_loop].
  assert (Forall labelled (metric pf)) as Hlab by (eapply list.Forall_impl; [exact Hpl|]; apply plain_labelled).
  destruct (bsearch_ok label_values (prom_metric_cmp m) (metric pf) (label_values m) Hs) as ([i|] & -> & Hr).
  { by apply all_compare_one; [eapply plain_labelled|]. }
  - destruct Hr as (x & Hx & Hk). rewrite bind_ret, Hx. cbn [mopt]. rewrite bind_ret.
    set (y := mk_metric _ _ _ _ _). exists (set_metrics pf (<[i:=y]> (metric pf))).
    assert (label_values y = label_values x) as Hy by done.
    assert (x ∈ metric pf) as Hin by (by eapply list_elem_of_lookup_2).
    pose proof (λ k, arr_replace label_values (metric pf) i x y k Hs Hx Hy) as Hrep.
    split_and!; [done| |done|done|].
    + split_and!; [done|done| | |apply (Hrep [])].
      * cbn [metric set_metrics]. intros E%(f_equal length). rewrite length_insert in E. by destruct (metric pf).
      * apply Forall_insert; [done|]. apply list.Forall_forall with (x := x) in Hpl as (Hl & _ & Hmeta); [|done].
        split_and!; [done|by intros Hd|done].
    + intros k. unfold fam_series. cbn [metric set_metrics]. rewrite (proj2 (Hrep k)), compare_bool, Hk.
      case_bool_decide as E; [subst k|done]. cbn [fmap option_fmap option_map]. f_equal. unfold written, sample_of. cbn [m_value time].
      assert (arr_get label_values (label_values m) (metric pf) = Some x) as -> by (by apply arr_get_some).
      done.
  - rewrite bind_ret. exists (set_metrics pf (arr_insert label_values m (metric pf))).
    assert (metric_family_metric_append pf m ⇓ (0, set_metrics pf (metric pf ++ [m]))) as Happ.
    { unfold metric_family_metric_append. eapply yields_bind; [by apply list_add_ok|]. done. }
    split_and!; [| |done|done|].
    + rewrite (yields_bind_eq _ _ _ Happ). cbv beta iota. cbn [metric set_metrics].
      rewrite (qsort_snoc label_values), bind_ret; [done|done|]. apply all_compare. apply list.Forall_app. split; [done|].
      constructor; [by eapply plain_labelled|constructor].
    + split_and!; [done|done| | |by apply arr_sorted_insert].
      * cbn [metric set_metrics]. destruct (metric pf); [done|]. cbn [arr_insert]. by case_match.
      * apply list.Forall_forall. intros x [->|Hx]%arr_insert_elem; [done|]. by eapply list.Forall_forall.
    + intros k. unfold fam_series at 1. cbn [metric set_metrics]. rewrite arr_get_insert by done. rewrite compare_bool.
      case_bool_decide as E; [subst k|done]. unfold fam_series. simpl in Hr. by rewrite Hr.
Qed.

Lemma write_loop_ok nm delta ms : ∀ pf, fam_good nm pf → Forall (plain_metric (type pf)) ms → NoDup (map label_values ms) →
  ∃ pf', write_loop delta ms pf ⇓ pf' ∧ fam_good nm pf' ∧ type pf' = type pf ∧ help pf' = help pf ∧
    ∀ k, fam_series pf' k = match find_series k ms with
                            | Some m => Some (written delta (fam_series pf k) m)
                            | None => fam_series pf k
                            end.
Proof.
  induction ms as [|m ms IH]; intros pf Hpf Hms Hd; [by exists pf|].
  apply Forall_cons_1 in Hms as [Hm Hms]. apply NoDup_cons in Hd as [Hnin Hd].
  destruct (write_one nm delta m ms pf Hpf Hm) as (pf1 & E1 & G1 & T1 & H1' & S1).
  destruct (IH pf1 G1) as (pf2 & E2 & G2 & T2 & H2' & S2); [by rewrite T1|done|]. exists pf2.
  split_and!; [unfold yields; by rewrite E1|done|congruence|congruence|]. intros k. rewrite S2, find_series_cons, S1.
  case_decide as Ek.
  - subst k. by rewrite find_series_none, bool_decide_eq_true_2.
  - rewrite bool_decide_eq_false_2 by congruence. done.
Qed.

(** ** The store as a map from series to samples *)

Section store.
Context {T : Type → Type} `{!KeyedMap cstr T} `{!KeyedMapLaws cstr T} `{Sysconf, MetaData.FormatGauge}.
Implicit Types (s : prom_state T) (fam : metric_family_t).

(** The plugin is idle and holds these families. *)
Definition stores s (l : list (cstr * metric_family_t)) : Prop :=
  prom_metrics_lock s = false ∧
  ∃ t, prom_metrics s = Some t ∧ km_ok t ∧ km_iterate t = l ∧ ∀ nm pf, Spec.get nm l = Some pf → fam_good nm pf.

Definition series_in (l : list (cstr * metric_family_t)) (nm : cstr) (k : list cstr) : option sample :=
  pf ← Spec.get nm l; fam_series pf k.
Definition series s (nm : cstr) (k : list cstr) : option sample :=
  match prom_metrics s with Some t => series_in (km_iterate t) nm k | None => None end.

Lemma stores_series s l nm k : stores s l → series s nm k = series_in l nm k.
Proof. intros (_ & t & Ht & _ & <- & _). unfold series. by rewrite Ht. Qed.

(** A family as a read plugin dispatches it: metrics that can be copied, no
    two with the same label values. *)
Definition wf_fam (nm : cstr) fam : Prop :=
  fam_name fam = Some nm ∧ type fam ≠ METRIC_TYPE_DISTRIBUTION ∧ metric fam ≠ [] ∧
  Forall (plain_metric (type fam)) (metric fam) ∧ NoDup (map label_values (metric fam)).

Lemma find_series_some k ms m : NoDup (map label_values ms) → find_series k ms = Some m ↔ m ∈ ms ∧ label_values m = k.
Proof.
  intros Hd. induction ms as [|x ms IH]; [split; [done|intros [[]%elem_of_nil _]]|].
  apply NoDup_cons in Hd as [Hx Hd]. rewrite find_series_cons, elem_of_cons. case_decide as E.
  - split; [intros [= ->]; auto|]. intros [[->|Hin] <-]; [done|]. destruct Hx. rewrite E. by apply list_elem_of_fmap_2.
  - rewrite IH by done. naive_solver.
Qed.

(** The family that the first write of a name stores. *)
Lemma first_copy nm fam : wf_fam nm fam →
  ∃ l, qsort prom_metric_cmp (metric (family_copy fam)) = ret l ∧ fam_good nm (set_metrics (family_copy fam) l) ∧
    ∀ k, fam_series (set_metrics (family_copy fam) l) k = sample_of <$> find_series k (metric fam).
Proof.
  intros (Hn & Hty & Hne & Hpl & Hd). set (strip := λ m, mk_metric (label m) (m_value m) (time m) (interval m) None).
  change (metric (family_copy fam)) with (map strip (metric fam)).
  assert (map label_values (map strip (metric fam)) = map label_values (metric fam)) as Hkeys by (by rewrite map_map).
  assert (Forall (plain_metric (type fam)) (map strip (metric fam))) as Hpl'.
  { apply Forall_map. eapply list.Forall_impl; [exact Hpl|]. cbv beta. intros m (Hl & Hv & _). done. }
  destruct (qsort_ok label_values prom_metric_cmp (map strip (metric fam))) as (l & E & Hs & Hp).
  { by rewrite Hkeys. }
  { apply all_compare. eapply list.Forall_impl; [exact Hpl'|]. apply plain_labelled. }
  exists l. split_and!; [exact E| |].
  - split_and!; [done|done| |cbn; by rewrite Hp|done]. cbn. intros ->. apply Permutation_nil_l in Hp. by destruct (metric fam).
  - intros k. unfold fam_series. cbn [metric set_metrics]. destruct (find_series k (metric fam)) as [m|] eqn:Ef.
    + apply find_series_some in Ef as [Hm Hk]; [|done].
      assert (arr_get label_values k l = Some (strip m)) as ->; [|done]. apply arr_get_some; [done|]. split; [|done].
      rewrite Hp. by apply list_elem_of_fmap_2.
    + assert (arr_get label_values k l = None) as ->; [|done]. apply arr_get_none; [done|].
      intros x Hx. rewrite Hp in Hx. apply list_elem_of_fmap in Hx as (m & -> & Hm). intros Hk.
      assert (find_series k (metric fam) = Some m) by (by apply find_series_some). congruence.
Qed.

Lemma compare_names (a b : cstr) : (compare a b =? 0) = bool_decide (a = b).
Proof.
  destruct (Z.eqb_spec (compare a b) 0) as [E|E]; symmetry; [by apply bool_decide_eq_true, compare_eq|].
  apply bool_decide_eq_false. intros ->. by rewrite compare_refl in E.
Qed.

(** One write, while memory lasts. *)
Lemma prom_write_ok s l nm fam : stores s l → wf_fam nm fam →
  ∃ s' l', prom_write fam s ⇓ (0, s') ∧ stores s' l' ∧ staleness_delta s' = staleness_delta s ∧
    ∀ nm' k, series_in l' nm' k =
      match find_series k (metric fam) with
      | Some m => if bool_decide (nm' = nm) then Some (written (staleness_delta s) (series_in l nm k) m) else series_in l nm' k
      | None => series_in l nm' k
      end.
Proof.
  intros (Hlk & t & Ht & Hok & Hl & Hg) Hfam. pose proof Hfam as (Hn & Hty & Hne & Hpl & Hd).
  assert (Spec.sorted l) as Hsorted by (rewrite <-Hl; by apply km_sorted).
  unfold prom_write, lock, unlock. rewrite Hlk. cbn [negb massert]. rewrite !bind_ret. cbn [prom_metrics set_lock]. rewrite Ht, Hn. cbn [mopt]. rewrite !bind_ret.
  rewrite (km_get_ok t nm Hok), Hl. destruct (Spec.get nm l) as [pf|] eqn:Eg.
  - destruct (write_loop_ok nm (staleness_delta s) (metric fam) pf (Hg _ _ Eg)) as (pf' & E & Gpf & _ & _ & Hser); [|done|].
    { eapply list.Forall_impl; [exact Hpl|]. cbv beta. intros m (Hlab & _ & Hmeta). destruct (Hg _ _ Eg) as (_ & Hd' & _).
      split_and!; [done|by intros ?|done]. }
    destruct (km_update_ok t nm (λ _, pf') Hok) as [Hok' Hit]. rewrite Hl in Hit.
    eexists _, (Spec.update nm (λ _, pf') l). split_and!.
    + eapply yields_bind; [exact E|]. cbv beta. cbn. by apply yields_ret.
    + split; [done|]. eexists. split_and!; [done|done|done|]. intros nm' pf0. rewrite spec_get_update, compare_names.
      case_bool_decide as En; [|by apply Hg]. subst nm'. rewrite Eg. by intros [= <-].
    + done.
    + intros nm' k. unfold series_in. rewrite spec_get_update, compare_names, Eg.
      case_bool_decide as En; [subst nm'; rewrite Eg; cbn; rewrite Hser|]; by destruct (find_series k (metric fam)).
  - destruct (first_copy nm fam Hfam) as (ms & E & Gpf & Hser). set (pf := set_metrics (family_copy fam) ms) in *.
    destruct (km_insert_new t nm pf Hok) as (t' & Ei & Hok' & Hit); [by rewrite Hl|]. rewrite Hl in Hit.
    eexists _, (Spec.insert nm pf l). split_and!.
    + eapply yields_bind; [by eapply family_clone_ok|]. cbv beta iota. rewrite E, bind_ret. fold pf.
      change (fam_name pf) with (fam_name fam). rewrite Hn. cbn [mopt]. rewrite bind_ret.
      eapply yields_bind; [apply yields_alloc|]. cbv beta. rewrite Ei. cbn. by apply yields_ret.
    + split; [done|]. eexists. split_and!; [done|done|done|]. intros nm' pf0. rewrite spec_get_insert, compare_names by done.
      case_bool_decide as En; [|by apply Hg]. subst nm'. by intros [= <-].
    + done.
    + intros nm' k. unfold series_in. rewrite spec_get_insert, compare_names by done. rewrite Eg.
      case_bool_decide as En; [|by destruct (find_series k (metric fam))]. subst nm'. rewrite Eg.
      change (Some pf ≫= λ pf, fam_series pf k) with (fam_series pf k). rewrite Hser. by destruct (find_series k (metric fam)).
Qed.

(** *** Missing metrics *)

Lemma find_metric_ok m l : labelled m → Forall labelled l → (∃ x, x ∈ l ∧ label_values x = label_values m) → ∀ j,
  ∃ i x, find_metric m l j = ret (j + i)%nat ∧ l !! i = Some x ∧ label_values x = label_values m.
Proof.
  intros Hm Hl. induction Hl as [|y l Hy _ IH]; intros (x & Hx & Hk) j; [by apply elem_of_nil in Hx|]. cbn [find_metric].
  rewrite prom_metric_cmp_ok, bind_ret, compare_bool by done. case_bool_decide as E.
  - exists 0%nat, y. by rewrite Nat.add_0_r.
  - apply elem_of_cons in Hx as [->|Hx]; [by destruct E|].
    destruct (IH (ex_intro _ x (conj Hx Hk)) (S j)) as (i & z & -> & Hz & Hkz). exists (S i), z. split_and!; [|done..]. f_equal. lia.
Qed.

(** Deleting a metric of a family: what is left has all other samples. *)
Lemma delete_ok nm pf m : fam_good nm pf → labelled m → is_Some (fam_series pf (label_values m)) →
  ∃ pf', prom_metric_family_metric_delete pf m ⇓ (0, pf') ∧ fam_name pf' = Some nm ∧ type pf' = type pf ∧ help pf' = help pf ∧
    (metric pf' ≠ [] → fam_good nm pf') ∧
    ∀ k, fam_series pf' k = if bool_decide (k = label_values m) then None else fam_series pf k.
Proof.
  intros (Hn & Hty & Hne & Hpl & Hs) Hm [smp Hsome]. unfold fam_series in Hsome.
  destruct (arr_get label_values (label_values m) (metric pf)) as [y|] eqn:Ey; [|done]. apply arr_get_some in Ey as [Hy Hky]; [|done].
  assert (Forall labelled (metric pf)) as Hlab by (eapply list.Forall_impl; [exact Hpl|]; apply plain_labelled).
  destruct (find_metric_ok m (metric pf) Hm Hlab (ex_intro _ y (conj Hy Hky)) 0) as (i & x & Ei & Hx & Hkx). cbn [Nat.add] in Ei.
  pose proof (λ k, arr_delete label_values (metric pf) i x k Hs Hx) as Hdel.
  assert (x ∈ metric pf) as Hxin by (by eapply list_elem_of_lookup_2).
  exists (set_metrics pf (delete i (metric pf))). split_and!; [|done..| |].
  - unfold prom_metric_family_metric_delete. rewrite Ei, bind_ret. pose proof (lookup_lt_Some _ _ _ Hx).
    destruct (Nat.leb_spec (length (metric pf)) i); [lia|]. rewrite Hx. cbn [mopt]. rewrite bind_ret.
    apply list.Forall_forall with (x := x) in Hlab as [kv Hkv]; [|done].
    eapply yields_bind; [by apply (metric_reset_ok x kv)|]. cbv beta zeta. by destruct (_ =? _)%nat.
  - cbn [metric set_metrics]. intros Hne'. split_and!; [done|done|done| |apply (Hdel [])].
    cbn. rewrite delete_take_drop. apply list.Forall_app. split; [by apply Forall_take|by apply Forall_drop].
  - intros k. unfold fam_series. cbn [metric set_metrics]. rewrite (proj2 (Hdel k)), compare_bool, Hkx. by case_bool_decide.
Qed.

(** One round for a metric that is there: its family is updated, or removed
    and freed when it was the last one. *)
Lemma missing_round_ok t nm pf m : km_ok t → Spec.get nm (km_iterate t) = Some pf → fam_good nm pf → labelled m →
  is_Some (fam_series pf (label_values m)) →
  ∃ t' pf', (∀ ms, missing_loop nm (m :: ms) t (Some pf) [] =
      missing_loop nm ms t' (if bool_decide (metric pf' = []) then None else Some pf') []) ∧ km_ok t' ∧ (metric pf' ≠ [] → fam_good nm pf') ∧
    (∀ k, fam_series pf' k = if bool_decide (k = label_values m) then None else fam_series pf k) ∧
    ∀ nm', Spec.get nm' (km_iterate t') =
      if bool_decide (nm' = nm) then if bool_decide (metric pf' = []) then None else Some pf' else Spec.get nm' (km_iterate t).
Proof.
  intros Hok Eg Hpf Hm Hlive. pose proof Hpf as (_ & _ & _ & Hpl & Hs).
  destruct (delete_ok nm pf m Hpf Hm Hlive) as (pf' & Ed & Hn' & _ & _ & Hgood & Hser).
  destruct (km_update_ok t nm (λ _, pf') Hok) as [Hok1 Hit1].
  assert (∀ nm', Spec.get nm' (km_iterate (km_update t nm (λ _, pf'))) = if bool_decide (nm' = nm) then Some pf' else Spec.get nm' (km_iterate t)) as Hget.
  { intros nm'. rewrite Hit1, spec_get_update, compare_names. case_bool_decide as E; [|done]. subst nm'. by rewrite Eg. }
  destruct (bsearch_ok label_values (prom_metric_cmp m) (metric pf) (label_values m) Hs) as (r & Eb & Hr).
  { apply all_compare_one; [done|]. eapply list.Forall_impl; [exact Hpl|]. apply plain_labelled. }
  destruct r as [i|]; [|unfold fam_series in Hlive; simpl in Hr; rewrite Hr in Hlive; by destruct Hlive].
  destruct (decide (metric pf' = [])) as [Hempty|Hne].
  - destruct (km_remove_found (km_update t nm (λ _, pf')) nm pf' Hok1) as (t2 & Er & Hok2 & Hit2);
      [by rewrite Hget, bool_decide_eq_true_2|]. exists t2, pf'. split_and!; [|done..|].
    + intros ms. cbn [missing_loop mopt]. rewrite bind_ret, Eb, bind_ret, (yields_bind_eq _ _ _ Ed). cbv beta iota zeta.
      cbn [negb Z.eqb]. rewrite Hempty. cbn [length Nat.eqb]. rewrite Hn'. cbn [mopt]. rewrite bind_ret, Er. cbn [mopt].
      rewrite bind_ret. cbn [negb Z.eqb]. unfold metric_family_free. by rewrite Hempty, bool_decide_eq_true_2.
    + intros nm'. rewrite Hit2, spec_get_remove, compare_names, Hget by (by apply km_sorted).
      rewrite (bool_decide_eq_true_2 (metric pf' = [])) by done. by case_bool_decide.
  - exists (km_update t nm (λ _, pf')), pf'. split_and!; [|done..|].
    + intros ms. cbn [missing_loop mopt]. rewrite bind_ret, Eb, bind_ret, (yields_bind_eq _ _ _ Ed). cbv beta iota zeta.
      cbn [negb Z.eqb]. destruct (Nat.eqb_spec (length (metric pf')) 0); [by destruct (metric pf')|]. by rewrite bool_decide_eq_false_2.
    + intros nm'. by rewrite Hget, (bool_decide_eq_false_2 (metric pf' = [])).
Qed.

(** A live series that is reported missing is gone; the other samples stay. *)
Lemma prom_missing_ok s l nm fam m : stores s l → fam_name fam = Some nm → metric fam = [m] → labelled m →
  is_Some (series_in l nm (label_values m)) →
  ∃ s' l', prom_missing fam s ⇓ (0, s') ∧ stores s' l' ∧ staleness_delta s' = staleness_delta s ∧
    ∀ nm' k, series_in l' nm' k =
      if bool_decide (nm' = nm ∧ k = label_values m) then None else series_in l nm' k.
Proof.
  intros (Hlk & t & Ht & Hok & Hl & Hg) Hn Hms Hm Hlive.
  unfold series_in in Hlive. destruct (Spec.get nm l) as [pf|] eqn:Eg; [|by destruct Hlive].
  change (Some pf ≫= λ pf, fam_series pf (label_values m)) with (fam_series pf (label_values m)) in Hlive.
  destruct (missing_round_ok t nm pf m) as (t' & pf' & E & Hok' & Hgood & Hser & Hget); [done|by rewrite Hl|by apply Hg|done..|].
  unfold prom_missing, lock, unlock. rewrite Hlk. cbn [negb massert]. rewrite !bind_ret. cbn [prom_metrics set_lock].
  rewrite Ht, Hn. cbn [mopt]. rewrite !bind_ret, (km_get_ok t nm Hok), Hl, Eg, Hms.
  eexists _, (km_iterate t'). split_and!; [unfold yields; rewrite (yields_bind_eq _ _ t'); [done|exact (E [])]| |done|].
  - split; [done|]. eexists. split_and!; [done|done|done|]. intros nm' pf0. rewrite Hget, Hl.
    destruct (decide (nm' = nm)) as [->|Hne]; [rewrite bool_decide_eq_true_2 by done|rewrite bool_decide_eq_false_2 by done; by apply Hg].
    case_bool_decide; [done|]. intros [= <-]. by apply Hgood.
  - intros nm' k. unfold series_in. rewrite Hget, Hl.
    destruct (decide (nm' = nm)) as [->|Hne]; [|by rewrite !bool_decide_eq_false_2 by naive_solver].
    rewrite bool_decide_eq_true_2, Eg by done. transitivity (fam_series pf' k).
    + case_bool_decide as E2; [|done]. unfold fam_series. by rewrite E2.
    + rewrite Hser. destruct (decide (k = label_values m)) as [->|]; [by rewrite !bool_decide_eq_true_2|].
      by rewrite !bool_decide_eq_false_2 by naive_solver.
Qed.
End store.

(** ** The page *)

Section pages.
Context {T : Type → Type} `{!KeyedMap cstr T} `{!KeyedMapLaws cstr T} `{Sysconf, MetaData.FormatGauge}.
Implicit Types (s : prom_state T) (fam : metric_family_t).

Lemma value_extends fam m w : om_value (type fam) (m_value m) = Some w →
  extends (λ b, if bool_decide (type fam = METRIC_TYPE_COUNTER) then
                  let* c := mopt (as_counter (m_value m)) in pr (λ b, strbuf_printf b ($" " ++ CommonStr.decimal c)) b
                else let* g := union_gauge (m_value m) in pr (λ b, strbuf_printf b ($" " ++ MetaData.format_gauge g)) b)
    ($" " ++ w).
Proof.
  intros Hw. unfold om_value in Hw. destruct (type fam), (m_value m); simplify_eq/=; exact (pr_extends _ _ (printf_appends _)).
Qed.

Lemma time_extends t :
  extends (λ b, if 0 <? t then
                  pr (λ b, strbuf_printf b ($" " ++ CommonStr.decimal_signed (i64 (Time.CDTIME_T_TO_MS t)) ++ [LF])) b
                else pr (λ b, strbuf_printf b [LF]) b) (om_time t ++ [LF]).
Proof. unfold om_time. destruct (0 <? t); [rewrite <-app_assoc|]; apply pr_extends, printf_appends. Qed.

Lemma format_metrics_extends fam nm ms lines : fam_name fam = Some nm → Forall2 (om_shows fam nm) ms lines →
  extends (format_metrics fam ms) (unlines lines).
Proof.
  intros Hn. induction 1 as [|m line ms lines (kv & w & Hl & Hkv & Hw & ->) _ IH]; [apply ret_extends|].
  unfold unlines, om_line. cbn [map concat format_metrics]. rewrite <-!app_assoc.
  apply extends_seq; [by apply pr_extends, identity_appends|]. rewrite (app_assoc (om_time (time m))).
  refine (extends_seq _ _ ($" " ++ w) _ (value_extends fam m w Hw) _).
  apply extends_seq; [apply time_extends|exact IH].
Qed.

(** The text of a stored family: nothing when it has no metric or its type is
    not exported. *)
Definition family_text (x : cstr * metric_family_t) (lines : list cstr) : cstr :=
  match metric x.2, prom_type (type x.2) with
  | [], _ | _, None => []
  | _, Some ty => unlines (om_head x.1 (help x.2) ty ++ lines)
  end.
Definition page_shows (l : list (cstr * metric_family_t)) (lines : list (list cstr)) : Prop :=
  Forall2 (λ x ls, fam_name x.2 = Some x.1 ∧ Forall2 (om_shows x.2 x.1) (metric x.2) ls) l lines.
Definition page_text (l : list (cstr * metric_family_t)) (lines : list (list cstr)) : cstr :=
  concat (zip_with family_text l lines).

Lemma format_families_extends l lines : page_shows l lines → extends (format_families l) (page_text l lines).
Proof.
  unfold page_text. induction 1 as [|[nm pf] ls l lines [Hn Hs] _ IH]; [apply ret_extends|]. cbn [fst snd] in Hn, Hs.
  cbn [format_families zip_with concat]. unfold family_text at 1. cbn [fst snd].
  destruct (Nat.eqb_spec (length (metric pf)) 0) as [E|E]; [by destruct (metric pf)|].
  destruct (prom_type (type pf)) as [ty|] eqn:Ety; [|by destruct (metric pf)].
  assert (match metric pf with [] => [] | _ :: _ => unlines (om_head nm (help pf) ty ++ ls) end =
    unlines (om_head nm (help pf) ty ++ ls)) as -> by (by destruct (metric pf)).
  set (hl := ($"# HELP " ++ nm ++ match help pf with None => [] | Some h => $" " ++ h end) ++ [LF]).
  set (tl := $"# TYPE " ++ nm ++ $" " ++ ty ++ [LF]).
  assert (unlines (om_head nm (help pf) ty ++ ls) = hl ++ tl ++ unlines ls) as ->.
  { unfold om_head, unlines, hl, tl. cbn [app map concat]. by rewrite <-!app_assoc. }
  rewrite Hn, <-!app_assoc. cbn [mopt].
  apply (extends_seq (λ b, match help pf with
      | None => pr (λ b, strbuf_printf b ($"# HELP " ++ nm ++ [LF])) b
      | Some h => pr (λ b, strbuf_printf b ($"# HELP " ++ nm ++ $" " ++ h ++ [LF])) b end)).
  { unfold hl. destruct (help pf); rewrite ?app_nil_r, <-?app_assoc; apply pr_extends, printf_appends. }
  apply extends_seq; [apply pr_extends, printf_appends|].
  apply extends_seq; [by eapply format_metrics_extends|exact IH].
Qed.

Definition page_trailer (PACKAGE_VERSION hostname_g : cstr) : cstr :=
  LF :: $"# ncollectd/write_prometheus " ++ PACKAGE_VERSION ++ $" at " ++ hostname_g ++ [LF].

Lemma format_text_ok version host s l lines : stores s l → page_shows l lines →
  ∃ b, format_text version host STRBUF_CREATE s ⇓ (b, s) ∧ text b = page_text l lines ++ page_trailer version host.
Proof.
  intros (Hlk & t & Ht & _ & <- & _) Hp.
  destruct (format_families_extends _ _ Hp STRBUF_CREATE (proj1 dynamic_create)) as (b1 & E1 & D1 & T1).
  destruct (pr_extends _ _ (printf_appends (page_trailer version host)) b1 D1) as (b2 & E2 & D2 & T2).
  exists b2. split; [|rewrite T2, T1; by rewrite (proj2 dynamic_create)].
  unfold format_text, lock, unlock. rewrite Hlk. cbn [negb massert]. rewrite !bind_ret.
  eapply yields_bind; [apply yields_alloc|]. cbv beta zeta. cbn [prom_metrics set_lock]. rewrite Ht.
  eapply yields_bind; [exact E1|]. cbv beta. eapply yields_bind; [exact E2|]. cbv beta.
  cbn. unfold yields. repeat f_equal. destruct s. cbn in Hlk, Ht. by subst.
Qed.
End pages.

(** ** The exporter as a whole *)

Section exporter.
Context {T : Type → Type} `{!KeyedMap cstr T} `{!KeyedMapLaws cstr T} `{Sysconf, MetaData.FormatGauge}.
Implicit Types (s : prom_state T) (fam : metric_family_t).

(** The calls the daemon makes of the plugin. *)
Inductive prom_call : Type :=
  | call_write (fam : metric_family_t)
  | call_missing (fam : metric_family_t).

Fixpoint run_calls (cs : list prom_call) s : M (prom_state T) :=
  match cs with
  | [] => ret s
  | call_write fam :: cs => let* '(_, s) := prom_write fam s in run_calls cs s
  | call_missing fam :: cs => let* '(_, s) := prom_missing fam s in run_calls cs s
  end.

(** The abstract exporter: a sample for each live series. *)
Definition samples : Type := cstr → list cstr → option sample.
Definition abs_step (delta : Z) (A : samples) (c : prom_call) : samples := λ nm k,
  match c with
  | call_write fam =>
      match find_series k (metric fam) with
      | Some m => if bool_decide (fam_name fam = Some nm) then Some (written delta (A nm k) m) else A nm k
      | None => A nm k
      end
  | call_missing fam => if bool_decide (fam_name fam = Some nm ∧ k ∈ map label_values (metric fam)) then None else A nm k
  end.

(** Well-formed families are written; the cache reports one metric at a time
    missing.  Here that metric is live. *)
Definition sensible (A : samples) (c : prom_call) : Prop :=
  match c with
  | call_write fam => ∃ nm, wf_fam nm fam
  | call_missing fam => ∃ nm m, fam_name fam = Some nm ∧ metric fam = [m] ∧ labelled m ∧ is_Some (A nm (label_values m))
  end.
Fixpoint sensible_run (delta : Z) (A : samples) (cs : list prom_call) : Prop :=
  match cs with
  | [] => True
  | c :: cs => sensible A c ∧ sensible_run delta (abs_step delta A c) cs
  end.

Lemma sensible_ext delta cs : ∀ A B : samples, (∀ nm k, A nm k = B nm k) → sensible_run delta A cs → sensible_run delta B cs.
Proof.
  induction cs as [|c cs IH]; intros A B Hab; [done|]. intros [Hc Hcs]. split.
  - destruct c; [done|]. destruct Hc as (nm & m & ? & ? & ? & ?). exists nm, m. by rewrite <-Hab.
  - eapply IH; [|exact Hcs]. intros nm k. destruct c; simpl; by rewrite Hab.
Qed.

Lemma abs_run_ext delta cs : ∀ A B : samples, (∀ nm k, A nm k = B nm k) →
  ∀ nm k, fold_left (abs_step delta) cs A nm k = fold_left (abs_step delta) cs B nm k.
Proof.
  induction cs as [|c cs IH]; intros A B Hab; [done|]. apply IH. intros nm k. destruct c; simpl; by rewrite Hab.
Qed.

Lemma run_calls_ok cs : ∀ s l, stores s l → sensible_run (staleness_delta s) (series_in l) cs →
  ∃ s' l', run_calls cs s ⇓ s' ∧ stores s' l' ∧
    ∀ nm k, series_in l' nm k = fold_left (abs_step (staleness_delta s)) cs (series_in l) nm k.
Proof.
  induction cs as [|c cs IH]; intros s l Hst Hrun; [by exists s, l|]. destruct Hrun as [Hc Hrun].
  assert (∃ s1 l1 st, (match c with call_write fam => prom_write fam s | call_missing fam => prom_missing fam s end) ⇓ (st, s1) ∧
    stores s1 l1 ∧ staleness_delta s1 = staleness_delta s ∧
    ∀ nm k, abs_step (staleness_delta s) (series_in l) c nm k = series_in l1 nm k) as (s1 & l1 & st & E & Hst1 & Hd & Hser).
  { destruct c as [fam|fam].
    - destruct Hc as [nm Hwf]. destruct (prom_write_ok s l nm fam Hst Hwf) as (s1 & l1 & E & Hst1 & Hd & Hser).
      exists s1, l1, 0. split_and!; [done..|]. intros nm' k. rewrite Hser. simpl. destruct (find_series k _); [|done].
      destruct Hwf as (-> & _). destruct (decide (nm' = nm)) as [->|]; [by rewrite !bool_decide_eq_true_2|].
      by rewrite !bool_decide_eq_false_2 by naive_solver.
    - destruct Hc as (nm & m & Hn & Hms & Hm & Hlive).
      destruct (prom_missing_ok s l nm fam m) as (s1 & l1 & E & Hst1 & Hd & Hser); [done..|].
      exists s1, l1, 0. split_and!; [done..|]. intros nm' k.
      assert (nm' = nm ∧ k = label_values m ↔ fam_name fam = Some nm' ∧ k ∈ map label_values (metric fam)) as Hiff.
      { rewrite Hn, Hms. simpl. rewrite list_elem_of_singleton. naive_solver. }
      rewrite Hser. simpl. by rewrite (bool_decide_ext _ _ Hiff). }
  destruct (IH s1 l1 Hst1) as (s' & l' & E' & Hst' & Hser').
  { rewrite Hd. by eapply sensible_ext. }
  exists s', l'. split_and!; [|done|].
  - destruct c; by eapply yields_bind.
  - intros nm k. rewrite Hser', Hd. cbn [fold_left]. by apply abs_run_ext.
Qed.

(** C14. The exporter refines a map from series to samples: after a sequence of
    writes, of families without distributions whose metrics have different
    label values, and of reports that a metric is missing which the store holds
    ([sensible_run]; a report of an unknown family leaves the lock taken, see
    [prom_missing_unknown_blocks]), the store holds, for every family name and
    every list of label values, exactly the last sample written that was not
    reported missing since; a sample that replaces another loses its
    time stamp when its interval exceeds the staleness delta.  The families
    are sorted by name and their metrics by label values, and a GET request is
    answered with the page that lists each family with one line per sample. *)
Theorem prom_exporter_spec cs delta host port (s0 : prom_state T) : prom_init true (mk_prom None false host port false delta) ⇓ (0, s0) →
  sensible_run delta (λ _ _, None) cs →
  ∃ s l, run_calls cs s0 ⇓ s ∧ stores s l ∧ Spec.sorted l ∧
    (∀ nm k, series s nm k = fold_left (abs_step delta) cs (λ _ _, None) nm k) ∧
    ∀ version hostname lines accept, page_shows l lines →
      http_handler version hostname accept $"GET" true s ⇓
        (accept (page_text l lines ++ page_trailer version hostname), true,
         Some (page_text l lines ++ page_trailer version hostname), s).
Proof.
  intros Hinit Hrun. destruct (km_create_ok (T:=T) (V:=metric_family_t)) as [Hok Hit].
  assert (stores s0 [] ∧ staleness_delta s0 = delta) as [Hst Hd].
  { assert (prom_init true (mk_prom None false host port false delta) ⇓
      (0, mk_prom (Some km_create) false host port true delta)) as E by done.
    pose proof (yields_det _ _ _ Hinit E) as [= ->]. split; [|done]. split; [done|]. exists km_create. by rewrite Hit. }
  rewrite <-Hd in Hrun. destruct (run_calls_ok cs s0 [] Hst) as (s & l & E & Hst' & Hser).
  { eapply sensible_ext; [|exact Hrun]. done. }
  rewrite Hd in Hser. exists s, l. split_and!; [done|done| | |].
  - destruct Hst' as (_ & t & _ & Hok' & <- & _). by apply km_sorted.
  - intros nm k. rewrite (stores_series s l), Hser by done. by apply abs_run_ext.
  - intros version hostname lines accept Hp. destruct (format_text_ok version hostname s l lines Hst' Hp) as (b & Et & Htext).
    unfold http_handler. change (negb (strcmp $"GET" $"GET" =? 0)) with false. cbn [negb]. eapply yields_bind; [exact Et|].
    cbv beta iota. by rewrite Htext.
Qed.

(** [prom_missing] never releases the mutex when the family is not in the
    store, for example because a filter chain kept it from the plugin: every
    later write, report or request waits forever, and so does the shutdown. *)
Theorem prom_missing_unknown_blocks s l fam nm : stores s l → fam_name fam = Some nm → Spec.get nm l = None →
  ∃ s', prom_missing fam s ⇓ (0, s') ∧ prom_metrics_lock s' = true ∧
    ∀ o fam' version hostname buf, prom_write fam' s' o = None ∧ prom_missing fam' s' o = None ∧
      format_text version hostname buf s' o = None ∧ prom_shutdown s' o = None.
Proof.
  intros (Hlk & t & Ht & Hok & Hl & _) Hn Hg. exists (set_lock s true). split_and!; [|done|done].
  unfold prom_missing, lock. rewrite Hlk. cbn [negb massert]. rewrite !bind_ret. cbn [prom_metrics set_lock]. rewrite Ht, Hn. cbn [mopt].
  by rewrite !bind_ret, (km_get_ok t nm Hok), Hl, Hg.
Qed.

Lemma fam_series_live nm pf : fam_good nm pf → ∃ k, is_Some (fam_series pf k).
Proof.
  intros (_ & _ & Hne & _ & Hs). destruct (metric pf) as [|x ms] eqn:E; [done|]. exists (label_values x). unfold fam_series. rewrite E.
  assert (arr_get label_values (label_values x) (x :: ms) = Some x) as ->; [|by eexists]. apply arr_get_some; [done|]. set_solver.
Qed.

(** A report of several metrics of which the first is the last one of its
    stored family touches the family after it was freed. *)
Theorem prom_missing_use_after_free s l fam nm pf x m m' ms : stores s l → fam_name fam = Some nm →
  Spec.get nm l = Some pf → metric pf = [x] → metric fam = m :: m' :: ms → labelled m → label_values m = label_values x →
  prom_missing fam s [] = None.
Proof.
  intros (Hlk & t & Ht & Hok & Hl & Hg) Hn Eg Hpf Hms Hm Hk.
  assert (is_Some (fam_series pf (label_values m))) as Hlive.
  { unfold fam_series, arr_get. rewrite Hpf. cbn. rewrite compare_bool, bool_decide_eq_true_2 by done. by eexists. }
  destruct (missing_round_ok t nm pf m) as (t' & pf' & E & _ & Hgood & Hser & _); [done|by rewrite Hl|by apply Hg|done..|].
  unfold prom_missing, lock. rewrite Hlk. cbn [negb massert]. rewrite !bind_ret. cbn [prom_metrics set_lock]. rewrite Ht, Hn. cbn [mopt].
  rewrite !bind_ret, (km_get_ok t nm Hok), Hl, Eg, Hms. unfold bind at 1. rewrite E.
  assert (metric pf' = []) as ->; [|by rewrite bool_decide_eq_true_2].
  destruct (decide (metric pf' = [])) as [|Hne]; [done|]. destruct (fam_series_live nm pf' (Hgood Hne)) as (k & Hk').
  rewrite Hser in Hk'. case_bool_decide as Ek; [by destruct Hk'|]. unfold fam_series, arr_get in Hk'. rewrite Hpf in Hk'. cbn in Hk'.
  rewrite compare_bool, bool_decide_eq_false_2 in Hk' by congruence. by destruct Hk'.
Qed.

(** When memory for the copy is short, the first write of a family fails and
    changes nothing. *)
Theorem prom_write_nomem s l nm fam o : stores s l → fam_name fam = Some nm → Spec.get nm l = None →
  prom_write fam s (false :: o) = Some ((-1, s), o).
Proof.
  intros (Hlk & t & Ht & Hok & Hl & _) Hn Eg. unfold prom_write, lock, unlock. rewrite Hlk. cbn [negb massert]. rewrite !bind_ret.
  cbn [prom_metrics set_lock]. rewrite Ht, Hn. cbn [mopt]. rewrite !bind_ret, (km_get_ok t nm Hok), Hl, Eg.
  unfold metric_family_clone. cbn. repeat f_equal. destruct s. cbn in Hlk, Ht. by subst.
Qed.
End exporter.

(** ** Witnesses *)

#[local] Existing Instances Avl.avl_map Avl.avl_laws.
#[local] Instance demo_sysconf : Sysconf := 4096.
#[local] Instance demo_format_gauge : MetaData.FormatGauge := λ g, if feq g (of_Z 1) then $"1" else $"2".

Abbreviation store := (prom_state (Avl.c_avl_tree cstr)).
Definition disk_metric (label disk : cstr) (v t iv : Z) : metric_t :=
  mk_metric (embed [(label, disk)]) (v_gauge (of_Z v)) t iv None.
Definition disk_family (ms : list metric_t) : metric_family_t := mk_family (Some $"io") None METRIC_TYPE_GAUGE ms.
Definition demo_calls : list prom_call :=
  [call_write (disk_family [disk_metric $"disk" $"b" 1 (2 ^ 30) 10; disk_metric $"disk" $"a" 1 (2 ^ 30) 10]);
   call_write (disk_family [disk_metric $"disk" $"a" 2 (2 ^ 31) (2 ^ 40)]);
   call_missing (disk_family [disk_metric $"disk" $"b" 0 0 0])].
Definition demo_started : store :=
  mk_prom (Some km_create) false None 9103 true PROMETHEUS_DEFAULT_STALENESS_DELTA.

Lemma disk_plain ty label disk v t iv : ty ≠ METRIC_TYPE_DISTRIBUTION → plain_metric ty (disk_metric label disk v t iv).
Proof. intros Hty. split_and!; [by exists [(label, disk)]|by intros ?|done]. Qed.

Lemma demo_sensible : sensible_run PROMETHEUS_DEFAULT_STALENESS_DELTA (λ _ _, None) demo_calls.
Proof.
  unfold demo_calls. cbn [sensible_run]. split_and!; [..|done].
  - exists $"io". split_and!; [done..| |].
    + repeat apply Forall_cons_2; [by apply disk_plain..|constructor].
    + apply (bool_decide_unpack _). by vm_compute.
  - exists $"io". split_and!; [done..| |].
    + repeat apply Forall_cons_2; [by apply disk_plain..|constructor].
    + apply (bool_decide_unpack _). by vm_compute.
  - exists $"io", (disk_metric $"disk" $"b" 0 0 0). split_and!; [done|done|by exists [($"disk", $"b")]|]. vm_compute. by eexists.
Qed.

Lemma prom_exporter_spec_witness :
  ∃ s : store, run_calls demo_calls demo_started ⇓ s ∧
    series s $"io" [$"a"] = Some (v_gauge (of_Z 2), 0) ∧ series s $"io" [$"b"] = None.
Proof.
  destruct (prom_exporter_spec demo_calls PROMETHEUS_DEFAULT_STALENESS_DELTA None 9103 demo_started) as (s & l & E & _ & _ & Hser & _);
    [by vm_compute|apply demo_sensible|].
  exists s. split; [exact E|]. rewrite !Hser. by vm_compute.
Defined.

Lemma demo_started_stores : stores demo_started [].
Proof.
  destruct (km_create_ok (T:=Avl.c_avl_tree cstr) (V:=metric_family_t)) as [Hok Hit]. split; [done|]. exists km_create. by rewrite Hit.
Qed.

Lemma prom_missing_unknown_blocks_witness :
  ∃ s' : store, prom_missing (disk_family []) demo_started ⇓ (0, s') ∧ prom_write (disk_family []) s' [] = None.
Proof.
  destruct (prom_missing_unknown_blocks demo_started [] (disk_family []) $"io" demo_started_stores) as (s' & E & _ & Hb); [done..|].
  exists s'. split; [exact E|]. apply (Hb [] (disk_family []) [] [] STRBUF_CREATE).
Defined.

Lemma prom_write_nomem_witness :
  prom_write (disk_family []) demo_started [false] = Some ((-1, demo_started), []).
Proof. by apply (prom_write_nomem demo_started [] $"io" (disk_family []) [] demo_started_stores). Defined.

(** A store with one sample. *)
Definition one_disk : metric_family_t := disk_family [disk_metric $"disk" $"a" 1 (2 ^ 30) 10].
Definition one_stored : store :=
  mk_prom (match km_insert (T:=Avl.c_avl_tree cstr) true km_create $"io" one_disk with Some (_, t) => Some t | None => None end)
    false None 9103 true PROMETHEUS_DEFAULT_STALENESS_DELTA.

Lemma one_stored_stores : stores one_stored [($"io", one_disk)].
Proof.
  destruct (km_create_ok (T:=Avl.c_avl_tree cstr) (V:=metric_family_t)) as [Hok Hit]. split; [done|].
  destruct (km_insert_new (T:=Avl.c_avl_tree cstr) km_create $"io" one_disk Hok) as (t & E & Hok' & Hit'); [by rewrite Hit|].
  exists t. unfold one_stored. cbn [prom_metrics]. rewrite E. split_and!; [done|done|by rewrite Hit', Hit|].
  intros nm pf. cbn. case_match eqn:Ec; [|done]. apply Z.eqb_eq, strcmp_eq in Ec as ->. intros [= <-]. split_and!; [done|done|done| |].
  - constructor; [by apply disk_plain|constructor].
  - repeat constructor.
Qed.

Lemma prom_missing_use_after_free_witness :
  prom_missing (disk_family [disk_metric $"disk" $"a" 0 0 0; disk_metric $"disk" $"b" 0 0 0]) one_stored [] = None.
Proof.
  apply (prom_missing_use_after_free one_stored [($"io", one_disk)] _ $"io" one_disk (disk_metric $"disk" $"a" 1 (2 ^ 30) 10)
    (disk_metric $"disk" $"a" 0 0 0) (disk_metric $"disk" $"b" 0 0 0) []); [apply one_stored_stores|done..|by exists [($"disk", $"a")]|done].
Defined.

(** Metrics of one family are told apart by the values of their labels alone:
    the second sample, with another label name, replaces the first one and is
    served under the name of the first. *)
Example prom_label_names_ignored :
  ∃ (s : store) b, run_calls [call_write (disk_family [disk_metric $"disk" $"a" 1 0 10]);
                   call_write (disk_family [disk_metric $"dir" $"a" 2 0 10])] demo_started ⇓ s ∧
    format_text $"1" $"h" STRBUF_CREATE s ⇓ (b, s) ∧
    text b = unlines [$"# HELP io"; $"# TYPE io gauge"; $"io{disk=" ++ QUOTE :: $"a" ++ QUOTE :: $"} 2"; [];
                      $"# ncollectd/write_prometheus 1 at h"].
Proof. eexists _, _. split_and!; [by vm_compute|by vm_compute|by vm_compute]. Qed.
