(* ===== verification/Cpu.v ===== *)
(** * The CPU plugin (src/plugins/cpu/cpu.c)

    The Linux branch of the plugin: counters of /proc/stat are staged per CPU
    and state, then totals, or rates and percentages, are dispatched, with the
    topology that /sys shows as labels.  The files and directories of /proc and
    /sys are parameters; a family that goes to [plugin_dispatch_metric_family]
    is appended to the output, whose status the plugin only logs.  A counter is
    written as [derive] and read by its consumers as [counter]: the model
    stores the 64 bits.  A number that [atoi] or [atoll] cannot represent is
    undefined behaviour and has no result. *)

From Stdlib Require Import ZArith Lia Ascii String Sorted.
From stdpp Require Import base numbers option list.
From S2P Require Import Prelude MapSpec Double StrBuf LabelSet Metric Values OConfig TypesDb.
From S2P Require CommonStr Cache.

Definition COLLECTD_CPU_STATE_USER : nat := 0.
Definition COLLECTD_CPU_STATE_SYSTEM : nat := 1.
Definition COLLECTD_CPU_STATE_WAIT : nat := 2.
Definition COLLECTD_CPU_STATE_NICE : nat := 3.
Definition COLLECTD_CPU_STATE_SWAP : nat := 4.
Definition COLLECTD_CPU_STATE_INTERRUPT : nat := 5.
Definition COLLECTD_CPU_STATE_SOFTIRQ : nat := 6.
Definition COLLECTD_CPU_STATE_STEAL : nat := 7.
Definition COLLECTD_CPU_STATE_GUEST : nat := 8.
Definition COLLECTD_CPU_STATE_GUEST_NICE : nat := 9.
Definition COLLECTD_CPU_STATE_IDLE : nat := 10.
Definition COLLECTD_CPU_STATE_ACTIVE : nat := 11. (* sum of (!idle) *)
Definition COLLECTD_CPU_STATE_MAX : nat := 12. (* #states *)

Definition cpu_state_names : list cstr :=
  [$"user"; $"system"; $"wait"; $"nice"; $"swap"; $"interrupt"; $"softirq"; $"steal"; $"guest"; $"guest_nice";
   $"idle"; $"active"].

(** [RATE_ADD (sum, val)]: the new sum. *)
Definition RATE_ADD (sum val : double) : double :=
  if is_nan sum then val else if negb (is_nan val) then fadd sum val else sum.

Record cpu_state_t : Type := mk_state { conv : value_to_rate_state_t; rate : double; has_value : bool }.
Record cpu_topology_t : Type := mk_topology { node : cstr; socket : cstr; core : cstr; drawer : cstr; book : cstr }.
Definition zero_state : cpu_state_t := mk_state vr_zero fzero false.
Definition zero_topology : cpu_topology_t := mk_topology [] [] [] [] [].

Record cpu_options : Type := mk_options {
  report_by_cpu : bool;
  report_by_state : bool;
  report_percent : bool;
  report_num_cpu : bool;
  report_guest : bool;
  report_topology : bool;
  subtract_guest : bool;
}.
(** The static variables of the file; [cpu_states_num] and
    [cpu_topology_num] are the lengths. *)
Record cpu_plugin : Type := mk_cpu {
  cpu_states : list cpu_state_t;
  cpu_topology : list cpu_topology_t;
  global_cpu_num : nat;
  options : cpu_options;
}.
Definition cpu_initial : cpu_plugin := mk_cpu [] [] 0 (mk_options true true false false false false true).

Definition set_states (p : cpu_plugin) (l : list cpu_state_t) : cpu_plugin :=
  mk_cpu l (cpu_topology p) (global_cpu_num p) (options p).
Definition set_topology (p : cpu_plugin) (l : list cpu_topology_t) : cpu_plugin :=
  mk_cpu (cpu_states p) l (global_cpu_num p) (options p).
Definition set_cpu_num (p : cpu_plugin) (n : nat) : cpu_plugin :=
  mk_cpu (cpu_states p) (cpu_topology p) n (options p).

Definition cpu_config (p : cpu_plugin) (k value : cstr) : Z * cpu_plugin :=
  let o := options p in
  let b := IS_TRUE value in
  let set o := (0, mk_cpu (cpu_states p) (cpu_topology p) (global_cpu_num p) o) in
  if strcasecmp k $"ReportByCpu" =? 0 then
    set (mk_options b (report_by_state o) (report_percent o) (report_num_cpu o) (report_guest o) (report_topology o) (subtract_guest o))
  else if strcasecmp k $"ValuesPercentage" =? 0 then
    set (mk_options (report_by_cpu o) (report_by_state o) b (report_num_cpu o) (report_guest o) (report_topology o) (subtract_guest o))
  else if strcasecmp k $"ReportByState" =? 0 then
    set (mk_options (report_by_cpu o) b (report_percent o) (report_num_cpu o) (report_guest o) (report_topology o) (subtract_guest o))
  else if strcasecmp k $"ReportNumCpu" =? 0 then
    set (mk_options (report_by_cpu o) (report_by_state o) (report_percent o) b (report_guest o) (report_topology o) (subtract_guest o))
  else if strcasecmp k $"ReportGuestState" =? 0 then
    set (mk_options (report_by_cpu o) (report_by_state o) (report_percent o) (report_num_cpu o) b (report_topology o) (subtract_guest o))
  else if strcasecmp k $"ReportTopology" =? 0 then
    set (mk_options (report_by_cpu o) (report_by_state o) (report_percent o) (report_num_cpu o) (report_guest o) b (subtract_guest o))
  else if strcasecmp k $"SubtractGuestState" =? 0 then
    set (mk_options (report_by_cpu o) (report_by_state o) (report_percent o) (report_num_cpu o) (report_guest o) (report_topology o) b)
  else (-1, p).

(** [atoi] and [atoll]: base 10, whatever the digits start with. *)
Definition parse_decimal (s : cstr) : Z :=
  let t := drop (span_len isspace s) s in
  let '(neg, t) := CommonStr.split_sign t in
  let v := CommonStr.digits_value 10 (take (span_len isdigit t) t) in
  if neg : bool then - v else v.
Definition atoi (s : cstr) : M Z :=
  let v := parse_decimal s in if (- 2 ^ 31 <=? v) && (v <? 2 ^ 31) then ret v else crash.
Definition atoll (s : cstr) : M Z :=
  let v := parse_decimal s in if (- 2 ^ 63 <=? v) && (v <? 2 ^ 63) then ret v else crash.

(** ** Files *)

(** The contents of a file, the names of a directory; [None] where opening
    fails. *)
Class Filesystem : Type := {
  file_contents : cstr → option (list ascii);
  dir_entries : cstr → option (list cstr);
}.

Section cpu.
Context `{Filesystem}.
Implicit Types (p : cpu_plugin) (out : list metric_family_t).

(** The bytes that land in the buffer, or -1. *)
Definition read_file_contents (filename : cstr) (bufsize : nat) : option (list ascii) :=
  take bufsize <$> file_contents filename.

Definition walk_directory {U : Type} (dir : cstr) (callback : cstr → cstr → U → M (Z * U)) (include_hidden : bool) (s : U) :
    M (Z * U) :=
  match dir_entries dir with
  | None => ret (-1, s)
  | Some names =>
      let fix walk (names : list cstr) (success failure : nat) (s : U) : M (Z * U) :=
        match names with
        | [] => ret (if (success =? 0)%nat && (0 <? failure)%nat then -1 else 0, s)
        | d_name :: names =>
            let skip :=
              if include_hidden then (strcmp $"." d_name =? 0) || (strcmp $".." d_name =? 0)
              else bool_decide (hd_error d_name = Some "."%char) in
            if skip : bool then walk names success failure s
            else
              let* '(status, s) := callback dir d_name s in
              if negb (status =? 0) then walk names success (S failure) s else walk names (S success) failure s
        end in
      walk names O O s
  end.

(** What the code leaves of the text it read: the last byte is overwritten,
    then a newline is cut off. *)
Definition chomp (bytes : list ascii) : cstr :=
  let s := c_str (take (length bytes - 1) bytes) in
  if bool_decide (last s = Some newline) then take (length s - 1) s else s.

(** ** Topology *)

Definition PATH_MAX : nat := 4096.
Definition CPU_ROOT_DIR : cstr := $"/sys/devices/system/cpu".
Definition NUMA_ROOT_DIR : cstr := $"/sys/devices/system/node".

Definition cpu_topology_alloc (cpu_num : nat) p : M (Z * cpu_plugin) :=
  let size := S cpu_num in
  if (size <=? length (cpu_topology p))%nat then ret (0, p)
  else
    let* ok := alloc in
    if negb ok then ret (ENOMEM, p)
    else ret (0, set_topology p (cpu_topology p ++ replicate (size - length (cpu_topology p)) zero_topology)).

(** The index of the entry, or NULL. *)
Definition get_cpu_topology (cpu_num : nat) p : M (option nat * cpu_plugin) :=
  if (length (cpu_topology p) <=? cpu_num)%nat then
    let* '(_, p) := cpu_topology_alloc cpu_num p in
    ret (if (length (cpu_topology p) <=? cpu_num)%nat then None else Some cpu_num, p)
  else ret (Some cpu_num, p).

(** The new contents of a buffer of [size] bytes. *)
Definition cpu_topology_id (cpu id : cstr) (size : nat) : cstr :=
  let path := take (PATH_MAX - 1) (CPU_ROOT_DIR ++ $"/" ++ cpu ++ $"/topology/" ++ id) in
  match read_file_contents path size with
  | None | Some [] => []
  | Some bytes => chomp bytes
  end.

Definition cpu_topology_id_callback (dir cpu : cstr) p : M (Z * cpu_plugin) :=
  if negb (strcmp (take 3 cpu) $"cpu" =? 0) then ret (0, p)
  else if negb (isdigit (default NUL (cpu !! 3%nat))) then ret (0, p)
  else
    let* cpu_num := atoi (drop 3 cpu) in
    let cpu_num := Z.to_nat cpu_num in
    let* '(status, p) := cpu_topology_alloc cpu_num p in
    if negb (status =? 0) then ret (status, p)
    else
      let* '(t, p) := get_cpu_topology cpu_num p in
      match t with
      | None => ret (0, p)
      | Some i =>
          ret (0, set_topology p (alter (λ t,
            mk_topology (node t) (cpu_topology_id cpu $"physical_package_id" 8) (cpu_topology_id cpu $"core_id" 8)
              (cpu_topology_id cpu $"drawer_id" 8) (cpu_topology_id cpu $"book_id" 8)) i (cpu_topology p)))
      end.

Definition set_node (n : cstr) (t : cpu_topology_t) : cpu_topology_t :=
  mk_topology n (socket t) (core t) (drawer t) (book t).

Definition cpu_topology_set_node (ncpu : nat) (nd : cstr) (set : bool) p : M cpu_plugin :=
  let* '(t, p) := get_cpu_topology ncpu p in
  match t with
  | None => ret p
  | Some i => ret (set_topology p (alter (set_node (if set then take 7 nd else [])) i (cpu_topology p)))
  end.

Definition hex_to_int (c : ascii) : Z :=
  if chr_in 48 57 c then chr_code c - 48
  else
    let c := tolower c in
    if chr_in 97 102 c then chr_code c - 97 + 10 else -1.

(** The loop over the characters of the mask, from the last one down. *)
Fixpoint node_loop (nd : cstr) (cs : list ascii) (ncpu : nat) p : M cpu_plugin :=
  match cs with
  | [] => ret p
  | c :: cs =>
      if bool_decide (c = "x"%char) then ret p
      else
        let digit c cs (continue : nat → cpu_plugin → M cpu_plugin) :=
          let set := hex_to_int c in
          if set <? 0 then continue ncpu p
          else
            let* p := cpu_topology_set_node ncpu nd (Z.testbit set 0) p in
            let* p := cpu_topology_set_node (ncpu + 1) nd (Z.testbit set 1) p in
            let* p := cpu_topology_set_node (ncpu + 2) nd (Z.testbit set 2) p in
            let* p := cpu_topology_set_node (ncpu + 3) nd (Z.testbit set 3) p in
            continue (ncpu + 4)%nat p in
        if bool_decide (c = ","%char) then
          match cs with
          | [] => crash (* the byte before the buffer *)
          | c :: cs => digit c cs (node_loop nd cs)
          end
        else digit c cs (node_loop nd cs)
  end.

Definition cpu_topology_node_callback (dir nd : cstr) p : M (Z * cpu_plugin) :=
  if negb (strcmp (take 4 nd) $"node" =? 0) then ret (0, p)
  else if negb (isdigit (default NUL (nd !! 4%nat))) then ret (0, p)
  else
    let path := take (PATH_MAX - 1) (NUMA_ROOT_DIR ++ $"/" ++ nd ++ $"/cpumap") in
    match read_file_contents path 8096 with
    | None | Some [] => ret (-1, p)
    | Some bytes => let* p := node_loop (drop 4 nd) (rev (chomp bytes)) 0 p in ret (0, p)
    end.

(** One label, when it is known. *)
Definition set_known (m : metric_t) (nm val : cstr) : M metric_t :=
  match val with
  | [] => ret m
  | _ => let* '(_, m) := metric_label_set m nm (Some val) in ret m
  end.
Definition cpu_topology_set_labels (ncpu : nat) (m : metric_t) p : M (metric_t * cpu_plugin) :=
  let* '(t, p) := get_cpu_topology ncpu p in
  match t with
  | None => ret (m, p)
  | Some i =>
      let* t := mopt (cpu_topology p !! i) in
      let* m := set_known m $"core" (core t) in
      let* m := set_known m $"socket" (socket t) in
      let* m := set_known m $"book" (book t) in
      let* m := set_known m $"drawer" (drawer t) in
      let* m := set_known m $"node" (node t) in
      ret (m, p)
  end.

Definition cpu_topology_scan p : M cpu_plugin :=
  let p := set_topology p (replicate (length (cpu_topology p)) zero_topology) in
  let* '(_, p) := walk_directory CPU_ROOT_DIR cpu_topology_id_callback false p in
  let* '(_, p) := walk_directory NUMA_ROOT_DIR cpu_topology_node_callback false p in
  ret p.

Definition init p : M (Z * cpu_plugin) := let* p := cpu_topology_scan p in ret (0, p).

(** ** Staging *)

Definition cpu_states_alloc (cpu_num : nat) p : M (Z * cpu_plugin) :=
  let sz := ((cpu_num + 1) * COLLECTD_CPU_STATE_MAX)%nat in
  if (sz <=? length (cpu_states p))%nat then ret (0, p)
  else
    let* ok := alloc in
    if negb ok then ret (ENOMEM, p)
    else ret (0, set_states p (cpu_states p ++ replicate (sz - length (cpu_states p)) zero_state)).

(** The index of the state, or NULL. *)
Definition get_cpu_state (cpu_num state : nat) p : option nat :=
  let index := (cpu_num * COLLECTD_CPU_STATE_MAX + state)%nat in
  if (length (cpu_states p) <=? index)%nat then None else Some index.

Definition cpu_stage (cpu_num state : nat) (d now : Z) p : M (Z * cpu_plugin) :=
  if (COLLECTD_CPU_STATE_ACTIVE <=? state)%nat then ret (EINVAL, p)
  else
    let* '(status, p) := cpu_states_alloc cpu_num p in
    if negb (status =? 0) then ret (status, p)
    else
      let p := if (global_cpu_num p <=? cpu_num)%nat then set_cpu_num p (cpu_num + 1) else p in
      let* i := mopt (get_cpu_state cpu_num state p) in
      let* s := mopt (cpu_states p !! i) in
      let* '(status, r, c) := value_to_rate (v_derive d) DS_TYPE_DERIVE now (conv s) in
      if negb (status =? 0) then
        ret (status, set_states p (<[i := mk_state c (rate s) (has_value s)]> (cpu_states p)))
      else ret (0, set_states p (<[i := mk_state c (default NAN r) true]> (cpu_states p))).

(** A value of user or nice, less the part that is reported as guest. *)
Definition subtract (value guest : Z) : M Z :=
  let* v := derive_op (value - guest) in ret (if v <? 0 then 0 else v).

(** What one line stages, in order. *)
Definition line_values (o : cpu_options) (fields : list cstr) : M (list (nat * Z)) :=
  let numfields := length fields in
  let field i := let* f := mopt (fields !! i) in atoll f in
  let* user_value := field 1%nat in
  let* nice_value := field 2%nat in
  let* system := field 3%nat in
  let* idle := field 4%nat in
  let vs := [(COLLECTD_CPU_STATE_SYSTEM, system); (COLLECTD_CPU_STATE_IDLE, idle)] in
  let* vs :=
    if (8 <=? numfields)%nat then
      let* wait := field 5%nat in
      let* interrupt := field 6%nat in
      let* softirq := field 7%nat in
      ret (vs ++ [(COLLECTD_CPU_STATE_WAIT, wait); (COLLECTD_CPU_STATE_INTERRUPT, interrupt);
                  (COLLECTD_CPU_STATE_SOFTIRQ, softirq)])
    else ret vs in
  let* vs :=
    if (9 <=? numfields)%nat then let* steal := field 8%nat in ret (vs ++ [(COLLECTD_CPU_STATE_STEAL, steal)]) else ret vs in
  let* '(user_value, vs) :=
    if (10 <=? numfields)%nat && report_guest o then
      let* value := field 9%nat in
      let* user_value := if subtract_guest o then subtract user_value value else ret user_value in
      ret (user_value, vs ++ [(COLLECTD_CPU_STATE_GUEST, value)])
    else ret (user_value, vs) in
  let* '(nice_value, vs) :=
    if (11 <=? numfields)%nat && report_guest o then
      let* value := field 10%nat in
      let* nice_value := if subtract_guest o then subtract nice_value value else ret nice_value in
      ret (nice_value, vs ++ [(COLLECTD_CPU_STATE_GUEST_NICE, value)])
    else ret (nice_value, vs) in
  ret (vs ++ [(COLLECTD_CPU_STATE_USER, user_value); (COLLECTD_CPU_STATE_NICE, nice_value)]).

Fixpoint stage_all (cpu : nat) (vs : list (nat * Z)) (now : Z) p : M cpu_plugin :=
  match vs with
  | [] => ret p
  | (state, d) :: vs => let* '(_, p) := cpu_stage cpu state d now p in stage_all cpu vs now p
  end.

(** One line of /proc/stat. *)
Definition stat_line (buf : cstr) (now : Z) p : M cpu_plugin :=
  if negb (strcmp (take 3 buf) $"cpu" =? 0) then ret p
  else if negb (isdigit (default NUL (buf !! 3%nat))) then ret p
  else
    let fields := CommonStr.strsplit buf 11 in
    if (length fields <? 5)%nat then ret p
    else
      let* f := mopt (fields !! 0%nat) in
      let* cpu := atoi (drop 3 f) in
      let* vs := line_values (options p) fields in
      stage_all (Z.to_nat cpu) vs now p.

(** The lines, as [fgets] cuts them; [fuel] is the length of the file. *)
Fixpoint stat_loop (fuel : nat) (fh : list ascii) (now : Z) p : M cpu_plugin :=
  match fgets 1024 fh with
  | None => ret p
  | Some (line, fh) =>
      match fuel with
      | O => crash
      | S fuel => let* p := stat_line (c_str line) now p in stat_loop fuel fh now p
      end
  end.

(** ** Dispatching *)

(** The rates of all states of a CPU: the aggregation of one CPU. *)
Fixpoint aggregate_states (cpu_num : nat) (states : list nat) (sums : list double) (active : double) p :
    M (list double * double) :=
  match states with
  | [] => ret (sums, active)
  | st :: states =>
      let* s := mopt (cpu_states p !! (cpu_num * COLLECTD_CPU_STATE_MAX + st)%nat) in
      if negb (has_value s) then aggregate_states cpu_num states sums active p
      else
        let sums := alter (λ x, RATE_ADD x (rate s)) st sums in
        let active := if (st =? COLLECTD_CPU_STATE_IDLE)%nat then active else RATE_ADD active (rate s) in
        aggregate_states cpu_num states sums active p
  end.

Fixpoint aggregate_cpus (cpus : list nat) (sums : list double) p : M (list double * cpu_plugin) :=
  match cpus with
  | [] => ret (sums, p)
  | cpu_num :: cpus =>
      let* '(sums, active) := aggregate_states cpu_num (seq 0 COLLECTD_CPU_STATE_ACTIVE) sums NAN p in
      let i := (cpu_num * COLLECTD_CPU_STATE_MAX + COLLECTD_CPU_STATE_ACTIVE)%nat in
      let p := set_states p (alter (λ s, mk_state (conv s) active (has_value s || negb (is_nan active))) i (cpu_states p)) in
      aggregate_cpus cpus (alter (λ x, RATE_ADD x active) COLLECTD_CPU_STATE_ACTIVE sums) p
  end.
Definition aggregate p : M (list double * cpu_plugin) :=
  aggregate_cpus (seq 0 (global_cpu_num p)) (replicate COLLECTD_CPU_STATE_MAX NAN) p.

Definition state_name (state : nat) : cstr := default [] (cpu_state_names !! state).
Definition nth_rate (rates : list double) (state : nat) : double := default NAN (rates !! state).
Definition hundred : double := of_Z 100.
Definition percent (rates : list double) (sum : double) (state : nat) : double :=
  fdiv (fmul hundred (nth_rate rates state)) sum.
Definition set_value (m : metric_t) (v : value_t) : metric_t := mk_metric (label m) v (time m) (interval m) (meta m).

(** [m.value.gauge = v; metric_label_set (m, "state", ...); append] *)
Definition append_state (fam : metric_family_t) (m : metric_t) (v : value_t) (state : nat) : M (metric_family_t * metric_t) :=
  let* '(_, m) := metric_label_set (set_value m v) $"state" (Some (state_name state)) in
  let* '(_, fam) := metric_family_metric_append fam m in
  ret (fam, m).

Fixpoint append_percents (states : list nat) (fam : metric_family_t) (m : metric_t) (rates : list double) (sum : double) :
    M (metric_family_t * metric_t) :=
  match states with
  | [] => ret (fam, m)
  | st :: states =>
      let* '(fam, m) := append_state fam m (v_gauge (percent rates sum st)) st in
      append_percents states fam m rates sum
  end.

Definition cpu_commit_metric (o : cpu_options) (fam : metric_family_t) (m : metric_t) (rates : list double) out : M (list metric_family_t) :=
  let sum := RATE_ADD (nth_rate rates COLLECTD_CPU_STATE_ACTIVE) (nth_rate rates COLLECTD_CPU_STATE_IDLE) in
  let* '(fam, m) :=
    if negb (report_by_state o) then
      append_state fam m (v_gauge (percent rates sum COLLECTD_CPU_STATE_ACTIVE)) COLLECTD_CPU_STATE_ACTIVE
    else append_percents (seq 0 COLLECTD_CPU_STATE_ACTIVE) fam m rates sum in
  let* _ := metric_reset m in
  let* _ := metric_family_metric_reset fam in
  ret (out ++ [fam]).

Definition new_family (name : cstr) (ty : metric_type_t) : metric_family_t := mk_family (Some name) None ty [].

Definition cpu_commit_all (rates : list double) p out : M (list metric_family_t) :=
  cpu_commit_metric (options p) (new_family $"host_cpu_all_usage_percent" METRIC_TYPE_GAUGE) zero_metric rates out.

(** [snprintf] of the number into 16 bytes. *)
Definition cpu_num_str (cpu_num : nat) : cstr := take 15 (CommonStr.decimal (Z.of_nat cpu_num)).

(** A scan when the number of CPUs has changed. *)
Definition rescan p : M cpu_plugin :=
  if negb (length (cpu_topology p) * COLLECTD_CPU_STATE_MAX =? length (cpu_states p))%nat then cpu_topology_scan p else ret p.

Definition cpu_commit_one (cpu_num : nat) (rates : list double) p out : M (cpu_plugin * list metric_family_t) :=
  let* '(_, m) := metric_label_set zero_metric $"cpu" (Some (cpu_num_str cpu_num)) in
  let* '(m, p) :=
    if report_topology (options p) then let* p := rescan p in cpu_topology_set_labels cpu_num m p else ret (m, p) in
  let* out := cpu_commit_metric (options p) (new_family $"host_cpu_usage_percent" METRIC_TYPE_GAUGE) m rates out in
  ret (p, out).

Definition cpu_commit_num_cpu (value : double) out : M (list metric_family_t) :=
  let* '(_, fam) := metric_family_metric_append (new_family $"host_cpu_count" METRIC_TYPE_GAUGE) (set_value zero_metric (v_gauge value)) in
  let* _ := metric_family_metric_reset fam in
  ret (out ++ [fam]).

Definition cpu_reset p : cpu_plugin :=
  set_cpu_num (set_states p (map (λ s, mk_state (conv s) (rate s) false) (cpu_states p))) 0.

(** [conv.last_value.derive] *)
Definition last_derive (s : cpu_state_t) : M Z := mopt (as_derive (vr_last_value (conv s))).

(** The sum over the CPUs of one state. *)
Fixpoint sum_state (cpus : list nat) (state : nat) (v : Z) p : M Z :=
  match cpus with
  | [] => ret v
  | cpu_num :: cpus =>
      match get_cpu_state cpu_num state p with
      | None => sum_state cpus state v p
      | Some i =>
          let* s := mopt (cpu_states p !! i) in
          if negb (has_value s) then sum_state cpus state v p
          else
            let* d := last_derive s in
            let* v := derive_op (v + d) in
            sum_state cpus state v p
      end
  end.
Fixpoint sum_states (states : list nat) p : M (list Z) :=
  match states with
  | [] => ret []
  | st :: states =>
      let* v := sum_state (seq 0 (global_cpu_num p)) st 0 p in
      let* vs := sum_states states p in
      ret (v :: vs)
  end.

Fixpoint append_totals (states : list nat) (values : list Z) (fam : metric_family_t) (m : metric_t) : M (metric_family_t * metric_t) :=
  match states, values with
  | st :: states, v :: values =>
      let* '(_, m) := metric_label_set m $"state" (Some (state_name st)) in
      let m := set_value m (v_counter (u64 v)) in
      let* '(_, fam) := metric_family_metric_append fam m in
      append_totals states values fam m
  | _, _ => ret (fam, m)
  end.

Definition cpu_commit_all_without_aggregation p out : M (list metric_family_t) :=
  let* values := sum_states (seq 0 COLLECTD_CPU_STATE_ACTIVE) p in
  let* '(fam, m) :=
    append_totals (seq 0 COLLECTD_CPU_STATE_ACTIVE) values (new_family $"host_cpu_all_usage_total" METRIC_TYPE_COUNTER) zero_metric in
  let* _ := metric_reset m in
  let* _ := metric_family_metric_reset fam in
  ret (out ++ [fam]).

(** The inner loop: the CPUs for one state; [m] keeps its labels. *)
Fixpoint append_cpus (cpus : list nat) (state : nat) (fam : metric_family_t) (m : metric_t) p :
    M (metric_family_t * metric_t * cpu_plugin) :=
  match cpus with
  | [] => ret (fam, m, p)
  | cpu_num :: cpus =>
      let* i := mopt (get_cpu_state cpu_num state p) in
      let* s := mopt (cpu_states p !! i) in
      if negb (has_value s) then append_cpus cpus state fam m p
      else
        let* '(_, m) := metric_label_set m $"cpu" (Some (cpu_num_str cpu_num)) in
        let* '(m, p) := if report_topology (options p) then cpu_topology_set_labels cpu_num m p else ret (m, p) in
        let* d := last_derive s in
        let m := set_value m (v_counter (u64 d)) in
        let* '(_, fam) := metric_family_metric_append fam m in
        append_cpus cpus state fam m p
  end.
Fixpoint append_states (states : list nat) (fam : metric_family_t) (m : metric_t) p : M (metric_family_t * metric_t * cpu_plugin) :=
  match states with
  | [] => ret (fam, m, p)
  | st :: states =>
      let* '(_, m) := metric_label_set m $"state" (Some (state_name st)) in
      let* '(fam, m, p) := append_cpus (seq 0 (global_cpu_num p)) st fam m p in
      append_states states fam m p
  end.

Definition cpu_commit_without_aggregation p out : M (cpu_plugin * list metric_family_t) :=
  let* p := if report_topology (options p) then rescan p else ret p in
  let* '(fam, m, p) :=
    append_states (seq 0 COLLECTD_CPU_STATE_ACTIVE) (new_family $"host_cpu_usage_total" METRIC_TYPE_COUNTER) zero_metric p in
  if (length (metric fam) =? 0)%nat then ret (p, out)
  else
    let* _ := metric_reset m in
    let* _ := metric_family_metric_reset fam in
    ret (p, out ++ [fam]).

(** The rates of one CPU; NaN where there is no value. *)
Definition local_rates (cpu_num : nat) p : list double :=
  map (λ st, match cpu_states p !! (cpu_num * COLLECTD_CPU_STATE_MAX + st)%nat with
             | Some s => if has_value s then rate s else NAN
             | None => NAN
             end) (seq 0 COLLECTD_CPU_STATE_MAX).

Fixpoint commit_cpus (cpus : list nat) p out : M (cpu_plugin * list metric_family_t) :=
  match cpus with
  | [] => ret (p, out)
  | cpu_num :: cpus =>
      let* '(p, out) := cpu_commit_one cpu_num (local_rates cpu_num p) p out in
      commit_cpus cpus p out
  end.

Definition cpu_commit p out : M (cpu_plugin * list metric_family_t) :=
  let* out :=
    if report_num_cpu (options p) then cpu_commit_num_cpu (of_Z (Z.of_nat (global_cpu_num p))) out else ret out in
  if negb (report_percent (options p)) then
    let* out := cpu_commit_all_without_aggregation p out in
    if report_by_cpu (options p) then cpu_commit_without_aggregation p out else ret (p, out)
  else
    let* '(global_rates, p) := aggregate p in
    let* out := cpu_commit_all global_rates p out in
    if negb (report_by_cpu (options p)) then ret (p, out) else commit_cpus (seq 0 (global_cpu_num p)) p out.

(** Status, state and what was dispatched. *)
Definition cpu_read (now : Z) p : M (Z * cpu_plugin * list metric_family_t) :=
  match file_contents $"/proc/stat" with
  | None => ret (-1, p, [])
  | Some fh =>
      let* p := stat_loop (S (length fh)) fh now p in
      let* '(p, out) := cpu_commit p [] in
      ret (0, cpu_reset p, out)
  end.
End cpu.

(** ** The nodes of the CPUs *)

(** A hexadecimal digit as the kernel prints it. *)
Definition hex_digit (d : Z) : ascii := if d <? 10 then CommonStr.digit_chr d else ascii_of_N (Z.to_N (87 + d)).

Lemma hex_digit_ok d : 0 ≤ d < 16 →
  hex_to_int (hex_digit d) = d ∧ hex_digit d ≠ "x"%char ∧ hex_digit d ≠ ","%char ∧ hex_digit d ≠ NUL ∧ hex_digit d ≠ newline.
Proof.
  intros Hd. assert (d = 0 ∨ d = 1 ∨ d = 2 ∨ d = 3 ∨ d = 4 ∨ d = 5 ∨ d = 6 ∨ d = 7 ∨ d = 8 ∨ d = 9 ∨ d = 10 ∨ d = 11 ∨ d = 12 ∨
    d = 13 ∨ d = 14 ∨ d = 15) as Hcase by lia.
  repeat (destruct Hcase as [->|Hcase]; [split_and!; by vm_compute|]). subst. split_and!; by vm_compute.
Qed.

(** A CPU mask as the kernel prints it: hexadecimal digits, a comma between
    groups of eight.  [ds] are the digits, the last one first. *)
Fixpoint mask_rev (i : nat) (ds : list Z) : list ascii :=
  match ds with
  | [] => []
  | d :: ds => (if (0 <? i)%nat && (i mod 8 =? 0)%nat then [","%char] else []) ++ hex_digit d :: mask_rev (S i) ds
  end.
Definition cpumap_text (ds : list Z) : cstr := rev (mask_rev 0 ds).
(** Whether a CPU is in the mask. *)
Fixpoint in_mask (ds : list Z) (cpu : nat) : bool :=
  match ds with
  | [] => false
  | d :: ds => if (cpu <? 4)%nat then Z.testbit d (Z.of_nat cpu) else in_mask ds (cpu - 4)
  end.

Section nodes.
Context `{Filesystem}.
Implicit Types (p : cpu_plugin).

Definition node_of p (cpu : nat) : cstr :=
  match cpu_topology p !! cpu with Some t => node t | None => [] end.

Lemma get_topology_ok cpu p : ∃ p', get_cpu_topology cpu p ⇓ (Some cpu, p') ∧ (cpu < length (cpu_topology p'))%nat ∧
  (∀ c, node_of p' c = node_of p c).
Proof.
  unfold get_cpu_topology. destruct (Nat.leb_spec (length (cpu_topology p)) cpu); [|by exists p].
  eexists. split_and!; [| |].
  - eapply yields_bind.
    { unfold cpu_topology_alloc. destruct (Nat.leb_spec (S cpu) (length (cpu_topology p))); [lia|].
      eapply yields_bind; [apply yields_alloc|]. cbn [negb]. apply yields_ret. }
    cbv beta iota. cbn [cpu_topology set_topology]. rewrite length_app, length_replicate.
    destruct (Nat.leb_spec (length (cpu_topology p) + (S cpu - length (cpu_topology p))) cpu); [lia|apply yields_ret].
  - cbn [cpu_topology set_topology]. rewrite length_app, length_replicate. lia.
  - intros c. unfold node_of. cbn [cpu_topology set_topology].
    destruct (decide (c < length (cpu_topology p))%nat); [by rewrite lookup_app_l by lia|].
    rewrite lookup_app_r, (lookup_ge_None_2 (cpu_topology p) c) by lia.
    destruct (replicate _ _ !! _) as [t|] eqn:E; [|done]. by apply lookup_replicate in E as [-> _].
Qed.

Lemma set_node_ok cpu nd set p : ∃ p', cpu_topology_set_node cpu nd set p ⇓ p' ∧
  ∀ c, node_of p' c = if (c =? cpu)%nat then if set : bool then take 7 nd else [] else node_of p c.
Proof.
  destruct (get_topology_ok cpu p) as (p1 & E1 & Hlt & Hn1). eexists. split.
  - unfold cpu_topology_set_node. eapply yields_bind; [exact E1|]. cbv beta iota. apply yields_ret.
  - intros c. unfold node_of. cbn [cpu_topology set_topology].
    destruct (Nat.eqb_spec c cpu) as [->|Hne].
    + rewrite list_lookup_alter. destruct (lookup_lt_is_Some_2 _ _ Hlt) as [t ->]. by rewrite decide_True.
    + rewrite list_lookup_alter_ne by done. apply Hn1.
Qed.

(** Four bits of the mask. *)
Lemma digit_ok nd d ncpu p (k : cpu_plugin → M cpu_plugin) : 0 ≤ d →
  ∃ p', (∀ r, k p' ⇓ r →
    (let* p := cpu_topology_set_node ncpu nd (Z.testbit d 0) p in
     let* p := cpu_topology_set_node (ncpu + 1) nd (Z.testbit d 1) p in
     let* p := cpu_topology_set_node (ncpu + 2) nd (Z.testbit d 2) p in
     let* p := cpu_topology_set_node (ncpu + 3) nd (Z.testbit d 3) p in k p) ⇓ r) ∧
    ∀ c, node_of p' c =
      if (ncpu <=? c)%nat && (c <? ncpu + 4)%nat then if Z.testbit d (Z.of_nat (c - ncpu)) then take 7 nd else [] else node_of p c.
Proof.
  intros Hd. destruct (set_node_ok ncpu nd (Z.testbit d 0) p) as (p1 & E1 & H1).
  destruct (set_node_ok (ncpu + 1) nd (Z.testbit d 1) p1) as (p2 & E2 & H2).
  destruct (set_node_ok (ncpu + 2) nd (Z.testbit d 2) p2) as (p3 & E3 & H3).
  destruct (set_node_ok (ncpu + 3) nd (Z.testbit d 3) p3) as (p4 & E4 & H4).
  exists p4. split; [intros r Hr; by repeat (eapply yields_bind; [eassumption|]; cbv beta)|].
  intros c. rewrite H4, H3, H2, H1.
  destruct (Nat.leb_spec ncpu c) as [Hle|Hlt]; cbn [andb].
  - destruct (Nat.ltb_spec c (ncpu + 4)) as [Hlt|Hge].
    + assert (c = ncpu ∨ c = (ncpu + 1)%nat ∨ c = (ncpu + 2)%nat ∨ c = (ncpu + 3)%nat) as [->|[->|[->| ->]]] by lia;
        repeat match goal with |- context [(?a =? ?b)%nat] => destruct (Nat.eqb_spec a b); try lia end;
        match goal with |- (if Z.testbit d ?k then _ else _) = (if Z.testbit d ?k' then _ else _) => by replace k' with k by lia end.
    + repeat match goal with |- context [(?a =? ?b)%nat] => destruct (Nat.eqb_spec a b); try lia end. done.
  - repeat match goal with |- context [(?a =? ?b)%nat] => destruct (Nat.eqb_spec a b); try lia end. done.
Qed.

Lemma node_loop_ok nd ds : Forall (λ d, 0 ≤ d < 16) ds → ∀ i ncpu p, ∃ p', node_loop nd (mask_rev i ds) ncpu p ⇓ p' ∧
  ∀ c, node_of p' c =
    if (ncpu <=? c)%nat && (c <? ncpu + 4 * length ds)%nat then if in_mask ds (c - ncpu) then take 7 nd else [] else node_of p c.
Proof.
  induction 1 as [|d ds Hd _ IH]; intros i ncpu p.
  { exists p. split; [done|]. intros c. cbn [length]. destruct (Nat.leb_spec ncpu c), (Nat.ltb_spec c (ncpu + 4 * 0)); try lia; done. }
  destruct (hex_digit_ok d Hd) as (Hi & Hx & Hc & _).
  destruct (digit_ok nd d ncpu p (node_loop nd (mask_rev (S i) ds) (ncpu + 4))) as (p1 & E1 & N1); [lia|].
  destruct (IH (S i) (ncpu + 4)%nat p1) as (p2 & E2 & N2). exists p2. split.
  - cbn [mask_rev]. apply E1 in E2.
    assert (∀ c cs, c = hex_digit d → cs = mask_rev (S i) ds →
      (let set := hex_to_int c in
       if set <? 0 then node_loop nd cs ncpu p
       else
         let* p := cpu_topology_set_node ncpu nd (Z.testbit set 0) p in
         let* p := cpu_topology_set_node (ncpu + 1) nd (Z.testbit set 1) p in
         let* p := cpu_topology_set_node (ncpu + 2) nd (Z.testbit set 2) p in
         let* p := cpu_topology_set_node (ncpu + 3) nd (Z.testbit set 3) p in
         node_loop nd cs (ncpu + 4) p) ⇓ p2) as Hdig.
    { intros c cs -> ->. rewrite Hi. cbv zeta. by destruct (Z.ltb_spec d 0); [lia|]. }
    destruct ((0 <? i)%nat && (i mod 8 =? 0)%nat); cbn [app node_loop].
    + by apply Hdig.
    + rewrite !bool_decide_eq_false_2 by done. by apply Hdig.
  - intros c. rewrite N2, N1. cbn [length in_mask].
    destruct (Nat.leb_spec ncpu c), (Nat.leb_spec (ncpu + 4) c); try lia; cbn [andb].
    + destruct (Nat.ltb_spec c (ncpu + 4 + 4 * length ds)), (Nat.ltb_spec c (ncpu + 4 * S (length ds))); try lia.
      * destruct (Nat.ltb_spec (c - ncpu) 4); [lia|]. by replace (c - (ncpu + 4))%nat with (c - ncpu - 4)%nat by lia.
      * destruct (Nat.ltb_spec c (ncpu + 4)); [lia|done].
    + destruct (Nat.ltb_spec c (ncpu + 4)); [|lia]. destruct (Nat.ltb_spec c (ncpu + 4 * S (length ds))); [|lia].
      by destruct (Nat.ltb_spec (c - ncpu) 4); [|lia].
    + done.
Qed.

Lemma mask_chars i ds : Forall (λ d, 0 ≤ d < 16) ds → Forall (λ c, c ≠ NUL ∧ c ≠ newline) (mask_rev i ds).
Proof.
  intros Hd. revert i. induction Hd as [|d ds Hd _ IH]; intros i; cbn [mask_rev]; [constructor|]. apply list.Forall_app. split.
  - destruct ((0 <? i)%nat && (i mod 8 =? 0)%nat); repeat constructor; done.
  - apply Forall_cons_2; [|apply IH]. by destruct (hex_digit_ok d Hd) as (_ & _ & _ & ? & ?).
Qed.

Lemma chomp_line s : Forall (λ c, c ≠ NUL ∧ c ≠ newline) s → chomp (s ++ [newline]) = s.
Proof.
  intros Hs. unfold chomp. rewrite length_app. cbn [length]. rewrite Nat.add_sub, take_app_length.
  assert (c_str s = s) as ->.
  { unfold c_str. rewrite span_len_all; [by rewrite take_ge|]. eapply list.Forall_impl; [exact Hs|]. cbv beta.
    intros c [Hc _]. by rewrite bool_decide_eq_false_2. }
  rewrite bool_decide_eq_false_2; [done|]. intros Hl. apply last_Some in Hl as [s' ->].
  apply list.Forall_app in Hs as [_ Hs]. by apply Forall_singleton in Hs as [_ ?].
Qed.

Lemma in_mask_bound ds : ∀ cpu, (4 * length ds ≤ cpu)%nat → in_mask ds cpu = false.
Proof.
  induction ds as [|d ds IH]; intros cpu Hc; [done|]. cbn [in_mask length] in *.
  destruct (Nat.ltb_spec cpu 4); [lia|]. apply IH. lia.
Qed.

(** The path of the mask of a node. *)
Definition cpumap_path (nd : cstr) : cstr := take (PATH_MAX - 1) (NUMA_ROOT_DIR ++ $"/" ++ nd ++ $"/cpumap").

Definition node_file (num : cstr) (ds : list Z) : Prop :=
  isdigit (default NUL (head num)) = true ∧ Forall (λ d, 0 ≤ d < 16) ds ∧ ds ≠ [] ∧
  (length (cpumap_text ds) < 8096)%nat ∧ file_contents (cpumap_path ($"node" ++ num)) = Some (cpumap_text ds ++ [newline]).

Lemma node_callback_ok dir num ds p : node_file num ds →
  ∃ p', cpu_topology_node_callback dir ($"node" ++ num) p ⇓ (0, p') ∧
    ∀ cpu, node_of p' cpu =
      if (cpu <? 4 * length ds)%nat then if in_mask ds cpu then take 7 num else [] else node_of p cpu.
Proof.
  intros (Hnum & Hds & Hne & Hlen & Hfile). destruct (node_loop_ok num ds Hds 0 0 p) as (p' & E & Hn). exists p'. split.
  - unfold cpu_topology_node_callback. change (negb (strcmp (take 4 ($"node" ++ num)) $"node" =? 0)) with (negb true).
    replace (isdigit (default NUL (($"node" ++ num) !! 4%nat))) with true by (by destruct num). cbn [negb].
    unfold read_file_contents. fold (cpumap_path ($"node" ++ num)). rewrite Hfile. cbn [fmap option_fmap option_map].
    rewrite take_ge by (rewrite length_app; cbn [length]; lia).
    assert (∃ c bytes, cpumap_text ds ++ [newline] = c :: bytes) as (c & bytes & Ec) by (destruct (cpumap_text ds); by eexists _, _).
    rewrite Ec, <-Ec, chomp_line by (apply Forall_rev, mask_chars, Hds).
    unfold cpumap_text. rewrite rev_involutive. change (drop 4 ($"node" ++ num)) with num. by eapply yields_bind.
  - intros cpu. by rewrite Hn, Nat.sub_0_r.
Qed.

(** C33. Reading the CPU mask of a NUMA node, in the format the kernel prints
    it, puts the number of the node on exactly the CPUs that are in the mask;
    every other CPU that the mask covers loses the node it had, and the CPUs
    beyond the mask keep theirs.  So of two nodes whose masks have the same
    length only the one that is read last is remembered. *)
Theorem cpu_node_mask_spec dir num ds p : node_file num ds →
  (∃ p', cpu_topology_node_callback dir ($"node" ++ num) p ⇓ (0, p') ∧
    ∀ cpu, node_of p' cpu =
      if (cpu <? 4 * length ds)%nat then if in_mask ds cpu then take 7 num else [] else node_of p cpu) ∧
  ∀ num2 ds2, node_file num2 ds2 → length ds2 = length ds →
    ∃ p1 p2, cpu_topology_node_callback dir ($"node" ++ num) p ⇓ (0, p1) ∧
      cpu_topology_node_callback dir ($"node" ++ num2) p1 ⇓ (0, p2) ∧
      ∀ cpu, in_mask ds cpu = true → in_mask ds2 cpu = false → node_of p2 cpu = [].
Proof.
  intros Hf. split; [by apply node_callback_ok|]. intros num2 ds2 Hf2 Hlen.
  destruct (node_callback_ok dir num ds p Hf) as (p1 & E1 & _). destruct (node_callback_ok dir num2 ds2 p1 Hf2) as (p2 & E2 & H2).
  exists p1, p2. split_and!; [done..|]. intros cpu Hin Hout. rewrite H2, Hout.
  destruct (Nat.ltb_spec cpu (4 * length ds2)) as [|Hge]; [done|]. by rewrite (in_mask_bound ds cpu) in Hin by lia.
Qed.
End nodes.

(** A machine of two nodes: CPUs 0 to 3 and 4 to 7. *)
Definition two_nodes : Filesystem := {|
  file_contents path :=
    if bool_decide (path = $"/sys/devices/system/node/node0/cpumap") then Some (cpumap_text [15; 0] ++ [newline])
    else if bool_decide (path = $"/sys/devices/system/node/node1/cpumap") then Some (cpumap_text [0; 15] ++ [newline])
    else None;
  dir_entries _ := None;
|}.

Lemma cpu_node_mask_spec_witness :
  (∃ p', cpu_topology_node_callback (H := two_nodes) NUMA_ROOT_DIR ($"node" ++ $"0") cpu_initial ⇓ (0, p') ∧
    ∀ cpu, node_of p' cpu = if (cpu <? 8)%nat then if in_mask [15; 0] cpu then $"0" else [] else node_of cpu_initial cpu) ∧
  ∃ p1 p2, cpu_topology_node_callback (H := two_nodes) NUMA_ROOT_DIR ($"node" ++ $"0") cpu_initial ⇓ (0, p1) ∧
    cpu_topology_node_callback (H := two_nodes) NUMA_ROOT_DIR ($"node" ++ $"1") p1 ⇓ (0, p2) ∧ node_of p2 3 = [].
Proof.
  destruct (cpu_node_mask_spec (H := two_nodes) NUMA_ROOT_DIR $"0" [15; 0] cpu_initial) as [H1 H2].
  { split_and!; [done| |done|cbn; lia|by vm_compute]. apply list.Forall_cons; split; [lia|]. apply list.Forall_cons; split; [lia|constructor]. }
  split; [exact H1|]. destruct (H2 $"1" [0; 15]) as (p1 & p2 & E1 & E2 & Hn).
  - split_and!; [done| |done|cbn; lia|by vm_compute]. apply list.Forall_cons; split; [lia|]. apply list.Forall_cons; split; [lia|constructor].
  - done.
  - exists p1, p2. split_and!; [exact E1|exact E2|by apply Hn].
Defined.

(** ** The totals *)

(** A line of a CPU in /proc/stat: its number and its counters, in the order
    user, nice, system, idle, iowait, irq, softirq, steal, guest, guest_nice;
    kernels may add more. *)
Record stat_row : Type := mk_row { row_cpu : nat; row_fields : list Z }.
Definition row_words (r : stat_row) : list cstr :=
  ($"cpu" ++ CommonStr.decimal (Z.of_nat (row_cpu r))) :: map CommonStr.decimal (row_fields r).
Definition row_text (r : stat_row) : cstr := CommonStr.join $" " (row_words r).

(** What the CPU has spent in a state, when the options ask for it. *)
Definition row_value (o : cpu_options) (r : stat_row) (state : nat) : option Z :=
  let f i := default 0 (row_fields r !! i) in
  let less_guest v g := if report_guest o && subtract_guest o then Z.max 0 (v - g) else v in
  match state with
  | 0 => Some (less_guest (f 0) (f 8))
  | 1 => Some (f 2)
  | 2 => Some (f 4)
  | 3 => Some (less_guest (f 1) (f 9))
  | 5 => Some (f 5)
  | 6 => Some (f 6)
  | 7 => Some (f 7)
  | 8 => if report_guest o then Some (f 8) else None
  | 9 => if report_guest o then Some (f 9) else None
  | 10 => Some (f 3)
  | _ => None
  end%nat.

(** A line of the file: of a CPU or of anything else. *)
Inductive stat_entry : Type := e_cpu (r : stat_row) | e_other (line : cstr).
Definition entry_text (e : stat_entry) : cstr := match e with e_cpu r => row_text r | e_other line => line end.
Definition stat_text (es : list stat_entry) : list ascii := concat (map (λ e, entry_text e ++ [newline]) es).
Definition rows (es : list stat_entry) : list stat_row := omap (λ e, match e with e_cpu r => Some r | e_other _ => None end) es.

Definition zsum (l : list Z) : Z := fold_right Z.add 0 l.

Definition row_ok (r : stat_row) : Prop :=
  Z.of_nat (row_cpu r) < 2 ^ 31 ∧ (10 ≤ length (row_fields r))%nat ∧ Forall (λ f, 0 ≤ f < 2 ^ 63) (row_fields r).
Definition other_ok (line : cstr) : Prop :=
  Forall liney line ∧
  (strcmp (take 3 (line ++ [newline])) $"cpu" =? 0) && isdigit (default NUL ((line ++ [newline]) !! 3%nat)) = false.
Definition entry_ok (e : stat_entry) : Prop :=
  (length (entry_text e) < 1023)%nat ∧ match e with e_cpu r => row_ok r | e_other line => other_ok line end.
(** The CPUs differ, and the sum of all counters is a [derive_t]. *)
Definition stat_ok (es : list stat_entry) : Prop :=
  Forall entry_ok es ∧ NoDup (map row_cpu (rows es)) ∧ zsum (map (λ r, zsum (row_fields r)) (rows es)) < 2 ^ 63.

Lemma decimal_chars z : 0 ≤ z → Forall (λ c, CommonStr.blank c = false) (CommonStr.decimal z) ∧
  Forall liney (CommonStr.decimal z) ∧ CommonStr.decimal z ≠ [].
Proof.
  intros Hz. destruct (CommonStr.decimal_spec z Hz) as (Hd & _ & (d & t & _ & E & _) & _).
  assert (∀ c, isdigit c = true → CommonStr.blank c = false ∧ liney c) as Hc.
  { intros [[] [] [] [] [] [] [] []] H; (discriminate H || by split_and!; vm_compute). }
  split_and!; [..|by rewrite E]; (eapply list.Forall_impl; [exact Hd|]); intros c H; by apply Hc.
Qed.

Lemma words_join ws : Forall (λ w, w ≠ [] ∧ Forall (λ c, CommonStr.blank c = false) w) ws →
  CommonStr.words (CommonStr.join $" " ws ++ [newline]) = ws.
Proof.
  assert (∀ w s, w ≠ [] → Forall (λ c, CommonStr.blank c = false) w →
    ∀ b, CommonStr.blank b = true → CommonStr.words (w ++ b :: s) = w :: CommonStr.words s) as Hw.
  { intros w s Hne Hb b Hbl. unfold CommonStr.words. rewrite CommonStr.words_acc_run, app_nil_r by done. cbn [CommonStr.words_acc].
    rewrite Hbl. destruct (rev w) as [|c l] eqn:E; [|by rewrite <-E, rev_involutive].
    apply (f_equal (@rev _)) in E. by rewrite rev_involutive in E. }
  induction 1 as [|w ws [Hne Hb] Hws IH]; [done|]. destruct ws as [|w2 ws].
  - cbn [CommonStr.join]. by rewrite Hw.
  - change (CommonStr.join $" " (w :: w2 :: ws)) with (w ++ " "%char :: CommonStr.join $" " (w2 :: ws)).
    rewrite <-app_assoc. cbn [app]. by rewrite Hw, IH.
Qed.

Lemma atoll_decimal z : 0 ≤ z < 2 ^ 63 → atoll (CommonStr.decimal z) = ret z.
Proof.
  intros Hz. destruct (CommonStr.decimal_spec z) as (Hd & Hv & (d & t & _ & E & _) & _); [lia|].
  destruct (CommonStr.scan_decimal false z) as [Hs _]; [lia|]. cbn [app] in Hs.
  assert (parse_decimal (CommonStr.decimal z) = z) as Hp.
  { assert (isdigit (CommonStr.digit_chr d) = true) as Hd1 by (rewrite E in Hd; by apply Forall_cons_1 in Hd as [? _]).
    assert (∀ c, isdigit c = true → isspace c = false ∧ c ≠ "-"%char ∧ c ≠ "+"%char) as Hc
      by (intros [[] [] [] [] [] [] [] []] H; (discriminate H || by split_and!; vm_compute)).
    destruct (Hc _ Hd1) as (Hsp & Hm & Hpl). unfold parse_decimal.
    assert (span_len isspace (CommonStr.decimal z) = 0%nat) as -> by (rewrite E; cbn [span_len]; by rewrite Hsp).
    rewrite drop_0. assert (CommonStr.split_sign (CommonStr.decimal z) = (false, CommonStr.decimal z)) as ->.
    { rewrite E. cbn [CommonStr.split_sign]. by rewrite !bool_decide_eq_false_2. }
    by rewrite span_len_all, take_ge. }
  unfold atoll. rewrite Hp. destruct (Z.leb_spec (- 2 ^ 63) z), (Z.ltb_spec z (2 ^ 63)); (done || lia).
Qed.

Lemma atoi_decimal z : 0 ≤ z < 2 ^ 31 → atoi (CommonStr.decimal z) = ret z.
Proof.
  intros Hz. pose proof (atoll_decimal z ltac:(lia)) as Ha. unfold atoll in Ha. unfold atoi.
  assert (parse_decimal (CommonStr.decimal z) = z) as ->.
  { cbv zeta in Ha. destruct (_ && _); [|by apply (f_equal (λ m, m [])) in Ha]. by apply (f_equal (λ m, m [])) in Ha as [= ->]. }
  destruct (Z.leb_spec (- 2 ^ 31) z), (Z.ltb_spec z (2 ^ 31)); (done || lia).
Qed.

Lemma cpu_chars : Forall (λ c, CommonStr.blank c = false) $"cpu" ∧ Forall liney $"cpu".
Proof.
  cbn [list_ascii_of_string]. rewrite !list.Forall_cons, !Forall_nil. unfold liney. split_and!; (done || by vm_compute).
Qed.

Lemma row_word_ok r : row_ok r → Forall (λ w, w ≠ [] ∧ Forall (λ c, CommonStr.blank c = false) w ∧ Forall liney w) (row_words r).
Proof.
  intros (_ & _ & Hf). apply Forall_cons_2.
  - destruct (decimal_chars (Z.of_nat (row_cpu r)) ltac:(lia)) as (Hb & Hl & _). destruct cpu_chars.
    rewrite !list.Forall_app. by split_and!.
  - apply Forall_map. eapply list.Forall_impl; [exact Hf|]. cbn beta. intros f Hfr.
    by destruct (decimal_chars f ltac:(lia)) as (? & ? & ?).
Qed.

Lemma row_liney r : row_ok r → Forall liney (row_text r).
Proof.
  intros H%row_word_ok. unfold row_text. induction H as [|w ws (_ & _ & Hw) _ IH]; [constructor|].
  destruct ws as [|w2 ws]; [done|]. change (CommonStr.join $" " (w :: w2 :: ws)) with (w ++ $" " ++ CommonStr.join $" " (w2 :: ws)).
  rewrite !list.Forall_app. split_and!; [done|by apply Forall_singleton|done].
Qed.

Lemma row_head r : ∃ t, row_text r = $"cpu" ++ CommonStr.decimal (Z.of_nat (row_cpu r)) ++ t.
Proof.
  unfold row_text, row_words. destruct (map _ _) as [|w ws]; [by exists []; rewrite app_nil_r|].
  exists ($" " ++ CommonStr.join $" " (w :: ws)).
  change (CommonStr.join $" " (?a :: w :: ws)) with (a ++ $" " ++ CommonStr.join $" " (w :: ws)). by rewrite <-app_assoc.
Qed.

(** What a line stages: exactly the values of the row. *)
Lemma line_values_ok o r : row_ok r → ∃ vs, line_values o (take 11 (row_words r)) ⇓ vs ∧ NoDup vs.*1 ∧
  ∀ st d, (st, d) ∈ vs ↔ row_value o r st = Some d.
Proof.
  destruct r as [cpu fs]. intros (_ & Hlen & Hf). cbn [row_fields] in *. unfold row_words. cbn [row_cpu row_fields].
  destruct fs as [|f0 [|f1 [|f2 [|f3 [|f4 [|f5 [|f6 [|f7 [|f8 [|f9 fs]]]]]]]]]]; cbn [length] in Hlen; try lia.
  repeat match goal with H : Forall _ (_ :: _) |- _ => apply Forall_cons_1 in H as [? H] end.
  assert (∀ a b, 0 ≤ a < 2 ^ 63 → 0 ≤ b < 2 ^ 63 → subtract a b = ret (Z.max 0 (a - b))) as Hsub.
  { intros a b Ha Hb. unfold subtract, derive_op.
    destruct (Z.leb_spec (- 2 ^ 63) (a - b)), (Z.ltb_spec (a - b) (2 ^ 63)); try lia. cbn [andb]. rewrite bind_ret.
    f_equal. destruct (Z.ltb_spec (a - b) 0); lia. }
  unfold line_values. cbn [take map length Nat.leb andb]. generalize ($"cpu" ++ CommonStr.decimal (Z.of_nat cpu)). intros w.
  cbn [lookup list_lookup mopt].
  rewrite !bind_ret. rewrite !atoll_decimal by done. rewrite !bind_ret.
  destruct (report_guest o) eqn:Er; cbn [andb]; [destruct (subtract_guest o) eqn:Es|].
  all: repeat (rewrite bind_ret || (rewrite atoll_decimal by done) || (rewrite Hsub by done)).
  all: cbn [app]; eexists; split; [apply yields_ret|split; [apply (bool_decide_unpack _); by vm_compute|]].
  all: intros st d; unfold row_value; cbn [row_fields]; rewrite Er, ?Es; cbn [andb].
  all: rewrite !elem_of_cons, elem_of_nil; do 11 (destruct st as [|st]; [cbn [lookup list_lookup default]; naive_solver|]); naive_solver.
Qed.

(** The state of a CPU; unallocated states are empty. *)
Definition st_at p (cpu st : nat) : cpu_state_t := default zero_state (cpu_states p !! (cpu * COLLECTD_CPU_STATE_MAX + st)%nat).
(** A conversion that can take a sample at that time. *)
Definition fresh (now : Z) (s : cpu_state_t) : Prop :=
  vr_last_time (conv s) < now ∧
  (vr_last_time (conv s) = 0 ∨ ∃ d, vr_last_value (conv s) = v_derive d ∧ 0 ≤ d < 2 ^ 63).
(** [s'] is [s] after a sample. *)
Definition staged (now d : Z) (s s' : cpu_state_t) : Prop :=
  vr_last_value (conv s') = v_derive d ∧ vr_last_time (conv s') = now ∧
  has_value s' = has_value s || negb (vr_last_time (conv s) =? 0).

Lemma st_at_set i s p cpu st : (i < length (cpu_states p))%nat → (i = cpu * COLLECTD_CPU_STATE_MAX + st)%nat →
  st_at (set_states p (<[i := s]> (cpu_states p))) cpu st = s.
Proof. intros Hi ->. unfold st_at. cbn [cpu_states set_states]. by rewrite list_lookup_insert_eq. Qed.

Lemma states_alloc_ok cpu p : ∃ p', cpu_states_alloc cpu p ⇓ (0, p') ∧
  ((cpu + 1) * COLLECTD_CPU_STATE_MAX ≤ length (cpu_states p'))%nat ∧ options p' = options p ∧
  global_cpu_num p' = global_cpu_num p ∧ ∀ c st, st_at p' c st = st_at p c st.
Proof.
  unfold cpu_states_alloc. destruct (Nat.leb_spec ((cpu + 1) * COLLECTD_CPU_STATE_MAX) (length (cpu_states p))); [by exists p|].
  eexists. split; [eapply yields_bind; [apply yields_alloc|apply yields_ret]|]. cbn [cpu_states set_states options global_cpu_num].
  split_and!; [rewrite length_app, length_replicate; lia|done..|]. intros c st. unfold st_at. cbn [cpu_states set_states].
  set (i := (c * _ + st)%nat). destruct (decide (i < length (cpu_states p))%nat); [by rewrite lookup_app_l by lia|].
  rewrite lookup_app_r, (lookup_ge_None_2 (cpu_states p)) by lia.
  destruct (replicate _ _ !! _) as [t|] eqn:E; [|done]. by apply lookup_replicate in E as [-> _].
Qed.

Lemma index_inj c st c' st' : (st < 12)%nat → (st' < 12)%nat →
  (c * COLLECTD_CPU_STATE_MAX + st = c' * COLLECTD_CPU_STATE_MAX + st')%nat → c = c' ∧ st = st'.
Proof. unfold COLLECTD_CPU_STATE_MAX. lia. Qed.

Lemma sample_ok now d s : 0 < now → 0 ≤ d < 2 ^ 63 → fresh now s →
  ∃ status r c, value_to_rate (v_derive d) DS_TYPE_DERIVE now (conv s) ⇓ (status, r, c) ∧
    vr_last_value c = v_derive d ∧ vr_last_time c = now ∧ (status =? 0) = negb (vr_last_time (conv s) =? 0).
Proof.
  intros Hnow Hd [Hlt Hlast]. unfold value_to_rate. destruct (Z.leb_spec now (vr_last_time (conv s))); [lia|]. cbv zeta.
  destruct (Z.eqb_spec (vr_last_time (conv s)) 0) as [E|Hne]; [by do 3 eexists|].
  destruct Hlast as [|(d0 & -> & Hd0)]; [done|]. do 3 eexists. split.
  - cbn [as_derive mopt]. change (DS_TYPE_DERIVE =? DS_TYPE_DERIVE) with true. cbv iota. rewrite !bind_ret. unfold derive_op.
    destruct (Z.leb_spec (- 2 ^ 63) (d - d0)), (Z.ltb_spec (d - d0) (2 ^ 63)); try lia. cbn [andb]. rewrite bind_ret. apply yields_ret.
  - done.
Qed.

Lemma stage_ok cpu st d now p : (st < COLLECTD_CPU_STATE_ACTIVE)%nat → 0 < now → 0 ≤ d < 2 ^ 63 → fresh now (st_at p cpu st) →
  ∃ status p', cpu_stage cpu st d now p ⇓ (status, p') ∧ options p' = options p ∧
    (global_cpu_num p ≤ global_cpu_num p')%nat ∧ (cpu < global_cpu_num p')%nat ∧
    staged now d (st_at p cpu st) (st_at p' cpu st) ∧
    ∀ c st', (st' < 12)%nat → (c, st') ≠ (cpu, st) → st_at p' c st' = st_at p c st'.
Proof.
  intros Hst Hnow Hd Hfresh. destruct (states_alloc_ok cpu p) as (p1 & E1 & Hlen & Ho & Hg & Hat).
  set (p2 := if (global_cpu_num p1 <=? cpu)%nat then set_cpu_num p1 (cpu + 1) else p1).
  assert (options p2 = options p ∧ (global_cpu_num p ≤ global_cpu_num p2)%nat ∧ (cpu < global_cpu_num p2)%nat ∧
    cpu_states p2 = cpu_states p1) as (Ho2 & Hg2 & Hc2 & Hs2).
  { unfold p2. destruct (Nat.leb_spec (global_cpu_num p1) cpu); cbn [options global_cpu_num cpu_states set_cpu_num]; split_and!; (done || lia). }
  set (i := (cpu * COLLECTD_CPU_STATE_MAX + st)%nat).
  assert (i < length (cpu_states p2))%nat as Hi by (unfold i; rewrite Hs2; unfold COLLECTD_CPU_STATE_MAX, COLLECTD_CPU_STATE_ACTIVE in *; lia).
  destruct (lookup_lt_is_Some_2 _ _ Hi) as [s Es].
  assert (st_at p cpu st = s) as Hs by (rewrite <-Hat; unfold st_at; fold i; by rewrite <-Hs2, Es).
  rewrite Hs in *. destruct (sample_ok now d s Hnow Hd Hfresh) as (status & r & c & Ev & Hv & Ht & Hstat).
  exists status, (set_states p2 (<[i := if status =? 0 then mk_state c (default NAN r) true else mk_state c (rate s) (has_value s)]> (cpu_states p2))).
  split_and!; [|done|cbn [global_cpu_num set_states]; lia..| |].
  - unfold cpu_stage. destruct (Nat.leb_spec COLLECTD_CPU_STATE_ACTIVE st); [lia|]. eapply yields_bind; [exact E1|]. cbv beta iota.
    change (negb (0 =? 0)) with false. cbv iota zeta. fold p2. unfold get_cpu_state. fold i.
    destruct (Nat.leb_spec (length (cpu_states p2)) i); [lia|]. cbn [mopt]. rewrite bind_ret, Es. cbn [mopt]. rewrite bind_ret.
    eapply yields_bind; [exact Ev|]. cbv beta iota. destruct (Z.eqb_spec status 0) as [->|Hne]; cbn [negb]; apply yields_ret.
  - rewrite (st_at_set _ _ p2) by done. unfold staged. rewrite Hstat.
    destruct (vr_last_time (conv s) =? 0); cbn [negb conv has_value]; by rewrite ?orb_false_r, ?orb_true_r.
  - intros c' st' Hst' Hne. rewrite <-Hat. unfold st_at. cbn [cpu_states set_states]. rewrite <-Hs2.
    rewrite list_lookup_insert_ne; [done|]. intros Hij. apply Hne.
    destruct (index_inj cpu st c' st'); unfold COLLECTD_CPU_STATE_ACTIVE in *; (done || lia || by subst).
Qed.

Lemma stage_all_ok cpu now vs : NoDup vs.*1 → ∀ p, 0 < now →
  (∀ st d, (st, d) ∈ vs → (st < COLLECTD_CPU_STATE_ACTIVE)%nat ∧ 0 ≤ d < 2 ^ 63 ∧ fresh now (st_at p cpu st)) →
  ∃ p', stage_all cpu vs now p ⇓ p' ∧ options p' = options p ∧
    (global_cpu_num p ≤ global_cpu_num p')%nat ∧ (vs ≠ [] → (cpu < global_cpu_num p')%nat) ∧
    (∀ st d, (st, d) ∈ vs → staged now d (st_at p cpu st) (st_at p' cpu st)) ∧
    ∀ c st, (st < 12)%nat → c ≠ cpu ∨ st ∉ vs.*1 → st_at p' c st = st_at p c st.
Proof.
  induction vs as [|[st d] vs IH]; intros Hnd p Hnow Hvs.
  { exists p. split; [done|]. split; [done|]. split; [done|]. split; [done|]. split; [|done]. intros st d Hin. by apply elem_of_nil in Hin. }
  cbn in Hnd. apply NoDup_cons in Hnd as [Hnin Hnd].
  destruct (Hvs st d) as (Hst & Hd & Hf); [by left|].
  destruct (stage_ok cpu st d now p Hst Hnow Hd Hf) as (status & p1 & E1 & Ho1 & Hg1 & Hc1 & Hs1 & Hr1).
  assert (∀ st' d', (st', d') ∈ vs → st' ≠ st) as Hother.
  { intros st' d' Hin ->. apply Hnin. apply list_elem_of_fmap. by exists (st, d'). }
  destruct (IH Hnd p1 Hnow) as (p2 & E2 & Ho2 & Hg2 & _ & Hs2 & Hr2).
  { intros st' d' Hin. destruct (Hvs st' d') as (Hst' & Hd' & Hf'); [by right|]. split_and!; [done|lia..|].
    rewrite Hr1; [done|unfold COLLECTD_CPU_STATE_ACTIVE in *; lia|]. intros [= E]. by eapply Hother. }
  exists p2. split_and!; [cbn [stage_all]; by eapply yields_bind|by rewrite Ho2|lia|intros _; lia| |].
  - intros st' d' [[= -> ->]|Hin]%elem_of_cons.
    + rewrite Hr2; [done|unfold COLLECTD_CPU_STATE_ACTIVE in *; lia|by right].
    + rewrite <-(Hr1 cpu st'); [by apply Hs2|destruct (Hvs st' d'); [by right|]; unfold COLLECTD_CPU_STATE_ACTIVE in *; lia|].
      intros [= E]. by eapply Hother.
  - intros c st' Hst' Hor. cbn in Hor. rewrite Hr2; [|done|rewrite not_elem_of_cons in Hor; tauto].
    apply Hr1; [done|]. intros [= -> ->]. rewrite not_elem_of_cons in Hor. tauto.
Qed.

Lemma row_value_range o r st d : row_ok r → row_value o r st = Some d → (st < COLLECTD_CPU_STATE_ACTIVE)%nat ∧ 0 ≤ d < 2 ^ 63.
Proof.
  intros (_ & _ & Hf) Hv. assert (∀ i, 0 ≤ default 0 (row_fields r !! i) < 2 ^ 63) as Hi.
  { intros i. destruct (row_fields r !! i) as [f|] eqn:E; [|done]. by eapply Forall_lookup_1 in Hf. }
  pose proof (Hi 0%nat). pose proof (Hi 1%nat). pose proof (Hi 2%nat). pose proof (Hi 3%nat). pose proof (Hi 4%nat).
  pose proof (Hi 5%nat). pose proof (Hi 6%nat). pose proof (Hi 7%nat). pose proof (Hi 8%nat). pose proof (Hi 9%nat). clear Hi.
  unfold COLLECTD_CPU_STATE_ACTIVE. unfold row_value in Hv.
  do 11 (destruct st as [|st]; [split; [lia|]; destruct (report_guest o), (subtract_guest o); cbn [andb] in Hv; (discriminate Hv || injection Hv as <-; lia)|]).
  done.
Qed.

(** What the rows of one read have staged. *)
Definition row_of (rs : list stat_row) (cpu : nat) : option stat_row := find (λ r, (row_cpu r =? cpu)%nat) rs.
Definition sample o rs (cpu st : nat) : option Z := row_of rs cpu ≫= λ r, row_value o r st.

Definition all_fresh now p : Prop := ∀ cpu st, (st < 12)%nat → fresh now (st_at p cpu st).
Definition staged_rows o (rs : list stat_row) now p p' : Prop :=
  options p' = options p ∧ (global_cpu_num p ≤ global_cpu_num p')%nat ∧
  Forall (λ r, (row_cpu r < global_cpu_num p')%nat) rs ∧
  ∀ cpu st, (st < 12)%nat →
    match sample o rs cpu st with
    | Some d => staged now d (st_at p cpu st) (st_at p' cpu st)
    | None => st_at p' cpu st = st_at p cpu st
    end.

Lemma row_line_ok r now p : row_ok r → 0 < now → (∀ st, (st < 12)%nat → fresh now (st_at p (row_cpu r) st)) →
  ∃ p', stat_line (row_text r ++ [newline]) now p ⇓ p' ∧ staged_rows (options p) [r] now p p'.
Proof.
  intros Hr Hnow Hfresh. destruct (line_values_ok (options p) r Hr) as (vs & Evs & Hnd & Hvs).
  destruct (stage_all_ok (row_cpu r) now vs Hnd p Hnow) as (p' & E & Ho & Hg & Hc & Hs & Hother).
  { intros st d Hin%Hvs. destruct (row_value_range _ _ _ _ Hr Hin) as [Hst Hd].
    split_and!; [done|lia..|]. apply Hfresh. unfold COLLECTD_CPU_STATE_ACTIVE in *. lia. }
  assert (0 ≤ Z.of_nat (row_cpu r) < 2 ^ 31) as Hcpu by (destruct Hr; lia).
  exists p'. split; [|split_and!; [done|done| |]].
  - unfold stat_line. destruct (row_head r) as (t & Et).
    assert (take 3 (row_text r ++ [newline]) = $"cpu") as -> by (rewrite Et; done).
    change (negb (strcmp $"cpu" $"cpu" =? 0)) with false. cbv iota.
    assert (isdigit (default NUL ((row_text r ++ [newline]) !! 3%nat)) = true) as ->.
    { rewrite Et. destruct (CommonStr.decimal_spec (Z.of_nat (row_cpu r))) as (Hd & _ & (d & u & _ & E' & _) & _); [lia|].
      rewrite E' in *. by apply Forall_cons_1 in Hd as [? _]. }
    cbn [negb]. rewrite CommonStr.strsplit_words. unfold row_text. rewrite words_join.
    2: { eapply list.Forall_impl; [by apply row_word_ok|]. by intros w (? & ? & _). }
    destruct (Nat.ltb_spec (length (take 11 (row_words r))) 5) as [Hlt|_].
    { exfalso. unfold row_words in Hlt. rewrite length_take in Hlt. cbn [length] in Hlt. rewrite length_map in Hlt. destruct Hr. lia. }
    assert (take 11 (row_words r) !! 0%nat = Some ($"cpu" ++ CommonStr.decimal (Z.of_nat (row_cpu r)))) as -> by done.
    cbn [mopt]. rewrite bind_ret. change (drop 3 ($"cpu" ++ ?l)) with l. rewrite atoi_decimal, bind_ret by done.
    eapply yields_bind; [exact Evs|]. cbv beta. by rewrite Nat2Z.id.
  - apply Forall_singleton, Hc. intros ->. destruct (Hvs 1%nat (default 0 (row_fields r !! 2%nat))) as [_ Hin].
    specialize (Hin eq_refl). by apply elem_of_nil in Hin.
  - intros cpu st Hst. unfold sample, row_of. cbn [find]. destruct (Nat.eqb_spec (row_cpu r) cpu) as [<-|Hne]; cbn [mbind option_bind].
    + destruct (row_value (options p) r st) as [d|] eqn:E'; [by apply Hs, Hvs|]. apply Hother; [done|]. right.
      intros ([st' d] & -> & Hin%Hvs)%list_elem_of_fmap. cbn [fst] in E'. congruence.
    + apply Hother; [done|]. by left.
Qed.

Lemma row_of_none rs cpu : cpu ∉ map row_cpu rs → row_of rs cpu = None.
Proof.
  induction rs as [|r rs IH]; intros Hn; [done|]. cbn [map] in Hn. apply not_elem_of_cons in Hn as [Hne Hn].
  unfold row_of. cbn [find]. destruct (Nat.eqb_spec (row_cpu r) cpu); [by subst|by apply IH].
Qed.

Lemma staged_rows_cons o r rs now p p1 p2 : row_cpu r ∉ map row_cpu rs →
  staged_rows o [r] now p p1 → staged_rows o rs now p1 p2 → staged_rows o (r :: rs) now p p2.
Proof.
  intros Hn (Ho1 & Hg1 & Hc1 & Hs1) (Ho2 & Hg2 & Hc2 & Hs2). split_and!; [by rewrite Ho2|lia| |].
  - apply Forall_cons_2; [|done]. apply Forall_cons_1 in Hc1 as [Hc1 _]. lia.
  - intros cpu st Hst. specialize (Hs1 cpu st Hst). specialize (Hs2 cpu st Hst). revert Hs1 Hs2. unfold sample, row_of. cbn [find].
    destruct (Nat.eqb_spec (row_cpu r) cpu) as [<-|Hne].
    + fold (row_of rs (row_cpu r)). rewrite row_of_none by done. cbn [mbind option_bind]. by intros ? ->.
    + cbn [mbind option_bind]. by intros ->.
Qed.

Lemma other_line_ok line now p : other_ok line → stat_line (line ++ [newline]) now p = ret p.
Proof.
  intros [_ Hl]. unfold stat_line. apply andb_false_iff in Hl as [Hl|Hl]; rewrite Hl; [done|].
  by destruct (strcmp _ _ =? 0).
Qed.

Lemma stat_loop_ok es now : 0 < now → Forall entry_ok es → NoDup (map row_cpu (rows es)) → ∀ fuel p,
  (length es ≤ fuel)%nat → Forall (λ r, ∀ st, (st < 12)%nat → fresh now (st_at p (row_cpu r) st)) (rows es) →
  ∃ p', stat_loop fuel (stat_text es) now p ⇓ p' ∧ staged_rows (options p) (rows es) now p p'.
Proof.
  intros Hnow. induction es as [|e es IH]; intros Hok Hnd fuel p Hfuel Hfresh.
  { exists p. split; [by destruct fuel|]. by split_and!. }
  destruct fuel as [|fuel]; [cbn [length] in Hfuel; lia|]. cbn [length] in Hfuel.
  apply Forall_cons_1 in Hok as [[Hlen He] Hok].
  assert (Forall liney (entry_text e)) as Hl by (destruct e; [by apply row_liney|by destruct He]).
  assert (∀ p1 p2, stat_line (entry_text e ++ [newline]) now p ⇓ p1 → stat_loop fuel (stat_text es) now p1 ⇓ p2 →
    stat_loop (S fuel) (stat_text (e :: es)) now p ⇓ p2) as Hstep.
  { intros p1 p2 E1 E2. change (stat_text (e :: es)) with ((entry_text e ++ [newline]) ++ stat_text es).
    rewrite <-app_assoc. cbn [app stat_loop]. rewrite fgets_line by (done || lia). cbv beta iota.
    rewrite c_str_line by done. by eapply yields_bind. }
  destruct e as [r|line]; cbn [rows omap list_omap entry_text] in *.
  - cbn [map] in Hnd. apply NoDup_cons in Hnd as [Hn Hnd]. apply Forall_cons_1 in Hfresh as [Hf Hfresh].
    destruct (row_line_ok r now p He Hnow Hf) as (p1 & E1 & Hs1). pose proof Hs1 as (Ho1 & _ & _ & Hat).
    destruct (IH Hok Hnd fuel p1) as (p2 & E2 & Hs2); [lia| |].
    + apply list.Forall_forall. intros r' Hin st Hst. eapply list.Forall_forall in Hfresh; [|exact Hin].
      specialize (Hat (row_cpu r') st Hst). unfold sample, row_of in Hat. cbn [find] in Hat.
      destruct (Nat.eqb_spec (row_cpu r) (row_cpu r')) as [Ec|_]; [|cbn [mbind option_bind] in Hat; rewrite Hat; by apply Hfresh].
      destruct Hn. rewrite Ec. by apply (list_elem_of_fmap_2 row_cpu).
    + rewrite Ho1 in Hs2. exists p2. split; [by eapply Hstep|by eapply staged_rows_cons].
  - destruct (IH Hok Hnd fuel p) as (p2 & E2 & Hs2); [lia|done|]. exists p2. split; [|done].
    eapply Hstep; [|exact E2]. by rewrite other_line_ok.
Qed.

(** ** What is dispatched *)

(** The sum of a state over the CPUs that are listed and were known before. *)
Definition total o (seen : list nat) (rs : list stat_row) (st : nat) : Z :=
  zsum (map (λ r, if decide (row_cpu r ∈ seen) then default 0 (row_value o r st) else 0) rs).
Definition total_metric o seen rs (st : nat) : metric_t :=
  mk_metric (embed [($"state", state_name st)]) (v_counter (total o seen rs st)) 0 0 None.
Definition totals_family o seen rs : metric_family_t :=
  mk_family (Some $"host_cpu_all_usage_total") None METRIC_TYPE_COUNTER
    (map (total_metric o seen rs) (seq 0 COLLECTD_CPU_STATE_ACTIVE)).

(** The metric before the label of a state is set: it holds the one before. *)
Definition state_metric (st : nat) (v : value_t) : metric_t := mk_metric (embed [($"state", state_name st)]) v 0 0 None.
Definition labelled (k : nat) (m : metric_t) : Prop :=
  match k with O => m = zero_metric | S k => ∃ v, m = state_metric k v end.

Lemma state_label_ok k m : (k < COLLECTD_CPU_STATE_ACTIVE)%nat → labelled k m → ∃ v,
  metric_label_set m $"state" (Some (state_name k)) ⇓ (0, state_metric k v).
Proof.
  unfold COLLECTD_CPU_STATE_ACTIVE. intros Hk Hm. destruct k as [|k]; cbn [labelled] in Hm.
  { subst m. eexists. by vm_compute. }
  destruct Hm as [v ->]. exists v. do 10 (destruct k as [|k]; [by vm_compute|]). lia.
Qed.

Lemma append_totals_ok (f : nat → Z) n : ∀ k fam m, (k + n = COLLECTD_CPU_STATE_ACTIVE)%nat → labelled k m →
  type fam = METRIC_TYPE_COUNTER → (∀ i, in_u64 (f i)) → ∃ m',
    append_totals (seq k n) (map f (seq k n)) fam m ⇓
      (set_metrics fam (metric fam ++ map (λ st, state_metric st (v_counter (f st))) (seq k n)), m') ∧
    ∃ k, labelled k m'.
Proof.
  induction n as [|n IH]; intros k fam m Hk Hm Hty Hf; cbn [seq map append_totals].
  { exists m. split; [|by exists k]. rewrite app_nil_r. by destruct fam. }
  destruct (state_label_ok k m) as [v E]; [lia|done|].
  destruct (IH (S k) (set_metrics fam (metric fam ++ [state_metric k (v_counter (f k))])) (state_metric k (v_counter (f k))))
    as (m' & E' & Hm'); [lia|by eexists|done|done|].
  exists m'. split; [|done]. eapply yields_bind; [exact E|]. cbv beta iota zeta. rewrite u64_small by apply Hf.
  eapply yields_bind.
  { unfold metric_family_metric_append. eapply yields_bind; [apply list_add_ok|apply yields_ret].
    split_and!; [by exists [($"state", state_name k)]| |done]. by rewrite Hty. }
  cbv beta iota. destruct fam as [nm h ty ms]. cbn [set_metrics metric] in *. by rewrite <-app_assoc in E'.
Qed.

(** What one CPU adds to a total. *)
Definition reading p (st cpu : nat) : Z :=
  let s := st_at p cpu st in
  if has_value s then match vr_last_value (conv s) with v_derive d => d | _ => 0 end else 0.
Definition readable p (st cpu : nat) : Prop :=
  has_value (st_at p cpu st) = true → ∃ d, vr_last_value (conv (st_at p cpu st)) = v_derive d ∧ 0 ≤ d.

Lemma reading_nonneg p st cpus : Forall (readable p st) cpus → Forall (λ c, 0 ≤ reading p st c) cpus.
Proof.
  intros Hr. eapply list.Forall_impl; [exact Hr|]. intros c Hc. unfold reading. cbv zeta.
  destruct (has_value _) eqn:E; [|lia]. by destruct (Hc E) as (d & -> & ?).
Qed.

Lemma zsum_nonneg l : Forall (λ x, 0 ≤ x) l → 0 ≤ zsum l.
Proof. induction 1; cbn [zsum fold_right]; [lia|]. unfold zsum in *. lia. Qed.

Lemma reading_cases p st c : readable p st c →
  get_cpu_state c st p = None ∧ reading p st c = 0 ∨
  ∃ i s, get_cpu_state c st p = Some i ∧ cpu_states p !! i = Some s ∧
    (has_value s = false ∧ reading p st c = 0 ∨
     has_value s = true ∧ vr_last_value (conv s) = v_derive (reading p st c) ∧ 0 ≤ reading p st c).
Proof.
  intros Hc. unfold readable, reading, st_at, get_cpu_state in *. cbv zeta.
  set (i := (c * COLLECTD_CPU_STATE_MAX + st)%nat) in *. destruct (Nat.leb_spec (length (cpu_states p)) i) as [Hge|Hlt].
  { left. by rewrite lookup_ge_None_2. }
  right. destruct (lookup_lt_is_Some_2 _ _ Hlt) as [s Es]. rewrite Es in *. exists i, s. cbn [default from_option id] in *. unfold id in *.
  split_and!; [done|done|]. destruct (has_value s); [right|by left]. by destruct Hc as (d & -> & ?).
Qed.

Lemma sum_state_ok p st cpus : Forall (readable p st) cpus → ∀ v, 0 ≤ v → v + zsum (map (reading p st) cpus) < 2 ^ 63 →
  sum_state cpus st v p ⇓ v + zsum (map (reading p st) cpus).
Proof.
  induction 1 as [|c cpus Hc Hr IH]; intros v Hv Hb; [cbn; by rewrite Z.add_0_r|].
  pose proof (zsum_nonneg _ (proj2 (Forall_map _ _ _) (reading_nonneg p st cpus Hr))) as Hn.
  cbn [map] in *. change (zsum (?x :: ?l)) with (x + zsum l) in *. cbn [sum_state].
  destruct (reading_cases p st c Hc) as [[-> E]|(i & s & -> & Es & Hs)].
  { rewrite E, Z.add_0_l in *. by apply IH. }
  rewrite Es. cbn [mopt]. rewrite bind_ret. destruct Hs as [[-> E]|(-> & Hd & Hd0)]; cbn [negb].
  { rewrite E, Z.add_0_l in *. by apply IH. }
  unfold last_derive. rewrite Hd. cbn [as_derive mopt]. rewrite bind_ret. unfold derive_op.
  destruct (Z.leb_spec (- 2 ^ 63) (v + reading p st c)), (Z.ltb_spec (v + reading p st c) (2 ^ 63)); try lia.
  cbn [andb]. rewrite bind_ret, Z.add_assoc. apply IH; lia.
Qed.

Lemma sum_states_ok p sts : Forall (λ st, Forall (readable p st) (seq 0 (global_cpu_num p)) ∧
    zsum (map (reading p st) (seq 0 (global_cpu_num p))) < 2 ^ 63) sts →
  sum_states sts p ⇓ map (λ st, zsum (map (reading p st) (seq 0 (global_cpu_num p)))) sts.
Proof.
  induction 1 as [|st sts [Hr Hb] _ IH]; [done|]. cbn [sum_states map].
  eapply yields_bind; [by apply sum_state_ok|]. cbv beta. by eapply yields_bind.
Qed.

(** The sum over all CPUs is the sum over the rows. *)
Lemma zsum_update l a x (f : nat → Z) : NoDup l → a ∈ l → f a = 0 →
  zsum (map (λ c, if (a =? c)%nat then x else f c) l) = x + zsum (map f l).
Proof.
  induction 1 as [|b l Hb Hnd IH]; intros Ha Hf; [by apply elem_of_nil in Ha|].
  cbn [map]. change (zsum (?x :: ?l)) with (x + zsum l). destruct (Nat.eqb_spec a b) as [->|Hne].
  - rewrite Hf, Z.add_0_l. f_equal. f_equal. apply map_ext_in. intros c Hc%list_elem_of_In.
    by destruct (Nat.eqb_spec b c); subst.
  - apply elem_of_cons in Ha as [?|Ha]; [done|]. rewrite IH by done. lia.
Qed.

Lemma zsum_rows (w : stat_row → Z) l rs : NoDup l → Forall (λ r, row_cpu r ∈ l) rs → NoDup (map row_cpu rs) →
  zsum (map (λ c, match row_of rs c with Some r => w r | None => 0 end) l) = zsum (map w rs).
Proof.
  intros Hl. induction 1 as [|r rs Hr _ IH]; intros Hnd.
  - clear. induction l as [|c l IH]; [done|]. cbn [map]. change (zsum (?x :: ?l)) with (x + zsum l). by rewrite IH.
  - cbn [map] in Hnd. apply NoDup_cons in Hnd as [Hn Hnd]. cbn [map]. change (zsum (w r :: ?l)) with (w r + zsum l).
    rewrite <-IH, <-(zsum_update l (row_cpu r) (w r)) by (done || by rewrite row_of_none).
    f_equal. apply map_ext. intros c. unfold row_of. cbn [find]. by destruct (row_cpu r =? c)%nat.
Qed.

Lemma zsum_lookup l i : Forall (λ x, 0 ≤ x) l → 0 ≤ default 0 (l !! i) ≤ zsum l.
Proof.
  intros Hl. revert i. induction Hl as [|x l Hx Hl IH]; intros i; [done|]. change (zsum (x :: l)) with (x + zsum l).
  pose proof (zsum_nonneg l Hl). destruct i as [|i]; [cbn; unfold id; lia|]. change ((x :: l) !! S i) with (l !! i). specialize (IH i). lia.
Qed.

Lemma row_value_bound o r st : row_ok r → 0 ≤ default 0 (row_value o r st) ≤ zsum (row_fields r).
Proof.
  intros (_ & _ & Hf). assert (Forall (λ x, 0 ≤ x) (row_fields r)) as Hn by (eapply list.Forall_impl; [exact Hf|]; cbv beta; lia).
  pose proof (zsum_nonneg _ Hn). unfold row_value. cbv zeta. cbv beta.
  pose (g := λ i : nat, default 0 (row_fields r !! i)). repeat change (default 0 (row_fields r !! ?i)) with (g i).
  assert (∀ i, 0 ≤ g i ≤ zsum (row_fields r)) as Hi by (intros i; by apply zsum_lookup). clearbody g.
  pose proof (Hi 0%nat). pose proof (Hi 1%nat). pose proof (Hi 2%nat). pose proof (Hi 3%nat). pose proof (Hi 4%nat).
  pose proof (Hi 5%nat). pose proof (Hi 6%nat). pose proof (Hi 7%nat). pose proof (Hi 8%nat). pose proof (Hi 9%nat). clear Hi.
  do 11 (destruct st as [|st]; [destruct (report_guest o), (subtract_guest o); cbn [andb from_option]; unfold id; lia|]). cbn [from_option]. lia.
Qed.

Lemma list_reset_ok ms : Forall (λ m, ∃ kv, label m = embed kv) ms → metric_list_reset ms ⇓ [].
Proof.
  induction 1 as [|m ms [kv Hm] _ IH]; [done|]. cbn [metric_list_reset]. by eapply yields_bind; [by apply (metric_reset_ok m kv)|].
Qed.

(** The options under which the counters are handed on as totals only. *)
Definition raw_totals (o : cpu_options) : Prop := report_percent o = false ∧ report_by_cpu o = false ∧ report_num_cpu o = false.

(** The states that the options let the plugin read. *)
Definition reported (o : cpu_options) (st : nat) : bool :=
  match st with 4 => false | 8 | 9 => report_guest o | _ => (st <? COLLECTD_CPU_STATE_ACTIVE)%nat end%nat.
Lemma row_value_reported o r st : reported o st = true ↔ row_value o r st ≠ None.
Proof. unfold row_value, reported. do 11 (destruct st as [|st]; [by destruct (report_guest o)|]). done. Qed.

Lemma row_of_some rs cpu : cpu ∈ map row_cpu rs → ∃ r, row_of rs cpu = Some r.
Proof.
  intros (r & -> & Hin)%list_elem_of_fmap. unfold row_of. destruct (find _ rs) as [r'|] eqn:E; [by exists r'|].
  apply list_elem_of_In in Hin. apply (find_none _ _ E) in Hin. by rewrite Nat.eqb_refl in Hin.
Qed.

(** Between two reads: [seen] are the CPUs that were listed, [last] is the
    time of the last read. *)
Definition between o (seen : list nat) (t_last : Z) p : Prop :=
  options p = o ∧ global_cpu_num p = O ∧ ∀ cpu st, (st < 12)%nat →
    has_value (st_at p cpu st) = false ∧ 0 ≤ vr_last_time (conv (st_at p cpu st)) ≤ t_last ∧
    (vr_last_time (conv (st_at p cpu st)) = 0 ∨ ∃ d, vr_last_value (conv (st_at p cpu st)) = v_derive d ∧ 0 ≤ d < 2 ^ 63) ∧
    (reported o st = true → vr_last_time (conv (st_at p cpu st)) = 0 ↔ cpu ∉ seen).

Lemma st_at_reset p cpu st : st_at (cpu_reset p) cpu st =
  mk_state (conv (st_at p cpu st)) (rate (st_at p cpu st)) false.
Proof.
  unfold st_at, cpu_reset. cbn [cpu_states set_states set_cpu_num].
  change (map ?f (cpu_states p)) with (f <$> cpu_states p). rewrite list_lookup_fmap. by destruct (cpu_states p !! _).
Qed.

Lemma sample_cases o rs cpu st : sample o rs cpu st = None ∨
  ∃ r, r ∈ rs ∧ row_cpu r = cpu ∧ row_of rs cpu = Some r ∧ row_value o r st = sample o rs cpu st.
Proof.
  unfold sample, row_of. destruct (find _ rs) as [r|] eqn:E; [|by left]. right. exists r.
  apply find_some in E as [Hin Hc%Nat.eqb_eq]. split_and!; [by apply list_elem_of_In|done..].
Qed.

(** What a total gets from a CPU, after the rows of a read were staged. *)
Lemma staged_reading o seen t0 now rs p p' cpu st : (st < COLLECTD_CPU_STATE_ACTIVE)%nat → 0 < now → Forall row_ok rs →
  between o seen t0 p → staged_rows o rs now p p' →
  readable p' st cpu ∧
  reading p' st cpu = match row_of rs cpu with
                      | Some r => if decide (row_cpu r ∈ seen) then default 0 (row_value o r st) else 0
                      | None => 0
                      end.
Proof.
  intros Hst Hnow Hrs (_ & _ & Hb) (_ & _ & _ & Hs). assert (st < 12)%nat as Hst' by (unfold COLLECTD_CPU_STATE_ACTIVE in *; lia).
  destruct (Hb cpu st Hst') as (Hv & _ & _ & Hseen). specialize (Hs cpu st Hst'). unfold readable, reading. cbv zeta.
  assert (∀ x, sample o rs cpu st = None →
    match row_of rs cpu with Some r => if decide (row_cpu r ∈ seen) then default 0 (row_value o r st) else 0 | None => 0 end = x ↔ 0 = x) as Hnone.
  { unfold sample. destruct (row_of rs cpu) as [r|]; cbn [mbind option_bind]; [|done]. intros x ->. by destruct (decide _). }
  destruct (sample_cases o rs cpu st) as [E|(r & Hin & Hc & Er & Ev)].
  { rewrite E in Hs. rewrite Hs, Hv. split; [done|]. symmetry. by apply Hnone. }
  rewrite Er, Hc, Ev. destruct (sample o rs cpu st) as [d|] eqn:E.
  - destruct Hs as (Hd & _ & Hh). rewrite Hh, Hv, Hd. cbn [orb]. specialize (Hseen ltac:(apply (row_value_reported o r); congruence)).
    eapply list.Forall_forall in Hrs; [|exact Hin]. destruct (row_value_range _ _ _ _ Hrs Ev) as [_ Hdr].
    split; [intros _; exists d; split; [done|lia]|]. destruct (Z.eqb_spec (vr_last_time (conv (st_at p cpu st))) 0) as [E0|E0]; cbn [negb].
    + apply Hseen in E0. by rewrite decide_False.
    + rewrite decide_True; [done|]. destruct (decide (cpu ∈ seen)); [done|]. by destruct E0; apply Hseen.
  - rewrite Hs, Hv. split; [done|]. by destruct (decide (cpu ∈ seen)).
Qed.

Lemma between_step o seen t0 now rs p p1 : 0 ≤ t0 < now → Forall row_ok rs → between o seen t0 p → staged_rows o rs now p p1 →
  between o (map row_cpu rs ++ seen) now (cpu_reset p1).
Proof.
  intros Ht Hrs (Hpo & _ & Hb) (Ho1 & _ & _ & Hst1). split_and!; [by rewrite <-Hpo, <-Ho1|done|].
  intros cpu st Hst. rewrite st_at_reset. cbn [has_value conv]. destruct (Hb cpu st Hst) as (_ & Hl & Hd & Hseen). specialize (Hst1 cpu st Hst).
  split; [done|]. rewrite not_elem_of_app. destruct (sample o rs cpu st) as [d|] eqn:E.
  - destruct Hst1 as (Hv & -> & _). destruct (sample_cases o rs cpu st) as [?|(r & Hin & <- & _ & Ev)]; [congruence|].
    rewrite E in Ev. eapply list.Forall_forall in Hrs; [|exact Hin]. destruct (row_value_range _ _ _ _ Hrs Ev) as [_ Hdr].
    split_and!; [lia..|by right; exists d|]. intros _. split; [lia|]. intros [Hn _]. destruct Hn. by apply (list_elem_of_fmap_2 row_cpu).
  - rewrite Hst1. split_and!; [lia..|done|]. intros Hrep. rewrite (Hseen Hrep). split; [|tauto]. intros Hn. split; [|done].
    intros Hin. destruct (row_of_some _ _ Hin) as [r Er]. unfold sample in E. rewrite Er in E. by apply (row_value_reported o r) in Hrep.
Qed.

Section read.
Context `{Filesystem}.

Lemma commit_totals_ok p f : raw_totals (options p) →
  sum_states (seq 0 COLLECTD_CPU_STATE_ACTIVE) p ⇓ map f (seq 0 COLLECTD_CPU_STATE_ACTIVE) → (∀ st, in_u64 (f st)) →
  cpu_commit p [] ⇓ (p, [mk_family (Some $"host_cpu_all_usage_total") None METRIC_TYPE_COUNTER
    (map (λ st, state_metric st (v_counter (f st))) (seq 0 COLLECTD_CPU_STATE_ACTIVE))]).
Proof.
  intros (Hp & Hb & Hn) Hs Hf. unfold cpu_commit. rewrite Hn, Hp, Hb, bind_ret. cbn [negb].
  eapply yields_bind; [|apply yields_ret]. unfold cpu_commit_all_without_aggregation. eapply yields_bind; [exact Hs|]. cbv beta.
  destruct (append_totals_ok f COLLECTD_CPU_STATE_ACTIVE 0 (new_family $"host_cpu_all_usage_total" METRIC_TYPE_COUNTER) zero_metric)
    as (m & E & k & Hm); [done..|]. eapply yields_bind; [exact E|]. cbv beta iota.
  assert (∃ kv, label m = embed kv) as [kv Hkv].
  { destruct k as [|k]; cbn [labelled] in Hm; [subst m; by exists []|]. destruct Hm as [v ->]. by eexists. }
  eapply yields_bind; [by apply (metric_reset_ok m kv)|]. cbv beta.
  eapply yields_bind; [|apply yields_ret]. unfold metric_family_metric_reset.
  eapply yields_bind; [|apply yields_ret]. apply list_reset_ok. cbn [metric set_metrics new_family app].
  apply Forall_map, list.Forall_forall. intros st _. by eexists.
Qed.

(** One read. *)
Lemma cpu_read_ok o seen t0 now es p : raw_totals o → between o seen t0 p → 0 ≤ t0 < now → stat_ok es →
  file_contents $"/proc/stat" = Some (stat_text es) →
  ∃ p', cpu_read now p ⇓ (0, p', [totals_family o seen (rows es)]) ∧ between o (map row_cpu (rows es) ++ seen) now p'.
Proof.
  intros Ho Hbt Ht (Hok & Hnd & Hsum) Hfile. pose proof Hbt as (Hpo & Hp0 & Hb).
  assert (Forall row_ok (rows es)) as Hrs.
  { clear -Hok. induction Hok as [|e es [_ He] _ IH]; [constructor|]. by destruct e; [constructor|]. }
  destruct (stat_loop_ok es now) with (fuel := S (length (stat_text es))) (p := p) as (p1 & E1 & Hs1); [lia|done|done| | |].
  { clear. induction es as [|e es IH]; [by cbn; lia|]. change (stat_text (e :: es)) with ((entry_text e ++ [newline]) ++ stat_text es).
    rewrite !length_app. cbn [length]. lia. }
  { apply list.Forall_forall. intros r _ st Hst. destruct (Hb (row_cpu r) st Hst) as (_ & ? & ? & _). split; [lia|done]. }
  rewrite Hpo in Hs1. pose proof Hs1 as (Ho1 & Hg1 & Hc1 & Hst1).
  assert (∀ st, (st < COLLECTD_CPU_STATE_ACTIVE)%nat → Forall (readable p1 st) (seq 0 (global_cpu_num p1)) ∧
    zsum (map (reading p1 st) (seq 0 (global_cpu_num p1))) = total o seen (rows es) st) as Hread.
  { intros st Hst. pose proof (λ c, staged_reading o seen t0 now (rows es) p p1 c st Hst ltac:(lia) Hrs Hbt Hs1) as Hr. split.
    - apply list.Forall_forall. intros c _. by apply Hr.
    - unfold total. rewrite <-zsum_rows with (l := seq 0 (global_cpu_num p1)); [|apply NoDup_seq| |done].
      + f_equal. apply map_ext. intros c. by apply Hr.
      + eapply list.Forall_impl; [exact Hc1|]. cbv beta. intros r Hr'. apply elem_of_seq. lia. }
  assert (∀ st, 0 ≤ total o seen (rows es) st < 2 ^ 63) as Htot.
  { intros st. unfold total. clear -Hrs Hsum. revert Hsum. enough (0 ≤ zsum (map (λ r, if decide (row_cpu r ∈ seen) then default 0 (row_value o r st) else 0) (rows es))
      ≤ zsum (map (λ r, zsum (row_fields r)) (rows es))) by lia.
    induction Hrs as [|r rs Hr _ IH]; [done|]. cbn [map]. change (zsum (?x :: ?l)) with (x + zsum l).
    pose proof (row_value_bound o r st Hr). destruct (decide _); lia. }
  exists (cpu_reset p1). split; [|by eapply between_step].
  unfold cpu_read. rewrite Hfile. eapply yields_bind; [exact E1|]. cbv beta.
  eapply yields_bind; [apply (commit_totals_ok p1 (total o seen (rows es)))|apply yields_ret].
  - by rewrite Ho1, Hpo.
  - assert (map (total o seen (rows es)) (seq 0 COLLECTD_CPU_STATE_ACTIVE) =
        map (λ st, zsum (map (reading p1 st) (seq 0 (global_cpu_num p1)))) (seq 0 COLLECTD_CPU_STATE_ACTIVE)) as ->.
      { apply map_ext_in. intros st [_ Hst]%in_seq. symmetry. by apply Hread. }
      apply sum_states_ok. apply list.Forall_forall. intros st [_ Hst]%elem_of_seq. destruct (Hread st Hst) as [? ->]. split; [done|apply Htot].
  - intros st. specialize (Htot st). unfold in_u64. lia.
Qed.
End read.

(** A sequence of reads, each of the /proc of that time. *)
Fixpoint cpu_reads (reads : list (Z * Filesystem)) p (out : list metric_family_t) : M (cpu_plugin * list metric_family_t) :=
  match reads with
  | [] => ret (p, out)
  | (now, files) :: reads => let* '(_, p, fams) := cpu_read (H := files) now p in cpu_reads reads p (out ++ fams)
  end.
(** What the reads should dispatch. *)
Fixpoint totals_of o (seen : list nat) (texts : list (list stat_entry)) : list metric_family_t :=
  match texts with
  | [] => []
  | es :: texts => totals_family o seen (rows es) :: totals_of o (map row_cpu (rows es) ++ seen) texts
  end.

(** C16. The counters of /proc/stat, read any number of times by a plugin that
    reports totals of raw counters ([raw_totals]): every read dispatches one family whose values are, for every state, the sum of that
    state's counters over the CPUs that this read lists and that an earlier
    read has listed; guest time is taken off user and nice when the options
    say so.  The first read so dispatches zeros, and a CPU that comes online
    counts from the second read that lists it. *)
Theorem cpu_totals_spec o reads texts : raw_totals o →
  StronglySorted Z.lt (0 :: map fst reads) →
  Forall2 (λ read es, stat_ok es ∧ @file_contents read.2 $"/proc/stat" = Some (stat_text es)) reads texts →
  ∃ p, cpu_reads reads (mk_cpu [] [] 0 o) [] ⇓ (p, totals_of o [] texts).
Proof.
  intros Ho Ht Hreads. assert (between o [] 0 (mk_cpu [] [] 0 o)) as Hb.
  { split_and!; [done..|]. intros cpu st _. unfold st_at. cbn [cpu_states]. rewrite lookup_nil. cbn. split_and!; [done..|by left|].
    intros _. split; [by intros _ ?%elem_of_nil|done]. }
  revert Ht Hb. change (totals_of o [] texts) with ([] ++ totals_of o [] texts).
  generalize (mk_cpu [] [] 0 o), (@nil nat), (@nil metric_family_t). intros p seen out. assert (0 ≤ 0) as Hz by done. revert Hz.
  generalize 0 at 2 3 4. revert p seen out.
  induction Hreads as [|[now files] es reads texts [Hok Hfile] _ IH]; intros p seen out t0 Ht0 Ht Hb.
  { exists p. cbn [cpu_reads totals_of]. by rewrite app_nil_r. }
  apply StronglySorted_inv in Ht as [Ht Hlt]. cbn [map fst] in *. apply Forall_cons_1 in Hlt as [Hlt _].
  destruct (cpu_read_ok (H := files) o seen t0 now es p Ho Hb ltac:(lia) Hok Hfile) as (p1 & E1 & Hb1).
  destruct (IH p1 _ (out ++ [totals_family o seen (rows es)]) now ltac:(lia) Ht Hb1) as [p2 E2].
  exists p2. cbn [cpu_reads totals_of]. eapply yields_bind; [exact E1|]. cbv beta iota. by rewrite <-app_assoc in E2.
Qed.

Definition proc_stat (es : list stat_entry) : Filesystem := {|
  file_contents path := if bool_decide (path = $"/proc/stat") then Some (stat_text es) else None;
  dir_entries _ := None;
|}.
Definition demo_stat (a b : Z) : list stat_entry :=
  [e_other $"cpu  3 0 0 4 0 0 0 0 0 0"; e_cpu (mk_row 0 [a; 1; 2; 3; 4; 5; 6; 7; 8; 9]);
   e_cpu (mk_row 1 [b; 1; 2; 3; 4; 5; 6; 7; 8; 9]); e_other $"ctxt 12"].
Definition demo_options : cpu_options := mk_options false true false false true false true.

Lemma cpu_totals_spec_witness : ∃ p,
  cpu_reads [(5, proc_stat (demo_stat 10 20)); (7, proc_stat (demo_stat 11 25))] (mk_cpu [] [] 0 demo_options) [] ⇓
    (p, totals_of demo_options [] [demo_stat 10 20; demo_stat 11 25]) ∧
  total demo_options [] (rows (demo_stat 10 20)) COLLECTD_CPU_STATE_USER = 0 ∧
  total demo_options [1; 0]%nat (rows (demo_stat 11 25)) COLLECTD_CPU_STATE_USER = 20.
Proof.
  assert (∀ a b, 0 ≤ a < 100 → 0 ≤ b < 100 → (length (entry_text (e_cpu (mk_row 0 [a; 1; 2; 3; 4; 5; 6; 7; 8; 9]%Z))) < 1023)%nat →
    (length (entry_text (e_cpu (mk_row 1 [b; 1; 2; 3; 4; 5; 6; 7; 8; 9]%Z))) < 1023)%nat → stat_ok (demo_stat a b)) as Hok.
  { intros a b Ha Hb Hla Hlb. split_and!.
    - assert (∀ c x, 0 ≤ x < 100 → (c < 2)%nat → row_ok (mk_row c [x; 1; 2; 3; 4; 5; 6; 7; 8; 9])) as Hr.
      { intros c x Hx Hc. split_and!; cbn [row_cpu row_fields]; [lia|cbn [length]; lia|]. rewrite !list.Forall_cons. split_and!; (lia || constructor). }
      unfold demo_stat. rewrite !list.Forall_cons. split_and!; [|split; [done|by apply Hr; [lia|lia]]..| |constructor];
        (split; [cbn; lia|]; split; [|by vm_compute]; cbn [list_ascii_of_string]; rewrite !list.Forall_cons; unfold liney;
          split_and!; (constructor || by vm_compute)).
    - cbn. apply (bool_decide_unpack _). by vm_compute.
    - cbn [demo_stat rows omap list_omap map row_fields zsum fold_right]. lia. }
  destruct (cpu_totals_spec demo_options [(5, proc_stat (demo_stat 10 20)); (7, proc_stat (demo_stat 11 25))]
    [demo_stat 10 20; demo_stat 11 25]) as [p E].
  - done.
  - repeat constructor.
  - repeat apply Forall2_cons_2; [..|by apply Forall2_nil_2]; (split; [apply Hok; [lia|lia|apply Nat.ltb_lt; by vm_compute..]|done]).
  - exists p. split_and!; [exact E|by vm_compute..].
Defined.
