(* ===== verification/LccClient.v ===== *)
(** * The client of the command interface (src/libcollectdclient/client.c)

    The client prints commands, sends them over a connection and reads the
    answers; the server end is the loop of the unixsock plugin
    (src/unixsock.c), which hands every line to the handlers of [Commands].
    The two are composed: a value list that the client sends is the value list
    that the server dispatches.

    A connection is what the other end does with the bytes it is sent
    ([peer], the answer or a write error) and the bytes that can be read.
    Where nothing can be read the real client waits; here it gets the end of
    the file.  The texts of error messages and the printing of doubles are
    parameters. *)

From Stdlib Require Import ZArith Lia Ascii String.
From stdpp Require Import base numbers option list.
From S2P Require Import Prelude MapSpec Double StrBuf LabelSet CommonStr Metric Cmds Values Commands.
From S2P Require TypesDb Cache MetaData Avl.

Definition LCC_NAME_LEN : nat := 64.
Definition LCC_DEFAULT_PORT : cstr := $"25826".
Definition EBADF : Z := 9.
Definition EILSEQ : Z := 84.

Record lcc_identifier_t : Type := mk_ident { host : cstr; plugin : cstr; plugin_instance : cstr; type : cstr; type_instance : cstr }.
(** A value and the member of [values_types] that says which one it is. *)
Inductive lcc_value_t : Type :=
  | LCC_TYPE_COUNTER (counter : Z)
  | LCC_TYPE_GAUGE (gauge : double)
  | LCC_TYPE_DERIVE (derive : Z)
  | LCC_TYPE_ABSOLUTE (absolute : Z)
  | unknown_type.
Record lcc_value_list_t : Type := mk_lcc_vl { values : list lcc_value_t; vl_time : double; vl_interval : double; identifier : lcc_identifier_t }.
Record lcc_response_t : Type := mk_response { status : Z; message : cstr; lines : list cstr }.

(** ** Texts *)

(** [SSTRCAT] and [SSTRCATF] on a buffer of [size] bytes. *)
Definition SSTRCPY (size : nat) (s : cstr) : cstr := take (size - 1) s.
Definition SSTRCAT (size : nat) (d s : cstr) : cstr := take (size - 1) (d ++ s).
Definition SSTRCATF (size : nat) (d s : cstr) : cstr := SSTRCAT size d (take (size - 1) s).

(** What is written between the quotes, from position [dest_pos] on. *)
Fixpoint strescape_loop (src : cstr) (dest_pos dest_size : nat) : cstr :=
  match src with
  | [] => []
  | c :: src =>
      if (dest_pos =? dest_size - 2)%nat then []
      else if quoted c then
        if (dest_pos =? dest_size - 3)%nat then []
        else BACKSLASH :: c :: strescape_loop src (dest_pos + 2) dest_size
      else c :: strescape_loop src (dest_pos + 1) dest_size
  end.
Definition lcc_strescape (src : cstr) (dest_size : nat) : cstr := QUOTE :: strescape_loop src 1 dest_size ++ [QUOTE].

(** [char] is signed: a byte from 128 on is negative. *)
Definition chomp_char (c : ascii) : bool := negb ((32 <=? chr_code c) && (chr_code c <? 128)).
Definition lcc_chomp (s : cstr) : cstr := rev (drop (span_len chomp_char (rev s)) (rev s)).

(** The text, or [EINVAL]; the buffer has [string_size] bytes. *)
Definition lcc_identifier_to_string (string_size : nat) (ident : lcc_identifier_t) : option cstr :=
  if (string_size <? 6)%nat then None
  else Some (take (string_size - 1)
    match plugin_instance ident, type_instance ident with
    | [], [] => host ident ++ $"/" ++ plugin ident ++ $"/" ++ type ident
    | [], ti => host ident ++ $"/" ++ plugin ident ++ $"/" ++ type ident ++ $"-" ++ ti
    | pi, [] => host ident ++ $"/" ++ plugin ident ++ $"-" ++ pi ++ $"/" ++ type ident
    | pi, ti => host ident ++ $"/" ++ plugin ident ++ $"-" ++ pi ++ $"/" ++ type ident ++ $"-" ++ ti
    end).

(** [strchr]: what is before and behind the character. *)
Definition split_at (c : ascii) (s : cstr) : option (cstr * cstr) :=
  let n := strcspn s [c] in if (n <? length s)%nat then Some (take n s, drop (S n) s) else None.

Definition lcc_string_to_identifier (string : cstr) : M (option lcc_identifier_t) :=
  let* ok := alloc in
  if negb ok then ret None
  else
    match split_at "/" string with
    | None => ret None
    | Some (h, rest) =>
        match split_at "/" rest with
        | None => ret None
        | Some (p, t) =>
            let '(p, pi) := match split_at "-" p with Some (p, pi) => (p, pi) | None => (p, []) end in
            let '(t, ti) := match split_at "-" t with Some (t, ti) => (t, ti) | None => (t, []) end in
            let cp := SSTRCPY LCC_NAME_LEN in
            ret (Some (mk_ident (cp h) (cp p) (cp pi) (cp t) (cp ti)))
        end
    end.

Definition lcc_identifier_compare (a b : lcc_identifier_t) : Z :=
  let cmp s k := if negb (s =? 0) then s else k in
  cmp (strcmp (host a) (host b)) (cmp (strcmp (plugin a) (plugin b))
    (cmp (strcmp (plugin_instance a) (plugin_instance b)) (cmp (strcmp (type a) (type b))
      (strcmp (type_instance a) (type_instance b))))).

(** ** Connections *)

Class Peer (W : Type) : Type := peer : W → list ascii → M (option (W * list ascii)).
Record stream (W : Type) : Type := mk_stream { peer_state : W; incoming : list ascii }.
Arguments mk_stream {W}.
Arguments peer_state {W}.
Arguments incoming {W}.

Definition CR_LF : cstr := ["013"%char; "010"%char].
Definition skip_blanks (s : cstr) : cstr := drop (strspn s [" "%char; "009"%char]) s.
Definition i32 (z : Z) : Z := (z + 2 ^ 31) mod 2 ^ 32 - 2 ^ 31.

(** [strtol] with base 0: the value and what follows it; [None] without
    digits and for a number that does not fit. *)
Definition strtol (s : cstr) : option (Z * cstr) :=
  match scan_number s with
  | None => None
  | Some (neg, mag, n) =>
      let v := if neg : bool then - mag else mag in
      if (- 2 ^ 63 <=? v) && (v <? 2 ^ 63) then Some (v, drop n s) else None
  end.

Section client.
Context {W : Type} `{Peer W}.
(** [c->fh] *)
Definition lcc_connection_t : Type := option (stream W).
Implicit Types (c : lcc_connection_t).

Definition lcc_send (st : stream W) (command : cstr) : M (Z * stream W) :=
  let* r := peer (peer_state st) (command ++ CR_LF) in
  match r with
  | None => ret (-1, st)
  | Some (w, out) => ret (0, mk_stream w (incoming st ++ out))
  end.

(** The lines that follow the first one. *)
Fixpoint receive_lines (n : nat) (fh : list ascii) : M (option (list cstr) * list ascii) :=
  match n with
  | O => ret (Some [], fh)
  | S n =>
      match TypesDb.fgets 4096 fh with
      | None => ret (None, fh)
      | Some (buffer, fh) =>
          let* ok := alloc in
          if negb ok then ret (None, fh)
          else
            let* '(ls, fh) := receive_lines n fh in
            ret (match ls with Some ls => Some (lcc_chomp (c_str buffer) :: ls) | None => None end, fh)
      end
  end.

Definition lcc_receive (st : stream W) : M (Z * option lcc_response_t * stream W) :=
  match TypesDb.fgets 4096 (incoming st) with
  | None => ret (-1, None, st)
  | Some (buffer, fh) =>
      let fin fh := mk_stream (peer_state st) fh in
      match strtol (lcc_chomp (c_str buffer)) with
      | None => ret (-1, None, fin fh)
      | Some (v, ptr) =>
          let message := take 1023 (skip_blanks ptr) in
          if i32 v <=? 0 then ret (0, Some (mk_response (i32 v) message []), fin fh)
          else
            let* ok := alloc in
            if negb ok then ret (-1, None, fin fh)
            else
              let* '(ls, fh) := receive_lines (Z.to_nat (i32 v)) fh in
              match ls with
              | None => ret (-1, None, fin fh)
              | Some ls => ret (0, Some (mk_response 0 message ls), fin fh)
              end
      end
  end.

Definition lcc_sendreceive c (command : cstr) : M (Z * option lcc_response_t * lcc_connection_t) :=
  match c with
  | None => ret (-1, None, c)
  | Some st =>
      let* '(status, st) := lcc_send st command in
      if negb (status =? 0) then ret (status, None, Some st)
      else
        let* '(status, res, st) := lcc_receive st in
        ret (status, res, Some st)
  end.

(** A server error is an error. *)
Definition no_error (res : option lcc_response_t) : M bool :=
  let* r := mopt res in ret (status r =? 0).

(** ** Commands *)

(** [%g] and [%i]. *)
Class FormatG : Type := format_g : double → cstr.
Context `{Strtod, FormatFixed3, FormatG}.

Definition escaped_identifier (ident : lcc_identifier_t) : option cstr :=
  (λ s, lcc_strescape s (12 * LCC_NAME_LEN)) <$> lcc_identifier_to_string (6 * LCC_NAME_LEN) ident.

(** The names and values of the lines, as far as they are wanted. *)
Fixpoint getval_lines (want_values want_names : bool) (ls : list cstr) : M (option (list double * list cstr)) :=
  match ls with
  | [] => ret (Some ([], []))
  | l :: ls =>
      match split_at "=" l with
      | None => ret None
      | Some (key, value) =>
          let r := strtod value in
          if want_values && ((sd_consumed r =? 0)%nat || sd_errno r) then ret None
          else
            let* ok := if want_names then alloc else ret true in
            if negb ok then ret None
            else
              let* rest := getval_lines want_values want_names ls in
              ret (match rest with
                   | None => None
                   | Some (vs, ns) => Some (if want_values then sd_value r :: vs else vs, if want_names then key :: ns else ns)
                   end)
      end
  end.

(** The number of values, the values and the names. *)
Definition lcc_getval c (ident : lcc_identifier_t) (want_values want_names : bool) :
    M (Z * option (nat * list double * list cstr) * lcc_connection_t) :=
  match escaped_identifier ident with
  | None => ret (-1, None, c)
  | Some id =>
      let* '(status, res, c) := lcc_sendreceive c (take (14 * LCC_NAME_LEN - 1) ($"GETVAL " ++ id)) in
      if negb (status =? 0) then ret (status, None, c)
      else
        let* ok := no_error res in
        if negb ok then ret (-1, None, c)
        else
          let* r := mopt res in
          if negb want_values && negb want_names then ret (0, Some (length (lines r), [], []), c)
          else
            let* ok := if want_values then alloc else ret true in
            if negb ok then ret (-1, None, c)
            else
              let* ok := if want_names then alloc else ret true in
              if negb ok then ret (-1, None, c)
              else
                let* found := getval_lines want_values want_names (lines r) in
                ret (match found with
                     | None => (-1, None, c)
                     | Some (vs, ns) => (0, Some (length (lines r), vs, ns), c)
                     end)
  end.

Definition value_text (v : lcc_value_t) : cstr :=
  match v with
  | LCC_TYPE_COUNTER n | LCC_TYPE_DERIVE n | LCC_TYPE_ABSOLUTE n => decimal n
  | LCC_TYPE_GAUGE g => if is_nan g then $"U" else format_g g
  | unknown_type => []
  end.

(** The command, in its buffer of 1024 bytes. *)
Definition putval_command (vl : lcc_value_list_t) (id : cstr) : cstr :=
  let size := 1024%nat in
  let command := SSTRCATF size [] ($"PUTVAL " ++ id) in
  let command := if flt fzero (vl_interval vl) then SSTRCATF size command ($" interval=" ++ format_fixed3 (vl_interval vl)) else command in
  let command := if flt fzero (vl_time vl) then SSTRCATF size command ($" " ++ format_fixed3 (vl_time vl)) else SSTRCAT size command $" N" in
  fold_left (λ command v,
    match v with unknown_type => command | _ => SSTRCATF size command (":"%char :: value_text v) end) (values vl) command.

Definition lcc_putval c (vl : lcc_value_list_t) : M (Z * lcc_connection_t) :=
  match values vl with
  | [] => ret (-1, c)
  | _ =>
      match escaped_identifier (identifier vl) with
      | None => ret (-1, c)
      | Some id =>
          let* '(status, res, c) := lcc_sendreceive c (putval_command vl id) in
          if negb (status =? 0) then ret (status, c)
          else let* ok := no_error res in ret (if ok then 0 else -1, c)
      end
  end.

Definition lcc_flush c (plugin : option cstr) (ident : option lcc_identifier_t) (timeout : Z) : M (Z * lcc_connection_t) :=
  let size := 1024%nat in
  let command := SSTRCPY size $"FLUSH" in
  let command := if 0 <? timeout then SSTRCATF size command ($" timeout=" ++ decimal timeout) else command in
  let command := match plugin with
                 | Some p => SSTRCATF size command ($" plugin=" ++ lcc_strescape p (2 * LCC_NAME_LEN))
                 | None => command
                 end in
  let command := match ident with
                 | Some i => (λ id, SSTRCATF size command ($" identifier=" ++ id)) <$> escaped_identifier i
                 | None => Some command
                 end in
  match command with
  | None => ret (-1, c)
  | Some command =>
      let* '(status, res, c) := lcc_sendreceive c command in
      if negb (status =? 0) then ret (status, c)
      else let* ok := no_error res in ret (if ok then 0 else -1, c)
  end.

(** The second field of a line: what follows the first blanks. *)
Definition second_field (l : cstr) : cstr := skip_blanks (drop (strcspn l [" "%char; "009"%char]) l).

Fixpoint listval_lines (ls : list cstr) : M (option (list lcc_identifier_t)) :=
  match ls with
  | [] => ret (Some [])
  | l :: ls =>
      match second_field l with
      | [] => ret None
      | ident_str =>
          let* i := lcc_string_to_identifier ident_str in
          match i with
          | None => ret None
          | Some i => let* rest := listval_lines ls in ret ((λ l, i :: l) <$> rest)
          end
      end
  end.

Definition lcc_listval c : M (Z * option (list lcc_identifier_t) * lcc_connection_t) :=
  let* '(status, res, c) := lcc_sendreceive c $"LISTVAL" in
  if negb (status =? 0) then ret (status, None, c)
  else
    let* ok := no_error res in
    if negb ok then ret (-1, None, c)
    else
      let* r := mopt res in
      let* ok := alloc in
      if negb ok then ret (-1, None, c)
      else
        let* idents := listval_lines (lines r) in
        ret (match idents with None => -1 | Some _ => 0 end, idents, c).
End client.

(** ** Opening *)

(** What the system offers: the addresses of a host and port, and the end of
    a connection to a path or to an address, or the error. *)
Class Sockets (W : Type) : Type := {
  sockaddr : Type;
  getaddrinfo : cstr → cstr → option (list sockaddr);
  connect_unix : cstr → Z + W;
  connect_inet : sockaddr → Z + W;
}.

Section connect.
Context {W : Type} `{Sockets W}.

Definition lcc_open_unixsocket (path : cstr) : Z * option W :=
  match connect_unix path with inl _ => (-1, None) | inr w => (0, Some w) end.

(** Host and port of an address, the port [None] when it has none. *)
Definition split_address (addr_orig : cstr) : option (cstr * option cstr) :=
  let addr := take 1024 addr_orig in
  match addr with
  | "["%char :: rest =>
      match split_at "]" rest with
      | None => None
      | Some (a, ":"%char :: port) => Some (a, Some port)
      | Some (a, []) => Some (a, None)
      | Some _ => None
      end
  | _ =>
      if bool_decide ("."%char ∈ addr) then
        match split_at ":" (rev addr) with
        | Some (port, a) => Some (rev a, Some (rev port))
        | None => Some (addr, None)
        end
      else Some (addr, None)
  end.

(** The first address that can be connected to; the status is that of the
    last attempt. *)
Fixpoint connect_loop (ais : list sockaddr) (status : Z) : Z * option W :=
  match ais with
  | [] => (status, None)
  | ai :: ais => match connect_inet ai with inl e => connect_loop ais e | inr w => (0, Some w) end
  end.

Definition lcc_open_netsocket (addr_orig : cstr) : Z * option W :=
  match split_address addr_orig with
  | None => (-1, None)
  | Some (addr, port) =>
      match getaddrinfo addr (default LCC_DEFAULT_PORT port) with
      | None => (-1, None)
      | Some ais => let '(status, w) := connect_loop ais 0 in (if negb (status =? 0) then -1 else 0, w)
      end
  end.

Definition lcc_open_socket (addr : cstr) : Z * option W :=
  if strcmp (take 5 addr) $"unix:" =? 0 then lcc_open_unixsocket (drop 5 addr)
  else if bool_decide (head addr = Some "/"%char) then lcc_open_unixsocket addr
  else lcc_open_netsocket addr.

Definition lcc_connect (address : cstr) : M (Z * option lcc_connection_t) :=
  let* ok := alloc in
  if negb ok then ret (-1, None)
  else
    let '(status, w) := lcc_open_socket address in
    ret (if negb (status =? 0) then (status, None) else (0, Some ((λ w, mk_stream w []) <$> w))).
End connect.

(** ** The server: unixsock.c *)

Section server.
Context `{Sysconf, Strtod, MetaData.FormatGauge, FormatFixed3} {T : Type → Type} `{!KeyedMap cstr T}.
Context (now : Z) (hostname_g : cstr) (plugin_get_ds : cstr → option data_set_t).
Context (plugin_flush : option cstr → Z → option cstr → Z).
(** The text of an error message for a command. *)
Context (message_text : cstr → cmd_status_t → cstr).

(** The cache, the value lists that were dispatched, the calls of
    [plugin_flush]. *)
Record server : Type := mk_server {
  srv_cache : Cache.cache T;
  srv_dispatched : list value_list_t;
  srv_flushed : list (option cstr * Z * option cstr);
}.

(** What is left of these handlers: the name of the command is parsed and
    compared; the rest is commented out. *)
Definition handle_named (verb : cstr) (buffer : list ascii) : M (Z * list ascii) :=
  let* '(status, buf, (_, command)) := parse_string buffer 0 in
  if negb (status =? 0) then ret (-1, $"-1 Cannot parse command." ++ [TypesDb.newline])
  else
    let command := c_str (drop command buf) in
    if negb (strcasecmp verb command =? 0) then ret (-1, $"-1 Unexpected command: `" ++ command ++ $"'." ++ [TypesDb.newline])
    else ret (0, []).
Definition handle_getthreshold : list ascii → M (Z * list ascii) := handle_named $"GETTHRESHOLD".
Definition handle_putnotif : list ascii → M (Z * list ascii) := handle_named $"PUTNOTIF".

Definition reply_text (line : cstr) (r : reply) : cstr :=
  match r with
  | r_status st =>
      (if bool_decide (st = CMD_OK) then $"0" else $"-1") ++ $" " ++ take 1023 (message_text line st) ++ [TypesDb.newline]
  | r_text s => s ++ [TypesDb.newline]
  end.
Definition replies (line : cstr) (rs : list reply) : list ascii := concat (map (reply_text line) rs).

Definition is_line_end (c : ascii) : bool := bool_decide (c = "010"%char) || bool_decide (c = "013"%char).
(** The line without the newlines and carriage returns at its end. *)
Definition trim_line (s : cstr) : cstr := rev (drop (span_len is_line_end (rev s)) (rev s)).

(** One line: the server, what is written, and whether to go on. *)
Definition us_command (line : cstr) (sv : server) : M (server * list ascii * bool) :=
  match strsplit line 128 with
  | [] => ret (sv, $"-1 Internal error" ++ [TypesDb.newline], false)
  | field :: _ =>
      let buffer := line ++ [NUL] in
      if strcasecmp field $"getval" =? 0 then
        let* '(_, rs, c) := cmd_handle_getval now hostname_g plugin_get_ds (srv_cache sv) buffer in
        ret (mk_server c (srv_dispatched sv) (srv_flushed sv), replies line rs, true)
      else if strcasecmp field $"getthreshold" =? 0 then
        let* '(_, out) := handle_getthreshold buffer in ret (sv, out, true)
      else if strcasecmp field $"putval" =? 0 then
        let* '(_, rs, sent) := cmd_handle_putval now hostname_g plugin_get_ds false buffer in
        ret (mk_server (srv_cache sv) (srv_dispatched sv ++ sent) (srv_flushed sv), replies line rs, true)
      else if strcasecmp field $"listval" =? 0 then
        let* '(_, rs, c) := cmd_handle_listval now hostname_g plugin_get_ds (srv_cache sv) buffer in
        ret (mk_server c (srv_dispatched sv) (srv_flushed sv), replies line rs, true)
      else if strcasecmp field $"putnotif" =? 0 then
        let* '(_, out) := handle_putnotif buffer in ret (sv, out, true)
      else if strcasecmp field $"flush" =? 0 then
        let* '(_, rs, calls, _) := cmd_handle_flush now hostname_g plugin_get_ds plugin_flush buffer in
        ret (mk_server (srv_cache sv) (srv_dispatched sv) (srv_flushed sv ++ calls), replies line rs, true)
      else ret (sv, $"-1 Unknown command: " ++ field ++ [TypesDb.newline], true)
  end.

(** The loop over the lines; [fuel] is the number of bytes. *)
Fixpoint us_handle_client (fuel : nat) (fhin : list ascii) (sv : server) (out : list ascii) : M (server * list ascii) :=
  match fuel with
  | O => crash
  | S fuel =>
      match TypesDb.fgets 1024 fhin with
      | None => ret (sv, out)
      | Some (buffer, fhin) =>
          match trim_line (c_str buffer) with
          | [] => us_handle_client fuel fhin sv out
          | line =>
              let* '(sv, o, go_on) := us_command line sv in
              if go_on : bool then us_handle_client fuel fhin sv (out ++ o) else ret (sv, out ++ o)
          end
      end
  end.

(** The server as the other end of a connection. *)
Definition us_peer : Peer server := λ sv bytes,
  let* r := us_handle_client (S (length bytes)) bytes sv [] in ret (Some r).
End server.

(** ** Texts survive *)

Lemma strescape_loop_ok s size : ∀ pos, (pos + length (escape s) + 2 ≤ size)%nat → strescape_loop s pos size = escape s.
Proof.
  induction s as [|c s IH]; intros pos Hp; [done|]. cbn [strescape_loop]. rewrite escape_cons, length_app in *.
  destruct (quoted c) eqn:Ec; cbn [app length] in *.
  - destruct (Nat.eqb_spec pos (size - 2)); [lia|]. destruct (Nat.eqb_spec pos (size - 3)); [lia|]. rewrite IH by lia.
    unfold quoted in Ec. by replace BACKSLASH with "\"%char by done.
  - destruct (Nat.eqb_spec pos (size - 2)); [lia|]. by rewrite IH by lia.
Qed.

Lemma strescape_ok s size : (length (escape s) + 3 ≤ size)%nat → lcc_strescape s size = QUOTE :: escape s ++ [QUOTE].
Proof. intros H. unfold lcc_strescape. by rewrite strescape_loop_ok by lia. Qed.

Lemma escape_length s : (length (escape s) ≤ 2 * length s)%nat.
Proof. induction s as [|c s IH]; [done|]. rewrite escape_cons, length_app. cbn [length]. destruct (quoted c); cbn [length]; lia. Qed.

Lemma split_at_app c a b : lacks c a → split_at c (a ++ c :: b) = Some (a, b).
Proof.
  intros Ha. unfold split_at. rewrite cspn_app, length_app by done. cbn [length].
  destruct (Nat.ltb_spec (length a) (length a + S (length b))); [|lia]. rewrite take_app_length. f_equal. f_equal.
  change (a ++ c :: b) with (a ++ [c] ++ b). rewrite app_assoc.
  replace (S (length a)) with (length (a ++ [c])) by (rewrite length_app; simpl; lia). by rewrite drop_app_length.
Qed.
Lemma split_at_none c a : lacks c a → split_at c a = None.
Proof. intros Ha. unfold split_at. rewrite cspn_all by done. by rewrite Nat.ltb_irrefl. Qed.

(** Names that a client can send. *)
Definition ident_ok (i : lcc_identifier_t) : Prop :=
  names_ok (host i) (plugin i) (plugin_instance i) (type i) (type_instance i) ∧
  Forall (λ s, (length s < LCC_NAME_LEN)%nat) [host i; plugin i; plugin_instance i; type i; type_instance i].
Definition ident_text (i : lcc_identifier_t) : cstr :=
  name_text (host i) (plugin i) (plugin_instance i) (type i) (type_instance i).

Lemma ident_length i : ident_ok i → (length (ident_text i) ≤ 319)%nat.
Proof.
  intros [_ Hl]. rewrite !Forall_cons in Hl. unfold LCC_NAME_LEN in Hl. unfold ident_text. rewrite name_text_fields, length_app. cbn [length].
  rewrite length_app. cbn [length]. pose proof (length_with_instance (plugin i) (plugin_instance i)).
  pose proof (length_with_instance (type i) (type_instance i)). destruct_and!. lia.
Qed.

Lemma ident_string i size : ident_ok i → (319 < size)%nat → lcc_identifier_to_string size i = Some (ident_text i).
Proof.
  intros Hi Hs. pose proof (ident_length i Hi). unfold lcc_identifier_to_string. destruct (Nat.ltb_spec size 6); [lia|]. f_equal.
  assert (∀ x, x = ident_text i → take (size - 1) x = ident_text i) as Hx by (intros x ->; apply take_ge; lia). apply Hx.
  unfold ident_text, name_text. destruct (plugin_instance i), (type_instance i); cbn [app]; by rewrite ?app_nil_r, <-?app_assoc.
Qed.

(** An identifier that is printed is read back. *)
Lemma ident_roundtrip i : ident_ok i → lcc_string_to_identifier (ident_text i) ⇓ Some i.
Proof.
  intros [Hn Hl]. unfold lcc_string_to_identifier. eapply yields_bind; [apply yields_alloc|]. cbn [negb].
  unfold ident_text. rewrite name_text_fields. names Hn.
  rewrite split_at_app by done. rewrite split_at_app by (by apply lacks_instance).
  assert (∀ s k, lacks "-" s → (length s < 64)%nat → (length k < 64)%nat → match split_at "-" (with_instance s k) with
      | Some (a, b) => (a, b) | None => (with_instance s k, []) end = (s, k)) as Hw.
  { intros s k Hsd _ _. unfold with_instance. destruct k as [|c k]; [by rewrite app_nil_r, split_at_none|].
    change ($"-" ++ c :: k) with ("-"%char :: c :: k). by rewrite split_at_app. }
  unfold LCC_NAME_LEN in *. rewrite !Hw by done. unfold SSTRCPY. rewrite !take_ge by lia. by destruct i.
Qed.

(** ** A value list arrives *)

Section putval.
Context `{Strtod, FormatFixed3, FormatG}.

(** A text that is one word of a command and neither an option nor several
    values. *)
Definition word_ok (s : cstr) : Prop := s ≠ [] ∧ Forall (λ c, plain_char c ∧ c ≠ "="%char ∧ c ≠ ":"%char) s.

(** The value that a value of the client becomes.  A negative DERIVE is
    printed as the unsigned number of its 64 bits, and read as the largest
    signed one. *)
Inductive arrives : Z → lcc_value_t → value_t → Prop :=
  | arrives_counter z : in_u64 z → arrives DS_TYPE_COUNTER (LCC_TYPE_COUNTER z) (v_counter z)
  | arrives_absolute z : in_u64 z → arrives DS_TYPE_COUNTER (LCC_TYPE_ABSOLUTE z) (v_counter z)
  | arrives_derive z : in_u64 z → arrives DS_TYPE_DERIVE (LCC_TYPE_DERIVE z) (v_derive (Z.min z (2 ^ 63 - 1)))
  | arrives_nan g : is_nan g = true → arrives DS_TYPE_GAUGE (LCC_TYPE_GAUGE g) (v_gauge NAN)
  | arrives_gauge g d : is_nan g = false → word_ok (format_g g) → format_g g ≠ $"U" →
      sd_value (strtod (format_g g)) = d → sd_consumed (strtod (format_g g)) ≠ O →
      arrives DS_TYPE_GAUGE (LCC_TYPE_GAUGE g) (v_gauge d).

(** A time or interval in seconds, as it is read back. *)
Definition seconds (d : double) (t : Z) : Prop :=
  word_ok (format_fixed3 d) ∧ format_fixed3 d ≠ $"N" ∧ t ≠ 0 ∧
  ∃ x, strtod (format_fixed3 d) = {| sd_value := x; sd_consumed := length (format_fixed3 d); sd_errno := false |} ∧
    flt fzero x = true ∧ DOUBLE_TO_CDTIME_T x = Some t.

Lemma decimal_word z : 0 ≤ z → word_ok (decimal z).
Proof.
  intros Hz. destruct (decimal_spec z Hz) as (Hd & _ & (d & t & _ & E & _) & _). split; [by rewrite E|].
  eapply list.Forall_impl; [exact Hd|]. intros c Hc. split; [by apply digit_char|]. split; intros ->; by vm_compute in Hc.
Qed.

Lemma word_strip s : word_ok s → strip_space s = s.
Proof.
  intros [Hne Hs]. destruct (exists_last Hne) as (u & x & ->). apply strip_digits.
  apply list.Forall_app in Hs as [_ Hs]. apply Forall_cons_1 in Hs as [((_ & _ & ?) & _) _]. done.
Qed.

Lemma word_lacks s : word_ok s → lacks ":" s.
Proof. intros [_ Hs]. eapply list.Forall_impl; [exact Hs|]. by intros c (_ & _ & ?). Qed.

Lemma reads_saturated z : 2 ^ 63 ≤ z → reads DS_TYPE_DERIVE (decimal z) (v_derive (2 ^ 63 - 1)).
Proof.
  intros Hz. destruct (decimal_last false z ltac:(lia)) as (Hs & Hc & Hne & HU). cbn [app] in *.
  split_and!; [done..|]. right. split; [done|]. unfold parse_value.
  eapply yields_bind; [apply yields_alloc|]. cbn [negb]. rewrite Hs. simpl Z.eqb. cbv iota zeta.
  unfold strtoll. destruct (scan_decimal false z ltac:(lia)) as [E _]. cbn [app] in E. rewrite E. cbv zeta.
  rewrite (proj2 (Z.ltb_ge _ _)) by lia. rewrite (proj2 (Z.leb_le _ _)) by done. cbn [st_consumed st_value].
  by destruct (decimal z).
Qed.

Lemma arrives_reads ty lv v : arrives ty lv v → word_ok (value_text lv) ∧ reads ty (value_text lv) v.
Proof.
  intros [z Hz|z Hz|z Hz|g Hg|g d Hg Hw HU Hd Hc]; cbn [value_text].
  - split; [apply decimal_word; unfold in_u64 in *; lia|by apply reads_counter].
  - split; [apply decimal_word; unfold in_u64 in *; lia|by apply reads_counter].
  - split; [apply decimal_word; unfold in_u64 in *; lia|]. destruct (decide (z < 2 ^ 63)).
    + rewrite Z.min_l by lia. assert (decimal z = decimal_signed z) as ->.
      { unfold decimal_signed. destruct (Z.ltb_spec z 0); [unfold in_u64 in *; lia|done]. }
      apply reads_derive. unfold in_u64 in *. lia.
    + rewrite Z.min_r by lia. apply reads_saturated. lia.
  - rewrite Hg. split; [split; [done|]; apply Forall_singleton; by split_and!; vm_compute|].
    split_and!; [done|by repeat constructor|]. by left.
  - rewrite Hg. split; [done|]. split_and!; [apply Hw|by apply word_lacks|]. right. split; [done|]. unfold parse_value.
    eapply yields_bind; [apply yields_alloc|]. cbn [negb]. rewrite word_strip by done. simpl Z.eqb. cbv iota zeta.
    rewrite Hd. by destruct (sd_consumed _).
Qed.

(** The command when it fits. *)
Definition time_text (vl : lcc_value_list_t) : cstr := if flt fzero (vl_time vl) then format_fixed3 (vl_time vl) else $"N".
Definition interval_arg (vl : lcc_value_list_t) : list arg :=
  if flt fzero (vl_interval vl) then [plain_arg ($"interval=" ++ format_fixed3 (vl_interval vl))] else [].
Definition putval_args (vl : lcc_value_list_t) : list arg :=
  let id := ident_text (identifier vl) in
  [plain_arg $"PUTVAL"; {| a_plain := []; a_quoted := Some (id, escape id) |}] ++ interval_arg vl ++
  [plain_arg (join $":" (time_text vl :: map value_text (values vl)))].
Definition putval_text (vl : lcc_value_list_t) : cstr := join $" " (map render (putval_args vl)).

Definition sendable (now : Z) (ds : data_set_t) (vl : lcc_value_list_t) (t iv : Z) (vs : list value_t) : Prop :=
  ident_ok (identifier vl) ∧ lacks TypesDb.newline (ident_text (identifier vl)) ∧
  (if flt fzero (vl_time vl) then seconds (vl_time vl) t else t = now) ∧ now ≠ 0 ∧
  (if flt fzero (vl_interval vl) then seconds (vl_interval vl) iv else iv = 0) ∧
  values vl ≠ [] ∧ length (values vl) = length (set_ds ds) ∧
  Forall2 (λ '(src, lv) v, arrives (ds_type src) lv v) (zip (set_ds ds) (values vl)) vs ∧
  (length (putval_text vl) ≤ 1021)%nat.

Lemma SSTRCATF_fits d s : (length d + length s ≤ 1023)%nat → SSTRCATF 1024 d s = d ++ s.
Proof. intros Hl. unfold SSTRCATF, SSTRCAT. rewrite (take_ge s) by lia. apply take_ge. rewrite length_app. lia. Qed.

Lemma values_printed vs : ∀ d, Forall (λ v, value_text v ≠ []) vs → (length (d ++ concat (map (λ v, ":"%char :: value_text v) vs)) ≤ 1023)%nat →
  fold_left (λ command v, match v with unknown_type => command | _ => SSTRCATF 1024 command (":"%char :: value_text v) end) vs d =
  d ++ concat (map (λ v, ":"%char :: value_text v) vs).
Proof.
  induction vs as [|v vs IH]; intros d Hv Hl; [by rewrite app_nil_r|]. apply Forall_cons_1 in Hv as [Hne Hv].
  cbn [map concat] in *. rewrite app_assoc in Hl. cbn [fold_left].
  assert (match v with unknown_type => d | _ => SSTRCATF 1024 d (":"%char :: value_text v) end = d ++ ":"%char :: value_text v) as ->.
  { rewrite SSTRCATF_fits by (rewrite !length_app in Hl; lia). by destruct v. }
  rewrite IH by done. by rewrite <-app_assoc.
Qed.

Lemma values_nonempty ds lvs vs : length lvs = length ds →
  Forall2 (λ '(src, lv) v, arrives (ds_type src) lv v) (zip ds lvs) vs →
  Forall (λ lv, word_ok (value_text lv)) lvs ∧
  Forall2 (λ '(src, s) v, reads (ds_type src) s v) (zip ds (map value_text lvs)) vs.
Proof.
  revert ds vs. induction lvs as [|lv lvs IH]; intros [|src ds] vs Hl Hv; try done; cbn [zip zip_with map] in *.
  { apply Forall2_nil_inv_l in Hv as ->. split; [apply Forall_nil_2|apply Forall2_nil_2]. }
  apply Forall2_cons_inv_l in Hv as (v & vs' & Ha & Hv & ->). destruct (IH ds vs') as [? ?]; [cbn [length] in Hl; lia|done|].
  apply arrives_reads in Ha as [? ?]. split; by constructor.
Qed.

Lemma text_parts vl : putval_text vl =
  $"PUTVAL " ++ (QUOTE :: escape (ident_text (identifier vl)) ++ [QUOTE]) ++
  (if flt fzero (vl_interval vl) then $" interval=" ++ format_fixed3 (vl_interval vl) else []) ++
  ($" " ++ time_text vl) ++ concat (map (λ v, ":"%char :: value_text v) (values vl)).
Proof.
  unfold putval_text, putval_args, interval_arg. cbn [app map].
  rewrite join_cons. unfold render at 1. cbn [plain_arg a_plain a_quoted].
  assert (concat (map (λ v, ":"%char :: value_text v) (values vl)) = concat (map (λ f, $":" ++ f) (map value_text (values vl)))) as ->
    by by rewrite map_map.
  destruct (flt fzero (vl_interval vl)); cbn [app map concat]; rewrite !render_plain; rewrite join_cons; unfold render at 1;
    cbn [a_plain a_quoted app]; rewrite ?app_nil_r, <-?app_assoc; cbn [app]; by rewrite <-?app_assoc.
Qed.

Lemma putval_printed now ds vl t iv vs : sendable now ds vl t iv vs →
  ∃ id, escaped_identifier (identifier vl) = Some id ∧ putval_command vl id = putval_text vl.
Proof.
  intros (Hi & _ & _ & _ & _ & _ & Hl & Hv & Hfit). exists (QUOTE :: escape (ident_text (identifier vl)) ++ [QUOTE]).
  pose proof (ident_length _ Hi). pose proof (escape_length (ident_text (identifier vl))). split.
  - unfold escaped_identifier. rewrite ident_string by (done || unfold LCC_NAME_LEN; lia). cbn [fmap option_fmap option_map].
    rewrite strescape_ok; [done|]. unfold LCC_NAME_LEN. lia.
  - destruct (values_nonempty (set_ds ds) (values vl) vs Hl Hv) as [Hw _].
    rewrite text_parts in *. set (id := QUOTE :: _) in *. unfold putval_command. cbv zeta.
    rewrite !length_app in Hfit. rewrite (SSTRCATF_fits [] ($"PUTVAL " ++ id)) by (rewrite length_app; change (length (@nil ascii)) with 0%nat; lia). rewrite app_nil_l.
    assert ((if flt fzero (vl_interval vl) then SSTRCATF 1024 ($"PUTVAL " ++ id) ($" interval=" ++ format_fixed3 (vl_interval vl))
      else $"PUTVAL " ++ id) = $"PUTVAL " ++ id ++ (if flt fzero (vl_interval vl) then $" interval=" ++ format_fixed3 (vl_interval vl) else [])) as ->.
    { destruct (flt fzero (vl_interval vl)); [|by rewrite app_nil_r]. rewrite length_app in Hfit.
      rewrite SSTRCATF_fits by (rewrite !length_app; lia). by rewrite <-app_assoc. }
    set (iv' := if flt fzero (vl_interval vl) then $" interval=" ++ _ else []) in *.
    assert ((if flt fzero (vl_time vl) then SSTRCATF 1024 ($"PUTVAL " ++ id ++ iv') ($" " ++ format_fixed3 (vl_time vl))
      else SSTRCAT 1024 ($"PUTVAL " ++ id ++ iv') $" N") = ($"PUTVAL " ++ id ++ iv') ++ $" " ++ time_text vl) as ->.
    { unfold time_text in *. destruct (flt fzero (vl_time vl)).
      - rewrite SSTRCATF_fits; [done|]. rewrite !length_app. lia.
      - unfold SSTRCAT. rewrite take_ge; [done|]. rewrite !length_app. change (length $" N") with 2%nat. lia. }
    rewrite values_printed; [by rewrite <-!app_assoc| |].
    + eapply list.Forall_impl; [exact Hw|]. by intros lv [? _].
    + rewrite !length_app. lia.
Qed.

(** The words of the command. *)
Lemma putval_args_ok now ds vl t iv vs : sendable now ds vl t iv vs → Forall arg_ok (putval_args vl).
Proof.
  intros (Hi & _ & Ht & _ & Hiv & _ & Hl & Hv & _). destruct (values_nonempty (set_ds ds) (values vl) vs Hl Hv) as [Hw _].
  assert (∀ s, word_ok s → Forall plain_char s) as Hplain.
  { intros s [_ Hs]. eapply list.Forall_impl; [exact Hs|]. by intros c [? _]. }
  unfold putval_args. apply Forall_cons_2; [apply plain_arg_ok; [done|by repeat constructor]|]. apply Forall_cons_2.
  { split_and!; [constructor| |].
    - intros q e [= <- <-]. apply enc_escape_quotes. destruct Hi as [Hn _]. by apply no_nul_name_text.
    - unfold arg_text. cbn [a_plain a_quoted app]. unfold ident_text. rewrite name_text_fields. by destruct (host _). }
  apply list.Forall_app. split.
  - unfold interval_arg. destruct (flt fzero (vl_interval vl)); [|constructor]. apply Forall_singleton.
    destruct Hiv as (Hwi & _). apply plain_arg_ok; [done|]. apply list.Forall_app. split; [by repeat constructor|by apply Hplain].
  - apply Forall_singleton. rewrite join_cons.
    assert (time_text vl ≠ [] ∧ Forall plain_char (time_text vl)) as [Hne Hpt].
    { unfold time_text. destruct (flt fzero (vl_time vl)); [|by split; [|repeat constructor]].
      destruct Ht as (Hwt & _). split; [apply Hwt|by apply Hplain]. }
    apply plain_arg_ok; [by destruct (time_text vl)|]. apply list.Forall_app. split; [done|].
    clear -Hw Hplain. induction Hw as [|lv lvs Hlv _ IH]; [constructor|]. cbn [map concat]. apply list.Forall_app. split; [|done].
    apply Forall_cons_2; [by split_and!; vm_compute|by apply Hplain].
Qed.
End putval.

(** ** The server reads the command *)

Section received.
Context `{Sysconf, Strtod, MetaData.FormatGauge, FormatFixed3, FormatG}.
Context (now : Z) (hostname_g : cstr) (get_ds : cstr → option data_set_t).

Lemma parse_values_timed vl ds ts texts vs t : t ≠ 0 → texts ≠ [] →
  (ts = $"N" ∧ t = now ∨ ts ≠ $"N" ∧ ts ≠ [] ∧ lacks ":" ts ∧
    ∃ x, strtod ts = {| sd_value := x; sd_consumed := length ts; sd_errno := false |} ∧ DOUBLE_TO_CDTIME_T x = Some t) →
  length texts = length (set_ds ds) → length (vl_values vl) = length (set_ds ds) →
  Forall (λ s, s ≠ [] ∧ lacks ":" s) texts →
  Forall2 (λ '(src, s) v, reads (ds_type src) s v) (zip (set_ds ds) texts) vs →
  parse_values now (join $":" (ts :: texts)) vl ds ⇓ (0, set_values vs (set_vl_time t vl)).
Proof.
  intros Ht Hne Hts Hlt Hlv Hs Hr. unfold parse_values. cbn [parse_values_loop].
  assert (ts ≠ [] ∧ lacks ":" ts) as [Hn Hc] by (destruct Hts as [[-> _]|(_ & ? & ? & _)]; [by split; [|repeat constructor]|done]).
  assert (strtok $":" (join $":" (ts :: texts)) = Some (ts, join $":" texts)) as ->.
  { destruct texts as [|s texts]; [done|]. cbn [join]. by apply strtok_first. }
  cbn [vl_values set_vl_time vl_time Z.eqb]. destruct texts as [|s0 texts]; [done|]. set (l := s0 :: texts) in *.
  assert (0 < length l)%nat as Hpos by (cbn [l length]; lia).
  destruct (Nat.leb_spec (length (vl_values vl)) 0) as [?|_]; [lia|].
  destruct (values_loop_ok now (set_vl_time t vl) ds (vl_values vl) l
    (length (join $":" (ts :: l))) [] vs) as (vl' & E & Hvl'); [done..|cbn [length]; lia| |].
  { cbn [l join]. rewrite !length_app. destruct ts; [done|]. cbn [length]. lia. }
  rewrite Nat.add_0_r in E, Hvl'. specialize (Hvl' ltac:(lia)).
  assert ((length l =? 0)%nat || (length (vl_values vl) <? length l)%nat = false) as Hb.
  { destruct (Nat.eqb_spec (length l) 0); [lia|]. destruct (Nat.ltb_spec (length (vl_values vl)) (length l)); [lia|done]. }
  rewrite Hb in E. cbn [app length drop] in E, Hvl'.
  assert (length vs = length l) as Hlvs by (apply Forall2_length in Hr; rewrite length_zip_with in Hr; lia).
  rewrite drop_ge, app_nil_r in Hvl' by lia. subst vl'.
  destruct Hts as [[-> ->]|(HN & _ & _ & x & Ex & Et)].
  - cbn [strcmp]. rewrite Z.eqb_refl. exact E.
  - destruct (Z.eqb_spec (strcmp $"N" ts) 0) as [E0%strcmp_eq|_]; [by subst ts|]. rewrite Ex. cbn [sd_errno sd_consumed sd_value].
    rewrite Nat.eqb_refl. destruct (Nat.eqb_spec (length ts) 0) as [E0%nil_length_inv|_]; [done|]. cbn [orb negb].
    rewrite Et. cbn [mopt]. rewrite bind_ret. exact E.
Qed.

(** The value list that is dispatched. *)
Definition received (vl : lcc_value_list_t) (t iv : Z) (vs : list value_t) : value_list_t :=
  let i := identifier vl in
  set_values vs (set_vl_time t (set_vl_interval iv
    (set_names (host i) (plugin i) (plugin_instance i) (type i) (type_instance i) VALUE_LIST_INIT))).

Lemma parse_putval_ok ds vl t iv vs : sendable now ds vl t iv vs → get_ds (type (identifier vl)) = Some ds →
  cmd_parse_putval now get_ds (tail (map arg_text (putval_args vl))) default_options ⇓
    (CMD_OK, [], {| pv_raw_identifier := Some (ident_text (identifier vl)); pv_vl := [(received vl t iv vs, false)]; pv_meta := None |}).
Proof.
  intros (Hi & _ & Ht & Hnow & Hiv & Hne & Hl & Hv & _) Hds. destruct (values_nonempty (set_ds ds) (values vl) vs Hl Hv) as [Hw Hr].
  unfold putval_args. cbn [map tail arg_text a_plain a_quoted app]. unfold cmd_parse_putval.
  rewrite map_app. unfold interval_arg.
  assert (∀ (l : list cstr) x, (length (l ++ [x]) =? 0)%nat = false) as Hlen.
  { intros l x. rewrite length_app. cbn [length]. destruct (Nat.eqb_spec (length l + 1) 0); [lia|done]. }
  cbn [map]. rewrite Hlen. cbn [identifier_default_host default_options].
  destruct Hi as [Hn _]. unfold ident_text at 1. rewrite parse_formatted by done. rewrite bind_ret. cbn [negb Z.eqb].
  replace (match plugin_instance (identifier vl) with [] => vl_plugin_instance VALUE_LIST_INIT | _ => plugin_instance (identifier vl) end)
    with (plugin_instance (identifier vl)) by by destruct (plugin_instance _).
  replace (match type_instance (identifier vl) with [] => vl_type_instance VALUE_LIST_INIT | _ => type_instance (identifier vl) end)
    with (type_instance (identifier vl)) by by destruct (type_instance _).
  set (vl0 := set_names _ _ _ _ _ VALUE_LIST_INIT).
  assert (vl_type vl0 = type (identifier vl)) as -> by done. rewrite Hds.
  eapply yields_bind; [apply yields_alloc|]. cbn [negb].
  set (p0 := {| pv_raw_identifier := _; pv_vl := []; pv_meta := None |}).
  set (a := arg_text (plain_arg (join $":" (time_text vl :: map value_text (values vl))))).
  assert (∀ vl1, putval_loop now ds [a] vl1 None p0 ⇓ (CMD_OK, [],
    {| pv_raw_identifier := pv_raw_identifier p0; pv_vl := [(set_values vs (set_vl_time t vl1), false)]; pv_meta := None |})) as Hlast.
  { intros vl1. cbn [putval_loop]. assert (a = join $":" (time_text vl :: map value_text (values vl))) as Ea
      by (unfold a, arg_text; cbn [a_plain a_quoted plain_arg]; by rewrite app_nil_r).
    assert (cmd_parse_option a = (CMD_NO_OPTION, [], [])) as ->.
    { assert (Forall (λ c, c ≠ "="%char) a) as Hlack.
      { rewrite Ea, join_cons. apply list.Forall_app. split.
        - unfold time_text. destruct (flt fzero (vl_time vl)); [|by repeat constructor]. destruct Ht as ([_ Hs] & _).
          eapply list.Forall_impl; [exact Hs|]. by intros c (_ & ? & _).
        - clear -Hw. induction Hw as [|lv lvs [_ Hlv] _ IH]; [constructor|]. cbn [map concat]. apply list.Forall_app. split; [|done].
          apply Forall_cons_2; [done|]. eapply list.Forall_impl; [exact Hlv|]. by intros c (_ & ? & _). }
      unfold cmd_parse_option. destruct (a !! span_len is_key_char a) as [c|] eqn:Ec; [|by rewrite bool_decide_eq_false_2].
      rewrite bool_decide_eq_false_2; [done|]. intros [= ->]. eapply Forall_lookup_1 in Hlack; [|exact Ec]. done. }
    eapply yields_bind; [apply yields_alloc|]. cbn [negb]. rewrite Ea.
    eapply yields_bind.
    { apply (parse_values_timed _ _ _ _ vs t).
      - destruct (flt fzero (vl_time vl)); [by destruct Ht as (_ & _ & ? & _)|by subst t].
      - by destruct (values vl).
      - unfold time_text. destruct (flt fzero (vl_time vl)); [right|by left]. destruct Ht as (Hwt & HN & _ & x & E1 & _ & E2).
        split_and!; [done|apply Hwt|by apply word_lacks|by exists x].
      - by rewrite length_map.
      - cbn [vl_values set_values]. by rewrite length_replicate.
      - apply Forall_map. eapply list.Forall_impl; [exact Hw|]. intros lv Hlv. split; [apply Hlv|by apply word_lacks].
      - done. }
    cbv beta iota. cbn [negb Z.eqb]. eapply yields_bind; [apply yields_alloc|]. cbn [negb]. rewrite bool_decide_eq_false_2 by (by intros []). done. }
  eapply (yields_bind _ _ (CMD_OK, [], {| pv_raw_identifier := pv_raw_identifier p0; pv_vl := [(received vl t iv vs, false)]; pv_meta := None |}));
    [|cbv beta iota; by rewrite bool_decide_eq_true_2].
  unfold received. fold vl0. destruct (flt fzero (vl_interval vl)); cbn [map app]; [|rewrite Hiv; apply Hlast].
  destruct Hiv as (Hwi & _ & _ & x & E1 & E2 & E3). cbn [putval_loop].
  assert (arg_text (plain_arg ($"interval=" ++ format_fixed3 (vl_interval vl))) = $"interval" ++ "="%char :: format_fixed3 (vl_interval vl)) as ->
    by (unfold arg_text; cbn [a_plain a_quoted plain_arg]; by rewrite app_nil_r).
  rewrite parse_option_key by (done || by repeat constructor). unfold putval_set_option.
  change (strcasecmp $"interval" $"interval" =? 0) with true. cbv iota zeta. rewrite E1. cbn [sd_errno sd_consumed sd_value]. rewrite E2.
  destruct (Nat.eqb_spec (length (format_fixed3 (vl_interval vl))) 0) as [E0%nil_length_inv|_]; [by destruct Hwi|]. cbn [negb andb].
  rewrite E3. cbn [mopt]. rewrite !bind_ret. rewrite bool_decide_eq_true_2 by done. cbn [orb].
  apply (Hlast (set_vl_interval iv vl0)).
Qed.

(** What the handler of PUTVAL does with the line. *)
Lemma handle_putval_ok ds vl t iv vs : sendable now ds vl t iv vs → get_ds (type (identifier vl)) = Some ds →
  cmd_handle_putval now hostname_g get_ds false (putval_text vl ++ [NUL]) ⇓ (CMD_OK, [r_status CMD_OK], [received vl t iv vs]).
Proof.
  intros Hs Hds. pose proof (putval_args_ok _ _ _ _ _ _ Hs) as Hargs. pose proof (parse_putval_ok _ _ _ _ _ Hs Hds) as Hp.
  unfold cmd_handle_putval, handle.
  assert (putval_text vl ++ [NUL] = [] ++ render_line (line_of (putval_args vl)) ++ NUL :: []) as -> by by rewrite render_line_of.
  eapply yields_bind.
  { unfold cmd_parse. eapply yields_bind; [apply cmd_split_ok; [constructor|by apply line_of_ok]|]. cbv beta iota.
    rewrite bool_decide_eq_true_2 by done. rewrite line_of_text.
    change (map arg_text (putval_args vl)) with ($"PUTVAL" :: tail (map arg_text (putval_args vl))). unfold cmd_parsev.
    change (strcasecmp $"FLUSH" $"PUTVAL" =? 0) with false. change (strcasecmp $"GETVAL" $"PUTVAL" =? 0) with false.
    change (strcasecmp $"LISTVAL" $"PUTVAL" =? 0) with false. change (strcasecmp $"PUTVAL" $"PUTVAL" =? 0) with true. cbv iota.
    eapply yields_bind; [exact Hp|]. cbv beta iota. apply yields_ret. }
  cbv beta iota. rewrite bool_decide_eq_true_2 by done. cbn [negb mopt]. rewrite bind_ret. cbn [ct_type ct_cmd].
  rewrite !bool_decide_eq_true_2 by done. cbn [negb mopt]. rewrite bind_ret. cbn [pv_vl map snd fst]. done.
Qed.
End received.

(** ** Lines *)

Lemma trim_line_ok (line : cstr) (c : ascii) : is_line_end c = false → trim_line ((line ++ [c]) ++ CR_LF) = line ++ [c].
Proof.
  intros Hc. unfold trim_line. rewrite rev_app_distr. cbn [CR_LF rev app span_len].
  change (is_line_end "010"%char) with true. change (is_line_end "013"%char) with true. cbv iota.
  rewrite rev_app_distr. cbn [rev app span_len]. rewrite Hc. cbn [drop rev]. by rewrite rev_involutive.
Qed.

Lemma c_str_id s : no_nul s → c_str s = s.
Proof.
  intros Hs. unfold c_str. rewrite span_len_all; [by rewrite take_ge|]. eapply list.Forall_impl; [exact Hs|]. cbv beta.
  intros c Hc. by rewrite bool_decide_eq_false_2.
Qed.

(** A line that ends in a character that is not a line end reaches the server
    as it was sent. *)
Lemma fgets_command (line : cstr) (c : ascii) : Forall (λ c, c ≠ NUL ∧ c ≠ TypesDb.newline) (line ++ [c]) → is_line_end c = false →
  (length (line ++ [c]) ≤ 1021)%nat →
  TypesDb.fgets 1024 ((line ++ [c]) ++ CR_LF) = Some ((line ++ [c]) ++ CR_LF, []) ∧
  trim_line (c_str ((line ++ [c]) ++ CR_LF)) = line ++ [c].
Proof.
  intros Hl Hc Hlen. split.
  - change CR_LF with (["013"%char] ++ TypesDb.newline :: []). rewrite app_assoc. rewrite TypesDb.fgets_newline; [done| |].
    + apply list.Forall_app. split; [|by apply Forall_singleton]. eapply list.Forall_impl; [exact Hl|]. by intros x [_ ?].
    + rewrite length_app. cbn [length]. lia.
  - rewrite c_str_id; [by apply trim_line_ok|]. apply list.Forall_app. split; [|by repeat constructor].
    eapply list.Forall_impl; [exact Hl|]. by intros x [? _].
Qed.

Lemma word_line s : word_ok s → Forall (λ c, c ≠ NUL ∧ c ≠ TypesDb.newline) s.
Proof.
  intros [_ Hs]. eapply list.Forall_impl; [exact Hs|]. intros c [(Hn & _ & Hsp) _]. split; [done|]. intros ->. by vm_compute in Hsp.
Qed.

Section command.
Context `{Strtod, FormatFixed3, FormatG}.

(** The end of the command: the time and the values. *)
Definition tail_text (vl : lcc_value_list_t) : cstr := time_text vl ++ concat (map (λ v, ":"%char :: value_text v) (values vl)).

Lemma tail_word now ds vl t iv vs : sendable now ds vl t iv vs →
  Forall (λ c, plain_char c) (tail_text vl) ∧ tail_text vl ≠ [].
Proof.
  intros (_ & _ & Ht & _ & _ & _ & Hl & Hv & _). destruct (values_nonempty (set_ds ds) (values vl) vs Hl Hv) as [Hw _].
  assert (word_ok (time_text vl)) as [Hne Hp].
  { unfold time_text. destruct (flt fzero (vl_time vl)); [apply Ht|]. split; [done|]. apply Forall_singleton. by split_and!; vm_compute. }
  unfold tail_text. split; [|by destruct (time_text vl)]. apply list.Forall_app. split.
  - eapply list.Forall_impl; [exact Hp|]. by intros c [? _].
  - clear -Hw. induction Hw as [|lv lvs [_ Hlv] _ IH]; [constructor|]. cbn [map concat]. apply list.Forall_app. split; [|done].
    apply Forall_cons_2; [by split_and!; vm_compute|]. eapply list.Forall_impl; [exact Hlv|]. by intros c [? _].
Qed.

Lemma text_line now ds vl t iv vs : sendable now ds vl t iv vs → ∃ u c, putval_text vl = u ++ [c] ∧ is_line_end c = false ∧
  Forall (λ c, c ≠ NUL ∧ c ≠ TypesDb.newline) (u ++ [c]).
Proof.
  intros Hs. destruct (tail_word _ _ _ _ _ _ Hs) as [Hp Hne]. destruct (exists_last Hne) as (w & c & Ew).
  destruct Hs as (Hi & Hnl & _ & _ & Hiv & _).
  set (A := $"PUTVAL " ++ (QUOTE :: escape (ident_text (identifier vl)) ++ [QUOTE]) ++
    (if flt fzero (vl_interval vl) then $" interval=" ++ format_fixed3 (vl_interval vl) else []) ++ $" ").
  assert (putval_text vl = A ++ tail_text vl) as E.
  { rewrite text_parts. unfold A, tail_text. by rewrite <-!app_assoc. }
  exists (A ++ w), c. rewrite <-app_assoc, <-Ew, E. split; [done|]. split.
  - rewrite Ew in Hp. apply list.Forall_app in Hp as [_ Hc]. apply Forall_cons_1 in Hc as [(_ & _ & Hc) _].
    unfold is_line_end. apply orb_false_iff. split; apply bool_decide_eq_false_2; intros ->; by vm_compute in Hc.
  - apply list.Forall_app. split.
    + unfold A. apply list.Forall_app. split; [by repeat constructor|]. cbn [app]. apply Forall_cons_2; [done|]. rewrite <-app_assoc.
      apply list.Forall_app. split.
      * destruct Hi as [Hn _]. apply no_nul_name_text in Hn. fold (ident_text (identifier vl)) in Hn. clear -Hn Hnl.
        induction (ident_text (identifier vl)) as [|c s IH]; [constructor|]. apply Forall_cons_1 in Hn as [? Hn].
        apply Forall_cons_1 in Hnl as [? Hnl]. rewrite escape_cons. apply list.Forall_app. split; [|by apply IH].
        by destruct (quoted c); repeat constructor.
      * apply Forall_cons_2; [done|]. apply list.Forall_app. split; [|by repeat constructor].
        destruct (flt fzero (vl_interval vl)); [|constructor]. destruct Hiv as (Hwi & _).
        apply list.Forall_app. split; [by repeat constructor|by apply word_line].
    + eapply list.Forall_impl; [exact Hp|]. intros x (? & _ & Hsp). split; [done|]. intros ->. by vm_compute in Hsp.
Qed.
End command.

Lemma span_le p a c (w : cstr) : p c = false → (span_len p (a ++ c :: w) ≤ length a)%nat.
Proof. intros Hc. induction a as [|x a IH]; cbn [app span_len length]; [by rewrite Hc|]. destruct (p x); lia. Qed.

Lemma chomp_keeps u c v : chomp_char c = false → ∃ v', lcc_chomp (u ++ c :: v) = u ++ c :: v'.
Proof.
  intros Hc. unfold lcc_chomp. assert (rev (u ++ c :: v) = rev v ++ c :: rev u) as -> by by rewrite rev_app_distr; cbn [rev]; rewrite <-app_assoc.
  pose proof (span_le chomp_char (rev v) c (rev u) Hc) as Hle. set (n := span_len _ _) in *.
  exists (rev (drop n (rev v))). rewrite drop_app_le by done. rewrite rev_app_distr. cbn [rev]. by rewrite rev_involutive, <-app_assoc.
Qed.

(** The answer to a command that succeeded. *)
Lemma receive_success {W} `{Peer W} (w : W) m : Forall (λ c, c ≠ NUL ∧ c ≠ TypesDb.newline) m → (length m ≤ 1023)%nat →
  ∃ msg, lcc_receive (mk_stream w ($"0 " ++ m ++ [TypesDb.newline])) ⇓ (0, Some (mk_response 0 msg []), mk_stream w []).
Proof.
  intros Hm Hlen. destruct (chomp_keeps $"0" " "%char (m ++ [TypesDb.newline])) as [m' Em]; [done|].
  exists (take 1023 (skip_blanks (" "%char :: m'))). unfold lcc_receive. cbn [incoming peer_state].
  assert (TypesDb.fgets 4096 ($"0 " ++ m ++ [TypesDb.newline]) = Some (($"0 " ++ m) ++ [TypesDb.newline], [])) as ->.
  { rewrite app_assoc. apply TypesDb.fgets_newline.
    - apply list.Forall_app. split; [by repeat constructor|]. eapply list.Forall_impl; [exact Hm|]. by intros c [_ ?].
    - rewrite length_app. cbn [length list_ascii_of_string]. lia. }
  cbv beta iota zeta. rewrite c_str_id.
  2: { apply list.Forall_app. split; [|by repeat constructor]. apply list.Forall_app. split; [by repeat constructor|].
       eapply list.Forall_impl; [exact Hm|]. by intros c [? _]. }
  rewrite <-app_assoc. change ($"0 " ++ m ++ [TypesDb.newline]) with ($"0" ++ " "%char :: m ++ [TypesDb.newline]). rewrite Em.
  assert (strtol ($"0" ++ " "%char :: m') = Some (0, " "%char :: m')) as ->.
  { unfold strtol. assert (scan_number ($"0" ++ " "%char :: m') = Some (false, 0, 1%nat)) as ->; [|done].
    unfold scan_number. cbn [app list_ascii_of_string span_len]. change (isspace "0"%char) with false. cbv iota. cbn [drop split_sign].
    rewrite !bool_decide_eq_false_2 by done. destruct m' as [|d m']; cbn [split_base].
    - f_equal.
    - rewrite bool_decide_eq_false_2 by done. cbn [andb]. cbn [span_len]. change (is_base_digit 8 "0"%char) with true.
      change (is_base_digit 8 " "%char) with false. cbv iota. cbn [Nat.eqb take drop length]. f_equal. f_equal. lia. }
  done.
Qed.

(** ** Client and server *)

Section composed.
Context `{Sysconf, Strtod, MetaData.FormatGauge, FormatFixed3, FormatG} {T : Type → Type} `{!KeyedMap cstr T}.
Context (now : Z) (hostname_g : cstr) (get_ds : cstr → option data_set_t).
Context (plugin_flush : option cstr → Z → option cstr → Z) (message_text : cstr → cmd_status_t → cstr).

Notation the_peer := (us_peer now hostname_g get_ds plugin_flush message_text).

(** No message holds a newline. *)
Definition messages_ok : Prop := ∀ line st, Forall (λ c, c ≠ NUL ∧ c ≠ TypesDb.newline) (message_text line st).

(** The server's side of a command of one line. *)
Lemma peer_line u c sv sv' o : Forall (λ c, c ≠ NUL ∧ c ≠ TypesDb.newline) (u ++ [c]) → is_line_end c = false → (length (u ++ [c]) ≤ 1021)%nat →
  us_command now hostname_g get_ds plugin_flush message_text (u ++ [c]) sv ⇓ (sv', o, true) →
  the_peer sv ((u ++ [c]) ++ CR_LF) ⇓ Some (sv', o).
Proof.
  intros Hl Hc Hlen E. destruct (fgets_command u c Hl Hc Hlen) as [Ef Et]. unfold us_peer.
  eapply yields_bind; [|apply yields_ret]. cbn [us_handle_client]. rewrite Ef, Et.
  assert (∀ A (x : A) f, match u ++ [c] with [] => x | a :: l => f (a :: l) end = f (u ++ [c])) as Hm by (intros; by destruct u).
  rewrite (Hm _ _ (λ line, let* '(sv0, o0, go_on) := us_command now hostname_g get_ds plugin_flush message_text line sv in
    if go_on : bool then _ else _)).
  eapply yields_bind; [exact E|]. cbv beta iota.
  destruct (length ((u ++ [c]) ++ CR_LF)) eqn:El; [by rewrite !length_app in El; cbn in El; lia|]. done.
Qed.

Lemma words_command w s : w ≠ [] → Forall (λ c, blank c = false) w → words (w ++ " "%char :: s) = w :: words s.
Proof.
  intros Hne Hw. unfold words. rewrite words_acc_run, app_nil_r by done. cbn [words_acc]. change (blank " "%char) with true. cbv iota.
  destruct (rev w) as [|x l] eqn:E; [|by rewrite <-E, rev_involutive].
  apply (f_equal (@rev _)) in E. by rewrite rev_involutive in E.
Qed.

End composed.

(** ** The other answers *)

(** A line without NUL and newline that fits into the buffer of the client. *)
Definition answer_line (l : cstr) : Prop := Forall (λ c, c ≠ NUL ∧ c ≠ TypesDb.newline) l ∧ (length l < 4095)%nat.

Lemma fgets_answer l rest : answer_line l → TypesDb.fgets 4096 (l ++ TypesDb.newline :: rest) = Some (l ++ [TypesDb.newline], rest) ∧
  c_str (l ++ [TypesDb.newline]) = l ++ [TypesDb.newline].
Proof.
  intros [Hl Hlen]. split.
  - apply TypesDb.fgets_newline; [eapply list.Forall_impl; [exact Hl|]; by intros c [_ ?]|lia].
  - apply c_str_id, list.Forall_app. split; [eapply list.Forall_impl; [exact Hl|]; by intros c [? _]|by repeat constructor].
Qed.

Lemma chomp_newline l : lcc_chomp (l ++ [TypesDb.newline]) = lcc_chomp l.
Proof. unfold lcc_chomp. rewrite rev_app_distr. cbn [rev app span_len]. by change (chomp_char TypesDb.newline) with true. Qed.

Lemma receive_lines_ok ls rest : Forall answer_line ls →
  receive_lines (length ls) (concat (map (λ l, l ++ [TypesDb.newline]) ls) ++ rest) ⇓ (Some (map lcc_chomp ls), rest).
Proof.
  induction 1 as [|l ls Hl _ IH]; [done|]. cbn [map concat length receive_lines]. rewrite <-!app_assoc. cbn [app].
  destruct (fgets_answer l (concat (map (λ l, l ++ [TypesDb.newline]) ls) ++ rest) Hl) as [-> ->].
  eapply yields_bind; [apply yields_alloc|]. cbn [negb]. eapply yields_bind; [exact IH|]. cbv beta iota. by rewrite chomp_newline.
Qed.

Lemma scan_count z s : 0 < z → scan_number (decimal z ++ " "%char :: s) = Some (false, z, length (decimal z)).
Proof.
  intros Hz. destruct (decimal_spec z) as (Hd & Hv & (d & t & Hd0 & E & Hpos) & _); [lia|]. specialize (Hpos Hz).
  assert (isdigit (digit_chr d) = true) as Hd1 by (rewrite E in Hd; by apply Forall_cons_1 in Hd as [? _]).
  apply isdigit_base in Hd1 as (_ & Hsp & Hm & Hp & _).
  unfold scan_number. assert (span_len isspace (decimal z ++ " "%char :: s) = 0%nat) as -> by (rewrite E; cbn [app span_len]; by rewrite Hsp).
  rewrite drop_0. assert (split_sign (decimal z ++ " "%char :: s) = (false, decimal z ++ " "%char :: s)) as ->
    by (rewrite E; cbn [app split_sign]; by rewrite !bool_decide_eq_false_2).
  assert (split_base (decimal z ++ " "%char :: s) = (10, decimal z ++ " "%char :: s)) as ->.
  { rewrite E. assert (d = 1 ∨ d = 2 ∨ d = 3 ∨ d = 4 ∨ d = 5 ∨ d = 6 ∨ d = 7 ∨ d = 8 ∨ d = 9) as Hds by lia.
    destruct_or! Hds; by subst d. }
  assert (Forall (λ c, is_base_digit 10 c = true) (decimal z)) as Hb.
  { eapply list.Forall_impl; [exact Hd|]. intros c Hc. by apply isdigit_base. }
  rewrite span_len_app_stop by done. rewrite take_app_length, drop_app_length, Hv, length_app. cbn [length].
  destruct (Nat.eqb_spec (length (decimal z)) 0) as [E0|_]; [by rewrite E in E0|]. f_equal. f_equal. lia.
Qed.

(** An answer of a positive number of lines: the client reads exactly
    these lines, without the control characters at their ends, and leaves what
    follows for the next answer. *)
Theorem lcc_receive_lines {W} `{Peer W} (w : W) msg ls rest : ls ≠ [] → Z.of_nat (length ls) < 2 ^ 31 → Forall answer_line ls →
  answer_line (decimal (Z.of_nat (length ls)) ++ $" " ++ msg) →
  ∃ text, lcc_receive (mk_stream w ((decimal (Z.of_nat (length ls)) ++ $" " ++ msg) ++ TypesDb.newline ::
      concat (map (λ l, l ++ [TypesDb.newline]) ls) ++ rest)) ⇓
    (0, Some (mk_response 0 text (map lcc_chomp ls)), mk_stream w rest).
Proof.
  intros Hne Hn Hls Hfirst. set (n := Z.of_nat (length ls)) in *.
  assert (0 < n) as Hpos by (unfold n; destruct ls; [done|cbn [length]; lia]).
  destruct (chomp_keeps (decimal n) " "%char msg) as [m' Em]; [done|].
  exists (take 1023 (skip_blanks (" "%char :: m'))). unfold lcc_receive. cbn [incoming peer_state].
  destruct (fgets_answer _ (concat (map (λ l, l ++ [TypesDb.newline]) ls) ++ rest) Hfirst) as [-> ->]. rewrite chomp_newline.
  change ($" " ++ msg) with (" "%char :: msg). rewrite Em.
  assert (strtol (decimal n ++ " "%char :: m') = Some (n, " "%char :: m')) as ->.
  { unfold strtol. rewrite scan_count by done. cbv iota. rewrite drop_app_length.
    destruct (Z.leb_spec (- 2 ^ 63) n), (Z.ltb_spec n (2 ^ 63)); (done || lia). }
  assert (i32 n = n) as -> by (unfold i32; rewrite Z.mod_small by lia; lia).
  destruct (Z.leb_spec n 0); [lia|]. eapply yields_bind; [apply yields_alloc|]. cbn [negb].
  unfold n at 1. rewrite Nat2Z.id. eapply yields_bind; [by apply receive_lines_ok|]. done.
Qed.

Lemma lcc_receive_lines_witness : let _ : Peer unit := λ _ _, ret None in
  ∃ text, lcc_receive (mk_stream tt ((decimal 2 ++ $" " ++ $"Values found") ++ TypesDb.newline ::
      concat (map (λ l, l ++ [TypesDb.newline]) [$"1.000 a/b/c"; $"2.000 d/e/f"]) ++ $"rest")) ⇓
    (0, Some (mk_response 0 text [$"1.000 a/b/c"; $"2.000 d/e/f"]), mk_stream tt $"rest").
Proof.
  intros p. apply (lcc_receive_lines tt $"Values found" [$"1.000 a/b/c"; $"2.000 d/e/f"] $"rest"); [done|done| |].
  - repeat (apply Forall_cons_2; [split; [apply (bool_decide_unpack _); by vm_compute|apply Nat.ltb_lt; by vm_compute]|]). constructor.
  - split; [apply (bool_decide_unpack _); by vm_compute|apply Nat.ltb_lt; by vm_compute].
Defined.

(** What the handler of GETVAL writes for a value it has found does not begin
    with a number: the client takes it for an error. *)
Theorem getval_answer_refused `{Strtod, FormatFixed3, FormatG} {W} `{Peer W} (w w' : W) i x wv wn id line message_text :
  escaped_identifier i = Some id →
  peer w (take (14 * LCC_NAME_LEN - 1) ($"GETVAL " ++ id) ++ CR_LF) ⇓ Some (w', replies message_text line [r_text $"Value found"; r_text x]) →
  ∃ c, lcc_getval (Some (mk_stream w [])) i wv wn ⇓ (-1, None, c).
Proof.
  intros Hid Hp.
  assert (lcc_receive (mk_stream w' (replies message_text line [r_text $"Value found"; r_text x])) ⇓
    (-1, None, mk_stream w' ((x ++ [TypesDb.newline]) ++ []))) as Er.
  { unfold lcc_receive. cbn [incoming peer_state]. unfold replies. cbn [map concat reply_text]. rewrite <-app_assoc.
    change ($"Value found" ++ [TypesDb.newline] ++ ?r) with ($"Value found" ++ TypesDb.newline :: r).
    destruct (fgets_answer $"Value found" (((x ++ [TypesDb.newline]) ++ []))) as [-> ->].
    { split; [apply (bool_decide_unpack _); by vm_compute|apply Nat.ltb_lt; by vm_compute]. }
    by replace (strtol _) with (@None (Z * cstr)) by by vm_compute. }
  eexists. unfold lcc_getval. rewrite Hid. unfold lcc_sendreceive. eapply yields_bind.
  { eapply yields_bind.
    { unfold lcc_send. cbn [peer_state incoming]. eapply yields_bind; [exact Hp|]. apply yields_ret. }
    cbv beta iota. cbn [negb Z.eqb app]. eapply yields_bind; [exact Er|]. cbv beta iota. apply yields_ret. }
  cbv beta iota. done.
Qed.

(** ** A client and a server at work *)

#[local] Existing Instances Avl.avl_map Avl.avl_laws.

Definition demo_g : FormatG := λ _, $"0".
Definition demo_ident : lcc_identifier_t := mk_ident $"leeloo" $"interface" $"eth 0" $"if_octets" [].
(** A DERIVE of -5 and a counter, sent every ten seconds. *)
Definition demo_values : lcc_value_list_t :=
  mk_lcc_vl [LCC_TYPE_DERIVE (2 ^ 64 - 5); LCC_TYPE_COUNTER 42] fzero (of_Z 10) demo_ident.
Definition demo_server : server := mk_server (Cache.mk_cache (T := Avl.c_avl_tree cstr) None false) [] [].
Definition demo_message : cstr → cmd_status_t → cstr := λ _ _, $"Success: 1 value has been dispatched.".


(** The commands PUTNOTIF and GETTHRESHOLD are swallowed: the client gets no
    answer at all. *)
Definition silent_line (s : string) : M (server (T := Avl.c_avl_tree cstr) * list ascii * bool) :=
  us_command (H := demo_page) (H0 := demo_strtod) (H1 := demo_gauge) (H2 := demo_fixed3) 7 $"h" (λ _, Some demo_ds) (λ _ _ _, 0) demo_message $s demo_server.
Lemma putnotif_no_answer : silent_line "PUTNOTIF severity=okay time=1 message=hello" ⇓ (demo_server, [], true) ∧
  silent_line "GETTHRESHOLD cpu_all" ⇓ (demo_server, [], true).
Proof. by split; vm_compute. Qed.
