(* ===== verification/FileIo.v ===== *)
(** * Files and descriptors (src/utils/common/common.c)

    The loops that read and write a whole buffer, the creation of the
    directories a file needs, and the helpers that read a number from a file.
    The kernel is a parameter: for a descriptor the script of its answers, for
    the directories a type of worlds with [stat] and [mkdir]. *)

From Stdlib Require Import ZArith Lia Ascii String SpecFloat.
From stdpp Require Import base numbers option list.
From S2P Require Import Prelude MapSpec Double StrBuf LabelSet CommonStr Metric Values.
From S2P Require Cache Commands MetaData TypesDb Cpu Avl.

(** ** Whole buffers *)

(** What the kernel has for a call of [read] or [write]: so many bytes, of
    which it moves no more than were asked for, a call to be repeated (EAGAIN,
    EINTR), or an error. *)
Inductive io_result : Type := io_done (n : nat) | io_again | io_error (errno : Z).

(** [sread]: the status and what was stored; [None] while the descriptor has
    not answered.  [input] is what there is to be read. *)
Fixpoint sread (script : list io_result) (input : list ascii) (nleft : nat) : option (Z * list ascii) :=
  match nleft with
  | O => Some (0, [])
  | S _ =>
      match script with
      | [] => None
      | io_again :: script => sread script input nleft
      | io_error _ :: _ => Some (-1, [])
      | io_done O :: _ => Some (-1, [])
      | io_done n :: script =>
          let k := Nat.min n nleft in
          '(status, buf) ← sread script (drop k input) (nleft - k); Some (status, take k input ++ buf)
      end
  end.

(** The loop of [swrite]: the status and what was written. *)
Fixpoint swrite_loop (script : list io_result) (ptr : list ascii) : option (Z * list ascii) :=
  match ptr with
  | [] => Some (0, [])
  | _ =>
      match script with
      | [] => None
      | io_again :: script => swrite_loop script ptr
      | io_error errno :: _ => Some (if negb (errno =? 0) then errno else -1, [])
      | io_done n :: script => '(status, out) ← swrite_loop script (drop n ptr); Some (status, take n ptr ++ out)
      end
  end.
Definition swrite (fd : Z) (peer_closed : bool) (script : list io_result) (buf : list ascii) : option (Z * list ascii) :=
  if fd <? 0 then Some (EINVAL, []) else if peer_closed then Some (-1, []) else swrite_loop script buf.

(** ** Directories *)

(** [stat], and [lstat] where it fails. *)
Inductive stat_result : Type := st_dir | st_other | st_absent | st_failed.
Class Directories (W : Type) : Type := {
  lookup_path : W → cstr → stat_result;
  mkdir : W → cstr → Z * W;
}.

(** The components, at most [n] of them. *)
Fixpoint components (n : nat) (s : cstr) : list cstr :=
  match n with
  | O => []
  | S n => match strtok $"/" s with None => [] | Some (f, rest) => f :: components n rest end
  end.

Section directories.
Context {W : Type} `{Directories W}.

(** The [while (42)] for one directory: status, world and what was created.
    It goes round again only when another thread was faster. *)
Fixpoint make_dir (fuel : nat) (dir : cstr) (w : W) : option (Z * W * list cstr) :=
  match fuel with
  | O => None
  | S fuel =>
      match lookup_path w dir with
      | st_dir => Some (0, w, [])
      | st_other | st_failed => Some (-1, w, [])
      | st_absent =>
          let '(e, w) := mkdir w dir in
          if e =? 0 then Some (0, w, [dir]) else if e =? EEXIST then make_dir fuel dir w else Some (-1, w, [])
      end
  end.

(** The directory of the first [i + 1] components. *)
Definition dir_name (absolute : bool) (fields : list cstr) (i : nat) : cstr :=
  (if absolute then $"/" else []) ++ join $"/" (take (S i) fields).

Fixpoint dirs_loop (fuel : nat) (absolute : bool) (fields : list cstr) (idx : list nat) (w : W) : option (Z * W * list cstr) :=
  match idx with
  | [] => Some (0, w, [])
  | i :: idx =>
      if bool_decide (head (default [] (fields !! i)) = Some "."%char) then Some (-2, w, [])
      else
        '(status, w, made) ← make_dir fuel (dir_name absolute fields i) w;
        if negb (status =? 0) then Some (status, w, made)
        else '(status, w, made2) ← dirs_loop fuel absolute fields idx w; Some (status, w, made ++ made2)
  end.

Definition dir_fields (file_orig : cstr) : list cstr := components 16 file_orig.
(** How many of the components are directories. *)
Definition dirs_num (file_orig : cstr) : nat :=
  length (dir_fields file_orig) - (if bool_decide (last file_orig = Some "/"%char) then 0 else 1).
Definition is_absolute (file_orig : cstr) : bool := bool_decide (head file_orig = Some "/"%char).

Definition check_create_dir (fuel : nat) (file_orig : cstr) (w : W) : option (Z * W * list cstr) :=
  if (length file_orig <? 1)%nat || (Cpu.PATH_MAX <=? length file_orig)%nat then Some (-1, w, [])
  else dirs_loop fuel (is_absolute file_orig) (dir_fields file_orig) (seq 0 (dirs_num file_orig)) w.
End directories.

(** ** Numbers *)

Section numbers.
Context `{Strtod}.

Definition strtogauge (string : cstr) : Z * option double :=
  let r := strtod string in
  if sd_errno r then (ERANGE, None)
  else if negb (sd_consumed r =? length string)%nat then (EINVAL, None)
  else (0, Some (sd_value r)).

Context `{Cpu.Filesystem}.

Definition parse_value_file (path : cstr) (ds_type : Z) : M (Z * option value_t) :=
  match Cpu.file_contents path with
  | None => ret (-1, None)
  | Some fh =>
      match TypesDb.fgets 256 fh with
      | None => ret (-1, None)
      | Some (buffer, _) =>
          let* '(_, buffer) := strstripnewline (buffer ++ [NUL]) in
          parse_value (Some (c_str buffer)) ds_type
      end
  end.

(** The number of bytes with the NUL, and the bytes. *)
Definition read_text_file_contents (filename : cstr) (bufsize : nat) : Z * list ascii :=
  match Cpu.read_file_contents filename (bufsize - 1) with
  | None => (-1, [])
  | Some bytes => (Z.of_nat (length bytes) + 1, bytes ++ [NUL])
  end.
End numbers.

(** ** Values as text *)

Section values.
Context `{Sysconf, MetaData.FormatGauge, Commands.FormatFixed3} {T : Type → Type} `{!KeyedMap cstr T}.

Definition gauge_or_nan (d : double) : cstr := if is_nan d then $":nan" else $":" ++ MetaData.format_gauge d.

(** The bits of a double; those of a NaN are unknown. *)
Definition bits_of_double (d : double) : option Z :=
  let sign (s : bool) := if s then 2 ^ 63 else 0 in
  match d with
  | S754_zero s => Some (sign s)
  | S754_infinity s => Some (sign s + 0x7ff * 2 ^ 52)
  | S754_nan => None
  | S754_finite s p e => Some (sign s + if Z.pos p <? 2 ^ 52 then Z.pos p else (e + 1075) * 2 ^ 52 + (Z.pos p - 2 ^ 52))
  end.
(** [value.derive] *)
Definition union_derive (v : value_t) : M Z :=
  match v with
  | v_derive d => ret d
  | v_counter n => ret (i64 n)
  | v_gauge g => let* b := mopt (bits_of_double g) in ret (i64 b)
  | v_distribution _ => crash
  end.

(** The type of the family is compared with the number of a data source
    type: DERIVE is the number of an untyped metric, whose value is a gauge. *)
Definition format_values (buf : strbuf_t) (c : Cache.cache T) (fam : metric_family_t) (m : metric_t) (store_rates : bool) :
    M (Z * strbuf_t * Cache.cache T) :=
  let* buf := Commands.pr (λ b, strbuf_printf b (Commands.format_fixed3 (Cache.CDTIME_T_TO_DOUBLE (time m)))) buf in
  match type fam with
  | METRIC_TYPE_GAUGE =>
      let* g := mopt (Cache.as_gauge (m_value m)) in
      let* buf := Commands.pr (λ b, strbuf_print b (gauge_or_nan g)) buf in ret (0, buf, c)
  | ty =>
      if store_rates then
        let* '(status, rate, c) := Cache.uc_get_rate c fam m in
        if negb (status =? 0) then ret (status, buf, c)
        else
          let* g := mopt rate in
          let* buf := Commands.pr (λ b, strbuf_print b (gauge_or_nan g)) buf in ret (0, buf, c)
      else
        match ty with
        | METRIC_TYPE_COUNTER =>
            let* n := mopt (Cache.as_counter (m_value m)) in
            let* buf := Commands.pr (λ b, strbuf_printf b ($":" ++ decimal n)) buf in ret (0, buf, c)
        | METRIC_TYPE_UNTYPED =>
            let* d := union_derive (m_value m) in
            let* buf := Commands.pr (λ b, strbuf_printf b ($":" ++ decimal_signed d)) buf in ret (0, buf, c)
        | _ => ret (-1, buf, c)
        end
  end.
End values.

(** ** Everything is written *)

(** Answers without an error that move at least [n] bytes. *)
Fixpoint supplies (script : list io_result) (n : nat) : Prop :=
  match script with
  | [] => n = O
  | io_again :: script => supplies script n
  | io_done k :: script => (0 < k)%nat ∧ supplies script (n - k)
  | io_error _ :: _ => n = O
  end.

(** However the kernel cuts the data, [swrite] writes a prefix of it, and it
    returns 0 exactly when that is all; it does return 0 when the kernel takes
    everything without an error. *)
Theorem swrite_spec script buf :
  (∀ st out, swrite_loop script buf = Some (st, out) → out `prefix_of` buf ∧ (st = 0 ↔ out = buf)) ∧
  (supplies script (length buf) → swrite_loop script buf = Some (0, buf)).
Proof.
  revert buf. induction script as [|r script IH]; intros buf; (destruct buf as [|c buf]; [split; [intros st out [= <- <-]; by split|done]|split]).
  - by intros st out.
  - done.
  - intros st out. cbn [swrite_loop]. destruct r as [n| |e].
    + destruct (swrite_loop script (drop n (c :: buf))) as [[st' out']|] eqn:E; [|done]. cbn [mbind option_bind]. intros [= <- <-].
      destruct (IH (drop n (c :: buf))) as [IH1 _]. destruct (IH1 _ _ E) as [[k Hk] Hst]. split.
      * exists k. by rewrite <-app_assoc, <-Hk, take_drop.
      * rewrite Hst. split; [intros ->; apply take_drop|]. intros Heq. rewrite <-(take_drop n (c :: buf)) in Heq at 2.
        by apply app_inv_head in Heq.
    + apply IH.
    + intros [= <- <-]. split; [apply prefix_nil|]. destruct (Z.eqb_spec e 0); cbn [negb]; by split.
  - intros Hs. destruct r as [n| |e]; cbn [supplies swrite_loop] in *; [|by apply IH|done].
    destruct Hs as [Hn Hs]. destruct (IH (drop n (c :: buf))) as [_ IH2]. rewrite length_drop in IH2. rewrite IH2 by done.
    cbn [mbind option_bind]. by rewrite take_drop.
Qed.

(** The same for reading: a prefix of what was asked for; -1 at the end of the
    file. *)
Theorem sread_spec script input n : (n ≤ length input)%nat →
  (∀ st buf, sread script input n = Some (st, buf) → buf `prefix_of` input ∧ (st = 0 → (n ≤ length buf)%nat)) ∧
  (supplies script n → ∃ buf, sread script input n = Some (0, buf)).
Proof.
  revert input n. induction script as [|r script IH]; intros input n Hn; destruct n as [|n].
  1, 3: split; [intros st buf [= <- <-]; split; [apply prefix_nil|cbn; lia]|intros _; by eexists].
  - by split.
  - destruct r as [k| |e]; cbn [sread supplies].
    + destruct k as [|k].
      { split; [intros st buf [= <- <-]; split; [apply prefix_nil|done]|lia]. }
      assert (supplies script (S n - S k)%nat → supplies script (S n - Nat.min (S k) (S n))%nat) as Hmin.
      { by replace (S n - Nat.min (S k) (S n))%nat with (S n - S k)%nat by lia. }
      remember (Nat.min (S k) (S n)) as j eqn:Hj. 
      destruct (IH (drop j input) (S n - j)%nat) as [IH1 IH2]; [rewrite length_drop; lia|]. split.
      * intros st buf. destruct (sread script _ _) as [[st' buf']|] eqn:E; [|done]. cbn [mbind option_bind]. intros [= <- <-].
        destruct (IH1 _ _ eq_refl) as [[l Hl] Hlen]. split.
        -- exists l. by rewrite <-app_assoc, <-Hl, take_drop.
        -- intros Hst. specialize (Hlen Hst). rewrite length_app, length_take. lia.
      * intros [_ Hs]. destruct (IH2 (Hmin Hs)) as [buf ->]. by eexists.
    + by apply IH.
    + split; [|done]. intros st buf [= <- <-]. by split; [apply prefix_nil|].
Qed.

(** ** Directories are created *)

(** What [mkdir] does: a directory it made is there, none goes away, and a name
    that exists can be looked up. *)
Class DirectoryLaws (W : Type) `{Directories W} : Prop := {
  mkdir_made w d w' : mkdir w d = (0, w') → lookup_path w' d = st_dir;
  mkdir_keeps w d e w' d' : mkdir w d = (e, w') → lookup_path w d' = st_dir → lookup_path w' d' = st_dir;
  mkdir_exists w d w' : mkdir w d = (EEXIST, w') → lookup_path w' d ≠ st_absent;
}.

Section create.
Context {W : Type} `{DirectoryLaws W}.

Lemma make_dir_ok dir w : ∃ st w' made, make_dir 2 dir w = Some (st, w', made) ∧
  (st = 0 → lookup_path w' dir = st_dir) ∧ (made = [] ∨ made = [dir]) ∧
  ∀ d, lookup_path w d = st_dir → lookup_path w' d = st_dir.
Proof.
  cbn [make_dir]. destruct (lookup_path w dir) eqn:E.
  1: exists 0, w, []. 2, 4: exists (-1), w, []. 1-3: split_and!; [done|done|by left|done].
  destruct (mkdir w dir) as [e w1] eqn:Em.
  destruct (Z.eqb_spec e 0) as [->|Hne].
  { exists 0, w1, [dir]. split_and!; [done|intros _; by eapply mkdir_made|by right|]. intros d. by eapply mkdir_keeps. }
  destruct (Z.eqb_spec e EEXIST) as [->|Hne2].
  - pose proof (mkdir_exists _ _ _ Em). destruct (lookup_path w1 dir) eqn:E1; [| |done|].
    1: exists 0, w1, []. 2, 3: exists (-1), w1, []. all: split_and!; [done|done|by left|]; intros d; by eapply mkdir_keeps.
  - exists (-1), w1, []. split_and!; [done|done|by left|]. intros d. by eapply mkdir_keeps.
Qed.

(** No component up to [i] begins with a dot. *)
Definition undotted (fields : list cstr) (i : nat) : Prop :=
  ∀ j, (j ≤ i)%nat → head (default [] (fields !! j)) ≠ Some "."%char.

Lemma dirs_loop_ok abs fields n : ∀ k w, (∀ j, (j < k)%nat → head (default [] (fields !! j)) ≠ Some "."%char) →
  ∃ st w' made, dirs_loop 2 abs fields (seq k n) w = Some (st, w', made) ∧
  (st = 0 → ∀ i, (k ≤ i < k + n)%nat → lookup_path w' (dir_name abs fields i) = st_dir) ∧
  (∀ d, d ∈ made → ∃ i, (k ≤ i < k + n)%nat ∧ d = dir_name abs fields i ∧ undotted fields i) ∧
  ∀ d, lookup_path w d = st_dir → lookup_path w' d = st_dir.
Proof.
  induction n as [|n IH]; intros k w Hk; cbn [seq dirs_loop].
  { exists 0, w, []. split_and!; [done|lia| |done]. by intros d ?%elem_of_nil. }
  destruct (bool_decide_reflect (head (default [] (fields !! k)) = Some "."%char)) as [Hdot|Hdot].
  { exists (-2), w, []. split_and!; [done|done| |done]. by intros d ?%elem_of_nil. }
  assert (undotted fields k) as Hu. { intros j Hj. destruct (decide (j = k)) as [->|]; [done|apply Hk; lia]. }
  destruct (make_dir_ok (dir_name abs fields k) w) as (st1 & w1 & made1 & E1 & Hst1 & Hm1 & Hkeep1). rewrite E1. cbn [mbind option_bind].
  assert (∀ d, d ∈ made1 → d = dir_name abs fields k) as Hd1.
  { intros d. destruct Hm1 as [->| ->]; [by intros ?%elem_of_nil|]. by intros ->%list_elem_of_singleton. }
  destruct (Z.eqb_spec st1 0) as [->|Hne]; cbn [negb].
  - destruct (IH (S k) w1) as (st & w2 & made2 & E2 & Hst2 & Hm2 & Hkeep2); [intros j Hj; apply Hu; lia|]. rewrite E2. cbn [mbind option_bind].
    exists st, w2, (made1 ++ made2). split_and!; [done| | |by eauto].
    + intros Hst i Hi. destruct (decide (i = k)) as [->|]; [by apply Hkeep2, Hst1|apply Hst2; [done|lia]].
    + intros d [Hd|Hd]%elem_of_app; [exists k; split; [lia|]; by split; [apply Hd1|]|].
      destruct (Hm2 d Hd) as (i & ? & ? & ?). exists i. split; [lia|done].
  - exists st1, w1, made1. split_and!; [done|done| |done]. intros d Hd. exists k. split; [lia|]. by split; [apply Hd1|].
Qed.

(** [check_create_dir] always answers.  It only ever creates directories on
    the way to the file, none of whose components begins with a dot, and takes
    none away; when it answers 0 the directories of the first 16 components are
    there. *)
Theorem check_create_dir_spec file w : (0 < length file < Cpu.PATH_MAX)%nat →
  ∃ st w' made, check_create_dir 2 file w = Some (st, w', made) ∧
  (st = 0 → ∀ i, (i < dirs_num file)%nat → lookup_path w' (dir_name (is_absolute file) (dir_fields file) i) = st_dir) ∧
  (∀ d, d ∈ made → ∃ i, (i < dirs_num file)%nat ∧ d = dir_name (is_absolute file) (dir_fields file) i ∧
    undotted (dir_fields file) i) ∧
  ∀ d, lookup_path w d = st_dir → lookup_path w' d = st_dir.
Proof.
  intros Hl. unfold check_create_dir. destruct (Nat.ltb_spec (length file) 1); [lia|].
  destruct (Nat.leb_spec Cpu.PATH_MAX (length file)); [lia|]. cbn [orb].
  destruct (dirs_loop_ok (is_absolute file) (dir_fields file) (dirs_num file) 0 w) as (st & w' & made & E & Hd0 & Hmade & Hkeep); [lia|].
  exists st, w', made. split_and!; [done| | |done].
  - intros Hst i Hi. apply Hd0; [done|lia].
  - intros d Hd. destruct (Hmade d Hd) as (i & Hi & ? & ?). exists i. split; [lia|done].
Qed.
End create.

(** A world: the directories that are there, and those another thread makes
    first. *)
#[export] Instance demo_dirs : Directories (list cstr) := {|
  lookup_path w d := if bool_decide (d ∈ w) then st_dir else st_absent;
  mkdir w d := if bool_decide (d ∈ w) then (EEXIST, w) else (0, d :: w);
|}.
#[export] Instance demo_dirs_laws : DirectoryLaws (list cstr).
Proof.
  split; cbn.
  - intros w d w'. case_bool_decide; [done|]. intros [= <-]. by rewrite bool_decide_eq_true_2 by left.
  - intros w d e w' d' Hm Hd. case_bool_decide as Hin; [|done]. clear Hd.
    destruct (bool_decide_reflect (d ∈ w)); simplify_eq; rewrite bool_decide_eq_true_2; [done|done|done|by right].
  - intros w d w'. case_bool_decide; [|done]. intros [= <-]. by rewrite bool_decide_eq_true_2.
Qed.

Lemma check_create_dir_spec_witness : ∃ st w' made, check_create_dir 2 $"/var/lib/ncollectd/file" [$"/var"] = Some (st, w', made) ∧
  (∀ d, d ∈ made → d ∈ [$"/var"; $"/var/lib"; $"/var/lib/ncollectd"]) ∧ lookup_path w' $"/var" = st_dir.
Proof.
  destruct (check_create_dir_spec $"/var/lib/ncollectd/file" [$"/var"]) as (st & w' & made & E & H1 & H2 & H3).
  { split; apply Nat.ltb_lt; by vm_compute. }
  exists st, w', made. split_and!; [done| |by apply H3].
  intros d Hd. destruct (H2 d Hd) as (i & Hi & -> & _). change (dirs_num _) with 3%nat in Hi.
  destruct i as [|[|[|i]]]; [by left|by right; left|by right; right; left|lia].
Defined.

(** Of more than 16 components the rest is ignored: the answer is 0, but of the
    17 directories of this file 15 are made. *)
Lemma deep_directory_missing :
  (λ r : Z * list cstr * list cstr, (r.1.1, length r.2)) <$> check_create_dir 2 $"a/b/c/d/e/f/g/h/i/j/k/l/m/n/o/p/q/file" [] = Some (0, 15%nat).
Proof. by vm_compute. Qed.

#[local] Existing Instances Avl.avl_map Avl.avl_laws Commands.demo_page Commands.demo_gauge Commands.demo_fixed3.

(** An untyped metric of value 1 is printed as the bits of the double. *)
Lemma format_values_untyped : let m := mk_metric [] (v_gauge (of_Z 1)) (2 ^ 30) 0 None in ∃ b,
  format_values (T := Avl.c_avl_tree cstr) STRBUF_CREATE (Cache.mk_cache None false)
    (mk_family (Some $"m") None METRIC_TYPE_UNTYPED [m]) m false ⇓ (0, b, Cache.mk_cache None false) ∧
  ∃ t, text b = t ++ $":4607182418800017408".
Proof. eexists. split; [by vm_compute|]. by exists $"1". Qed.
