(* ===== verification/Lifecycle.v ===== *)
(** * The life of the plugins (src/daemon/plugin.c)

    The lists of callbacks of all kinds, their registration, the start of the
    daemon (plugin_init_all with the start of its threads), the single run of
    the option -T (plugin_read_all_once) and the shutdown
    (plugin_shutdown_all), composed from the registry of Plugin.v, the cache
    events of Dispatch.v and the read scheduler of ReadLoop.v.

    Callbacks are arbitrary code: an argument says what a callback returns and
    what it does to the plugins.  The trace of the shutdown lists the calls
    and the user data that is freed, in their order. *)

From Stdlib Require Import ZArith Lia Ascii String.
From stdpp Require Import base numbers option fin_maps gmap sorting list.
From S2P Require Import Prelude Heap LList WriteQueue Plugin Dispatch ReadLoop Values.
From S2P Require MapSpec StrBuf FilterChain OConfig TypesDb Time Cpu Avl.

#[local] Notation "'lift' o" := (match o with Next a => ret a | _ => crash end) (at level 10, o at level 9, only parsing).

Section lifecycle.
Context {CB D : Type} {T : Type → Type} `{!MapSpec.KeyedMap cstr T}.

(** The static variables that hold lists of callbacks. *)
Inductive callback_list : Type :=
| list_init | list_write | list_flush | list_missing | list_shutdown | list_log | list_notification.
#[global] Instance callback_list_dec : EqDecision callback_list.
Proof using. clear. solve_decision. Defined.

(** [heap_exists]: [read_heap] is not NULL; [write_threads]: the number of
    write threads, where the array is not NULL. *)
Record plugins : Type := mk_plugins {
  lists : callback_list → registry CB D;
  events : cache_events CB D;
  reads : rsys;
  heap_exists : bool;
  write_threads : option nat;
  plugins_loaded : option (gset cstr);
  data_sets : option (T data_set_t);
}.
Implicit Types (p : plugins) (cf : callback_func_t CB D) (l : callback_list).

Definition with_list p l (r : registry CB D) : plugins :=
  mk_plugins (λ l', if decide (l' = l) then r else lists p l') (events p) (reads p) (heap_exists p) (write_threads p)
    (plugins_loaded p) (data_sets p).
Definition with_reads p (s : rsys) : plugins :=
  mk_plugins (lists p) (events p) s (heap_exists p) (write_threads p) (plugins_loaded p) (data_sets p).
Definition with_events p (ev : cache_events CB D) : plugins :=
  mk_plugins (lists p) ev (reads p) (heap_exists p) (write_threads p) (plugins_loaded p) (data_sets p).
Definition with_heap p (b : bool) : plugins :=
  mk_plugins (lists p) (events p) (reads p) b (write_threads p) (plugins_loaded p) (data_sets p).
Definition with_writers p (n : option nat) : plugins :=
  mk_plugins (lists p) (events p) (reads p) (heap_exists p) n (plugins_loaded p) (data_sets p).
Definition with_tables p (names : option (gset cstr)) (sets : option (T data_set_t)) : plugins :=
  mk_plugins (lists p) (events p) (reads p) (heap_exists p) (write_threads p) names sets.

(** ** Registration *)

Definition on {A} p l (f : registry CB D → M (A * registry CB D)) : M (A * plugins) :=
  let* '(a, r) := f (lists p l) in ret (a, with_list p l r).

Definition register p l (ctx : plugin_ctx_t) (name : option cstr) (callback : option CB) (ud : option (user_data_t D)) :
    M (Z * plugins) :=
  on p l (λ r, create_register_callback r ctx name callback ud).

Definition plugin_register_init p ctx name callback := register p list_init ctx name callback None.
Definition plugin_register_write p ctx name callback ud := register p list_write ctx name callback ud.
Definition plugin_register_missing p ctx name callback ud := register p list_missing ctx name callback ud.
Definition plugin_register_shutdown p ctx name callback := register p list_shutdown ctx name callback None.
Definition plugin_register_log p ctx name callback ud := register p list_log ctx name callback ud.
Definition plugin_register_notification p ctx name callback ud := register p list_notification ctx name callback ud.

Definition plugin_unregister_init p name := on p list_init (λ r, plugin_unregister r name).
Definition plugin_unregister_write p name := on p list_write (λ r, plugin_unregister r name).
Definition plugin_unregister_missing p name := on p list_missing (λ r, plugin_unregister r name).
Definition plugin_unregister_shutdown p name := on p list_shutdown (λ r, plugin_unregister r name).
Definition plugin_unregister_log p name := on p list_log (λ r, plugin_unregister r name).
Definition plugin_unregister_notification p name := on p list_notification (λ r, plugin_unregister r name).

(** *** Read callbacks *)

Section reading.
Context `{Strtod} (opts : list OConfig.cf_global_option_t).

Definition plugin_get_interval (ctx : plugin_ctx_t) : M Z :=
  if 0 <? ctx_interval ctx then ret (ctx_interval ctx) else OConfig.cf_get_default_interval opts.

(** plugin_insert_read with its allocations: of the list and the heap when they
    do not exist, of the list entry, and of the heap when it grows. *)
Definition insert_read p (x : read_func_t) (now : Z) : M (Z * plugins) :=
  let* list_ok := if heap_exists p then ret true else alloc in
  if negb list_ok then ret (-1, p) else
  let* heap_ok := if heap_exists p then ret true else alloc in
  if negb heap_ok then ret (-1, p) else
  let* entry_ok := alloc in
  let* realloc_ok := alloc in
  let* '(status, s) := lift (plugin_insert_read (reads p) x now true entry_ok realloc_ok) in
  ret (status, with_reads (with_heap p true) s).

(** The result of [strdup (name)] is not looked at. *)
Definition plugin_register_read p (ctx : plugin_ctx_t) (name : cstr) (now : Z) : M (Z * plugins) :=
  let* ok := alloc in
  if negb ok then ret (ENOMEM, p) else
  let* name_ok := alloc in
  let* interval := plugin_get_interval ctx in
  if negb name_ok then crash else insert_read p (mk_rf [] name RF_SIMPLE interval 0 0) now.

(** [true]: the user data was freed. *)
Definition plugin_register_complex_read p (ctx : plugin_ctx_t) (group : option cstr) (name : cstr) (interval now : Z) :
    M (Z * bool * plugins) :=
  let* ok := alloc in
  if negb ok then ret (ENOMEM, true, p) else
  let* name_ok := alloc in
  let* interval := if negb (interval =? 0) then ret interval else plugin_get_interval ctx in
  if negb name_ok then crash else
  let* '(status, p) := insert_read p (mk_rf (from_option FilterChain.copy_name [] group) name RF_COMPLEX interval 0 0) now in
  ret (status, negb (status =? 0), p).

(** *** Flush callbacks *)

Record flush_callback_t : Type := mk_flush { fc_name : cstr; fc_timeout : Z }.

Definition plugin_flush_callback_name (name : cstr) : M (option cstr) :=
  let* ok := alloc in ret (if ok : bool then Some ($"flush/" ++ name) else None).

(** What the read callback calls: the flush callback of its name. *)
Definition plugin_flush_timeout_callback p (cb : flush_callback_t) : M (Z * list call) :=
  plugin_flush (lists p list_flush) (Some (fc_name cb)).

(** With the user data of the read callback, where one was registered. *)
Definition plugin_register_flush p (ctx : plugin_ctx_t) (name : cstr) (callback : CB) (ud : option (user_data_t D)) (now : Z) :
    M (Z * option flush_callback_t * plugins) :=
  let* '(status, p) := register p list_flush ctx (Some name) (Some callback) ud in
  if negb (status =? 0) then ret (status, None, p)
  else if ctx_flush_interval ctx =? 0 then ret (0, None, p)
  else
    let* flush_name := plugin_flush_callback_name name in
    match flush_name with
    | None => ret (ENOMEM, None, p)
    | Some flush_name =>
        let* ok := alloc in
        if negb ok then ret (ENOMEM, None, p) else
        let* ok := alloc in
        if negb ok then ret (ENOMEM, None, p) else
        let cb := mk_flush name (ctx_flush_timeout ctx) in
        let* '(status, _, p) := plugin_register_complex_read p ctx (Some $"flush") flush_name (ctx_flush_interval ctx) now in
        ret (status, if status =? 0 then Some cb else None, p)
    end.

Definition plugin_unregister_flush p (ctx : plugin_ctx_t) (name : cstr) : M (Z * plugins) :=
  let* p :=
    if negb (ctx_flush_interval ctx =? 0) then
      let* flush_name := plugin_flush_callback_name name in
      match flush_name with
      | Some flush_name => let* '(_, s) := lift (plugin_unregister_read (reads p) flush_name) in ret (with_reads p s)
      | None => ret p
      end
    else ret p in
  on p list_flush (λ r, plugin_unregister r name).

(** ** The start *)

(** How many of [num] threads start; [create i] is the status of the
    [i]-th pthread_create. *)
Fixpoint threads_loop (num i : nat) (create : nat → Z) : nat :=
  match num with
  | O => i
  | S num => if negb (create i =? 0) then i else threads_loop num (S i) create
  end.
(** The size in bytes must fit into a size_t; a pthread_t has 8. *)
Definition start_threads (num : Z) (create : nat → Z) : M (option nat) :=
  let* ok := alloc in
  ret (if negb ok || (2 ^ 64 <=? num * 8) then None else Some (threads_loop (Z.to_nat num) 0 create)).

Definition start_write_threads p (num : Z) (create : nat → Z) : M plugins :=
  match write_threads p with
  | Some _ => ret p
  | None => let* n := start_threads num create in ret (with_writers p n)
  end.
(** The threads start at the top of plugin_read_thread. *)
Definition start_read_threads p (num : Z) (create : nat → Z) : M plugins :=
  match readers (reads p) with
  | _ :: _ => ret p
  | [] =>
      let* n := start_threads num create in
      let s := reads p in
      ret (with_reads p (mk_rsys (rfs s) (read_heap s) (read_list s) (read_loop s) (replicate (default 0%nat n) R_loop) (lost s)))
  end.

Definition queue_limits : write_limits :=
  let high := OConfig.global_option_get_long opts $"WriteQueueLimitHigh" 0 in
  let high := if high <? 0 then 0 else high in
  let low := OConfig.global_option_get_long opts $"WriteQueueLimitLow" (high / 2) in
  let low := if low <? 0 then high / 2 else if high <? low then high else low in
  mk_limits high low.

(** [write_threads_num] is a size_t. *)
Definition writers_num : Z :=
  let num := u64 (OConfig.global_option_get_long opts $"WriteThreads" 5) in
  if num <? 1 then 5 else num.

Definition DEFAULT_MAX_READ_INTERVAL : Z := Time.TIME_T_TO_CDTIME_T 86400.

(** [run_init]: what an init callback returns, and what it leaves. *)
Section init.
Context (run_init : callback_func_t CB D → plugins → M (Z * plugins)).

Definition unregister_read p (name : cstr) : M plugins :=
  let* '(_, s) := lift (plugin_unregister_read (reads p) name) in ret (with_reads p s).

(** The list is the one the callbacks leave. *)
Fixpoint init_loop (fuel : nat) p (le : option ptr) (res : Z) (calls : list call) : M (Z * list call * plugins) :=
  match le with
  | None => ret (res, calls, p)
  | Some e =>
      match fuel with
      | O => crash
      | S fuel =>
          let* n := mopt (r_mem (lists p list_init) !! e) in
          let '(key, cf) := payload n in
          let* '(status, p) := run_init cf p in
          let* p := if negb (status =? 0) then unregister_read p key else ret p in
          let* n := mopt (r_mem (lists p list_init) !! e) in
          init_loop fuel p (next n) (if status =? 0 then res else -1) (calls ++ [(key, cf_ctx cf)])
      end
  end.

(** What plugin_init_all sets. *)
Record settings : Type := mk_settings {
  pre_cache_chain : option ptr;
  post_cache_chain : option ptr;
  set_limits : write_limits;
  max_read_interval : option Z;
}.

Definition register_statistics p (ctx : plugin_ctx_t) (now : Z) : M plugins :=
  match OConfig.global_option_get opts $"CollectInternalStats" with
  | None => crash
  | Some s =>
      if OConfig.IS_TRUE s then let* '(_, p) := plugin_register_read p ctx $"collectd" now in ret p else ret p
  end.

Definition init_read_threads p (create : nat → Z) : M plugins :=
  if heap_exists p then
    let* rt := mopt (OConfig.global_option_get opts $"ReadThreads") in
    let* num := Cpu.atoi rt in
    if negb (num =? -1) then start_read_threads p (if 0 <? num then num else 5) create else ret p
  else ret p.

Definition plugin_init_all {W U} (fc : FilterChain.fc_state W U) p (ctx : plugin_ctx_t) (now : Z) (create_w create_r : nat → Z) :
    M (Z * settings * list call * plugins) :=
  let* p := register_statistics p ctx now in
  let* pre := FilterChain.fc_chain_get_by_name fc (OConfig.global_option_get opts $"PreCacheChain") in
  let* post := FilterChain.fc_chain_get_by_name fc (OConfig.global_option_get opts $"PostCacheChain") in
  if match r_list (lists p list_init) with None => true | Some _ => false end && negb (heap_exists p)
  then ret (0, mk_settings pre post queue_limits None, [], p)
  else
    let* '(res, calls, p) :=
      init_loop (traversal (r_mem (lists p list_init))) p (llist_head (r_list (lists p list_init))) 0 [] in
    let* p := start_write_threads p writers_num create_w in
    let* mx := OConfig.global_option_get_time opts $"MaxReadInterval" DEFAULT_MAX_READ_INTERVAL in
    let* p := init_read_threads p create_r in
    ret (res, mk_settings pre post queue_limits (Some mx), calls, p).
End init.
End reading.

(** ** The single run *)

Section once.
(** [read]: the status a read callback returns. *)
Context (read : read_func_t → Z).

Fixpoint read_all_loop (fuel : nat) (s : rsys) (res : Z) (calls : list read_func_t) : M (Z * list read_func_t * rsys) :=
  match fuel with
  | O => crash
  | S fuel =>
      let* ok := alloc in
      let* '(root, h) := mopt (c_heap_get_root ok (read_heap s)) in
      match root with
      | None => ret (res, calls, set_heap s h)
      | Some e =>
          let* x := mopt (rfs s !! he_rf e) in
          read_all_loop fuel (set_rfs (set_heap s h) (delete (he_rf e) (rfs s)))
            (if read x =? 0 then res else -1) (calls ++ [x])
      end
  end.

Definition plugin_read_all_once p : M (Z * list read_func_t * plugins) :=
  if negb (heap_exists p) then ret (0, [], p)
  else
    let* '(res, calls, s) := read_all_loop (S (Z.to_nat (list_len (read_heap (reads p))))) (reads p) 0 [] in
    ret (res, calls, with_reads p s).
End once.

(** ** Shutdown *)

Inductive event : Type :=
| called (l : callback_list) (c : call)
| released (l : callback_list) (d : list D)
| events_released (d : list D)
| readers_stopped
| writers_stopped.

Definition destroy p l : M (list event * plugins) :=
  let before := length (freed (lists p l)) in
  let* r := destroy_all_callbacks (lists p l) in
  ret ([released l (drop before (freed r))], with_list p l r).

(** [stop_read_threads] with its joins is over when all threads have ended; then
    the list and the heap are destroyed. *)
Definition stop_reading p : M plugins :=
  let s := reads p in
  if negb (forallb is_rexit (readers s)) then crash else
  let s := mk_rsys (rfs s) (read_heap s) (read_list s) (match readers s with [] => read_loop s | _ => false end) [] (lost s) in
  let* s := mopt (destroy_heap (S (Z.to_nat (list_len (read_heap s)))) (set_list s [])) in
  ret (with_heap (with_reads p s) false).

Section shutdown.
(** [run_shutdown]: what a shutdown callback returns, and what it leaves. *)
Context (run_shutdown : callback_func_t CB D → plugins → M (Z * plugins)).

(** [le] has moved on when the callback runs. *)
Fixpoint shutdown_loop (fuel : nat) p (le : option ptr) (res : Z) (tr : list event) : M (Z * list event * plugins) :=
  match le with
  | None => ret (res, tr, p)
  | Some e =>
      match fuel with
      | O => crash
      | S fuel =>
          let* n := mopt (r_mem (lists p list_shutdown) !! e) in
          let '(key, cf) := payload n in
          let before := length (freed (lists p list_shutdown)) in
          let* '(status, p) := run_shutdown cf p in
          shutdown_loop fuel p (next n) (if status =? 0 then res else -1)
            (tr ++ [called list_shutdown (key, cf_ctx cf);
                    released list_shutdown (drop before (freed (lists p list_shutdown)))])
      end
  end.

Definition destroy_cache_event_callbacks p : M (list event * plugins) :=
  let ev := events p in
  let live := filter (λ cef, is_active cef = true) (list_cache_event ev) in
  let d := live ≫= λ cef, free_userdata (cef_udata cef) in
  ret ([events_released d],
       with_events p (mk_events (map (λ cef, if is_active cef then deactivate cef else cef) (list_cache_event ev)) (ev_freed ev ++ d))).

Fixpoint destroy_lists p (ls : list callback_list) : M (list event * plugins) :=
  match ls with
  | [] => ret ([], p)
  | l :: ls => let* '(tr, p) := destroy p l in let* '(tr', p) := destroy_lists p ls in ret (tr ++ tr', p)
  end.

(** Stopping the write threads is stop_write_threads of WriteQueue.v; the names
    of the loaded plugins are a set, which is emptied at once. *)
Definition plugin_shutdown_all p : M (Z * list event * plugins) :=
  let* '(tr1, p) := destroy p list_init in
  let* p := stop_reading p in
  let p := with_writers p None in
  let* '(_, flushed) := plugin_flush (lists p list_flush) None in
  let* '(res, tr2, p) :=
    shutdown_loop (traversal (r_mem (lists p list_shutdown))) p (llist_head (r_list (lists p list_shutdown))) 0 [] in
  let* '(tr3, p) := destroy_lists p [list_flush; list_missing] in
  let* '(tr4, p) := destroy_cache_event_callbacks p in
  let* '(tr5, p) := destroy_lists p [list_write; list_notification; list_shutdown; list_log] in
  let* sets := TypesDb.plugin_free_data_sets (data_sets p) in
  ret (res, tr1 ++ [readers_stopped; writers_stopped] ++ map (called list_flush) flushed ++ tr2 ++ tr3 ++ tr4 ++ tr5, with_tables p None sets).
End shutdown.
End lifecycle.

(** ** Plugin contexts

    The context of a thread, where it has one. *)

Abbreviation thread_ctx := (option plugin_ctx_t).
Definition ctx_init : plugin_ctx_t := mk_ctx None 0 0 0.

Definition plugin_ctx_create : M thread_ctx := let* ok := alloc in ret (if ok : bool then Some ctx_init else None).

Definition plugin_get_ctx (c : thread_ctx) : M (plugin_ctx_t * thread_ctx) :=
  match c with
  | Some ctx => ret (ctx, c)
  | None => let* c := plugin_ctx_create in ret (default ctx_init c, c)
  end.

(** The old context; nothing is set without memory. *)
Definition plugin_set_ctx (c : thread_ctx) (ctx : plugin_ctx_t) : M (plugin_ctx_t * thread_ctx) :=
  let* c := match c with Some _ => ret c | None => plugin_ctx_create end in
  match c with
  | None => ret (ctx_init, None)
  | Some old => ret (old, Some ctx)
  end.

Definition plugin_thread_start (ctx : plugin_ctx_t) : M thread_ctx := let* '(_, c) := plugin_set_ctx None ctx in ret c.

(** [create]: the status of pthread_create.  The status, the context of the
    caller, and that of the new thread where there is one. *)
Definition plugin_thread_create (c : thread_ctx) (create : Z) : M (Z * thread_ctx * option thread_ctx) :=
  let* ok := alloc in
  if negb ok then ret (ENOMEM, c, None)
  else
    let* '(ctx, c) := plugin_get_ctx c in
    if negb (create =? 0) then ret (create, c, None)
    else let* t := plugin_thread_start ctx in ret (0, c, Some t).

(** What is called in another context leaves the thread's context as it was,
    and a new thread has the context of its creator. *)
Lemma plugin_ctx_spec (c : thread_ctx) ctx :
  (∃ old, plugin_set_ctx c ctx ⇓ (old, Some ctx) ∧ plugin_set_ctx (Some ctx) old ⇓ (ctx, Some (default ctx_init c))) ∧
  plugin_thread_create (Some ctx) 0 ⇓ (0, Some ctx, Some (Some ctx)).
Proof. split; [|done]. destruct c as [old|]; by eexists. Qed.

(** ** Log messages *)

Definition LOG_ERR : Z := 3.
Definition LOG_WARNING : Z := 4.
Definition LOG_NOTICE : Z := 5.
Definition LOG_INFO : Z := 6.
Definition LOG_DEBUG : Z := 7.

Section log.
Context {CB D : Type}.
Implicit Types r : registry CB D.

(** Without COLLECT_DEBUG.  [text] is what the format and its arguments make,
    which is cut to the buffer; the calls, or what goes to standard error. *)
Definition plugin_log r (ctx : plugin_ctx_t) (level : Z) (text : cstr) : M (list (call * cstr) * option cstr) :=
  if LOG_DEBUG <=? level then ret ([], None)
  else
    let msg := take 1023 text in
    match r_list r with
    | None => ret ([], Some (msg ++ ["010"%char]))
    | Some _ =>
        let* calls := each_of r (λ calls key cf, (calls ++ [((key, ctx), msg)], true)) [] in
        ret (calls, None)
    end.

Definition daemon_log r (ctx : plugin_ctx_t) (level : Z) (text : cstr) : M (list (call * cstr) * option cstr) :=
  plugin_log r ctx level (default $"UNKNOWN" (ctx_name ctx) ++ $" plugin: " ++ take 1023 text).

Lemma fold_log (ctx : plugin_ctx_t) (msg : cstr) (kv : list (cstr * callback_func_t CB D)) acc :
  fold_each (λ (calls : list (call * cstr)) key cf, (calls ++ [((key, ctx), msg)], true)) acc kv
  = acc ++ map (λ x, ((x.1, ctx), msg)) kv.
Proof. revert acc. induction kv as [|[k cf] kv IH]; intros acc; cbn; [by rewrite app_nil_r|]. by rewrite IH, <-app_assoc. Qed.

(** A message that is not for debugging goes to every log callback, in the
    caller's context, with the name of the plugin in front. *)
Theorem daemon_log_spec r kv ctx level text : reg_repr r kv → is_Some (r_list r) → level < LOG_DEBUG →
  daemon_log r ctx level text =
  ret (map (λ x, ((x.1, ctx), take 1023 (default $"UNKNOWN" (ctx_name ctx) ++ $" plugin: " ++ take 1023 text))) kv, None).
Proof.
  intros Hr [hd El] Hl. unfold daemon_log, plugin_log. destruct (Z.leb_spec LOG_DEBUG level); [lia|]. rewrite El.
  rewrite (each_of_ret _ r kv) by done. by rewrite bind_ret, fold_log.
Qed.
End log.

Definition parse_log_severity (severity : cstr) : Z :=
  if (strcasecmp severity $"emerg" =? 0) || (strcasecmp severity $"alert" =? 0) || (strcasecmp severity $"crit" =? 0) ||
     (strcasecmp severity $"err" =? 0) then LOG_ERR
  else if strcasecmp severity $"warning" =? 0 then LOG_WARNING
  else if strcasecmp severity $"notice" =? 0 then LOG_NOTICE
  else if strcasecmp severity $"info" =? 0 then LOG_INFO
  else -1.

Definition parse_notif_severity (severity : cstr) : Z :=
  if strcasecmp severity $"FAILURE" =? 0 then OConfig.NOTIF_FAILURE
  else if strcmp severity $"OKAY" =? 0 then OConfig.NOTIF_OKAY
  else if (strcmp severity $"WARNING" =? 0) || (strcmp severity $"WARN" =? 0) then OConfig.NOTIF_WARNING
  else -1.

(** Only FAILURE is read without regard to case. *)
Lemma parse_notif_severity_case : parse_notif_severity $"failure" = OConfig.NOTIF_FAILURE ∧ parse_notif_severity $"okay" = -1 ∧
  parse_notif_severity $"warning" = -1.
Proof. by split_and!. Qed.

(** ** The single run calls and frees everything *)

Definition read_order (x y : read_func_t) : Prop := rf_next_read x ≤ rf_next_read y.

Definition ids (m : gmap ptr read_func_t) (xs : list heap_elem) : list read_func_t := omap (λ e, m !! he_rf e) xs.

Lemma ids_delete m e xs : he_rf e ∉ he_rf <$> xs → ids (delete (he_rf e) m) xs = ids m xs.
Proof.
  intros Hn. unfold ids. induction xs as [|y xs IH]; [done|]. cbn [omap list_omap]. rewrite fmap_cons, not_elem_of_cons in Hn.
  destruct Hn as [Hne Hn]. rewrite lookup_delete_ne by done. by rewrite IH.
Qed.

Lemma ids_all m xs : NoDup (he_rf <$> xs) → (∀ q, is_Some (m !! q) ↔ q ∈ he_rf <$> xs) → ids m xs ≡ₚ (map_to_list m).*2.
Proof.
  intros Hnd Hd. assert (ids m xs = omap (λ q, m !! q) (he_rf <$> xs)) as ->.
  { unfold ids. clear Hnd Hd. induction xs as [|y xs IH]; [done|]. cbn [omap list_omap fmap list_fmap]. by rewrite IH. }
  assert (he_rf <$> xs ≡ₚ (map_to_list m).*1) as ->.
  { apply NoDup_Permutation; [done|apply NoDup_fst_map_to_list|]. intros q. rewrite <-Hd, list_elem_of_fmap. split.
    - intros [x Hx]. exists (q, x). split; [done|]. by apply elem_of_map_to_list.
    - intros ([q' x] & -> & Hx%elem_of_map_to_list). by exists x. }
  assert (Forall (λ kx : ptr * read_func_t, m !! kx.1 = Some kx.2) (map_to_list m)) as Hf.
  { apply list.Forall_forall. intros [k x]. by rewrite elem_of_map_to_list. }
  induction Hf as [|[k x] l Hx _ IH]; [done|]. cbn [fmap list_fmap omap list_omap fst snd] in *. by rewrite Hx, IH.
Qed.

Section once_spec.
Context (read : read_func_t → Z).

Lemma read_all_loop_spec fuel : ∀ s xs lo res calls,
  heap_inv (rfs s) (read_heap s) xs → place_inv (rfs s) xs [] lo → (length xs < fuel)%nat →
  wp (read_all_loop read fuel s res calls) (λ '(res', calls', s'), ∃ out, calls' = calls ++ out ∧
    out ≡ₚ ids (rfs s) xs ∧ StronglySorted read_order out ∧
    res' = (if forallb (λ x, read x =? 0) out then res else -1) ∧
    heap_inv (rfs s') (read_heap s') [] ∧ place_inv (rfs s') [] [] lo ∧ read_list s' = read_list s ∧
    readers s' = readers s ∧ lost s' = lost s).
Proof.
  induction fuel as [|fuel IH]; intros s xs lo res calls Hh Hp Hf; [lia|]. cbn [read_all_loop].
  apply wp_bind, wp_alloc. intros ok. pose proof Hh as [Hrep Hord Hsz Hnx]. apply wp_bind. destruct xs as [|e xs].
  { eapply wp_mopt. { pose proof Hrep as [_ Elen _ _]. cbn [length] in Elen. unfold c_heap_get_root. rewrite Elen. reflexivity. }
    apply wp_ret. exists []. rewrite app_nil_r. split_and!; try done. constructor. }
  destruct (get_root_ok ok _ _ _ Hrep Hord) as (h' & xs' & Er & Hrep' & Hord' & HP & Hsz'). eapply wp_mopt; [exact Er|].
  cbn beta iota. apply Forall_cons_1 in Hnx as [(x & Hx & Hxn) Hnx]. apply wp_bind. eapply wp_mopt; [exact Hx|].
  destruct Hp as [Hnd Hd]. unfold places in Hnd, Hd. cbn [fmap list_fmap app] in Hnd, Hd. cbn [app] in Hnd, Hd.
  pose proof Hnd as Hnd0. apply list.NoDup_cons in Hnd as [Hnin Hnd]. apply not_elem_of_app in Hnin as [Hnin Hlo].
  eapply wp_mono; [apply (IH _ xs' lo)|].
  - split; cbn; [done|done|lia|]. rewrite HP. apply list.Forall_forall. intros e' He'.
    rewrite list.Forall_forall in Hnx. rewrite lookup_delete_ne; [by apply Hnx|].
    intros E. apply Hnin. rewrite E. by apply list_elem_of_fmap_2.
  - split; unfold places; cbn; [by rewrite HP|]. intros q. rewrite HP. destruct (decide (q = he_rf e)) as [->|].
    + rewrite lookup_delete_eq, elem_of_app. split; [by intros []%is_Some_None|naive_solver].
    + rewrite lookup_delete_ne, Hd, elem_of_cons by done. naive_solver.
  - rewrite HP. cbn [length] in Hf. lia.
  - intros [[res' calls'] s'] (out & -> & Hout & Hsorted & Hres & Hh' & Hp' & Hl' & Er' & Elo'). exists (x :: out).
    change (rfs _) with (delete (he_rf e) (rfs s)) in Hout. rewrite ids_delete in Hout by (by rewrite HP).
    split_and!; [by rewrite <-app_assoc| | | |done|done|exact Hl'|exact Er'|exact Elo'].
    + unfold ids. cbn [omap list_omap]. rewrite Hx. constructor. rewrite Hout. unfold ids. by rewrite HP.
    + constructor; [done|]. rewrite Hout. apply list.Forall_forall. intros y (e' & He' & Hy)%list_elem_of_omap.
      rewrite HP in He'. rewrite list.Forall_forall in Hnx. destruct (Hnx e' He') as (y' & Hy' & Hyn). simplify_eq.
      apply list_elem_of_lookup in He' as [i Hi]. pose proof (heap_root_min (e :: xs) e (S i) e' Hord eq_refl Hi) as Hle.
      unfold read_order. rewrite Hxn, Hyn. unfold compare, elem_comparator, plugin_compare_read_func in Hle.
      rewrite Z.gtb_ltb in Hle. destruct (Z.ltb_spec (he_next_read e) (he_next_read e')), (Z.ltb_spec (he_next_read e') (he_next_read e)); lia.
    + rewrite Hres. cbn [forallb]. destruct (read x =? 0); [done|]. by destruct (forallb _ out).
Qed.
End once_spec.

(** ** The start *)

(** Where memory does not run out it stays available. *)
Definition frugal {A} (m : M A) : Prop := ∀ a o, m [] = Some (a, o) → o = [].

Lemma frugal_ret {A} (a : A) : frugal (ret a).
Proof. by intros ? ? [= _ <-]. Qed.
Lemma frugal_crash {A} : frugal (crash (A := A)).
Proof. done. Qed.
Lemma frugal_alloc : frugal alloc.
Proof. by intros ? ? [= _ <-]. Qed.
Lemma frugal_mopt {A} (x : option A) : frugal (mopt x).
Proof. destruct x; [apply frugal_ret|apply frugal_crash]. Qed.
Lemma frugal_bind {A B} (m : M A) (k : A → M B) : frugal m → (∀ a, frugal (k a)) → frugal (bind m k).
Proof.
  intros Hm Hk b o. unfold bind. destruct (m []) as [[a o']|] eqn:E; [|done]. apply Hm in E as ->. apply Hk.
Qed.
Lemma frugal_wp {A} (m : M A) Q : wp m Q → frugal m → ∃ a, m ⇓ a ∧ Q a.
Proof. intros Hw Hf. destruct (Hw []) as (a & o & E & Ha). apply Hf in E as Ho. subst o. by exists a. Qed.

Lemma threads_loop_spec num create : ∀ i, let n := threads_loop num i create in
  (i ≤ n ≤ i + num)%nat ∧ (∀ j, (i ≤ j < n)%nat → create j = 0) ∧ ((n < i + num)%nat → create n ≠ 0).
Proof.
  induction num as [|num IH]; intros i; cbn [threads_loop]; [split_and!; lia|].
  destruct (Z.eqb_spec (create i) 0) as [E|E]; cbn [negb]; [|split_and!; [lia..|done]].
  destruct (IH (S i)) as (Hr & Hz & Hs). split_and!; [lia|lia| |intros Hn; apply Hs; lia].
  intros j Hj. destruct (decide (j = i)) as [->|]; [done|apply Hz; lia].
Qed.

(** Either there is no array of threads, or as many threads run as could be
    created before the first failure. *)
Definition started (num : Z) (create : nat → Z) (o : option nat) : Prop :=
  match o with
  | None => True
  | Some n => num * 8 < 2 ^ 64 ∧ (Z.of_nat n ≤ Z.max num 0) ∧ (∀ j, (j < n)%nat → create j = 0) ∧ (Z.of_nat n < num → create n ≠ 0)
  end.

(** With memory, and when the size of the array fits into a size_t, there is
    one. *)
Definition created (num : Z) (create : nat → Z) (o : option nat) : Prop :=
  started num create o ∧ (num * 8 < 2 ^ 64 → is_Some o).

Lemma start_threads_yields num create : ∃ o, start_threads num create ⇓ o ∧ (num * 8 < 2 ^ 64 → is_Some o).
Proof.
  eexists. split; [done|]. cbn [negb orb]. intros Hn. rewrite (proj2 (Z.leb_gt _ _)) by done. by eexists.
Qed.

Lemma start_threads_wp num create : wp (start_threads num create) (started num create).
Proof.
  unfold start_threads. apply wp_bind, wp_alloc. intros [|]; apply wp_ret; cbn [negb orb]; [|done].
  destruct (Z.leb_spec (2 ^ 64) (num * 8)); [done|]. destruct (threads_loop_spec (Z.to_nat num) create 0) as (Hr & Hz & Hs).
  split_and!; [done|lia|intros j Hj; apply Hz; lia|intros Hn; apply Hs; lia].
Qed.

Lemma clamp_ok high low : 0 ≤ high →
  0 ≤ (if low <? 0 then high / 2 else if high <? low then high else low) ≤ high.
Proof.
  intros Hh. pose proof (Z.div_pos high 2). pose proof (Z.div_le_upper_bound high 2 high).
  destruct (Z.ltb_spec low 0); [|destruct (Z.ltb_spec high low)]; lia.
Qed.
Lemma queue_limits_ok opts : 0 ≤ write_limit_low (queue_limits opts) ≤ write_limit_high (queue_limits opts).
Proof.
  unfold queue_limits. cbn [write_limit_low write_limit_high]. apply clamp_ok.
  generalize (OConfig.global_option_get_long opts $"WriteQueueLimitHigh" 0). intros z. destruct (Z.ltb_spec z 0); lia.
Qed.

Section init_spec.
Context {CB D : Type} {T : Type → Type} `{!MapSpec.KeyedMap cstr T}.
Abbreviation plugins := (plugins (CB := CB) (D := D) (T := T)).
Implicit Types (p : plugins) (cf : callback_func_t CB D) (kv : list (cstr * callback_func_t CB D)).
(** The callbacks of plugins are called in the order of the list. *)
Definition calls_of kv : list call := map (λ x, (x.1, cf_ctx x.2)) kv.

Context (run_init : callback_func_t CB D → plugins → M (Z * plugins)) (status : callback_func_t CB D → Z).

(** The lists, the read callbacks and the data sets are in order. *)
Definition plugins_ok p : Prop :=
  (∀ l, ∃ kv, reg_repr (lists p l) kv) ∧ rinv (reads p) ∧ TypesDb.sets_ok (data_sets p).
(** The threads are the same, and no read callback got lost. *)
Definition same_threads p p' : Prop :=
  write_threads p' = write_threads p ∧ readers (reads p') = readers (reads p) ∧ lost (reads p') = lost (reads p).
Lemma same_threads_trans p p1 p2 : same_threads p p1 → same_threads p1 p2 → same_threads p p2.
Proof. intros (? & ? & ?) (? & ? & ?). split_and!; congruence. Qed.

(** An init callback may register what it likes but init callbacks. *)
Definition registers (x : cstr * callback_func_t CB D) : Prop := ∀ p, plugins_ok p →
  wp (run_init x.2 p) (λ '(st, p'), st = status x.2 ∧ lists p' list_init = lists p list_init ∧ plugins_ok p' ∧ same_threads p p').

Lemma unregister_read_same s name st s' : plugin_unregister_read s name = Next (st, s') → readers s' = readers s ∧ lost s' = lost s.
Proof.
  unfold plugin_unregister_read, mark_remove. destruct (list_search (read_list s) name) as [rf|]; cbn [undef]; [|by intros [= <- <-]].
  destruct (rfs s !! rf) as [x|]; cbn [mbind option_bind]; [|done]. by intros [= <- <-].
Qed.

Lemma unregister_read_wp p name : plugins_ok p →
  wp (unregister_read p name) (λ p', lists p' = lists p ∧ plugins_ok p' ∧ same_threads p p').
Proof.
  intros (Hl & Hinv & Hd). unfold unregister_read. pose proof (unregister_good (reads p) name Hinv) as Hu.
  pose proof (unregister_read_same (reads p) name) as Hs.
  destruct (plugin_unregister_read (reads p) name) as [| |[st s]]; [done..|]. destruct (Hs st s eq_refl).
  apply wp_bind, wp_ret, wp_ret. by split_and!.
Qed.

Lemma init_loop_wp fuel xs : ∀ p r le res calls, lists p list_init = r → seg (r_mem r) le xs None → (length xs ≤ fuel)%nat →
  Forall registers xs.*2 → plugins_ok p →
  wp (init_loop run_init fuel p le res calls) (λ '(res', calls', p'),
    res' = (if forallb (λ x, status x.2 =? 0) xs.*2 then res else -1) ∧
    calls' = calls ++ calls_of xs.*2 ∧ plugins_ok p' ∧ same_threads p p').
Proof.
  revert fuel. induction xs as [|[a [k cf]] xs IH]; intros fuel p r le res calls Er Hs Hf Hreg Hinv.
  { cbn in Hs. subst le. destruct fuel; apply wp_ret; cbn; by rewrite app_nil_r. }
  destruct Hs as (-> & n & Ha & Hs). destruct fuel as [|fuel]; [cbn in Hf; lia|]. cbn [init_loop].
  apply Forall_cons_1 in Hreg as [Hk Hreg]. apply wp_bind. rewrite Er. eapply wp_mopt; [exact Ha|]. cbn [payload].
  apply wp_bind. eapply wp_mono; [by apply (Hk p)|]. intros [st p1] (-> & El1 & Hok1 & Ht1). cbn [snd]. apply wp_bind.
  assert (wp (if negb (status cf =? 0) then unregister_read p1 k else ret p1)
    (λ p', lists p' = lists p1 ∧ plugins_ok p' ∧ same_threads p1 p')) as Hu.
  { destruct (negb _); [by apply unregister_read_wp|by apply wp_ret]. }
  eapply wp_mono; [exact Hu|]. intros p2 (El2 & Hok2 & Ht2). apply wp_bind. rewrite El2, El1, Er. eapply wp_mopt; [exact Ha|]. cbn [next].
  eapply wp_mono; [apply (IH fuel p2 r); [congruence|done|cbn in Hf; lia|done..]|].
  intros [[res' calls'] p'] (-> & -> & Hok' & Ht').
  pose proof (same_threads_trans _ _ _ (same_threads_trans _ _ _ Ht1 Ht2) Ht') as Ht. split; [|split; [|done]].
  - cbn. destruct (status cf =? 0); [done|]. by destruct (forallb _ _).
  - by rewrite <-app_assoc.
Qed.

Lemma init_loop_frugal fuel : (∀ cf p, frugal (run_init cf p)) → ∀ p le res calls, frugal (init_loop run_init fuel p le res calls).
Proof.
  intros Hrun. induction fuel as [|fuel IH]; intros p [e|] res calls; cbn [init_loop]; try (apply frugal_crash || apply frugal_ret).
  apply frugal_bind; [apply frugal_mopt|]. intros n. destruct (payload n) as [key cf].
  apply frugal_bind; [apply Hrun|]. intros [st p1]. apply frugal_bind.
  - destruct (negb _); [|apply frugal_ret]. apply frugal_bind; [|intros []; apply frugal_ret].
    destruct (plugin_unregister_read _ _); first [apply frugal_ret|apply frugal_crash].
  - intros p2. apply frugal_bind; [apply frugal_mopt|]. intros n2. apply IH.
Qed.

Lemma start_write_threads_wp p num create : plugins_ok p → write_threads p = None →
  wp (start_write_threads p num create) (λ p', started num create (write_threads p') ∧ plugins_ok p' ∧
    readers (reads p') = readers (reads p) ∧ lost (reads p') = lost (reads p)).
Proof.
  intros Hinv Ew. unfold start_write_threads. rewrite Ew. apply wp_bind. eapply wp_mono; [apply start_threads_wp|].
  intros o Ho. by apply wp_ret.
Qed.

Lemma start_read_threads_wp p num create : plugins_ok p →
  wp (start_read_threads p num create) (λ p', plugins_ok p' ∧ write_threads p' = write_threads p).
Proof.
  intros (Hls & Hinv & Hd). unfold start_read_threads. destruct (readers (reads p)) as [|r rs] eqn:Er; [|by apply wp_ret].
  apply wp_bind. eapply wp_mono; [apply start_threads_wp|]. intros o _. apply wp_ret. split; [|done]. split_and!; [exact Hls| |exact Hd].
  destruct Hinv as (Hl & _ & xs & Hh & Hp). split; [done|]. split; [by apply Forall_replicate|]. exists xs. split; [done|].
  assert (∀ n, replicate n R_loop ≫= held = []) as Eh by (induction n; done).
  unfold hands in *. rewrite Er in Hp. cbn [readers with_reads reads] in *. by rewrite Eh.
Qed.

Lemma writers_num_ok opts : 1 ≤ writers_num opts < 2 ^ 64.
Proof.
  unfold writers_num. pose proof (u64_range (OConfig.global_option_get_long opts $"WriteThreads" 5)) as Hu. unfold in_u64 in Hu.
  destruct (Z.ltb_spec (u64 (OConfig.global_option_get_long opts $"WriteThreads" 5)) 1); lia.
Qed.

(** What the options say, where they can be read. *)
Record readable `{Strtod} {W U} (opts : list OConfig.cf_global_option_t) (fc : FilterChain.fc_state W U) (pre post : option ptr)
    (mx num : Z) : Prop := {
  rd_statistics : ∃ s, OConfig.global_option_get opts $"CollectInternalStats" = Some s ∧ OConfig.IS_TRUE s = false;
  rd_pre : FilterChain.fc_chain_get_by_name fc (OConfig.global_option_get opts $"PreCacheChain") = ret pre;
  rd_post : FilterChain.fc_chain_get_by_name fc (OConfig.global_option_get opts $"PostCacheChain") = ret post;
  rd_max : OConfig.global_option_get_time opts $"MaxReadInterval" DEFAULT_MAX_READ_INTERVAL = ret mx;
  rd_threads : ∃ rt, OConfig.global_option_get opts $"ReadThreads" = Some rt ∧ Cpu.atoi rt = ret num;
}.

Section init_all.
Context `{Strtod} {W U : Type} (opts : list OConfig.cf_global_option_t) (fc : FilterChain.fc_state W U) (pre post : option ptr) (mx num : Z).
Context (Hread : readable opts fc pre post mx num).

(** The part that starts the read threads. *)
Lemma init_read_threads_wp p create : plugins_ok p →
  wp (init_read_threads opts p create) (λ p', plugins_ok p' ∧ write_threads p' = write_threads p ∧ (num = -1 → reads p' = reads p)).
Proof.
  destruct Hread as [_ _ _ _ (rt & Ert & Eat)]. intros Hok. unfold init_read_threads. destruct (heap_exists p); [|by apply wp_ret].
  rewrite Ert. cbn [mopt]. rewrite bind_ret, Eat, bind_ret.
  destruct (Z.eqb_spec num (-1)) as [->|Hne]; cbn [negb]; [by apply wp_ret|].
  eapply wp_mono; [by apply start_read_threads_wp|]. by intros p' [? ?].
Qed.
Lemma init_read_threads_frugal p create : frugal (init_read_threads opts p create).
Proof.
  destruct Hread as [_ _ _ _ (rt & Ert & Eat)]. unfold init_read_threads. destruct (heap_exists p); [|apply frugal_ret].
  rewrite Ert. cbn [mopt]. rewrite bind_ret, Eat, bind_ret. destruct (negb _); [|apply frugal_ret].
  unfold start_read_threads. destruct (readers _); [|apply frugal_ret]. apply frugal_bind; [|intros; apply frugal_ret].
  apply frugal_bind; [apply frugal_alloc|intros; apply frugal_ret].
Qed.

(** The steps that are left when the options have been read. *)
Definition init_steps p cw cr : M (Z * settings * list call * plugins) :=
  let* '(res, calls, p) := init_loop run_init (traversal (r_mem (lists p list_init))) p (llist_head (r_list (lists p list_init))) 0 [] in
  let* p := start_write_threads p (writers_num opts) cw in
  let* p := init_read_threads opts p cr in
  ret (res, mk_settings pre post (queue_limits opts) (Some mx), calls, p).
Lemma init_all_steps p ctx now cw cr o : is_Some (r_list (lists p list_init)) →
  plugin_init_all opts run_init fc p ctx now cw cr o = init_steps p cw cr o.
Proof.
  destruct Hread as [(s & Es & Et) Epre Epost Emx _]. intros [hd Ehd]. unfold plugin_init_all, register_statistics, init_steps.
  rewrite Es, Et, bind_ret, Epre, bind_ret, Epost, bind_ret, Ehd. cbn [andb]. apply bind_ext; [done|]. intros [[res calls] p1] o1.
  apply bind_ext; [done|]. intros p2 o2. by rewrite Emx, bind_ret.
Qed.

(** The loop over a list that represents [kv]. *)
Lemma init_callbacks_wp p kv : reg_repr (lists p list_init) kv → is_Some (r_list (lists p list_init)) → Forall registers kv → plugins_ok p →
  wp (init_loop run_init (traversal (r_mem (lists p list_init))) p (llist_head (r_list (lists p list_init))) 0 [])
    (λ '(res, calls, p'), res = (if forallb (λ x, status x.2 =? 0) kv then 0 else -1) ∧ calls = calls_of kv ∧ plugins_ok p' ∧ same_threads p p').
Proof.
  intros [Hnd (xs & He & ->)] [hd Ehd] Hreg Hok. unfold entries in He. rewrite Ehd in *. destruct He as [[Hs _ _ Hndp] _].
  pose proof (seg_length _ _ _ _ Hs Hndp). eapply wp_mono; [apply (init_loop_wp _ xs p (lists p list_init)); [done|done|unfold traversal; lia|done..]|].
  by intros [[res calls] p1].
Qed.

(** The start, with init callbacks that register no init callbacks. *)
Lemma init_all_wp p ctx now cw cr kv :
  reg_repr (lists p list_init) kv → is_Some (r_list (lists p list_init)) → Forall registers kv → plugins_ok p → write_threads p = None →
  wp (plugin_init_all opts run_init fc p ctx now cw cr) (λ '(res, st, calls, p'),
    res = (if forallb (λ x, status x.2 =? 0) kv then 0 else -1) ∧ calls = calls_of kv ∧
    st = mk_settings pre post (queue_limits opts) (Some mx) ∧
    0 ≤ write_limit_low (set_limits st) ≤ write_limit_high (set_limits st) ∧
    started (writers_num opts) cw (write_threads p') ∧ plugins_ok p' ∧
    (num = -1 → readers (reads p') = readers (reads p) ∧ lost (reads p') = lost (reads p))).
Proof.
  intros Hr Hl Hreg Hok Ew o. rewrite init_all_steps by done. revert o. unfold init_steps. apply wp_bind.
  eapply wp_mono; [by apply init_callbacks_wp|]. intros [[res calls] p1] (-> & -> & Hok1 & Ew1 & Er1 & El1).
  apply wp_bind. eapply wp_mono; [apply start_write_threads_wp; [done|congruence]|].
  intros p2 (Hst & Hok2 & Er2 & El2). apply wp_bind. eapply wp_mono; [by apply init_read_threads_wp|]. intros p3 (Hok3 & Ew3 & Hn3).
  apply wp_ret. rewrite Ew3. destruct (queue_limits_ok opts) as [Hlo Hhi].
  split_and!; [done|done|done|exact Hlo|exact Hhi|exact Hst|exact Hok3|].
  intros ->. rewrite Hn3 by done. by split; congruence.
Qed.

(** With memory, the write threads are created. *)
Lemma init_all_yields p ctx now cw cr kv : (∀ cf p, frugal (run_init cf p)) →
  reg_repr (lists p list_init) kv → is_Some (r_list (lists p list_init)) → Forall registers kv → plugins_ok p → write_threads p = None →
  ∃ res st calls p', plugin_init_all opts run_init fc p ctx now cw cr ⇓ (res, st, calls, p') ∧
    created (writers_num opts) cw (write_threads p').
Proof.
  intros Hf Hr Hl Hreg Hok Ew.
  destruct (frugal_wp _ _ (init_callbacks_wp p kv Hr Hl Hreg Hok)) as ([[res calls] p1] & E1 & _ & _ & Hok1 & Ew1 & _); [by apply init_loop_frugal|].
  destruct (start_threads_yields (writers_num opts) cw) as (o & E2 & Ho). set (p2 := with_writers p1 o).
  destruct (frugal_wp _ _ (init_read_threads_wp p2 cr Hok1)) as (p3 & E3 & _ & Ew3 & _); [apply init_read_threads_frugal|].
  exists res, (mk_settings pre post (queue_limits opts) (Some mx)), calls, p3. split.
  - unfold yields. rewrite init_all_steps by done. eapply yields_bind; [exact E1|]. cbn beta iota.
    eapply yields_bind; [|eapply yields_bind; [exact E3|apply yields_ret]].
    unfold start_write_threads. rewrite Ew1, Ew. eapply yields_bind; [exact E2|apply yields_ret].
  - rewrite Ew3. split; [|exact Ho]. exact (wp_at _ _ _ (start_threads_wp _ _) E2).
Qed.

End init_all.
End init_spec.

(** ** Shutdown *)

Lemma rinv_unlisted (s : rsys) : rinv s → rinv (set_list s []).
Proof. intros (Hl & Hr & Hx). split; [by repeat constructor|split; [exact Hr|exact Hx]]. Qed.

Section shutdown_spec.
Context {CB D : Type} {T : Type → Type} `{!MapSpec.KeyedMap cstr T}.
Abbreviation plugins := (plugins (CB := CB) (D := D) (T := T)).
Implicit Types (p : plugins) (cf : callback_func_t CB D) (kv : list (cstr * callback_func_t CB D)) (l : callback_list).

Lemma list_with p l r : lists (with_list p l r) l = r.
Proof. cbn. by rewrite decide_True. Qed.
Lemma list_with_ne p l l' r : l' ≠ l → lists (with_list p l r) l' = lists p l'.
Proof. intros Hne. cbn. by rewrite decide_False. Qed.

(** [p'] differs from [p] in the list [l] only. *)
Definition same_but p l p' : Prop :=
  (∀ l', l' ≠ l → lists p' l' = lists p l') ∧ events p' = events p ∧ reads p' = reads p ∧
  heap_exists p' = heap_exists p ∧ write_threads p' = write_threads p ∧ data_sets p' = data_sets p.
Lemma same_but_refl p l : same_but p l p.
Proof. done. Qed.
Lemma same_but_with p l r : same_but p l (with_list p l r).
Proof. split_and!; try done. intros l' Hne. by apply list_with_ne. Qed.
Lemma same_but_trans p l p1 p2 : same_but p l p1 → same_but p1 l p2 → same_but p l p2.
Proof.
  intros (Hl1 & ? & ? & ? & ? & ?) (Hl2 & ? & ? & ? & ? & ?). split_and!; try congruence. intros l' Hne. by rewrite Hl2, Hl1.
Qed.

Lemma destroy_wp p l kv : reg_repr (lists p l) kv →
  wp (destroy p l) (λ '(tr, p'), tr = [released l (owns kv)] ∧
    p' = with_list p l (mk_reg ∅ None (freed (lists p l) ++ owns kv))).
Proof.
  intros Hr. unfold destroy. apply wp_bind. eapply wp_mono; [by apply destroy_all_wp|]. intros r ->. apply wp_ret. cbn [freed].
  by rewrite drop_app_length.
Qed.

(** Destroying some of the lists. *)
Lemma destroy_lists_wp ls kvs : ∀ p, NoDup ls → (∀ l, l ∈ ls → reg_repr (lists p l) (kvs l)) →
  wp (destroy_lists p ls) (λ '(tr, p'), tr = map (λ l, released l (owns (kvs l))) ls ∧
    (∀ l, l ∈ ls → lists p' l = mk_reg ∅ None (freed (lists p l) ++ owns (kvs l))) ∧
    (∀ l, l ∉ ls → lists p' l = lists p l) ∧ events p' = events p ∧ reads p' = reads p ∧ data_sets p' = data_sets p).
Proof.
  induction ls as [|l ls IH]; intros p Hnd Hr; cbn [destroy_lists].
  { apply wp_ret. split_and!; try done. by intros l ?%elem_of_nil. }
  apply list.NoDup_cons in Hnd as [Hn Hnd]. apply wp_bind. eapply wp_mono; [apply destroy_wp, Hr; by left|].
  intros [tr p1] [-> ->]. apply wp_bind. eapply wp_mono; [apply IH; [done|]|].
  - intros l' Hl'. rewrite list_with_ne; [apply Hr; by right|by intros ->].
  - intros [tr' p'] (-> & Hin & Hout & Hev & Hre & Hds). apply wp_ret. split_and!; [done| | |exact Hev|exact Hre|exact Hds].
    + intros l' [->|Hl']%elem_of_cons.
      * by rewrite Hout, list_with.
      * rewrite Hin, list_with_ne by (done || by intros ->). done.
    + intros l' [Hne Hl']%not_elem_of_cons. rewrite Hout by done. by apply list_with_ne.
Qed.

Lemma flush_all_wp (r : registry CB D) kv : reg_repr r kv → wp (plugin_flush r None) (λ '(st, calls), st = 0 ∧ calls = calls_of kv).
Proof.
  intros Hr. unfold plugin_flush. destruct (r_list r) as [hd|] eqn:El.
  - rewrite (each_of_ret _ r kv) by done. rewrite bind_ret. apply wp_ret. split; [done|].
    assert (∀ acc, fold_each (λ (calls : list call) key (cf : callback_func_t CB D), (calls ++ [(key, cf_ctx cf)], true)) acc kv
                   = acc ++ calls_of kv) as E; [|by rewrite E].
    clear. induction kv as [|[k cf] kv IH]; intros acc; cbn; [by rewrite app_nil_r|]. by rewrite IH, <-app_assoc.
  - apply wp_ret. split; [done|]. destruct Hr as [_ (xs & He & ->)]. unfold entries in He. rewrite El in He. by destruct He as [-> _].
Qed.

Section loop.
Context (run_shutdown : callback_func_t CB D → plugins → M (Z * plugins)) (status : callback_func_t CB D → Z)
  (leaves : callback_func_t CB D → bool).

(** A shutdown callback may take its own entry out of the list. *)
Definition well_behaved (x : cstr * callback_func_t CB D) : Prop := ∀ p,
  run_shutdown x.2 p =
    if leaves x.2 then let* '(_, p) := plugin_unregister_shutdown p x.1 in ret (status x.2, p) else ret (status x.2, p).

Definition shutdown_events (x : cstr * callback_func_t CB D) : list event :=
  [called list_shutdown (x.1, cf_ctx x.2); released list_shutdown (if leaves x.2 then data_of x.2 else [])].

(** Taking out the entry the loop is at leaves the rest of the list linked. *)
Lemma unregister_here p hd pre e x post :
  r_list (lists p list_shutdown) = Some hd → entries (lists p list_shutdown) (pre ++ (e, x) :: post) →
  NoDup (pre ++ (e, x) :: post).*2.*1 →
  wp (plugin_unregister_shutdown p x.1) (λ '(st, p'), same_but p list_shutdown p' ∧ is_Some (r_list (lists p' list_shutdown)) ∧
    entries (lists p' list_shutdown) (pre ++ post) ∧ freed (lists p' list_shutdown) = freed (lists p list_shutdown) ++ data_of x.2).
Proof.
  intros El He Hnd. unfold plugin_unregister_shutdown, on, plugin_unregister. apply wp_bind.
  destruct (lists p list_shutdown) as [m [l|] fr] eqn:Er; [|done]. cbn [r_list r_mem freed] in *. clear El hd.
  pose proof He as [Hl _]. cbn in Hl. destruct x as [k cf]. cbn [fst snd].
  destruct (search_cases m l _ k Hl) as [(e' & pre' & old & post' & Es & Exs & Hpre)|[Es Hn]]; rewrite Es; cbn [mopt]; rewrite bind_ret.
  - assert (pre' = pre ∧ e' = e ∧ old = cf ∧ post' = post) as (-> & -> & -> & ->).
    { rewrite !fmap_app, !fmap_cons in Hnd. cbn [fst snd] in Hnd. apply list.NoDup_app in Hnd as (_ & Hdis & _).
      clear -Exs Hpre Hdis.
      revert pre' Exs Hpre Hdis. induction pre as [|[a [ka ca]] pre IH]; intros [|[a' [ka' ca']] pre'] E Hpre Hdis;
        cbn [app fmap list_fmap fst snd] in *.
      - by injection E as -> -> ->.
      - injection E as _ -> _ _. destruct Hpre. by left.
      - injection E as _ -> _ _. destruct (Hdis k); by left.
      - injection E as -> -> -> E. destruct (IH pre' E) as (-> & ?); [by apply not_elem_of_cons in Hpre as [_ ?]|intros y Hy; apply Hdis; by right|done]. }
    destruct (entries_remove _ _ _ _ _ _ _ He) as (m' & l' & n & -> & Hm' & He'). cbn [mopt]. rewrite bind_ret.
    apply wp_bind. eapply wp_mopt; [exact Hm'|]. cbn [destroy_callback add_freed r_mem r_list freed payload snd fst]. unfold llentry_destroy, node_free. rewrite Hm'.
    cbn [mopt]. rewrite bind_ret. apply wp_ret. apply wp_ret. rewrite list_with. split_and!; [apply same_but_with|by eexists|exact He'|done].
  - destruct Hn. rewrite !fmap_app, !fmap_cons. cbn. set_solver.
Qed.

Lemma entries_next (m : mem (cstr * callback_func_t CB D)) hd fr pre e x post : entries (mk_reg m (Some hd) fr) (pre ++ (e, x) :: post) →
  m !! e = Some (mk_node x (fst <$> head post)).
Proof.
  intros [[Hs _ _ _] _]. apply seg_app in Hs as (q & _ & -> & n & He & Hs). cbn in He. rewrite He. do 2 f_equal.
  destruct post as [|[a y] post]; [exact Hs|]. by destruct Hs as [-> _].
Qed.

Definition stays (x : ptr * (cstr * callback_func_t CB D)) : bool := negb (leaves x.2.2).
Definition left_data (x : cstr * callback_func_t CB D) : list D := if leaves x.2 then data_of x.2 else [].

Lemma filter_stays e k cf xs : filter (λ x, stays x = true) ((e, (k, cf)) :: xs) =
  if leaves cf then filter (λ x, stays x = true) xs else (e, (k, cf)) :: filter (λ x, stays x = true) xs.
Proof. rewrite filter_cons. unfold stays. cbn [snd]. by destruct (leaves cf). Qed.

Lemma shutdown_loop_wp fuel xs : ∀ p pre hd res tr,
  Forall well_behaved xs.*2 → r_list (lists p list_shutdown) = Some hd → entries (lists p list_shutdown) (pre ++ xs) →
  NoDup (pre ++ xs).*2.*1 → (length xs ≤ fuel)%nat →
  wp (shutdown_loop run_shutdown fuel p (fst <$> head xs) res tr) (λ '(res', tr', p'),
    res' = (if forallb (λ x, status x.2 =? 0) xs.*2 then res else -1) ∧ tr' = tr ++ (xs.*2 ≫= shutdown_events) ∧
    same_but p list_shutdown p' ∧ is_Some (r_list (lists p' list_shutdown)) ∧
    entries (lists p' list_shutdown) (pre ++ filter (λ x, stays x = true) xs) ∧
    freed (lists p' list_shutdown) = freed (lists p list_shutdown) ++ (xs.*2 ≫= left_data)).
Proof.
  revert fuel. induction xs as [|[e [k cf]] xs IH]; intros fuel p pre hd res tr Hw El He Hnd Hf.
  { destruct fuel; apply wp_ret; cbn; rewrite !app_nil_r in *; split_and!; try done; by eexists. }
  destruct fuel as [|fuel]; [cbn in Hf; lia|]. cbn [shutdown_loop head fmap option_fmap option_map fst].
  apply Forall_cons_1 in Hw as [Hwk Hw]. unfold well_behaved in Hwk. cbn [fst snd] in Hwk.
  destruct (lists p list_shutdown) as [m rl fr] eqn:Er. cbn [r_list r_mem freed] in *. subst rl.
  apply wp_bind. eapply wp_mopt; [by apply (entries_next m hd fr pre)|]. cbn [payload next]. rewrite Hwk.
  assert (NoDup (pre ++ xs).*2.*1 ∧ NoDup ((pre ++ [(e, (k, cf))]) ++ xs).*2.*1) as [Hnd1 Hnd2].
  { split; [|by rewrite <-app_assoc]. rewrite <-Permutation_middle in Hnd. by apply list.NoDup_cons in Hnd as [_ ?]. }
  rewrite filter_stays. destruct (leaves cf) eqn:Elv; cbn [negb]; apply wp_bind.
  - apply wp_bind. eapply wp_mono.
    { apply (unregister_here p hd pre e (k, cf) xs); [by rewrite Er|by rewrite Er|done]. }
    intros [st p1] (Hsame & [hd1 El1] & He1 & Hfr). apply wp_ret. rewrite Er in Hfr. cbn [freed snd] in Hfr. cbn beta iota.
    rewrite Hfr, drop_app_length. eapply wp_mono; [apply (IH fuel p1 pre hd1); [done..|cbn in Hf; lia]|].
    intros [[res' tr'] p'] (-> & -> & Hsame' & Hsm & He' & Hfr'). split_and!; [| |by eapply same_but_trans|done|done|].
    + cbn. destruct (status cf =? 0); [done|]. by destruct (forallb _ _).
    + rewrite <-app_assoc. cbn [fmap list_fmap mbind list_bind snd]. unfold shutdown_events at 2. cbn [fst snd]. by rewrite Elv.
    + rewrite Hfr', Hfr, <-app_assoc. cbn [fmap list_fmap mbind list_bind snd]. unfold left_data at 2. cbn [snd]. by rewrite Elv.
  - apply wp_ret. cbn beta iota. rewrite Er. cbn [freed]. rewrite drop_all.
    eapply wp_mono; [apply (IH fuel p (pre ++ [(e, (k, cf))]) hd); rewrite ?Er; cbn [r_list]; [done|done|by rewrite <-app_assoc|done|cbn in Hf; lia]|].
    intros [[res' tr'] p'] (-> & -> & Hsame' & Hsm & He' & Hfr'). split_and!; [| |done|done|by rewrite <-app_assoc in He'|].
    + cbn. destruct (status cf =? 0); [done|]. by destruct (forallb _ _).
    + rewrite <-app_assoc. cbn [fmap list_fmap mbind list_bind snd]. unfold shutdown_events at 2. cbn [fst snd]. by rewrite Elv.
    + rewrite Hfr', Er. cbn [fmap list_fmap mbind list_bind snd freed]. unfold left_data at 2. cbn [snd]. by rewrite Elv.
Qed.

Lemma filter_sublist_names kv : NoDup kv.*1 → NoDup (filter (λ x, leaves x.2 = false) kv).*1.
Proof. intros Hnd. eapply sublist_NoDup; [exact Hnd|]. apply fmap_sublist, sublist_filter. Qed.

(** The whole loop over the shutdown callbacks. *)
Lemma shutdown_callbacks_wp p kv : reg_repr (lists p list_shutdown) kv → Forall well_behaved kv →
  wp (shutdown_loop run_shutdown (traversal (r_mem (lists p list_shutdown))) p (llist_head (r_list (lists p list_shutdown))) 0 [])
     (λ '(res, tr, p'), res = (if forallb (λ x, status x.2 =? 0) kv then 0 else -1) ∧ tr = kv ≫= shutdown_events ∧
        same_but p list_shutdown p' ∧ reg_repr (lists p' list_shutdown) (filter (λ x, leaves x.2 = false) kv)).
Proof.
  intros [Hnd (xs & He & ->)] Hw. destruct (r_list (lists p list_shutdown)) as [hd|] eqn:El.
  - pose proof He as He0. unfold entries in He0. rewrite El in He0. destruct He0 as [[Hs _ _ Hndp] _].
    assert (llist_head (Some hd) = fst <$> head xs) as ->.
    { cbn [llist_head]. destruct xs as [|[a y] xs]; [exact Hs|]. by destruct Hs as [E _]. }
    eapply wp_mono; [apply (shutdown_loop_wp _ xs p [] hd); try done|].
    { pose proof (seg_length _ _ _ _ Hs Hndp). unfold traversal. lia. }
    intros [[res tr] p'] (-> & -> & Hsame & _ & He' & _). split_and!; [done|done|done|].
    split; [by apply filter_sublist_names|]. eexists. split; [exact He'|]. cbn [app]. clear.
    induction xs as [|[e [k cf]] xs IH]; [done|]. rewrite filter_stays, fmap_cons, filter_cons. cbn [snd].
    destruct (leaves cf); cbn; by rewrite ?IH.
  - unfold entries in He. rewrite El in He. destruct He as [-> Hm]. cbn [llist_head]. destruct (traversal _); apply wp_ret.
    all: split_and!; [done|done|done|]. all: split; [constructor|exists []; unfold entries; by rewrite El].
Qed.
End loop.

(** The list of read callbacks plays no part in it: the single run leaves
    names in the list whose read functions are gone. *)
Lemma stop_reading_wp p : rinv (set_list (reads p) []) → forallb is_rexit (readers (reads p)) = true →
  wp (stop_reading p) (λ p', lists p' = lists p ∧ events p' = events p ∧ data_sets p' = data_sets p ∧ read_list (reads p') = [] ∧
    ∀ q, is_Some (rfs (reads p') !! q) ↔ q ∈ lost (reads p)).
Proof.
  intros (Hl & _ & xs & Hh & Hp) Hex. cbn [read_list set_list rfs read_heap lost] in *.
  change (hands (set_list (reads p) [])) with (hands (reads p)) in Hp. unfold stop_reading. rewrite Hex. cbn [negb].
  destruct (hands_exit _ Hex) as [Eh _]. rewrite Eh in Hp.
  assert (rinv (mk_rsys (rfs (reads p)) (read_heap (reads p)) []
    (match readers (reads p) with [] => read_loop (reads p) | _ => false end) [] (lost (reads p)))) as Hinv.
  { split; [done|]. split; [constructor|]. by exists xs. }
  destruct (shutdown_good _ Hinv eq_refl) as (s' & Ed & _ & _ & _ & Elo & Ell & Hd). apply wp_bind. eapply wp_mopt; [exact Ed|].
  apply wp_ret. cbn [lists events reads data_sets with_heap with_reads]. rewrite Elo in Hd. done.
Qed.
End shutdown_spec.

Section claims.
Context {CB D : Type} {T : Type → Type} `{!MapSpec.KeyedMap cstr T} `{!MapSpec.KeyedMapLaws cstr T}.
Abbreviation plugins := (plugins (CB := CB) (D := D) (T := T)).
Implicit Types (p : plugins) (cf : callback_func_t CB D).

(** The read callback of a flush callback flushes exactly that one. *)
Lemma flush_timeout_spec p cb kv : reg_repr (lists p list_flush) kv →
  wp (plugin_flush_timeout_callback p cb) (λ '(st, calls), st = 0 ∧ calls = calls_of (filter (λ x, x.1 = fc_name cb) kv)).
Proof.
  intros Hr. unfold plugin_flush_timeout_callback, plugin_flush. destruct (r_list (lists p list_flush)) as [hd|] eqn:El.
  - rewrite (each_of_ret _ _ kv) by done. rewrite bind_ret. apply wp_ret. split; [done|].
    match goal with |- fold_each ?b [] kv = _ => assert (∀ acc, fold_each b acc kv = acc ++ calls_of (filter (λ x, x.1 = fc_name cb) kv)) as E end; [|exact (E [])].
    clear. induction kv as [|[k cf] kv IH]; intros acc; cbn [fold_each]; [by rewrite app_nil_r|]. rewrite filter_cons. cbn [fst].
    destruct (Z.eqb_spec (strcmp (fc_name cb) k) 0) as [Ek%strcmp_eq|Hne].
    + rewrite decide_True by done. etrans; [apply IH|]. by rewrite <-app_assoc.
    + rewrite decide_False; [apply IH|]. intros E. apply Hne. by apply strcmp_eq.
  - apply wp_ret. split; [done|]. destruct Hr as [_ (xs & He & ->)]. unfold entries in He. rewrite El in He. by destruct He as [-> _].
Qed.

(** The single run of the option -T, when no read thread holds a callback:
    every read callback that is allocated is called exactly once, those that
    were marked for removal included, in the order of their next reads; the
    status is -1 when one of them fails; every one of them is freed and the
    heap is empty, while the list still names them. *)
Theorem plugin_read_all_once_spec (read : read_func_t → Z) p :
  rinv (reads p) → readers (reads p) = [] → lost (reads p) = [] → heap_exists p = true →
  wp (plugin_read_all_once read p) (λ '(res, calls, p'),
    (∃ s, p' = with_reads p s ∧ readers s = [] ∧ lost s = [] ∧ rinv (set_list s [])) ∧
    calls ≡ₚ (map_to_list (rfs (reads p))).*2 ∧ StronglySorted read_order calls ∧
    res = (if forallb (λ x, read x =? 0) calls then 0 else -1) ∧
    rfs (reads p') = ∅ ∧ list_len (read_heap (reads p')) = 0 ∧ read_list (reads p') = read_list (reads p)).
Proof.
  intros (_ & _ & xs & Hh & Hp) Er Elo Ex. assert (hands (reads p) = []) as Eh by (unfold hands; by rewrite Er).
  unfold plugin_read_all_once. rewrite Ex, Eh, Elo in *. cbn [negb].
  pose proof Hh as [[_ Elen _ _] _ _ _]. apply wp_bind. eapply wp_mono; [apply (read_all_loop_spec read _ _ xs []); [done..|lia]|].
  intros [[res calls] s'] (out & -> & Hout & Hs & Hres & Hh' & Hp' & Hl & Er' & Elo'). apply wp_ret. cbn [app reads with_reads].
  pose proof Hh' as [[_ Elen' _ _] _ _ _]. pose proof Hp' as [_ Hd'].
  split_and!; [|  |done|done| |done|done].
  - exists s'. rewrite Er in Er'. split_and!; [done|done|congruence|]. split; [by repeat constructor|].
    split; [cbn [readers set_list]; rewrite Er'; constructor|]. exists []. split; [exact Hh'|].
    unfold hands. cbn [readers lost set_list]. by rewrite Er', Elo', Elo.
  - rewrite Hout. destruct Hp as [Hnd Hd]. unfold places in Hnd, Hd. rewrite app_nil_r in *. by apply ids_all.
  - apply map_empty. intros q. destruct (rfs s' !! q) eqn:E; [|done]. assert (is_Some (rfs s' !! q)) as Hq%Hd' by (by rewrite E).
    by apply elem_of_nil in Hq.
Qed.

Lemma shutdown_all_wp run status leaves p (kvs : callback_list → list (cstr * callback_func_t CB D)) :
  (∀ l, reg_repr (lists p l) (kvs l)) → rinv (set_list (reads p) []) → forallb is_rexit (readers (reads p)) = true →
  Forall (well_behaved run status leaves) (kvs list_shutdown) → TypesDb.sets_ok (data_sets p) →
  wp (plugin_shutdown_all run p) (λ '(res, tr, p'),
    res = (if forallb (λ x, status x.2 =? 0) (kvs list_shutdown) then 0 else -1) ∧
    tr = [released list_init (owns (kvs list_init)); readers_stopped; writers_stopped] ++
         map (called list_flush) (calls_of (kvs list_flush)) ++ (kvs list_shutdown ≫= shutdown_events leaves) ++
         [released list_flush (owns (kvs list_flush)); released list_missing (owns (kvs list_missing));
          events_released (filter (λ cef, is_active cef = true) (list_cache_event (events p)) ≫= λ cef, free_userdata (cef_udata cef));
          released list_write (owns (kvs list_write)); released list_notification (owns (kvs list_notification));
          released list_shutdown (owns (filter (λ x, leaves x.2 = false) (kvs list_shutdown)));
          released list_log (owns (kvs list_log))] ∧
    (∀ l, r_list (lists p' l) = None ∧ r_mem (lists p' l) = ∅ ∧
      (l ≠ list_shutdown → freed (lists p' l) = freed (lists p l) ++ owns (kvs l))) ∧
    Forall (λ cef, is_active cef = false) (list_cache_event (events p')) ∧
    plugins_loaded p' = None ∧ data_sets p' = None ∧
    read_list (reads p') = [] ∧ ∀ q, is_Some (rfs (reads p') !! q) ↔ q ∈ lost (reads p)).
Proof.
  intros Hr Hinv Hex Hw Hsets. unfold plugin_shutdown_all. apply wp_bind. eapply wp_mono; [by apply destroy_wp|].
  intros [tr1 p1] [-> ->]. apply wp_bind. eapply wp_mono; [by apply stop_reading_wp|]. intros p2 (El2 & Ev2 & Ed2 & Hrl2 & Hrf2).
  assert (∀ l, l ≠ list_init → lists (with_writers p2 None) l = lists p l) as Hp2.
  { intros l Hne. cbn [lists with_writers]. rewrite El2. by apply list_with_ne. }
  apply wp_bind. eapply wp_mono; [apply (flush_all_wp _ (kvs list_flush)); by rewrite Hp2|]. intros [st flushed] [-> ->].
  apply wp_bind. eapply wp_mono; [apply (shutdown_callbacks_wp run status leaves _ (kvs list_shutdown)); [by rewrite Hp2|done]|].
  intros [[res tr2] p3] (-> & -> & (Hp3 & Ev3 & Re3 & _ & _ & Ed3) & Hr3).
  assert (∀ l, l ≠ list_init → l ≠ list_shutdown → lists p3 l = lists p l) as Hp3' by (intros l ? ?; by rewrite Hp3, Hp2).
  apply wp_bind. eapply wp_mono; [apply (destroy_lists_wp _ kvs)|].
  { by apply (bool_decide_unpack _). }
  { intros l Hl. rewrite !elem_of_cons, elem_of_nil in Hl. rewrite Hp3'; naive_solver. }
  intros [tr3 p4] (-> & Hin4 & Hout4 & Ev4 & Re4 & Ed4). unfold destroy_cache_event_callbacks. rewrite bind_ret.
  set (kvs' := λ l, match l with list_shutdown => filter (λ x, leaves x.2 = false) (kvs list_shutdown) | l => kvs l end).
  apply wp_bind. eapply wp_mono; [apply (destroy_lists_wp _ kvs')|].
  { by apply (bool_decide_unpack _). }
  { intros l Hl. rewrite !elem_of_cons, elem_of_nil in Hl. cbn [lists with_events].
    rewrite Hout4 by (rewrite !elem_of_cons, elem_of_nil; naive_solver).
    destruct (decide (l = list_shutdown)) as [->|Hne]; [done|]. rewrite Hp3' by naive_solver. destruct l; try done; naive_solver. }
  intros [tr5 p5] (-> & Hin5 & Hout5 & Ev5 & Re5 & Ed5).
  assert (data_sets p5 = data_sets p) as -> by (rewrite Ed5; cbn [data_sets with_events]; rewrite Ed4, Ed3; exact Ed2).
  rewrite TypesDb.free_data_sets_ret, bind_ret by done. apply wp_ret.
  assert (events p4 = events p) as Hev by (rewrite Ev4, Ev3; exact Ev2).
  assert (reads p5 = reads p2) as Hre by (rewrite Re5; cbn [reads with_events]; rewrite Re4, Re3; done).
  rewrite Hev in Ev5 |- *. cbn [lists events reads plugins_loaded data_sets with_tables]. rewrite Ev5, Hre. split_and!; [done|done| | |done|done|done|done].
  - intros l. destruct (decide (l ∈ [list_write; list_notification; list_shutdown; list_log])) as [Hl|Hl].
    + rewrite Hin5 by done. split_and!; [done|done|]. intros Hne. cbn [freed lists with_events]. rewrite !elem_of_cons, elem_of_nil in Hl.
      rewrite Hout4 by (rewrite !elem_of_cons, elem_of_nil; naive_solver). rewrite Hp3' by naive_solver. by destruct l.
    + rewrite Hout5 by done. cbn [lists with_events]. destruct (decide (l ∈ [list_flush; list_missing])) as [Hl2|Hl2].
      * rewrite Hin4 by done. split_and!; [done|done|]. intros Hne. cbn [freed]. rewrite !elem_of_cons, elem_of_nil in Hl2.
        by rewrite Hp3' by naive_solver.
      * assert (l = list_init) as -> by (destruct l; first [done|by destruct Hl; apply (bool_decide_unpack _)|by destruct Hl2; apply (bool_decide_unpack _)]).
        rewrite Hout4 by done. rewrite Hp3 by done. cbn [lists with_writers]. by rewrite El2, list_with.
  - cbn [list_cache_event]. apply list.Forall_forall. intros cef (cef0 & -> & _)%list_elem_of_fmap. by destruct (is_active cef0) eqn:E.
Qed.

(** C10. Shutdown, once the read threads have ended, with shutdown callbacks
    that do nothing to the plugins but perhaps take out themselves: it is free
    of undefined behaviour; the init callbacks and all read functions go first;
    then the flush callbacks are called, then every shutdown callback exactly
    once, each list in the order of registration; a shutdown callback that takes
    itself out has its user data freed at that point; only after that is the
    user data of the flush, missing, event, write, notification, shutdown and
    log callbacks freed, in this order and each piece once; the status is -1
    when a shutdown callback fails; no callback and no read function is
    left. *)
Theorem plugin_shutdown_all_spec run status leaves p (kvs : callback_list → list (cstr * callback_func_t CB D)) :
  (∀ l, reg_repr (lists p l) (kvs l)) → rinv (reads p) → forallb is_rexit (readers (reads p)) = true →
  Forall (well_behaved run status leaves) (kvs list_shutdown) → TypesDb.sets_ok (data_sets p) →
  wp (plugin_shutdown_all run p) (λ '(res, tr, p'),
    res = (if forallb (λ x, status x.2 =? 0) (kvs list_shutdown) then 0 else -1) ∧
    tr = [released list_init (owns (kvs list_init)); readers_stopped; writers_stopped] ++
         map (called list_flush) (calls_of (kvs list_flush)) ++ (kvs list_shutdown ≫= shutdown_events leaves) ++
         [released list_flush (owns (kvs list_flush)); released list_missing (owns (kvs list_missing));
          events_released (filter (λ cef, is_active cef = true) (list_cache_event (events p)) ≫= λ cef, free_userdata (cef_udata cef));
          released list_write (owns (kvs list_write)); released list_notification (owns (kvs list_notification));
          released list_shutdown (owns (filter (λ x, leaves x.2 = false) (kvs list_shutdown)));
          released list_log (owns (kvs list_log))] ∧
    (∀ l, r_list (lists p' l) = None ∧ r_mem (lists p' l) = ∅ ∧
      (l ≠ list_shutdown → freed (lists p' l) = freed (lists p l) ++ owns (kvs l))) ∧
    Forall (λ cef, is_active cef = false) (list_cache_event (events p')) ∧
    plugins_loaded p' = None ∧ data_sets p' = None ∧
    read_list (reads p') = [] ∧ ∀ q, is_Some (rfs (reads p') !! q) ↔ q ∈ lost (reads p)).
Proof. intros ? ?. by apply shutdown_all_wp, rinv_unlisted. Qed.
End claims.

(** ** Examples *)

#[local] Existing Instances Avl.avl_map Avl.avl_laws demo_strtod.
Abbreviation demo_plugins := (plugins (CB := Z) (D := Z) (T := Avl.c_avl_tree cstr)).

Definition no_callbacks : registry Z Z := mk_reg ∅ None [].
Definition demo_state (with_callbacks : callback_list → bool) (s : rsys) : demo_plugins :=
  mk_plugins (λ l, if with_callbacks l then demo_reg else no_callbacks) (mk_events [] []) s true None None None.
Definition demo_kvs (with_callbacks : callback_list → bool) (l : callback_list) : list (cstr * callback_func_t Z Z) :=
  if with_callbacks l then demo_kv else [].

Lemma demo_lists b s l : reg_repr (lists (demo_state b s) l) (demo_kvs b l).
Proof.
  unfold demo_state, demo_kvs. cbn [lists]. destruct (b l); [apply demo_repr|]. split; [constructor|]. by exists [].
Qed.

(** A shutdown callback that takes itself out. *)
Definition demo_leaves (cf : callback_func_t Z Z) : bool := cf_callback cf =? 1.
Definition demo_run (cf : callback_func_t Z Z) (p : demo_plugins) : M (Z * demo_plugins) :=
  if demo_leaves cf then let* '(_, p) := plugin_unregister_shutdown p $"csv" in ret (cf_callback cf - 1, p)
  else ret (cf_callback cf - 1, p).
Definition flush_shutdown (l : callback_list) : bool := bool_decide (l = list_flush ∨ l = list_shutdown).

Lemma plugin_shutdown_all_spec_witness :
  wp (plugin_shutdown_all demo_run (demo_state flush_shutdown (rinit 0))) (λ '(res, tr, p'), res = -1 ∧
    tr = [released list_init []; readers_stopped; writers_stopped;
          called list_flush ($"csv", demo_ctx $"csv"); called list_flush ($"Log", demo_ctx $"log");
          called list_shutdown ($"csv", demo_ctx $"csv"); released list_shutdown [1];
          called list_shutdown ($"Log", demo_ctx $"log"); released list_shutdown [];
          released list_flush [1; 2]; released list_missing []; events_released []; released list_write [];
          released list_notification []; released list_shutdown [2]; released list_log []] ∧
    ∀ l, r_list (lists p' l) = None).
Proof.
  eapply wp_mono; [apply (plugin_shutdown_all_spec demo_run (λ cf, cf_callback cf - 1) demo_leaves _ (demo_kvs flush_shutdown))|].
  - apply demo_lists.
  - apply rinit_inv.
  - done.
  - apply Forall_cons_2; [|apply Forall_cons_2; [|constructor]]; intros p; reflexivity.
  - exact I.
  - intros [[res tr] p'] (-> & -> & Hl & _). split_and!; [by vm_compute|by vm_compute|]. intros l. apply Hl.
Defined.

(** Two read callbacks, of which the second was removed. *)
Definition read_actions : list raction :=
  [ReadLoop.Register (mk_rf [] $"cpu" RF_SIMPLE 10 0 0) 7 true true true;
   ReadLoop.Register (mk_rf [] $"df" RF_COMPLEX 10 0 0) 5 true true true; ReadLoop.Unregister $"df"].
Definition read_state : rsys := match rrun 100 10 (rinit 0) read_actions with Next s => s | _ => rinit 0 end.
Lemma read_state_inv : rinv read_state.
Proof.
  unfold read_state. destruct (rrun 100 10 (rinit 0) read_actions) as [| |s] eqn:E; [apply rinit_inv..|].
  eapply (rreachable_inv 100 10), rrun_reachable; [apply rreach_init| |exact E]. by repeat constructor.
Qed.

Lemma plugin_read_all_once_spec_witness :
  wp (plugin_read_all_once (λ x, if rf_interval x =? 10 then 0 else -1) (demo_state flush_shutdown read_state))
    (λ '(res, calls, p'), length calls = 2%nat ∧ StronglySorted read_order calls ∧ rfs (reads p') = ∅ ∧
       read_list (reads p') ≠ []).
Proof.
  eapply wp_mono; [apply (plugin_read_all_once_spec (λ x, if rf_interval x =? 10 then 0 else -1) (demo_state flush_shutdown read_state))|].
  - exact read_state_inv.
  - by vm_compute.
  - by vm_compute.
  - done.
  - intros [[res calls] p'] (_ & Hc & Hs & _ & He & _ & Hl). split_and!; [|exact Hs|exact He|].
    + rewrite (Permutation_length Hc). by vm_compute.
    + rewrite Hl. by vm_compute.
Defined.

Definition names_after_run : option (list cstr * outcome (Z * rsys)) :=
  match plugin_read_all_once (λ _, 0) (demo_state flush_shutdown read_state) [] with
  | Some ((_, calls, p), _) => Some (map rf_name calls, plugin_unregister_read (reads p) $"cpu")
  | None => None
  end.

(** The single run calls the callback that was removed, and taking out a
    callback after it touches a read function that is freed. *)
Lemma single_run_calls_removed : names_after_run = Some ([$"df"; $"cpu"], Undefined).
Proof. by vm_compute. Qed.

Definition set_option (k v : cstr) (o : OConfig.cf_global_option_t) : OConfig.cf_global_option_t :=
  if bool_decide (OConfig.go_key o = k) then OConfig.mk_option k (Some v) false (OConfig.go_def o) else o.
Definition demo_options : list OConfig.cf_global_option_t := OConfig.cf_global_options $"/var/lib" $"/var/run/pid".

(** A negative number of write threads is not noticed: no thread is created. *)
Theorem negative_write_threads create :
  let opts := map (set_option $"WriteThreads" $"-1") demo_options in
  writers_num opts = 2 ^ 64 - 1 ∧ ∀ o, ∃ o', start_threads (writers_num opts) create o = Some (None, o').
Proof.
  intros opts. assert (writers_num opts = 2 ^ 64 - 1) as -> by (by vm_compute). split; [done|].
  intros [|b o]; unfold start_threads, bind, alloc, ret; cbn [negb orb]; eexists; [done|]. by destruct b.
Qed.

Definition demo_fc : FilterChain.fc_state unit unit := FilterChain.mk_fc [] [] ∅ None true.
Definition demo_init (cf : callback_func_t Z Z) (p : demo_plugins) : M (Z * demo_plugins) := ret (cf_callback cf - 1, p).
Definition init_only (l : callback_list) : bool := bool_decide (l = list_init).

Lemma demo_plugins_ok b s : rinv s → plugins_ok (demo_state b s).
Proof. intros Hs. split_and!; [intros l; eexists; apply demo_lists|exact Hs|exact I]. Qed.


(** Registering a flush callback with an interval registers a read callback that
    flushes it. *)
Definition flush_ctx : plugin_ctx_t := mk_ctx (Some $"csv") 10 60 30.
Lemma register_flush_example : ∃ p', plugin_register_flush demo_options (demo_state init_only (rinit 0)) flush_ctx $"csv" 1 None 5
    ⇓ (0, Some (mk_flush $"csv" 30), p') ∧
  (λ x, (rf_name x, rf_group x, rf_interval x)) <$> (map_to_list (rfs (reads p'))).*2 = [($"flush/csv", $"flush", 60)] ∧
  plugin_flush_timeout_callback p' (mk_flush $"csv" 30) ⇓ (0, [($"csv", flush_ctx)]).
Proof. eexists. split_and!; by vm_compute. Qed.
