(* ===== verification/ValueLists.v ===== *)
(** * Old value lists in the daemon (src/daemon/plugin.c, src/daemon/utils_cache.c)

    Value lists are copied, become one metric family for each of their values
    and go to the write queue through plugin_dispatch_metric_family; the
    cache's functions of this interface read a rate for each data source. *)

From Stdlib Require Import ZArith Lia Ascii String SpecFloat.
From stdpp Require Import base numbers option list.
From S2P Require Import Prelude MapSpec Double StrBuf LabelSet Metric Plugin Dispatch Values.
From S2P Require MetaData Cache FilterChain OConfig Lifecycle Avl.

Abbreviation queue_elem := (metric_family_t * plugin_ctx_t)%type.

Section lists.
Context `{Sysconf, Strtod}.
Context (opts : list OConfig.cf_global_option_t) (hostname_g : cstr) (plugin_get_ds : cstr → option data_set_t)
  (now : Z) (ctx : plugin_ctx_t).

(** ** Copies *)

(** [true]: the meta data of the original were destroyed too.  The copy of the
    structure shares them until they are cloned. *)
Definition plugin_value_list_clone (vl_orig : value_list_t) : M (option value_list_t * bool) :=
  let* ok := alloc in
  if negb ok then ret (None, false) else
  let vl := if bool_decide (vl_host vl_orig = []) then set_vl_host (FilterChain.copy_name hostname_g) vl_orig else vl_orig in
  let* ok := alloc in
  if negb ok then ret (None, bool_decide (is_Some (vl_meta vl_orig))) else
  let* meta :=
    match vl_meta vl with
    | None => ret None
    | Some md => let* '(_, copy) := MetaData.meta_data_clone md in ret copy
    end in
  let vl := set_vl_meta meta vl in
  if bool_decide (is_Some (vl_meta vl_orig)) && bool_decide (meta = None) then ret (None, false) else
  let vl := if vl_time vl =? 0 then set_vl_time now vl else vl in
  let* vl :=
    if vl_interval vl =? 0 then let* iv := Lifecycle.plugin_get_interval opts ctx in ret (set_vl_interval iv vl)
    else ret vl in
  ret (Some vl, false).

(** ** Dispatch *)

(** [load i]: the length of the write queue and the random number at the
    [i]-th family.  The status and the elements that are enqueued. *)
Fixpoint values_loop (load : nat → Z * double) (iv : Z) (vl : value_list_t) (ds : data_set_t) (n i : nat) (s : dispatch_state) :
    M (Z * list queue_elem * dispatch_state) :=
  match n with
  | O => ret (0, [], s)
  | S n =>
      let* fam := plugin_value_list_to_metric_family hostname_g vl ds i in
      match fam with
      | inl errno => ret (errno, [], s)
      | inr fam =>
          let '(wql, q) := load i in
          let* '(status, e, s) := plugin_dispatch_metric_family s wql q now iv ctx fam in
          let* _ := metric_family_free fam in
          if negb (status =? 0) then ret (status, option_list e, s)
          else let* '(status, es, s) := values_loop load iv vl ds n (S i) s in ret (status, option_list e ++ es, s)
      end
  end.

Definition plugin_dispatch_values (load : nat → Z * double) (iv : Z) (vl : value_list_t) (s : dispatch_state) :
    M (Z * list queue_elem * dispatch_state) :=
  match plugin_get_ds (vl_type vl) with
  | None => ret (EINVAL, [], s)
  | Some ds => values_loop load iv vl ds (length (vl_values vl)) 0 s
  end.

(** The arguments after [store_type]: names and values of that type. *)
Abbreviation varargs := (list (cstr * value_t)).

Definition gauge_of (v : value_t) : M double := match v with v_gauge g => ret g | _ => crash end.
Fixpoint gauge_sum (args : varargs) (sum : double) : M double :=
  match args with
  | [] => ret sum
  | (_, v) :: args => let* g := gauge_of v in gauge_sum args (if is_nan g then sum else fadd sum g)
  end.

(** The value that is stored; with another type the arguments get out of step,
    which is undefined. *)
Definition stored_value (store_percentage : bool) (store_type : Z) (sum : double) (v : value_t) : M value_t :=
  if store_type =? DS_TYPE_GAUGE then
    let* g := gauge_of v in
    ret (v_gauge (if store_percentage then fmul g (if feq sum fzero then NAN else fdiv (of_Z 100) sum) else g))
  else if store_type =? DS_TYPE_COUNTER then match v with v_counter n => ret (v_counter n) | _ => crash end
  else if store_type =? DS_TYPE_DERIVE then match v with v_derive d => ret (v_derive d) | _ => crash end
  else crash.

Definition set_type_instance (ti : cstr) (vl : value_list_t) : value_list_t :=
  set_names (vl_host vl) (vl_plugin vl) (vl_plugin_instance vl) (vl_type vl) ti vl.
Definition set_type (ty : cstr) (vl : value_list_t) : value_list_t :=
  set_names (vl_host vl) (vl_plugin vl) (vl_plugin_instance vl) ty (vl_type_instance vl) vl.

Fixpoint multivalue_loop (load : nat → nat → Z * double) (iv : Z) (store_percentage : bool) (store_type : Z) (sum : double)
    (args : varargs) (k : nat) (vl : value_list_t) (s : dispatch_state) : M (Z * list queue_elem * dispatch_state) :=
  match args with
  | [] => ret (0, [], s)
  | (name, v) :: args =>
      let* v := stored_value store_percentage store_type sum v in
      let vl := set_values [v] (set_type_instance (FilterChain.copy_name name) vl) in
      let* '(status, es, s) := plugin_dispatch_values (load k) iv vl s in
      let* '(failed, es', s) := multivalue_loop load iv store_percentage store_type sum args (S k) vl s in
      ret ((if negb (status =? 0) then 1 else 0) + failed, es ++ es', s)
  end.

(** The result of the copy is not looked at. *)
Definition plugin_dispatch_multivalue (load0 : Z * double) (load : nat → nat → Z * double) (iv : Z) (template : value_list_t)
    (store_percentage : bool) (store_type : Z) (args : varargs) (s : dispatch_state) :
    M (Z * list queue_elem * dispatch_state) :=
  if check_drop_value (limits s) load0.1 load0.2 then
    ret (0, [], if record_statistics s then mk_dispatch (limits s) true (i64 (stats_values_dropped s + 1)) else s)
  else
    let* _ := massert (length (vl_values template) =? 1)%nat in
    let* sum := if store_type =? DS_TYPE_GAUGE then gauge_sum args fzero else ret fzero in
    let* '(vl, _) := plugin_value_list_clone template in
    let* vl := mopt vl in
    let vl := if store_percentage then set_type $"percent" vl else vl in
    multivalue_loop load iv store_percentage store_type sum args 0 vl s.

(** ** The cache *)

Section cache.
Context {T : Type → Type} `{!KeyedMap cstr T}.

(** [errno], or the rates ([None] where the cache left the number alone). *)
Fixpoint rate_vl_loop (c : Cache.cache T) (ds : data_set_t) (vl : value_list_t) (n i : nat) :
    M ((Z + list (option double)) * Cache.cache T) :=
  match n with
  | O => ret (inr [], c)
  | S n =>
      let* fam := plugin_value_list_to_metric_family hostname_g vl ds i in
      match fam with
      | inl errno => ret (inl errno, c)
      | inr fam =>
          let* m := mopt (head (metric fam)) in
          let* '(status, rate, c) := Cache.uc_get_rate c fam m in
          if negb (status =? 0) then ret (inl status, c)
          else
            let* _ := metric_family_free fam in
            let* '(r, c) := rate_vl_loop c ds vl n (S i) in
            ret (match r with inl errno => inl errno | inr l => inr (rate :: l) end, c)
      end
  end.
Definition uc_get_rate_vl (c : Cache.cache T) (ds : data_set_t) (vl : value_list_t) : M ((Z + list (option double)) * Cache.cache T) :=
  let* ok := alloc in
  if negb ok then ret (inl ENOMEM, c) else rate_vl_loop c ds vl (length (set_ds ds)) 0.
End cache.
End lists.

(** These functions of the cache have no implementation. *)
Definition uc_meta_data_get_signed_int_vl (vl : value_list_t) (key : cstr) : Z * option Z := (ENOTSUP, None).
Definition uc_meta_data_get_unsigned_int_vl (vl : value_list_t) (key : cstr) : Z * option Z := (ENOTSUP, None).
Definition uc_meta_data_add_signed_int_vl (vl : value_list_t) (key : cstr) (value : Z) : Z := ENOTSUP.
Definition uc_meta_data_add_unsigned_int_vl (vl : value_list_t) (key : cstr) (value : Z) : Z := ENOTSUP.

(** ** The family of a value *)

Section family.
Context `{Sysconf}.

Definition is_total (d : data_source_t) : bool := (ds_type d =? DS_TYPE_COUNTER) || (ds_type d =? DS_TYPE_DERIVE).
Definition family_text (vl : value_list_t) (d : data_source_t) : cstr :=
  $"collectd" ++ (if strcmp (vl_plugin vl) (vl_type vl) =? 0 then [] else $"_" ++ vl_plugin vl) ++ $"_" ++ vl_type vl ++
  (if strcmp $"value" (ds_name d) =? 0 then [] else $"_" ++ ds_name d) ++ (if is_total d then $"_total" else []).

Lemma appends_eq f s s' : appends f s → s = s' → appends f s'.
Proof. by intros ? <-. Qed.

Lemma appends_if (b : bool) f g s s' : appends f s → appends g s' → appends (λ x, if b then f x else g x) (if b then s else s').
Proof. by destruct b. Qed.

Lemma family_name_appends vl d : appends (λ b, metric_family_name b vl d) (family_text vl d).
Proof.
  assert (∀ f s t, appends f s → appends (λ b, sor (f b) (λ b, strbuf_print b t)) (s ++ t)) as Hpr.
  { intros f s t Hf. apply sor_appends; [done|apply print_appends]. }
  unfold metric_family_name, family_text, is_total. eapply appends_eq.
  - apply (appends_if _ (λ b, sor _ _)); [apply Hpr|].
    all: apply (appends_if (strcmp $"value" (ds_name d) =? 0) _ (λ b, sor _ _)); [|apply (Hpr (λ b, sor _ _)), Hpr].
    all: apply (Hpr (λ b, sor _ _)), Hpr.
    all: apply (appends_if (strcmp (vl_plugin vl) (vl_type vl) =? 0) _ (λ b, sor _ _)); [apply print_appends|].
    all: apply (Hpr (λ b, sor _ _)), Hpr, print_appends.
  - destruct (strcmp _ (vl_type vl) =? 0), (strcmp $"value" _ =? 0), (_ || _); by rewrite ?app_nil_r, <-?app_assoc.
Qed.

(** The labels, in the order they are set. *)
Definition label_list (hostname_g : cstr) (vl : value_list_t) : list (cstr * cstr) :=
  [($"instance", if bool_decide (vl_host vl = []) then hostname_g else vl_host vl)] ++
  (if bool_decide (vl_plugin_instance vl = []) then [] else [(vl_plugin vl, vl_plugin_instance vl)]) ++
  (if bool_decide (vl_type_instance vl = []) then []
   else [(if bool_decide (vl_plugin_instance vl = []) then vl_plugin vl else $"type", vl_type_instance vl)]).
Definition label_map (l : list (cstr * cstr)) : list (cstr * cstr) := foldl (λ kv p, (add_spec kv p.1 p.2).2) [] l.

Definition settable (p : cstr * cstr) : Prop := valid_label p.1 = true ∧ p.2 ≠ [] ∧ no_nul p.2.

Lemma add_spec_zero kv nm v : settable (nm, v) → (add_spec kv nm v).1 = 0.
Proof.
  intros (Hn & Hv & _). cbn [fst snd] in *. unfold add_spec. destruct (Spec.get nm kv) eqn:E; [done|]. destruct v; [done|].
  unfold create_spec. rewrite Hn. cbn [negb]. by rewrite E.
Qed.

Definition plain_of (kv : list (cstr * cstr)) (m : metric_t) : metric_t := mk_metric (embed kv) (m_value m) (time m) (interval m) (meta m).

Lemma label_set_step m kv nm v : label m = embed kv → lwf kv → settable (nm, v) →
  metric_label_set m nm (Some v) ⇓ (0, plain_of (add_spec kv nm v).2 m).
Proof.
  intros Hl Hw Hs. pose proof Hs as (_ & Hv & _). destruct (add_ok kv nm v Hw Hv) as [Ha _].
  rewrite add_spec_zero in Ha by done. unfold metric_label_set. rewrite Hl. by eapply yields_bind; [exact Ha|].
Qed.

Lemma label_or_step (act : M (Z * metric_t)) m kv nm v : act ⇓ (0, m) → label m = embed kv → lwf kv → settable (nm, v) →
  label_or act nm v ⇓ (0, plain_of (add_spec kv nm v).2 m).
Proof.
  intros Ha Hl Hw Hs. unfold label_or. eapply yields_bind; [exact Ha|]. cbn [negb Z.eqb].
  by eapply yields_bind; [by apply (label_set_step m kv)|].
Qed.

Lemma step_lwf kv nm v : lwf kv → settable (nm, v) → lwf (add_spec kv nm v).2.
Proof. intros Hw (_ & Hv & Hn). by apply add_spec_lwf. Qed.

Lemma labels_yield hostname_g vl m : label m = [] → Forall settable (label_list hostname_g vl) →
  (let m1 := metric_label_set m $"instance" (Some (if bool_decide (vl_host vl = []) then hostname_g else vl_host vl)) in
   let m2 := if bool_decide (vl_plugin_instance vl = []) then m1 else label_or m1 (vl_plugin vl) (vl_plugin_instance vl) in
   if bool_decide (vl_type_instance vl = []) then m2
   else label_or m2 (if bool_decide (vl_plugin_instance vl = []) then vl_plugin vl else $"type") (vl_type_instance vl))
  ⇓ (0, plain_of (label_map (label_list hostname_g vl)) m).
Proof.
  intros Hl Hs. unfold label_list in *. apply Forall_cons_1 in Hs as [H1 Hs]. cbv zeta.
  assert (lwf []) as Hw0 by (split; constructor).
  pose proof (label_set_step m [] _ _ Hl Hw0 H1) as E1. pose proof (step_lwf [] _ _ Hw0 H1) as Hw1.
  destruct (bool_decide (vl_plugin_instance vl = [])).
  - destruct (bool_decide (vl_type_instance vl = [])); [exact E1|]. apply Forall_cons_1 in Hs as [H2 _].
    exact (label_or_step _ _ _ _ _ E1 eq_refl Hw1 H2).
  - apply Forall_cons_1 in Hs as [H2 Hs]. pose proof (label_or_step _ _ _ _ _ E1 eq_refl Hw1 H2) as E2.
    pose proof (step_lwf _ _ _ Hw1 H2) as Hw2. destruct (bool_decide (vl_type_instance vl = [])); [exact E2|].
    apply Forall_cons_1 in Hs as [H3 _]. exact (label_or_step _ _ _ _ _ E2 eq_refl Hw2 H3).
Qed.

Definition family_type (d : data_source_t) : metric_type_t := if ds_type d =? DS_TYPE_GAUGE then METRIC_TYPE_GAUGE else METRIC_TYPE_COUNTER.
Definition family_of (hostname_g : cstr) (vl : value_list_t) (d : data_source_t) (v : value_t) : metric_family_t :=
  mk_family (Some (family_text vl d)) None (family_type d)
    [mk_metric (embed (label_map (label_list hostname_g vl))) v (vl_time vl) (vl_interval vl) None].

(** A value becomes a family with one metric: the name says plugin, type and
    data source, the labels say host and instances. *)
Theorem value_list_family hostname_g vl ds i d v : set_ds ds !! i = Some d → vl_values vl !! i = Some v →
  Forall settable (label_list hostname_g vl) → plain_value (family_type d) v → no_nul (family_text vl d) →
  plugin_value_list_to_metric_family hostname_g vl ds i ⇓ inr (family_of hostname_g vl d v).
Proof.
  intros Hd Hv Hs Hp Hn. unfold plugin_value_list_to_metric_family. eapply yields_bind; [apply yields_alloc|]. cbn [negb].
  rewrite Hd. cbn [mopt]. rewrite bind_ret. destruct dynamic_create as [Hdyn Hnil].
  destruct (family_name_appends vl d STRBUF_CREATE Hdyn) as (b & Eb & Hdb & Tb). rewrite Hnil in Tb. cbn [app] in Tb.
  eapply yields_bind; [exact Eb|]. cbn [negb Z.eqb]. rewrite Hv. cbn [mopt]. rewrite bind_ret.
  eapply yields_bind; [by apply (labels_yield hostname_g vl (mk_metric [] v (vl_time vl) (vl_interval vl) None))|]. cbn [negb Z.eqb].
  set (m := plain_of _ _). assert (c_str <$> ptr b = Some (family_text vl d)) as ->.
  { rewrite <-Tb. apply dynamic_c_str; rewrite ?Tb; done. }
  eapply yields_bind.
  { eapply yields_bind; [eapply yields_bind; [apply (list_add_ok _ _ m)|apply yields_ret]|apply yields_ret].
    split_and!; [by eexists|exact Hp|done]. }
  cbv beta iota. eapply yields_bind; [by apply (metric_reset_ok m (label_map (label_list hostname_g vl)))|]. done.
Qed.
End family.

(** ** Dispatch *)

Section dispatch.
Context `{Sysconf, Strtod} (opts : list OConfig.cf_global_option_t) (hostname_g : cstr) (plugin_get_ds : cstr → option data_set_t)
  (now : Z) (ctx : plugin_ctx_t).

Definition stamped_family (iv : Z) (fam : metric_family_t) : metric_family_t := set_metrics fam (map (stamp now iv) (metric fam)).

(** A data source and its value that can become a family. *)
Definition convertible (vl : value_list_t) (d : data_source_t) (v : value_t) : Prop :=
  plain_value (family_type d) v ∧ no_nul (family_text vl d).

Definition elem_of_value (iv : Z) (vl : value_list_t) (d : data_source_t) (v : value_t) : queue_elem :=
  (stamped_family iv (family_of hostname_g vl d v), ctx).

Lemma dispatch_family_of iv vl d v s wql q : write_limit_high (limits s) = 0 → convertible vl d v →
  plugin_dispatch_metric_family s wql q now iv ctx (family_of hostname_g vl d v) ⇓ (0, Some (elem_of_value iv vl d v), s) ∧
  metric_family_free (family_of hostname_g vl d v) ⇓ tt.
Proof.
  intros Hh [Hp Hn]. split; [|by apply (free_embed _ _ _ (label_map (label_list hostname_g vl)))].
  unfold plugin_dispatch_metric_family. cbn [family_of metric length Nat.eqb]. unfold check_drop_value. rewrite Hh. cbn [Z.eqb].
  eapply (yields_bind _ _ (0, Some (elem_of_value iv vl d v))); [|apply yields_ret]. unfold enqueue_metric_family. eapply yields_bind.
  - apply (family_clone_ok _ (family_text vl d)); [done|]. apply Forall_cons_2; [|constructor]. split_and!; [by eexists|exact Hp|done].
  - cbv beta iota. eapply yields_bind; [apply yields_alloc|]. done.
Qed.

(** C31. A value list whose data set is known, while the write queue is not
    limited, memory lasts and the labels can be set: one family for each value
    is enqueued, in the order of the data sources, each with the time and interval of the value
    list, or the present time and the interval of the plugin where they are
    zero, with the context of the caller; the status is 0. *)
Theorem plugin_dispatch_values_spec load iv vl s ds : plugin_get_ds (vl_type vl) = Some ds → write_limit_high (limits s) = 0 →
  (length (vl_values vl) ≤ length (set_ds ds))%nat → Forall settable (label_list hostname_g vl) →
  Forall2 (convertible vl) (take (length (vl_values vl)) (set_ds ds)) (vl_values vl) →
  plugin_dispatch_values hostname_g plugin_get_ds now ctx load iv vl s ⇓
    (0, zip_with (elem_of_value iv vl) (set_ds ds) (vl_values vl), s).
Proof.
  intros Hds Hh Hlen Hs Hc. unfold plugin_dispatch_values. rewrite Hds.
  assert (∀ n i, (i + n)%nat = length (vl_values vl) →
    values_loop hostname_g now ctx load iv vl ds n i s ⇓
      (0, zip_with (elem_of_value iv vl) (drop i (set_ds ds)) (drop i (vl_values vl)), s)) as Hl; [|by apply (Hl _ 0%nat)].
  induction n as [|n IH]; intros i Hi; cbn [values_loop].
  { rewrite (drop_ge (vl_values vl)) by lia. by rewrite zip_with_nil_r. }
  destruct (lookup_lt_is_Some_2 (vl_values vl) i) as [v Hv]; [lia|].
  destruct (lookup_lt_is_Some_2 (set_ds ds) i) as [d Hd]; [lia|].
  assert (convertible vl d v) as Hcv.
  { apply (Forall2_lookup_lr _ _ _ i _ _ Hc); [|done]. rewrite lookup_take_lt by lia. done. }
  pose proof Hcv as [Hp Hn]. eapply yields_bind; [by apply (value_list_family hostname_g vl ds i d v)|]. cbv beta iota.
  destruct (load i) as [wql q]. destruct (dispatch_family_of iv vl d v s wql q Hh Hcv) as [Ed Ef].
  eapply yields_bind; [exact Ed|]. cbv beta iota. eapply yields_bind; [exact Ef|]. cbn [negb Z.eqb].
  eapply yields_bind; [apply IH; lia|]. cbv beta iota.
  by rewrite (drop_S _ d i Hd), (drop_S _ v i Hv).
Qed.
End dispatch.

(** ** Examples *)

#[local] Existing Instances demo_strtod.
#[local] Instance demo_page : Sysconf := 4096.

Definition demo_octets : value_list_t := set_names $"leeloo" $"interface" $"eth0" $"if_octets" [] (set_values [v_derive 5; v_counter 6] VALUE_LIST_INIT).
Definition demo_lookup : cstr → option data_set_t := λ nm, if bool_decide (nm = $"if_octets") then Some demo_ds else None.

Lemma plugin_dispatch_values_spec_witness : ∃ es,
  plugin_dispatch_values $"localhost" demo_lookup 7 (demo_ctx $"interface") (λ _, (0, fzero)) 10 demo_octets idle_state ⇓ (0, es, idle_state) ∧
  (λ e, fam_name e.1) <$> es = [Some $"collectd_interface_if_octets_rx_total"; Some $"collectd_interface_if_octets_tx_total"] ∧
  (λ e, label <$> head (metric e.1)) <$> es = replicate 2 (Some (embed [($"instance", $"leeloo"); ($"interface", $"eth0")])).
Proof.
  eexists. split.
  - apply (plugin_dispatch_values_spec $"localhost" demo_lookup 7 (demo_ctx $"interface") (λ _, (0, fzero)) 10 demo_octets idle_state demo_ds).
    + done.
    + done.
    + cbn. lia.
    + apply Forall_cons_2; [|apply Forall_cons_2; [|constructor]]; split_and!; try done; by apply (bool_decide_unpack _); vm_compute.
    + apply Forall2_cons_2; [|apply Forall2_cons_2; [|constructor]]; split; try done; by apply (bool_decide_unpack _); vm_compute.
  - by split; vm_compute.
Defined.

(** A copy that fails for want of memory destroys the meta data of the
    original, and plugin_dispatch_multivalue uses the missing copy. *)
Lemma value_list_no_memory :
  (fst <$> plugin_value_list_clone [] $"localhost" 7 (demo_ctx $"df") (set_vl_meta (Some (MetaData.mk_md [] false)) demo_octets) [true; false]) = Some (None, true) ∧
  plugin_dispatch_multivalue [] $"localhost" demo_lookup 7 (demo_ctx $"df") (0, fzero) (λ _ _, (0, fzero)) 10
    (set_values [v_gauge fzero] demo_octets) false DS_TYPE_GAUGE [($"used", v_gauge (of_Z 1))] idle_state [false] = None.
Proof. by split; vm_compute. Qed.

(** Shares of 1 and 3 in per cent. *)
Definition percent_ds : data_set_t :=
  {| Values.set_type := $"percent"; set_ds := [{| ds_name := $"value"; ds_type := DS_TYPE_GAUGE; ds_min := NAN; ds_max := NAN |}] |}.
Lemma multivalue_percent : ∃ es, plugin_dispatch_multivalue [] $"localhost" (λ _, Some percent_ds) 7 (demo_ctx $"df") (0, fzero) (λ _ _, (0, fzero)) 10
    (set_values [v_gauge fzero] demo_octets) true DS_TYPE_GAUGE [($"used", v_gauge (of_Z 1)); ($"free", v_gauge (of_Z 3))] idle_state ⇓ (0, es, idle_state) ∧
  (λ e, m_value <$> head (metric e.1)) <$> es = [Some (v_gauge (of_Z 25)); Some (v_gauge (of_Z 75))].
Proof. eexists. by split; vm_compute. Qed.
