(* ===== verification/Daemon.v ===== *)
(** * The daemon (src/daemon/collectd.c, cmd.c, globals.c)

    The command line, the global variables, the base directory, the start, the
    loop of the main thread, the single run and the end, composed from the
    configuration of ConfigFile.v and the plugins of Lifecycle.v; the signals to
    the supervisor and the PID file of [main].

    Built for Linux with COLLECT_DAEMON.  Parameters: the names of the host, the
    directories of the kernel, the answers of its other calls. *)

From Stdlib Require Import ZArith Lia Ascii String.
From stdpp Require Import base numbers option fin_maps gmap sorting list.
From S2P Require Import Prelude Double Heap LList WriteQueue Plugin Dispatch ReadLoop Values OConfig ConfigFile Lifecycle.
From S2P Require MapSpec CommonStr ConfigRead FilterChain TypesDb Time Cpu Avl.

(** ** The command line *)

Record cmdline_config : Type := mk_config {
  test_config : bool;
  test_readall : bool;
  create_basedir : bool;
  configfile : cstr;
  daemonize : bool;
}.

(** [getopt] with the options "BhtTfC:P:" *)
Definition takes_arg (c : ascii) : bool := bool_decide (c ∈ $"CP").
Definition flag (c : ascii) : bool := bool_decide (c ∈ $"BhtTf").

(** The options of one argument; [rest] are the arguments after it, and [true]
    says that the first of them is used.  What is not understood is '?'. *)
Fixpoint cluster (s : cstr) (rest : list cstr) : list (ascii * cstr) * bool :=
  match s with
  | [] => ([], false)
  | c :: s =>
      if takes_arg c then
        match s, rest with
        | _ :: _, _ => ([(c, s)], false)
        | [], a :: _ => ([(c, a)], true)
        | [], [] => ([("?"%char, [])], false)
        end
      else
        let '(os, used) := cluster s rest in ((if flag c then c else "?"%char, []) :: os, used)
  end.

(** All options, and the arguments that are none, which [getopt] moves to the
    end. *)
Fixpoint getopt (used : bool) (argv : list cstr) : list (ascii * cstr) * list cstr :=
  match argv with
  | [] => ([], [])
  | a :: argv =>
      if used then getopt false argv
      else if bool_decide (a = $"--") then ([], argv)
      else match a with
           | "-"%char :: (_ :: _) as s =>
               let '(os, used) := cluster s argv in
               let '(os', rest) := getopt used argv in (os ++ os', rest)
           | _ => let '(os, rest) := getopt false argv in (os, a :: rest)
           end
  end.

Definition EXIT_SUCCESS : Z := 0.
Definition EXIT_FAILURE : Z := 1.

(** [inl]: the program ends with this status. *)
Fixpoint read_cmdline (os : list (ascii * cstr)) (opts : options) (config : cmdline_config) : M (Z + options * cmdline_config) :=
  match os with
  | [] => ret (inr (opts, config))
  | (c, optarg) :: os =>
      let '(mk_config t ta b f d) := config in
      match c with
      | "B"%char => read_cmdline os opts (mk_config t ta false f d)
      | "C"%char => read_cmdline os opts (mk_config t ta b optarg d)
      | "t"%char => read_cmdline os opts (mk_config true ta b f d)
      | "T"%char =>
          let* '(_, opts) := global_option_set opts $"ReadThreads" (Some $"-1") true in
          read_cmdline os opts (mk_config t true b f false)
      | "P"%char =>
          let* '(_, opts) := global_option_set opts $"PIDFile" (Some optarg) true in
          read_cmdline os opts config
      | "f"%char => read_cmdline os opts (mk_config t ta b f false)
      | "h"%char => ret (inl EXIT_SUCCESS)
      | _ => ret (inl EXIT_FAILURE)
      end
  end.

(** ** Global variables *)

Record globals : Type := mk_globals { hostname_g : option cstr; interval_g : Z; timeout_g : Z }.

Definition hostname_set (g : globals) (hostname : cstr) : M globals :=
  let* ok := alloc in ret (if ok : bool then mk_globals (Some hostname) (interval_g g) (timeout_g g) else g).

(** [gethostname] with the size of its buffer; the canonical names of the
    addresses that [getaddrinfo] finds for a host. *)
Class HostNames : Type := {
  host_name_max : Z;
  gethostname : Z → option cstr;
  canonical_names : cstr → option (list (option cstr));
}.
Definition NI_MAXHOST : Z := 1025.

Section globals.
Context `{HostNames, Strtod}.

Definition first_name (ai_list : list (option cstr)) : option cstr := mjoin (head (filter is_Some ai_list)).

Definition init_hostname (opts : options) (g : globals) : M (Z * globals) :=
  match global_option_get opts $"Hostname" with
  | Some (c :: s) => let* g := hostname_set g (c :: s) in ret (0, g)
  | _ =>
      match gethostname (if host_name_max =? -1 then NI_MAXHOST else host_name_max) with
      | None => ret (-1, g)
      | Some hostname =>
          let* g := hostname_set g hostname in
          let* fqdn := mopt (global_option_get opts $"FQDNLookup") in
          if IS_FALSE fqdn then ret (0, g)
          else
            match canonical_names hostname with
            | None => ret (-1, g)
            | Some ai_list =>
                match first_name ai_list with
                | None => ret (0, g)
                | Some name => let* g := hostname_set g name in ret (0, g)
                end
            end
      end
  end.

Definition init_global_variables (opts : options) (g : globals) : M (Z * globals) :=
  let* interval := cf_get_default_interval opts in
  let g := mk_globals (hostname_g g) interval (timeout_g g) in
  let* _ := massert (0 <? interval) in
  let* timeout := Cpu.atoi (default $"2" (global_option_get opts $"Timeout")) in
  let g := mk_globals (hostname_g g) interval timeout in
  if timeout <=? 1 then ret (-1, g)
  else
    let* '(status, g) := init_hostname opts g in
    ret (if negb (status =? 0) then -1 else 0, g).
End globals.

(** ** The base directory *)

(** The two calls answer 0 or an errno. *)
Class Directory (K : Type) : Type := { chdir : K → cstr → Z * K; make_directory : K → cstr → Z * K }.

Fixpoint strip_slashes (rev_dir : cstr) : cstr :=
  match rev_dir with "/"%char :: r => strip_slashes r | _ => rev_dir end.

Definition change_basedir {K} `{Directory K} (orig_dir : cstr) (create : bool) (k : K) : M (Z * K) :=
  let* ok := alloc in
  if negb ok then ret (-1, k) else
  match rev (strip_slashes (rev orig_dir)) with
  | [] => ret (-1, k)
  | dir =>
      let '(e, k) := chdir k dir in
      if e =? 0 then ret (0, k)
      else if negb create || negb (e =? ENOENT) then ret (-1, k)
      else
        let '(e, k) := make_directory k dir in
        if negb (e =? 0) then ret (-1, k)
        else let '(e, k) := chdir k dir in ret (if negb (e =? 0) then -1 else 0, k)
  end.

(** ** The configuration *)

Section configure.
Context {CB CX DX K : Type} `{HostNames, Strtod, !Directory K, !Getaddrinfo, !Modules (CB := CB) (CX := CX) (D := DX), !ConfigRead.ConfigFS,
  !Callbacks (CB := CB) (CX := CX), !FormatDouble}.
Abbreviation W := (cf_state CB CX).

(** What the start has made. *)
Record booted : Type := mk_boot { b_fc : FilterChain.fc_state W DX; b_conf : W; b_globals : globals; b_kernel : K }.

Definition configure_collectd (fuel : nat) (types_db : cstr) (config : cmdline_config) (b : booted) : M (Z * booted) :=
  let* '(status, fc, w) := cf_read fuel types_db (configfile config) (b_fc b) (b_conf b) in
  let b := mk_boot fc w (b_globals b) (b_kernel b) in
  if negb (status =? 0) then ret (1, b)
  else
    match global_option_get (global_options w) $"BaseDir" with
    | None => ret (1, b)
    | Some basedir =>
        let* '(status, k) := change_basedir basedir (create_basedir config) (b_kernel b) in
        let b := mk_boot fc w (b_globals b) k in
        if negb (status =? 0) then ret (1, b)
        else
          let* '(status, g) := init_global_variables (global_options w) (b_globals b) in
          ret (if negb (status =? 0) then 1 else 0, mk_boot fc w g k)
    end.

(** [argv] without the name of the program. *)
Definition init_config (fuel : nat) (types_db CONFIGFILE : cstr) (argv : list cstr) (b : booted) :
    M (Z + cmdline_config * booted) :=
  let '(os, rest) := getopt false argv in
  let* r := read_cmdline os (global_options (b_conf b)) (mk_config false false true CONFIGFILE true) in
  match r with
  | inl status => ret (inl status)
  | inr (opts, config) =>
      if test_config config then ret (inl EXIT_SUCCESS)
      else match rest with
           | _ :: _ => ret (inl EXIT_FAILURE)
           | [] =>
               let* '(status, b) := configure_collectd fuel types_db config
                 (mk_boot (b_fc b) (set_options (b_conf b) opts) (b_globals b) (b_kernel b)) in
               ret (if negb (status =? 0) then inl EXIT_FAILURE else inr (config, b))
           end
  end.
End configure.

(** ** The loop of the main thread *)

Definition stop_collectd (loop : Z) : Z := loop + 1.

(** What [nanosleep] answers: the time is over; a signal interrupted it with
    this time left, [true] when the signal was to stop; it failed. *)
Inductive nap : Type := nap_over | nap_interrupted (remaining : Time.timespec) (stop : bool) | nap_failed.

(** The times that were asked for; [false] when it failed; [None] while there
    is no answer. *)
Fixpoint sleep_loop (loop : Z) (ts_wait : Time.timespec) (naps : list nap) : option (bool * Z * list Time.timespec) :=
  if negb (loop =? 0) then Some (true, loop, [])
  else
    match naps with
    | [] => None
    | nap_over :: _ => Some (true, loop, [ts_wait])
    | nap_interrupted remaining stop :: naps =>
        '(ok, loop, asked) ← sleep_loop (if stop then stop_collectd loop else loop) remaining naps; Some (ok, loop, ts_wait :: asked)
    | nap_failed :: _ => Some (false, loop, [ts_wait])
    end.

(** A round: the time after plugin_read_all, and what happens while it
    sleeps. *)
Record round : Type := mk_round { r_now : Z; r_stop : bool; r_naps : list nap }.

(** The status, and the sleeps of every round: none when the round was late. *)
Fixpoint do_loop (interval wait_until loop : Z) (rounds : list round) : option (Z * list (list Time.timespec)) :=
  if negb (loop =? 0) then Some (0, [])
  else
    match rounds with
    | [] => None
    | mk_round now stop naps :: rounds =>
        let loop := if stop then stop_collectd loop else loop in
        if wait_until <=? now then
          '(status, slept) ← do_loop interval (u64 (now + interval)) loop rounds; Some (status, [] :: slept)
        else
          '(ok, loop, asked) ← sleep_loop loop (Time.CDTIME_T_TO_TIMESPEC (u64 (wait_until - now))) naps;
          if negb ok then Some (-1, [asked])
          else '(status, slept) ← do_loop interval (u64 (wait_until + interval)) loop rounds; Some (status, asked :: slept)
    end.

(** ** From the start to the end *)

Section run.
Context {CB D : Type} {T : Type → Type} `{!MapSpec.KeyedMap cstr T, Strtod}.
Abbreviation plugins := (plugins (CB := CB) (D := D) (T := T)).
Implicit Types (p : plugins).

(** The callbacks that were called, and what the shutdown did. *)
Record run : Type := mk_run { init_calls : list call; read_calls : list read_func_t; shutdown_events : list (event (D := D)) }.

Context (opts : options) (run_init : callback_func_t CB D → plugins → M (Z * plugins)) (read : read_func_t → Z)
  (run_shutdown : callback_func_t CB D → plugins → M (Z * plugins)).

(** [others] is what the threads make of the plugins while this one is in its
    loop; its status is not looked at. *)
Definition run_loop {U V} (fc : FilterChain.fc_state U V) (test_readall : bool) (others : plugins → plugins) p
    (ctx : plugin_ctx_t) (now : Z) (create_w create_r : nat → Z) : M (Z * run * plugins) :=
  let* '(status, _, inits, p) := plugin_init_all opts run_init fc p ctx now create_w create_r in
  let exit_status := if negb (status =? 0) then 1 else 0 in
  let* '(exit_status, reads, p) :=
    if test_readall then
      let* '(status, calls, p) := plugin_read_all_once read p in
      ret (if negb (status =? 0) then 1 else exit_status, calls, p)
    else ret (exit_status, [], others p) in
  let* '(status, tr, p) := plugin_shutdown_all run_shutdown p in
  ret (if negb (status =? 0) then 1 else exit_status, mk_run inits reads tr, p).
End run.

(** The flush that SIGUSR1 starts in a thread of its own. *)
Definition do_flush {CB D} (r : registry CB D) : M (list call) := let* '(_, calls) := plugin_flush r None in ret calls.

(** ** The supervisor and the PID file (src/daemon/cmd.c) *)

Definition env : Type := gmap cstr cstr.

(** The status, the environment, and whether the process stopped itself. *)
Definition notify_upstart (e : env) : Z * env * bool :=
  match e !! $"UPSTART_JOB" with
  | None => (0, e, false)
  | Some job => if negb (strcmp job $"collectd" =? 0) then (0, e, false) else (1, delete $"UPSTART_JOB" e, true)
  end.

(** A datagram with the path and the length of its address. *)
Record datagram : Type := mk_datagram { sun_path : list ascii; su_size : Z; buffer : cstr }.
Definition SUN_PATH_SIZE : nat := 108.
Definition SIZEOF_SOCKADDR_UN : Z := 110.

(** [socket]: whether one can be made; [sendto]: whether it is sent. *)
Definition notify_systemd (e : env) (socket sendto : bool) : M (Z * env * list datagram) :=
  match e !! $"NOTIFY_SOCKET" with
  | None => ret (0, e, [])
  | Some notifysocket =>
      if (length notifysocket <? 2)%nat ||
         (negb (bool_decide (head notifysocket = Some "@"%char)) && negb (bool_decide (head notifysocket = Some "/"%char)))
      then ret (0, e, [])
      else
        let e := delete $"NOTIFY_SOCKET" e in
        if negb socket then ret (0, e, [])
        else
          let* path := CommonStr.sstrncpy (replicate SUN_PATH_SIZE NUL) 0 notifysocket SUN_PATH_SIZE in
          let '(path, size) :=
            if negb (bool_decide (head notifysocket = Some "@"%char)) then (path, SIZEOF_SOCKADDR_UN)
            else (<[0%nat := NUL]> path, Z.min (2 + Z.of_nat (length notifysocket)) SIZEOF_SOCKADDR_UN) in
          let d := mk_datagram path size ($"READY=1" ++ ["010"%char]) in
          ret (if sendto then (1, e, [d]) else (0, e, []))
  end.

(** What happens to the PID file. *)
Inductive pidfile_event : Type := pid_written (file : cstr) | pid_removed (file : cstr).

(** The answers of the kernel. *)
Record system : Type := mk_system {
  sys_socket : bool; sys_sendto : bool;
  sys_fork : Z; sys_fopen : bool;
  sys_null : Z; sys_stdout : Z; sys_stderr : Z; (* the descriptors of /dev/null *)
  sys_sigaction : bool;
}.

Definition pidfile_create (opts : options) (s : system) : M (Z * list pidfile_event) :=
  let* file := mopt (global_option_get opts $"PIDFile") in
  ret (if sys_fopen s then (0, [pid_written file]) else (1, [])).
Definition pidfile_remove (opts : options) : list pidfile_event :=
  match global_option_get opts $"PIDFile" with None => [] | Some file => [pid_removed file] end.

(** Whether to go to the background: the first notification that works ends
    it. *)
Definition unsupervised (e : env) (s : system) : M (bool * env * list datagram) :=
  let '(status, e, _) := notify_upstart e in
  if negb (status =? 0) then ret (false, e, [])
  else let* '(status, e, ds) := notify_systemd e (sys_socket s) (sys_sendto s) in ret (status =? 0, e, ds).

(** The fork with what the child does; [Some]: the process ends with this
    status. *)
Definition go_background (opts : options) (s : system) : M (option Z * list pidfile_event) :=
  if sys_fork s =? -1 then ret (Some 1, [])
  else if negb (sys_fork s =? 0) then ret (Some 0, [])
  else
    let* '(status, ev) := pidfile_create opts s in
    if negb (status =? 0) then ret (Some 2, ev)
    else ret (if (sys_null s =? 0) && (sys_stdout s =? 1) && (sys_stderr s =? 2) then None else Some 1, ev).

(** [main] after init_config; [running] is run_loop. *)
Definition main (opts : options) (config : cmdline_config) (e : env) (s : system) (running : M Z) :
    M (Z * list pidfile_event * list datagram) :=
  let* '(background, e, ds) := if daemonize config then unsupervised e s else ret (false, e, []) in
  let* '(ended, ev) := if background : bool then go_background opts s else ret (None, []) in
  match ended with
  | Some status => ret (status, ev, ds)
  | None =>
      if negb (sys_sigaction s) then ret (1, ev, ds)
      else
        let* status := running in
        ret (status, ev ++ (if daemonize config then pidfile_remove opts else []), ds)
  end.

(** ** The command line, read *)

(** With the option -t nothing is read: the program ends well whatever the
    configuration file holds. *)
Theorem test_config_reads_nothing `{HostNames, Strtod, !Directory K, !Getaddrinfo, !Modules (CB := CB) (CX := CX) (D := DX),
    !ConfigRead.ConfigFS, !Callbacks (CB := CB) (CX := CX), !FormatDouble} fuel types_db CONFIGFILE file
    (b : booted (CB := CB) (CX := CX) (DX := DX) (K := K)) :
  init_config fuel types_db CONFIGFILE [$"-t"; $"-C"; file] b = ret (inl EXIT_SUCCESS).
Proof. done. Qed.

Lemma flag_takes c : flag c = true → takes_arg c = false.
Proof. by destruct c as [[] [] [] [] [] [] [] []]. Qed.
Lemma cluster_flags fs rest : Forall (λ c, flag c = true) fs → cluster fs rest = (map (λ c, (c, [])) fs, false).
Proof.
  induction 1 as [|c fs Hc _ IH]; [done|]. cbn [cluster map]. by rewrite IH, Hc, flag_takes.
Qed.

(** What the command line sets of the global options. *)
Definition cli_setting (o : ascii * cstr) : list setting :=
  match o.1 with
  | "T"%char => [($"ReadThreads", Some $"-1", true)]
  | "P"%char => [($"PIDFile", Some o.2, true)]
  | _ => []
  end.

Lemma read_cmdline_settings os : ∀ opts config r, read_cmdline os opts config ⇓ r →
  match r with
  | inl status => status = EXIT_SUCCESS ∨ status = EXIT_FAILURE
  | inr (opts', config') => run_settings opts (os ≫= cli_setting) ⇓ opts' ∧
      (test_readall config' = true → test_readall config = true ∨ ($"ReadThreads", Some $"-1", true) ∈ os ≫= cli_setting)
  end.
Proof.
  induction os as [|[c arg] os IH]; intros opts [t ta b f d] r Hr; cbn [read_cmdline] in Hr.
  { apply (yields_det _ _ _ (yields_ret _)) in Hr as <-. split; [done|by left]. }
  pose proof (λ o cf Hx, IH o cf r Hx) as IH'. clear IH. cbn [mbind list_bind].
  assert (∀ k v (cf : cmdline_config), (let* '(_, opts) := global_option_set opts k (Some v) true in read_cmdline os opts cf) ⇓ r →
    ∃ opts1, global_option_set opts k (Some v) true ⇓ opts1 ∧ read_cmdline os opts1.2 cf ⇓ r) as Hset.
  { intros k v cf Hk. pose proof (global_option_set_yields opts k (Some v) true) as Ho. eexists. split; [exact Ho|].
    unfold yields in Hk. by rewrite (yields_bind_eq _ _ _ Ho) in Hk. }
  destruct c as [[] [] [] [] [] [] [] []];
    try (apply (yields_det _ _ _ (yields_ret _)) in Hr as <-; by auto); try (apply IH' in Hr; exact Hr).
  all: apply Hset in Hr as ([st opts1] & Ho & Hr); apply IH' in Hr; destruct r as [st'|[o' c']]; [done|];
    destruct Hr as [Hrun Ht]; cbn [cli_setting fst snd app run_settings]; split;
    [by eapply yields_bind; [exact Ho|]|rewrite elem_of_cons; naive_solver].
Qed.

Lemma run_settings_app opts l1 l2 : ∀ o1 o2, run_settings opts l1 ⇓ o1 → run_settings o1 l2 ⇓ o2 → run_settings opts (l1 ++ l2) ⇓ o2.
Proof.
  revert opts. induction l1 as [|[[k v] cli] l1 IH]; intros opts o1 o2 H1 H2; cbn [run_settings app] in *.
  { apply (yields_det _ _ _ (yields_ret _)) in H1 as <-. exact H2. }
  pose proof (global_option_set_yields opts k v cli) as Ho. unfold yields in H1. rewrite (yields_bind_eq _ _ _ Ho) in H1.
  eapply yields_bind; [exact Ho|]. by eapply IH.
Qed.

Lemma cli_setting_cases os x : x ∈ os ≫= cli_setting →
  x = ($"ReadThreads", Some $"-1", true) ∨ ∃ file, x = ($"PIDFile", Some file, true).
Proof.
  intros ([c arg] & Hx & _)%list_elem_of_bind. unfold cli_setting in Hx. cbn [fst snd] in Hx.
  destruct c as [[] [] [] [] [] [] [] []]; try (by apply elem_of_nil in Hx); apply list_elem_of_singleton in Hx as ->; eauto.
Qed.

(** The value that counts, when the command line gave one and never another. *)
Lemma effective_cli v l o : (∃ x, x ∈ l ∧ by_cli x) → (∀ x, x ∈ l → by_cli x → x.1.2 = Some v) → effective l o = Some v.
Proof.
  intros (x & Hx & Hc) Hall. unfold effective, last_setting. destruct (last (filter by_cli l)) as [[[k w] b]|] eqn:El.
  - apply last_Some_elem_of, list_elem_of_filter in El as [Hb Hin]. specialize (Hall _ Hin Hb). cbn in Hall. by subst w.
  - apply last_None in El. assert (x ∈ filter by_cli l) as Hf by (by apply list_elem_of_filter). rewrite El in Hf. by apply elem_of_nil in Hf.
Qed.

(** With the option -T, and whatever the configuration sets afterwards, there
    are to be -1 read threads. *)
Theorem test_readall_no_threads dir pid os config opts l :
  read_cmdline os (cf_global_options dir pid) (mk_config false false true config true) ⇓ inr opts →
  test_readall opts.2 = true → Forall (λ s, s.2 = false) l →
  ∃ opts', run_settings opts.1 l ⇓ opts' ∧ global_option_get opts' $"ReadThreads" = Some $"-1".
Proof.
  destruct opts as [opts cf]. intros Hr Ht Hl. apply read_cmdline_settings in Hr as [Hrun Hin]. destruct (Hin Ht) as [|Hin']; [done|]. cbn [fst snd].
  destruct (global_option_precedence dir pid ((os ≫= cli_setting) ++ l) $"ReadThreads") as (opts' & Hall & Hget).
  assert (∃ o2, run_settings opts l ⇓ o2) as [o2 Ho2].
  { clear. revert opts. induction l as [|[[k v] cli] l IH]; intros opts; [by eexists|]. cbn [run_settings].
    destruct (IH (alter (λ o, set_one o (k, v, cli)) (find_option opts k) opts)) as [o2 Ho2]. exists o2.
    by eapply yields_bind; [apply global_option_set_yields|]. }
  assert (opts' = o2) as -> by (eapply yields_det; [exact Hall|by eapply run_settings_app]).
  exists o2. split; [done|]. rewrite Hget. cbn [find_option lookup]. apply effective_cli.
  - eexists. split; [|by instantiate (1 := ($"ReadThreads", Some $"-1", true))]. apply list_elem_of_filter. split; [done|].
    apply elem_of_app. by left.
  - intros x [Hn [Hx|Hx]%elem_of_app]%list_elem_of_filter Hc.
    + apply cli_setting_cases in Hx as [->|[file ->]]; [done|]. by vm_compute in Hn.
    + rewrite list.Forall_forall in Hl. specialize (Hl x Hx). unfold by_cli in Hc. congruence.
Qed.

(** ** The base directory and the global variables *)

(** The directory without the slashes at its end is entered, and made before
    when that is wanted and it does not exist. *)
Theorem change_basedir_spec `{Directory K} dir create (k : K) :
  let d := rev (strip_slashes (rev dir)) in
  wp (change_basedir dir create k) (λ '(st, k'), (st = 0 ∨ st = -1) ∧
    (st = 0 → d ≠ [] ∧ (∃ k0, (chdir k0 d).1 = 0 ∧ k' = (chdir k0 d).2) ∧
       (create = false → (chdir k d).1 = 0))) ∧
  (d ≠ [] → ((chdir k d).1 = 0 ∨ create = true ∧ (chdir k d).1 = ENOENT ∧ (make_directory (chdir k d).2 d).1 = 0 ∧
      (chdir (make_directory (chdir k d).2 d).2 d).1 = 0) →
   ∃ k', change_basedir dir create k ⇓ (0, k')).
Proof.
  intros d. unfold change_basedir. fold d. destruct (rev (strip_slashes (rev dir))) as [|c s] eqn:Ed; subst d.
  { split; [|done]. apply wp_bind, wp_alloc. intros []; apply wp_ret; naive_solver. }
  destruct (chdir k (c :: s)) as [e k1] eqn:E1, (make_directory k1 (c :: s)) as [e2 k2] eqn:E2. cbn [fst snd].
  destruct (chdir k2 (c :: s)) as [e3 k3] eqn:E3. split.
  - apply wp_bind, wp_alloc. intros []; [|apply wp_ret; naive_solver]. cbn [negb]. rewrite E1. destruct (Z.eqb_spec e 0) as [->|He].
    { apply wp_ret. split_and!; [by left|]. intros _. split_and!; [done| |done]. exists k. by rewrite E1. }
    destruct create; [|apply wp_ret; naive_solver]. cbn [negb orb]. destruct (negb (e =? ENOENT)); [apply wp_ret; naive_solver|].
    rewrite E2. destruct (Z.eqb_spec e2 0) as [->|]; cbn [negb]; [|apply wp_ret; naive_solver].
    rewrite E3. apply wp_ret. destruct (Z.eqb_spec e3 0) as [->|]; cbn [negb]; [|naive_solver]. split; [by left|]. intros _.
    split_and!; [done| |done]. exists k2. by rewrite E3.
  - intros _ [->|(-> & -> & Hm & Hc)]; [exists k1; eapply yields_bind; [apply yields_alloc|]; cbn [negb]; by rewrite E1|].
    rewrite E2 in Hm, Hc. cbn [fst snd] in Hm, Hc. rewrite E3 in Hc. cbn in Hm, Hc. subst e2 e3. exists k3. eapply yields_bind; [apply yields_alloc|]. cbn [negb]. rewrite E1. cbn. rewrite E2. cbn.
    by rewrite E3.
Qed.

(** The root is never entered. *)
Lemma basedir_root_refused `{Directory K} create (k : K) : change_basedir $"/" create k ⇓ (-1, k).
Proof. done. Qed.

Theorem init_global_variables_spec `{HostNames, Strtod} opts g interval timeout :
  cf_get_default_interval opts = ret interval → 0 < interval → Cpu.atoi (default $"2" (global_option_get opts $"Timeout")) = ret timeout →
  is_Some (global_option_get opts $"FQDNLookup") →
  wp (init_global_variables opts g) (λ '(st, g'), interval_g g' = interval ∧ timeout_g g' = timeout ∧ (st = 0 ∨ st = -1) ∧
    (st = 0 → 2 ≤ timeout) ∧
    (hostname_g g' = hostname_g g ∨ ∃ h, hostname_g g' = Some h ∧
       (global_option_get opts $"Hostname" = Some h ∨ (∃ n, gethostname n = Some h) ∨
        ∃ n host l, gethostname n = Some host ∧ canonical_names host = Some l ∧ first_name l = Some h))).
Proof.
  intros Ei Hi Et [fq Ef]. unfold init_global_variables. rewrite Ei, bind_ret. cbn [hostname_g timeout_g].
  apply wp_bind, wp_massert; [by apply Z.ltb_lt|]. rewrite Et, bind_ret. destruct (Z.leb_spec timeout 1); [apply wp_ret; split_and!; eauto; lia|].
  assert (∀ g1 h, wp (hostname_set g1 h) (λ g2, g2 = g1 ∨ g2 = mk_globals (Some h) (interval_g g1) (timeout_g g1))) as Hset.
  { intros g1 h. apply wp_bind, wp_alloc. intros []; apply wp_ret; auto. }
  apply wp_bind. unfold init_hostname. destruct (global_option_get opts $"Hostname") as [[|c s]|] eqn:Eh.
  2: { apply wp_bind. eapply wp_mono; [apply Hset|]. intros g2 [-> | ->]; apply wp_ret, wp_ret; cbn; split_and!; eauto; lia. }
  all: set (n := if host_name_max =? -1 then NI_MAXHOST else host_name_max); destruct (gethostname n) as [host|] eqn:En;
    [|apply wp_ret, wp_ret; cbn; split_and!; eauto; lia]; apply wp_bind; (eapply wp_mono; [apply Hset|]); intros g2 Hg2; rewrite Ef;
    cbn [mopt]; rewrite bind_ret; destruct (IS_FALSE fq);
    [apply wp_ret, wp_ret; destruct Hg2 as [-> | ->]; cbn; split_and!; eauto 10; lia|];
    destruct (canonical_names host) as [l|] eqn:Ec;
    [|apply wp_ret, wp_ret; destruct Hg2 as [-> | ->]; cbn; split_and!; eauto 10; lia];
    destruct (first_name l) as [nm|] eqn:En2;
    [|apply wp_ret, wp_ret; destruct Hg2 as [-> | ->]; cbn; split_and!; eauto 10; lia];
    apply wp_bind; (eapply wp_mono; [apply Hset|]); intros g3 Hg3; apply wp_ret, wp_ret;
    destruct Hg2 as [-> | ->], Hg3 as [-> | ->]; cbn; split_and!; eauto 12; lia.
Qed.

(** An interval that is too short for the clock stops the daemon in an
    assertion. *)
Lemma short_interval_asserts `{HostNames, Strtod} opts g : cf_get_default_interval opts = ret 0 → init_global_variables opts g = crash.
Proof. intros E. unfold init_global_variables. by rewrite E, bind_ret. Qed.

(** ** The loop *)

(** The time at which the round after [r] is due. *)
Definition due (interval wait_until : Z) (r : round) : Z :=
  if wait_until <=? r_now r then r_now r + interval else wait_until + interval.
Fixpoint dues (interval wait_until : Z) (rounds : list round) : list Z :=
  match rounds with
  | [] => []
  | r :: rounds => wait_until :: dues interval (due interval wait_until r) rounds
  end.

(** A round whose sleep is perhaps interrupted, but not to stop. *)
Definition patient (n : nap) : Prop := match n with nap_over => True | nap_interrupted _ stop => stop = false | nap_failed => False end.
Definition calm (r : round) : Prop := r_stop r = false ∧ Forall patient (r_naps r) ∧ nap_over ∈ r_naps r.

(** It sleeps from its end to the time that is due, first for the whole time
    and after each interruption for what is left; not at all when it is
    late. *)
Definition sleeps_until (wait_until : Z) (r : round) (slept : list Time.timespec) : Prop :=
  if wait_until <=? r_now r then slept = []
  else ∃ more, slept = Time.CDTIME_T_TO_TIMESPEC (wait_until - r_now r) :: more ∧
         more `prefix_of` omap (λ n, match n with nap_interrupted ts _ => Some ts | _ => None end) (r_naps r).

Lemma sleep_loop_whole ts naps : Forall patient naps → nap_over ∈ naps →
  ∃ more, sleep_loop 0 ts naps = Some (true, 0, ts :: more) ∧
    more `prefix_of` omap (λ n, match n with nap_interrupted ts _ => Some ts | _ => None end) naps.
Proof.
  intros Hp Hin. revert ts. induction Hp as [|n naps Hn Hp IH]; intros ts; [by apply elem_of_nil in Hin|].
  destruct n as [|rest stop|]; [exists []; split; [done|apply prefix_nil]| |done]. cbn in Hn. subst stop.
  apply elem_of_cons in Hin as [?|Hin]; [done|]. destruct (IH Hin rest) as (more & E & Hpre). exists (rest :: more).
  cbn. rewrite E. split; [done|]. by apply prefix_cons.
Qed.

(** The main thread keeps its schedule: each round is due an interval after
    the one before was due, or after the one before has ended when that was
    late, and the thread sleeps until then; a round in which the daemon is told
    to stop is the last one, and the loop ends well. *)
Theorem do_loop_schedule interval rounds last : ∀ wait_until, 0 < interval →
  Forall (λ r, 0 ≤ r_now r ∧ r_now r + interval < 2 ^ 64) rounds → Forall calm rounds →
  Forall (λ t, 0 ≤ t ∧ t + interval < 2 ^ 64) (dues interval wait_until rounds) → r_stop last = true →
  ∃ slept, do_loop interval wait_until 0 (rounds ++ [last]) = Some (0, slept ++ [[]]) ∧
    Forall2 (λ x s, sleeps_until x.1 x.2 s) (zip (dues interval wait_until rounds) rounds) slept.
Proof.
  induction rounds as [|[now stop naps] rounds IH]; intros wait_until Hi Hn Hc Hd Hl.
  { exists []. split; [|constructor]. destruct last as [now stop naps]. cbn in Hl. subst stop. cbn.
    by destruct (wait_until <=? now), naps. }
  apply Forall_cons_1 in Hn as [[Hn0 Hn1] Hn], Hc as [(Hs & Hp & Ho) Hc]. cbn [dues] in Hd |- *.
  apply Forall_cons_1 in Hd as [[Hw0 Hw1] Hd]. cbn [r_stop r_now r_naps] in *. subst stop.
  destruct (IH _ Hi Hn Hc Hd Hl) as (slept & E & Hall). clear IH. unfold due in E, Hall. cbn [r_now] in E, Hall.
  cbn [do_loop app Z.eqb negb]. unfold due. cbn [r_now]. destruct (Z.leb_spec wait_until now) as [Hle|Hlt].
  - exists ([] :: slept). rewrite u64_small by (unfold in_u64; lia). rewrite E. split; [done|]. cbn [zip zip_with]. constructor; [|done].
    unfold sleeps_until. cbn. by rewrite (proj2 (Z.leb_le _ _)).
  - destruct (sleep_loop_whole (Time.CDTIME_T_TO_TIMESPEC (wait_until - now)) naps Hp Ho) as (more & Es & Hpre).
    exists ((Time.CDTIME_T_TO_TIMESPEC (wait_until - now) :: more) :: slept). rewrite !u64_small by (unfold in_u64; lia). rewrite Es. cbn [mbind option_bind negb].
    rewrite E. split; [done|]. cbn [zip zip_with]. constructor; [|done]. unfold sleeps_until. cbn [fst snd r_now r_naps].
    rewrite (proj2 (Z.leb_gt _ _)) by done. by exists more.
Qed.

Lemma do_loop_schedule_witness : ∃ slept,
  do_loop 10 10 0 ([mk_round 3 false [nap_interrupted (Time.CDTIME_T_TO_TIMESPEC 2) false; nap_over]; mk_round 25 false [nap_over]] ++
    [mk_round 26 true []]) = Some (0, slept ++ [[]]) ∧ length slept = 2%nat.
Proof.
  destruct (do_loop_schedule 10 [mk_round 3 false [nap_interrupted (Time.CDTIME_T_TO_TIMESPEC 2) false; nap_over]; mk_round 25 false [nap_over]]
    (mk_round 26 true []) 10) as (slept & E & Hall).
  - done.
  - by repeat constructor.
  - repeat constructor; by apply (bool_decide_unpack _).
  - by repeat constructor.
  - done.
  - exists slept. split; [exact E|]. by apply Forall2_length in Hall.
Defined.

(** ** The supervisor and the PID file *)

(** A datagram for an abstract address: its path is the name with a NUL for
    the "@", and its length covers exactly the name. *)
Lemma notify_systemd_abstract e name : e !! $"NOTIFY_SOCKET" = Some ("@"%char :: name) →
  (0 < length name < 107)%nat →
  ∃ path, notify_systemd e true true ⇓ (1, delete $"NOTIFY_SOCKET" e, [mk_datagram path (3 + Z.of_nat (length name)) ($"READY=1" ++ ["010"%char])]) ∧
    length path = 108%nat ∧ take (S (length name)) path = NUL :: name.
Proof.
  intros He Hlen. unfold notify_systemd. rewrite He. cbn [length head].
  rewrite (proj2 (Nat.ltb_ge _ _)) by lia. rewrite bool_decide_true by done. cbn [negb andb orb].
  pose proof (CommonStr.sstrncpy_at [] (replicate SUN_PATH_SIZE NUL) ("@"%char :: name) SUN_PATH_SIZE) as E. cbn [app length] in E.
  rewrite E by (rewrite length_replicate; unfold SUN_PATH_SIZE; lia). rewrite bind_ret. clear E.
  rewrite take_ge by (unfold SUN_PATH_SIZE; cbn [length]; lia). cbn [app insert list_insert].
  eexists. split_and!.
  - rewrite Z.min_l by (unfold SIZEOF_SOCKADDR_UN; lia). replace (2 + Z.of_nat (S (length name))) with (3 + Z.of_nat (length name)) by lia. apply yields_ret.
  - cbn [length]. rewrite !length_app, length_replicate, length_drop, length_replicate. cbn [length]. unfold SUN_PATH_SIZE in *. lia.
  - cbn [take]. by rewrite take_app_length.
Qed.

(** What happens to the PID file.  In the background it is written by the
    child and removed at the end, in the foreground it is not touched; but
    under a supervisor, where it was not written, it is removed. *)
Theorem main_pidfile opts config e e' s running status file background ds :
  global_option_get opts $"PIDFile" = Some file → sys_sigaction s = true → sys_fork s = 0 → sys_fopen s = true →
  sys_null s = 0 → sys_stdout s = 1 → sys_stderr s = 2 → running ⇓ status →
  unsupervised e s ⇓ (background, e', ds) →
  main opts config e s running ⇓
    (status,
     if daemonize config then (if background then [pid_written file] else []) ++ [pid_removed file] else [],
     if daemonize config then ds else []).
Proof.
  intros Hf Hsig Hfork Hopen H0 H1 H2 Hrun Hsup. unfold main. destruct (daemonize config).
  - eapply yields_bind; [exact Hsup|]. cbv beta iota. destruct background.
    + assert (go_background opts s ⇓ (None, [pid_written file])) as Hgo.
      { unfold go_background, pidfile_create. rewrite Hfork, Hf, Hopen, H0, H1, H2. done. }
      eapply yields_bind; [exact Hgo|]. cbv beta iota. rewrite Hsig. cbn [negb]. eapply yields_bind; [exact Hrun|]. unfold pidfile_remove. by rewrite Hf.
    + rewrite bind_ret. cbv beta iota. rewrite Hsig. cbn [negb]. eapply yields_bind; [exact Hrun|]. unfold pidfile_remove. by rewrite Hf.
  - rewrite !bind_ret. cbv beta iota. rewrite Hsig. cbn [negb]. eapply yields_bind; [exact Hrun|]. done.
Qed.

(** ** A whole run *)

Section run_spec.
Context {CB D : Type} {T : Type → Type} `{!MapSpec.KeyedMap cstr T} `{!MapSpec.KeyedMapLaws cstr T} `{Strtod}.
Abbreviation plugins := (plugins (CB := CB) (D := D) (T := T)).
Implicit Types (p : plugins).

Lemma lists_named p : (∀ l, ∃ kv, reg_repr (lists p l) kv) → ∃ kvs, ∀ l, reg_repr (lists p l) (kvs l).
Proof.
  intros Hall. destruct (Hall list_init) as [k1 ?], (Hall list_write) as [k2 ?], (Hall list_flush) as [k3 ?],
    (Hall list_missing) as [k4 ?], (Hall list_shutdown) as [k5 ?], (Hall list_log) as [k6 ?], (Hall list_notification) as [k7 ?].
  exists (λ l, match l with list_init => k1 | list_write => k2 | list_flush => k3 | list_missing => k4 | list_shutdown => k5
               | list_log => k6 | list_notification => k7 end). by intros [].
Qed.

(** Nothing of the plugins is left. *)
Definition all_gone p : Prop :=
  (∀ l, r_list (lists p l) = None ∧ r_mem (lists p l) = ∅) ∧ read_list (reads p) = [] ∧ data_sets p = None.

Context (opts : options) (run_init run_shutdown : callback_func_t CB D → plugins → M (Z * plugins)) (read : read_func_t → Z)
  (status sd_status : callback_func_t CB D → Z) (leaves : callback_func_t CB D → bool).
Context {U V : Type} (fc : FilterChain.fc_state U V) (pre post : option ptr) (mx num : Z) (Hread : readable opts fc pre post mx num).
Context (Hsd : ∀ x, well_behaved run_shutdown sd_status leaves x).

(** The end of a run: whatever is registered is called and freed. *)
Lemma shutdown_wp p : (∀ l, ∃ kv, reg_repr (lists p l) kv) → TypesDb.sets_ok (data_sets p) →
  rinv (set_list (reads p) []) → forallb is_rexit (readers (reads p)) = true →
  wp (plugin_shutdown_all run_shutdown p) (λ '(res, _, p'), all_gone p' ∧
    ∃ kv, reg_repr (lists p list_shutdown) kv ∧ res = (if forallb (λ x, sd_status x.2 =? 0) kv then 0 else -1)).
Proof.
  intros [kvs Hl]%lists_named Hsets Hinv Hex.
  eapply wp_mono; [apply (shutdown_all_wp run_shutdown sd_status leaves p kvs); try done; by apply list.Forall_forall|].
  intros [[res tr] p'] (-> & _ & Hgone & _ & _ & Hds & Hrl & _). split; [|by exists (kvs list_shutdown)].
  split_and!; [|done|done]. intros l. destruct (Hgone l) as (? & ? & _). done.
Qed.

(** The daemon from its start to its end, once the configuration was read,
    free of undefined behaviour: every init callback is called once in the
    order of registration; with the option -T every read callback is called
    once, in the order of their times, and without it the threads run until the
    daemon is told to stop ([others]); at the end nothing of the plugins is
    left.  The exit status is 0 only when no init callback and, with -T, no
    read callback failed, and 1 otherwise or when a shutdown callback
    failed. *)
Theorem run_loop_spec (test : bool) others p ctx now cw cr kv :
  reg_repr (lists p list_init) kv → is_Some (r_list (lists p list_init)) → Forall (registers run_init status) kv →
  plugins_ok p → write_threads p = None →
  (if test then num = -1 ∧ readers (reads p) = [] ∧ lost (reads p) = []
   else ∀ p1, plugins_ok p1 → plugins_ok (others p1) ∧ forallb is_rexit (readers (reads (others p1))) = true) →
  wp (run_loop opts run_init read run_shutdown fc test others p ctx now cw cr) (λ '(st, r, p'),
    init_calls r = calls_of kv ∧ all_gone p' ∧ StronglySorted read_order (read_calls r) ∧
    (test = false → read_calls r = []) ∧ (st = 0 ∨ st = 1) ∧
    (st = 0 → forallb (λ x, status x.2 =? 0) kv = true ∧ forallb (λ x, read x =? 0) (read_calls r) = true)).
Proof.
  intros Hkv Hl Hreg Hok Ew Hmode. unfold run_loop. apply wp_bind.
  eapply wp_mono; [by apply (init_all_wp run_init status opts fc pre post mx num Hread)|].
  intros [[[res st] calls] p1] (-> & -> & _ & _ & _ & (Hl1 & Hr1 & Hd1) & Hn).
  set (ok := forallb (λ x, status x.2 =? 0) kv). apply wp_bind.
  apply (wp_mono _ (λ '(es, reads', p2), (∀ l, ∃ kv, reg_repr (lists p2 l) kv) ∧ TypesDb.sets_ok (data_sets p2) ∧
    rinv (set_list (reads p2) []) ∧ forallb is_rexit (readers (reads p2)) = true ∧ StronglySorted read_order reads' ∧
    (test = false → reads' = []) ∧ es = (if ok && forallb (λ x, read x =? 0) reads' then 0 else 1))).
  - destruct test.
    + destruct Hmode as (Enum & Er & Elo). destruct (Hn Enum) as [Er1 Elo1]. rewrite Er in Er1. rewrite Elo in Elo1.
      destruct (heap_exists p1) eqn:Ex.
      * apply wp_bind. eapply wp_mono; [by apply plugin_read_all_once_spec|].
        intros [[res rcalls] p2] ((s & -> & Ers & _ & Hinv) & _ & Hs & -> & _). apply wp_ret. cbn [lists data_sets reads with_reads].
        split_and!; [done|done|done|by rewrite Ers|done|done|]. by destruct ok, (forallb _ rcalls).
      * unfold plugin_read_all_once. rewrite Ex. cbn [negb]. rewrite bind_ret. apply wp_ret. cbn [forallb].
        split_and!; [done|done|by apply rinv_unlisted|by rewrite Er1|constructor|done|by destruct ok].
    + destruct (Hmode p1) as [(Hl2 & Hr2 & Hd2) Hx2]; [done|]. apply wp_ret. cbn [forallb].
      split_and!; [done|done|by apply rinv_unlisted|done|constructor|done|by destruct ok].
  - intros [[es rcalls] p2] (Hl2 & Hd2 & Hr2 & Hx2 & Hs & Ht & ->). apply wp_bind. eapply wp_mono; [by apply shutdown_wp|].
    intros [[res tr] p3] (Hgone & sk & _ & ->). apply wp_ret. cbn [init_calls read_calls]. split_and!; [done..| |].
    + destruct (forallb _ sk), ok, (forallb _ rcalls); cbn; auto.
    + destruct (forallb (λ x, sd_status x.2 =? 0) sk), ok, (forallb (λ x, read x =? 0) rcalls); cbn; done || by intros.
Qed.
End run_spec.

(** A run of the daemon with two init callbacks. *)
#[local] Existing Instances Avl.avl_map Avl.avl_laws demo_strtod.
Lemma run_loop_spec_witness :
  wp (run_loop demo_options demo_init (λ _, 0) (λ cf p, ret (0, p)) demo_fc false (λ p, with_reads p (rinit 0))
        (demo_state init_only (rinit 0)) (demo_ctx $"") 0 (λ _, 0) (λ _, 0)) (λ '(st, r, p'),
    init_calls r = [($"csv", demo_ctx $"csv"); ($"Log", demo_ctx $"log")] ∧ st = 1 ∧ all_gone p').
Proof.
  eapply wp_mono; [eapply (run_loop_spec demo_options demo_init (λ cf p, ret (0, p)) (λ _, 0) (λ cf, cf_callback cf - 1) (λ _, 0) (λ _, false)
    demo_fc None None (Time.TIME_T_TO_CDTIME_T 86400) 5) with (kv := demo_kv)|].
  - split; try done; [exists $"false"|exists $"5"]; by split; vm_compute.
  - done.
  - apply (demo_lists init_only).
  - by eexists.
  - apply Forall_cons_2; [|apply Forall_cons_2; [|constructor]]; intros p Hp; by apply wp_ret.
  - apply demo_plugins_ok, rinit_inv.
  - done.
  - cbn beta iota. intros p (Hl & _ & Hd). split; [|done]. split_and!; [exact Hl|apply rinit_inv|exact Hd].
  - intros [[st r] p'] (-> & Hgone & _ & _ & Hst & Hok). split_and!; [by vm_compute| |done].
    destruct Hst as [->|]; [|done]. destruct (Hok eq_refl) as [Hbad _]. by vm_compute in Hbad.
Defined.
